(* ===== verification/_CoqProject ===== *)
-Q . S2P
Prelude.v
Zonelist.v
Relocation.v
Movebits.v
MovebitsProof.v
Shuffle.v
Bootsect.v
Libfat.v
Cache.v
Getfssec.v
Fs.v
Fat.v
FatDir.v
FatInit.v
Ext2Map.v
Ext2.v
Thread.v
ThreadProof.v
Mbox.v
Arena.v
Printf.v
Ctype.v
NumParse.v
Sort.v
Adv.v
Dhcp.v
Base64.v
Hash.v
Md5.v
Sha1.v
Sha2.v
CString.v
Passwd.v
CryptProof.v
PasswdProof.v
Disk.v
DiskProof.v
Partiter.v
PartiterProof.v
E820.v
Url.v
Ansi.v
VesaText.v
