(* ===== verification/Prelude.v ===== *)
(** * A verification of the core logic of Syslinux

    Syslinux is a family of boot loaders (SYSLINUX for FAT, EXTLINUX, ISOLINUX,
    PXELINUX) with a small core (core/), a C library and modules that run on top
    of it (com32/), installers that write the loader to a disk (libinstaller/,
    extlinux/) and MEMDISK.  This library models, function by function, the parts
    of it that compute: each Rocq definition carries in its comment the file, the
    lines and the C symbol it translates.

    ** Conventions

    Machine words are integers in [Z], wrapped where the code wraps ([u8], [u16],
    [u32], [u64], [s32]); a byte is a [Z] below 256; buffers and C strings are
    lists of bytes, and the little-endian fields in them are read and written by
    [get_32] and [set_32].  [None] is what C leaves undefined, or a path that does
    not return: an access outside an object, a NULL dereference, an endless loop
    that a fuel stands for.  A fuel is always computed from the sizes at hand and
    every component proves that it is enough, or that no fuel is.  Where a
    component only tests whether malloc succeeded, the allocator is the oracle
    [Mem.t]; theorems hold for all its answers.

    ** The parts, and the files that model them

    - Booting (com32/lib/syslinux).  [Zonelist]: the memory map of
      zonelist.c, a list of zones with the abstract view [memmap_at], the type of
      every address.  [Relocation]: an abstract machine that moves bytes between
      pieces of memory that are free, claimed or still needed, with the invariant
      that nothing asked for is lost.  [Movebits] and [MovebitsProof]: the
      move-list computation of movebits.c and addlist.c, in a monad over the
      allocator with the bail-out of longjmp, and its refinement of that machine.
      [Shuffle]: shuffle.c, which turns the move list and the memory map into the
      table the assembly shuffler executes.
    - The installers (libinstaller, libfat).  [Libfat]: the FAT reader of libfat,
      its sector cache, cluster chains and directory search.  [Bootsect]: the sector
      map, the patch areas and the checksum that syslxmod.c writes into ldlinux.sys,
      and the merge and the sanity checks of boot sectors of fs.c.  [Adv]: the auxiliary data vector,
      in the loader (com32/elflink/ldlinux) and in the installers (setadv.c), over
      the same abstract list of items.
    - The core (core).  [Thread] and [ThreadProof]: threads, semaphores, timeouts
      and the scheduler of core/thread with the hook of core/fs/pxe/isr.c, as a
      machine whose events are the sections that run with interrupts locked out.
      [Mbox]: the mailboxes of mbox.c, over those semaphores with their wait queues.
      [Arena]: the allocator of core/mem over a memory of block headers.
      [Cache]: the block cache of core/fs/cache.c, descriptors linked in a ring over
      one buffer, which is an instance of the class of block readers.  [Getfssec]:
      the generic read routine of core/fs/getfssec.c, over the class of drivers
      that map a file's sectors to runs on the disk.  [Fs]: the file system layer of
      core/fs/fs.c and chdir.c, inodes with their reference counts and the walk of a
      path over the directories of a driver.  [Fat], [FatDir] and [FatInit]:
      the FAT driver of core/fs/fat: the allocation table and the extents of files,
      the names and directories, the set-up from the boot sector.  [Ext2Map]: the
      block map of ext2 to ext4, tables of pointers and trees of extents, a second
      driver under the generic reader; [Ext2]: its directories and inodes.  [Url]: the URLs
      of PXELINUX, taken apart and unescaped in place (core/fs/pxe/urlparse.c).
    - The C library (com32/lib).  [Printf]: vsnprintf.c.  [Ctype]: ctypes.c.
      [NumParse]: strntoumax.c and the functions defined from it.  [Sort]: the
      comb sort of qsort.c.  [CString]: the string and memory functions.
      [Dhcp]: dhcppack.c and dhcpunpack.c.  [Base64]: com32/libutil.  [Hash], [Md5],
      [Sha1] and [Sha2]: the hashes of com32/libutil, through their buffers, against
      the standards that define them; [Passwd], [CryptProof] and [PasswdProof]: the
      crypts made of the hashes and the comparison of passwords of com32/menu.
      [Disk] and [DiskProof]: sectors and disks through interrupt 13h, disk.c, over the
      documented behaviour of the BIOS.  [Partiter] and [PartiterProof]: the iterator
      over the partitions of a disk, com32/chain/partiter.c, over the class of readers of
      sectors that such a disk is an instance of.
      [Ansi]: the terminal of the consoles, ansi.c, whose characters make calls of a
      device.  [VesaText]: the graphics console's array of characters, drawtxt.c,
      which is such a device.
    - MEMDISK (memdisk).  [E820]: the memory map of e820func.c, an array of ranges
      with the abstract view [type_at], and what msetup.c and setup.c do with it.
    - This file: words, alignment (com32/include/syslinux/align.h), buffers,
      the allocator seen as an oracle, and the tactics all of them use ([ulia],
      [bools], [zdec], [split_ifs]).

    They meet where the code's parts call each other: shuffle.c's correctness is
    proved from the move list's, which is proved from the memory map's and the
    abstract machine's; the number parser reads back what the formatter writes;
    what the terminal calls for is on the screen, so the graphics console stays inside
    of its array; the steps of a mailbox are shown to be the calls of [Thread]'s semaphores
    that no interrupt cuts in two.  Files are read through a stack of
    interfaces, the cache under the FAT under the generic reader, and a theorem about
    the whole stack; the core's driver and the installers' reader are shown to lay a
    volume out in the same way.

    ** What the theorems show

    - Refinement: the move list relocates every byte it was asked for, and the
      table given to the shuffler does so when executed; a file read through the
      cache and the FAT is the content of its chain of clusters, and a directory is
      searched as a list of files; a path is walked as in a tree of names, with
      no inode in sight; the ADV routines are
      lookup and replacement in a list of items; vsnprintf writes a prefix of one
      text whatever the buffer, when the call is defined and the text is shorter than 2^32.
    - Layout: text written to a console of any size is laid out line by line and
      scrolled, and what is on the screen has been drawn.
    - Invariants: every inode is counted as often as it is referred to, on every
      way out of a search; memory maps stay ordered and complete, the heap stays a
      partition into blocks with its free list, wait queues and threads agree,
      a semaphore's count accounts for every up, grant and waiting thread, as long as none is
      killed.
    - Safety and liveness under interleaving: an uninterrupted semaphore loses no
      wake-up and grants no more than it has; so used, a mailbox is a first-in
      first-out queue, overwrites nothing and never deadlocks; the scheduler picks the right thread; the move
      list computation does not get stuck when there is room.
    - Disks: what is read is on the drive, by whichever way of addressing, and what a
      partition table and its chains or copies describe is what is listed; no disk, however
      damaged, makes the iteration leave its sectors or run for ever.
    - Round trips: ADV set and get, DHCP pack and unpack, Base64, numbers printed
      and read, the identifiers of partitions, and the sectors of a file and their extents.
    - Termination: the fuels are enough (sort, move list, timeouts, heap), or no
      fuel is where the code loops (installer_setadv_diverges,
      exit_in_hook_loops).
    - Where the code does not do what it means to, a theorem exhibits it:
      unaligned evictions and terminal zones in movebits.c, interrupts in
      sem_down and sem_up, the FAT12 limit in fs.c, strlcpy's terminator,
      and a few more named in the files.

    ** Bounds chosen

    [size_t], [long] and pointers have 32 bits, [long long] 64, as in the 32-bit
    builds of the core and of com32.  The heap theorems assume the arenas lie in
    the 32-bit address space; the theorem on uninterrupted semaphores that the ups stay below 2^31, those
    on mailboxes that slots and threads do;
    the comparison functions given to qsort are arbitrary.  Thread numbers are
    below 2^18, since a thread takes more than 16 KB of the 4 GB of memory.

    ** Not modelled, and why

    - Assembly (the shuffler, the boot sectors, stack switching): it is specified
      by what its callers rely on ([run_descriptors], the events of [Thread]).
    - BIOS, EFI and PXE calls, consoles, video, real disks and file descriptors:
      input and output only.
    - gPXE, lwIP, zlib, libpng, jpeg, Lua, LZO, DMI tables: third-party or vendored.
    - The other file system drivers (core/fs: iso9660, ntfs, btrfs, xfs, ufs) were not
      reached; they would be further instances of the interfaces of [Fs] and [Getfssec],
      over [Cache].  The configuration parser and the menus (com32/elflink, com32/menu)
      are interactive and work on global state, the ELF module loader relocates machine
      code, and the set-up of MEMDISK patches a driver in assembly. *)

From Stdlib Require Export ZArith Lia.
From stdpp Require Export prelude strings gmap.

Open Scope Z_scope.

(** ** Machine words *)

(** Unsigned arithmetic of the given width, with its wrap-around. *)
Definition u8 (z : Z) : Z := z mod 256.
Definition u16 (z : Z) : Z := z mod 65536.
Definition u32 (z : Z) : Z := z mod 4294967296.
Definition u64 (z : Z) : Z := z mod 18446744073709551616.

(** Conversion of an unsigned 32-bit pattern to [int]. *)
Definition s32 (z : Z) : Z := u32 (z + 2147483648) - 2147483648.

Definition is_u32 (z : Z) : Prop := 0 <= z < 4294967296.
Definition is_byte (z : Z) : Prop := 0 <= z < 256.

Declare Scope word_scope.
Delimit Scope word_scope with word.
Notation "a ⊞ b" := (u32 (a + b)) (at level 50, left associativity) : word_scope.
Notation "a ⊟ b" := (u32 (a - b)) (at level 50, left associativity) : word_scope.

Create HintDb words.
Create Rewrite HintDb words.

(** [ulia] is [lia] that also knows the wrap-around of the word operations. *)
Ltac ulia :=
  unfold is_u32, is_byte, s32, u8, u16, u32, u64 in *;
  Z.to_euclidean_division_equations; lia.

Lemma u8_range z : 0 <= u8 z < 256.
Proof. ulia. Qed.

Lemma u16_range z : 0 <= u16 z < 65536.
Proof. ulia. Qed.

Lemma u32_range z : 0 <= u32 z < 4294967296.
Proof. ulia. Qed.

Lemma u8_small z : 0 <= z < 256 -> u8 z = z.
Proof. apply Z.mod_small. Qed.

Lemma u16_small z : 0 <= z < 65536 -> u16 z = z.
Proof. apply Z.mod_small. Qed.

Lemma u32_small z : 0 <= z < 4294967296 -> u32 z = z.
Proof. apply Z.mod_small. Qed.

Lemma s32_of_small a : -2147483648 <= a < 2147483648 -> s32 a = a.
Proof. ulia. Qed.

Lemma u64_range z : 0 <= u64 z < 18446744073709551616.
Proof. ulia. Qed.

Lemma u64_small z : 0 <= z < 18446744073709551616 -> u64 z = z.
Proof. apply Z.mod_small. Qed.

#[export] Hint Resolve u8_range u16_range u32_range u64_range : words.
#[export] Hint Rewrite u8_small u16_small u32_small using lia : words.

(** A byte extracted from a word by shifting is a byte. *)
Lemma land_255 z : Z.land z 255 = u8 z.
Proof. change 255 with (Z.ones 8). now rewrite Z.land_ones. Qed.

(** Joining bit fields: a disjunction of disjoint fields is a sum. *)
Lemma lor_add x y n : 0 <= n -> 0 <= y < 2 ^ n -> Z.lor (x * 2 ^ n) y = x * 2 ^ n + y.
Proof.
  intros Hn Hy; rewrite <- Z.add_lor_land.
  enough (Z.land (x * 2 ^ n) y = 0) as -> by lia.
  apply Z.bits_inj'; intros i Hi; rewrite Z.land_spec, Z.bits_0, Z.mul_pow2_bits by lia.
  destruct (Z.lt_ge_cases i n) as [Hlt|Hge].
  - now rewrite Z.testbit_neg_r by lia.
  - rewrite <- (Z.mod_small y (2 ^ n)), Z.mod_pow2_bits_high by lia. apply andb_false_r.
Qed.

Lemma shiftl_lor_add x y n : 0 <= n -> 0 <= y < 2 ^ n -> Z.lor (Z.shiftl x n) y = x * 2 ^ n + y.
Proof. intros; rewrite Z.shiftl_mul_pow2 by lia; now apply lor_add. Qed.

Lemma u8_byte z : is_byte (u8 z).
Proof. apply u8_range. Qed.

#[export] Hint Resolve u8_byte : words.
#[export] Hint Extern 8 (_ <= _) => lia : words.
#[export] Hint Extern 8 (_ < _) => lia : words.
#[export] Hint Extern 8 (@eq Z _ _) => lia : words.

(** ** Alignment: com32/include/syslinux/align.h, on 32-bit addresses *)

(** [src/com32/include/syslinux/align.h:32-35 __align_down] *)
Definition align_down (p a : Z) : Z := Z.land p (u32 (Z.lnot (u32 (a - 1)))).

(** [src/com32/include/syslinux/align.h:37-40 __align_up] *)
Definition align_up (p a : Z) : Z :=
  Z.land (u32 (p + a - 1)) (u32 (Z.lnot (u32 (a - 1)))).

Lemma align_down_spec p k :
  0 <= k < 32 -> is_u32 p -> align_down p (2 ^ k) = 2 ^ k * (p / 2 ^ k).
Proof.
  intros Hk Hp; unfold align_down.
  assert (0 < 2 ^ k < 2 ^ 32) by (split; [lia|apply Z.pow_lt_mono_r; lia]).
  rewrite (u32_small (2 ^ k - 1)) by lia.
  replace (2 ^ k - 1) with (Z.ones k) by (rewrite Z.ones_equiv; lia); unfold u32.
  change 4294967296 with (2 ^ 32); rewrite <- Z.land_ones by lia.
  rewrite (Z.land_comm (Z.lnot _)), Z.land_assoc, Z.land_ones, Z.mod_small
    by (unfold is_u32 in Hp; lia).
  rewrite <- Z.ldiff_land, Z.ldiff_ones_r, Z.shiftl_mul_pow2, Z.shiftr_div_pow2 by lia; lia.
Qed.

Lemma align_up_down p a : align_up p a = align_down (u32 (p + a - 1)) a.
Proof. reflexivity. Qed.

(** Without wrap-around, [align_up] is the least multiple not below. *)
Lemma align_up_spec p k :
  0 <= k < 32 -> 0 <= p -> p + 2 ^ k <= 4294967296 ->
  p <= align_up p (2 ^ k) < p + 2 ^ k /\ (2 ^ k | align_up p (2 ^ k)).
Proof.
  intros Hk Hp Hs.
  assert (0 < 2 ^ k) by lia.
  rewrite align_up_down, u32_small, align_down_spec by (unfold is_u32; lia).
  split; [|exists ((p + 2 ^ k - 1) / 2 ^ k); lia].
  pose proof (Z.div_mod (p + 2 ^ k - 1) (2 ^ k)).
  pose proof (Z.mod_pos_bound (p + 2 ^ k - 1) (2 ^ k)). lia.
Qed.

(** No multiple lies strictly between an address and its [align_up]. *)
Lemma align_up_least p k q :
  0 <= k < 32 -> 0 <= p -> p + 2 ^ k <= 4294967296 ->
  (2 ^ k | q) -> p <= q -> align_up p (2 ^ k) <= q.
Proof.
  intros Hk Hp Hs [c ->] Hq.
  destruct (align_up_spec p k) as [[H1 H2] [d Hd]]; auto.
  rewrite Hd in *; assert (0 < 2 ^ k) by lia.
  assert (d < c + 1) by (apply (Z.mul_lt_mono_pos_r (2 ^ k)); lia).
  apply Z.mul_le_mono_nonneg_r; lia.
Qed.

(** ** Decisions turned into facts *)

(** Destructs every boolean comparison and decision of the goal and the
    context into the fact it stands for. *)
Ltac bools :=
  repeat match goal with
  | H : andb _ _ = true |- _ => apply andb_true_iff in H as [? ?]
  | H : andb _ _ = false |- _ => apply andb_false_iff in H as [?|?]
  | H : orb _ _ = true |- _ => apply orb_true_iff in H as [?|?]
  | H : orb _ _ = false |- _ => apply orb_false_iff in H as [? ?]
  | H : negb _ = true |- _ => apply negb_true_iff in H
  | H : negb _ = false |- _ => apply negb_false_iff in H
  | H : (_ <? _) = true |- _ => apply Z.ltb_lt in H
  | H : (_ <? _) = false |- _ => apply Z.ltb_ge in H
  | H : (_ <=? _) = true |- _ => apply Z.leb_le in H
  | H : (_ <=? _) = false |- _ => apply Z.leb_gt in H
  | H : (_ =? _) = true |- _ => apply Z.eqb_eq in H
  | H : (_ =? _) = false |- _ => apply Z.eqb_neq in H
  | H : bool_decide _ = true |- _ => apply bool_decide_eq_true in H
  | H : bool_decide _ = false |- _ => apply bool_decide_eq_false in H
  end.

(** Evaluates the integer comparisons of the goal that the context decides. *)
Ltac zdec :=
  repeat match goal with
  | |- context [?a <? ?b] =>
      first [ rewrite (proj2 (Z.ltb_lt a b)) by lia | rewrite (proj2 (Z.ltb_ge a b)) by lia ]
  | |- context [?a <=? ?b] =>
      first [ rewrite (proj2 (Z.leb_le a b)) by lia | rewrite (proj2 (Z.leb_gt a b)) by lia ]
  | |- context [?a =? ?b] =>
      first [ rewrite (proj2 (Z.eqb_eq a b)) by lia | rewrite (proj2 (Z.eqb_neq a b)) by lia ]
  end.

(** Splits on the first conditional found in the goal. *)
Ltac split_if :=
  match goal with
  | |- context [if ?b then _ else _] =>
      lazymatch type of b with
      | bool => let E := fresh "E" in destruct b eqn:E; bools
      | _ => let E := fresh "E" in destruct b as [E|E]
      end
  end.

Ltac split_ifs := repeat split_if.

(** ** The option monad: [None] is a failed or undefined computation *)

Notation "'let*' x := m 'in' k" :=
  (match m with Some x => k | None => None end)
    (at level 10, x pattern, m at level 100, k at level 200).

(** ** Buffers: lists of bytes read and written at offsets *)

(** Writing [bs] into the buffer [mem] from [off] on. *)
Fixpoint blit (off : nat) (bs mem : list Z) : list Z :=
  match bs with
  | [] => mem
  | b :: bs => blit (S off) bs (<[off := b]> mem)
  end.

Definition slice (off len : nat) (mem : list Z) : list Z := take len (drop off mem).

Definition byte_at (mem : list Z) (i : nat) : Z := default 0 (mem !! i).

(** Little-endian fields.
    [src/libinstaller/syslxint.h:46-54 get_16] *)
Definition get_16 (mem : list Z) (off : nat) : Z :=
  byte_at mem off + 256 * byte_at mem (off + 1).

(** [src/libinstaller/syslxint.h:56-65 get_32] *)
Definition get_32 (mem : list Z) (off : nat) : Z :=
  get_16 mem off + 65536 * get_16 mem (off + 2).

Definition bytes_32 (v : Z) : list Z :=
  [u8 v; u8 (v / 256); u8 (v / 65536); u8 (v / 16777216)].

(** [src/libinstaller/syslxint.h:95-105 set_32] *)
Definition set_32 (mem : list Z) (off : nat) (v : Z) : list Z := blit off (bytes_32 v) mem.

Lemma length_blit bs : forall off mem, length (blit off bs mem) = length mem.
Proof. induction bs; intros; simpl; auto. now rewrite IHbs, length_insert. Qed.

Lemma blit_lookup bs : forall off mem j, (j < length mem)%nat ->
  blit off bs mem !! j =
    if decide (off <= j < off + length bs)%nat then bs !! (j - off)%nat else mem !! j.
Proof.
  induction bs as [|b bs IH]; intros off mem j Hj; simpl.
  - destruct (decide _); auto; lia.
  - rewrite IH by (rewrite length_insert; lia).
    destruct (decide (S off <= j < S off + length bs)%nat).
    + rewrite decide_True by lia. replace (j - off)%nat with (S (j - S off)) by lia; done.
    + destruct (decide (j = off)) as [->|].
      * rewrite decide_True by lia. rewrite list_lookup_insert_eq by auto.
        now rewrite Nat.sub_diag.
      * rewrite list_lookup_insert_ne by auto. rewrite decide_False by lia. auto.
Qed.

Lemma blit_app l1 : forall q l2 b, blit q (l1 ++ l2) b = blit (q + length l1) l2 (blit q l1 b).
Proof.
  induction l1 as [|x l1 IH]; intros q l2 b; simpl; [now rewrite Nat.add_0_r|].
  now rewrite IH, Nat.add_succ_r.
Qed.

(** Reading where nothing was written, and where a block was written. *)
Lemma byte_at_blit_out off bs mem i :
  ~ (off <= i < off + length bs)%nat -> byte_at (blit off bs mem) i = byte_at mem i.
Proof.
  intros H; unfold byte_at; destruct (decide (i < length mem)%nat).
  - now rewrite blit_lookup, decide_False.
  - now rewrite !lookup_ge_None_2 by (rewrite ?length_blit; lia).
Qed.

Lemma byte_at_blit_in off bs mem i :
  (off + length bs <= length mem)%nat -> (i < length bs)%nat ->
  byte_at (blit off bs mem) (off + i) = byte_at bs i.
Proof.
  intros H Hi; unfold byte_at; rewrite blit_lookup, decide_True by lia.
  now replace (off + i - off)%nat with i by lia.
Qed.

Lemma get_32_blit_out off bs mem i :
  (i + 4 <= off \/ off + length bs <= i)%nat -> get_32 (blit off bs mem) i = get_32 mem i.
Proof. intros H; unfold get_32, get_16; now rewrite !byte_at_blit_out by lia. Qed.

Lemma get_32_blit_in off bs mem i :
  (off + length bs <= length mem)%nat -> (i + 4 <= length bs)%nat ->
  get_32 (blit off bs mem) (off + i) = get_32 bs i.
Proof.
  intros H Hi; unfold get_32, get_16.
  rewrite <- !Nat.add_assoc; now rewrite !byte_at_blit_in by lia.
Qed.

Lemma get_set_32 mem off v :
  (off + 4 <= length mem)%nat -> get_32 (set_32 mem off v) off = u32 v.
Proof.
  intros H; unfold set_32; rewrite <- (Nat.add_0_r off) at 2.
  rewrite get_32_blit_in by (simpl; lia).
  unfold get_32, get_16, byte_at, bytes_32; simpl; ulia.
Qed.

Lemma get_set_32_ne mem off i v :
  (i + 4 <= off \/ off + 4 <= i)%nat -> get_32 (set_32 mem off v) i = get_32 mem i.
Proof. intros; now apply get_32_blit_out. Qed.

Lemma length_set_32 mem off v : length (set_32 mem off v) = length mem.
Proof. apply length_blit. Qed.

(** Pieces of a buffer. *)
Lemma slice_ext (m1 m2 : list Z) off len :
  (off + len <= length m1)%nat -> length m1 = length m2 ->
  (forall i, (off <= i < off + len)%nat -> byte_at m1 i = byte_at m2 i) ->
  slice off len m1 = slice off len m2.
Proof.
  intros Hl Hm H; unfold slice.
  apply list_eq_same_length with (n := len); rewrite ?length_take, ?length_drop; try lia.
  intros i x y Hi; rewrite !lookup_take_lt, !lookup_drop by lia.
  specialize (H (off + i)%nat ltac:(lia)); unfold byte_at in H.
  now intros E1 E2; rewrite E1, E2 in H.
Qed.

Lemma slice_blit_in off bs (mem : list Z) :
  (off + length bs <= length mem)%nat -> slice off (length bs) (blit off bs mem) = bs.
Proof.
  intros H; unfold slice.
  apply list_eq_same_length with (n := length bs);
    rewrite ?length_take, ?length_drop, ?length_blit; try lia.
  intros i x y Hi; rewrite lookup_take_lt, lookup_drop, blit_lookup, decide_True by lia.
  replace (off + i - off)%nat with i by lia; congruence.
Qed.

Lemma slice_blit_slice off n (src mem : list Z) :
  (off + n <= length src)%nat -> (off + n <= length mem)%nat ->
  slice off n (blit off (slice off n src) mem) = slice off n src.
Proof.
  intros Hs Hm.
  assert (L : length (slice off n src) = n)
    by (unfold slice; rewrite length_take, length_drop; lia).
  rewrite <- L at 1; apply slice_blit_in; lia.
Qed.

Lemma slice_blit_out off bs (mem : list Z) p n :
  (p + n <= length mem)%nat -> (p + n <= off \/ off + length bs <= p)%nat ->
  slice p n (blit off bs mem) = slice p n mem.
Proof.
  intros Hm Hd; apply slice_ext; rewrite ?length_blit; auto; intros i Hi.
  apply byte_at_blit_out; lia.
Qed.

Lemma length_slice p n (mem : list Z) : (p + n <= length mem)%nat -> length (slice p n mem) = n.
Proof. intros H; unfold slice; rewrite length_take, length_drop; lia. Qed.

(** The words at the offsets [i], [i + 4], ... ([n] of them) added up. *)
Fixpoint sum_words (mem : list Z) (i n : nat) : Z :=
  match n with
  | O => 0
  | S n => u32 (get_32 mem i + sum_words mem (i + 4) n)
  end.

Lemma sum_words_ext n : forall m1 m2 i,
  (forall k, (i <= k)%nat -> (k + 4 <= i + 4 * n)%nat -> get_32 m1 k = get_32 m2 k) ->
  sum_words m1 i n = sum_words m2 i n.
Proof.
  induction n as [|n IH]; intros m1 m2 i H; simpl; auto.
  rewrite (H i) by lia; rewrite (IH m1 m2); [done|]; intros; apply H; lia.
Qed.

Lemma sum_words_range n : forall mem i, 0 <= sum_words mem i n < 4294967296.
Proof. destruct n; intros; simpl; [lia|apply u32_range]. Qed.

(** Storing a word changes the sum by that word. *)
Lemma sum_words_set n : forall mem i k v w,
  (i + 4 * k + 4 <= length mem)%nat -> (k < n)%nat ->
  sum_words (set_32 mem (i + 4 * k) v) i n =
    u32 (sum_words (set_32 mem (i + 4 * k) w) i n + v - w).
Proof.
  induction n as [|n IH]; intros mem i k v w Hlen Hk; [lia|]; cbn [sum_words].
  destruct k as [|k].
  - rewrite Nat.mul_0_r, Nat.add_0_r in *; rewrite !get_set_32 by lia.
    assert (E : forall x, sum_words (set_32 mem i x) (i + 4) n = sum_words mem (i + 4) n)
      by (intros x; apply sum_words_ext; intros; apply get_set_32_ne; lia).
    rewrite !E; pose proof (sum_words_range n mem (i + 4)); ulia.
  - rewrite !get_set_32_ne by lia; replace (i + 4 * S k)%nat with (i + 4 + 4 * k)%nat in * by lia.
    rewrite (IH mem (i + 4)%nat k v w) by lia.
    pose proof (sum_words_range n (set_32 mem (i + 4 + 4 * k) w) (i + 4)); ulia.
Qed.

(** ** The allocator seen as an oracle *)

Module Mem.
(** The number of calls of [malloc] made so far, and the outcome of the
    n-th call: components that only test the result of [malloc] are
    correct whatever the outcomes are. *)
Record t := Make { calls : nat; grants : nat -> bool }.

Definition malloc (m : t) : bool * t :=
  (grants m (calls m), Make (S (calls m)) (grants m)).

(** From here on every allocation succeeds. *)
Definition reliable (m : t) : Prop :=
  forall n, (calls m <= n)%nat -> grants m n = true.

Definition always : t := Make 0 (fun _ => true).

(** Exactly [n] more allocations succeed. *)
Definition limited (n : nat) : t := Make 0 (fun k => Nat.ltb k n).

Lemma malloc_reliable m b m' :
  reliable m -> malloc m = (b, m') -> b = true /\ reliable m'.
Proof.
  unfold malloc, reliable; intros H [= <- <-]; simpl; split.
  - apply H; lia.
  - intros n Hn; apply H; simpl in *; lia.
Qed.

Lemma always_reliable : reliable always.
Proof. intros n _; reflexivity. Qed.
End Mem.

#[export] Hint Resolve Mem.always_reliable : core.

(** ** Lists *)

Lemma bytes_ok l : forallb (fun b => (0 <=? b) && (b <? 256)) l = true -> Forall is_byte l.
Proof.
  rewrite forallb_forall, Forall_forall; intros H b Hb; specialize (H b); unfold is_byte.
  apply list_elem_of_In in Hb; specialize (H Hb); bools; lia.
Qed.

Lemma Forall_byte_app l1 l2 :
  Forall is_byte (l1 ++ l2) <-> Forall is_byte l1 /\ Forall is_byte l2.
Proof. apply Forall_app. Qed.

(** Fields of bytes. *)
Lemma byte_range d i : Forall is_byte d -> 0 <= byte_at d i < 256.
Proof.
  intros H; unfold byte_at; destruct (d !! i) as [b|] eqn:E; cbn; [|lia].
  exact (proj1 (Forall_lookup _ _) H i b E).
Qed.

Lemma get_16_range d o : Forall is_byte d -> 0 <= get_16 d o < 65536.
Proof. intros H; unfold get_16; pose proof (byte_range d o H); pose proof (byte_range d (o + 1) H); lia. Qed.

Lemma get_32_range d o : Forall is_byte d -> 0 <= get_32 d o < 4294967296.
Proof.
  intros H; unfold get_32; pose proof (get_16_range d o H); pose proof (get_16_range d (o + 2) H); lia.
Qed.
