(* ===== verification/Zonelist.v ===== *)
(** * Memory maps of the boot shuffler: com32/lib/syslinux/zonelist.c

    A memory map is the list of its zones in order; the zone that holds an
    address is the last one whose start does not exceed it, and the list ends
    with a zone of type [SMT_END] (start 0, the wrapped-around top of memory).
    [memmap_at] is the abstract view: the type of every address.  Reading the
    next node of the end of the list is a NULL dereference, [None] here. *)

From S2P Require Import Prelude.
Open Scope word_scope.

(** ** Data *)

(** [src/com32/include/syslinux/movebits.h:30-39 syslinux_memmap_types] *)
Inductive smt :=
  | SMT_ERROR | SMT_END | SMT_UNDEFINED | SMT_FREE
  | SMT_RESERVED | SMT_ALLOC | SMT_ZERO | SMT_TERMINAL.

#[export] Instance smt_eq_dec : EqDecision smt.
Proof. solve_decision. Defined.

(** [src/com32/include/syslinux/movebits.h:41-45 struct syslinux_memmap] *)
Record zone := Zone { z_start : Z; z_type : smt }.

(** [src/com32/include/syslinux/movebits.h:47-50 valid_terminal_type] *)
Definition valid_terminal_type (t : smt) : bool :=
  bool_decide (t = SMT_FREE) || bool_decide (t = SMT_TERMINAL).

Definition is_end (z : zone) : bool := bool_decide (z_type z = SMT_END).

(** ** Operations *)

(** [src/com32/lib/syslinux/zonelist.c:47-70 syslinux_init_memmap] *)
Definition syslinux_init_memmap (m : Mem.t) : option (list zone) * Mem.t :=
  let (sp, m1) := Mem.malloc m in
  if negb sp then (None, m1)
  else
    let (ep, m2) := Mem.malloc m1 in
    if negb ep then (None, m2)
    else (Some [Zone 0 SMT_UNDEFINED; Zone 0 SMT_END], m2).

(** The search loop of [syslinux_add_memmap]: the nodes passed, the type of
    the last of them, and the nodes from [*mpp] on.
    [src/com32/lib/syslinux/zonelist.c:95-100 syslinux_add_memmap] *)
Fixpoint add_seek (start : Z) (oldtype : smt) (l : list zone)
  : option (list zone * smt * list zone) :=
  match l with
  | [] => None
  | mp :: l' =>
      if (z_start mp <? start) && negb (is_end mp) then
        let* (pre, o, rest) := add_seek start (z_type mp) l' in
        Some (mp :: pre, o, rest)
      else Some ([], oldtype, l)
  end.

(** Splicing in, or reclaiming, the start token: [inl] when [malloc] fails.
    [src/com32/lib/syslinux/zonelist.c:102-123 syslinux_add_memmap] *)
Definition add_open (start : Z) (type oldtype : smt) (rest : list zone) (m : Mem.t)
  : option (Mem.t + list zone * smt * list zone * Mem.t) :=
  match rest with
  | [] => None
  | mp :: tl =>
      if (start <? z_start mp) || is_end mp then
        if bool_decide (type <> oldtype) then
          let (ok, m') := Mem.malloc m in
          if ok then Some (inr ([Zone start type], oldtype, rest, m'))
          else Some (inl m')
        else Some (inr ([], oldtype, rest, m))
      else
        if bool_decide (type <> oldtype)
        then Some (inr ([Zone (z_start mp) type], z_type mp, tl, m))
        else Some (inr ([], oldtype, rest, m))
  end.

(** Removing the nodes the new region swallows.
    [src/com32/lib/syslinux/zonelist.c:125-129 syslinux_add_memmap] *)
Fixpoint add_swallow (last : Z) (oldtype : smt) (rest : list zone)
  : option (smt * list zone) :=
  match rest with
  | [] => None
  | mp :: tl =>
      if z_start mp ⊟ 1 <? last then add_swallow last (z_type mp) tl
      else Some (oldtype, rest)
  end.

(** The end token, or the merge with the following region.
    [src/com32/lib/syslinux/zonelist.c:131-149 syslinux_add_memmap] *)
Definition add_close (last : Z) (type oldtype : smt) (rest : list zone) (m : Mem.t)
  : option (Z * list zone * Mem.t) :=
  match rest with
  | [] => None
  | mp :: tl =>
      if last <? z_start mp ⊟ 1 then
        if bool_decide (oldtype <> type) then
          let (ok, m') := Mem.malloc m in
          if ok then Some (0, Zone (last ⊞ 1) oldtype :: rest, m')
          else Some (-1, rest, m')
        else Some (0, rest, m)
      else
        if bool_decide (z_type mp = type) then Some (0, tl, m)
        else Some (0, rest, m)
  end.

(** The return value, the list afterwards and the allocator; [None] is a NULL
    dereference.
    [src/com32/lib/syslinux/zonelist.c:76-155 syslinux_add_memmap] *)
Definition syslinux_add_memmap (list0 : list zone) (start len : Z) (type : smt)
    (m : Mem.t) : option (Z * list zone * Mem.t) :=
  if len =? 0 then Some (0, list0, m)
  else
    let last := start + len ⊟ 1 in
    let* (pre, oldtype, rest) := add_seek start SMT_END list0 in
    let* opened := add_open start type oldtype rest m in
    match opened with
    | inl m' => Some (-1, list0, m')
    | inr (tok, oldtype1, rest1, m1) =>
        let* (oldtype2, rest2) := add_swallow last oldtype1 rest1 in
        let* (rv, rest3, m3) := add_close last type oldtype2 rest2 m1 in
        Some (rv, pre ++ tok ++ rest3, m3)
    end.

(** The inner loop of [syslinux_memmap_type], entered at a zone that holds
    [start] but ends before [last].
    [src/com32/lib/syslinux/zonelist.c:176-182 syslinux_memmap_type] *)
Fixpoint type_cross (last : Z) (l : list zone) : option smt :=
  match l with
  | [] => None
  | z :: tl =>
      if valid_terminal_type (z_type z) then
        match tl with
        | _ :: nxt :: _ =>
            if last <=? z_start nxt ⊟ 1 then Some SMT_TERMINAL
            else type_cross last tl
        | _ => None
        end
      else Some SMT_ERROR
  end.

(** [src/com32/lib/syslinux/zonelist.c:162-189 syslinux_memmap_type] *)
Fixpoint memmap_type_loop (l : list zone) (start last : Z) : option smt :=
  match l with
  | [] => None
  | z :: tl =>
      if is_end z then Some SMT_ERROR
      else
        match tl with
        | [] => None
        | nxt :: _ =>
            let llast := z_start nxt ⊟ 1 in
            if z_start z <=? start then
              if last <=? llast then Some (z_type z)
              else if start <=? llast then type_cross last l
              else memmap_type_loop tl start last
            else memmap_type_loop tl start last
        end
  end.

(** [src/com32/lib/syslinux/zonelist.c:162-189 syslinux_memmap_type] *)
Definition syslinux_memmap_type (l : list zone) (start len : Z) : option smt :=
  memmap_type_loop l start (start + len ⊟ 1).

(** The search keeps the best node so far as its start and size.
    [src/com32/lib/syslinux/zonelist.c:201-210 syslinux_memmap_largest] *)
Fixpoint largest_loop (type : smt) (l : list zone) (best : option Z) (best_size : Z)
  : option (option Z * Z) :=
  match l with
  | [] => None
  | z :: tl =>
      if is_end z then Some (best, best_size)
      else
        match tl with
        | [] => None
        | nxt :: _ =>
            let size := z_start nxt ⊟ z_start z in
            if bool_decide (z_type z = type) && (best_size <? size)
            then largest_loop type tl (Some (z_start z)) size
            else largest_loop type tl best best_size
        end
  end.

(** [Some (inr (start, len))] is the return value 0 with the outputs,
    [Some (inl tt)] the return value -1.
    [src/com32/lib/syslinux/zonelist.c:194-219 syslinux_memmap_largest] *)
Definition syslinux_memmap_largest (l : list zone) (type : smt)
  : option (unit + Z * Z) :=
  let* (best, best_size) := largest_loop type l None 0 in
  match best with
  | None => Some (inl tt)
  | Some start => Some (inr (start, best_size))
  end.

(** [src/com32/lib/syslinux/zonelist.c:237-256 syslinux_memmap_highest] *)
Fixpoint highest_loop (type : smt) (start len ceiling align : Z) (l : list zone)
    (best : Z) : option Z :=
  match l with
  | [] => None
  | z :: tl =>
      if is_end z then Some best
      else
        match tl with
        | [] => None
        | nxt :: _ =>
            let size := z_start nxt ⊟ z_start z in
            if bool_decide (z_type z <> type) then
              highest_loop type start len ceiling align tl best
            else if z_start z ⊞ size <=? start then
              highest_loop type start len ceiling align tl best
            else if ceiling <=? z_start z ⊞ len then
              highest_loop type start len ceiling align tl best
            else
              let best1 :=
                if z_start z ⊞ size <? ceiling
                then align_down (u32 (z_start z + size - len)) align
                else align_down (ceiling ⊟ len) align in
              highest_loop type start len ceiling align tl
                (if best1 <? start then 0 else best1)
        end
  end.

(** [src/com32/lib/syslinux/zonelist.c:230-264 syslinux_memmap_highest] *)
Definition syslinux_memmap_highest (l : list zone) (type : smt)
    (start len ceiling align : Z) : option (unit + Z) :=
  let* best := highest_loop type start len ceiling align l 0 in
  Some (if best =? 0 then inl tt else inr best).

(** [src/com32/lib/syslinux/zonelist.c:271-297 syslinux_memmap_find_type] *)
Fixpoint syslinux_memmap_find_type (l : list zone) (type : smt)
    (min_start min_len align : Z) : option (unit + Z * Z) :=
  match l with
  | [] => None
  | z :: tl =>
      if is_end z then Some (inl tt)
      else
        if bool_decide (z_type z = type) then
          match tl with
          | [] => None
          | nxt :: _ =>
              let xstart := align_up (Z.max min_start (z_start z)) align in
              if (xstart <? z_start nxt) && (min_len <=? z_start nxt ⊟ xstart)
              then Some (inr (xstart, z_start nxt ⊟ xstart))
              else syslinux_memmap_find_type tl type min_start min_len align
          end
        else syslinux_memmap_find_type tl type min_start min_len align
  end.

(** A fresh copy of every node; on failure what was copied is freed.
    [src/com32/lib/syslinux/zonelist.c:316-337 syslinux_dup_memmap] *)
Fixpoint syslinux_dup_memmap (l : list zone) (m : Mem.t) : option (list zone) * Mem.t :=
  match l with
  | [] => (Some [], m)
  | z :: tl =>
      let (ok, m1) := Mem.malloc m in
      if ok then
        let (r, m2) := syslinux_dup_memmap tl m1 in
        (option_map (cons (Zone (z_start z) (z_type z))) r, m2)
      else (None, m1)
  end.

(** The relocation loop: the base found, if any.
    [src/com32/lib/syslinux/zonelist.c:367-396 syslinux_memmap_find] *)
Fixpoint memmap_find_loop (size align start_min start_max end_min end_max : Z)
    (l : list zone) : option (unit + Z) :=
  match l with
  | [] => Some (inl tt)
  | mp :: tl =>
      let continue := memmap_find_loop size align start_min start_max end_min end_max tl in
      if is_end mp then Some (inl tt)
      else
        match tl with
        | [] => None
        | nxt :: _ =>
            if bool_decide (z_type mp <> SMT_FREE) then continue
            else if z_start nxt <=? end_min then continue
            else
              let start := Z.max (z_start mp) start_min in
              let stop := Z.min (z_start nxt) end_max in
              let start := align_up start align in
              if (start_max <? start) || (stop <=? start) then continue
              else if size <=? stop ⊟ start then Some (inr start)
              else continue
        end
  end.

(** [inr base] is the return value 0 with [*base] afterwards.
    [src/com32/lib/syslinux/zonelist.c:343-402 syslinux_memmap_find] *)
Definition syslinux_memmap_find (mmap : list zone) (base size : Z) (relocate : bool)
    (align start_min start_max end_min end_max : Z) : option (unit + Z) :=
  if size =? 0 then Some (inr base)
  else
    let* type := syslinux_memmap_type mmap base size in
    if valid_terminal_type type then Some (inr base)
    else if negb relocate then Some (inl tt)
    else memmap_find_loop size align start_min start_max end_min end_max mmap.

(** ** The abstract view: the type of every address *)

(** The type the zones of [l] give to the address [a], [cur] below them. *)
Fixpoint look (cur : smt) (l : list zone) (a : Z) : smt :=
  match l with
  | [] => cur
  | z :: tl =>
      if is_end z then cur
      else if z_start z <=? a then look (z_type z) tl a else cur
  end.

Definition memmap_at (l : list zone) (a : Z) : smt := look SMT_END l a.

(** Zones in increasing order above [lo], no two neighbours of the same type,
    the end marker last and only there. *)
Inductive wf_from : Z -> smt -> list zone -> Prop :=
  | wf_end lo prev : lo < 4294967296 -> wf_from lo prev [Zone 0 SMT_END]
  | wf_zone lo prev s t l :
      lo < s < 4294967296 -> t <> prev -> t <> SMT_END ->
      wf_from s t l -> wf_from lo prev (Zone s t :: l).

(** Well-formed map: ordered as above and every address has a type. *)
Definition wf (l : list zone) : Prop :=
  wf_from (-1) SMT_END l /\ memmap_at l 0 <> SMT_END.

#[export] Hint Constructors wf_from : words.

(** The start and type in force after the nodes [pre]. *)
Fixpoint seg_end (lo : Z) (prev : smt) (pre : list zone) : Z * smt :=
  match pre with
  | [] => (lo, prev)
  | z :: tl => seg_end (z_start z) (z_type z) tl
  end.

Lemma wf_from_weaken lo lo' prev l :
  lo' <= lo -> wf_from lo prev l -> wf_from lo' prev l.
Proof. intros Hl; destruct 1; constructor; auto; lia. Qed.

Lemma wf_from_not_nil lo prev l : wf_from lo prev l -> l <> [].
Proof. destruct 1; discriminate. Qed.

Lemma wf_from_lo lo prev l : wf_from lo prev l -> lo < 4294967296.
Proof. destruct 1; lia. Qed.

Lemma is_end_zone s t : t <> SMT_END -> is_end (Zone s t) = false.
Proof. intros; now apply bool_decide_eq_false. Qed.

(** Below its zones, a map gives the type in force before them. *)
Lemma look_below lo prev l a : wf_from lo prev l -> a <= lo -> look prev l a = prev.
Proof.
  destruct 1 as [|lo prev s t l Hs Ht He Hwf]; intros Ha; simpl; auto.
  rewrite is_end_zone by auto.
  now replace (s <=? a) with false by lia.
Qed.

(** The view after [[start, last]] has been given the type [type]. *)
Definition over (start last : Z) (type : smt) (a : Z) (t : smt) : smt :=
  if (start <=? a) && (a <=? last) then type else t.

Lemma seg_end_le pre lo prev lo' o r :
  wf_from lo prev (pre ++ r) -> r <> [] -> seg_end lo prev pre = (lo', o) -> lo <= lo'.
Proof.
  revert lo prev; induction pre as [|z pre IH]; simpl; intros lo prev H Hr He.
  - injection He; lia.
  - inversion H; subst; [now destruct pre, r|]; simpl in *.
    assert (s <= lo') by eauto. lia.
Qed.

(** Rewriting the nodes from [rest] on rewrites the whole map. *)
Lemma splice pre lo prev lo' o rest rest' start last type :
  wf_from lo prev (pre ++ rest) -> rest <> [] ->
  seg_end lo prev pre = (lo', o) -> lo' < start ->
  wf_from lo' o rest' ->
  (forall a, a < 4294967296 -> look o rest' a = over start last type a (look o rest a)) ->
  wf_from lo prev (pre ++ rest') /\
  forall a, a < 4294967296 -> look prev (pre ++ rest') a = over start last type a (look prev (pre ++ rest) a).
Proof.
  revert lo prev; induction pre as [|z pre IH]; simpl; intros lo prev H Hr He Hs Hwf Hl.
  - injection He as <- <-; auto.
  - inversion H; subst; [now destruct pre, rest|]; simpl in *.
    destruct (IH s t) as [IH1 IH2]; auto.
    assert (s <= lo') by eauto using seg_end_le.
    split; [constructor; auto|intros a Ha].
    rewrite is_end_zone by auto.
    destruct (Z.leb_spec s a); auto.
    unfold over; now replace (start <=? a) with false by lia.
Qed.

Lemma add_seek_spec start l : forall lo prev,
  wf_from lo prev l -> lo < start < 4294967296 ->
  exists pre o rest lo', add_seek start prev l = Some (pre, o, rest) /\ l = pre ++ rest /\
    seg_end lo prev pre = (lo', o) /\ lo' < start /\ wf_from (start - 1) o rest.
Proof.
  induction l as [|z l IH]; intros lo prev H Hs; inversion H; subst; simpl.
  - rewrite andb_false_r. exists [], prev, [Zone 0 SMT_END], lo.
    repeat split; auto; [lia|constructor; lia].
  - rewrite is_end_zone, andb_true_r by auto.
    destruct (Z.ltb_spec s start).
    + destruct (IH s t) as (pre & o & rest & lo' & -> & -> & He & Hl & Hw); auto; [lia|].
      exists (Zone s t :: pre), o, rest, lo'; auto.
    + exists [], prev, (Zone s t :: l), lo.
      repeat split; auto; [lia|constructor; auto; lia].
Qed.

Lemma add_swallow_spec last l : forall lo o,
  wf_from lo o l -> 0 <= lo <= last -> last < 4294967296 -> o <> SMT_END ->
  exists o' rest, add_swallow last o l = Some (o', rest) /\ wf_from last o' rest /\
    o' <> SMT_END /\ forall a, last < a -> look o l a = look o' rest a.
Proof.
  induction l as [|z l IH]; intros lo o H Hl Hlast Ho; inversion H; subst; simpl.
  - replace (0 ⊟ 1 <? last) with false by (symmetry; ulia).
    exists o, [Zone 0 SMT_END]; repeat split; auto; constructor; lia.
  - rewrite is_end_zone by auto.
    destruct (Z.ltb_spec (s ⊟ 1) last).
    + destruct (IH s t) as (o' & rest & -> & Hw & Ho' & Hv); auto; [ulia|].
      exists o', rest; repeat split; auto; intros a Ha.
      replace (s <=? a) with true by (symmetry; ulia); auto.
    + exists o, (Zone s t :: l); repeat split; auto; [constructor; auto; ulia|].
      intros; simpl; now rewrite is_end_zone.
Qed.

(** The two facts a boundary token needs: it is in order, and it leaves the
    view above it alone. *)
Lemma token_spec lo s o type l :
  wf_from s o l -> lo < s < 4294967296 -> o <> type -> o <> SMT_END ->
  wf_from lo type (Zone s o :: l) /\
  forall a, s <= a -> look type (Zone s o :: l) a = look o l a.
Proof.
  intros Hw Hs Ht Ho; split; [constructor; auto|intros a Ha]; simpl.
  rewrite is_end_zone by auto. now replace (s <=? a) with true by lia.
Qed.

Lemma add_close_spec last type o l m :
  wf_from last o l -> 0 <= last -> type <> SMT_END -> o <> SMT_END -> Mem.reliable m ->
  exists l' m', add_close last type o l m = Some (0, l', m') /\ wf_from last type l' /\
    forall a, last < a -> a < 4294967296 -> look type l' a = look o l a.
Proof.
  intros H Hl Ht Ho Hm.
  assert (Hlast := wf_from_lo _ _ _ H).
  destruct l as [|z tl]; [inversion H|].
  unfold add_close; destruct (Z.ltb_spec last (z_start z ⊟ 1)).
  - case_bool_decide as E.
    + destruct (Mem.malloc m) as [b m'] eqn:Em.
      apply Mem.malloc_reliable in Em as [-> Hm']; auto.
      rewrite u32_small by (inversion H; subst; simpl in *; ulia).
      exists (Zone (last + 1) o :: z :: tl), m'; split; auto.
      destruct (token_spec last (last + 1) o type (z :: tl)) as [H1 H2]; auto.
      * inversion H; subst; constructor; simpl in *; auto; ulia.
      * inversion H; subst; simpl in *; ulia.
      * split; auto; intros; apply H2; lia.
    + subst; eauto 10.
  - inversion H; subst; simpl in *.
    + rewrite bool_decide_eq_false_2 by congruence.
      exists [Zone 0 SMT_END], m; repeat split; [constructor; ulia|intros a Ha Ha']; ulia.
    + assert (Hs : forall a, last < a -> (s <=? a) = true) by (intros; ulia).
      case_bool_decide as E.
      * subst; exists tl, m; repeat split; [apply (wf_from_weaken s); auto; lia|].
        intros; simpl. now rewrite is_end_zone, Hs.
      * exists (Zone s t :: tl), m; repeat split; [constructor; auto|].
        intros; simpl; now rewrite is_end_zone, Hs.
Qed.

Lemma add_open_spec start type o rest m :
  wf_from (start - 1) o rest -> 0 <= start < 4294967296 -> type <> SMT_END ->
  (start = 0 -> o = SMT_END) ->
  (o = SMT_END -> exists t tl, t <> SMT_END /\ rest = Zone start t :: tl) -> Mem.reliable m ->
  exists tok o1 rest1 m1 lo1,
    add_open start type o rest m = Some (inr (tok, o1, rest1, m1)) /\
    Mem.reliable m1 /\ o1 <> SMT_END /\ 0 <= lo1 <= start /\ wf_from lo1 o1 rest1 /\
    (forall a, start <= a -> look o1 rest1 a = look o rest a) /\
    (tok = [Zone start type] /\ type <> o \/ tok = [] /\ type = o).
Proof.
  intros H Hs Ht H0 Hend Hm.
  assert (Hlo := wf_from_lo _ _ _ H).
  destruct rest as [|z tl]; [inversion H|].
  unfold add_open; destruct ((start <? z_start z) || is_end z) eqn:E.
  - assert (o <> SMT_END).
    { intros ->; destruct (Hend eq_refl) as (t & tl' & Ht' & [= -> ->]).
      rewrite is_end_zone in E by auto; simpl in E; bools; lia || discriminate. }
    assert (wf_from start o (z :: tl)).
    { inversion H; subst; constructor; auto; [lia|].
      rewrite is_end_zone in E by auto; simpl in E; bools; lia || discriminate. }
    case_bool_decide as E2.
    + destruct (Mem.malloc m) as [b m'] eqn:Em.
      apply Mem.malloc_reliable in Em as [-> Hm']; auto.
      exists [Zone start type], o, (z :: tl), m', start; eauto 12 with words.
    + subst. exists [], o, (z :: tl), m, start; eauto 12 with words.
  - bools. inversion H; subst; [now apply bool_decide_eq_false in H2|]; simpl in *.
    assert (s = start) as -> by lia.
    case_bool_decide as E2.
    + exists [Zone start type], t, tl, m, start; repeat split; auto; try lia.
      intros a Ha; rewrite is_end_zone by auto; now replace (start <=? a) with true by lia.
    + subst.
      exists [], o, (Zone start t :: tl), m, (start - 1); repeat split; auto; try lia.
      destruct (decide (start = 0)); [exfalso; auto|lia].
Qed.

Lemma seg_end_case pre lo prev lo' o rest :
  wf_from lo prev (pre ++ rest) -> rest <> [] -> seg_end lo prev pre = (lo', o) ->
  pre = [] /\ lo' = lo /\ o = prev \/ lo < lo' /\ o <> SMT_END.
Proof.
  revert lo prev; induction pre as [|z pre IH]; simpl; intros lo prev H Hr He.
  - injection He as <- <-; auto.
  - right; inversion H; subst; [now destruct pre, rest|]; simpl in *.
    destruct (IH s t) as [(-> & -> & ->)|[? ?]]; auto with words.
Qed.

(** The head of a well-formed map is a zone at address 0. *)
Lemma wf_head l : wf l -> exists t tl, l = Zone 0 t :: tl /\ t <> SMT_END.
Proof.
  intros [H H0]; inversion H; subst; [now compute in H0|].
  unfold memmap_at in H0; simpl in H0; rewrite is_end_zone in H0 by auto.
  destruct (Z.leb_spec s 0); [|done].
  replace s with 0 by lia; eauto.
Qed.

Lemma add_tail_spec start last type lo o rest m :
  wf_from (start - 1) o rest -> lo < start -> 0 <= start <= last -> last < 4294967296 ->
  type <> SMT_END -> (start = 0 -> o = SMT_END) ->
  (o = SMT_END -> exists t tl, t <> SMT_END /\ rest = Zone start t :: tl) -> Mem.reliable m ->
  exists tok o1 rest1 m1 o2 rest2 rest3 m3,
    add_open start type o rest m = Some (inr (tok, o1, rest1, m1)) /\
    add_swallow last o1 rest1 = Some (o2, rest2) /\
    add_close last type o2 rest2 m1 = Some (0, rest3, m3) /\
    wf_from lo o (tok ++ rest3) /\
    forall a, a < 4294967296 -> look o (tok ++ rest3) a = over start last type a (look o rest a).
Proof.
  intros H Hlo Hs Hlast Ht H0 Hend Hm.
  destruct (add_open_spec start type o rest m)
    as (tok & o1 & rest1 & m1 & lo1 & Ho & Hm1 & Ho1 & Hlo1 & Hw1 & Hv1 & Htok); auto; [lia|].
  destruct (add_swallow_spec last rest1 lo1 o1) as (o2 & rest2 & Hsw & Hw2 & Ho2 & Hv2);
    auto; [lia|].
  destruct (add_close_spec last type o2 rest2 m1) as (rest3 & m3 & Hc & Hw3 & Hv3); auto; [lia|].
  exists tok, o1, rest1, m1, o2, rest2, rest3, m3; do 3 (split; [assumption|]).
  assert (Hbelow : forall a, a < start -> look o rest a = o)
    by (intros; eapply look_below; eauto; lia).
  assert (Hin : forall a, start <= a < 4294967296 ->
    look type rest3 a = over start last type a (look o rest a)).
  { intros a Ha; unfold over; replace (start <=? a) with true by lia; simpl.
    destruct (Z.leb_spec a last); [eapply look_below; eauto|].
    rewrite Hv3, <- Hv2, Hv1 by lia; auto. }
  destruct Htok as [[-> Hne]|[-> ->]]; simpl.
  - split; [constructor; auto; [lia|apply wf_from_weaken with last; auto; lia]|].
    intros a Ha; rewrite is_end_zone by auto.
    destruct (Z.leb_spec start a); [apply Hin; lia|].
    unfold over; replace (start <=? a) with false by lia; simpl; symmetry; auto.
  - split; [apply wf_from_weaken with last; auto; lia|].
    intros a Ha; destruct (Z.leb_spec start a); [apply Hin; lia|].
    unfold over; replace (start <=? a) with false by lia; simpl.
    rewrite Hbelow by lia; eapply look_below; eauto; lia.
Qed.

Lemma add_memmap_view l start len type m :
  wf l -> 0 <= start -> 0 < len -> start + len <= 4294967296 -> type <> SMT_END ->
  Mem.reliable m ->
  exists l' m', syslinux_add_memmap l start len type m = Some (0, l', m') /\ wf l' /\
    forall a, 0 <= a < 4294967296 ->
      memmap_at l' a =
        if (start <=? a) && (a <? start + len) then type else memmap_at l a.
Proof.
  intros Hwf Hs Hlen Hsum Ht Hm; destruct (wf_head l Hwf) as (t0 & tl0 & -> & Ht0).
  destruct Hwf as [Hw H0]; unfold syslinux_add_memmap.
  replace (len =? 0) with false by lia; rewrite u32_small by lia.
  destruct (add_seek_spec start (Zone 0 t0 :: tl0) (-1) SMT_END)
    as (pre & o & rest & lo' & -> & El & He & Hlo & Hw'); auto; [lia|].
  assert (Hr : rest <> []) by eauto using wf_from_not_nil.
  rewrite El in Hw.
  assert (Hcase := seg_end_case _ _ _ _ _ _ Hw Hr He).
  destruct (add_tail_spec start (start + len - 1) type lo' o rest m)
    as (tok & o1 & rest1 & m1 & o2 & rest2 & rest3 & m3 & -> & -> & -> & Hw3 & Hv3);
    auto; try lia.
  - intros ->; destruct Hcase as [(-> & -> & ->)|]; auto; lia.
  - intros ->; destruct Hcase as [(-> & -> & _)|[_ []]]; auto.
    simpl in El; subst rest; inversion Hw'; subst; [now compute in H0|].
    replace start with 0 by lia; eauto.
  - destruct (splice pre (-1) SMT_END lo' o rest (tok ++ rest3) start (start + len - 1) type)
      as [Hwf' Hview]; auto.
    assert (Hat : forall a, 0 <= a < 4294967296 -> memmap_at (pre ++ tok ++ rest3) a =
      if (start <=? a) && (a <? start + len) then type else memmap_at (Zone 0 t0 :: tl0) a).
    { intros a Ha; unfold memmap_at; rewrite Hview, El by lia; unfold over.
      now replace (a <=? start + len - 1) with (a <? start + len) by lia. }
    exists (pre ++ tok ++ rest3), m3; repeat split; auto.
    rewrite Hat by lia; destruct (_ && _); auto.
Qed.

(** With memory to allocate, the outcome does not depend on the allocator. *)
Lemma add_memmap_grant l start len type m m2 rv l' m' :
  Mem.reliable m -> Mem.reliable m2 ->
  syslinux_add_memmap l start len type m = Some (rv, l', m') ->
  exists m2', syslinux_add_memmap l start len type m2 = Some (rv, l', m2') /\ Mem.reliable m2'.
Proof.
  intros Hm Hm2; unfold syslinux_add_memmap; destruct (len =? 0).
  { intros [= <- <- _]; eauto. }
  destruct (add_seek _ _ _) as [[[pre o] rest]|]; [|done].
  assert (Hopen : match add_open start type o rest m, add_open start type o rest m2 with
    | Some (inr (a, b, c, m1)), Some (inr (a2, b2, c2, m3)) =>
        (a, b, c) = (a2, b2, c2) /\ Mem.reliable m1 /\ Mem.reliable m3
    | None, None => True
    | _, _ => False
    end).
  { unfold add_open; destruct rest as [|z tl]; auto.
    destruct (Mem.malloc m) as [b m1] eqn:E, (Mem.malloc m2) as [b2 m3] eqn:E2.
    apply Mem.malloc_reliable in E as [-> ?], E2 as [-> ?]; auto.
    destruct (_ || _), (bool_decide _); auto. }
  destruct (add_open _ _ _ _ m) as [[?|[[[tok o1] rest1] m1]]|],
    (add_open _ _ _ _ m2) as [[?|[[[tok2 o2] rest2] m3]]|]; try done.
  destruct Hopen as ([= <- <- <-] & Hm1 & Hm3).
  destruct (add_swallow _ _ _) as [[o2 rest2]|]; [|done].
  unfold add_close; destruct rest2 as [|z tl]; [done|].
  destruct (Mem.malloc m1) as [b m4] eqn:E, (Mem.malloc m3) as [b2 m5] eqn:E2.
  apply Mem.malloc_reliable in E as [-> ?], E2 as [-> ?]; auto.
  destruct (_ <? _), (bool_decide _); intros [= <- <- _]; eauto.
Qed.

(** C26: adding a region to a well-formed memory map succeeds when memory can be
    allocated, keeps the map well formed (ordered, no two neighbours of one
    type, every address typed) and changes exactly the type of the addresses of
    the region. *)
Theorem add_memmap_correct l start len type m :
  wf l -> 0 <= start -> 0 < len -> start + len <= 4294967296 -> type <> SMT_END ->
  Mem.reliable m ->
  exists l' m', syslinux_add_memmap l start len type m = Some (0, l', m') /\ wf l' /\
    forall a, 0 <= a < 4294967296 ->
      memmap_at l' a =
        if (start <=? a) && (a <? start + len) then type else memmap_at l a.
Proof. apply add_memmap_view. Qed.

Theorem add_memmap_correct_witness :
  wf [Zone 0 SMT_UNDEFINED; Zone 0 SMT_END] /\
  exists l' m',
    syslinux_add_memmap [Zone 0 SMT_UNDEFINED; Zone 0 SMT_END] 4096 8192 SMT_FREE Mem.always
      = Some (0, l', m') /\ wf l' /\
    forall a, 0 <= a < 4294967296 ->
      memmap_at l' a =
        if (4096 <=? a) && (a <? 4096 + 8192) then SMT_FREE
        else memmap_at [Zone 0 SMT_UNDEFINED; Zone 0 SMT_END] a.
Proof.
  assert (H : wf [Zone 0 SMT_UNDEFINED; Zone 0 SMT_END])
    by (split; [repeat constructor; discriminate || lia|discriminate]).
  split; [exact H|].
  apply add_memmap_correct; auto; try lia; discriminate.
Defined.

(** ** Queries *)

(** The zone at the head of a map, its last address and its successor. *)
Lemma head_zone s t tl :
  wf_from s t tl -> 0 <= s ->
  exists nxt tl' e, tl = nxt :: tl' /\ z_start nxt ⊟ 1 = e /\
    s <= e < 4294967296 /\ (forall a, a <= e -> look t tl a = t) /\
    (is_end nxt = true /\ e = 4294967295 \/
     is_end nxt = false /\ z_start nxt = e + 1 /\ e + 1 < 4294967296 /\
     s < z_start nxt /\ z_type nxt <> t /\ wf_from (e + 1) (z_type nxt) tl').
Proof.
  intros H Hs0; inversion H as [lo p Hlo|lo p s0 t0 l Hs Hp He Hw]; subst.
  - exists (Zone 0 SMT_END), [], 4294967295; do 2 (split; [done|]).
    split; [lia|]; split; auto.
  - exists (Zone s0 t0), l, (s0 - 1); simpl; rewrite is_end_zone by auto.
    replace (s0 - 1 + 1) with s0 by lia.
    split; [done|]; split; [ulia|]; split; [lia|]; split; [|right; repeat split; auto; lia].
    intros a Ha; now replace (s0 <=? a) with false by lia.
Qed.

Lemma look_step s t tl prev a :
  t <> SMT_END -> s <= a -> look prev (Zone s t :: tl) a = look t tl a.
Proof.
  intros; simpl; rewrite is_end_zone by auto; now replace (s <=? a) with true by lia.
Qed.

(** What the crossing loop answers, entered at the zone [t] that starts at [s]
    when the next zone [t'] holds addresses up to [last]. *)
Lemma type_cross_spec l : forall s t s' t' last,
  wf_from s t (Zone s' t' :: l) -> t' <> SMT_END -> 0 <= s < s' ->
  s' <= last < 4294967296 ->
  exists r, type_cross last (Zone s t :: Zone s' t' :: l) = Some r /\
    (r = SMT_ERROR \/ r = SMT_TERMINAL) /\
    (r = SMT_TERMINAL -> forall a, s <= a <= last ->
       valid_terminal_type (look t (Zone s' t' :: l) a) = true \/
       look t (Zone s' t' :: l) a = look t (Zone s' t' :: l) last).
Proof.
  induction l as [|z l IH]; intros s t s' t' last H Ht Hs Hlast; inversion H as [|? ? ? ? ? ? ? ? Hw];
    subst; try congruence; [inversion Hw|].
  destruct (head_zone _ _ _ Hw ltac:(lia)) as ([s2 t2] & tl' & e & [= -> <-] & He & Hr & Hflat & Hcase).
  change (type_cross last (Zone s t :: Zone s' t' :: Zone s2 t2 :: l)) with
    (if valid_terminal_type t
     then if last <=? s2 ⊟ 1 then Some SMT_TERMINAL
          else type_cross last (Zone s' t' :: Zone s2 t2 :: l)
     else Some SMT_ERROR).
  simpl in He; rewrite He.
  destruct (valid_terminal_type t) eqn:Ev; [|exists SMT_ERROR; intuition congruence].
  assert (Hl : forall a, look t (Zone s' t' :: Zone s2 t2 :: l) a =
    if s' <=? a then look t' (Zone s2 t2 :: l) a else t)
    by (intros; simpl; rewrite is_end_zone by auto; reflexivity).
  destruct (Z.leb_spec last e).
  - exists SMT_TERMINAL; split; [done|split; [auto|]]; intros _ a Ha; rewrite !Hl.
    replace (s' <=? last) with true by lia.
    destruct (Z.leb_spec s' a); [|auto]. right; rewrite !Hflat; auto; lia.
  - destruct Hcase as [[_ ->]|(Hne & Hst & Hlt & Hss & Hnt & Hw2)]; [lia|]; simpl in *.
    apply bool_decide_eq_false in Hne; simpl in Hne.
    destruct (IH s' t' s2 t2 last) as (r & -> & Hr1 & Hr2); auto; try lia.
    exists r; split; [done|split; [auto|]]; intros HT a Ha; rewrite !Hl.
    replace (s' <=? last) with true by lia.
    destruct (Z.leb_spec s' a); [|auto]. apply Hr2; auto; lia.
Qed.

Lemma memmap_type_loop_spec l : forall s t lo prev start last,
  wf_from lo prev (Zone s t :: l) -> t <> SMT_END -> 0 <= s <= start ->
  start <= last < 4294967296 ->
  exists r, memmap_type_loop (Zone s t :: l) start last = Some r /\
    ((forall a, start <= a <= last -> look t l a = look t l start) -> r = look t l start) /\
    (r <> SMT_ERROR -> r <> SMT_TERMINAL -> forall a, start <= a <= last -> look t l a = r) /\
    (r = SMT_TERMINAL -> forall a, start <= a <= last ->
       valid_terminal_type (look t l a) = true \/ look t l a = look t l last).
Proof.
  induction l as [|z l IH]; intros s t lo prev start last H Ht Hs Hlast;
    inversion H as [|? ? ? ? ? ? ? ? Hw]; subst; try congruence; [inversion Hw|].
  destruct (head_zone _ _ _ Hw ltac:(lia)) as ([s2 t2] & tl' & e & [= -> <-] & He & Hr & Hflat & Hcase).
  change (memmap_type_loop (Zone s t :: Zone s2 t2 :: l) start last) with
    (if is_end (Zone s t) then Some SMT_ERROR
     else if s <=? start
          then if last <=? s2 ⊟ 1 then Some t
               else if start <=? s2 ⊟ 1 then type_cross last (Zone s t :: Zone s2 t2 :: l)
                    else memmap_type_loop (Zone s2 t2 :: l) start last
          else memmap_type_loop (Zone s2 t2 :: l) start last).
  rewrite is_end_zone by auto. simpl in He; rewrite He.
  replace (s <=? start) with true by lia.
  destruct (Z.leb_spec last e).
  { exists t; split; [done|]; rewrite Hflat by lia; repeat split; auto.
    - intros; apply Hflat; lia.
    - intros -> a Ha; left; now rewrite Hflat by lia. }
  destruct Hcase as [[_ ->]|(Hne & Hst & Hlt & Hss & Hnt & Hw2)]; [lia|]; cbn [z_start z_type] in *.
  apply bool_decide_eq_false in Hne; simpl in Hne.
  destruct (Z.leb_spec start e).
  - destruct (type_cross_spec l s t s2 t2 last) as (r & -> & Hr1 & Hr2); auto; try lia.
    exists r; split; [done|split; [|split]].
    + intros Hall. exfalso; apply Hnt.
      specialize (Hall s2); rewrite (Hflat start) in Hall by lia; rewrite <- Hall by lia.
      simpl; rewrite is_end_zone by auto. subst s2; now rewrite Z.leb_refl, (look_below (e + 1) t2) by (lia || assumption).
    + destruct Hr1; congruence.
    + intros HT a Ha; apply Hr2; auto; lia.
  - destruct (IH s2 t2 s t start last) as (r & Hr0 & Hr'); auto; try lia.
    rewrite Hr0; exists r; split; auto; simpl; rewrite is_end_zone by auto.
    assert (Hge : forall a, start <= a -> (s2 <=? a) = true) by (intros; lia).
    destruct Hr' as (R1 & R2 & R3); rewrite !Hge by lia.
    split; [intros Hall; apply R1; intros a Ha; specialize (Hall a Ha);
            now rewrite Hge in Hall by lia|].
    split; intros; rewrite Hge by lia; auto.
Qed.

(** On a region inside the address space, [syslinux_memmap_type] answers the
    type of a region of a single type; any other answer than [SMT_ERROR] or
    [SMT_TERMINAL] is the type of every address; and [SMT_TERMINAL] means that
    every address is usable memory or has the type of the region's last address. *)
Theorem memmap_type_spec l start len :
  wf l -> 0 <= start -> 0 < len -> start + len <= 4294967296 ->
  exists r, syslinux_memmap_type l start len = Some r /\
    ((forall a, start <= a < start + len -> memmap_at l a = memmap_at l start) ->
       r = memmap_at l start) /\
    (r <> SMT_ERROR -> r <> SMT_TERMINAL ->
       forall a, start <= a < start + len -> memmap_at l a = r) /\
    (r = SMT_TERMINAL -> forall a, start <= a < start + len ->
       valid_terminal_type (memmap_at l a) = true \/
       memmap_at l a = memmap_at l (start + len - 1)).
Proof.
  intros Hwf Hs Hlen Hsum; destruct (wf_head l Hwf) as (t & tl & -> & Ht).
  destruct Hwf as [Hw _]; unfold syslinux_memmap_type, memmap_at.
  rewrite u32_small by lia.
  destruct (memmap_type_loop_spec tl 0 t (-1) SMT_END start (start + len - 1))
    as (r & -> & R1 & R2 & R3); auto; try lia.
  exists r; split; [done|].
  assert (Hl : forall a, start <= a -> look SMT_END (Zone 0 t :: tl) a = look t tl a)
    by (intros; apply look_step; auto; lia).
  rewrite !Hl by lia; split; [|split].
  - intros Hall; apply R1; intros a Ha; specialize (Hall a).
    rewrite !Hl in Hall by lia; apply Hall; lia.
  - intros; rewrite Hl by lia; apply R2; auto; lia.
  - intros; rewrite Hl by lia; apply R3; auto; lia.
Qed.

(** A small map used by the examples: free memory, then reserved memory. *)
Definition demo_map : list zone :=
  [Zone 0 SMT_FREE; Zone 4096 SMT_RESERVED; Zone 0 SMT_END].

Lemma demo_map_wf : wf demo_map.
Proof. split; [repeat constructor; discriminate || lia|discriminate]. Qed.

Theorem memmap_type_spec_witness :
  exists r, syslinux_memmap_type demo_map 1024 2048 = Some r /\
    ((forall a, 1024 <= a < 1024 + 2048 -> memmap_at demo_map a = memmap_at demo_map 1024) ->
       r = memmap_at demo_map 1024) /\
    (r <> SMT_ERROR -> r <> SMT_TERMINAL ->
       forall a, 1024 <= a < 1024 + 2048 -> memmap_at demo_map a = r) /\
    (r = SMT_TERMINAL -> forall a, 1024 <= a < 1024 + 2048 ->
       valid_terminal_type (memmap_at demo_map a) = true \/
       memmap_at demo_map a = memmap_at demo_map (1024 + 2048 - 1)).
Proof. apply memmap_type_spec; [exact demo_map_wf|lia..]. Defined.

(** The last zone a region reaches is not inspected: a region that begins in
    free memory and ends in reserved memory is reported [SMT_TERMINAL], and
    [syslinux_memmap_find] then accepts that base address. *)
Theorem memmap_type_last_zone_unchecked :
  syslinux_memmap_type demo_map 2048 4096 = Some SMT_TERMINAL /\
  memmap_at demo_map 6143 = SMT_RESERVED /\
  syslinux_memmap_find demo_map 2048 4096 false 1 0 0 0 0 = Some (inr 2048).
Proof. repeat split. Qed.

(** [syslinux_memmap_highest] does not test that a zone is as large as the
    block asked for: it answers an address below the zone. *)
Theorem memmap_highest_below_zone :
  let l := [Zone 0 SMT_RESERVED; Zone 4096 SMT_FREE; Zone 8192 SMT_RESERVED; Zone 0 SMT_END] in
  wf l /\
  syslinux_memmap_highest l SMT_FREE 0 6144 1048576 1 = Some (inr 2048) /\
  memmap_at l 2048 = SMT_RESERVED.
Proof.
  split; [split; [repeat constructor; discriminate || lia|discriminate]|].
  split; reflexivity.
Qed.

(** ** Searches *)

Section FindType.
Context (type : smt) (min_start min_len k : Z).
Context (Hk : 0 <= k < 32) (Hms : 0 <= min_start) (Hms2 : min_start + 2 ^ k <= 4294967296).
Context (Hml : 0 < min_len < 4294967296) (Hty : type <> SMT_END).

(** The address [q] is a correct answer for the view [f]. *)
Definition fits (f : Z -> smt) (q : Z) : Prop :=
  min_start <= q /\ (2 ^ k | q) /\ q + min_len <= 4294967296 /\
  forall a, q <= a < q + min_len -> f a = type.

Definition find_type_post (s : Z) (f : Z -> smt) (r : unit + Z * Z) : Prop :=
  match r with
  | inr (xs, xl) =>
      s <= xs /\ fits f xs /\ min_len <= xl /\ xs + xl <= 4294967296 /\
      (forall a, xs <= a < xs + xl -> f a = type) /\
      forall q, s <= q -> fits f q -> xs <= q
  | inl _ => forall q, s <= q -> ~ fits f q
  end.

(** The block found inside the zone [[s, s2)]. *)
Lemma find_in_zone s s2 xs f :
  0 <= s < s2 -> s2 <= 4294967296 -> s + 2 ^ k <= 4294967296 -> xs = align_up (Z.max min_start s) (2 ^ k) ->
  (forall a, s <= a < s2 -> f a = type) -> f s2 <> type ->
  (xs < s2 /\ min_len <= s2 - xs -> find_type_post s f (inr (xs, s2 - xs))) /\
  (~ (xs < s2 /\ min_len <= s2 - xs) -> forall q, s <= q -> q < s2 -> ~ fits f q).
Proof.
  intros Hs Hs2 Hsk -> Hf Hn; assert (0 < 2 ^ k) by lia.
  assert (Hq : forall q, s <= q -> q < s2 -> fits f q ->
    align_up (Z.max min_start s) (2 ^ k) <= q /\ q + min_len <= s2).
  { intros q Hq1 Hq2 (Hf1 & Hf2 & _ & Hf4); split; [apply align_up_least; auto; lia|].
    destruct (Z.le_gt_cases (q + min_len) s2); auto.
    destruct Hn; apply Hf4; lia. }
  destruct (align_up_spec (Z.max min_start s) k) as [Hu1 Hu2]; [lia..|].
  split.
  - intros [H1 H2]; simpl; repeat split; auto; try lia; try (intros; apply Hf; lia).
    intros q Hq1 Hq2; destruct (Z.lt_ge_cases q s2); [now apply Hq|lia].
  - intros Hno q Hq1 Hq2 Hfit; destruct (Hq q); auto; lia.
Qed.

Lemma find_type_post_extend s s2 f g r :
  s <= s2 -> (forall a, s2 <= a -> f a = g a) ->
  (forall q, s <= q -> q < s2 -> ~ fits f q) ->
  find_type_post s2 g r -> find_type_post s f r.
Proof.
  intros Hs Hfg Hno.
  assert (Hfit : forall q, s2 <= q -> fits f q <-> fits g q)
    by (intros q Hq; unfold fits; split; intros (? & ? & ? & Ha); repeat split; auto;
        intros a Ha'; [rewrite <- Hfg|rewrite Hfg]; auto; lia).
  destruct r as [?|[xs xl]]; simpl.
  - intros H q Hq Hf; destruct (Z.lt_ge_cases q s2); [eapply Hno; eauto|].
    apply (H q); auto; now apply Hfit.
  - intros (H1 & H2 & H3 & H4 & H5 & H6).
    split; [lia|]; split; [now apply Hfit|]; do 2 (split; [assumption|]); split.
    + intros a Ha; rewrite Hfg by lia; auto.
    + intros q Hq Hf; destruct (Z.lt_ge_cases q s2); [exfalso; eapply Hno; eauto|].
      apply H6; auto; now apply Hfit.
Qed.

Lemma find_type_loop l : forall s t lo prev,
  wf_from lo prev (Zone s t :: l) -> t <> SMT_END -> 0 <= s ->
  (forall a, s <= a -> 4294967296 - 2 ^ k <= a < 4294967296 -> look t l a <> type) ->
  exists r, syslinux_memmap_find_type (Zone s t :: l) type min_start min_len (2 ^ k) = Some r /\
    find_type_post s (look t l) r.
Proof.
  induction l as [|z l IH]; intros s t lo prev H Ht Hs Htop;
    inversion H as [|? ? ? ? ? ? ? ? Hw]; subst; try congruence; [inversion Hw|].
  assert (0 < 2 ^ k) by lia.
  destruct (head_zone _ _ _ Hw Hs) as ([s2 t2] & tl' & e & [= -> <-] & He & Hr & Hflat & Hcase).
  change (syslinux_memmap_find_type (Zone s t :: Zone s2 t2 :: l) type min_start min_len (2 ^ k)) with
    (if is_end (Zone s t) then Some (inl tt) else
     if bool_decide (t = type) then
       let xstart := align_up (Z.max min_start s) (2 ^ k) in
       if (xstart <? s2) && (min_len <=? s2 ⊟ xstart) then Some (inr (xstart, s2 ⊟ xstart))
       else syslinux_memmap_find_type (Zone s2 t2 :: l) type min_start min_len (2 ^ k)
     else syslinux_memmap_find_type (Zone s2 t2 :: l) type min_start min_len (2 ^ k)).
  rewrite is_end_zone by auto.
  destruct Hcase as [[Hend ->]|(Hne & Hst & Hlt & Hss & Hnt & Hw2)]; cbn [z_start z_type] in *.
  - (* the zone reaches the top of memory *)
    assert (Hnt : t <> type) by (rewrite <- (Hflat 4294967295) by lia; apply Htop; lia).
    exists (inl tt); split; [rewrite bool_decide_eq_false_2 by auto; simpl; now rewrite Hend|].
    intros q Hq1 (_ & _ & Hq4 & Hq5); apply Hnt.
    rewrite <- (Hflat q) by lia; apply Hq5; lia.
  - apply bool_decide_eq_false in Hne; simpl in Hne.
    destruct (IH s2 t2 s t) as (r & Hr0 & Hr1); auto; [lia| |].
    { intros a Ha Ha2; specialize (Htop a); rewrite (look_step s2 t2 l t a) in Htop; auto.
      apply Htop; lia. }
    (* what the rest of the list answers is right here unless this zone has a fit *)
    assert (Hrest : (forall q, s <= q -> q < s2 -> ~ fits (look t (Zone s2 t2 :: l)) q) ->
      find_type_post s (look t (Zone s2 t2 :: l)) r).
    { intros Hno; apply (find_type_post_extend s s2 _ (look t2 l)); auto; [lia|].
      intros a Ha; apply look_step; auto. }
    rewrite Hr0; case_bool_decide as Et.
    + assert (Htop' : s + 2 ^ k <= 4294967296).
      { destruct (Z.le_gt_cases (s + 2 ^ k) 4294967296); auto.
        destruct (Htop s); try lia. rewrite Hflat by lia; auto. }
      destruct (find_in_zone s s2 (align_up (Z.max min_start s) (2 ^ k))
        (look t (Zone s2 t2 :: l))) as [Hin Hout]; auto; try lia.
      { intros; rewrite Hflat by lia; auto. }
      { rewrite look_step, (look_below (e + 1) t2) by (auto; lia); congruence. }
      destruct (align_up_spec (Z.max min_start s) k) as [Hu1 Hu2]; [lia..|].
      cbv zeta; destruct (_ && _) eqn:E; bools.
      * rewrite u32_small in * by lia; eexists; split; [done|]; apply Hin; lia.
      * eexists; split; [done|]; apply Hrest, Hout; lia.
      * eexists; split; [done|]; apply Hrest, Hout; intros [? ?].
        match goal with H : _ ⊟ _ < _ |- _ => rewrite u32_small in H by lia end; lia.
    + eexists; split; [done|]; apply Hrest.
      intros q Hq1 Hq2 (_ & _ & Hq4 & Hq5); apply Et.
      rewrite <- (Hflat q) by lia; apply Hq5; lia.
Qed.
End FindType.

(** [syslinux_memmap_find_type] answers the lowest aligned address, not below
    the given one, from which the asked length is entirely of the asked type,
    with all the room to the end of the zone; it fails exactly when there is
    none (zones of the type within one alignment unit of 4 GB apart). *)
Theorem find_type_correct l type min_start min_len k :
  wf l -> 0 <= k < 32 -> 0 <= min_start -> min_start + 2 ^ k <= 4294967296 ->
  0 < min_len < 4294967296 -> type <> SMT_END ->
  (forall a, 4294967296 - 2 ^ k <= a < 4294967296 -> memmap_at l a <> type) ->
  exists r, syslinux_memmap_find_type l type min_start min_len (2 ^ k) = Some r /\
    find_type_post type min_start min_len k 0 (memmap_at l) r.
Proof.
  intros Hwf Hk Hms Hms2 Hml Hty Htop; destruct (wf_head l Hwf) as (t & tl & -> & Ht).
  destruct Hwf as [Hw _].
  assert (Hl : forall a, 0 <= a -> memmap_at (Zone 0 t :: tl) a = look t tl a)
    by (intros; apply look_step; auto).
  destruct (find_type_loop type min_start min_len k Hk Hms Hms2 Hml tl 0 t (-1) SMT_END)
    as (r & Hr & Hpost); auto; [lia| |].
  - intros a Ha Ha2; rewrite <- Hl by lia; auto.
  - exists r; split; [done|].
    apply find_type_post_extend with (s2 := 0) (g := look t tl); auto; lia.
Qed.

Theorem find_type_correct_witness :
  exists r, syslinux_memmap_find_type demo_map SMT_FREE 100 1024 (2 ^ 4) = Some r /\
    find_type_post SMT_FREE 100 1024 4 0 (memmap_at demo_map) r.
Proof.
  apply find_type_correct; [exact demo_map_wf|lia|lia|lia|lia|discriminate|].
  intros a Ha; unfold memmap_at; simpl.
  replace (0 <=? a) with true by lia; replace (4096 <=? a) with true by lia; discriminate.
Defined.
