(* ===== verification/Relocation.v ===== *)
(** * Relocating bytes: the contract of the move-list computation

    The abstract machine com32/lib/syslinux/movebits.c implements.  A world is
    a memory, the (destination, source) pairs of the bytes still to be brought
    to their place, and who owns the memory: free bytes, bytes claimed for a
    move about to be made, sources still needed, destinations already filled.
    [wants] are the pairs asked for and [usable] the memory the computation may
    write; [inv] says that ownership is a partition of the usable memory and
    that nothing asked for is lost.  Every step keeps it ([step_inv]), so a
    world with nothing pending holds what was asked for ([inv_finished]). *)

From S2P Require Import Prelude.

Section Relocation.
Context {A : Type} (mem0 : Z -> A) (wants : list (Z * Z)) (usable : Z -> Prop).

Record world := World {
  pending : list (Z * Z);
  unused : Z -> Prop;
  claimed : Z -> Prop;
  contents : Z -> A;
}.

(** The bytes [C] are copied, to the destinations or anywhere else. *)
Definition copied (C : list (Z * Z)) (mem mem' : Z -> A) : Prop :=
  (forall d x, (d, x) ∈ C -> mem' d = mem x) /\ (forall a, a ∉ C.*1 -> mem' a = mem a).

(** A relocated byte: its destination, where it was and where it is moved to. *)
Definition old (t : Z * Z * Z) : Z * Z := let '(d, x, y) := t in (d, x).
Definition new (t : Z * Z * Z) : Z * Z := let '(d, x, y) := t in (d, y).
Definition transfer (t : Z * Z * Z) : Z * Z := let '(d, x, y) := t in (y, x).

Inductive step : world -> world -> Prop :=
  | step_claim P F L F' L' mem (X : Z -> Prop) :
      (forall a, F a <-> F' a \/ X a) -> (forall a, F' a -> ~ X a) ->
      (forall a, L' a <-> L a \/ X a) ->
      step (World P F L mem) (World P F' L' mem)
  | step_release P F L F' L' mem (X : Z -> Prop) :
      (forall a, L a <-> L' a \/ X a) -> (forall a, L' a -> ~ X a) ->
      (forall a, F' a <-> F a \/ X a) ->
      step (World P F L mem) (World P F' L' mem)
  | step_place P C R F L F' L' mem mem' :
      P ≡ₚ C ++ R -> (forall d, d ∈ C.*1 -> L d \/ d ∈ C.*2) -> copied C mem mem' ->
      (forall a, F' a <-> F a \/ a ∈ C.*2 /\ a ∉ C.*1) ->
      (forall a, L' a <-> L a /\ a ∉ C.*1) ->
      step (World P F L mem) (World R F' L' mem')
  | step_relocate P P' T R F L L' mem mem' :
      P ≡ₚ map old T ++ R -> P' ≡ₚ map new T ++ R ->
      NoDup (map new T).*2 -> (forall a, a ∈ (map new T).*2 -> L a) ->
      copied (map transfer T) mem mem' ->
      (forall a, L' a <-> L a /\ a ∉ (map new T).*2 \/ a ∈ (map old T).*2) ->
      step (World P F L mem) (World P' F L' mem')
  | step_drop P C R F L mem :
      P ≡ₚ C ++ R -> (forall d x, (d, x) ∈ C -> d = x) ->
      step (World P F L mem) (World R F L mem).

Definition steps : world -> world -> Prop := rtc step.

(** A destination already filled. *)
Definition done (w : world) (a : Z) : Prop := a ∈ wants.*1 /\ a ∉ (pending w).*1.

Record inv (w : world) : Prop := {
  inv_dst : NoDup (pending w).*1;
  inv_src : NoDup (pending w).*2;
  inv_sub : forall d, d ∈ (pending w).*1 -> d ∈ wants.*1;
  inv_kept : forall d x, (d, x) ∈ wants ->
    (exists y, (d, y) ∈ pending w /\ contents w y = mem0 x) \/
    (d ∉ (pending w).*1 /\ contents w d = mem0 x);
  inv_free : forall a, unused w a -> ~ claimed w a /\ a ∉ (pending w).*2 /\ ~ done w a;
  inv_claimed : forall a, claimed w a -> a ∉ (pending w).*2 /\ ~ done w a;
  inv_source : forall a, a ∈ (pending w).*2 -> ~ done w a;
  inv_owned : forall a, unused w a \/ claimed w a \/ a ∈ (pending w).*2 -> usable a;
  inv_total : forall a, usable a -> unused w a \/ claimed w a \/ a ∈ (pending w).*2 \/ done w a;
  inv_frame : forall a, ~ usable a -> contents w a = mem0 a;
}.

(** ** Facts on pairs *)

Lemma elem_fst (P : list (Z * Z)) d : d ∈ P.*1 <-> exists x, (d, x) ∈ P.
Proof.
  rewrite list_elem_of_fmap; split; [intros ([? x] & -> & ?); eauto|].
  intros [x ?]; exists (d, x); auto.
Qed.

Lemma elem_snd (P : list (Z * Z)) x : x ∈ P.*2 <-> exists d, (d, x) ∈ P.
Proof.
  rewrite list_elem_of_fmap; split; [intros ([d ?] & -> & ?); eauto|].
  intros [d ?]; exists (d, x); auto.
Qed.

Lemma fst_old_new T : (map old T).*1 = (map new T).*1.
Proof. induction T as [|[[? ?] ?] T IH]; csimpl; congruence. Qed.

Lemma snd_transfer T : (map transfer T).*2 = (map old T).*2.
Proof. induction T as [|[[? ?] ?] T IH]; csimpl; congruence. Qed.

Lemma fst_transfer T : (map transfer T).*1 = (map new T).*2.
Proof. induction T as [|[[? ?] ?] T IH]; csimpl; congruence. Qed.

(** A list of pairs cut in two parts: destinations and sources are cut too. *)
Lemma cut_elem (P C R : list (Z * Z)) :
  P ≡ₚ C ++ R ->
  (forall d x, (d, x) ∈ P <-> (d, x) ∈ C \/ (d, x) ∈ R) /\
  (forall d, d ∈ P.*1 <-> d ∈ C.*1 \/ d ∈ R.*1) /\
  (forall x, x ∈ P.*2 <-> x ∈ C.*2 \/ x ∈ R.*2).
Proof.
  intros H; repeat split; intros; rewrite H, ?fmap_app, ?elem_of_app in *; auto.
Qed.

Lemma cut_nodup (P C R : list (Z * Z)) (f : Z * Z -> Z) :
  P ≡ₚ C ++ R -> NoDup (f <$> P) ->
  NoDup (f <$> C) /\ NoDup (f <$> R) /\ forall a, a ∈ f <$> C -> a ∉ f <$> R.
Proof. intros H; rewrite H, fmap_app, NoDup_app; naive_solver. Qed.

Lemma nodup_fst_eq (P : list (Z * Z)) d x y :
  NoDup P.*1 -> (d, x) ∈ P -> (d, y) ∈ P -> x = y.
Proof.
  induction P as [|[d' x'] P IH]; csimpl; [inversion 2|].
  rewrite NoDup_cons, !elem_of_cons, elem_fst.
  intros [Hn H] [E|?] [E'|?]; simplify_eq; auto; destruct Hn; eauto.
Qed.

(** ** Every step keeps the invariant *)

Ltac start_inv :=
  intros; match goal with H : inv _ |- _ => destruct H as [I1 I2 I3 I4 I5 I6 I7 I8 I9 I10] end;
  unfold done in *; cbn [pending unused claimed contents] in *.

Lemma claim_inv P F L F' L' mem (X : Z -> Prop) :
  (forall a, F a <-> F' a \/ X a) -> (forall a, F' a -> ~ X a) ->
  (forall a, L' a <-> L a \/ X a) ->
  inv (World P F L mem) -> inv (World P F' L' mem).
Proof.
  intros HF HX HL Hi; start_inv; split; unfold done; cbn [pending unused claimed contents]; auto.
  - intros a Ha; rewrite HL; destruct (I5 a) as (? & ? & ?); naive_solver.
  - intros a; rewrite HL; intros [?|?]; [auto|destruct (I5 a); naive_solver].
  - intros a; rewrite HL; intros; apply I8; naive_solver.
  - intros a Ha; rewrite HL; destruct (I9 a Ha); naive_solver.
Qed.

Lemma release_inv P F L F' L' mem (X : Z -> Prop) :
  (forall a, L a <-> L' a \/ X a) -> (forall a, L' a -> ~ X a) ->
  (forall a, F' a <-> F a \/ X a) ->
  inv (World P F L mem) -> inv (World P F' L' mem).
Proof.
  intros HL HX HF Hi; start_inv; split; unfold done; cbn [pending unused claimed contents]; auto.
  - intros a; rewrite HF; intros [?|?].
    + destruct (I5 a) as (? & ? & ?); naive_solver.
    + destruct (I6 a); naive_solver.
  - intros a ?; apply I6, HL; auto.
  - intros a; rewrite HF; intros; apply I8; naive_solver.
  - intros a Ha; rewrite HF; destruct (I9 a Ha) as [?|[?|?]]; naive_solver.
Qed.

Lemma place_inv P C R F L F' L' mem mem' :
  P ≡ₚ C ++ R -> (forall d, d ∈ C.*1 -> L d \/ d ∈ C.*2) -> copied C mem mem' ->
  (forall a, F' a <-> F a \/ a ∈ C.*2 /\ a ∉ C.*1) ->
  (forall a, L' a <-> L a /\ a ∉ C.*1) ->
  inv (World P F L mem) -> inv (World R F' L' mem').
Proof.
  intros HP HC [Hm1 Hm2] HF HL Hi; start_inv.
  destruct (cut_elem _ _ _ HP) as (E0 & E1 & E2).
  destruct (cut_nodup _ _ _ fst HP I1) as (N1 & N2 & N3).
  destruct (cut_nodup _ _ _ snd HP I2) as (N4 & N5 & N6).
  assert (HCR : forall d, d ∈ C.*1 -> d ∉ R.*2)
    by (intros d Hd; destruct (HC d Hd) as [Hl|Hs]; [apply I6 in Hl; rewrite E2 in Hl; tauto|auto]).
  assert (HCw : forall d, d ∈ C.*1 -> d ∈ wants.*1) by (intros; apply I3, E1; auto).
  assert (Hdone : forall a, a ∉ R.*1 -> a ∉ C.*1 -> a ∉ P.*1) by (intros a ??; rewrite E1; tauto).
  split; unfold done; cbn [pending unused claimed contents]; auto.
  - intros d Hd; apply I3, E1; auto.
  - intros d x Hw; destruct (I4 d x Hw) as [(y & Hy & <-)|[Hn Hm]].
    + apply E0 in Hy as [Hy|Hy].
      * right; split; [apply N3; rewrite elem_fst; eauto|auto].
      * left; exists y; split; auto; apply Hm2; intros Hc; apply (HCR y Hc); rewrite elem_snd; eauto.
    + right; rewrite E1 in Hn; split; [tauto|]; rewrite Hm2; tauto.
  - intros a; rewrite HF, HL; intros [Ha|[Ha Hna]].
    + destruct (I5 a Ha) as (Hl & Hs & Hdn); rewrite E2 in Hs; repeat split; try tauto.
      intros [Hw Hr]; destruct (decide (a ∈ C.*1)) as [Hc|Hc]; [|apply Hdn; auto].
      destruct (HC a Hc); tauto.
    + assert (Hs : a ∈ P.*2) by (rewrite E2; auto).
      repeat split; [intros [Hl _]; now apply I6 in Hl|auto|].
      intros [Hw Hr]; apply (I7 a Hs); auto.
  - intros a; rewrite HL; intros [Hl Hna]; destruct (I6 a Hl) as [Hs Hdn]; rewrite E2 in Hs.
    split; [tauto|]; intros [Hw Hr]; apply Hdn; auto.
  - intros a Ha [Hw Hr]; destruct (decide (a ∈ C.*1)) as [Hc|Hc]; [now apply (HCR a)|].
    apply (I7 a); [rewrite E2; auto|auto].
  - intros a; rewrite HF, HL; intros Ha; apply I8; rewrite E2; tauto.
  - intros a Ha; rewrite HF, HL; destruct (decide (a ∈ C.*1)) as [Hc|Hc]; [auto 6|].
    destruct (I9 a Ha) as [?|[?|[Hs|[? Hn]]]]; [tauto|tauto| |].
    + apply E2 in Hs; tauto.
    + rewrite E1 in Hn; tauto.
  - intros a Ha; rewrite Hm2; auto; intros Hc; apply Ha, I8.
    rewrite E2; destruct (HC a Hc); tauto.
Qed.

Lemma relocate_inv P P' T R F L L' mem mem' :
  P ≡ₚ map old T ++ R -> P' ≡ₚ map new T ++ R ->
  NoDup (map new T).*2 -> (forall a, a ∈ (map new T).*2 -> L a) ->
  copied (map transfer T) mem mem' ->
  (forall a, L' a <-> L a /\ a ∉ (map new T).*2 \/ a ∈ (map old T).*2) ->
  inv (World P F L mem) -> inv (World P' F L' mem').
Proof.
  intros HP HP' HN HNL [Hm1 Hm2] HL Hi; start_inv.
  rewrite fst_transfer in Hm2.
  destruct (cut_elem _ _ _ HP) as (E0 & E1 & E2).
  destruct (cut_elem _ _ _ HP') as (E0' & E1' & E2').
  destruct (cut_nodup _ _ _ snd HP I2) as (N4 & N5 & N6).
  assert (Hdst : forall d, d ∈ P'.*1 <-> d ∈ P.*1)
    by (intros d; now rewrite E1, E1', fst_old_new).
  assert (Hnew : forall a, a ∈ (map new T).*2 -> a ∉ P.*2) by (intros a Ha; now apply I6, HNL).
  split; unfold done; cbn [pending unused claimed contents]; auto.
  - rewrite HP', fmap_app, <- fst_old_new, <- fmap_app, <- HP; auto.
  - rewrite HP', fmap_app; apply NoDup_app; split; [auto|split; auto].
    intros a Ha Hr; apply (Hnew a Ha); rewrite E2; auto.
  - intros d; rewrite Hdst; auto.
  - intros d x Hw; rewrite Hdst; destruct (I4 d x Hw) as [(y & Hy & Hmy)|[Hn Hm]].
    + left; apply E0 in Hy as [Hy|Hy].
      * apply list_elem_of_fmap in Hy as ([[d' y'] n] & [= -> ->] & Ht).
        exists n; rewrite E0'; split; [left; apply list_elem_of_fmap; now exists (d', y', n)|].
        rewrite <- Hmy; apply Hm1, list_elem_of_fmap; now exists (d', y', n).
      * exists y; rewrite E0'; split; [auto|]; rewrite Hm2; auto.
        intros Hc; apply (Hnew y Hc); rewrite E2, (elem_snd R); eauto.
    + right; split; [auto|]; rewrite Hm2; auto.
      intros Hc; apply HNL in Hc; destruct (I6 d Hc) as [_ Hd]; apply Hd.
      split; [rewrite elem_fst; eauto|auto].
  - intros a Ha; rewrite HL, Hdst, E2'; destruct (I5 a Ha) as (? & Hs & ?); rewrite E2 in Hs.
    repeat split; try tauto; intros [Hc|?]; [apply HNL in Hc|]; tauto.
  - intros a; rewrite HL, Hdst, E2'; intros [[Hl Hn]|Ho].
    + destruct (I6 a Hl) as [Hs ?]; rewrite E2 in Hs; tauto.
    + assert (Hs : a ∈ P.*2) by (rewrite E2; auto); split; [|auto].
      intros [Hc|Hr]; [now apply (Hnew a)|now apply (N6 a)].
  - intros a; rewrite Hdst, E2'; intros [Hn|Hr]; [now apply I6, HNL|apply I7; rewrite E2; auto].
  - intros a; rewrite HL, E2'; intros [?|[[[? ?]|?]|[Hn|?]]]; apply I8; rewrite ?E2; auto.
  - intros a Ha; rewrite HL, Hdst, E2'; destruct (I9 a Ha) as [?|[Hl|[Hs|?]]]; auto.
    + destruct (decide (a ∈ (map new T).*2)); auto.
    + apply E2 in Hs; tauto.
  - intros a Ha; rewrite Hm2; auto; intros Hc; apply Ha, I8; auto.
Qed.

Lemma drop_inv P C R F L mem :
  P ≡ₚ C ++ R -> (forall d x, (d, x) ∈ C -> d = x) ->
  inv (World P F L mem) -> inv (World R F L mem).
Proof.
  intros HP HC Hi; assert (HC' : forall a, a ∈ C.*1 <-> a ∈ C.*2).
  { intros a; rewrite elem_fst, elem_snd; split; intros [x Hx]; exists x;
      pose proof (HC _ _ Hx); congruence. }
  apply (place_inv P C R F L F L mem mem); auto.
  - intros d Hd; right; now apply HC'.
  - split; auto; intros d x Hx; now rewrite (HC d x).
  - intros a; rewrite HC'; tauto.
  - intros a; split; [intros Hl; split; auto|tauto].
    rewrite HC'; apply (inv_claimed _ Hi) in Hl as [Hs _]; simpl in Hs; rewrite HP, fmap_app, elem_of_app in Hs; tauto.
Qed.

Lemma step_inv w w' : inv w -> step w w' -> inv w'.
Proof.
  intros Hi Hs; destruct Hs;
    eauto using claim_inv, release_inv, place_inv, relocate_inv, drop_inv.
Qed.

Lemma steps_inv w w' : inv w -> steps w w' -> inv w'.
Proof. intros Hi Hs; induction Hs; eauto using step_inv. Qed.

(** The world the computation starts in. *)
Lemma inv_start F :
  NoDup wants.*1 -> NoDup wants.*2 -> (forall a, F a -> a ∉ wants.*2) ->
  (forall a, usable a <-> F a \/ a ∈ wants.*2) ->
  inv (World wants F (fun _ => False) mem0).
Proof.
  intros H1 H2 HF HU; split; unfold done; simpl; auto; try tauto.
  - intros d x Hd; left; eauto.
  - intros a Ha; repeat split; auto; tauto.
  - intros a; rewrite HU; tauto.
  - intros a; rewrite HU; tauto.
Qed.

(** When nothing is pending, what was asked for is in place and nothing outside
    the usable memory has changed. *)
Lemma inv_finished w :
  inv w -> pending w = [] ->
  (forall d x, (d, x) ∈ wants -> contents w d = mem0 x) /\
  (forall a, ~ usable a -> contents w a = mem0 a).
Proof.
  intros Hi Hp; split; [|exact (inv_frame _ Hi)].
  intros d x Hd; destruct (inv_kept _ Hi d x Hd) as [(y & Hy & _)|[_ H]]; auto.
  rewrite Hp in Hy; inversion Hy.
Qed.
End Relocation.
