(* ===== verification/Movebits.v ===== *)
(** * The move-list computation: com32/lib/syslinux/movebits.c

    A move list is the list of its fragments; a pointer to a link of it
    ([struct syslinux_movelist **]) is the position where a list is cut in two.
    The functions run in a monad over the allocator: [None] is a NULL
    dereference, [Bail] the exit through the [bail] label (or the [longjmp] a
    failed allocation makes to it), after which the caller sees -1.  The
    asserts of the file are no-ops (com32/include/assert.h). *)

From S2P Require Import Prelude Zonelist.
Open Scope word_scope.

(** ** Data *)

(** [src/com32/include/syslinux/movebits.h:14-19 struct syslinux_movelist] *)
Record frag := Frag { f_dst : Z; f_src : Z; f_len : Z }.

#[export] Instance frag_eq_dec : EqDecision frag.
Proof. solve_decision. Defined.

(** How a computation that may leave through [bail] ends. *)
Inductive outcome (A : Type) :=
  | Ret (a : A)
  | Bail.
Arguments Ret {A} a.
Arguments Bail {A}.

Definition M (A : Type) : Type := Mem.t -> option (outcome A * Mem.t).

Definition ret {A} (a : A) : M A := fun m => Some (Ret a, m).
Definition bail {A} : M A := fun m => Some (Bail, m).

Definition bind {A B} (c : M A) (k : A -> M B) : M B := fun m =>
  match c m with
  | Some (Ret a, m') => k a m'
  | Some (Bail, m') => Some (Bail, m')
  | None => None
  end.

(** A computation that only reads through pointers. *)
Definition lift {A} (o : option A) : M A := fun m =>
  match o with Some a => Some (Ret a, m) | None => None end.

Notation "'let!' x := c 'in' k" := (bind c (fun x => k))
  (at level 10, x pattern, c at level 100, k at level 200).

(** ** Operations on lists *)

(** [src/com32/lib/syslinux/movebits.c:55-69 new_movelist] *)
Definition new_movelist (dst src len : Z) : M frag := fun m =>
  let (ok, m') := Mem.malloc m in
  if ok then Some (Ret (Frag dst src len), m') else Some (Bail, m').

(** [src/com32/lib/syslinux/movebits.c:71-83 dup_movelist] *)
Fixpoint dup_movelist (src : list frag) : M (list frag) :=
  match src with
  | [] => ret []
  | s :: next =>
      let! ml := new_movelist (f_dst s) (f_src s) (f_len s) in
      let! rest := dup_movelist next in
      ret (ml :: rest)
  end.

(** [src/com32/lib/syslinux/movebits.c:85-91 add_freelist] *)
Definition add_freelist (mmap : list zone) (start len : Z) (type : smt) : M (list zone) :=
  fun m =>
    match syslinux_add_memmap mmap start len type m with
    | Some (rv, l, m') => if rv =? 0 then Some (Ret l, m') else Some (Bail, m')
    | None => None
    end.

(** The list from [*parentptr] on, cut at the pointer returned.
    [src/com32/lib/syslinux/movebits.c:97-130 split_movelist] *)
Definition split_movelist (start len : Z) (ml : frag) (next : list frag)
  : M (list frag * frag * list frag) :=
  let! (before, ml, next) :=
    if f_src ml <? start then
      let l := start ⊟ f_src ml in
      let! m := new_movelist (f_dst ml ⊞ l) start (f_len ml ⊟ l) in
      ret ([Frag (f_dst ml) (f_src ml) l], m, next)
    else ret ([], ml, next) in
  if len <? f_len ml then
    let l := f_len ml ⊟ len in
    let! m := new_movelist (f_dst ml ⊞ len) (f_src ml ⊞ len) l in
    ret (before, Frag (f_dst ml) (f_src ml) len, m :: next)
  else ret (before, ml, next).

(** The scan of the free list.  [run] is the node at which the current run of
    usable zones began, while the inner loop is running; the answer is the
    list from the node returned on, [None] for NULL.
    [src/com32/lib/syslinux/movebits.c:159-175 is_free_zone] *)
Fixpoint is_free_loop (start last : Z) (run : option (list zone)) (list0 : list zone)
  : option (option (list zone)) :=
  match list0 with
  | [] => None
  | z :: tl =>
      let inner (ilist : list zone) :=
        if valid_terminal_type (z_type z) then
          match tl with
          | [] => None
          | nxt :: _ =>
              if last <=? z_start nxt ⊟ 1 then Some (Some ilist)
              else is_free_loop start last (Some ilist) tl
          end
        else if start <? z_start z then Some None
        else is_free_loop start last None tl in
      match run with
      | Some ilist => inner ilist
      | None =>
          if is_end z then Some None
          else if z_start z <=? start then inner list0
          else is_free_loop start last None tl
      end
  end.

(** [src/com32/lib/syslinux/movebits.c:149-176 is_free_zone] *)
Definition is_free_zone (list0 : list zone) (start len : Z) : option (option (list zone)) :=
  is_free_loop start (start + len ⊟ 1) None list0.

(** [src/com32/lib/syslinux/movebits.c:189-199 free_area] *)
Fixpoint free_area_loop (len : Z) (s : list zone) (best : option Z) (best_len : Z)
  : option (option Z * Z) :=
  match s with
  | [] => None
  | z :: tl =>
      if is_end z then Some (best, best_len)
      else if bool_decide (z_type z <> SMT_FREE) then free_area_loop len tl best best_len
      else
        match tl with
        | [] => None
        | nxt :: _ =>
            let slen := z_start nxt ⊟ z_start z in
            if (len <=? slen) && (bool_decide (best = None) || (slen <? best_len))
            then free_area_loop len tl (Some (z_start z)) slen
            else free_area_loop len tl best best_len
        end
  end.

(** The length of the block and, when one was found, its start.
    [src/com32/lib/syslinux/movebits.c:182-207 free_area] *)
Definition free_area (mmap : list zone) (len : Z) : option (Z * option Z) :=
  let* (best, best_len) := free_area_loop len mmap None (u32 (-1)) in
  match best with
  | Some start => Some (best_len, Some start)
  | None => Some (0, None)
  end.

(** The result of [syslinux_add_memmap] is ignored.
    [src/com32/lib/syslinux/movebits.c:212-216 allocate_from] *)
Definition allocate_from (mmap : list zone) (start len : Z) : M (list zone) := fun m =>
  match syslinux_add_memmap mmap start len SMT_ALLOC m with
  | Some (_, l, m') => Some (Ret l, m')
  | None => None
  end.

(** ** One-to-many fragments *)

(** The comparison of the fragment at [*mpp] with the fragments [mxs] before
    it: whether the scan left through [restart], the list at [*mpp] and the
    list of copies to make afterwards.
    [src/com32/lib/syslinux/movebits.c:244-295 shuffle_dealias] *)
Fixpoint dealias_scan (mxs : list frag) (ps pe : Z) (mp : frag)
    (next postcopy : list frag) : M (bool * list frag * list frag) :=
  match mxs with
  | [] => ret (false, mp :: next, postcopy)
  | mx :: mxs' =>
      let xs := f_src mx in
      let xe := f_src mx + f_len mx ⊟ 1 in
      if (pe <=? xs) || (xe <=? ps) then dealias_scan mxs' ps pe mp next postcopy
      else
        let! (mp, pe, link, advance) :=
          if xe <? pe then
            let delta := pe ⊟ xe in
            let! np := new_movelist (f_dst mp + f_len mp ⊟ delta)
                                    (f_src mp + f_len mp ⊟ delta) delta in
            ret (Frag (f_dst mp) (f_src mp) (f_len mp ⊟ delta), xe, np :: next, true)
          else ret (mp, pe, next, false) in
        let! (mp, ps, link, advance) :=
          if ps <? xs then
            let delta := xs ⊟ ps in
            let! np := new_movelist (f_dst mp) ps delta in
            ret (Frag (f_dst mp ⊞ delta) (f_src mp ⊞ delta) (f_len mp ⊟ delta),
                 f_src mp ⊞ delta, np :: link, true)
          else ret (mp, ps, link, advance) in
        let postcopy := Frag (f_dst mp) (f_dst mx ⊞ (ps ⊟ xs)) (f_len mp) :: postcopy in
        if advance then
          match link with
          | [] => lift None
          | np :: link' => dealias_scan mxs' ps pe np link' postcopy
          end
        else ret (true, link, postcopy)
  end.

(** [pre] are the fragments before [*mpp], [cur] the list at [*mpp].
    [src/com32/lib/syslinux/movebits.c:235-300 shuffle_dealias] *)
Fixpoint dealias_loop (fuel : nat) (pre cur postcopy : list frag)
  : M (list frag * list frag) :=
  match cur with
  | [] => ret (pre, postcopy)
  | mp :: next =>
      match fuel with
      | O => lift None
      | S fuel =>
          let! (restart, cur', postcopy') :=
            dealias_scan pre (f_src mp) (f_src mp + f_len mp ⊟ 1) mp next postcopy in
          if restart : bool then dealias_loop fuel pre cur' postcopy'
          else
            match cur' with
            | [] => lift None
            | mp' :: next' => dealias_loop fuel (pre ++ [mp']) next' postcopy'
            end
      end
  end.

(** The fragments to shuffle and the copies to make after the shuffle.
    [src/com32/lib/syslinux/movebits.c:223-306 shuffle_dealias] *)
Definition shuffle_dealias (fuel : nat) (fraglist : list frag) : M (list frag * list frag) :=
  dealias_loop fuel [] fraglist [].

(** ** Moving a chunk *)

(** What a move needs free: the part of the destination outside the source,
    the direction of the overlap and the critical byte. *)
Record need := Need {
  needbase : Z;
  needlen : Z;
  reverse : bool;
  cbyte : Z;
}.

(** The computation made for each fragment of the scan and again for the first
    one.
    [src/com32/lib/syslinux/movebits.c:493-510 syslinux_compute_movelist] *)
Definition need_of (f : frag) : need :=
  if (f_src f <? f_dst f) && (f_dst f ⊟ f_src f <? f_len f) then
    let nl := f_dst f ⊟ f_src f in
    Need (f_dst f ⊞ (f_len f ⊟ nl)) nl true (f_dst f + f_len f ⊟ 1)
  else if (f_dst f <? f_src f) && (f_src f ⊟ f_dst f <? f_len f) then
    Need (f_dst f) (f_src f ⊟ f_dst f) false (f_dst f)
  else Need (f_dst f) (f_len f) false (f_dst f).

(** The memory a move sets free: start and length.
    [src/com32/lib/syslinux/movebits.c:360-369 move_chunk] *)
Definition freed_by (f : frag) : Z * Z :=
  if f_src f <? f_dst f then (f_src f, Z.min (f_len f) (f_dst f ⊟ f_src f))
  else if f_dst f ⊞ f_len f <=? f_src f then (f_src f, f_len f)
  else (f_dst f ⊞ f_len f, f_src f ⊟ f_dst f).

(** The move emitted, the memory map and the list at [*fp] afterwards, after
    the nodes the split left before it.
    [src/com32/lib/syslinux/movebits.c:311-376 move_chunk] *)
Definition move_chunk (mmap : list zone) (f : frag) (next : list frag) (copylen : Z)
  : M (frag * list zone * list frag) :=
  let n := need_of f in
  let! (before, f, next) :=
    if copylen <? needlen n then
      let copysrc := if reverse n then f_src f ⊞ (f_len f ⊟ copylen) else f_src f in
      split_movelist copysrc copylen f next
    else ret ([], f, next) in
  let! mv := new_movelist (f_dst f) (f_src f) (f_len f) in
  let (freebase, freelen) := freed_by f in
  let! mmap := add_freelist mmap freebase freelen SMT_FREE in
  ret (mv, mmap, before ++ next).

(** ** The shuffle *)

(** The moves emitted so far, the fragments left and the free memory. *)
Record state := State {
  moves : list frag;
  frags : list frag;
  mmap : list zone;
}.

(** [src/com32/lib/syslinux/movebits.c:443-449 syslinux_compute_movelist] *)
Definition discard (next : list frag) : list frag :=
  filter (fun o => f_src o <> f_dst o) next.

(** The first fragment that can go to its place at once, cut out of the list.
    [src/com32/lib/syslinux/movebits.c:453-482 syslinux_compute_movelist] *)
Fixpoint find_direct (mmap : list zone) (op : list frag)
  : option (option (list frag * frag * list frag)) :=
  match op with
  | [] => Some None
  | o :: next =>
      let n := need_of o in
      let* free := is_free_zone mmap (needbase n) (needlen n) in
      match free with
      | Some _ => Some (Some ([], o, next))
      | None =>
          let* r := find_direct mmap next in
          Some (option_map (fun '(before, f, after) => (o :: before, f, after)) r)
      end
  end.

(** How much can be claimed around the critical byte.
    [src/com32/lib/syslinux/movebits.c:516-525 syslinux_compute_movelist] *)
Definition available (mmap : list zone) (n : need) : option Z :=
  let* ep := is_free_zone mmap (cbyte n) 1 in
  match ep with
  | None => Some 0
  | Some (ep :: nxt :: _) =>
      let ep_len := z_start nxt ⊟ z_start ep in
      Some (if reverse n then needbase n + needlen n ⊟ z_start ep
            else ep_len ⊟ (needbase n ⊟ z_start ep))
  | Some _ => None
  end.

(** The fragment that holds the critical byte, cut out of the list.
    [src/com32/lib/syslinux/movebits.c:546-552 syslinux_compute_movelist] *)
Fixpoint find_occupant (cbyte : Z) (op : list frag) : option (list frag * frag * list frag) :=
  match op with
  | [] => None
  | o :: next =>
      if (f_src o <=? cbyte) && (cbyte <? f_src o ⊞ f_len o) then Some ([], o, next)
      else
        option_map (fun '(before, f, after) => (o :: before, f, after))
          (find_occupant cbyte next)
  end.

(** Where the occupant goes: [copydst], [copysrc] and [copylen]; [inl] when no
    memory at all is free.
    [src/com32/lib/syslinux/movebits.c:556-582 syslinux_compute_movelist] *)
Definition evict_plan (mmap : list zone) (n : need) (o : frag) : option (unit + Z * Z * Z) :=
  let* score := is_free_zone mmap (f_dst o) (f_len o) in
  match score with
  | Some _ => Some (inr (f_dst o, f_src o, f_len o))
  | None =>
      let* (whole, fstart) := free_area mmap (f_len o) in
      match (if whole =? 0 then None else fstart) with
      | Some fstart => Some (inr (fstart, f_src o, f_len o))
      | None =>
          let* largest := syslinux_memmap_largest mmap SMT_FREE in
          match largest with
          | inl _ => Some (inl tt)
          | inr (fstart, flen) =>
              if reverse n then
                let copysrc := Z.max (f_src o) (cbyte n + 1 ⊟ flen) in
                Some (inr (fstart, copysrc, cbyte n + 1 ⊟ copysrc))
              else
                Some (inr (fstart, cbyte n,
                           Z.min flen (f_len o ⊟ (cbyte n ⊟ f_src o))))
          end
      end
  end.

(** The evicted memory that is not needed is set free; the length left.
    [src/com32/lib/syslinux/movebits.c:598-609 syslinux_compute_movelist] *)
Definition free_surplus (mmap : list zone) (n : need) (copysrc copylen : Z)
  : M (list zone * Z) :=
  if needlen n <? copylen then
    let! (mmap, copylen) :=
      if copysrc <? needbase n then
        let! mmap := add_freelist mmap copysrc (needbase n ⊟ copysrc) SMT_FREE in
        ret (mmap, copylen ⊟ (needbase n ⊟ copysrc))
      else ret (mmap, copylen) in
    if needlen n <? copylen then
      let! mmap := add_freelist mmap (copysrc ⊞ needlen n) (copylen ⊟ needlen n) SMT_FREE in
      ret (mmap, needlen n)
    else ret (mmap, copylen)
  else ret (mmap, copylen).

(** Moving the occupant [o] of the critical byte out of the way: the move, the
    list that replaces [o :: after], the memory map and the length freed for
    the first fragment.
    [src/com32/lib/syslinux/movebits.c:583-609 syslinux_compute_movelist] *)
Definition evict (mmap : list zone) (n : need) (o : frag) (after : list frag)
    (plan : Z * Z * Z) : M (frag * list frag * list zone * Z) :=
  let '(copydst, copysrc, copylen) := plan in
  let! mmap := allocate_from mmap copydst copylen in
  let! (before, o, after) :=
    if copylen <? f_len o then split_movelist copysrc copylen o after
    else ret ([], o, after) in
  let! mv := new_movelist copydst copysrc copylen in
  let o := Frag (f_dst o) copydst (f_len o) in
  let! (mmap, copylen) := free_surplus mmap n copysrc copylen in
  ret (mv, before ++ o :: after, mmap, copylen).

(** The tail of an iteration: the label [move_chunk].
    [src/com32/lib/syslinux/movebits.c:616-617 syslinux_compute_movelist] *)
Definition emit_chunk (moves : list frag) (mmap : list zone) (before : list frag) (f : frag)
    (next : list frag) (copylen : Z) : M state :=
  let! (mv, mmap, rest) := move_chunk mmap f next copylen in
  ret (State (moves ++ [mv]) (before ++ rest) mmap).

(** Claiming what is free of the destination of [f], or evicting what occupies
    its critical byte.
    [src/com32/lib/syslinux/movebits.c:484-614 syslinux_compute_movelist] *)
Definition work (moves : list frag) (mmap : list zone) (f : frag) (next : list frag)
  : M state :=
  let n := need_of f in
  let! avail := lift (available mmap n) in
  if negb (avail =? 0) then
    let copylen := Z.min (needlen n) avail in
    let! mmap :=
      if reverse n then allocate_from mmap (needbase n + needlen n ⊟ copylen) copylen
      else allocate_from mmap (needbase n) copylen in
    emit_chunk moves mmap [] f next copylen
  else
    match find_occupant (cbyte n) next with
    | None => bail
    | Some (before, o, after) =>
        let! plan := lift (evict_plan mmap n o) in
        match plan with
        | inl _ => bail
        | inr plan =>
            let! (mv, after', mmap, copylen) := evict mmap n o after plan in
            emit_chunk (moves ++ [mv]) mmap [] f (before ++ after') copylen
        end
    end.

(** One iteration of the main loop, on the list [f :: next].
    [src/com32/lib/syslinux/movebits.c:438-618 syslinux_compute_movelist] *)
Definition iteration (moves : list frag) (mmap : list zone) (f : frag) (next : list frag)
  : M state :=
  if f_src f =? f_dst f then ret (State moves next mmap)
  else
    let next := discard next in
    let! direct := lift (find_direct mmap (f :: next)) in
    match direct with
    | Some (before, o, after) =>
        let n := need_of o in
        let! mmap := allocate_from mmap (needbase n) (needlen n) in
        emit_chunk moves mmap before o after (needlen n)
    | None => work moves mmap f next
    end.

(** [src/com32/lib/syslinux/movebits.c:430-618 syslinux_compute_movelist] *)
Fixpoint shuffle (fuel : nat) (s : state) : M (list frag) :=
  match frags s with
  | [] => ret (moves s)
  | f :: next =>
      match fuel with
      | O => lift None
      | S fuel => let! s := iteration (moves s) (mmap s) f next in shuffle fuel s
      end
  end.

(** [src/com32/lib/syslinux/movebits.c:404-416 syslinux_compute_movelist] *)
Definition init_memmap : M (list zone) := fun m =>
  match syslinux_init_memmap m with
  | (Some l, m') => Some (Ret l, m')
  | (None, m') => Some (Bail, m')
  end.

(** [src/com32/lib/syslinux/movebits.c:423-425 syslinux_compute_movelist] *)
Fixpoint copy_memmap (mmap mm : list zone) : M (list zone) :=
  match mm with
  | [] => lift None
  | z :: tl =>
      if is_end z then ret mmap
      else
        match tl with
        | [] => lift None
        | nxt :: _ =>
            let! mmap := add_freelist mmap (z_start z) (z_start nxt ⊟ z_start z)
              (if bool_decide (z_type z = SMT_ZERO) then SMT_FREE else z_type z) in
            copy_memmap mmap tl
        end
  end.

(** [src/com32/lib/syslinux/movebits.c:427-428 syslinux_compute_movelist] *)
Fixpoint mark_sources (mmap : list zone) (f : list frag) : M (list zone) :=
  match f with
  | [] => ret mmap
  | f :: next =>
      let! mmap := add_freelist mmap (f_src f) (f_len f) SMT_ALLOC in
      mark_sources mmap next
  end.

(** What is done before the main loop.
    [src/com32/lib/syslinux/movebits.c:400-428 syslinux_compute_movelist] *)
Definition prepare (fuel : nat) (ifrags : list frag) (memmap : list zone)
  : M (state * list frag) :=
  let! mmap := init_memmap in
  let! frags := dup_movelist ifrags in
  let! (frags, postcopy) := shuffle_dealias fuel frags in
  let! mmap := copy_memmap mmap memmap in
  let! mmap := mark_sources mmap frags in
  ret (State [] frags mmap, postcopy).

(** The moves when the function returns 0, [Bail] when it returns -1.
    [src/com32/lib/syslinux/movebits.c:382-634 syslinux_compute_movelist] *)
Definition syslinux_compute_movelist (fuel : nat) (ifrags : list frag) (memmap : list zone)
  : M (list frag) :=
  let! (s, postcopy) := prepare fuel ifrags memmap in
  let! moves := shuffle fuel s in
  ret (moves ++ postcopy).

(** [src/com32/lib/syslinux/addlist.c:31-45 syslinux_add_movelist] *)
Definition syslinux_add_movelist (list0 : list frag) (dst src len : Z) (m : Mem.t)
  : Z * list frag * Mem.t :=
  let (ok, m') := Mem.malloc m in
  if ok then (0, Frag dst src len :: list0, m') else (-1, list0, m').
