(* ===== verification/MovebitsProof.v ===== *)
(** * The move lists of movebits.c are correct

    Each operation of [Movebits] is related to steps of the abstract machine of
    [Relocation]: claiming and releasing memory are changes of the memory map,
    [move_chunk] places bytes, an eviction relocates them.  The memory
    allocator is reasoned about through [wp], the rest by rule induction on
    the abstract steps; the number of bytes still to move is the measure that
    bounds the main loop.  The theorems are at the end of the file. *)

From S2P Require Import Prelude Zonelist Relocation Movebits.
Open Scope word_scope.

(** ** What a move list does *)

(** The moves are made in order, each as one [memmove]. *)
Definition apply_move {A} (mem : Z -> A) (mv : frag) : Z -> A := fun a =>
  if (f_dst mv <=? a) && (a <? f_dst mv + f_len mv)
  then mem (f_src mv + (a - f_dst mv)) else mem a.

Definition run_moves {A} (mvs : list frag) (mem : Z -> A) : Z -> A :=
  fold_left apply_move mvs mem.

(** The bytes a fragment asks for, as (destination, source) pairs. *)
Definition pairs (f : frag) : list (Z * Z) :=
  (fun i => (f_dst f + i, f_src f + i)) <$> seqZ 0 (f_len f).

Definition bytes (fs : list frag) : list (Z * Z) := flat_map pairs fs.

(** A fragment that is not empty and does not wrap around. *)
Definition frag_ok (f : frag) : Prop :=
  0 <= f_dst f /\ 0 <= f_src f /\ 0 < f_len f < 4294967296 /\
  f_dst f + f_len f <= 4294967296 /\ f_src f + f_len f <= 4294967296.

(** The plan of an eviction frees exactly a piece of what the first fragment
    needs, from its critical end on. *)
Definition aligned (n : need) (plan : Z * Z * Z) : bool :=
  let '(_, copysrc, copylen) := plan in
  (copysrc =? needbase n) ||
  reverse n && (copysrc + copylen =? needbase n + needlen n).

(** If the iteration on [f :: next] evicts, it does so aligned. *)
Definition step_aligned (mmap : list zone) (f : frag) (next : list frag) : bool :=
  if f_src f =? f_dst f then true
  else
    let n := need_of f in
    match find_direct mmap (f :: discard next), available mmap n,
          find_occupant (cbyte n) (discard next) with
    | Some None, Some 0, Some (_, o, _) =>
        match evict_plan mmap n o with
        | Some (inr plan) => aligned n plan
        | _ => true
        end
    | _, _, _ => true
    end.

Fixpoint run_aligned (fuel : nat) (s : state) (m : Mem.t) : bool :=
  match frags s, fuel with
  | f :: next, S fuel =>
      step_aligned (mmap s) f next &&
      match iteration (moves s) (mmap s) f next m with
      | Some (Ret s', m') => run_aligned fuel s' m'
      | _ => true
      end
  | _, _ => true
  end.

(** All the evictions of the computation are aligned. *)
Definition evictions_aligned (fuel : nat) (ifrags : list frag) (memmap : list zone) : bool :=
  match prepare fuel ifrags memmap Mem.always with
  | Some (Ret (s, _), m) => run_aligned fuel s m
  | _ => true
  end.

(** ** Facts on fragments and their bytes *)

Lemma elem_pairs f d x :
  (d, x) ∈ pairs f <-> 0 <= d - f_dst f < f_len f /\ x - f_src f = d - f_dst f.
Proof.
  unfold pairs; rewrite list_elem_of_fmap; split.
  - intros (i & [= -> ->] & Hi); apply elem_of_seqZ in Hi; lia.
  - intros [Hd Hx]; exists (d - f_dst f); split; [f_equal; lia|apply elem_of_seqZ; lia].
Qed.

Lemma elem_dsts f d : d ∈ (pairs f).*1 <-> f_dst f <= d < f_dst f + f_len f.
Proof.
  rewrite elem_fst; setoid_rewrite elem_pairs; split; [intros [x ?]; lia|].
  intros; exists (f_src f + (d - f_dst f)); lia.
Qed.

Lemma elem_srcs f x : x ∈ (pairs f).*2 <-> f_src f <= x < f_src f + f_len f.
Proof.
  rewrite elem_snd; setoid_rewrite elem_pairs; split; [intros [d ?]; lia|].
  intros; exists (f_dst f + (x - f_src f)); lia.
Qed.

Lemma length_pairs f : length (pairs f) = Z.to_nat (f_len f).
Proof. unfold pairs; now rewrite length_fmap, length_seqZ. Qed.

Lemma bytes_app l1 l2 : bytes (l1 ++ l2) = bytes l1 ++ bytes l2.
Proof. apply flat_map_app. Qed.

Lemma bytes_cons f l : bytes (f :: l) = pairs f ++ bytes l.
Proof. reflexivity. Qed.

Lemma pairs_split d x n k :
  0 <= k <= n -> pairs (Frag d x n) = pairs (Frag d x k) ++ pairs (Frag (d + k) (x + k) (n - k)).
Proof.
  intros H; unfold pairs; simpl.
  replace n with (k + (n - k)) at 1 by lia; rewrite seqZ_app, fmap_app by lia; f_equal.
  rewrite Z.add_0_l, <- (Z.add_0_r k) at 1; rewrite <- fmap_add_seqZ, <- list_fmap_compose.
  apply list_fmap_ext; intros; simpl; f_equal; lia.
Qed.

(** The bytes of one fragment, away from those of the others. *)
Lemma bytes_mid before f after :
  bytes (before ++ f :: after) ≡ₚ pairs f ++ bytes (before ++ after).
Proof. rewrite !bytes_app, bytes_cons; solve_Permutation. Qed.

Lemma run_moves_app {A} mvs mv (mem : Z -> A) :
  run_moves (mvs ++ [mv]) mem = apply_move (run_moves mvs mem) mv.
Proof. unfold run_moves; now rewrite fold_left_app. Qed.

Lemma apply_move_copied {A} mv (mem : Z -> A) : copied (pairs mv) mem (apply_move mem mv).
Proof.
  unfold apply_move; split.
  - intros d x Hd; apply elem_pairs in Hd; zdec; simpl; f_equal; lia.
  - intros a Ha; rewrite elem_dsts in Ha.
    destruct (Z.leb_spec (f_dst mv) a), (Z.ltb_spec a (f_dst mv + f_len mv)); simpl; auto; lia.
Qed.

(** ** Reasoning on computations *)

(** With memory to allocate, [c] ends in the same way whatever the state of
    the allocator: in a value that satisfies [Q], or through [bail] and [B]. *)
Definition wp {A} (c : M A) (Q : A -> Prop) (B : Prop) : Prop :=
  exists o, (forall m, Mem.reliable m -> exists m', c m = Some (o, m') /\ Mem.reliable m') /\
    match o with Ret a => Q a | Bail => B end.

Lemma wp_ret {A} (a : A) (Q : A -> Prop) B : Q a -> wp (ret a) Q B.
Proof. intros H; exists (Ret a); split; eauto. Qed.

Lemma wp_bail {A} (Q : A -> Prop) (B : Prop) : B -> wp (@bail A) Q B.
Proof. intros H; exists Bail; split; eauto. Qed.

Lemma wp_lift {A} o (a : A) (Q : A -> Prop) B : o = Some a -> Q a -> wp (lift o) Q B.
Proof. intros -> H; exists (Ret a); split; eauto. Qed.

Lemma wp_mono {A} (c : M A) (Q Q' : A -> Prop) (B B' : Prop) :
  wp c Q B -> (forall a, Q a -> Q' a) -> (B -> B') -> wp c Q' B'.
Proof. intros (o & Hc & Ho) HQ HB; exists o; split; auto; destruct o; auto. Qed.

Lemma wp_post {A} (c : M A) (Q Q' : A -> Prop) B :
  wp c Q B -> (forall a, Q a -> Q' a) -> wp c Q' B.
Proof. intros H HQ; eapply wp_mono; eauto. Qed.

Lemma wp_bind {A X} (c : M A) (k : A -> M X) Q B :
  wp c (fun a => wp (k a) Q B) B -> wp (bind c k) Q B.
Proof.
  intros ([a|] & Hc & Ho).
  - destruct Ho as (o & Hk & Ho); exists o; split; auto; intros m Hm.
    destruct (Hc m Hm) as (m1 & E1 & Hm1); destruct (Hk m1 Hm1) as (m2 & E2 & Hm2).
    exists m2; unfold bind; rewrite E1; auto.
  - exists Bail; split; auto; intros m Hm.
    destruct (Hc m Hm) as (m1 & E1 & Hm1); exists m1; unfold bind; rewrite E1; auto.
Qed.

(** A computation bound to a continuation, by what is known of it. *)
Lemma wp_seq {A X} (c : M A) (k : A -> M X) R Q B :
  wp c R B -> (forall a, R a -> wp (k a) Q B) -> wp (bind c k) Q B.
Proof. intros Hc Hk; apply wp_bind; eapply wp_mono; eauto. Qed.

Lemma wp_run {A} (c : M A) Q B m : Mem.reliable m -> wp c Q B ->
  exists o m', c m = Some (o, m') /\ Mem.reliable m' /\ match o with Ret a => Q a | Bail => B end.
Proof. intros Hm (o & Hc & Ho); destruct (Hc m Hm) as (m' & ? & ?); eauto. Qed.

Lemma wp_new_movelist dst src len (Q : frag -> Prop) B :
  Q (Frag dst src len) -> wp (new_movelist dst src len) Q B.
Proof.
  intros H; exists (Ret (Frag dst src len)); split; auto.
  intros m Hm; unfold new_movelist; destruct (Mem.malloc m) as [ok m'] eqn:E.
  apply Mem.malloc_reliable in E as [-> Hm']; eauto.
Qed.

Lemma wp_dup_movelist l (Q : list frag -> Prop) B : Q l -> wp (dup_movelist l) Q B.
Proof.
  revert Q; induction l as [|[d x n] l IH]; intros Q HQ; simpl; [now apply wp_ret|].
  apply wp_bind, wp_new_movelist, wp_bind, IH, wp_ret, HQ.
Qed.

(** ** The memory map *)

(** A map without memory of last resort, the maps the shuffle works on. *)
Definition map_ok (l : list zone) : Prop :=
  wf l /\ forall a, 0 <= a < 4294967296 -> memmap_at l a <> SMT_TERMINAL.

Definition free_at (l : list zone) (a : Z) : Prop :=
  0 <= a < 4294967296 /\ memmap_at l a = SMT_FREE.

(** The addresses of a region. *)
Definition within (start len a : Z) : Prop := start <= a < start + len.

Lemma within_dec start len a : {within start len a} + {~ within start len a}.
Proof. unfold within; destruct (Z_le_dec start a), (Z_lt_dec a (start + len)); tauto || (right; tauto). Qed.

(** The map [l'] is [l] with the region given the type [type]. *)
Definition set_zone (l : list zone) (start len : Z) (type : smt) (l' : list zone) : Prop :=
  map_ok l' /\
  (forall a, 0 <= a < 4294967296 -> within start len a -> memmap_at l' a = type) /\
  (forall a, 0 <= a < 4294967296 -> ~ within start len a -> memmap_at l' a = memmap_at l a).

Lemma add_memmap_set l start len type :
  map_ok l -> 0 <= start -> 0 <= len -> start + len <= 4294967296 ->
  type <> SMT_END -> type <> SMT_TERMINAL ->
  exists l', set_zone l start len type l' /\
    forall m, Mem.reliable m -> exists m',
      syslinux_add_memmap l start len type m = Some (0, l', m') /\ Mem.reliable m'.
Proof.
  intros [Hwf Hl] Hs Hlen Hsum Ht Ht'.
  destruct (decide (len = 0)) as [->|Hne].
  { exists l; split; [|intros m Hm; unfold syslinux_add_memmap; simpl; eauto].
    unfold set_zone, within, map_ok; split; [split; auto|split; auto; lia]. }
  destruct (add_memmap_view l start len type Mem.always) as (l' & m' & E & Hwf' & Hv);
    auto; [lia|].
  exists l'; split; [|intros m Hm; exact (add_memmap_grant _ _ _ _ Mem.always m _ _ _ Mem.always_reliable Hm E)].
  assert (Hin : forall a, 0 <= a < 4294967296 -> within start len a -> memmap_at l' a = type)
    by (unfold within; intros a Ha Hi; rewrite Hv by auto; now zdec).
  assert (Hout : forall a, 0 <= a < 4294967296 -> ~ within start len a -> memmap_at l' a = memmap_at l a).
  { unfold within; intros a Ha Hi; rewrite Hv by auto.
    destruct (Z.leb_spec start a), (Z.ltb_spec a (start + len)); simpl; auto; lia. }
  split; [split; [apply Hwf'|]|split; auto].
  intros a Ha; destruct (within_dec start len a); [now rewrite Hin|rewrite Hout; auto].
Qed.

Lemma wp_add_freelist l start len type (Q : list zone -> Prop) B :
  map_ok l -> 0 <= start -> 0 <= len -> start + len <= 4294967296 ->
  type <> SMT_END -> type <> SMT_TERMINAL ->
  (forall l', set_zone l start len type l' -> Q l') ->
  wp (add_freelist l start len type) Q B.
Proof.
  intros Hl Hs Hlen Hsum Ht Ht' HQ.
  destruct (add_memmap_set l start len type) as (l' & Hl' & Hrun); auto.
  exists (Ret l'); split; auto; intros m Hm; destruct (Hrun m Hm) as (m' & E & Hm').
  exists m'; unfold add_freelist; now rewrite E.
Qed.

Lemma wp_allocate_from l start len (Q : list zone -> Prop) B :
  map_ok l -> 0 <= start -> 0 <= len -> start + len <= 4294967296 ->
  (forall l', set_zone l start len SMT_ALLOC l' -> Q l') ->
  wp (allocate_from l start len) Q B.
Proof.
  intros Hl Hs Hlen Hsum HQ.
  destruct (add_memmap_set l start len SMT_ALLOC) as (l' & Hl' & Hrun); auto; try discriminate.
  exists (Ret l'); split; auto; intros m Hm; destruct (Hrun m Hm) as (m' & E & Hm').
  exists m'; unfold allocate_from; now rewrite E.
Qed.

(** Giving a region away or taking it back, seen on the free memory. *)
Lemma free_at_set l start len type l' a :
  set_zone l start len type l' ->
  free_at l' a <->
  (if decide (type = SMT_FREE)
   then free_at l a \/ within start len a /\ 0 <= a < 4294967296
   else free_at l a /\ ~ within start len a).
Proof.
  intros (_ & Hin & Hout); unfold free_at.
  destruct (decide (0 <= a < 4294967296)) as [Ha|Ha]; [|destruct (decide _); tauto].
  destruct (within_dec start len a) as [Hw|Hw];
    rewrite ?(Hin a), ?(Hout a) by auto; destruct (decide _); subst; tauto.
Qed.

(** A non-empty zone of the given type inside a map: the region it covers. *)
Lemma zone_region s t l lo prev :
  wf_from lo prev (Zone s t :: l) -> t <> SMT_END -> 0 <= s ->
  exists nxt tl, l = nxt :: tl /\
    forall e, e = z_start nxt ⊟ 1 -> s <= e < 4294967296 /\
      (z_start nxt = e + 1 \/ z_start nxt = 0 /\ e = 4294967295) /\
      forall a, s <= a <= e -> look t l a = t.
Proof.
  intros H Ht Hs; inversion H as [|? ? ? ? ? ? ? ? Hw]; subst; [done|].
  destruct (head_zone _ _ _ Hw Hs) as (nxt & tl & e & -> & He & Hr & Hflat & Hcase).
  exists nxt, tl; split; auto; intros e' ->; rewrite He; split; [lia|split].
  - destruct Hcase as [[Hend ->]|(_ & -> & _)]; [right|auto].
    inversion Hw; subst; auto.
    apply bool_decide_eq_true in Hend; simpl in Hend; congruence.
  - intros a Ha; apply Hflat; lia.
Qed.

(** *** Searching the free list *)

(** The node of a free zone that holds the region from [start] to [last]. *)
Definition free_node (f : Z -> smt) (start last : Z) (il : list zone) : Prop :=
  exists s nxt rest e, il = Zone s SMT_FREE :: nxt :: rest /\ 0 <= s <= start /\
    last <= e < 4294967296 /\ (z_start nxt = e + 1 \/ z_start nxt = 0 /\ e = 4294967295) /\
    forall a, s <= a <= e -> f a = SMT_FREE.

Lemma is_free_loop_past l : forall s t lo prev start last,
  wf_from lo prev (Zone s t :: l) -> t <> SMT_END -> start < s ->
  is_free_loop start last None (Zone s t :: l) = Some None.
Proof.
  induction l as [|[s2 t2] l IH]; intros s t lo prev start last H Ht Hs;
    inversion H as [|? ? ? ? ? ? ? ? Hw]; subst; try done; [inversion Hw|].
  cbn [is_free_loop z_start z_type]; rewrite is_end_zone by auto; zdec.
  inversion Hw; subst; [reflexivity|eapply IH; eauto; lia].
Qed.

Lemma free_node_tail s2 t2 l t start last il :
  t2 <> SMT_END -> (forall s nxt rest, il = Zone s SMT_FREE :: nxt :: rest -> s2 <= s) ->
  free_node (look t2 l) start last il -> free_node (look t (Zone s2 t2 :: l)) start last il.
Proof.
  intros Ht Hge (s & nxt & rest & e & -> & Hs & He & Hn & Ha).
  exists s, nxt, rest, e; repeat split; auto; try lia.
  intros a Hr; pose proof (Hge s nxt rest eq_refl); rewrite look_step by (auto; lia); auto.
Qed.

(** What the scan answers from a zone that does not start after [start]. *)
Definition scan_post (f : Z -> smt) (lo start last : Z) (r : option (list zone)) : Prop :=
  match r with
  | Some il => free_node f start last il /\
               forall s nxt rest, il = Zone s SMT_FREE :: nxt :: rest -> lo <= s
  | None => exists a, start <= a <= last /\ f a <> SMT_FREE
  end.

Lemma scan_post_tail s s2 t2 l t start last r :
  s <= s2 <= start -> t2 <> SMT_END -> scan_post (look t2 l) s2 start last r ->
  scan_post (look t (Zone s2 t2 :: l)) s start last r.
Proof.
  intros Hs Ht; destruct r as [il|]; cbn [scan_post].
  - intros [Hn Hge]; split; [apply free_node_tail; auto|].
    intros x nxt rest E; apply Hge in E; lia.
  - intros (a & Ha & Hf); exists a; rewrite look_step by (auto; lia); auto.
Qed.
Lemma is_free_loop_spec l : forall s t lo prev start last,
  wf_from lo prev (Zone s t :: l) -> t <> SMT_END -> 0 <= s <= start ->
  start <= last < 4294967296 ->
  (forall a, s <= a < 4294967296 -> look t l a <> SMT_TERMINAL) ->
  exists r, is_free_loop start last None (Zone s t :: l) = Some r /\
    scan_post (look t l) s start last r.
Proof.
  induction l as [|[s2 t2] l IH]; intros s t lo prev start last H Ht Hs Hlast Hterm;
    inversion H as [|? ? ? ? ? ? ? ? Hw]; subst; try done; [inversion Hw|].
  destruct (zone_region s t _ _ _ H) as (nxt & tl & [= <- <-] & Hreg); auto; [lia|].
  destruct (Hreg _ eq_refl) as (He & Hn & Hflat); clear Hreg; cbn [z_start] in *.
  assert (Htt : t <> SMT_TERMINAL) by (rewrite <- (Hflat s) by lia; apply Hterm; lia).
  (* the rest of the scan, when the next zone does not start after [start] *)
  assert (Hrest : t2 <> SMT_END -> s2 <= start -> exists r,
    is_free_loop start last None (Zone s2 t2 :: l) = Some r /\
    scan_post (look t (Zone s2 t2 :: l)) s start last r).
  { intros Ht2 Hle; inversion Hw; subst; [done|].
    destruct (IH s2 t2 s t start last) as (r & Hr & Hp); auto; [lia| |].
    - intros a Ha; rewrite <- (look_step s2 t2 l t a) by (auto; lia); apply Hterm; lia.
    - exists r; split; auto; apply scan_post_tail with (s := s); auto; lia. }
  remember (Zone s2 t2 :: l) as tl eqn:Etl.
  cbn [is_free_loop z_start z_type]; rewrite is_end_zone by auto; subst tl.
  replace (s <=? start) with true by lia; cbn [z_start].
  replace (start <? s) with false by lia.
  unfold valid_terminal_type at 1; rewrite (bool_decide_eq_false_2 _ Htt), orb_false_r.
  case_bool_decide as Ef; [subst t|].
  - destruct (Z.leb_spec last (s2 ⊟ 1)).
    + eexists; split; [done|]; split; [|now intros ? ? ? [= ->]].
      exists s, (Zone s2 t2), l, (s2 ⊟ 1); repeat split; auto; lia.
    + assert (Hs2 : z_start (Zone s2 t2) = (s2 ⊟ 1) + 1) by (simpl; lia); simpl in Hs2.
      inversion Hw as [|? ? ? ? ? ? Hne Hne' Hw2]; subst; [change (0 ⊟ 1) with 4294967295 in *; lia|].
      assert (Hl2 : look SMT_FREE (Zone s2 t2 :: l) s2 = t2).
      { rewrite look_step by (auto; lia).
        destruct (zone_region s2 t2 l s SMT_FREE) as (? & ? & _ & Hr2); auto; [lia|].
        apply (Hr2 _ eq_refl); specialize (Hr2 _ eq_refl); lia. }
      assert (Ht2 : t2 <> SMT_TERMINAL) by (rewrite <- Hl2; apply Hterm; lia).
      cbn [is_free_loop z_type z_start]; unfold valid_terminal_type at 1.
      rewrite (bool_decide_eq_false_2 _ Ht2), (bool_decide_eq_false_2 _ Hne); cbn [orb].
      destruct (Z.ltb_spec start s2).
      * exists None; split; auto; exists s2; rewrite Hl2; split; [lia|auto].
      * destruct (Hrest Hne') as (r & Hr & Hp); [lia|]; exists r; split; auto.
        rewrite <- Hr; cbn [is_free_loop z_type z_start]; rewrite is_end_zone by auto.
        unfold valid_terminal_type; rewrite (bool_decide_eq_false_2 _ Ht2), (bool_decide_eq_false_2 _ Hne).
        simpl; now zdec.
  - destruct (decide (t2 = SMT_END)) as [->|Ht2].
    + inversion Hw; subst; [|done]; exists None; split; auto.
      exists start; rewrite Hflat by (change (0 ⊟ 1) with 4294967295; lia); split; [lia|auto].
    + inversion Hw; subst; [done|]; destruct (Z.le_gt_cases s2 start); [auto|].
      exists None; split; [eapply is_free_loop_past; eauto; lia|].
      exists start; rewrite Hflat by lia; split; [lia|auto].
Qed.

Lemma map_ok_head l :
  map_ok l -> exists t tl, l = Zone 0 t :: tl /\ t <> SMT_END /\
    wf_from (-1) SMT_END (Zone 0 t :: tl) /\ forall a, 0 <= a -> memmap_at l a = look t tl a.
Proof.
  intros [Hwf _]; destruct (wf_head l Hwf) as (t & tl & -> & Ht); destruct Hwf as [Hw _].
  exists t, tl; repeat split; auto; intros a Ha; now apply look_step.
Qed.

Lemma is_free_zone_spec l start len :
  map_ok l -> 0 <= start -> 0 < len -> start + len <= 4294967296 ->
  exists r, is_free_zone l start len = Some r /\
    match r with
    | Some il => free_node (memmap_at l) start (start + len - 1) il
    | None => exists a, within start len a /\ ~ free_at l a
    end.
Proof.
  intros Hok Hs Hlen Hsum; pose proof Hok as [_ Hterm].
  destruct (map_ok_head l Hok) as (t & tl & -> & Ht & Hw & Hv).
  unfold is_free_zone; rewrite u32_small by lia.
  destruct (is_free_loop_spec tl 0 t (-1) SMT_END start (start + len - 1)) as (r & -> & Hr); auto; try lia.
  { intros a Ha; rewrite <- Hv by lia; apply Hterm; lia. }
  exists r; split; auto; unfold free_at, within; destruct r as [il|].
  - destruct Hr as [(s & nxt & rest & e & -> & Hn & He & Hx & Ha) _].
    exists s, nxt, rest, e; repeat split; auto; try lia; intros a Hr; rewrite Hv by lia; auto.
  - destruct Hr as (a & Ha & Hf); exists a; rewrite Hv by lia; split; [lia|tauto].
Qed.

Lemma free_node_region l start len il a :
  0 <= start -> free_node (memmap_at l) start (start + len - 1) il -> within start len a -> free_at l a.
Proof.
  intros Hs (s & nxt & rest & e & _ & ? & ? & _ & Hf) Ha; unfold within, free_at in *.
  split; [lia|apply Hf; lia].
Qed.

(** A block of free memory at least as large as asked. *)
Definition block_ok (f : Z -> smt) (len : Z) (best : option Z) (n : Z) : Prop :=
  match best with
  | Some s => 0 <= s /\ len <= n /\ s + n <= 4294967296 /\ forall a, within s n a -> f a = SMT_FREE
  | None => True
  end.

Lemma free_area_loop_spec len f l : forall s t lo prev best n,
  wf_from lo prev (Zone s t :: l) -> t <> SMT_END -> 0 <= s -> 0 < len ->
  (forall a, s <= a -> f a = look t l a) -> block_ok f len best n ->
  exists best' n', free_area_loop len (Zone s t :: l) best n = Some (best', n') /\
    block_ok f len best' n'.
Proof.
  induction l as [|[s2 t2] l IH]; intros s t lo prev best n H Ht Hs Hlen Hf Hb;
    inversion H as [|? ? ? ? ? ? ? ? Hw]; subst; try done; [inversion Hw|].
  destruct (zone_region s t _ _ _ H) as (nxt & tl & [= <- <-] & Hreg); auto.
  destruct (Hreg _ eq_refl) as (He & Hn & Hflat); clear Hreg; cbn [z_start] in *.
  assert (Hrest : forall best n, block_ok f len best n -> exists best' n',
    free_area_loop len (Zone s2 t2 :: l) best n = Some (best', n') /\ block_ok f len best' n').
  { intros best' n' Hb'; destruct (decide (t2 = SMT_END)) as [->|Ht2].
    - simpl; eauto.
    - inversion Hw; subst; [done|]; eapply IH; eauto; [lia|].
      intros a Ha; rewrite Hf, look_step by (auto; lia); auto. }
  remember (Zone s2 t2 :: l) as tl eqn:Etl.
  cbn [free_area_loop z_start z_type]; rewrite is_end_zone by auto; subst tl; cbn [z_start].
  case_bool_decide as Ef; [auto|].
  destruct (_ && _) eqn:E; [|auto].
  apply Hrest; simpl; apply andb_true_iff in E as [E _]; apply Z.leb_le in E.
  assert (s2 ⊟ s = (s2 ⊟ 1) + 1 - s) as Esz by ulia.
  rewrite Esz in *; repeat split; auto; try lia.
  intros a Ha; unfold within in Ha; rewrite Hf, Hflat by lia.
  destruct (decide (t = SMT_FREE)); tauto.
Qed.

Lemma free_area_spec l len :
  map_ok l -> 0 < len ->
  exists n start, free_area l len = Some (n, start) /\
    match start with
    | Some s => 0 <= s /\ len <= n /\ s + n <= 4294967296 /\ forall a, within s n a -> free_at l a
    | None => n = 0
    end.
Proof.
  intros Hok Hlen; destruct (map_ok_head l Hok) as (t & tl & -> & Ht & Hw & Hv).
  unfold free_area.
  destruct (free_area_loop_spec len (memmap_at (Zone 0 t :: tl)) tl 0 t (-1) SMT_END None (u32 (-1)))
    as (best & n & -> & Hb); simpl; auto; [lia|].
  destruct best as [s|]; [|exists 0, None; auto].
  destruct Hb as (? & ? & ? & Hf); exists n, (Some s); repeat split; auto;
    unfold free_at, within in *; intros; (lia || auto).
Qed.

Lemma largest_loop_spec f l : forall s t lo prev best n,
  wf_from lo prev (Zone s t :: l) -> t <> SMT_END -> 0 <= s ->
  (forall a, s <= a -> f a = look t l a) -> 0 <= n -> block_ok f 1 best n ->
  (best = None -> n = 0 /\ forall a, 0 <= a < s -> f a <> SMT_FREE) ->
  (exists b, 0 <= b < 4294967296 /\ f b <> SMT_FREE) ->
  exists best' n', largest_loop SMT_FREE (Zone s t :: l) best n = Some (best', n') /\
    block_ok f 1 best' n' /\
    (best' = None -> forall a, 0 <= a < 4294967296 -> f a <> SMT_FREE).
Proof.
  induction l as [|[s2 t2] l IH]; intros s t lo prev best n H Ht Hs Hf Hn0 Hb Hnone Hex;
    inversion H as [|? ? ? ? ? ? ? ? Hw]; subst; try done; [inversion Hw|].
  destruct (zone_region s t _ _ _ H) as (nxt & tl & [= <- <-] & Hreg); auto.
  destruct (Hreg _ eq_refl) as (He & Hn & Hflat); clear Hreg; cbn [z_start] in *.
  assert (Hrest : forall best n, 0 <= n -> block_ok f 1 best n ->
    (best = None -> n = 0 /\ forall a, 0 <= a <= s2 ⊟ 1 -> f a <> SMT_FREE) -> exists best' n',
    largest_loop SMT_FREE (Zone s2 t2 :: l) best n = Some (best', n') /\ block_ok f 1 best' n' /\
    (best' = None -> forall a, 0 <= a < 4294967296 -> f a <> SMT_FREE)).
  { intros best' n' Hn' Hb' Hnone'; destruct (decide (t2 = SMT_END)) as [->|Ht2].
    - inversion Hw; subst; [|done]; exists best', n'; repeat split; auto.
      intros Ebest a Ha; apply Hnone'; auto; change (0 ⊟ 1) with 4294967295; lia.
    - inversion Hw; subst; [done|]; eapply IH; eauto; [lia| |].
      + intros a Ha; rewrite Hf, look_step by (auto; lia); auto.
      + intros Ebest; split; [now apply Hnone'|intros; apply Hnone'; auto; lia]. }
  remember (Zone s2 t2 :: l) as tl eqn:Etl.
  cbn [largest_loop z_start z_type]; rewrite is_end_zone by auto; subst tl; cbn [z_start].
  destruct (bool_decide (t = SMT_FREE)) eqn:Ef; [apply bool_decide_eq_true in Ef; subst t|]; simpl.
  - destruct (Z.ltb_spec n (s2 ⊟ s)).
    + assert (Esz : s2 ⊟ s = (s2 ⊟ 1) + 1 - s) by ulia; rewrite Esz in *.
      apply Hrest; [lia| |discriminate]; repeat split; auto; try lia.
      intros a Ha; unfold within in Ha; rewrite Hf, Hflat by lia; auto.
    + destruct best as [b|]; [apply Hrest; auto; discriminate|exfalso].
      destruct (Hnone eq_refl) as [-> Hlow], Hex as (b & Hbr & Hbf); apply Hbf.
      rewrite Hf, Hflat; auto; ulia.
  - apply bool_decide_eq_false in Ef; apply Hrest; auto; intros Ebest.
    destruct (Hnone Ebest) as [-> Hlow]; split; auto; intros a Ha.
    destruct (Z.lt_ge_cases a s); [apply Hlow; lia|rewrite Hf, Hflat by lia; auto].
Qed.

Lemma memmap_largest_spec l :
  map_ok l -> (exists b, 0 <= b < 4294967296 /\ ~ free_at l b) ->
  exists r, syslinux_memmap_largest l SMT_FREE = Some r /\
    match r with
    | inr (s, n) => 0 <= s /\ 0 < n /\ s + n <= 4294967296 /\ forall a, within s n a -> free_at l a
    | inl _ => forall a, ~ free_at l a
    end.
Proof.
  intros Hok Hex; destruct (map_ok_head l Hok) as (t & tl & -> & Ht & Hw & Hv).
  unfold syslinux_memmap_largest.
  destruct (largest_loop_spec (memmap_at (Zone 0 t :: tl)) tl 0 t (-1) SMT_END None 0)
    as (best & n & -> & Hb & Hnone); simpl; auto; try lia.
  { intros _; split; [auto|intros; lia]. }
  { destruct Hex as (b & Hbr & Hbf); exists b; split; auto; intros E; apply Hbf; split; auto. }
  destruct best as [s|]; eexists; (split; [reflexivity|]); simpl.
  - destruct Hb as (? & ? & ? & Hf); repeat split; auto; try lia;
      unfold free_at, within in *; try lia; intros; auto.
  - intros a [Ha Hf]; exact (Hnone eq_refl a Ha Hf).
Qed.

(** ** Chunks *)

Ltac frags_lia :=
  unfold frag_ok, within in *; cbn [f_dst f_src f_len needbase needlen reverse cbyte] in *;
  first [lia | ulia].

Lemma need_spec f :
  frag_ok f -> f_src f <> f_dst f ->
  let n := need_of f in
  0 < needlen n <= f_len f /\ f_dst f <= needbase n /\
  needbase n + needlen n <= f_dst f + f_len f /\
  cbyte n = (if reverse n then needbase n + needlen n - 1 else needbase n) /\
  (if reverse n
   then needbase n + needlen n = f_dst f + f_len f /\ needlen n = f_dst f - f_src f /\ f_src f < f_dst f
   else needbase n = f_dst f) /\
  forall a, within (needbase n) (needlen n) a <->
    within (f_dst f) (f_len f) a /\ ~ within (f_src f) (f_len f) a.
Proof.
  destruct f as [d x n]; intros Hf Hne; unfold need_of; cbn [f_dst f_src f_len] in *.
  repeat split_if; bools; frags_lia || (repeat split; try frags_lia; intros; frags_lia).
Qed.

Lemma freed_by_spec f :
  frag_ok f -> f_src f <> f_dst f ->
  exists b n, freed_by f = (b, n) /\ 0 <= b /\ 0 < n /\ b + n <= 4294967296 /\
    forall a, within b n a <-> within (f_src f) (f_len f) a /\ ~ within (f_dst f) (f_len f) a.
Proof.
  destruct f as [d x n]; intros Hf Hne; unfold freed_by; cbn [f_dst f_src f_len] in *.
  split_ifs; bools; eexists _, _; (split; [reflexivity|]); repeat split; try frags_lia; intros; frags_lia.
Qed.

(** The part of [f] that [move_chunk] moves when [copylen] bytes are claimed,
    and where the claimed bytes begin. *)
Definition chunk (f : frag) (copylen : Z) : frag :=
  let n := need_of f in
  if copylen <? needlen n then
    if reverse n
    then Frag (f_dst f + (f_len f - copylen)) (f_src f + (f_len f - copylen)) copylen
    else Frag (f_dst f) (f_src f) copylen
  else f.

Definition claim_base (n : need) (copylen : Z) : Z :=
  if reverse n then needbase n + needlen n - copylen else needbase n.

Lemma chunk_spec f copylen :
  frag_ok f -> f_src f <> f_dst f -> 0 < copylen <= needlen (need_of f) ->
  let c := chunk f copylen in
  frag_ok c /\ f_src c <> f_dst c /\
  (forall a, within (f_dst c) (f_len c) a ->
     within (claim_base (need_of f) copylen) copylen a \/ within (f_src c) (f_len c) a) /\
  forall a, within (f_src c) (f_len c) a -> within (f_src f) (f_len f) a.
Proof.
  intros Hf Hne Hc; destruct (need_spec f Hf Hne) as (Hl & Hb & Hs & Hcb & Hr & Hw).
  unfold chunk, claim_base; destruct (Z.ltb_spec copylen (needlen (need_of f))).
  - destruct (reverse (need_of f)); cbn [f_dst f_src f_len];
      (split; [|split; [lia|split; [intros a Ha; left|intros a Ha]]]); frags_lia.
  - replace copylen with (needlen (need_of f)) by lia; split; [auto|split; [auto|split; [|auto]]].
    intros a Ha; specialize (Hw a); destruct (within_dec (f_src f) (f_len f) a); [auto|left].
    destruct (reverse (need_of f)); unfold within in *; lia.
Qed.

Lemma claim_in_chunk f copylen a :
  frag_ok f -> f_src f <> f_dst f -> 0 < copylen <= needlen (need_of f) ->
  within (claim_base (need_of f) copylen) copylen a ->
  within (f_dst (chunk f copylen)) (f_len (chunk f copylen)) a.
Proof.
  intros Hf Hne Hc; destruct (need_spec f Hf Hne) as (Hl & Hb & Hs & Hcb & Hr & Hw).
  unfold chunk, claim_base; destruct (Z.ltb_spec copylen (needlen (need_of f)));
    destruct (reverse (need_of f)); cbn [f_dst f_src f_len]; unfold within; lia.
Qed.

(** Splitting a fragment keeps the bytes of the list, in order. *)
Lemma wp_split_movelist start len ml next B :
  frag_ok ml -> f_src ml <= start -> 0 < len -> start + len <= f_src ml + f_len ml ->
  Forall frag_ok next ->
  wp (split_movelist start len ml next)
    (fun '(before, c, after) =>
       c = Frag (f_dst ml + (start - f_src ml)) start len /\
       bytes (before ++ c :: after) = bytes (ml :: next) /\
       Forall frag_ok (before ++ after)) B.
Proof.
  destruct ml as [d x n]; cbn [f_dst f_src f_len]; intros Hok H1 H2 H3 Hnext.
  unfold split_movelist; cbn [f_dst f_src f_len]; apply wp_bind.
  assert (Hw : forall d' x' n' before, 0 <= d' -> 0 <= x' -> len <= n' ->
    d' + n' <= 4294967296 -> x' + n' <= 4294967296 -> Forall frag_ok before ->
    bytes before ++ pairs (Frag d' x' n') = pairs (Frag d x n) -> x' = start -> d' = d + (start - x) ->
    wp (if len <? n'
        then let! m := new_movelist (d' ⊞ len) (x' ⊞ len) (n' ⊟ len) in
             ret (before, Frag d' x' len, m :: next)
        else ret (before, Frag d' x' n', next))
      (fun '(before, c, after) => c = Frag (d + (start - x)) start len /\
         bytes (before ++ c :: after) = bytes (Frag d x n :: next) /\ Forall frag_ok (before ++ after)) B).
  { intros d' x' n' before ????? Hbefore Hb -> ->; destruct (Z.ltb_spec len n').
    - apply wp_bind, wp_new_movelist, wp_ret; split; [done|split].
      + rewrite bytes_app, !bytes_cons, <- Hb, (pairs_split _ _ n' len), !u32_small by lia.
        now rewrite !app_assoc.
      + rewrite Forall_app, Forall_cons; repeat split; auto; rewrite ?u32_small by lia; frags_lia.
    - replace n' with len in * by lia; apply wp_ret; split; [done|split].
      + now rewrite bytes_app, !bytes_cons, <- Hb, app_assoc.
      + now rewrite Forall_app. }
  destruct (Z.ltb_spec x start).
  - apply wp_bind, wp_new_movelist, wp_ret; cbv zeta beta iota; cbn [f_dst f_src f_len].
    rewrite (u32_small (start - x)), (u32_small (d + _)), (u32_small (n - _)) by frags_lia.
    apply Hw; try frags_lia; [repeat constructor; frags_lia|].
    rewrite (pairs_split d x n (start - x)) by frags_lia; cbn [bytes flat_map]; rewrite app_nil_r.
    now replace (x + (start - x)) with start by lia.
  - apply wp_ret; cbv zeta beta iota; cbn [f_dst f_src f_len].
    apply Hw; try frags_lia; auto; constructor.
Qed.

Lemma wp_move_chunk mmap f next copylen B :
  map_ok mmap -> Forall frag_ok (f :: next) -> f_src f <> f_dst f ->
  0 < copylen <= needlen (need_of f) ->
  wp (move_chunk mmap f next copylen)
    (fun '(mv, mmap', rest) =>
       mv = chunk f copylen /\ bytes (f :: next) ≡ₚ pairs mv ++ bytes rest /\
       Forall frag_ok rest /\ map_ok mmap' /\
       forall a, free_at mmap' a <->
         free_at mmap a \/ within (f_src mv) (f_len mv) a /\ ~ within (f_dst mv) (f_len mv) a) B.
Proof.
  intros Hmap Hok Hne Hc; apply Forall_cons in Hok as [Hf Hnext].
  destruct (need_spec f Hf Hne) as (Hl & _ & _ & _ & Hr & _).
  destruct (chunk_spec f copylen Hf Hne Hc) as (Hcok & Hcne & _ & _).
  unfold move_chunk; apply wp_seq with (R := fun '(before, c, after) =>
    c = chunk f copylen /\ bytes (before ++ c :: after) = bytes (f :: next) /\
    Forall frag_ok (before ++ after)).
  - unfold chunk in *; destruct (Z.ltb_spec copylen (needlen (need_of f))); [|now apply wp_ret].
    eapply wp_post; [apply wp_split_movelist; auto|].
    + destruct (reverse (need_of f)); frags_lia.
    + lia.
    + destruct (reverse (need_of f)); frags_lia.
    + intros [[before c] after] (-> & Hb & Hok); repeat split; auto.
      destruct (reverse (need_of f)); f_equal; frags_lia.
  - intros [[before c] after] (-> & Hb & Hok); apply wp_bind, wp_new_movelist.
    destruct (freed_by_spec _ Hcok Hcne) as (fb & fl & -> & ? & ? & ? & Hfree).
    apply wp_bind, wp_add_freelist; auto; try lia; try discriminate.
    intros mmap' Hset; apply wp_ret; split; [now destruct (chunk f copylen)|].
    split; [rewrite <- Hb, bytes_mid; now destruct (chunk f copylen)|].
    split; [auto|]; split; [apply Hset|]; intros a.
    rewrite (free_at_set _ _ _ _ _ _ Hset), decide_True, Hfree by auto; cbn [f_src f_dst f_len].
    unfold frag_ok, within in *; split; [tauto|]; intros [?|?]; [tauto|right; split; [auto|lia]].
Qed.

(** ** Each operation is a step of the abstract machine *)

Definition nothing (a : Z) : Prop := False.

Definition state_ok (s : state) : Prop := map_ok (mmap s) /\ Forall frag_ok (frags s).

(** The world a state stands for, with [claimed] for the memory in between. *)
Definition world_of {A} (mem0 : Z -> A) (s : state) (claimed : Z -> Prop) : world :=
  World (bytes (frags s)) (free_at (mmap s)) claimed (run_moves (moves s) mem0).

Lemma wp_claim l lo n B :
  map_ok l -> 0 <= lo -> 0 <= n -> lo + n <= 4294967296 ->
  (forall a, within lo n a -> free_at l a) ->
  wp (allocate_from l lo n) (fun l' => map_ok l' /\
    forall A P L L' (mem : Z -> A), (forall a, L' a <-> L a \/ within lo n a) ->
      Relocation.step (World P (free_at l) L mem) (World P (free_at l') L' mem)) B.
Proof.
  intros Hl Hlo Hn Hsum Hfree; apply wp_allocate_from; auto.
  intros l' Hset; split; [apply Hset|]; intros A P L L' mem HL.
  assert (Hf : forall a, free_at l' a <-> free_at l a /\ ~ within lo n a)
    by (intros a; now rewrite (free_at_set _ _ _ _ _ a Hset), decide_False by discriminate).
  apply step_claim with (X := within lo n); auto; intros a; rewrite Hf; [|tauto].
  destruct (within_dec lo n a); split; auto; intros [[? ?]|?]; auto.
Qed.

Lemma wp_release l lo n B :
  map_ok l -> 0 <= lo -> 0 <= n -> lo + n <= 4294967296 ->
  wp (add_freelist l lo n SMT_FREE) (fun l' => map_ok l' /\
    forall A P L L' (mem : Z -> A), (forall a, L a <-> L' a \/ within lo n a) ->
      (forall a, L' a -> ~ within lo n a) ->
      Relocation.step (World P (free_at l) L mem) (World P (free_at l') L' mem)) B.
Proof.
  intros Hl Hlo Hn Hsum; apply wp_add_freelist; auto; try discriminate.
  intros l' Hset; split; [apply Hset|]; intros A P L L' mem HL HL'.
  apply step_release with (X := within lo n); auto; intros a.
  rewrite (free_at_set _ _ _ _ _ a Hset), decide_True by auto.
  unfold within; split; intros [?|?]; auto; [tauto|right; lia].
Qed.

Lemma wp_emit_chunk {A} (mem0 : Z -> A) mvs mm before f next copylen B :
  map_ok mm -> Forall frag_ok (before ++ f :: next) -> f_src f <> f_dst f ->
  0 < copylen <= needlen (need_of f) ->
  wp (emit_chunk mvs mm before f next copylen) (fun s' =>
    state_ok s' /\ (length (bytes (frags s')) < length (bytes (before ++ f :: next)))%nat /\
    (exists a, free_at (mmap s') a) /\ moves s' = mvs ++ [chunk f copylen] /\
    Relocation.step
      (World (bytes (before ++ f :: next)) (free_at mm)
         (within (claim_base (need_of f) copylen) copylen) (run_moves mvs mem0))
      (world_of mem0 s' nothing)) B.
Proof.
  intros Hmap Hok Hne Hc; apply Forall_app in Hok as [Hbefore Hok].
  assert (Hf : frag_ok f) by (inversion Hok; auto).
  destruct (chunk_spec f copylen Hf Hne Hc) as (Hcok & Hcne & Hcover & _).
  unfold emit_chunk; eapply wp_seq; [now apply wp_move_chunk|].
  intros [[mv mm'] rest] (-> & Hb & Hrest & Hmap' & Hfree); apply wp_ret.
  assert (Hperm : bytes (before ++ f :: next) ≡ₚ pairs (chunk f copylen) ++ bytes (before ++ rest))
    by (rewrite !bytes_app, Hb; solve_Permutation).
  split; [split; [auto|now apply Forall_app]|]; cbn [frags mmap moves].
  split; [|split; [|split; [auto|]]].
  - rewrite Hperm, length_app, length_pairs; frags_lia.
  - exists (if f_src (chunk f copylen) <? f_dst (chunk f copylen) then f_src (chunk f copylen)
            else f_src (chunk f copylen) + f_len (chunk f copylen) - 1).
    apply Hfree; right; split_if; bools; frags_lia.
  - unfold world_of; cbn [frags mmap moves]; rewrite run_moves_app.
    apply step_place with (C := pairs (chunk f copylen)); auto using apply_move_copied.
    + intros d; rewrite elem_dsts, elem_srcs; intros Hd; now apply Hcover in Hd.
    + intros a; rewrite elem_dsts, elem_srcs; apply Hfree.
    + intros a; rewrite elem_dsts; split; [done|]; intros [Ha Hn]; apply Hn.
      now apply claim_in_chunk.
Qed.

(** *** Evictions *)

(** A plan that moves a piece of the occupant [o], critical byte included, to
    free memory. *)
Definition plan_ok (mm : list zone) (n : need) (o : frag) (plan : Z * Z * Z) : Prop :=
  let '(copydst, copysrc, copylen) := plan in
  0 <= copydst /\ copydst + copylen <= 4294967296 /\
  (forall a, within copydst copylen a -> free_at mm a) /\
  f_src o <= copysrc /\ copysrc + copylen <= f_src o + f_len o /\
  within copysrc copylen (cbyte n).

Lemma evict_plan_spec mm n o :
  map_ok mm -> frag_ok o -> within (f_src o) (f_len o) (cbyte n) ->
  0 <= needbase n -> within (needbase n) (needlen n) (cbyte n) ->
  needbase n + needlen n <= 4294967296 ->
  cbyte n = (if reverse n then needbase n + needlen n - 1 else needbase n) ->
  (exists b, 0 <= b < 4294967296 /\ ~ free_at mm b) ->
  exists r, evict_plan mm n o = Some r /\
    match r with
    | inl _ => forall a, ~ free_at mm a
    | inr plan => aligned n plan = true -> plan_ok mm n o plan
    end.
Proof.
  intros Hmm Ho Hcb Hnb Hnc Hne Hcbn Hex; unfold evict_plan.
  assert (Ho' := Ho); destruct Ho' as (? & ? & ? & ? & ?).
  destruct (is_free_zone_spec mm (f_dst o) (f_len o)) as (r & -> & Hr); auto; try lia.
  destruct r as [il|].
  { eexists; split; [done|]; intros _; repeat apply conj; try (unfold within in *; lia).
    intros a; eapply free_node_region; eauto. }
  destruct (free_area_spec mm (f_len o)) as (w & fs & -> & Hfs); auto; try lia.
  destruct fs as [fs|].
  { destruct Hfs as (Hs & Hw & Hsum & Hfree); rewrite (proj2 (Z.eqb_neq w 0)) by lia.
    eexists; split; [done|]; intros _; repeat apply conj; try (unfold within in *; lia).
    intros a Ha; apply Hfree; unfold within in *; lia. }
  subst w; simpl; destruct (memmap_largest_spec mm Hmm Hex) as (r & -> & Hlarge).
  destruct r as [u|[fs fl]]; [eauto|]; destruct Hlarge as (Hs & Hl & Hsum & Hfree).
  assert (Hin : forall k, k <= fl -> forall a, within fs k a -> free_at mm a)
    by (intros k Hk a Ha; apply Hfree; unfold within in *; lia).
  unfold within in Hcb, Hnc; destruct (reverse n); (eexists; split; [reflexivity|]);
    unfold aligned, plan_ok; rewrite Hcbn in *; cbn [andb].
  - assert (Hfl : fl < 4294967296)
      by (destruct Hex as (b & Hb & Hbf); destruct (Z.lt_ge_cases fl 4294967296); auto;
          destruct Hbf; apply Hfree; unfold within; lia).
    intros Hal; assert (Hnw : fl <= needbase n + needlen n).
    { destruct (Z.le_gt_cases fl (needbase n + needlen n)); auto; exfalso; bools; ulia. }
    rewrite (u32_small (_ - fl)), u32_small by ulia.
    repeat apply conj; try (unfold within; lia); apply Hin; lia.
  - intros _; rewrite (u32_small (_ - f_src o)), u32_small by lia; repeat apply conj; try (unfold within; lia); apply Hin; lia.
Qed.

Lemma steps_one {A} (w w' : world (A := A)) : Relocation.step w w' -> steps w w'.
Proof. apply rtc_once. Qed.

Lemma wp_free_surplus mm n copysrc copylen B :
  map_ok mm -> 0 <= copysrc -> copysrc + copylen <= 4294967296 -> 0 < copylen < 4294967296 ->
  0 <= needbase n -> 0 < needlen n -> needbase n + needlen n <= 4294967296 ->
  within copysrc copylen (cbyte n) ->
  cbyte n = (if reverse n then needbase n + needlen n - 1 else needbase n) ->
  (copysrc =? needbase n) || reverse n && (copysrc + copylen =? needbase n + needlen n) = true ->
  wp (free_surplus mm n copysrc copylen) (fun '(mm', copylen') =>
    map_ok mm' /\ 0 < copylen' <= needlen n /\
    forall A P (mem : Z -> A), steps
      (World P (free_at mm) (within copysrc copylen) mem)
      (World P (free_at mm') (within (claim_base n copylen') copylen') mem)) B.
Proof.
  intros Hmm Hs Hsum Hlen Hnb Hnl Hnsum Hcb Hcbn Hal; unfold free_surplus, claim_base, within in *.
  destruct (Z.ltb_spec (needlen n) copylen).
  - apply wp_bind; destruct (Z.ltb_spec copysrc (needbase n)).
    + (* the evicted memory ends where the need ends *)
      assert (Hr : reverse n = true /\ copysrc + copylen = needbase n + needlen n)
        by (bools; auto; lia).
      destruct Hr as [Hr He]; rewrite Hr in *; rewrite !(u32_small (needbase n - copysrc)) by lia.
      apply wp_bind; eapply wp_post; [apply wp_release; auto; lia|].
      intros mm' [Hmm' Hstep]; apply wp_ret; rewrite u32_small by lia.
      rewrite (proj2 (Z.ltb_ge _ _)) by lia; apply wp_ret; split; [auto|split; [lia|]].
      intros A P mem; apply steps_one, Hstep; intros a; unfold within; lia.
    + apply wp_ret; assert (copysrc = needbase n) as -> by (bools; lia).
      rewrite (proj2 (Z.ltb_lt _ _)), !u32_small by lia.
      apply wp_bind; eapply wp_post; [apply wp_release; auto; lia|].
      intros mm' [Hmm' Hstep]; apply wp_ret; split; [auto|split; [lia|]].
      intros A P mem; apply steps_one, Hstep; intros a; destruct (reverse n); unfold within; lia.
  - apply wp_ret; split; [auto|split; [lia|]]; intros A P mem.
    replace (if reverse n then _ else _) with copysrc; [reflexivity|].
    destruct (reverse n); bools; try lia; discriminate.
Qed.

(** The bytes of a fragment, moved from [x] on to [y] on. *)
Definition relocated (d x y n : Z) : list (Z * Z * Z) :=
  (fun i => (d + i, x + i, y + i)) <$> seqZ 0 n.

Lemma relocated_spec d x y n :
  map old (relocated d x y n) = pairs (Frag d x n) /\
  map new (relocated d x y n) = pairs (Frag d y n) /\
  map transfer (relocated d x y n) = pairs (Frag y x n).
Proof.
  unfold relocated, pairs; cbn [f_dst f_src f_len].
  change (@map (Z * Z * Z) (Z * Z)) with (@fmap list _ (Z * Z * Z) (Z * Z)).
  rewrite <- !list_fmap_compose; auto.
Qed.

Lemma nodup_srcs f : NoDup (pairs f).*2.
Proof.
  unfold pairs; rewrite <- list_fmap_compose; apply NoDup_fmap_2; [intros ???; simpl in *; lia|].
  apply NoDup_seqZ.
Qed.

Lemma wp_evict mm n o after plan B :
  map_ok mm -> Forall frag_ok (o :: after) -> plan_ok mm n o plan -> aligned n plan = true ->
  0 <= needbase n -> 0 < needlen n -> needbase n + needlen n <= 4294967296 ->
  cbyte n = (if reverse n then needbase n + needlen n - 1 else needbase n) ->
  wp (evict mm n o after plan) (fun '(mv, after', mm', copylen) =>
    map_ok mm' /\ Forall frag_ok after' /\ 0 < copylen <= needlen n /\
    length (bytes after') = length (bytes (o :: after)) /\
    frag_ok mv /\ (forall a, within (f_src mv) (f_len mv) a -> within (f_src o) (f_len o) a) /\
    forall A P P' R (mem : Z -> A), P ≡ₚ bytes (o :: after) ++ R -> P' ≡ₚ bytes after' ++ R ->
      steps (World P (free_at mm) nothing mem)
            (World P' (free_at mm') (within (claim_base n copylen) copylen) (apply_move mem mv))) B.
Proof.
  destruct plan as [[copydst copysrc] copylen].
  intros Hmm Hok (Hd0 & Hdsum & Hdfree & Hs0 & Hssum & Hcb) Hal Hnb Hnl Hnsum Hcbn.
  apply Forall_cons in Hok as [Ho Hafter]; assert (Ho' := Ho); destruct Ho' as (? & ? & ? & ? & ?).
  assert (0 < copylen) by (unfold within in Hcb; lia).
  unfold evict; eapply wp_seq; [apply wp_claim; auto; lia|].
  intros mm1 [Hmm1 Hclaim].
  eapply wp_seq with (R := fun '(before, c, rest) =>
    c = Frag (f_dst o + (copysrc - f_src o)) copysrc copylen /\
    bytes (before ++ c :: rest) = bytes (o :: after) /\ Forall frag_ok (before ++ rest)).
  { destruct (Z.ltb_spec copylen (f_len o)); [apply wp_split_movelist; auto; lia|].
    apply wp_ret; replace copylen with (f_len o) by lia; replace copysrc with (f_src o) by lia.
    destruct o as [d x k]; cbn [f_dst f_src f_len]; rewrite Z.sub_diag, Z.add_0_r; auto. }
  intros [[before c] rest] (-> & Hb & Hrest); apply wp_bind, wp_new_movelist; cbn [f_dst f_len].
  set (d := f_dst o + (copysrc - f_src o)) in *.
  eapply wp_seq; [apply wp_free_surplus; auto; lia|].
  intros [mm2 copylen'] (Hmm2 & Hlen' & Hsurplus); apply wp_ret.
  destruct (relocated_spec d copysrc copydst copylen) as (Hold & Hnew & Htr).
  set (T := relocated _ _ _ _) in *.
  split; [auto|split; [|split; [auto|split; [|split; [|split]]]]].
  - apply Forall_app in Hrest as [? ?]; rewrite Forall_app, Forall_cons; repeat split; auto; frags_lia.
  - rewrite <- Hb, !bytes_app, !bytes_cons, !length_app, !length_pairs; reflexivity.
  - frags_lia.
  - intros a; cbn [f_src f_len]; unfold within; lia.
  - intros A P P' R mem HP HP'; rewrite <- Hb in HP; rewrite bytes_mid in HP, HP'.
    eapply rtc_l; [apply (Hclaim _ _ _ (within copydst copylen)); unfold nothing; tauto|].
    eapply rtc_l; [|apply Hsurplus].
    apply step_relocate with (T := T) (R := bytes (before ++ rest) ++ R);
      rewrite ?Hold, ?Hnew, ?Htr; auto using apply_move_copied.
    + now rewrite app_assoc.
    + now rewrite app_assoc.
    + apply nodup_srcs.
    + intros a; rewrite elem_srcs; auto.
    + intros a; rewrite !elem_srcs; cbn [f_src f_len]; unfold within; tauto.
Qed.

(** *** The main loop *)

Lemma find_direct_spec mm l :
  map_ok mm -> Forall frag_ok l -> Forall (fun f => f_src f <> f_dst f) l ->
  exists r, find_direct mm l = Some r /\
    match r with
    | Some (before, o, after) => l = before ++ o :: after /\
        forall a, within (needbase (need_of o)) (needlen (need_of o)) a -> free_at mm a
    | None => True
    end.
Proof.
  intros Hmm; induction l as [|o l IH]; intros Hok Hne; simpl; [exists None; auto|].
  apply Forall_cons in Hok as [Ho Hok], Hne as [Hn Hne].
  destruct (need_spec o Ho Hn) as (Hl & Hb & Hs & _).
  destruct (is_free_zone_spec mm (needbase (need_of o)) (needlen (need_of o))) as (r & -> & Hr);
    auto; try (unfold frag_ok in Ho; lia).
  destruct r as [il|].
  - eexists; split; [done|]; split; [done|]; intros a; eapply free_node_region; eauto.
    unfold frag_ok in Ho; lia.
  - destruct (IH Hok Hne) as (r & -> & Hr'); eexists; split; [done|].
    destruct r as [[[before f] after]|]; simpl; auto.
    destruct Hr' as [-> ?]; auto.
Qed.

Lemma find_occupant_spec cb l :
  Forall frag_ok l -> 0 <= cb ->
  match find_occupant cb l with
  | Some (before, o, after) => l = before ++ o :: after /\ within (f_src o) (f_len o) cb
  | None => forall o, o ∈ l -> f_src o + f_len o < 4294967296 -> ~ within (f_src o) (f_len o) cb
  end.
Proof.
  intros Hok Hcb; induction l as [|o l IH]; simpl; [inversion 1|].
  apply Forall_cons in Hok as [Ho Hok]; specialize (IH Hok).
  destruct (_ && _) eqn:E.
  - split; auto; bools; unfold frag_ok, within in *; ulia.
  - destruct (find_occupant cb l) as [[[before f] after]|]; simpl.
    + destruct IH as [-> ?]; auto.
    + intros o' Ho' Hlt; apply elem_of_cons in Ho' as [->|Ho']; [|auto].
      rewrite u32_small in E by (unfold frag_ok in Ho; lia).
      unfold within; bools; lia.
Qed.

Lemma available_spec mm n :
  map_ok mm -> 0 <= needbase n -> 0 < needlen n -> needbase n + needlen n <= 4294967296 ->
  cbyte n = (if reverse n then needbase n + needlen n - 1 else needbase n) ->
  (exists b, 0 <= b < 4294967296 /\ ~ free_at mm b) ->
  exists av, available mm n = Some av /\ (av = 0 -> ~ free_at mm (cbyte n)) /\
    (av <> 0 -> 0 < Z.min (needlen n) av /\
       forall a, within (claim_base n (Z.min (needlen n) av)) (Z.min (needlen n) av) a -> free_at mm a).
Proof.
  intros Hmm Hb Hl Hs Hcb (b & Hb0 & Hbf); unfold available, claim_base.
  destruct (is_free_zone_spec mm (cbyte n) 1) as (r & -> & Hr); auto; try (destruct (reverse n); lia).
  destruct r as [il|].
  - destruct Hr as (s & nxt & rest & e & -> & Hs' & He & Hn & Hf); eexists; split; [reflexivity|].
    assert (Hfr : forall a, s <= a <= e -> free_at mm a)
      by (intros a Ha; split; [destruct (reverse n); lia|auto]).
    assert (Hwhole : ~ (s = 0 /\ e = 4294967295)) by (intros [-> ->]; apply Hbf, Hfr; lia).
    cbn [z_start]; destruct (reverse n).
    + rewrite u32_small by lia; split; [lia|]; intros _; split; [lia|].
      intros a Ha; apply Hfr; unfold within in Ha; lia.
    + assert (z_start nxt ⊟ s ⊟ (needbase n ⊟ s) = e + 1 - needbase n) as -> by ulia.
      split; [lia|]; intros _; split; [lia|].
      intros a Ha; apply Hfr; unfold within in Ha; lia.
  - exists 0; split; [done|]; split; [|lia]; intros _ Hfree.
    destruct Hr as (a & Ha & Hna); unfold within in Ha; replace a with (cbyte n) in Hna by lia; auto.
Qed.

Lemma discard_spec l : Forall frag_ok l ->
  Forall frag_ok (discard l) /\ Forall (fun f => f_src f <> f_dst f) (discard l) /\
  exists C, bytes l ≡ₚ C ++ bytes (discard l) /\ forall d x, (d, x) ∈ C -> d = x.
Proof.
  intros Hok; unfold discard; split; [|split].
  - apply Forall_forall; intros f Hf; apply list_elem_of_filter in Hf as [_ Hf].
    now apply (Forall_forall frag_ok l).
  - apply Forall_forall; intros f Hf; now apply list_elem_of_filter in Hf.
  - induction l as [|f l IH]; [exists []; split; [done|inversion 1]|].
    apply Forall_cons in Hok as [Hf Hok]; destruct (IH Hok) as (C & HC & Heq).
    rewrite filter_cons; destruct (decide (f_src f <> f_dst f)) as [Hne|He].
    + exists C; split; [rewrite !bytes_cons, HC; solve_Permutation|auto].
    + exists (pairs f ++ C); split; [rewrite bytes_cons, HC; now rewrite app_assoc|].
      intros d x Hd; apply elem_of_app in Hd as [Hd|Hd]; [|auto].
      apply elem_pairs in Hd; lia.
Qed.

Section Shuffle.
Context {A : Type} (mem0 : Z -> A) (wants : list (Z * Z)) (usable : Z -> Prop).

(** When the shuffle cannot get stuck: it may write every destination, and the
    last byte of the address space is not usable memory. *)
Definition can_shuffle : Prop := (forall d, d ∈ wants.*1 -> usable d) /\ ~ usable 4294967295.

(** The moves an iteration emits read bytes that were pending. *)
Definition emits (s : state) (new : list frag) : Prop :=
  (length new <= 2)%nat /\
  Forall (fun mv => frag_ok mv /\
    forall a, within (f_src mv) (f_len mv) a -> a ∈ (bytes (frags s)).*2) new.

(** Bringing a state to [s']: the loop's contract for one iteration. *)
Definition advances (s s' : state) : Prop :=
  state_ok s' /\ (length (bytes (frags s')) < length (bytes (frags s)))%nat /\
  ((exists a, free_at (mmap s) a) -> exists a, free_at (mmap s') a) /\
  (exists new, moves s' = moves s ++ new /\ emits s new) /\
  steps (world_of mem0 s nothing) (world_of mem0 s' nothing).

Notation inv := (Relocation.inv mem0 wants usable).

Lemma source_not_free s x claimed :
  inv (world_of mem0 s claimed) -> x ∈ (bytes (frags s)).*2 -> ~ free_at (mmap s) x.
Proof. intros Hi Hx Hf; apply (inv_free _ _ _ _ Hi) in Hf as (_ & Hn & _); auto. Qed.

(** The critical byte, when it is not free, belongs to another fragment. *)
Lemma occupied mvs mm f next :
  frag_ok f -> f_src f <> f_dst f -> Forall frag_ok next ->
  inv (world_of mem0 (State mvs (f :: next) mm) nothing) -> can_shuffle ->
  ~ free_at mm (cbyte (need_of f)) ->
  exists o, o ∈ next /\ f_src o + f_len o < 4294967296 /\ within (f_src o) (f_len o) (cbyte (need_of f)).
Proof.
  intros Hf Hne Hnext Hi [Hdst Htop] Hnf.
  destruct (need_spec f Hf Hne) as (Hl & Hb & Hs & Hcb & Hr & Hw); set (n := need_of f) in *.
  assert (Hin : within (needbase n) (needlen n) (cbyte n))
    by (rewrite Hcb; unfold within; destruct (reverse n); lia).
  apply Hw in Hin as [Hd Hns].
  assert (Hdp : cbyte n ∈ (bytes (f :: next)).*1).
  { rewrite bytes_cons, fmap_app, elem_of_app, elem_dsts; left; exact Hd. }
  destruct (inv_total _ _ _ _ Hi (cbyte n)) as [?|[[]|[Hsrc|[_ Hnd]]]]; [|contradiction| |contradiction].
  { apply Hdst, (inv_sub _ _ _ _ Hi), Hdp. }
  cbn [world_of pending frags] in Hsrc; rewrite bytes_cons, fmap_app, elem_of_app, elem_srcs in Hsrc.
  destruct Hsrc as [Hsrc|Hsrc]; [contradiction|].
  apply elem_snd in Hsrc as (d & Hsrc); apply list_elem_of_In, in_flat_map in Hsrc as (o & Ho & Hp).
  apply list_elem_of_In in Ho, Hp; exists o; split; [auto|].
  assert (Hok : frag_ok o) by (eapply Forall_forall; eauto).
  apply elem_pairs in Hp; unfold within; split; [|lia].
  destruct (decide (f_src o + f_len o = 4294967296)); [|unfold frag_ok in Hok; lia].
  destruct Htop; apply (inv_owned _ _ _ _ Hi); right; right; cbn [world_of pending frags].
  rewrite bytes_cons, fmap_app, elem_of_app; right; apply elem_snd; exists (f_dst o + f_len o - 1).
  apply list_elem_of_In, in_flat_map; exists o; split; apply list_elem_of_In; auto.
  apply elem_pairs; unfold frag_ok in Hok; lia.
Qed.

Lemma elem_bytes_srcs f l a :
  f ∈ l -> within (f_src f) (f_len f) a -> a ∈ (bytes l).*2.
Proof.
  intros Hf Ha; apply list_elem_of_split in Hf as (l1 & l2 & ->).
  rewrite bytes_mid, fmap_app, elem_of_app, elem_srcs; auto.
Qed.

Lemma chunk_emitted f copylen l :
  frag_ok f -> f_src f <> f_dst f -> 0 < copylen <= needlen (need_of f) -> f ∈ l ->
  frag_ok (chunk f copylen) /\
  forall a, within (f_src (chunk f copylen)) (f_len (chunk f copylen)) a -> a ∈ (bytes l).*2.
Proof.
  intros Hf Hne Hc Hl; destruct (chunk_spec f copylen Hf Hne Hc) as (Hok & _ & _ & Hin).
  split; [auto|]; intros a Ha; eapply elem_bytes_srcs; eauto.
Qed.

Lemma wp_claimed_chunk mvs mm f next copylen B :
  map_ok mm -> Forall frag_ok (f :: next) -> f_src f <> f_dst f ->
  0 < copylen <= needlen (need_of f) -> forall before, Forall frag_ok before ->
  (forall a, within (claim_base (need_of f) copylen) copylen a -> free_at mm a) ->
  wp (let! mm := allocate_from mm (claim_base (need_of f) copylen) copylen in
      emit_chunk mvs mm before f next copylen)
     (advances (State mvs (before ++ f :: next) mm)) B.
Proof.
  intros Hmm Hok Hne Hc before Hbefore Hfree; assert (Hf : frag_ok f) by (inversion Hok; auto).
  destruct (need_spec f Hf Hne) as (Hl & Hb & Hs & Hcb & Hr & Hw).
  eapply wp_seq; [apply wp_claim; auto|].
  - unfold claim_base, frag_ok in *; destruct (reverse (need_of f)); lia.
  - lia.
  - unfold claim_base, frag_ok in *; destruct (reverse (need_of f)); lia.
  - intros mm' [Hmm' Hclaim].
    eapply wp_post; [apply (wp_emit_chunk mem0); auto; now apply Forall_app|].
    intros s' (Hs' & Hlt & Hfr & Hmv & Hstep); split; [auto|split; [auto|split; [auto|split]]].
    { exists [chunk f copylen]; split; [auto|]; split; [simpl; lia|]; constructor; [|constructor].
      apply chunk_emitted; auto; cbn [frags]; set_solver. }
    eapply rtc_l; [apply Hclaim|apply rtc_once, Hstep]; unfold nothing; tauto.
Qed.

Lemma wp_work mvs mm f next :
  map_ok mm -> Forall frag_ok (f :: next) -> f_src f <> f_dst f ->
  inv (world_of mem0 (State mvs (f :: next) mm) nothing) ->
  (forall before o after plan,
     available mm (need_of f) = Some 0 ->
     find_occupant (cbyte (need_of f)) next = Some (before, o, after) ->
     evict_plan mm (need_of f) o = Some (inr plan) -> aligned (need_of f) plan = true) ->
  wp (work mvs mm f next) (advances (State mvs (f :: next) mm))
     (~ (can_shuffle /\ exists a, free_at mm a)).
Proof.
  intros Hmm Hok Hne Hi Hal; pose proof Hok as Hok'; apply Forall_cons in Hok' as [Hf Hnext].
  destruct (need_spec f Hf Hne) as (Hl & Hb & Hs & Hcb & Hr & Hw).
  assert (Hex : exists b, 0 <= b < 4294967296 /\ ~ free_at mm b).
  { exists (f_src f); split; [unfold frag_ok in Hf; lia|].
    apply (source_not_free _ _ _ Hi); cbn [frags].
    rewrite bytes_cons, fmap_app, elem_of_app, elem_srcs; unfold frag_ok in Hf; lia. }
  unfold work; set (n := need_of f) in *.
  destruct (available_spec mm n) as (av & Hav & Hno & Hyes); auto; try (unfold frag_ok in Hf; lia).
  apply wp_bind; eapply wp_lift; [exact Hav|].
  destruct (Z.eqb_spec av 0) as [->|Hnz]; cbn [negb].
  - assert (Hcb0 : 0 <= cbyte n) by (rewrite Hcb; unfold frag_ok in Hf; destruct (reverse n); lia).
    pose proof (find_occupant_spec (cbyte n) next Hnext Hcb0) as Hocc.
    destruct (find_occupant (cbyte n) next) as [[[before o] after]|] eqn:Efind.
    + destruct Hocc as [-> Hwo]; apply Forall_app in Hnext as [Hbefore Hoa].
      assert (Ho : frag_ok o) by (inversion Hoa; auto).
      destruct (evict_plan_spec mm n o) as (r & Er & Hplan); auto;
        try (unfold frag_ok in Hf; lia); [rewrite Hcb; unfold within; destruct (reverse n); lia|].
      apply wp_bind; eapply wp_lift; [exact Er|].
      destruct r as [?|plan]; [apply wp_bail; intros [_ [a Ha]]; now apply (Hplan a)|].
      assert (Hplan_al : aligned n plan = true) by eauto.
      eapply wp_seq; [apply wp_evict; eauto; unfold frag_ok in Hf; lia|].
      intros [[[mv after'] mm'] copylen] (Hmm' & Hafter' & Hlen & Hbytes & Hmvok & Hmvsrc & Hsteps).
      eapply wp_post; [apply (wp_emit_chunk mem0); auto; constructor; auto; now apply Forall_app|].
      intros s' (Hs' & Hlt & Hfr & Hmv & Hstep); split; [auto|].
      assert (Hperm : forall l, bytes (f :: before ++ l) ≡ₚ bytes l ++ bytes (f :: before))
        by (intros l; rewrite !bytes_cons, bytes_app; solve_Permutation).
      cbn [app frags] in *; split; [|split; [auto|split]].
      * rewrite Hperm, length_app; rewrite Hperm, length_app in Hlt; lia.
      * exists [mv; chunk f copylen]; rewrite Hmv, <- app_assoc; split; [auto|]; split; [simpl; lia|].
        constructor; [split; [auto|]; intros a Ha; apply Hmvsrc in Ha|constructor; [|constructor]].
        -- eapply elem_bytes_srcs; eauto; cbn [frags]; set_solver.
        -- apply chunk_emitted; auto; cbn [frags]; set_solver.
      * etransitivity; [|apply rtc_once, Hstep]; rewrite run_moves_app.
        apply Hsteps with (R := bytes (f :: before)); apply Hperm.
    + apply wp_bail; intros [Hcan _].
      destruct (occupied mvs mm f next) as (o & Ho & Hlt & Hwo); auto.
      now apply (Hocc o).
  - destruct (Hyes Hnz) as [Hpos Hfree].
    eapply wp_post; [|intros s' H; exact H].
    pose proof (wp_claimed_chunk mvs mm f next (Z.min (needlen n) av) (~ (can_shuffle /\ exists a, free_at mm a))
      Hmm Hok Hne) as H; unfold claim_base, n in *.
    destruct (reverse (need_of f)); [rewrite u32_small by (unfold frag_ok in Hf; lia)|];
      apply H with (before := []); auto; lia.
Qed.

Lemma wp_iteration mvs mm f next :
  state_ok (State mvs (f :: next) mm) ->
  inv (world_of mem0 (State mvs (f :: next) mm) nothing) -> step_aligned mm f next = true ->
  wp (iteration mvs mm f next) (advances (State mvs (f :: next) mm))
     (~ (can_shuffle /\ exists a, free_at mm a)).
Proof.
  intros [Hmm Hok] Hi Hal; cbn [mmap frags] in Hmm, Hok; apply Forall_cons in Hok as [Hf Hnext].
  unfold iteration, step_aligned in *; destruct (Z.eqb_spec (f_src f) (f_dst f)) as [He|Hne].
  - apply wp_ret; split; [split; auto|]; cbn [frags mmap]; split; [|split; [auto|split]].
    + rewrite bytes_cons, length_app, length_pairs; unfold frag_ok in Hf; lia.
    + exists []; cbn [moves]; rewrite app_nil_r; split; [auto|]; split; [simpl; lia|constructor].
    + apply rtc_once; apply step_drop with (C := pairs f); [reflexivity|].
      intros d x Hd; apply elem_pairs in Hd; lia.
  - destruct (discard_spec next Hnext) as (Hok & Hmoved & C & HC & Hdrop).
    set (rest := discard next) in *.
    (* the fragments already in place are dropped *)
    set (s := State mvs (f :: next) mm) in *; set (s1 := State mvs (f :: rest) mm).
    assert (Hs1 : Relocation.step (world_of mem0 s nothing) (world_of mem0 s1 nothing)).
    { apply step_drop with (C := C); [|exact Hdrop]; cbn [frags s s1].
      rewrite !bytes_cons, HC; solve_Permutation. }
    assert (Hi1 : inv (world_of mem0 s1 nothing)) by eauto using step_inv.
    assert (Hadv : forall s', advances s1 s' -> advances s s').
    { intros s' (Hs' & Hlt & Hfr & (new & Hnew & Hcount & Hnewok) & Hst).
      split; [auto|split; [|split; [auto|split]]].
      - cbn [frags s s1] in *; rewrite bytes_cons, length_app in *; rewrite HC, length_app; lia.
      - exists new; split; [auto|split; [auto|]].
        eapply Forall_impl; [exact Hnewok|]; intros mv [Hmv Hsrc]; split; [auto|].
        intros a Ha; apply Hsrc in Ha; cbn [frags s s1] in *; revert Ha.
        rewrite !bytes_cons, HC, !fmap_app, !elem_of_app; tauto.
      - eapply rtc_l; eauto. }
    assert (Hok1 : Forall frag_ok (f :: rest)) by (constructor; auto).
    assert (Hmoved1 : Forall (fun f => f_src f <> f_dst f) (f :: rest)) by (constructor; auto).
    destruct (find_direct_spec mm (f :: rest) Hmm Hok1 Hmoved1) as (r & Er & Hr).
    rewrite Er in Hal; apply wp_bind; eapply wp_lift; [exact Er|].
    apply (wp_post _ (advances s1)); [|exact Hadv].
    destruct r as [[[before o] after]|].
    + destruct Hr as [Hsplit Hfree].
      assert (Hoa : Forall frag_ok before /\ Forall frag_ok (o :: after))
        by (rewrite Hsplit, Forall_app in Hok1; auto).
      assert (Hneo : f_src o <> f_dst o)
        by (rewrite Hsplit, Forall_app, Forall_cons in Hmoved1; tauto).
      destruct Hoa as [Hbefore Hoa]; assert (Ho : frag_ok o) by (inversion Hoa; auto).
      destruct (need_spec o Ho Hneo) as (Hl & _).
      assert (Hcl : claim_base (need_of o) (needlen (need_of o)) = needbase (need_of o))
        by (unfold claim_base; destruct (reverse _); lia).
      unfold s1; rewrite Hsplit, <- Hcl at 1.
      apply wp_claimed_chunk; auto; [lia|]; now rewrite Hcl.
    + apply wp_work; auto; intros before o after plan Ea Eo Ep.
      rewrite Ea, Eo, Ep in Hal; exact Hal.
Qed.

(** The main loop, run on a fuel of as many turns as bytes to move. *)
Lemma wp_shuffle fuel : forall s m0,
  (length (bytes (frags s)) <= fuel)%nat -> state_ok s -> inv (world_of mem0 s nothing) ->
  Mem.reliable m0 -> run_aligned fuel s m0 = true ->
  wp (shuffle fuel s)
     (fun mvs => (exists w, inv w /\ pending w = [] /\ contents w = run_moves mvs mem0) /\
        exists new, mvs = moves s ++ new /\ (length new <= 2 * length (bytes (frags s)))%nat /\
          Forall (fun mv => frag_ok mv /\
            forall a, within (f_src mv) (f_len mv) a -> usable a) new)
     (~ (can_shuffle /\ exists a, free_at (mmap s) a)).
Proof.
  induction fuel as [|fuel IH]; intros [mvs [|f next] mm] m0 Hfuel Hok Hi Hm0 Hal;
    cbn [shuffle frags moves mmap] in *.
  1, 3: apply wp_ret; split; [eexists; split; [exact Hi|auto]|];
    exists []; rewrite app_nil_r; split; [auto|split; [simpl; lia|constructor]].
  - destruct Hok as [_ Hok]; apply Forall_cons in Hok as [Hf _]; cbn [frags] in *.
    rewrite bytes_cons, length_app, length_pairs in Hfuel; unfold frag_ok in Hf; lia.
  - cbn [run_aligned frags moves mmap] in Hal; apply andb_true_iff in Hal as [Hal1 Hal2].
    destruct (wp_iteration mvs mm f next Hok Hi Hal1) as (o & Hrun & Ho).
    destruct (Hrun m0 Hm0) as (m1 & E & Hm1); rewrite E in Hal2.
    apply wp_bind; exists o; split; [exact Hrun|]; destruct o as [s'|]; [|exact Ho].
    destruct Ho as (Hs' & Hlt & Hfr & (new & Hnew & Hcount & Hnewok) & Hsteps).
    cbn [frags moves] in *; eapply wp_mono; [apply (IH s' m1); auto| |].
    + lia.
    + eauto using steps_inv.
    + intros mvs' [Hw (new' & -> & Hcount' & Hnewok')]; split; [auto|].
      exists (new ++ new'); rewrite Hnew, app_assoc; split; [auto|]; split.
      * rewrite length_app; lia.
      * apply Forall_app; split; [|auto]; eapply Forall_impl; [exact Hnewok|].
        intros mv [Hmv Hsrc]; split; [auto|]; intros a Ha.
        apply (inv_owned _ _ _ _ Hi); right; right; auto.
    + intros Hn [Hc Hf]; apply Hn; auto.
Qed.
End Shuffle.

(** ** The preparation *)

(** The type a zone has while the moves are computed. *)
Definition working_type (t : smt) : smt := if decide (t = SMT_ZERO) then SMT_FREE else t.

Lemma wp_copy_memmap tl B : forall s t lo prev mm,
  wf_from lo prev (Zone s t :: tl) -> t <> SMT_END -> 0 <= s ->
  0 < s \/ (2 <= length tl)%nat ->
  (forall a, s <= a < 4294967296 -> look t tl a <> SMT_TERMINAL) -> map_ok mm ->
  wp (copy_memmap mm (Zone s t :: tl)) (fun mm' => map_ok mm' /\
    forall a, 0 <= a < 4294967296 ->
      memmap_at mm' a = if s <=? a then working_type (look t tl a) else memmap_at mm a) B.
Proof.
  induction tl as [|[s2 t2] tl IH]; intros s t lo prev mm H Ht Hs Hpart Hterm Hmm;
    inversion H as [|? ? ? ? ? ? ? ? Hw]; subst; try done; [inversion Hw|].
  destruct (zone_region s t _ _ _ H) as (nxt & tl' & [= <- <-] & Hreg); auto.
  destruct (Hreg _ eq_refl) as (He & Hn & Hflat); clear Hreg; cbn [z_start] in *.
  assert (Hnt : t <> SMT_TERMINAL) by (rewrite <- (Hflat s) by lia; apply Hterm; lia).
  remember (Zone s2 t2 :: tl) as l eqn:El.
  cbn [copy_memmap z_start z_type]; rewrite is_end_zone by auto; rewrite El at 1; cbn [z_start].
  assert (Hlen : s2 ⊟ s = (s2 ⊟ 1) + 1 - s).
  { destruct Hpart; [ulia|]; subst l; destruct tl; simpl in *; [lia|].
    inversion Hw; subst; ulia. }
  rewrite Hlen; eapply wp_seq with (R := fun mm' => set_zone mm s ((s2 ⊟ 1) + 1 - s) (working_type t) mm').
  { unfold working_type; case_bool_decide; destruct (decide _); try done; subst;
      apply wp_add_freelist; auto; try lia; discriminate. }
  intros mm1 (Hmm1 & Hin & Hout); unfold within in *; subst l.
  destruct (decide (t2 = SMT_END)) as [->|Ht2].
  - inversion Hw; subst; [|done]; apply wp_ret; split; [auto|].
    intros a Ha; destruct (Z.leb_spec s a); [|apply Hout; lia].
    change (0 ⊟ 1) with 4294967295 in *; rewrite Hin, Hflat by lia; auto.
  - inversion Hw; subst; [done|].
    eapply wp_post; [apply (IH s2 t2 s t); auto; [lia|lia|]|].
    + intros a Ha; rewrite <- (look_step s2 t2 tl t a) by (auto; lia); apply Hterm; lia.
    + intros mm2 [Hmm2 Hv]; split; [auto|]; intros a Ha; rewrite Hv by auto.
      destruct (Z.leb_spec s2 a); [rewrite look_step by (auto; lia); now zdec|].
      destruct (Z.leb_spec s a); [rewrite Hin, Hflat by lia; auto|apply Hout; lia].
Qed.

Lemma wp_mark_sources l B : forall mm,
  map_ok mm -> Forall frag_ok l ->
  wp (mark_sources mm l) (fun mm' => map_ok mm' /\
    forall a, 0 <= a < 4294967296 ->
      memmap_at mm' a = if decide (a ∈ (bytes l).*2) then SMT_ALLOC else memmap_at mm a) B.
Proof.
  induction l as [|f l IH]; intros mm Hmm Hok; cbn [mark_sources].
  - apply wp_ret; split; [auto|]; intros a Ha; now rewrite decide_False by (simpl; set_solver).
  - apply Forall_cons in Hok as [Hf Hok]; apply wp_bind.
    apply wp_add_freelist; try (unfold frag_ok in Hf; lia); auto; try discriminate.
    intros mm1 (Hmm1 & Hin & Hout); eapply wp_post; [apply IH; auto|].
    intros mm2 [Hmm2 Hv]; split; [auto|]; intros a Ha; rewrite Hv by auto.
    assert (He : a ∈ (bytes (f :: l)).*2 <-> within (f_src f) (f_len f) a \/ a ∈ (bytes l).*2)
      by (rewrite bytes_cons, fmap_app, elem_of_app, elem_srcs; reflexivity).
    destruct (decide (a ∈ (bytes l).*2)) as [Hl|Hl]; [now rewrite decide_True by (apply He; auto)|].
    destruct (within_dec (f_src f) (f_len f) a);
      [rewrite decide_True, Hin by (auto; apply He; auto)|rewrite decide_False, Hout by (auto; rewrite He; tauto)]; auto.
Qed.

(** Fragments whose sources are disjoint have no aliases to resolve. *)
Lemma sources_apart pre f post g :
  Forall frag_ok (pre ++ f :: post) -> NoDup (bytes (pre ++ f :: post)).*2 -> g ∈ pre ->
  f_src f + f_len f <= f_src g \/ f_src g + f_len g <= f_src f.
Proof.
  intros Hok Hn Hg; apply list_elem_of_split in Hg as (l1 & l2 & ->).
  rewrite Forall_app, Forall_cons, Forall_app, Forall_cons in Hok.
  destruct Hok as [(_ & Hgk & _) [Hfk _]].
  assert (HP : bytes ((l1 ++ g :: l2) ++ f :: post) ≡ₚ
    pairs g ++ (pairs f ++ bytes (l1 ++ l2 ++ post)))
    by (rewrite !bytes_app, !bytes_cons, ?bytes_app; solve_Permutation).
  rewrite HP, fmap_app, NoDup_app in Hn; destruct Hn as (_ & Hn & _).
  destruct (Z.le_gt_cases (f_src f + f_len f) (f_src g)); [auto|].
  destruct (Z.le_gt_cases (f_src g + f_len g) (f_src f)); [auto|exfalso].
  apply (Hn (Z.max (f_src f) (f_src g))); rewrite ?fmap_app, ?elem_of_app, ?elem_srcs;
    unfold frag_ok in *; lia.
Qed.

Lemma wp_dealias_scan mxs f next postcopy (Q : bool * list frag * list frag -> Prop) B :
  frag_ok f -> Forall frag_ok mxs ->
  (forall g, g ∈ mxs -> f_src f + f_len f <= f_src g \/ f_src g + f_len g <= f_src f) ->
  Q (false, f :: next, postcopy) ->
  wp (dealias_scan mxs (f_src f) (f_src f + f_len f ⊟ 1) f next postcopy) Q B.
Proof.
  intros Hf Hok Hd HQ; induction mxs as [|g mxs IH]; [now apply wp_ret|].
  apply Forall_cons in Hok as [Hg Hok]; cbn [dealias_scan].
  assert (Hfg := Hd g ltac:(left)); unfold frag_ok in Hf, Hg.
  rewrite !(u32_small (_ + _ - 1)) in * by lia.
  destruct (_ || _) eqn:E; [|bools; lia].
  apply IH; auto; intros; apply Hd; now right.
Qed.

Lemma wp_dealias_loop fuel B : forall pre cur,
  (length cur <= fuel)%nat -> Forall frag_ok (pre ++ cur) -> NoDup (bytes (pre ++ cur)).*2 ->
  wp (dealias_loop fuel pre cur []) (fun r => r = (pre ++ cur, [])) B.
Proof.
  induction fuel as [|fuel IH]; intros pre [|f cur] Hfuel Hok Hn; simpl in Hfuel; try lia;
    cbn [dealias_loop]; try (apply wp_ret; now rewrite app_nil_r).
  pose proof (fun g => sources_apart pre f cur g Hok Hn) as Hd.
  assert (Hpre : frag_ok f /\ Forall frag_ok pre)
    by (rewrite Forall_app, Forall_cons in Hok; tauto).
  apply wp_bind, wp_dealias_scan; try tauto; auto; cbv beta iota.
  eapply wp_post; [apply IH; rewrite <- ?app_assoc; auto; lia|].
  intros r ->; now rewrite <- app_assoc.
Qed.

Lemma init_map_ok : map_ok [Zone 0 SMT_UNDEFINED; Zone 0 SMT_END].
Proof.
  split; [split; [repeat constructor; discriminate || lia|discriminate]|].
  intros a Ha; unfold memmap_at; simpl; now destruct (0 <=? a).
Qed.

(** Memory the move-list computation may use, by its type in the map. *)
Definition spare (t : smt) : Prop := t = SMT_FREE \/ t = SMT_ZERO.

(** A map whose first zone is its only one. *)
Lemma single_zone s t tl lo prev :
  wf_from lo prev (Zone s t :: tl) -> t <> SMT_END -> ~ (2 <= length tl)%nat -> tl = [Zone 0 SMT_END].
Proof.
  intros Hw Ht Hlen; inversion Hw as [|? ? ? ? ? ? ? ? Hw1]; subst; [done|].
  inversion Hw1 as [|? ? ? ? l' ? ? ? Hw2]; subst; [done|].
  apply wf_from_not_nil in Hw2; destruct l'; simpl in Hlen; [done|lia].
Qed.

(** The copied map, seen on the free memory: copying a map of a single zone
    copies nothing, the length of that zone being 0 modulo 2^32. *)
Lemma wp_copied memmap B :
  map_ok memmap -> (exists a, 0 <= a < 4294967296 /\ ~ spare (memmap_at memmap a)) ->
  wp (copy_memmap [Zone 0 SMT_UNDEFINED; Zone 0 SMT_END] memmap) (fun mm => map_ok mm /\
    forall a, 0 <= a < 4294967296 -> memmap_at mm a = SMT_FREE <-> spare (memmap_at memmap a)) B.
Proof.
  intros Hmap (b & Hb & Hns); pose proof Hmap as [_ Hterm].
  destruct (map_ok_head memmap Hmap) as (t & tl & -> & Ht & Hw & Hv).
  assert (Hnt : forall a, 0 <= a < 4294967296 -> look t tl a <> SMT_TERMINAL)
    by (intros a Ha; rewrite <- Hv by lia; auto).
  destruct (decide (2 <= length tl)%nat) as [Hlen|Hlen].
  - eapply wp_post; [eapply wp_copy_memmap; eauto using init_map_ok; lia|].
    intros mm [Hmm Hv1]; split; [auto|]; intros a Ha; rewrite Hv1, Hv by lia; unfold working_type, spare.
    rewrite (proj2 (Z.leb_le 0 a)) by lia; destruct (decide _); split; intros; try tauto; auto.
  - rewrite (single_zone _ _ _ _ _ Hw Ht Hlen) in *.
    assert (Ht' : ~ spare t) by (rewrite Hv in Hns by lia; exact Hns).
    cbn [copy_memmap z_start z_type]; rewrite is_end_zone by auto; cbn [z_start].
    change (0 ⊟ 0) with 0; apply wp_bind.
    apply wp_add_freelist; auto using init_map_ok; try lia.
    + case_bool_decide; [discriminate|auto].
    + case_bool_decide; [discriminate|].
      specialize (Hnt 0); simpl in Hnt; apply Hnt; lia.
    + intros mm (Hmm & _ & Hout); apply wp_ret; split; [auto|]; intros a Ha.
      rewrite Hout, Hv by (unfold within; lia); unfold memmap_at; simpl.
      destruct (0 <=? a); split; intros; try discriminate; contradiction.
Qed.

(** Where the moves may write: free memory, memory to be zeroed and the
    source material. *)
Definition writable (memmap : list zone) (ifrags : list frag) (a : Z) : Prop :=
  0 <= a < 4294967296 /\ spare (memmap_at memmap a) \/ a ∈ (bytes ifrags).*2.

Lemma length_bytes_ge l : Forall frag_ok l -> (length l <= length (bytes l))%nat.
Proof.
  induction 1 as [|f l Hf Hl IH]; simpl; [lia|].
  rewrite length_app, length_pairs; unfold frag_ok in Hf; lia.
Qed.

(** The state the loop starts in. *)
Lemma wp_prepare fuel ifrags memmap B :
  map_ok memmap -> (exists a, 0 <= a < 4294967296 /\ ~ spare (memmap_at memmap a)) ->
  Forall frag_ok ifrags ->
  NoDup (bytes ifrags).*2 -> (length (bytes ifrags) <= fuel)%nat ->
  wp (prepare fuel ifrags memmap) (fun '(s, postcopy) =>
    postcopy = [] /\ moves s = [] /\ frags s = ifrags /\ state_ok s /\
    forall a, free_at (mmap s) a <->
      (0 <= a < 4294967296 /\ spare (memmap_at memmap a)) /\ a ∉ (bytes ifrags).*2) B.
Proof.
  intros Hmap Hlen Hok Hn Hfuel; unfold prepare.
  eapply wp_seq with (R := fun l => l = [Zone 0 SMT_UNDEFINED; Zone 0 SMT_END]).
  { exists (Ret [Zone 0 SMT_UNDEFINED; Zone 0 SMT_END]); split; auto; intros m Hm.
    unfold init_memmap, syslinux_init_memmap.
    destruct (Mem.malloc m) as [b m1] eqn:E1; apply Mem.malloc_reliable in E1 as [-> Hm1]; auto.
    cbn [negb]; destruct (Mem.malloc m1) as [b m2] eqn:E2.
    apply Mem.malloc_reliable in E2 as [-> Hm2]; eauto. }
  intros l ->; apply wp_bind, wp_dup_movelist.
  eapply wp_seq; [apply (wp_dealias_loop fuel _ []); auto|].
  { pose proof (length_bytes_ge ifrags Hok); lia. }
  intros r ->; cbv beta iota; cbn [app].
  eapply wp_seq; [apply wp_copied; auto|].
  intros mm1 [Hmm1 Hv1]; eapply wp_seq; [apply wp_mark_sources; auto|].
  intros mm2 [Hmm2 Hv2]; apply wp_ret; cbn [moves frags mmap].
  do 3 (split; [auto|]); split; [split; auto|].
  intros a; unfold free_at; split.
  - intros [Ha Hf]; rewrite Hv2 in Hf by auto.
    destruct (decide _) as [|Hns]; [discriminate|]; rewrite <- Hv1; auto.
  - intros [[Ha Hs] Hns]; split; [auto|]; rewrite Hv2, decide_False by auto; now apply Hv1.
Qed.

Lemma wp_compute_movelist {A} (mem0 : Z -> A) fuel ifrags memmap :
  map_ok memmap -> (exists a, 0 <= a < 4294967296 /\ ~ spare (memmap_at memmap a)) ->
  Forall frag_ok ifrags -> NoDup (bytes ifrags).*1 -> NoDup (bytes ifrags).*2 ->
  (length (bytes ifrags) <= fuel)%nat -> evictions_aligned fuel ifrags memmap = true ->
  wp (syslinux_compute_movelist fuel ifrags memmap)
    (fun mvs =>
       (forall d x, (d, x) ∈ bytes ifrags -> run_moves mvs mem0 d = mem0 x) /\
       (forall a, ~ writable memmap ifrags a -> run_moves mvs mem0 a = mem0 a) /\
       (length mvs <= 2 * length (bytes ifrags))%nat /\
       Forall (fun mv => frag_ok mv /\
         forall a, within (f_src mv) (f_len mv) a -> writable memmap ifrags a) mvs)
    (~ (can_shuffle (bytes ifrags) (writable memmap ifrags) /\
        exists a, writable memmap ifrags a /\ a ∉ (bytes ifrags).*2)).
Proof.
  intros Hmap Hlen Hok Hn1 Hn2 Hfuel Hal; unfold syslinux_compute_movelist.
  apply wp_bind; unfold evictions_aligned in Hal.
  destruct (wp_prepare fuel ifrags memmap (~ (can_shuffle (bytes ifrags) (writable memmap ifrags) /\
        exists a, writable memmap ifrags a /\ a ∉ (bytes ifrags).*2)) Hmap Hlen Hok Hn2 Hfuel)
    as (o & Hrun & Ho).
  exists o; split; [exact Hrun|]; destruct o as [[s postcopy]|]; [|exact Ho].
  destruct (Hrun Mem.always Mem.always_reliable) as (m1 & E & Hm1); rewrite E in Hal.
  destruct Ho as (-> & Hmv & Hfr & Hs & Hfree).
  assert (Hi : Relocation.inv mem0 (bytes ifrags) (writable memmap ifrags) (world_of mem0 s nothing)).
  { unfold world_of; rewrite Hfr, Hmv; apply inv_start; auto.
    - intros a Ha; now apply Hfree in Ha.
    - intros a; rewrite Hfree; unfold writable.
      destruct (decide (a ∈ (bytes ifrags).*2)); tauto. }
  apply wp_bind; eapply wp_mono; [apply (wp_shuffle mem0 (bytes ifrags) (writable memmap ifrags) fuel s m1); eauto; now rewrite Hfr| |].
  - intros mvs [(w & Hw & Hp & Hc) (new & Hnew & Hcount & Hnewok)]; apply wp_ret.
    rewrite Hmv in Hnew; simpl in Hnew; subst new; rewrite Hfr in Hcount.
    destruct (inv_finished _ _ _ _ Hw Hp) as [Hplaced Hframe].
    rewrite app_nil_r, <- Hc; auto.
  - intros Hstuck [Hcan (a & Ha & Hns)]; apply Hstuck; split; [auto|]; exists a.
    apply Hfree; split; [|auto]; destruct Ha; tauto.
Qed.

(** ** Properties *)

(** The requirements of the theorems on the input: the memory map is well formed,
    has no memory of last resort and is not all usable; the fragments are not
    empty, do not wrap around, and no two share a source or a destination byte. *)
Definition input_ok (ifrags : list frag) (memmap : list zone) : Prop :=
  map_ok memmap /\ (exists a, 0 <= a < 4294967296 /\ ~ spare (memmap_at memmap a)) /\ Forall frag_ok ifrags /\
  NoDup (bytes ifrags).*1 /\ NoDup (bytes ifrags).*2.

(** C2: under the conditions below, the computation ends within as many turns as
    there are bytes to move, and if it answers a move list, executing it in
    order copies every byte of every fragment from where it was at the start to
    its destination, and writes nothing but free memory, memory to be zeroed and
    source material; it may also give up. The conditions: the memory map is well
    formed, not all usable and has no memory of last resort ([SMT_TERMINAL];
    [terminal_zone_overrun] is a wrong move list with it); the fragments are not
    empty and do not wrap around, and no two share a source byte or a
    destination byte, so that [shuffle_dealias] has nothing to do
    ([dealias_misses_overlap] is a wrong move list otherwise); every eviction is
    aligned, that is, what it moves away lies at an end of what the first
    fragment needs (decided by a run of the model; [unaligned_eviction_corrupts]
    is a wrong move list without it); and memory is granted whenever it is asked
    for. *)
Theorem compute_movelist_correct {A} (mem0 : Z -> A) fuel ifrags memmap m :
  input_ok ifrags memmap -> (length (bytes ifrags) <= fuel)%nat ->
  evictions_aligned fuel ifrags memmap = true -> Mem.reliable m ->
  exists o m', syslinux_compute_movelist fuel ifrags memmap m = Some (o, m') /\
    match o with
    | Ret mvs =>
        (forall f i, f ∈ ifrags -> 0 <= i < f_len f ->
           run_moves mvs mem0 (f_dst f + i) = mem0 (f_src f + i)) /\
        (forall a, ~ writable memmap ifrags a -> run_moves mvs mem0 a = mem0 a)
    | Bail => True
    end.
Proof.
  intros (Hmap & Hlen & Hok & Hn1 & Hn2) Hfuel Hal Hm.
  destruct (wp_run _ _ _ m Hm (wp_compute_movelist mem0 fuel ifrags memmap Hmap Hlen Hok Hn1 Hn2 Hfuel Hal))
    as (o & m' & E & _ & Ho).
  exists o, m'; split; [auto|]; destruct o as [mvs|]; [|done]; destruct Ho as (Hplaced & Hframe & _).
  split; [|auto]; intros f i Hf Hi; apply Hplaced.
  apply list_elem_of_In, in_flat_map; exists f; split; apply list_elem_of_In; auto.
  apply elem_pairs; lia.
Qed.

(** C3: the computation does not get stuck: under the conditions of the previous
    theorem (well formed map, not all usable and without [SMT_TERMINAL] memory;
    fragments that are not empty, do not wrap around and share neither source
    nor destination bytes; aligned evictions; memory that is granted), when
    besides every destination byte is free memory, memory to be zeroed or source
    material, some such byte is not source material, and the top byte of the
    address space is neither usable nor source material, it answers a move list. *)
Theorem compute_movelist_succeeds fuel ifrags memmap m :
  input_ok ifrags memmap -> (length (bytes ifrags) <= fuel)%nat ->
  evictions_aligned fuel ifrags memmap = true -> Mem.reliable m ->
  (forall d, d ∈ (bytes ifrags).*1 -> writable memmap ifrags d) ->
  ~ writable memmap ifrags 4294967295 ->
  (exists a, writable memmap ifrags a /\ a ∉ (bytes ifrags).*2) ->
  exists mvs m', syslinux_compute_movelist fuel ifrags memmap m = Some (Ret mvs, m').
Proof.
  intros (Hmap & Hlen & Hok & Hn1 & Hn2) Hfuel Hal Hm Hdst Htop Hfree.
  destruct (wp_run _ _ _ m Hm (wp_compute_movelist id fuel ifrags memmap Hmap Hlen Hok Hn1 Hn2 Hfuel Hal))
    as ([mvs|] & m' & E & _ & Ho); [eauto|].
  destruct Ho; split; [split|]; auto.
Qed.

(** Decides a closed proposition. *)
Ltac by_computation :=
  match goal with |- ?P => apply (bool_decide_unpack P); vm_compute; exact I end.

(** A swap: the second fragment has to be evicted. *)
Definition demo_swap : list frag := [Frag 100 200 2; Frag 200 100 2].

Lemma demo_map_ok : map_ok demo_map.
Proof.
  split; [exact demo_map_wf|]; intros a Ha; unfold memmap_at; simpl.
  destruct (0 <=? a), (4096 <=? a); discriminate.
Qed.

Lemma demo_map_spare : exists a, 0 <= a < 4294967296 /\ ~ spare (memmap_at demo_map a).
Proof. exists 5000; split; [lia|]; intros [H|H]; discriminate. Qed.

Lemma demo_swap_ok : input_ok demo_swap demo_map.
Proof.
  split; [exact demo_map_ok|]; split; [exact demo_map_spare|].
  split; [repeat constructor; simpl; lia|].
  split; by_computation.
Qed.

Theorem compute_movelist_correct_witness :
  exists o m', syslinux_compute_movelist 4 demo_swap demo_map Mem.always = Some (o, m') /\
    match o with
    | Ret mvs =>
        (forall f i, f ∈ demo_swap -> 0 <= i < f_len f ->
           run_moves mvs (fun a => a) (f_dst f + i) = f_src f + i) /\
        (forall a, ~ writable demo_map demo_swap a -> run_moves mvs (fun a => a) a = a)
    | Bail => True
    end.
Proof.
  apply (compute_movelist_correct (fun a => a));
    [exact demo_swap_ok|simpl; lia|vm_compute; reflexivity|exact Mem.always_reliable].
Defined.

Theorem compute_movelist_succeeds_witness :
  exists mvs m', syslinux_compute_movelist 4 demo_swap demo_map Mem.always = Some (Ret mvs, m').
Proof.
  assert (Hw : forall a, 0 <= a < 4096 -> writable demo_map demo_swap a).
  { intros a Ha; left; split; [lia|left]; unfold memmap_at; simpl.
    now replace (0 <=? a) with true by lia; replace (4096 <=? a) with false by lia. }
  apply compute_movelist_succeeds;
    [exact demo_swap_ok|simpl; lia|vm_compute; reflexivity|exact Mem.always_reliable| | |].
  - intros d Hd; change ((bytes demo_swap).*1) with [100; 101; 200; 201] in Hd.
    rewrite !elem_of_cons in Hd; apply Hw; destruct Hd as [?|[?|[?|[?|Hd]]]]; try lia; inversion Hd.
  - intros [[_ H]|H]; [destruct H; discriminate|].
    change ((bytes demo_swap).*2) with [200; 201; 100; 101] in H.
    rewrite !elem_of_cons in H; destruct H as [?|[?|[?|[?|H]]]]; try lia; inversion H.
  - exists 0; split; [apply Hw; lia|]; change ((bytes demo_swap).*2) with [200; 201; 100; 101].
    rewrite !elem_of_cons; intros [?|[?|[?|[?|H]]]]; try lia; inversion H.
Defined.

(** An eviction that is not aligned may lose data.  The object at 90..109 is
    evicted to make room from 100 on; the 20 bytes then moved there reach past
    the evicted memory, over 110..119, which is free and stays marked free: the
    next eviction puts another object on top of the bytes already in place,
    and the move list answered leaves the byte of 120 where that of 1010
    was asked for. *)
Theorem unaligned_eviction_corrupts :
  let ifrags := [Frag 100 1000 50; Frag 1000 90 20; Frag 1020 120 10] in
  input_ok ifrags demo_map /\ evictions_aligned 80 ifrags demo_map = false /\
  match syslinux_compute_movelist 80 ifrags demo_map Mem.always with
  | Some (Ret mvs, _) => run_moves mvs (fun a => a) 110 = 120
  | _ => False
  end.
Proof.
  split; [|split; [vm_compute; reflexivity|vm_compute; auto]].
  split; [exact demo_map_ok|]; split; [exact demo_map_spare|].
  split; [repeat constructor; simpl; lia|].
  split; by_computation.
Qed.

(** With memory of last resort in the map the node found for the critical
    byte may be an earlier one of the run, the length available wraps around,
    and the move list answered writes over reserved memory. *)
Theorem terminal_zone_overrun :
  let memmap := [Zone 0 SMT_FREE; Zone 4096 SMT_TERMINAL; Zone 8192 SMT_RESERVED; Zone 0 SMT_END] in
  wf memmap /\ memmap_at memmap 9000 = SMT_RESERVED /\
  match syslinux_compute_movelist 80 [Frag 6144 20000 4096] memmap Mem.always with
  | Some (Ret mvs, _) => mvs = [Frag 6144 20000 4096]
  | _ => False
  end.
Proof.
  split; [split; [repeat constructor; discriminate || lia|discriminate]|].
  split; vm_compute; reflexivity.
Qed.

(** The alias scan compares the rest of a split fragment with the bounds of the
    part already taken out: a fragment that overlaps two earlier ones keeps
    the second overlap, and the move list answered leaves a wrong byte. *)
Theorem dealias_misses_overlap :
  let ifrags := [Frag 100 0 10; Frag 200 20 10; Frag 300 5 20; Frag 20 300 10] in
  match shuffle_dealias 80 ifrags Mem.always with
  | Some (Ret (l, _), _) => Frag 200 20 10 ∈ l /\ Frag 305 10 15 ∈ l
  | _ => False
  end /\
  match syslinux_compute_movelist 80 ifrags demo_map Mem.always with
  | Some (Ret mvs, _) => run_moves mvs (fun a => a) 315 = 300
  | _ => False
  end.
Proof.
  split; [|vm_compute; reflexivity].
  vm_compute; split; [right; left|right; right; left].
Qed.
