(* ===== verification/Shuffle.v ===== *)
(** * Shuffle and boot: com32/lib/syslinux/shuffle.c

    From the fragments and the memory map to the table of descriptors handed to
    the assembly shuffler, and what that table does when the shuffler executes
    it.  [shuffler_size] is the size of the assembly code, a symbol of the
    assembler sources. *)

From S2P Require Import Prelude Zonelist Relocation Movebits MovebitsProof.
Open Scope word_scope.

(** [src/com32/lib/syslinux/shuffle.c:48-50 struct shuffle_descriptor] *)
Record descriptor := Desc { d_dst : Z; d_src : Z; d_len : Z }.

Definition DESC_BLOCK_SIZE : Z := 256.
Definition sizeof_descriptor : Z := 12.

Section Table.
Context (shuffler_size : Z).

(** [src/com32/lib/syslinux/shuffle.c:81-86 syslinux_do_shuffle] *)
Fixpoint count_zero (ml : list zone) : option Z :=
  match ml with
  | [] => None
  | z :: tl =>
      if is_end z then Some 0
      else
        let* n := count_zero tl in
        Some (if bool_decide (z_type z = SMT_ZERO) then n + 1 else n)
  end.

(** [src/com32/lib/syslinux/shuffle.c:91-93 syslinux_do_shuffle] *)
Definition dup_memmap (memmap : list zone) : M (list zone) := fun m =>
  match syslinux_dup_memmap memmap m with
  | (Some l, m') => Some (Ret l, m')
  | (None, m') => Some (Bail, m')
  end.

(** [src/com32/lib/syslinux/shuffle.c:98-102 syslinux_do_shuffle] *)
Fixpoint mark_fragments (rxmap : list zone) (mp : list frag) : M (list zone) :=
  match mp with
  | [] => ret rxmap
  | mp :: next =>
      let! rxmap := add_freelist rxmap (f_src mp) (f_len mp) SMT_ALLOC in
      let! rxmap := add_freelist rxmap (f_dst mp) (f_len mp) SMT_ALLOC in
      mark_fragments rxmap next
  end.

(** The largest region used neither by input nor by output: start and length.
    [src/com32/lib/syslinux/shuffle.c:88-106 syslinux_do_shuffle] *)
Definition find_desczone (fraglist : list frag) (memmap : list zone) : M (Z * Z) :=
  let! rxmap := dup_memmap memmap in
  let! rxmap := add_freelist rxmap 0 (1024 * 1024) SMT_RESERVED in
  let! rxmap := mark_fragments rxmap fraglist in
  let! largest := lift (syslinux_memmap_largest rxmap SMT_FREE) in
  match largest with
  | inl _ => bail
  | inr zone => ret zone
  end.

(** [src/com32/lib/syslinux/shuffle.c:118-121 syslinux_do_shuffle] *)
Definition descmem (desc_blocks : Z) : Z :=
  u32 (desc_blocks * sizeof_descriptor * DESC_BLOCK_SIZE + sizeof_descriptor + shuffler_size).

(** Where the descriptors go, and the number of blocks for so many moves.
    [src/com32/lib/syslinux/shuffle.c:123-123 syslinux_do_shuffle] *)
Definition descaddr_of (desczone descfree desc_blocks : Z) : Z :=
  Z.land (desczone + descfree ⊟ descmem desc_blocks) (u32 (Z.lnot 3)).

Definition blocks_for (n : Z) : Z := (n + DESC_BLOCK_SIZE - 1) / DESC_BLOCK_SIZE.

(** The allocation loop: the address of the table and the moves.
    [src/com32/lib/syslinux/shuffle.c:115-149 syslinux_do_shuffle] *)
Fixpoint fit (fuel mfuel : nat) (fraglist : list frag) (desczone descfree nzero : Z)
    (rxmap : list zone) (desc_blocks : Z) : M (Z * list frag) :=
  match fuel with
  | O => lift None
  | S fuel =>
      let descaddr := descaddr_of desczone descfree desc_blocks in
      if descaddr <? desczone then bail
      else
        let! rxmap := add_freelist rxmap descaddr (descmem desc_blocks) SMT_RESERVED in
        let! moves := syslinux_compute_movelist mfuel fraglist rxmap in
        let nmoves := Z.of_nat (length moves) in
        let need_blocks := blocks_for (nmoves + nzero) in
        if need_blocks <=? desc_blocks then ret (descaddr, moves)
        else fit fuel mfuel fraglist desczone descfree nzero rxmap need_blocks
  end.

(** [src/com32/lib/syslinux/shuffle.c:186-195 syslinux_do_shuffle] *)
Fixpoint zero_descriptors (ml : list zone) : option (list descriptor) :=
  match ml with
  | [] => None
  | z :: tl =>
      if is_end z then Some []
      else
        let* ds := zero_descriptors tl in
        if bool_decide (z_type z = SMT_ZERO) then
          match tl with
          | [] => None
          | nxt :: _ => Some (Desc (z_start z) (u32 (-1)) (z_start nxt ⊟ z_start z) :: ds)
          end
        else Some ds
  end.

(** [src/com32/lib/syslinux/shuffle.c:176-183 syslinux_do_shuffle] *)
Definition move_descriptor (mp : frag) : descriptor := Desc (f_dst mp) (f_src mp) (f_len mp).

(** [src/com32/lib/syslinux/shuffle.c:160-162 syslinux_do_shuffle] *)
Definition alloc_dbuf : M unit := fun m =>
  let (ok, m') := Mem.malloc m in
  if ok then Some (Ret tt, m') else Some (Bail, m').

(** The arguments of the call of [bios_do_shuffle_and_boot]: the address of the
    descriptors and their table.  [Bail] is the return value -1.
    [src/com32/lib/syslinux/shuffle.c:58-226 syslinux_do_shuffle] *)
Definition syslinux_do_shuffle (fuel mfuel : nat) (fraglist : list frag) (memmap : list zone)
    (entry_point entry_type : Z) : M (Z * list descriptor) :=
  let! nzero := lift (count_zero memmap) in
  let! (desczone, descfree) := find_desczone fraglist memmap in
  let! rxmap := dup_memmap memmap in
  let! (descaddr, moves) := fit fuel mfuel fraglist desczone descfree nzero rxmap (blocks_for nzero) in
  let! _ := alloc_dbuf in
  let! zeros := lift (zero_descriptors memmap) in
  ret (descaddr, map move_descriptor moves ++ zeros ++ [Desc entry_point entry_type 0]).

(** [src/com32/lib/syslinux/shuffle.c:243-248 syslinux_target_memmap] *)
Fixpoint mark_destinations (tmap : list zone) (mp : list frag) : M (list zone) :=
  match mp with
  | [] => ret tmap
  | mp :: next =>
      let! tmap := add_freelist tmap (f_dst mp) (f_len mp) SMT_ALLOC in
      mark_destinations tmap next
  end.

(** [src/com32/lib/syslinux/shuffle.c:232-251 syslinux_target_memmap] *)
Definition syslinux_target_memmap (fraglist : list frag) (memmap : list zone) : M (list zone) :=
  let! tmap := dup_memmap memmap in
  mark_destinations tmap fraglist.

(** ** What the table does *)

(** The descriptors executed in order: a length of zero ends the table, a source
    of -1 clears the destination, anything else is a [memmove]. *)
Fixpoint run_descriptors (ds : list descriptor) (mem : Z -> Z) : Z -> Z :=
  match ds with
  | [] => mem
  | d :: ds =>
      if d_len d =? 0 then mem
      else
        run_descriptors ds (fun a =>
          if (d_dst d <=? a) && (a <? d_dst d + d_len d)
          then if d_src d =? u32 (-1) then 0 else mem (d_src d + (a - d_dst d))
          else mem a)
  end.

(** The loop meets no wrap-around of the table's address, and the evictions of
    every move list it computes are aligned. *)
Fixpoint fit_aligned (fuel mfuel : nat) (fraglist : list frag) (desczone descfree nzero : Z)
    (rxmap : list zone) (desc_blocks : Z) (m : Mem.t) : bool :=
  match fuel with
  | O => true
  | S fuel =>
      let descaddr := descaddr_of desczone descfree desc_blocks in
      (descmem desc_blocks <=? desczone + descfree) &&
      (desc_blocks * sizeof_descriptor * DESC_BLOCK_SIZE + sizeof_descriptor + shuffler_size
         <? 4294967296) &&
      ((descaddr <? desczone) ||
       match add_freelist rxmap descaddr (descmem desc_blocks) SMT_RESERVED m with
       | Some (Ret rxmap, m) =>
           evictions_aligned mfuel fraglist rxmap &&
           match syslinux_compute_movelist mfuel fraglist rxmap m with
           | Some (Ret moves, m) =>
               let need_blocks := blocks_for (Z.of_nat (length moves) + nzero) in
               (need_blocks <=? desc_blocks) ||
               fit_aligned fuel mfuel fraglist desczone descfree nzero rxmap need_blocks m
           | _ => true
           end
       | _ => true
       end)
  end.

Definition shuffle_aligned (fuel mfuel : nat) (fraglist : list frag) (memmap : list zone) : bool :=
  match count_zero memmap, find_desczone fraglist memmap Mem.always with
  | Some nzero, Some (Ret (desczone, descfree), m) =>
      match dup_memmap memmap m with
      | Some (Ret rxmap, m) =>
          fit_aligned fuel mfuel fraglist desczone descfree nzero rxmap (blocks_for nzero) m
      | _ => true
      end
  | _, _ => true
  end.
End Table.

(** ** Facts *)

Lemma wp_dup_memmap l (Q : list zone -> Prop) B : Q l -> wp (dup_memmap l) Q B.
Proof.
  intros HQ; exists (Ret l); split; [|auto]; intros m Hm; unfold dup_memmap.
  assert (H : exists m', syslinux_dup_memmap l m = (Some l, m') /\ Mem.reliable m').
  { clear HQ; revert m Hm; induction l as [|[s t] l IH]; intros m Hm; cbn [syslinux_dup_memmap]; [eauto|].
    destruct (Mem.malloc m) as [ok m1] eqn:E; apply Mem.malloc_reliable in E as [-> Hm1]; auto.
    destruct (IH m1 Hm1) as (m2 & -> & Hm2); simpl; eauto. }
  destruct H as (m' & -> & Hm'); eauto.
Qed.

Lemma wp_mark_fragments l B : forall mm,
  map_ok mm -> Forall frag_ok l ->
  wp (mark_fragments mm l) (fun mm' => map_ok mm' /\
    forall a, free_at mm' a <-> free_at mm a /\ a ∉ (bytes l).*1 /\ a ∉ (bytes l).*2) B.
Proof.
  induction l as [|f l IH]; intros mm Hmm Hok; cbn [mark_fragments].
  - apply wp_ret; split; [auto|]; intros a; simpl; set_solver.
  - apply Forall_cons in Hok as [Hf Hok].
    apply wp_bind, wp_add_freelist; try (unfold frag_ok in Hf; lia); auto; try discriminate.
    intros mm1 Hset1; apply wp_bind.
    apply wp_add_freelist; try (unfold frag_ok in Hf; lia); try apply Hset1; try discriminate.
    intros mm2 Hset2; eapply wp_post; [apply IH; [apply Hset2|auto]|].
    intros mm3 [Hmm3 Hv]; split; [auto|]; intros a; rewrite Hv.
    rewrite (free_at_set _ _ _ _ _ a Hset2), decide_False by discriminate.
    rewrite (free_at_set _ _ _ _ _ a Hset1), decide_False by discriminate.
    rewrite bytes_cons, !fmap_app, !elem_of_app, elem_dsts, elem_srcs.
    unfold within; tauto.
Qed.

Lemma wp_find_desczone fraglist memmap :
  map_ok memmap -> Forall frag_ok fraglist ->
  wp (find_desczone fraglist memmap) (fun '(z, n) =>
    0 <= z /\ 0 < n /\ z + n <= 4294967296 /\
    forall a, within z n a -> 1048576 <= a /\ free_at memmap a /\
      a ∉ (bytes fraglist).*1 /\ a ∉ (bytes fraglist).*2) True.
Proof.
  intros Hmap Hok; unfold find_desczone; apply wp_bind, wp_dup_memmap, wp_bind.
  apply wp_add_freelist; auto; try lia; try discriminate.
  intros mm1 Hset; eapply wp_seq; [apply wp_mark_fragments; [apply Hset|auto]|].
  intros mm2 [Hmm2 Hv].
  assert (Hfree : forall a, free_at mm2 a -> 1048576 <= a /\ free_at memmap a /\
    a ∉ (bytes fraglist).*1 /\ a ∉ (bytes fraglist).*2).
  { intros a Ha; apply Hv in Ha as (Ha & Hd & Hs).
    rewrite (free_at_set _ _ _ _ _ a Hset), decide_False in Ha by discriminate.
    destruct Ha as [Ha Hlow]; unfold within in Hlow; destruct Ha as [Hr Ht].
    split; [lia|split; [split; auto|auto]]. }
  destruct (memmap_largest_spec mm2 Hmm2) as (r & E & Hr).
  { exists 0; split; [lia|]; intros H0; apply Hfree in H0; lia. }
  apply wp_bind; eapply wp_lift; [exact E|]; destruct r as [u|[z n]]; [now apply wp_bail|].
  apply wp_ret; destruct Hr as (? & ? & ? & Hf); repeat (split; [assumption|]).
  intros a Ha; apply Hfree; auto.
Qed.

(** *** Executing descriptors *)

Definition run_descriptor (mem : Z -> Z) (d : descriptor) : Z -> Z := fun a =>
  if (d_dst d <=? a) && (a <? d_dst d + d_len d)
  then if d_src d =? u32 (-1) then 0 else mem (d_src d + (a - d_dst d))
  else mem a.

Lemma run_descriptors_app ds ds' mem :
  Forall (fun d => 0 < d_len d) ds ->
  run_descriptors (ds ++ ds') mem = run_descriptors ds' (fold_left run_descriptor ds mem).
Proof.
  intros H; revert mem; induction H as [|d ds Hd _ IH]; intros mem; simpl; [done|].
  rewrite (proj2 (Z.eqb_neq _ 0)) by lia; apply IH.
Qed.

(** The descriptors of moves whose sources end below the top of memory. *)
Lemma run_move_descriptors mvs mem :
  Forall (fun mv => frag_ok mv /\ f_src mv + f_len mv < 4294967296) mvs ->
  fold_left run_descriptor (map move_descriptor mvs) mem = run_moves mvs mem.
Proof.
  intros H; revert mem; induction H as [|mv mvs [Hok Hmv] _ IH]; intros mem; simpl; [done|].
  rewrite IH; unfold run_moves; f_equal.
  unfold run_descriptor, apply_move; cbn [d_dst d_src d_len move_descriptor].
  rewrite (proj2 (Z.eqb_neq (f_src mv) _)); [done|].
  unfold frag_ok in Hok; change (u32 (-1)) with 4294967295; lia.
Qed.

(** The descriptors of the zones to clear. *)
Lemma zero_descriptors_spec tl : forall s t lo prev,
  wf_from lo prev (Zone s t :: tl) -> t <> SMT_END -> 0 <= s -> 0 < s \/ (2 <= length tl)%nat \/ t <> SMT_ZERO ->
  exists n ds, count_zero (Zone s t :: tl) = Some n /\ zero_descriptors (Zone s t :: tl) = Some ds /\
    n = Z.of_nat (length ds) /\ Forall (fun d => 0 < d_len d) ds /\
    forall mem a,
      (s <= a < 4294967296 -> look t tl a = SMT_ZERO -> fold_left run_descriptor ds mem a = 0) /\
      (~ (s <= a < 4294967296 /\ look t tl a = SMT_ZERO) -> fold_left run_descriptor ds mem a = mem a).
Proof.
  induction tl as [|[s2 t2] tl IH]; intros s t lo prev H Ht Hs Hpart;
    inversion H as [|? ? ? ? ? ? ? ? Hw]; subst; try done; [inversion Hw|].
  destruct (zone_region s t _ _ _ H) as (nxt & tl' & [= <- <-] & Hreg); auto.
  destruct (Hreg _ eq_refl) as (He & Hn & Hflat); clear Hreg; cbn [z_start] in *.
  (* the rest of the zones *)
  assert (Hrest : exists n ds, count_zero (Zone s2 t2 :: tl) = Some n /\
    zero_descriptors (Zone s2 t2 :: tl) = Some ds /\ n = Z.of_nat (length ds) /\
    Forall (fun d => 0 < d_len d) ds /\ forall mem a,
      ((s2 ⊟ 1) < a < 4294967296 -> look t (Zone s2 t2 :: tl) a = SMT_ZERO ->
         fold_left run_descriptor ds mem a = 0) /\
      (~ ((s2 ⊟ 1) < a < 4294967296 /\ look t (Zone s2 t2 :: tl) a = SMT_ZERO) ->
         fold_left run_descriptor ds mem a = mem a)).
  { destruct (decide (t2 = SMT_END)) as [->|Ht2].
    - inversion Hw; subst; [|done]; exists 0, []; repeat split; auto.
      change (0 ⊟ 1) with 4294967295; lia.
    - inversion Hw; subst; [done|].
      destruct (IH s2 t2 s t) as (n & ds & ? & ? & ? & ? & Hv); auto; [lia|lia|].
      exists n, ds; repeat (split; [assumption|]); intros mem a; destruct (Hv mem a) as [V1 V2].
      split; intros Ha; [intros Hz; apply V1; [lia|now rewrite look_step in Hz by (auto; lia)]|].
      apply V2; intros [Hr Hz]; apply Ha; split; [lia|]; now rewrite look_step by (auto; lia). }
  destruct Hrest as (n & ds & Ec & Ed & Hlen & Hpos & Hv).
  remember (Zone s2 t2 :: tl) as l eqn:El; cbn [count_zero zero_descriptors].
  rewrite is_end_zone, Ec, Ed by auto; cbn [z_type z_start].
  case_bool_decide as Hz.
  - subst t l; cbn [z_start]; assert (Hlen0 : s2 ⊟ s = (s2 ⊟ 1) + 1 - s).
    { destruct Hpart as [?|[Htl|?]]; [ulia| |done]; destruct tl; simpl in Htl; [lia|].
      inversion Hw; subst; ulia. }
    exists (n + 1), (Desc s (u32 (-1)) (s2 ⊟ s) :: ds); rewrite Hlen0.
    split; [done|]; split; [done|]; split; [simpl; lia|]; split; [constructor; [simpl; lia|auto]|].
    intros mem a; cbn [fold_left]; set (mem1 := run_descriptor mem _).
    assert (Hm1 : mem1 a = if (s <=? a) && (a <? s + ((s2 ⊟ 1) + 1 - s)) then 0 else mem a) by reflexivity.
    destruct (Hv mem1 a) as [V1 V2]; split.
    + intros Ha Hza; destruct (Z.le_gt_cases a (s2 ⊟ 1)); [|apply V1; auto; lia].
      rewrite V2, Hm1 by lia; now zdec.
    + intros Hn'; rewrite V2, Hm1; [|intros [? ?]; apply Hn'; split; [lia|auto]].
      destruct (Z.leb_spec s a), (Z.ltb_spec a (s + ((s2 ⊟ 1) + 1 - s))); simpl; auto.
      destruct Hn'; split; [lia|apply Hflat; lia].
  - exists n, ds; do 4 (split; [auto|]); intros mem a; destruct (Hv mem a) as [V1 V2]; split.
    + intros Ha Hza; apply V1; [|auto]; split; [|lia].
      destruct (Z.lt_ge_cases (s2 ⊟ 1) a); [auto|]; rewrite Hflat in Hza by lia; contradiction.
    + intros Hn'; apply V2; intros [? ?]; apply Hn'; split; [lia|auto].
Qed.

(** *** The allocation loop *)

Lemma descaddr_spec size zone free blocks :
  0 <= zone -> zone + free <= 4294967296 -> 0 <= descmem size blocks <= zone + free ->
  zone <= descaddr_of size zone free blocks ->
  descaddr_of size zone free blocks + descmem size blocks <= zone + free.
Proof.
  intros Hz Hf Hd _; unfold descaddr_of.
  change (u32 (Z.lnot 3)) with (u32 (Z.lnot (u32 (2 ^ 2 - 1)))).
  fold (align_down (zone + free ⊟ descmem size blocks) (2 ^ 2)).
  rewrite align_down_spec by (unfold is_u32; ulia); change (2 ^ 2) with 4; ulia.
Qed.

Lemma blocks_for_spec n k : 0 <= n -> blocks_for n <= k -> n <= k * 256.
Proof. unfold blocks_for, DESC_BLOCK_SIZE; intros; Z.to_euclidean_division_equations; lia. Qed.

Lemma blocks_for_mono n k : n <= k -> blocks_for n <= blocks_for k.
Proof. unfold blocks_for, DESC_BLOCK_SIZE; intros; apply Z.div_le_mono; lia. Qed.

(** The map [rxmap] is [memmap] but for memory reserved in [[zone, zone + free)]. *)
Definition reserved_in (memmap rxmap : list Zonelist.zone) (zone free : Z) : Prop :=
  map_ok rxmap /\ forall a, 0 <= a < 4294967296 ->
    memmap_at rxmap a = memmap_at memmap a \/ within zone free a /\ memmap_at rxmap a = SMT_RESERVED.

(** The moves that are good for the map they were computed with, and the place
    of the table: inside the zone, large enough, and out of the moves' way. *)
Definition fit_post (size : Z) (fraglist : list frag) (memmap : list Zonelist.zone)
    (zone free nzero : Z) (mem : Z -> Z) (r : Z * list frag) : Prop :=
  let (descaddr, mvs) := r in
  (forall d x, (d, x) ∈ bytes fraglist -> run_moves mvs mem d = mem x) /\
  (forall a, ~ writable memmap fraglist a -> run_moves mvs mem a = mem a) /\
  Forall (fun mv => frag_ok mv /\
    forall a, within (f_src mv) (f_len mv) a -> writable memmap fraglist a) mvs /\
  zone <= descaddr /\ exists n, descaddr + n <= zone + free /\
    12 * (Z.of_nat (length mvs) + nzero + 1) + size <= n /\
    forall a, within descaddr n a -> run_moves mvs mem a = mem a.

Lemma wp_fit size fuel mfuel fraglist memmap zone free nzero mem :
  Forall frag_ok fraglist -> NoDup (bytes fraglist).*1 -> NoDup (bytes fraglist).*2 ->
  (length (bytes fraglist) <= mfuel)%nat -> 0 <= size -> 0 <= nzero ->
  0 <= zone -> zone + free <= 4294967296 ->
  (forall a, within zone free a -> a ∉ (bytes fraglist).*2) ->
  forall rxmap blocks m0,
  reserved_in memmap rxmap zone free -> 0 <= blocks ->
  blocks <= blocks_for (2 * Z.of_nat (length (bytes fraglist)) + nzero) ->
  (Z.to_nat (blocks_for (2 * Z.of_nat (length (bytes fraglist)) + nzero) - blocks) < fuel)%nat ->
  Mem.reliable m0 ->
  fit_aligned size fuel mfuel fraglist zone free nzero rxmap blocks m0 = true ->
  wp (fit size fuel mfuel fraglist zone free nzero rxmap blocks)
    (fit_post size fraglist memmap zone free nzero mem) True.
Proof.
  intros Hok Hn1 Hn2 Hmfuel Hsize Hnz Hz Hzf Hsrc; induction fuel as [|fuel IH];
    intros rxmap blocks m0 [Hrx Hrv] Hb Hbmax Hfuel Hm0 Hal; [lia|].
  cbn [fit fit_aligned] in *; cbv zeta in *; apply andb_true_iff in Hal as [Hal1 Hal].
  apply andb_true_iff in Hal1 as [Hmem Hsmall]; apply Z.leb_le in Hmem; apply Z.ltb_lt in Hsmall.
  destruct (Z.ltb_spec (descaddr_of size zone free blocks) zone) as [|Hge]; [now apply wp_bail|].
  cbn [orb] in Hal.
  assert (Hd : descmem size blocks = blocks * 12 * 256 + 12 + size)
    by (unfold descmem, sizeof_descriptor, DESC_BLOCK_SIZE in *; apply u32_small; lia).
  pose proof (descaddr_spec size zone free blocks Hz Hzf) as Hend; rewrite Hd in *.
  specialize (Hend ltac:(lia) Hge); set (addr := descaddr_of size zone free blocks) in *.
  destruct (add_memmap_set rxmap addr (blocks * 12 * 256 + 12 + size) SMT_RESERVED)
    as (rx1 & Hset & Hrun); auto; try lia; try discriminate.
  assert (Hrx1 : reserved_in memmap rx1 zone free).
  { split; [apply Hset|]; intros a Ha; destruct Hset as (_ & Hin & Hout).
    destruct (within_dec addr (blocks * 12 * 256 + 12 + size) a) as [Hw|Hw].
    - right; split; [unfold within in *; lia|auto].
    - rewrite Hout by auto; auto. }
  assert (Hres : forall a, within addr (blocks * 12 * 256 + 12 + size) a -> memmap_at rx1 a = SMT_RESERVED)
    by (intros a Ha; apply Hset; auto; unfold within in Ha; lia).
  assert (Hwr : forall a, writable rx1 fraglist a -> writable memmap fraglist a).
  { intros a [[Ha Hs]|Ha]; [left|right; auto]; split; [auto|].
    destruct Hrx1 as [_ Hv]; destruct (Hv a Ha) as [<-|[_ E]]; auto.
    rewrite E in Hs; destruct Hs; discriminate. }
  destruct (Hrun m0 Hm0) as (m1 & Erun & Hm1).
  assert (Eadd : forall m m', syslinux_add_memmap rxmap addr (blocks * 12 * 256 + 12 + size) SMT_RESERVED m
    = Some (0, rx1, m') -> add_freelist rxmap addr (blocks * 12 * 256 + 12 + size) SMT_RESERVED m = Some (Ret rx1, m'))
    by (intros m m' E; unfold add_freelist; now rewrite E).
  rewrite (Eadd _ _ Erun) in Hal; apply andb_true_iff in Hal as [Hal1 Hal2].
  apply wp_bind; exists (Ret rx1); split;
    [intros m Hm; destruct (Hrun m Hm) as (m' & E & Hm'); eauto|].
  assert (Hnospare : exists a, 0 <= a < 4294967296 /\ ~ spare (memmap_at rx1 a)).
  { exists addr; split; [lia|]; rewrite Hres by (unfold within; lia); intros [?|?]; discriminate. }
  destruct (wp_compute_movelist mem mfuel fraglist rx1 (proj1 Hrx1) Hnospare Hok Hn1 Hn2 Hmfuel Hal1)
    as (o & Hcomp & Ho).
  destruct (Hcomp m1 Hm1) as (m2 & E2 & Hm2); rewrite E2 in Hal2.
  apply wp_bind; exists o; split; [exact Hcomp|]; destruct o as [mvs|]; [|done].
  destruct Ho as (Hplaced & Hframe & Hcount & Hmvs).
  destruct (Z.leb_spec (blocks_for (Z.of_nat (length mvs) + nzero)) blocks) as [Hle|Hgt].
  - apply wp_ret; split; [auto|]; split; [intros a Ha; apply Hframe; auto|]; split.
    { eapply Forall_impl; [exact Hmvs|]; intros mv [? ?]; auto. }
    split; [auto|]; exists (blocks * 12 * 256 + 12 + size); split; [lia|]; split.
    + apply blocks_for_spec in Hle; lia.
    + intros a Ha; apply Hframe; intros [[_ Hs]|Hs].
      * rewrite Hres in Hs by auto; destruct Hs; discriminate.
      * apply (Hsrc a); [unfold within in *; lia|auto].
  - cbn [orb] in Hal2; apply (IH rx1 _ m2); auto.
    + lia.
    + apply blocks_for_mono; lia.
    + pose proof (blocks_for_mono (Z.of_nat (length mvs) + nzero)
        (2 * Z.of_nat (length (bytes fraglist)) + nzero)); lia.
Qed.

Lemma zero_descriptors_map memmap :
  map_ok memmap -> (exists a, 0 <= a < 4294967296 /\ ~ spare (memmap_at memmap a)) ->
  exists n ds, count_zero memmap = Some n /\ zero_descriptors memmap = Some ds /\
    n = Z.of_nat (length ds) /\ Forall (fun d => 0 < d_len d) ds /\
    forall mem a,
      (0 <= a < 4294967296 -> memmap_at memmap a = SMT_ZERO -> fold_left run_descriptor ds mem a = 0) /\
      (~ (0 <= a < 4294967296 /\ memmap_at memmap a = SMT_ZERO) ->
         fold_left run_descriptor ds mem a = mem a).
Proof.
  intros Hmap (b & Hb & Hns); destruct (map_ok_head memmap Hmap) as (t & tl & -> & Ht & Hw & Hv).
  assert (Hpart : 0 < 0 \/ (2 <= length tl)%nat \/ t <> SMT_ZERO).
  { right; destruct (decide (2 <= length tl)%nat) as [|Hlen]; [auto|right; intros ->].
    apply Hns; right; rewrite Hv by lia.
    now rewrite (single_zone _ _ _ _ _ Hw Ht Hlen). }
  destruct (zero_descriptors_spec tl 0 t (-1) SMT_END Hw Ht) as (n & ds & ? & ? & ? & ? & Hz); auto; [lia|].
  exists n, ds; repeat (split; [assumption|]); intros mem a; destruct (Hz mem a) as [Z1 Z2]; split.
  - intros Ha; rewrite Hv by lia; auto.
  - intros Hn; apply Z2; intros [Ha E]; apply Hn; split; [lia|]; now rewrite Hv by lia.
Qed.

(** What the table handed to the assembly shuffler has to be: it ends with the
    entry point, lies above 1 MB with room for the shuffler in memory that
    executing it leaves alone, and executing it brings every byte of every
    fragment to its place, clears the memory to be zeroed, and changes nothing
    else but writable memory. *)
Definition table_ok (shuffler_size : Z) (fraglist : list frag) (memmap : list Zonelist.zone)
    (entry_point entry_type : Z) (mem : Z -> Z) (table : Z * list descriptor) : Prop :=
  let (descaddr, ds) := table in
  let mem' := run_descriptors ds mem in
  last ds = Some (Desc entry_point entry_type 0) /\
  (forall f i, f ∈ fraglist -> 0 <= i < f_len f -> memmap_at memmap (f_dst f + i) <> SMT_ZERO ->
     mem' (f_dst f + i) = mem (f_src f + i)) /\
  (forall a, 0 <= a < 4294967296 -> memmap_at memmap a = SMT_ZERO -> mem' a = 0) /\
  (forall a, ~ writable memmap fraglist a -> mem' a = mem a) /\
  (forall a, descaddr <= a < descaddr + 12 * Z.of_nat (length ds) + shuffler_size ->
     1048576 <= a /\ mem' a = mem a).

Lemma wp_do_shuffle shuffler_size fuel mfuel fraglist memmap entry_point entry_type mem :
  input_ok fraglist memmap -> 0 <= shuffler_size -> ~ writable memmap fraglist 4294967295 ->
  (length (bytes fraglist) <= mfuel)%nat ->
  (forall n, count_zero memmap = Some n ->
     blocks_for (2 * Z.of_nat (length (bytes fraglist)) + n) < Z.of_nat fuel) ->
  shuffle_aligned shuffler_size fuel mfuel fraglist memmap = true ->
  wp (syslinux_do_shuffle shuffler_size fuel mfuel fraglist memmap entry_point entry_type)
     (table_ok shuffler_size fraglist memmap entry_point entry_type mem) True.
Proof.
  intros (Hmap & Hspare & Hok & Hn1 & Hn2) Hsize Htop Hmfuel Hfuel Hal.
  destruct (zero_descriptors_map memmap Hmap Hspare) as (n & zs & Ec & Ez & -> & Hzpos & Hzero).
  unfold syslinux_do_shuffle, shuffle_aligned in *; rewrite Ec in Hal.
  apply wp_bind; eapply wp_lift; [exact Ec|].
  destruct (wp_find_desczone fraglist memmap Hmap Hok) as (o & Hrun & Ho).
  destruct (Hrun Mem.always Mem.always_reliable) as (m1 & E1 & Hm1); rewrite E1 in Hal.
  apply wp_bind; exists o; split; [exact Hrun|]; destruct o as [[zone free]|]; [|done].
  destruct Ho as (Hz & Hf & Hzf & Hzone).
  destruct (wp_dup_memmap memmap (eq memmap) False eq_refl) as ([rx|] & Hdup & Ho); [subst rx|done].
  destruct (Hdup m1 Hm1) as (m2 & E2 & Hm2); rewrite E2 in Hal.
  apply wp_bind; exists (Ret memmap); split; [exact Hdup|].
  eapply wp_seq.
  { specialize (Hfuel _ Ec).
    apply (wp_fit shuffler_size fuel mfuel fraglist memmap zone free _ mem) with (m0 := m2); auto; try lia.
    - intros a Ha; now apply Hzone.
    - split; [auto|]; auto.
    - unfold blocks_for, DESC_BLOCK_SIZE; apply Z.div_pos; lia.
    - apply blocks_for_mono; lia.
    - pose proof (blocks_for_mono 0 (Z.of_nat (length zs)) ltac:(lia)).
      pose proof (blocks_for_mono 0 (2 * Z.of_nat (length (bytes fraglist)) + Z.of_nat (length zs)) ltac:(lia)).
      change (blocks_for 0) with 0 in *; lia. }
  intros [descaddr mvs] (Hplaced & Hframe & Hmvs & Hge & sz & Hend & Hroom & Hquiet).
  apply wp_bind; exists (Ret tt); split.
  { intros m3 Hm3; unfold alloc_dbuf; destruct (Mem.malloc m3) as [ok m4] eqn:E.
    apply Mem.malloc_reliable in E as [-> ?]; eauto. }
  apply wp_bind; eapply wp_lift; [exact Ez|]; apply wp_ret; cbv zeta.
  assert (Hmvs' : Forall (fun mv => frag_ok mv /\ f_src mv + f_len mv < 4294967296) mvs).
  { eapply Forall_impl; [exact Hmvs|]; intros mv [Hmv Hw]; split; [auto|].
    unfold frag_ok in Hmv; destruct (decide (f_src mv + f_len mv = 4294967296)); [|lia].
    destruct Htop; apply Hw; unfold within; lia. }
  assert (Hmem : run_descriptors (map move_descriptor mvs ++ zs ++ [Desc entry_point entry_type 0]) mem =
    fold_left run_descriptor zs (run_moves mvs mem)).
  { rewrite !run_descriptors_app, run_move_descriptors by
      (auto || (apply Forall_map; eapply Forall_impl; [exact Hmvs|]; intros mv [Hmv _]; unfold frag_ok in Hmv; simpl; lia)).
    reflexivity. }
  unfold table_ok; cbv zeta; rewrite Hmem; split; [now rewrite app_assoc, last_snoc|].
  assert (Hlen : length (map move_descriptor mvs ++ zs ++ [Desc entry_point entry_type 0]) =
    (length mvs + length zs + 1)%nat) by (rewrite !length_app, length_map; simpl; lia).
  split; [|split; [|split]].
  - intros f i Hfr Hi Hnz; rewrite (proj2 (Hzero _ _)) by tauto.
    apply Hplaced, list_elem_of_In, in_flat_map; exists f; split; apply list_elem_of_In; auto.
    apply elem_pairs; lia.
  - intros a Ha Hza; now apply Hzero.
  - intros a Ha; rewrite (proj2 (Hzero _ _)); [auto|].
    intros [Hr Hza]; apply Ha; left; split; [auto|now right].
  - intros a Ha; rewrite Hlen in Ha.
    assert (Hin : within zone free a) by (unfold within; lia).
    destruct (Hzone a Hin) as (Hlow & [Hr Hfree] & _); split; [auto|].
    rewrite (proj2 (Hzero _ _)) by (intros [_ E]; congruence).
    apply Hquiet; unfold within; lia.
Qed.

(** ** Properties *)


(** Four megabytes of memory, a page of it to be cleared. *)
Definition boot_map : list Zonelist.zone :=
  [Zone 0 SMT_FREE; Zone 8192 SMT_ZERO; Zone 12288 SMT_FREE; Zone 4194304 SMT_RESERVED; Zone 0 SMT_END].

Lemma boot_map_ok : map_ok boot_map.
Proof.
  split; [split; [repeat constructor; discriminate || lia|discriminate]|].
  intros a Ha; unfold memmap_at; simpl.
  destruct (0 <=? a), (8192 <=? a), (12288 <=? a), (4194304 <=? a); discriminate.
Qed.


(** The table of that boot: the eviction, the two moves, the page to clear and
    the entry point. *)
Example do_shuffle_ex :
  match syslinux_do_shuffle 512 2 4 demo_swap boot_map 4096 1 Mem.always with
  | Some (Ret (_, ds), _) => length ds = 5%nat
  | _ => False
  end.
Proof. vm_compute; reflexivity. Qed.

(** The map of the targets: the destinations are taken, the rest is as it was. *)
Lemma wp_target_memmap fraglist memmap :
  map_ok memmap -> Forall frag_ok fraglist ->
  wp (syslinux_target_memmap fraglist memmap) (fun l => map_ok l /\
    forall a, 0 <= a < 4294967296 -> memmap_at l a =
      if decide (a ∈ (bytes fraglist).*1) then SMT_ALLOC else memmap_at memmap a) True.
Proof.
  intros Hmap Hok; unfold syslinux_target_memmap; apply wp_bind, wp_dup_memmap.
  revert memmap Hmap; induction fraglist as [|f l IH]; intros mm Hmm; cbn [mark_destinations].
  - apply wp_ret; split; [auto|]; intros a Ha; now rewrite decide_False by (simpl; set_solver).
  - apply Forall_cons in Hok as [Hf Hok]; apply wp_bind.
    apply wp_add_freelist; try (unfold frag_ok in Hf; lia); auto; try discriminate.
    intros mm1 (Hmm1 & Hin & Hout); eapply wp_post; [apply IH; auto|].
    intros mm2 [Hmm2 Hv]; split; [auto|]; intros a Ha; rewrite Hv by auto.
    assert (He : a ∈ (bytes (f :: l)).*1 <-> within (f_dst f) (f_len f) a \/ a ∈ (bytes l).*1)
      by (rewrite bytes_cons, fmap_app, elem_of_app, elem_dsts; reflexivity).
    destruct (decide (a ∈ (bytes l).*1)) as [Hl|Hl]; [now rewrite decide_True by (apply He; auto)|].
    destruct (within_dec (f_dst f) (f_len f) a);
      [rewrite decide_True, Hin by (auto; apply He; auto)
      |rewrite decide_False, Hout by (auto; rewrite He; tauto)]; auto.
Qed.
