(* ===== verification/Bootsect.v ===== *)
(** * The installer's boot sector and ldlinux.sys patching

    libinstaller/syslxmod.c writes the sector map, the totals and the checksum
    into the image of ldlinux.sys; libinstaller/fs.c merges the boot code into
    a volume's boot sector and checks that the volume is one it can be
    installed on.  Images are lists of bytes; an access outside of one is
    undefined behaviour, [None] here. *)

From S2P Require Import Prelude.

(** ** Accesses *)

Definition put (off : nat) (bs img : list Z) : option (list Z) :=
  if (off + length bs <=? length img)%nat then Some (blit off bs img) else None.

Definition bytes_16 (v : Z) : list Z := [u8 v; u8 (v / 256)].
Definition bytes_64 (v : Z) : list Z := bytes_32 v ++ bytes_32 (v / 4294967296).

(** [src/libinstaller/syslxint.h:83-93 set_16] *)
Definition put_16 (off : nat) (v : Z) (img : list Z) : option (list Z) := put off (bytes_16 v) img.

Definition put_32 (off : nat) (v : Z) (img : list Z) : option (list Z) := put off (bytes_32 v) img.

(** [src/libinstaller/syslxint.h:107-117 set_64] *)
Definition put_64 (off : nat) (v : Z) (img : list Z) : option (list Z) := put off (bytes_64 v) img.

Definition fetch_16 (img : list Z) (off : nat) : option Z :=
  if (off + 2 <=? length img)%nat then Some (get_16 img off) else None.

Definition fetch_32 (img : list Z) (off : nat) : option Z :=
  if (off + 4 <=? length img)%nat then Some (get_32 img off) else None.

(** [src/libinstaller/syslxint.h:67-76 get_64] *)
Definition get_64 (mem : list Z) (off : nat) : Z :=
  get_32 mem off + 4294967296 * get_32 mem (off + 4).

Definition SECTOR_SIZE : Z := 512.

(** [src/libinstaller/syslxint.h:187-187 LDLINUX_MAGIC] *)
Definition LDLINUX_MAGIC : Z := 0x3eb202fe.

(** ** Sector extents *)

(** A run of consecutive sectors. *)
Record extent := Extent { e_lba : Z; e_len : Z }.

(** The extents in the order they are written, for the sectors [sectp] still
    to be taken, the current extent being [(lba, len)] loaded from [base] on.
    [src/libinstaller/syslxmod.c:47-80 generate_extents] *)
Fixpoint extents_from (addr base lba len : Z) (sectp : list Z) : list extent :=
  match sectp with
  | [] => if len =? 0 then [] else [Extent lba len]
  | sect :: sectp =>
      let xbytes := u32 ((len + 1) * SECTOR_SIZE) in
      if len =? 0 then extents_from (u32 (addr + SECTOR_SIZE)) addr sect 1 sectp
      else if (sect =? u64 (lba + len)) && (xbytes <? 65536) &&
              (Z.land (Z.lxor addr (u32 (base + xbytes - 1))) 0xffff0000 =? 0)
      then extents_from (u32 (addr + SECTOR_SIZE)) base lba (len + 1) sectp
      else Extent lba len :: extents_from (u32 (addr + SECTOR_SIZE)) addr sect 1 sectp
  end.

Definition sizeof_extent : nat := 10.

(** [src/libinstaller/syslxmod.c:63-65 generate_extents] *)
Fixpoint put_extents (ex : nat) (es : list extent) (img : list Z) : option (list Z) :=
  match es with
  | [] => Some img
  | e :: es =>
      let* img := put_64 ex (e_lba e) img in
      let* img := put_16 (ex + 8) (e_len e) img in
      put_extents (ex + sizeof_extent) es img
  end.

(** [src/libinstaller/syslxmod.c:35-81 generate_extents] *)
Definition generate_extents (ex nptrs : nat) (sectp : list Z) (img : list Z) : option (list Z) :=
  let* img := put ex (replicate (nptrs * sizeof_extent) 0) img in
  put_extents ex (extents_from 0x8000 0x8000 0 0 sectp) img.

(** ** Patching *)

(** The search for the patch area, [fuel] dwords from [wp] on.
    [src/libinstaller/syslxmod.c:124-127 syslinux_patch] *)
Fixpoint find_magic (fuel : nat) (img : list Z) (wp : nat) : option nat :=
  match fuel with
  | O => None
  | S fuel =>
      let* w := fetch_32 img wp in
      if w =? LDLINUX_MAGIC then Some wp else find_magic fuel img (wp + 4)
  end.

(** A string and its terminator, poked in where there is room: [inl] is the
    [exit(1)] of a string that is too long.
    [src/libinstaller/syslxmod.c:174-192 syslinux_patch] *)
Definition poke_string (off_p len_p : nat) (s : option (list Z)) (img : list Z)
  : option (unit + list Z) :=
  match s with
  | None => Some (inr img)
  | Some s =>
      let* len := fetch_16 img len_p in
      if len <? Z.of_nat (length s + 1) then Some (inl tt)
      else
        let* off := fetch_16 img off_p in
        let* img := put (Z.to_nat off) (s ++ [0]) img in
        Some (inr img)
  end.

(** [src/libinstaller/syslxmod.c:197-199 syslinux_patch] *)
Fixpoint csum_loop (img : list Z) (wp : nat) (dw : nat) (csum : Z) : Z :=
  match dw with
  | O => csum
  | S dw => csum_loop img (wp + 4) dw (u32 (csum - get_32 img wp))
  end.

Inductive patch_result :=
  | PatchFailed                                          (* the return value -1 *)
  | PatchExit                                            (* exit(1) *)
  | Patched (n : Z) (boot_sector boot_image : list Z).

(** The fields of the boot sector and of the patch area; [epa] is the address of
    the extended patch area.
    [src/libinstaller/syslxmod.c:131-152 syslinux_patch] *)
Definition put_totals (boot_sector img : list Z) (wp epa : nat) (sect0 nsect dw : Z)
    (stupid raid_mode : bool) : option (list Z * list Z) :=
  let* p0 := fetch_16 img (epa + 14) in
  let* boot_sector := put_32 (Z.to_nat p0) (u32 sect0) boot_sector in
  let* p1 := fetch_16 img (epa + 16) in
  let* boot_sector := put_32 (Z.to_nat p1) (u32 (Z.shiftr sect0 32)) boot_sector in
  let* boot_sector :=
    if raid_mode then
      let* raidpatch := fetch_16 img (epa + 18) in
      put_16 (Z.to_nat raidpatch) 0x18CD boot_sector
    else Some boot_sector in
  let* img := put_16 (wp + 8) (nsect - 2) img in
  let* img := put_16 (wp + 10) 2 img in
  let* img := put_32 (wp + 12) dw img in
  let* img := if stupid then put_16 (wp + 20) 1 img else Some img in
  Some (boot_sector, img).

(** The sector map: the extents and the two pointers to the ADVs.
    [src/libinstaller/syslxmod.c:154-172 syslinux_patch] *)
Definition put_map (img : list Z) (epa : nat) (sectp : list Z) (nsect : Z) : option (list Z) :=
  let* ex := fetch_16 img (epa + 10) in
  let* nptrs := fetch_16 img (epa + 12) in
  let* img := generate_extents (Z.to_nat ex) (Z.to_nat nptrs)
                (take (Z.to_nat (nsect - 1 - 2)) sectp) img in
  let* advptrs := fetch_16 img epa in
  let* a0 := sectp !! Z.to_nat (nsect - 1 - 2) in
  let* a1 := sectp !! Z.to_nat (nsect - 1 - 1) in
  let* img := put_64 (Z.to_nat advptrs) a0 img in
  put_64 (Z.to_nat advptrs + 8) a1 img.

(** [src/libinstaller/syslxmod.c:194-201 syslinux_patch] *)
Definition put_checksum (img : list Z) (wp dw : nat) : option (list Z) :=
  let* img := put_32 (wp + 16) 0 img in
  put_32 (wp + 16) (csum_loop img 0 dw LDLINUX_MAGIC) img.

(** [src/libinstaller/syslxmod.c:106-208 syslinux_patch] *)
Definition syslinux_patch (boot_sector boot_image : list Z) (sectp : list Z)
    (stupid raid_mode : bool) (subdir subvol : option (list Z)) : option patch_result :=
  let boot_image_len := Z.of_nat (length boot_image) in
  let nsect := Z.shiftr (boot_image_len + SECTOR_SIZE - 1) 9 + 2 in
  if Z.of_nat (length sectp) <? nsect then Some PatchFailed
  else
    let* wp := find_magic (length boot_image) boot_image 0 in
    let* epaoffset := fetch_16 boot_image (wp + 22) in
    let epa := Z.to_nat epaoffset in
    let* sect0 := sectp !! 0%nat in
    let dw := Z.shiftr boot_image_len 2 in
    let* (boot_sector, img) :=
      put_totals boot_sector boot_image wp epa sect0 nsect dw stupid raid_mode in
    let* img := put_map img epa (tail sectp) nsect in
    let* poked := poke_string (epa + 2) (epa + 4) subdir img in
    match poked with
    | inl _ => Some PatchExit
    | inr img =>
        let* poked := poke_string (epa + 6) (epa + 8) subvol img in
        match poked with
        | inl _ => Some PatchExit
        | inr img =>
            let* img := put_checksum img wp (Z.to_nat dw) in
            Some (Patched (Z.shiftl dw 2) boot_sector img)
        end
    end.

(** ** Boot sectors *)

(** [src/libinstaller/syslxfs.h:16-25 enum filesystem] *)
Inductive filesystem := NONE | EXT2 | BTRFS | VFAT | NTFS | XFS | UFS1 | UFS2.

(** The offsets of struct fat_boot_sector and struct ntfs_boot_sector.
    [src/libinstaller/syslxint.h:305-315 FAT_bsHeadLen] *)
Definition FAT_bsHeadLen : nat := 11.
Definition FAT_bsCode : nat := 90.
Definition FAT_bsCodeLen : nat := 420.
Definition NTFS_bsHeadLen : nat := 3.
Definition NTFS_bsCode : nat := 84.
Definition NTFS_bsCodeLen : nat := 426.

(** [src/libinstaller/fs.c:34-51 syslinux_make_bootsect] *)
Definition syslinux_make_bootsect (boot_sector bs : list Z) (fs_type : filesystem) : list Z :=
  match fs_type with
  | VFAT =>
      let bs := blit 0 (take FAT_bsHeadLen boot_sector) bs in
      blit FAT_bsCode (slice FAT_bsCode FAT_bsCodeLen boot_sector) bs
  | NTFS =>
      let bs := blit 0 (take NTFS_bsHeadLen boot_sector) bs in
      blit NTFS_bsCode (slice NTFS_bsCode NTFS_bsCodeLen boot_sector) bs
  | _ => bs
  end.

(** The error messages. *)
Inductive bs_error :=
  | impossible_cluster_size | negative_data_sectors | zero_FAT_sectors
  | zero_FAT_sectors_FAT12_16 | more_than_4084_claims_FAT12 | less_than_4084_claims_FAT16
  | less_than_65525_claims_FAT32 | filesystem_type_not_supported | missing_FAT32_signature
  | impossibly_large | unknown_OEM_name | invalid_media_signature
  | unsupported_sector_size | impossible_sector_size.

(** The bytes at an offset compared with a string. *)
Definition field_is (bs : list Z) (off : nat) (s : list Z) : bool :=
  bool_decide (slice off (length s) bs = s).

Definition FAT12 : list Z := [70; 65; 84; 49; 50; 32; 32; 32].
Definition FAT16 : list Z := [70; 65; 84; 49; 54; 32; 32; 32].
Definition FAT32 : list Z := [70; 65; 84; 51; 50; 32; 32; 32].
Definition FAT__ : list Z := [70; 65; 84; 32; 32; 32; 32; 32].
Definition NTFS__ : list Z := [78; 84; 70; 83; 32; 32; 32; 32].
Definition MSWIN40 : list Z := [77; 83; 87; 73; 78; 52; 46; 48].
Definition MSWIN41 : list Z := [77; 83; 87; 73; 78; 52; 46; 49].

(** The sectors of the volume, of its FATs, and the number of clusters the check
    computes from them.
    [src/libinstaller/fs.c:67-76 check_fat_bootsect] *)
Definition fat_sectors (bs : list Z) : Z :=
  let s := get_16 bs 19 in if s =? 0 then get_32 bs 32 else s.

Definition fat_fatsectors (bs : list Z) : Z :=
  let s := get_16 bs 22 in (if s =? 0 then get_32 bs 36 else s) * byte_at bs 16.

(** [src/libinstaller/fs.c:70-78 check_fat_bootsect] *)
Definition fat_dsectors (bs : list Z) : Z :=
  let sectorsize := get_16 bs 11 in
  let rootdirents := get_16 bs 17 in
  fat_sectors bs - get_16 bs 14 - fat_fatsectors bs
  - Z.quot (rootdirents + Z.quot sectorsize 32 - 1) sectorsize.

(** What the signature claims, against the number of clusters.
    [src/libinstaller/fs.c:92-125 check_fat_bootsect] *)
Definition check_fat_type (bs : list Z) (clusters : Z) : option bs_error :=
  if clusters <? 0xFFF5 then
    if get_16 bs 22 =? 0 then Some zero_FAT_sectors_FAT12_16
    else if byte_at bs 38 =? 0x29 then
      if field_is bs 54 FAT12 then
        if 0xFF5 <=? clusters then Some more_than_4084_claims_FAT12 else None
      else if field_is bs 54 FAT16 then
        if clusters <? 0xFF5 then Some less_than_4084_claims_FAT16 else None
      else if field_is bs 54 FAT32 then Some less_than_65525_claims_FAT32
      else if negb (field_is bs 54 FAT__) then Some filesystem_type_not_supported
      else None
    else None
  else if clusters <? 0x0FFFFFF5 then
    if negb (byte_at bs 66 =? 0x29) || negb (field_is bs 82 FAT32)
    then Some missing_FAT32_signature else None
  else Some impossibly_large.

(** [None] is a volume that is accepted.
    [src/libinstaller/fs.c:53-131 check_fat_bootsect] *)
Definition check_fat_bootsect (bs : list Z) : option bs_error :=
  let clustersize := byte_at bs 13 in
  if (clustersize =? 0) || negb (Z.land clustersize (clustersize - 1) =? 0)
  then Some impossible_cluster_size
  else if fat_dsectors bs <? 0 then Some negative_data_sectors
  else if fat_fatsectors bs =? 0 then Some zero_FAT_sectors
  else check_fat_type bs (Z.quot (fat_dsectors bs) clustersize).

(** [src/libinstaller/syslxint.h:318-323 ntfs_check_zero_fields] *)
Definition ntfs_check_zero_fields (sb : list Z) : bool :=
  (get_16 sb 14 =? 0) && (byte_at sb 16 =? 0) && (byte_at sb 17 =? 0) && (byte_at sb 18 =? 0) &&
  (get_16 sb 19 =? 0) && (get_16 sb 22 =? 0) && (get_32 sb 32 =? 0).

(** [src/libinstaller/fs.c:133-146 check_ntfs_bootsect] *)
Definition check_ntfs_bootsect (bs : list Z) : option bs_error :=
  if negb (field_is bs 3 NTFS__) && negb (field_is bs 3 MSWIN40) && negb (field_is bs 3 MSWIN41)
  then Some unknown_OEM_name else None.

(** The file system recognised, or the message.
    [src/libinstaller/fs.c:148-174 syslinux_check_bootsect] *)
Definition syslinux_check_bootsect (bs : list Z) : filesystem + bs_error :=
  let media_sig := byte_at bs 21 in
  if negb (media_sig =? 0xF0) && (media_sig <? 0xF8) then inr invalid_media_signature
  else
    let sectorsize := get_16 bs 11 in
    if sectorsize =? SECTOR_SIZE then
      if ntfs_check_zero_fields bs then
        match check_ntfs_bootsect bs with Some e => inr e | None => inl NTFS end
      else
        match check_fat_bootsect bs with Some e => inr e | None => inl VFAT end
    else if (512 <=? sectorsize) && (sectorsize <=? 4096) &&
            (Z.land sectorsize (sectorsize - 1) =? 0)
    then inr unsupported_sector_size
    else inr impossible_sector_size.

(** ** The sector map is the list of sectors *)

Definition expand (e : extent) : list Z :=
  map (fun i => u64 (e_lba e + i)) (seqZ 0 (e_len e)).

(** Two extents that follow each other are never one extent cut in two, unless
    the first has the greatest length there is. *)
Definition maximal (e1 e2 : extent) : Prop :=
  e_len e1 = 127 \/ e_lba e2 <> u64 (e_lba e1 + e_len e1).

Fixpoint all_maximal (es : list extent) : Prop :=
  match es with
  | e1 :: (e2 :: _) as es' => maximal e1 e2 /\ all_maximal es'
  | _ => True
  end.

(** The address of a sector and that of its last byte are in the same segment. *)
Lemma segment_test_passes a :
  0 <= a < 4294967296 -> (512 | a) -> Z.land (Z.lxor a (u32 (a + 511))) 0xffff0000 = 0.
Proof.
  intros Ha [c ->]; rewrite u32_small by lia.
  change 512 with (2 ^ 9); rewrite <- (lor_add c 511 9) by lia; change (2 ^ 9) with 512.
  assert (E : Z.land (c * 512) 511 = 0)
    by (change 511 with (Z.ones 9); rewrite Z.land_ones by lia;
        change (2 ^ 9) with 512; apply Z_mod_mult).
  rewrite <- Z.lxor_lor by exact E.
  now rewrite <- Z.lxor_assoc, Z.lxor_nilpotent, Z.lxor_0_l.
Qed.

Lemma next_sector a : (512 | a) -> (512 | u32 (a + SECTOR_SIZE)).
Proof.
  intros H; unfold u32, SECTOR_SIZE; apply Z.mod_divide; [lia|].
  rewrite <- Znumtheory.Zmod_div_mod by (try lia; now exists 8388608).
  apply Z.mod_divide; [lia|]; apply Z.divide_add_r; [done|now exists 1].
Qed.

Lemma expand_snoc lba len : 0 <= len ->
  expand (Extent lba (len + 1)) = expand (Extent lba len) ++ [u64 (lba + len)].
Proof.
  intros H; unfold expand; cbn [e_len e_lba].
  rewrite (seqZ_app 0 len 1), map_app by lia; f_equal.
Qed.

(** The extents written from a state of the loop on: they cover the current
    extent and the sectors to come, the current extent being the beginning of
    the first of them. *)
Lemma extents_from_spec sects : forall addr base lba len,
  (512 | base) -> 0 <= len <= 127 -> addr = u32 (base + len * 512) ->
  Forall (fun s => 0 <= s < 18446744073709551616) sects ->
  let es := extents_from addr base lba len sects in
  concat (map expand es) = expand (Extent lba len) ++ sects /\
  Forall (fun e => 0 < e_len e < 128) es /\ all_maximal es /\
  (0 < len -> exists e es', es = e :: es' /\ e_lba e = lba).
Proof.
  induction sects as [|s sects IH]; intros addr base lba len Hb Hl Ha Hs; cbn [extents_from].
  - destruct (Z.eqb_spec len 0) as [->|]; cbn -[expand].
    + repeat apply conj; auto; lia.
    + rewrite app_nil_r; repeat apply conj; auto; try lia.
      * repeat constructor; simpl; lia.
      * intros _; eexists _, []; split; [done|reflexivity].
  - apply Forall_cons in Hs as [Hs Hss].
    assert (Hdiv : (512 | addr)).
    { subst addr; unfold u32; apply Z.mod_divide; [lia|].
      rewrite <- Znumtheory.Zmod_div_mod by (try lia; now exists 8388608).
      apply Z.mod_divide; [lia|]; apply Z.divide_add_r; [done|now exists len]. }
    assert (Hfresh : u32 (addr + SECTOR_SIZE) = u32 (addr + 1 * 512)) by reflexivity.
    assert (Hone : expand (Extent s 1) = [s])
      by (unfold expand; cbn [e_len e_lba]; change (seqZ 0 1) with [0]; cbn [map];
          unfold u64; now rewrite Z.add_0_r, Z.mod_small by lia).
    destruct (IH (u32 (addr + SECTOR_SIZE)) addr s 1 Hdiv ltac:(lia) Hfresh Hss)
      as (H1 & H2 & H3 & H4).
    destruct (H4 ltac:(lia)) as (e & es' & Ee & He).
    destruct (Z.eqb_spec len 0) as [->|Hn].
    + repeat apply conj; auto; try lia.
      rewrite H1, Hone; reflexivity.
    + destruct ((s =? _) && _ && _) eqn:E.
      * bools. rewrite u32_small in * by (unfold SECTOR_SIZE; lia).
        destruct (IH (u32 (addr + SECTOR_SIZE)) base lba (len + 1)) as (K1 & K2 & K3 & K4);
          auto; try (unfold SECTOR_SIZE in *; lia).
        { subst addr; unfold SECTOR_SIZE; ulia. }
        repeat apply conj; auto; try lia.
        { rewrite K1, expand_snoc, <- app_assoc by lia; cbn [app]; congruence. }
        { intros _; apply K4; lia. }
      * repeat apply conj.
        { cbn [map concat]; rewrite H1, Hone; reflexivity. }
        { constructor; [simpl; lia|auto]. }
        { rewrite Ee in *; cbn; split; [|done]; unfold maximal; cbn [e_len e_lba]; rewrite He.
          destruct (Z.eq_dec len 127); [now left|right; intros ->].
          rewrite Z.eqb_refl in E; cbn [andb] in E.
          rewrite (u32_small ((len + 1) * SECTOR_SIZE)) in E by (unfold SECTOR_SIZE; lia).
          replace (u32 (base + (len + 1) * SECTOR_SIZE - 1)) with (u32 (addr + 511)) in E
            by (subst addr; unfold SECTOR_SIZE; ulia).
          rewrite segment_test_passes in E by (auto; subst addr; apply u32_range).
          bools; [unfold SECTOR_SIZE in *; lia|lia]. }
        { intros _; eexists _, _; split; reflexivity. }
Qed.

(** The extents that generate_extents writes for a list of sectors stand for
    exactly these sectors, in order; each is of 1 to 127 sectors (less than
    64 KB), and no two neighbours could have been one extent: the number of
    extents is the least possible. *)
Theorem extents_correct sects :
  Forall (fun s => 0 <= s < 18446744073709551616) sects ->
  let es := extents_from 0x8000 0x8000 0 0 sects in
  concat (map expand es) = sects /\ Forall (fun e => 0 < e_len e < 128) es /\ all_maximal es.
Proof.
  intros H es.
  assert (D : (512 | 0x8000)) by (now exists 64).
  assert (A : 0x8000 = u32 (0x8000 + 0 * 512)) by reflexivity.
  pose proof (extents_from_spec sects _ _ 0 0 D (conj (Z.le_refl 0) (ltac:(lia) : 0 <= 127)) A H)
    as (H1 & H2 & H3 & _).
  exact (conj H1 (conj H2 H3)).
Qed.

Lemma extents_correct_witness :
  extents_from 0x8000 0x8000 0 0 [100; 101; 102; 7; 8; 50] =
    [Extent 100 3; Extent 7 2; Extent 50 1] /\
  concat (map expand (extents_from 0x8000 0x8000 0 0 [100; 101; 102; 7; 8; 50])) =
    [100; 101; 102; 7; 8; 50].
Proof.
  split; [vm_compute; reflexivity|].
  refine (proj1 (extents_correct [100; 101; 102; 7; 8; 50] _)).
  repeat (constructor; [lia|]); constructor.
Defined.

(** The bytes an extent is loaded into, the sectors of those before it taking
    the addresses from [addr] on. *)
Fixpoint load_ranges (addr : Z) (es : list extent) : list (Z * Z) :=
  match es with
  | [] => []
  | e :: es => (addr, addr + e_len e * SECTOR_SIZE - 1)
                 :: load_ranges (addr + e_len e * SECTOR_SIZE) es
  end.

Definition same_segment (r : Z * Z) : bool := r.1 / 65536 =? r.2 / 65536.

(** The 64 KB test of generate_extents compares the first and the last byte of
    the one sector it adds, and so never fails: a file of 65 consecutive sectors
    is one extent, whose load addresses cross the boundary at 0x10000. *)
Theorem extent_crosses_64K :
  let es := extents_from 0x8000 0x8000 0 0 (map (fun i => 1000 + i) (seqZ 0 65)) in
  es = [Extent 1000 65] /\ load_ranges 0x8000 es = [(0x8000, 0x101ff)] /\
  forallb same_segment (load_ranges 0x8000 es) = false.
Proof. vm_compute; auto. Qed.

(** ** The checksum of the patched image *)

(** Goes through the binds of a computation that succeeded. *)
Ltac binds :=
  repeat match goal with
  | H : None = Some _ |- _ => discriminate H
  | H : Some _ = Some _ |- _ => apply Some_inj in H
  | H : (_, _) = (_, _) |- _ => apply pair_equal_spec in H as [? ?]
  | H : match ?m with Some _ => _ | None => None end = Some _ |- _ =>
      let E := fresh "E" in destruct m eqn:E; [|discriminate H]
  end.

Lemma length_put off bs img img' : put off bs img = Some img' -> length img' = length img.
Proof. unfold put; case_match; intros [= <-]; apply length_blit. Qed.

Lemma length_put_16 off v img img' : put_16 off v img = Some img' -> length img' = length img.
Proof. apply length_put. Qed.

Lemma length_put_32 off v img img' : put_32 off v img = Some img' -> length img' = length img.
Proof. apply length_put. Qed.

Lemma length_put_64 off v img img' : put_64 off v img = Some img' -> length img' = length img.
Proof. apply length_put. Qed.

(** Rewrites the lengths of images with those they were made from. *)
Ltac put_lengths :=
  repeat match goal with
  | H : put _ _ _ = Some _ |- _ => apply length_put in H
  | H : put_16 _ _ _ = Some _ |- _ => apply length_put_16 in H
  | H : put_32 _ _ _ = Some _ |- _ => apply length_put_32 in H
  | H : put_64 _ _ _ = Some _ |- _ => apply length_put_64 in H
  end.

Lemma length_put_extents es : forall ex img img',
  put_extents ex es img = Some img' -> length img' = length img.
Proof.
  induction es as [|e es IH]; intros ex img img' H; cbn [put_extents] in H; binds.
  - now subst.
  - apply IH in H; put_lengths; congruence.
Qed.

Lemma length_put_map img epa sectp nsect img' :
  put_map img epa sectp nsect = Some img' -> length img' = length img.
Proof.
  unfold put_map, generate_extents; intros H; binds.
  match goal with E : put_extents _ _ _ = Some _ |- _ => apply length_put_extents in E end.
  put_lengths; congruence.
Qed.

Lemma length_put_totals bsec img wp epa s n dw st rd bsec' img' :
  put_totals bsec img wp epa s n dw st rd = Some (bsec', img') ->
  length img' = length img /\ length bsec' = length bsec.
Proof.
  unfold put_totals; intros H; binds; subst.
  destruct st, rd; binds; put_lengths; subst; split; congruence.
Qed.

Lemma length_poke_string off_p len_p s img img' :
  poke_string off_p len_p s img = Some (inr img') -> length img' = length img.
Proof.
  unfold poke_string; destruct s; intros H; binds; try congruence.
  destruct (_ <? _); binds; try congruence; put_lengths; congruence.
Qed.

Lemma put_32_Some off v img img' :
  put_32 off v img = Some img' ->
  (off + 4 <= length img)%nat /\ img' = set_32 img off v.
Proof.
  unfold put_32, put; change (length (bytes_32 v)) with 4%nat.
  destruct (Nat.leb_spec (off + 4) (length img)); intros [= <-]; auto.
Qed.

Lemma set_set_32 mem off v w : set_32 (set_32 mem off v) off w = set_32 mem off w.
Proof.
  apply list_eq_same_length with (n := length mem); rewrite ?length_set_32; auto.
  intros i x y Hi; unfold set_32; rewrite !blit_lookup by (rewrite ?length_blit; auto).
  change (length (bytes_32 w)) with (length (bytes_32 v)).
  destruct (decide _); congruence.
Qed.

Lemma csum_loop_spec dw : forall img wp c, is_u32 c ->
  csum_loop img wp dw c = u32 (c - sum_words img wp dw).
Proof.
  induction dw as [|dw IH]; intros img wp c Hc; cbn [csum_loop sum_words].
  - now rewrite Z.sub_0_r, u32_small.
  - rewrite IH by apply u32_range; ulia.
Qed.

Lemma find_magic_aligned fuel : forall img wp wp',
  find_magic fuel img wp = Some wp' -> exists k, wp' = (wp + 4 * k)%nat.
Proof.
  induction fuel as [|fuel IH]; intros img wp wp' H; cbn [find_magic] in H; [discriminate|]; binds.
  destruct (_ =? _).
  - injection H as <-; exists 0%nat; lia.
  - apply IH in H as [k ->]; exists (S k); lia.
Qed.

Lemma put_checksum_sum img wp k dw img' :
  wp = (4 * k)%nat -> (k + 4 < dw)%nat -> put_checksum img wp dw = Some img' ->
  length img' = length img /\ sum_words img' 0 dw = LDLINUX_MAGIC.
Proof.
  unfold put_checksum; intros Hw Hk H; binds.
  apply put_32_Some in E as [Hlen ->]; apply put_32_Some in H as [_ ->].
  rewrite !length_set_32, set_set_32; split; [done|].
  rewrite csum_loop_spec by (unfold LDLINUX_MAGIC; ulia).
  replace (wp + 16)%nat with (0 + 4 * (k + 4))%nat in * by lia.
  rewrite (sum_words_set dw img 0 (k + 4) _ 0) by lia.
  set (s := sum_words _ 0 dw); pose proof (sum_words_range dw (set_32 img (0 + 4 * (k + 4)) 0) 0).
  fold s in H; unfold LDLINUX_MAGIC; ulia.
Qed.

(** Syslinux_patch answers the number of bytes of the complete dwords of the
    image, leaves the images their sizes, and the dwords of the patched image
    add up to LDLINUX_MAGIC, whatever fields, extents, ADV pointers and paths
    were written: this is the sum the loader verifies before it goes on. *)
Theorem patch_checksum bsec img sectp stupid raid subdir subvol n bsec' img' :
  syslinux_patch bsec img sectp stupid raid subdir subvol = Some (Patched n bsec' img') ->
  let dw := (length img / 4)%nat in
  n = 4 * Z.of_nat dw /\ length img' = length img /\ length bsec' = length bsec /\
  sum_words img' 0 dw = LDLINUX_MAGIC.
Proof.
  intros H dw; unfold syslinux_patch in H.
  destruct (Z.of_nat (length sectp) <? _) in H; [discriminate H|]; binds.
  destruct (find_magic_aligned _ _ _ _ E) as [k Ek].
  match goal with p : _ * _ |- _ => destruct p as [bsec1 img1] end; binds.
  match goal with E : put_totals _ _ _ _ _ _ _ _ _ = _ |- _ => apply length_put_totals in E as [L1 L2] end.
  match goal with E : put_map _ _ _ _ = _ |- _ => apply length_put_map in E end.
  destruct s as [|img2]; binds; [discriminate|].
  destruct s as [|img3]; binds; [discriminate|].
  repeat match goal with E : poke_string _ _ _ _ = _ |- _ => apply length_poke_string in E end.
  assert (Hdw : Z.to_nat (Z.shiftr (Z.of_nat (length img)) 2) = dw).
  { rewrite Z.shiftr_div_pow2 by lia; change (2 ^ 2) with (Z.of_nat 4).
    now rewrite <- Nat2Z.inj_div, Nat2Z.id. }
  injection H as <- <- <-.
  rewrite Hdw in *.
  assert (Hin : (n0 + 24 <= length img)%nat).
  { unfold fetch_16 in E0; destruct (Nat.leb_spec (n0 + 22 + 2) (length img)); [lia|discriminate]. }
  destruct (put_checksum_sum img3 n0 k dw l0) as [L3 S3]; [lia| |assumption|].
  { subst dw; subst n0; simpl in Hin; pose proof (Nat.div_mod_eq (length img) 4);
    pose proof (Nat.mod_upper_bound (length img) 4); lia. }
  repeat apply conj; try congruence.
  rewrite Z.shiftl_mul_pow2 by lia; rewrite <- Hdw, Z2Nat.id; [lia|].
  apply Z.shiftr_nonneg; lia.
Qed.

(** An image of two sectors with its patch area at 16 and its extended patch
    area at 512, whose fields point into the second sector. *)
Definition demo_image : list Z :=
  blit 512 (concat (map bytes_16 [540; 560; 16; 576; 16; 600; 8; 100; 104; 108]))
    (blit 38 (bytes_16 512) (blit 16 (bytes_32 LDLINUX_MAGIC) (replicate 1024 7))).

Definition demo_patch : option patch_result :=
  syslinux_patch (replicate 512 0) demo_image [5000; 5001; 5002; 5003] true true
    (Some [47; 98]) None.

Lemma patch_checksum_witness : exists n bsec img,
  demo_patch = Some (Patched n bsec img) /\ sum_words img 0 256 = LDLINUX_MAGIC.
Proof.
  destruct demo_patch as [[| |n bsec img]|] eqn:E; try (vm_compute in E; discriminate E).
  exists n, bsec, img; split; [reflexivity|].
  pose proof (patch_checksum _ _ _ _ _ _ _ _ _ _ E) as (_ & _ & _ & S).
  replace (length demo_image / 4)%nat with 256%nat in S by (vm_compute; reflexivity).
  exact S.
Defined.

(** ** Merging the boot code *)

Lemma get_16_ext (m1 m2 : list Z) off :
  (forall i, (off <= i < off + 2)%nat -> byte_at m1 i = byte_at m2 i) ->
  get_16 m1 off = get_16 m2 off.
Proof. intros H; unfold get_16; now rewrite !H by lia. Qed.

Lemma get_32_ext (m1 m2 : list Z) off :
  (forall i, (off <= i < off + 4)%nat -> byte_at m1 i = byte_at m2 i) ->
  get_32 m1 off = get_32 m2 off.
Proof. intros H; unfold get_32; now rewrite !(get_16_ext m1 m2) by (intros; apply H; lia). Qed.

Section agreement.
(** Two sectors with the same bytes from [lo] to [hi]. *)
Context (m1 m2 : list Z) (lo hi : nat).
Context (Hlen : length m1 = length m2) (Hhi : (hi <= length m1)%nat).
Context (Heq : forall i, (lo <= i < hi)%nat -> byte_at m1 i = byte_at m2 i).

Lemma field_is_ext off s :
  (lo <= off)%nat -> (off + length s <= hi)%nat -> field_is m1 off s = field_is m2 off s.
Proof.
  intros; unfold field_is; rewrite (slice_ext m1 m2); auto; try lia.
  intros; apply Heq; lia.
Qed.

Ltac agree :=
  repeat first
    [ rewrite (get_16_ext m1 m2) by (intros; apply Heq; lia)
    | rewrite (get_32_ext m1 m2) by (intros; apply Heq; lia)
    | rewrite field_is_ext by (simpl; lia)
    | rewrite Heq by lia ].

Lemma check_zero_ext :
  (lo <= 11)%nat -> (36 <= hi)%nat -> ntfs_check_zero_fields m1 = ntfs_check_zero_fields m2.
Proof. intros; unfold ntfs_check_zero_fields; agree; reflexivity. Qed.

Lemma check_ntfs_ext :
  (lo <= 3)%nat -> (11 <= hi)%nat -> check_ntfs_bootsect m1 = check_ntfs_bootsect m2.
Proof. intros; unfold check_ntfs_bootsect; agree; reflexivity. Qed.

Lemma check_fat_ext :
  (lo <= 11)%nat -> (90 <= hi)%nat -> check_fat_bootsect m1 = check_fat_bootsect m2.
Proof.
  intros; unfold check_fat_bootsect, check_fat_type, fat_dsectors, fat_sectors, fat_fatsectors.
  agree; reflexivity.
Qed.

Lemma check_bootsect_ext fs :
  (lo <= 11)%nat -> (36 <= hi)%nat ->
  (fs = VFAT -> (90 <= hi)%nat) -> (fs = NTFS -> (lo <= 3)%nat) ->
  syslinux_check_bootsect m2 = inl fs -> syslinux_check_bootsect m1 = inl fs.
Proof.
  intros Hl Hh Hv Hn; unfold syslinux_check_bootsect.
  rewrite check_zero_ext by auto; agree.
  repeat match goal with |- context [if ?b then _ else _] => destruct b; try discriminate end.
  - destruct (check_ntfs_bootsect m2) eqn:E; [discriminate|intros [= <-]].
    rewrite check_ntfs_ext, E by (auto; lia); reflexivity.
  - destruct (check_fat_bootsect m2) eqn:E; [discriminate|intros [= <-]].
    rewrite check_fat_ext, E by auto; reflexivity.
Qed.
End agreement.

(** The part of the sector that belongs to the volume, and where its boot code is. *)
Definition volume_bytes (fs : filesystem) : nat * nat :=
  match fs with VFAT => (11, 90)%nat | NTFS => (3, 84)%nat | _ => (0, 512)%nat end.

Definition code_range (fs : filesystem) : nat * nat :=
  match fs with VFAT => (90, 420)%nat | NTFS => (84, 426)%nat | _ => (0, 0)%nat end.

Lemma make_bootsect_bytes boot bs fs i :
  (510 <= length boot)%nat -> (510 <= length bs)%nat ->
  ((volume_bytes fs).1 <= i < (volume_bytes fs).2 \/ 510 <= i)%nat ->
  byte_at (syslinux_make_bootsect boot bs fs) i = byte_at bs i.
Proof.
  intros Hb Hs Hi; unfold syslinux_make_bootsect, FAT_bsHeadLen, NTFS_bsHeadLen, FAT_bsCode,
    FAT_bsCodeLen, NTFS_bsCode, NTFS_bsCodeLen.
  destruct fs; simpl in Hi; auto;
    rewrite !byte_at_blit_out; auto;
    unfold slice; rewrite ?length_take, ?length_drop; lia.
Qed.

Lemma length_make_bootsect boot bs fs :
  length (syslinux_make_bootsect boot bs fs) = length bs.
Proof. destruct fs; simpl; now rewrite ?length_blit. Qed.

(** A volume that syslinux_check_bootsect recognises as FAT or NTFS is still
    recognised, as the same, when syslinux_make_bootsect has merged the boot code
    into its boot sector: the code is there, and the volume's description and the
    signature at the end are as they were. *)
Theorem make_bootsect_recognised boot bs fs :
  length boot = 512%nat -> length bs = 512%nat -> syslinux_check_bootsect bs = inl fs ->
  let bs' := syslinux_make_bootsect boot bs fs in
  syslinux_check_bootsect bs' = inl fs /\
  slice (code_range fs).1 (code_range fs).2 bs' = slice (code_range fs).1 (code_range fs).2 boot /\
  (forall i, ((volume_bytes fs).1 <= i < (volume_bytes fs).2 \/ 510 <= i)%nat ->
     byte_at bs' i = byte_at bs i).
Proof.
  intros Hb Hs Hc; cbv zeta.
  assert (Hk : forall i, ((volume_bytes fs).1 <= i < (volume_bytes fs).2 \/ 510 <= i)%nat ->
    byte_at (syslinux_make_bootsect boot bs fs) i = byte_at bs i)
    by (intros; apply make_bootsect_bytes; auto; lia).
  assert (Hfs : fs = VFAT \/ fs = NTFS).
  { unfold syslinux_check_bootsect in Hc.
    repeat (case_match; try discriminate); injection Hc as <-; auto. }
  repeat apply conj; [| |exact Hk].
  - apply (check_bootsect_ext _ bs (volume_bytes fs).1 (volume_bytes fs).2); auto;
      rewrite ?length_make_bootsect; destruct Hfs as [-> | ->]; simpl; try lia; done.
  - destruct Hfs as [-> | ->]; apply slice_blit_slice;
      rewrite ?length_blit, ?Hs, ?Hb; vm_compute; lia.
Qed.

(** A boot sector with the given fields. *)
Definition demo_bootsect (fields : list (Z * list Z)) : list Z :=
  foldr (fun f => blit (Z.to_nat f.1) f.2) (replicate 512 0) fields.

(** A 720 KB diskette: 2 FATs of 3 sectors, 112 entries in the root directory. *)
Definition diskette : list Z :=
  demo_bootsect [(11, bytes_16 512); (13, [2]); (14, bytes_16 1); (16, [2]); (17, bytes_16 112);
    (19, bytes_16 1440); (21, [0xF9]); (22, bytes_16 3); (38, [0x29]); (54, FAT12)].

Lemma make_bootsect_recognised_witness :
  syslinux_check_bootsect diskette = inl VFAT /\
  syslinux_check_bootsect (syslinux_make_bootsect (replicate 512 0x90) diskette VFAT) = inl VFAT.
Proof.
  split; [vm_compute; reflexivity|].
  refine (proj1 (make_bootsect_recognised (replicate 512 0x90) diskette VFAT _ _ _));
    vm_compute; reflexivity.
Defined.

(** The sectors of the root directory as the FAT specification counts them,
    32 bytes an entry. *)
Definition root_sectors (bs : list Z) : Z :=
  (32 * get_16 bs 17 + get_16 bs 11 - 1) / get_16 bs 11.

Definition clusters_of (bs : list Z) : Z :=
  (fat_sectors bs - get_16 bs 14 - fat_fatsectors bs - root_sectors bs) / byte_at bs 13.

(** 4141 sectors, 2 FATs of 12 sectors and 512 entries in the root directory:
    4084 clusters of one sector, which is FAT12. *)
Definition largest_fat12 : list Z :=
  demo_bootsect [(11, bytes_16 512); (13, [1]); (14, bytes_16 1); (16, [2]); (17, bytes_16 512);
    (19, bytes_16 4141); (21, [0xF8]); (22, bytes_16 12); (38, [0x29]); (54, FAT12)].

(** Check_fat_bootsect divides the entries of the root directory by the sector
    size, not by the entries of a sector, and counts 1 sector for a directory of
    32: a FAT12 volume of 4084 clusters is refused as too large for FAT12. *)
Theorem fat12_refused :
  clusters_of largest_fat12 = 4084 /\ root_sectors largest_fat12 = 32 /\
  syslinux_check_bootsect largest_fat12 = inr more_than_4084_claims_FAT12.
Proof. vm_compute; auto. Qed.
