(* ===== verification/Libfat.v ===== *)
(** * Reading FAT volumes: libfat

    The library the installers use to find the sectors of ldlinux.sys in a FAT
    volume.  The caller's read function is a parameter, [disk]: the 512 bytes of
    a sector, or [None] for a read that fails.  A filesystem carries the cache of
    the sectors read so far; the functions thread it and the allocator. *)

From S2P Require Import Prelude.

Definition LIBFAT_SECTOR_SIZE : nat := 512.

(** [(libfat_sector_t) -1] *)
Definition SECTOR_ERROR : Z := 18446744073709551615.

(** [src/libfat/libfatint.h:31-35 enum fat_type] *)
Inductive fat_type_t := FAT12 | FAT16 | FAT28.

(** [src/libfat/libfatint.h:37-53 struct libfat_filesystem] *)
Record filesystem := Fs {
  fat_type : fat_type_t;
  clustsize : Z;
  clustshift : Z;
  endcluster : Z;
  rootcluster : Z;
  fat : Z;
  rootdir : Z;
  data : Z;
  fend : Z;
  sectors : list (Z * list Z)
}.

Definition set_sectors (l : list (Z * list Z)) (fs : filesystem) : filesystem :=
  Fs (fat_type fs) (clustsize fs) (clustshift fs) (endcluster fs) (rootcluster fs)
    (fat fs) (rootdir fs) (data fs) (fend fs) l.

Section volume.
Variable disk : Z -> option (list Z).

(** ** The cache *)

(** [src/libfat/cache.c:54-65 libfat_flush] *)
Definition libfat_flush (fs : filesystem) : filesystem := set_sectors [] fs.

(** A structure for a sector, flushing the cache when there is no memory.
    [src/libfat/cache.c:31-39 libfat_get_sector] *)
Definition new_sector (fs : filesystem) (m : Mem.t) : bool * filesystem * Mem.t :=
  let (ok, m) := Mem.malloc m in
  if ok then (true, fs, m)
  else
    let fs := libfat_flush fs in
    let (ok, m) := Mem.malloc m in
    (ok, fs, m).

(** [src/libfat/cache.c:22-52 libfat_get_sector] *)
Definition libfat_get_sector (n : Z) (fs : filesystem) (m : Mem.t)
  : option (list Z) * filesystem * Mem.t :=
  match find (fun ls => ls.1 =? n) (sectors fs) with
  | Some ls => (Some ls.2, fs, m)
  | None =>
      let '(ok, fs, m) := new_sector fs m in
      if ok then
        match disk n with
        | Some d => (Some d, set_sectors ((n, d) :: sectors fs) fs, m)
        | None => (None, fs, m)
        end
      else (None, fs, m)
  end.

(** ** Clusters *)

(** [src/libfat/fatchain.c:26-38 libfat_clustertosector] *)
Definition libfat_clustertosector (fs : filesystem) (cluster : Z) : Z :=
  let cluster := if cluster =? 0 then rootcluster fs else cluster in
  if cluster =? 0 then rootdir fs
  else if (cluster <? 2) || (endcluster fs <=? cluster) then SECTOR_ERROR
  else u64 (data fs + u64 (Z.shiftl (cluster - 2) (clustshift fs))).

(** The sector of the FAT that holds the byte at an offset.
    [src/libfat/fatchain.c:78-79 libfat_nextsector] *)
Definition fat_sector (fs : filesystem) (fatoffset : Z) : Z :=
  u64 (fat fs + Z.shiftr fatoffset 9).

(** [src/libfat/fatchain.c:75-97 libfat_nextsector] *)
Definition next_fat12 (cluster : Z) (fs : filesystem) (m : Mem.t)
  : option Z * filesystem * Mem.t :=
  let fatoffset := u32 (cluster + Z.shiftr cluster 1) in
  let '(d, fs, m) := libfat_get_sector (fat_sector fs fatoffset) fs m in
  match d with
  | None => (None, fs, m)
  | Some d =>
      let low := byte_at d (Z.to_nat (Z.land fatoffset 511)) in
      let fatoffset := u32 (fatoffset + 1) in
      let '(d, fs, m) := libfat_get_sector (fat_sector fs fatoffset) fs m in
      match d with
      | None => (None, fs, m)
      | Some d =>
          let next := Z.lor low (Z.shiftl (byte_at d (Z.to_nat (Z.land fatoffset 511))) 8) in
          (Some (if Z.testbit cluster 0 then Z.shiftr next 4 else Z.land next 0xFFF), fs, m)
      end
  end.

(** [src/libfat/fatchain.c:102-110 libfat_nextsector] *)
Definition next_fat16 (cluster : Z) (fs : filesystem) (m : Mem.t)
  : option Z * filesystem * Mem.t :=
  let fatoffset := u32 (Z.shiftl cluster 1) in
  let '(d, fs, m) := libfat_get_sector (fat_sector fs fatoffset) fs m in
  match d with
  | None => (None, fs, m)
  | Some d => (Some (get_16 d (Z.to_nat (Z.land fatoffset 511))), fs, m)
  end.

(** [src/libfat/fatchain.c:115-123 libfat_nextsector] *)
Definition next_fat28 (cluster : Z) (fs : filesystem) (m : Mem.t)
  : option Z * filesystem * Mem.t :=
  let fatoffset := u32 (Z.shiftl cluster 2) in
  let '(d, fs, m) := libfat_get_sector (fat_sector fs fatoffset) fs m in
  match d with
  | None => (None, fs, m)
  | Some d => (Some (Z.land (get_32 d (Z.to_nat (Z.land fatoffset 511))) 0x0FFFFFFF), fs, m)
  end.

(** The first entry that ends a chain, of each size. [src/libfat/fatchain.c:98-99 libfat_nextsector] *)
Definition end_mark (t : fat_type_t) : Z :=
  match t with FAT12 => 0x0FF8 | FAT16 => 0x0FFF8 | FAT28 => 0x0FFFFFF8 end.

(** [0] is the end of the file.
    [src/libfat/fatchain.c:45-134 libfat_nextsector] *)
Definition libfat_nextsector (s : Z) (fs : filesystem) (m : Mem.t) : Z * filesystem * Mem.t :=
  if s <? data fs then
    if s <? rootdir fs then (SECTOR_ERROR, fs, m)
    else let s := s + 1 in ((if s <? data fs then s else 0), fs, m)
  else
    let rs := s - data fs in
    if negb (Z.land (Z.lnot rs) (clustsize fs - 1) =? 0) then (u64 (s + 1), fs, m)
    else
      let cluster := s32 (2 + Z.shiftr rs (clustshift fs)) in
      if endcluster fs <=? cluster then (SECTOR_ERROR, fs, m)
      else
        let '(next, fs, m) :=
          match fat_type fs with
          | FAT12 => next_fat12 cluster fs m
          | FAT16 => next_fat16 cluster fs m
          | FAT28 => next_fat28 cluster fs m
          end in
        match next with
        | None => (SECTOR_ERROR, fs, m)
        | Some next =>
            if end_mark (fat_type fs) <=? next then (0, fs, m)
            else (libfat_clustertosector fs next, fs, m)
        end.

(** ** Opening a volume *)

(** The cluster size as a power of two; 0 stands for 256 sectors.
    [src/libfat/open.c:49-56 libfat_open] *)
Fixpoint find_clustshift (fuel : nat) (i secperclust : Z) : option Z :=
  match fuel with
  | O => None
  | S fuel =>
      if u8 (Z.shiftl 1 i) =? secperclust then Some i
      else find_clustshift fuel (i + 1) secperclust
  end.

(** The layout of the volume a boot sector describes.
    [src/libfat/open.c:46-103 libfat_open] *)
Definition read_geometry (bs : list Z) (cache : list (Z * list Z)) : option filesystem :=
  if negb (get_16 bs 11 =? 512) then None
  else
    let* i := find_clustshift 9 0 (byte_at bs 13) in
    let sectors := get_16 bs 19 in
    let sectors := if sectors =? 0 then get_32 bs 32 else sectors in
    let fat := get_16 bs 14 in
    let fatsize := get_16 bs 22 in
    let fatsize := if fatsize =? 0 then get_32 bs 36 else fatsize in
    let rootdir := fat + u32 (fatsize * byte_at bs 16) in
    let rootdirsize := Z.shiftr (Z.shiftl (get_16 bs 17) 5 + 511) 9 in
    let data := rootdir + rootdirsize in
    if sectors <=? data then None
    else
      let nclusters := u32 (Z.shiftr (sectors - data) i) in
      let endcluster := s32 (nclusters + 2) in
      let* (t, minfatsize) :=
        if nclusters <=? 0xff4 then Some (FAT12, endcluster + Z.shiftr endcluster 1)
        else if nclusters <=? 0xfff4 then Some (FAT16, Z.shiftl endcluster 1)
        else if nclusters <=? 0xffffff4 then Some (FAT28, Z.shiftl endcluster 2)
        else None in
      let minfatsize := Z.shiftr (u32 (minfatsize + 512 - 1)) 9 in
      if fatsize <? minfatsize then None
      else
        let rootcluster := match t with FAT28 => s32 (get_32 bs 44) | _ => 0 end in
        Some (Fs t (Z.shiftl 1 i) i endcluster rootcluster fat rootdir data sectors cache).

(** A filesystem whose only use is to read the boot sector through the cache. *)
Definition no_geometry : filesystem := Fs FAT12 0 0 0 0 0 0 0 0 [].

(** [src/libfat/open.c:24-111 libfat_open] *)
Definition libfat_open (m : Mem.t) : option filesystem * Mem.t :=
  let (ok, m) := Mem.malloc m in
  if negb ok then (None, m)
  else
    let '(bs, fs, m) := libfat_get_sector 0 no_geometry m in
    match bs with
    | None => (None, m)
    | Some bs => (read_geometry bs (sectors fs), m)
    end.

(** ** Directories *)

(** The [libfat_direntry] filled in. *)
Record direntry := Dirent { d_sector : Z; d_offset : Z; d_entry : list Z }.

(** The first cluster of the file, by its directory entry.
    [src/libfat/searchdir.c:49-53 libfat_searchdir] *)
Definition entry_cluster (e : list Z) : Z :=
  if get_32 e 28 =? 0 then 0 else s32 (get_16 e 26 + Z.shiftl (get_16 e 20) 16).

Inductive search_result :=
  | Found (cluster : Z) (e : direntry)
  | NotFound                              (** -2 *)
  | SearchError.                          (** -1 *)

(** The entries of one sector; [None] is to go on with the next sector.
    [src/libfat/searchdir.c:41-60 libfat_searchdir] *)
Fixpoint search_sector (fuel : nat) (s : Z) (nent : nat) (name dep : list Z)
  : option search_result :=
  match fuel with
  | O => None
  | S fuel =>
      let e := take 32 dep in
      if bool_decide (take 11 e = name) then
        Some (Found (entry_cluster e) (Dirent s (Z.of_nat nent) e))
      else if byte_at e 0 =? 0 then Some NotFound
      else search_sector fuel s (nent + 32) name (drop 32 dep)
  end.

(** [None] is fuel exhausted.
    [src/libfat/searchdir.c:31-63 libfat_searchdir] *)
Fixpoint search_loop (fuel : nat) (s : Z) (name : list Z) (fs : filesystem) (m : Mem.t)
  : option (search_result * filesystem * Mem.t) :=
  match fuel with
  | O => None
  | S fuel =>
      if s =? 0 then Some (NotFound, fs, m)
      else if s =? SECTOR_ERROR then Some (SearchError, fs, m)
      else
        let '(d, fs, m) := libfat_get_sector s fs m in
        match d with
        | None => Some (SearchError, fs, m)
        | Some d =>
            match search_sector 16 s 0 name d with
            | Some r => Some (r, fs, m)
            | None =>
                let '(s, fs, m) := libfat_nextsector s fs m in
                search_loop fuel s name fs m
            end
        end
  end.

(** [src/libfat/searchdir.c:24-64 libfat_searchdir] *)
Definition libfat_searchdir (fuel : nat) (dirclust : Z) (name : list Z) (fs : filesystem)
    (m : Mem.t) : option (search_result * filesystem * Mem.t) :=
  search_loop fuel (libfat_clustertosector fs dirclust) name fs m.

(** ** The cache is transparent *)

Definition coherent (fs : filesystem) : Prop :=
  forall n d, (n, d) ∈ sectors fs -> disk n = Some d.

(** The same volume, whatever is cached of it. *)
Definition same_volume (fs fs' : filesystem) : Prop := set_sectors [] fs = set_sectors [] fs'.

Lemma same_volume_refl fs : same_volume fs fs.
Proof. reflexivity. Qed.

Lemma same_volume_trans a b c : same_volume a b -> same_volume b c -> same_volume a c.
Proof. unfold same_volume; congruence. Qed.

Lemma new_sector_spec fs m ok fs' m' :
  new_sector fs m = (ok, fs', m') -> coherent fs ->
  coherent fs' /\ same_volume fs fs' /\ (Mem.reliable m -> ok = true /\ Mem.reliable m').
Proof.
  unfold new_sector; intros H Hc; destruct (Mem.malloc m) as [ok1 m1] eqn:E1.
  destruct ok1.
  - injection H as <- <- <-; split; [done|]; split; [done|].
    intros Hr; eapply Mem.malloc_reliable; eauto.
  - destruct (Mem.malloc m1) as [ok2 m2] eqn:E2; injection H as <- <- <-.
    split; [intros n d Hin; cbn in Hin; set_solver|]; split; [done|].
    intros Hr; destruct (Mem.malloc_reliable _ _ _ Hr E1); discriminate.
Qed.

(** What reading a sector does: [x] is the answer, [None] for NULL. *)
Definition reads (n : Z) (fs : filesystem) (m : Mem.t) (x : option (list Z))
    (fs' : filesystem) (m' : Mem.t) : Prop :=
  coherent fs' /\ same_volume fs fs' /\
  (forall d, x = Some d -> disk n = Some d) /\
  (Mem.reliable m -> x = disk n /\ Mem.reliable m').

Lemma get_sector_reads n fs m x fs' m' :
  libfat_get_sector n fs m = (x, fs', m') -> coherent fs -> reads n fs m x fs' m'.
Proof.
  unfold libfat_get_sector; intros H Hc.
  destruct (find _ (sectors fs)) as [[n0 d0]|] eqn:Ef.
  - apply find_some in Ef as [Hin E]; apply Z.eqb_eq in E; cbn in E; subst n0.
    injection H as <- <- <-; apply list_elem_of_In in Hin.
    pose proof (Hc _ _ Hin) as Hd; unfold reads; rewrite Hd.
    split; [done|split; [apply same_volume_refl|split; [congruence|auto]]].
  - destruct (new_sector fs m) as [[ok fs1] m1] eqn:En.
    destruct (new_sector_spec _ _ _ _ _ En Hc) as (Hc1 & Hv & Hr).
    destruct ok; [destruct (disk n) as [d|] eqn:Ed|]; injection H as <- <- <-; unfold reads;
      rewrite ?Ed; (split; [|split; [exact Hv|split]]); auto; try discriminate;
      try (intros Hrel; destruct (Hr Hrel); split; [reflexivity || discriminate|done]).
    intros k dk; cbn; rewrite elem_of_cons; intros [E|Hin]; [congruence|auto].
Qed.

(** ** The FAT as an array of bits *)

Definition width (t : fat_type_t) : Z := match t with FAT12 => 12 | FAT16 => 16 | FAT28 => 32 end.

(** The bits of an entry that count. *)
Definition used (t : fat_type_t) : Z := match t with FAT12 => 12 | FAT16 => 16 | FAT28 => 28 end.

Definition fat_byte (fs : filesystem) (i : Z) : Z :=
  match disk (fat fs + i / 512) with
  | Some d => byte_at d (Z.to_nat (i mod 512))
  | None => 0
  end.

(** The bits of the FAT, the low bits of each byte first. *)
Definition fat_bit (fs : filesystem) (b : Z) : bool := Z.testbit (fat_byte fs (b / 8)) (b mod 8).

(** [e] is the entry of the cluster [c]: the array has entries of [width] bits,
    one after the other. *)
Definition is_entry (fs : filesystem) (c e : Z) : Prop :=
  0 <= e < 2 ^ used (fat_type fs) /\
  forall j, 0 <= j < used (fat_type fs) ->
    Z.testbit e j = fat_bit fs (width (fat_type fs) * c + j).

Lemma testbit_join a b n j :
  0 <= n -> 0 <= a < 2 ^ n -> 0 <= j ->
  Z.testbit (a + 2 ^ n * b) j = if j <? n then Z.testbit a j else Z.testbit b (j - n).
Proof.
  intros Hn Ha Hj; rewrite Z.add_comm, Z.mul_comm, <- lor_add, Z.lor_spec by lia.
  destruct (Z.ltb_spec j n).
  - now rewrite Z.mul_pow2_bits_low.
  - rewrite Z.mul_pow2_bits by lia.
    rewrite <- (Z.mod_small a (2 ^ n)), Z.mod_pow2_bits_high by lia; apply orb_false_r.
Qed.

Lemma get_16_bit d o j : Forall is_byte d -> 0 <= j ->
  Z.testbit (get_16 d o) j =
    if j <? 8 then Z.testbit (byte_at d o) j else Z.testbit (byte_at d (o + 1)) (j - 8).
Proof.
  intros Hd Hj; unfold get_16; change 256 with (2 ^ 8).
  apply testbit_join; try lia; apply byte_range, Hd.
Qed.

Lemma get_32_bit d o j : Forall is_byte d -> 0 <= j ->
  Z.testbit (get_32 d o) j =
    if j <? 16 then Z.testbit (get_16 d o) j else Z.testbit (get_16 d (o + 2)) (j - 16).
Proof.
  intros Hd Hj; unfold get_32; change 65536 with (2 ^ 16).
  apply testbit_join; try lia; apply get_16_range, Hd.
Qed.

Hypothesis disk_ok : forall n d, disk n = Some d -> length d = 512%nat /\ Forall is_byte d.

(** ** The layout of a volume *)

Record geometry (fs : filesystem) : Prop := {
  geo_shift : 0 <= clustshift fs <= 8 /\ clustsize fs = 2 ^ clustshift fs;
  geo_layout : 0 <= fat fs <= rootdir fs /\ rootdir fs <= data fs < fend fs;
  geo_end : fend fs < 4294967296;
  geo_clusters : 2 <= endcluster fs <= 268435446 /\
    data fs + (endcluster fs - 2) * clustsize fs <= fend fs;
  geo_fat : fat fs < 65536;
  geo_root : -2147483648 <= rootcluster fs < 2147483648
}.

(** The sector of a byte of the FAT. *)
Lemma fat_sector_at fs i :
  geometry fs -> 0 <= i < 4294967296 -> fat_sector fs i = fat fs + i / 512.
Proof.
  intros G Hi; pose proof (geo_fat _ G); pose proof (geo_layout _ G).
  unfold fat_sector, u64; rewrite Z.shiftr_div_pow2 by lia; change (2 ^ 9) with 512.
  apply Z.mod_small; Z.to_euclidean_division_equations; lia.
Qed.

Lemma land_511 i : Z.land i 511 = i mod 512.
Proof. change 511 with (Z.ones 9); now rewrite Z.land_ones. Qed.

Lemma fat_byte_volume fs fs' i : same_volume fs fs' -> fat_byte fs' i = fat_byte fs i.
Proof. unfold same_volume; destruct fs, fs'; intros [=]; subst; reflexivity. Qed.

Lemma geometry_volume fs fs' : same_volume fs fs' -> geometry fs -> geometry fs'.
Proof.
  unfold same_volume; destruct fs, fs'; intros [=] [? ? ? ? ? ?]; subst; split; auto.
Qed.

(** The fields the three kinds of FAT read at a byte offset. *)
Lemma fat_byte_read fs i d : disk (fat fs + i / 512) = Some d ->
  byte_at d (Z.to_nat (i mod 512)) = fat_byte fs i.
Proof. intros H; unfold fat_byte; now rewrite H. Qed.

Lemma same_sector i k n : 0 <= i -> 0 <= k < n -> (n | 512) -> (n | i) -> 
  (i + k) / 512 = i / 512 /\ (i + k) mod 512 = i mod 512 + k.
Proof.
  intros Hi Hk [a Ha] [b Hb].
  assert (i mod 512 + k < 512).
  { assert (0 < n) by lia; assert (0 < a) by nia.
    rewrite Ha, Hb, Z.mul_mod_distr_r by lia.
    pose proof (Z.mod_pos_bound b a); nia. }
  pose proof (Z.div_mod i 512); pose proof (Z.mod_pos_bound i 512).
  split; symmetry; [apply (Z.div_unique_pos _ _ _ (i mod 512 + k))|apply (Z.mod_unique_pos _ _ (i / 512))]; lia.
Qed.

(** Every sector that holds bits of the entries can be read. *)
Definition fat_readable (fs : filesystem) : Prop :=
  forall b, 0 <= b < width (fat_type fs) * endcluster fs -> disk (fat fs + b / 8 / 512) <> None.

(** What reading the entry of a cluster does. *)
Definition entry_read (fs : filesystem) (c : Z) (m : Mem.t) (x : option Z)
    (fs' : filesystem) (m' : Mem.t) : Prop :=
  coherent fs' /\ same_volume fs fs' /\
  (forall e, x = Some e -> is_entry fs c e) /\
  (Mem.reliable m -> fat_readable fs -> x <> None /\ Mem.reliable m').

(** One sector of the FAT is read, and [f] makes the entry of it. *)
Lemma one_sector_entry fs c m i x fs' m' d f :
  geometry fs -> coherent fs -> 0 <= c < endcluster fs ->
  0 <= i < 4294967296 -> width (fat_type fs) * c <= 8 * i < width (fat_type fs) * (c + 1) ->
  libfat_get_sector (fat_sector fs i) fs m = (d, fs', m') ->
  x = option_map f d ->
  (forall d, disk (fat fs + i / 512) = Some d -> is_entry fs c (f d)) ->
  entry_read fs c m x fs' m'.
Proof.
  intros G Hc Hcl Hi Hb E -> Hf; rewrite fat_sector_at in E by auto.
  apply get_sector_reads in E as (Hc' & Hv & Hd & Hr); auto.
  split; [done|]; split; [done|]; split.
  - intros e; destruct d as [d|]; intros [= <-]; auto.
  - intros Hrel Hread; destruct (Hr Hrel) as [-> Hm]; split; [|done].
    assert (Hs : disk (fat fs + i / 512) <> None).
    { rewrite <- (Z.div_mul i 8) at 1 by lia; apply Hread; destruct (fat_type fs); cbn in *; lia. }
    destruct (disk _); [discriminate|done].
Qed.

Lemma fat_bit_at fs o j : 0 <= j < 8 -> fat_bit fs (8 * o + j) = Z.testbit (fat_byte fs o) j.
Proof.
  intros Hj; unfold fat_bit.
  replace ((8 * o + j) / 8) with o by (Z.to_euclidean_division_equations; lia).
  now replace ((8 * o + j) mod 8) with j by (Z.to_euclidean_division_equations; lia).
Qed.

Lemma next_fat16_entry fs c m x fs' m' :
  geometry fs -> coherent fs -> fat_type fs = FAT16 -> 0 <= c < endcluster fs ->
  next_fat16 c fs m = (x, fs', m') -> entry_read fs c m x fs' m'.
Proof.
  intros G Hc Ht Hcl H; pose proof (geo_clusters _ G).
  unfold next_fat16 in H; rewrite Z.shiftl_mul_pow2, u32_small in H by lia; change (2 ^ 1) with 2 in H.
  destruct (libfat_get_sector _ _ _) as [[d fs1] m1] eqn:E.
  assert (fs1 = fs' /\ m1 = m' /\
    x = option_map (fun d => get_16 d (Z.to_nat (Z.land (c * 2) 511))) d) as (-> & -> & Ex)
    by (destruct d; injection H as <- <- <-; auto).
  eapply one_sector_entry with (i := c * 2); eauto; try lia; [rewrite Ht; cbn; lia|].
  intros dd Hd; unfold is_entry; rewrite Ht; destruct (disk_ok _ _ Hd) as [Hl Hb]; cbn [used width].
  split; [apply get_16_range, Hb|]; intros j Hj.
  destruct (same_sector (c * 2) 1 2) as [S1 S2]; try lia; [now exists 256|now exists c|].
  rewrite land_511, get_16_bit by (auto; lia).
  rewrite (fat_byte_read fs (c * 2) dd Hd).
  replace (Z.to_nat (c * 2 mod 512) + 1)%nat with (Z.to_nat ((c * 2 + 1) mod 512))
    by (rewrite S2, Z2Nat.inj_add by (try apply Z.mod_pos_bound; lia); lia).
  rewrite <- S1 in Hd; rewrite (fat_byte_read fs (c * 2 + 1) dd Hd).
  destruct (Z.ltb_spec j 8).
  - rewrite <- fat_bit_at by lia; f_equal; lia.
  - rewrite <- fat_bit_at by lia; f_equal; lia.
Qed.

(** A byte of the FAT within the sector read. *)
Lemma fat_byte_near fs i k n d :
  0 <= i -> 0 <= k < n -> (n | 512) -> (n | i) -> disk (fat fs + i / 512) = Some d ->
  byte_at d (Z.to_nat (i mod 512) + Z.to_nat k) = fat_byte fs (i + k).
Proof.
  intros Hi Hk Hn Hd Hs; destruct (same_sector i k n Hi Hk Hn Hd) as [S1 S2].
  rewrite <- S1 in Hs; rewrite <- (fat_byte_read fs (i + k) d Hs), S2.
  rewrite Z2Nat.inj_add by (try apply Z.mod_pos_bound; lia); reflexivity.
Qed.

Lemma next_fat28_entry fs c m x fs' m' :
  geometry fs -> coherent fs -> fat_type fs = FAT28 -> 0 <= c < endcluster fs ->
  next_fat28 c fs m = (x, fs', m') -> entry_read fs c m x fs' m'.
Proof.
  intros G Hc Ht Hcl H; pose proof (geo_clusters _ G).
  unfold next_fat28 in H; rewrite Z.shiftl_mul_pow2, u32_small in H by lia; change (2 ^ 2) with 4 in H.
  destruct (libfat_get_sector _ _ _) as [[d fs1] m1] eqn:E.
  assert (fs1 = fs' /\ m1 = m' /\
    x = option_map (fun d => Z.land (get_32 d (Z.to_nat (Z.land (c * 4) 511))) 0x0FFFFFFF) d)
    as (-> & -> & Ex) by (destruct d; injection H as <- <- <-; auto).
  eapply one_sector_entry with (i := c * 4); eauto; try lia; [rewrite Ht; cbn; lia|].
  intros dd Hd; unfold is_entry; rewrite Ht; destruct (disk_ok _ _ Hd) as [Hl Hb]; cbn [used width].
  change 0x0FFFFFFF with (Z.ones 28); rewrite Z.land_ones by lia.
  split; [apply Z.mod_pos_bound; lia|]; intros j Hj.
  rewrite Z.mod_pow2_bits_low, get_32_bit, land_511 by (auto; lia).
  pose proof (fat_byte_near fs (c * 4) 0 4 dd ltac:(lia) ltac:(lia) ltac:(now exists 128) ltac:(now exists c) Hd) as B0.
  pose proof (fat_byte_near fs (c * 4) 1 4 dd ltac:(lia) ltac:(lia) ltac:(now exists 128) ltac:(now exists c) Hd) as B1.
  pose proof (fat_byte_near fs (c * 4) 2 4 dd ltac:(lia) ltac:(lia) ltac:(now exists 128) ltac:(now exists c) Hd) as B2.
  pose proof (fat_byte_near fs (c * 4) 3 4 dd ltac:(lia) ltac:(lia) ltac:(now exists 128) ltac:(now exists c) Hd) as B3.
  change (Z.to_nat 0) with 0%nat in B0; change (Z.to_nat 1) with 1%nat in B1.
  change (Z.to_nat 2) with 2%nat in B2; change (Z.to_nat 3) with 3%nat in B3.
  rewrite Nat.add_0_r in B0; destruct (Z.ltb_spec j 16); rewrite get_16_bit by (auto; lia);
    rewrite <- ?Nat.add_assoc; change (2 + 1)%nat with 3%nat; rewrite ?B0, ?B1, ?B2, ?B3.
  - destruct (Z.ltb_spec j 8); rewrite <- fat_bit_at by lia; f_equal; lia.
  - destruct (Z.ltb_spec (j - 16) 8); rewrite <- fat_bit_at by lia; f_equal; lia.
Qed.

(** The two bytes of a 12-bit entry and the bits of the array. *)
Lemma pair_bit fs o low high j :
  low = fat_byte fs o -> high = fat_byte fs (o + 1) -> 0 <= low < 256 -> 0 <= j < 16 ->
  Z.testbit (Z.lor low (Z.shiftl high 8)) j = fat_bit fs (8 * o + j).
Proof.
  intros -> -> Hl Hj; rewrite Z.lor_comm, shiftl_lor_add by lia.
  rewrite Z.add_comm, (Z.mul_comm (fat_byte fs (o + 1))), testbit_join by lia.
  destruct (Z.ltb_spec j 8); rewrite <- fat_bit_at by lia; f_equal; lia.
Qed.

Lemma pair_range low high :
  0 <= low < 256 -> 0 <= high < 256 -> 0 <= Z.lor low (Z.shiftl high 8) < 65536.
Proof. intros; rewrite Z.lor_comm, shiftl_lor_add by lia; lia. Qed.

Lemma fat12_offset c : 0 <= c ->
  let o := c + Z.shiftr c 1 in 12 * c = 8 * o + (if Z.testbit c 0 then 4 else 0).
Proof.
  intros Hc; cbv zeta; rewrite Z.shiftr_div_pow2, Z.bit0_odd by lia; change (2 ^ 1) with 2.
  pose proof (Z.div_mod c 2) as E; rewrite Zmod_odd in E; destruct (Z.odd c); lia.
Qed.

Lemma next_fat12_entry fs c m x fs' m' :
  geometry fs -> coherent fs -> fat_type fs = FAT12 -> 0 <= c < endcluster fs ->
  next_fat12 c fs m = (x, fs', m') -> entry_read fs c m x fs' m'.
Proof.
  intros G Hc Ht Hcl H; pose proof (geo_clusters _ G).
  pose proof (fat12_offset c ltac:(lia)) as Ho; cbv zeta in Ho.
  unfold next_fat12 in H; remember (Z.testbit c 0) as odd eqn:Eodd; clear Eodd.
  set (o := c + Z.shiftr c 1) in *.
  assert (Hor : 0 <= o < 536870912) by (destruct odd; lia).
  rewrite !(u32_small o), (u32_small (o + 1)), !fat_sector_at in H by (auto; lia).
  destruct (libfat_get_sector _ fs m) as [[d1 fs1] m1] eqn:E1.
  apply get_sector_reads in E1 as (Hc1 & Hv1 & Hd1 & Hr1); auto.
  destruct d1 as [d1|].
  2: { injection H as <- <- <-; split; [done|]; split; [done|]; split; [discriminate|].
       intros Hrel Hread; destruct (Hr1 Hrel) as [E _]; exfalso; symmetry in E; revert E.
       rewrite <- (Z.div_mul o 8) at 1 by lia; apply Hread; rewrite Ht; cbn [width].
       destruct odd; lia. }
  specialize (Hd1 d1 eq_refl).
  rewrite fat_sector_at in H by (try lia; eapply geometry_volume; eauto).
  destruct (libfat_get_sector _ fs1 m1) as [[d2 fs2] m2] eqn:E2.
  apply get_sector_reads in E2 as (Hc2 & Hv2 & Hd2 & Hr2); auto.
  assert (Hfat : fat fs1 = fat fs) by (destruct fs, fs1; injection Hv1; intros; subst; reflexivity).
  rewrite Hfat in *; pose proof (same_volume_trans _ _ _ Hv1 Hv2) as Hv.
  destruct d2 as [d2|]; injection H as <- <- <-;
    (split; [done|]; split; [done|]; split).
  - intros e [= <-]; specialize (Hd2 d2 eq_refl).
    destruct (disk_ok _ _ Hd1) as [_ B1], (disk_ok _ _ Hd2) as [_ B2].
    rewrite !land_511, (fat_byte_read fs o d1 Hd1), (fat_byte_read fs (o + 1) d2 Hd2).
    pose proof (byte_range d1 (Z.to_nat (o mod 512)) B1) as R1.
    pose proof (byte_range d2 (Z.to_nat ((o + 1) mod 512)) B2) as R2.
    rewrite (fat_byte_read fs o d1 Hd1) in R1; rewrite (fat_byte_read fs (o + 1) d2 Hd2) in R2.
    pose proof (pair_range _ _ R1 R2); unfold is_entry; rewrite Ht; cbn [used width].
    clear Hor; revert Ho; destruct odd; intros ->.
    + split.
      { rewrite Z.shiftr_div_pow2 by lia; change (2 ^ 4) with 16; change (2 ^ 12) with 4096.
        Z.to_euclidean_division_equations; lia. }
      intros j Hj; rewrite Z.shiftr_spec by lia.
      rewrite (pair_bit fs o) by (auto; lia); f_equal; lia.
    + change 0xFFF with (Z.ones 12); rewrite Z.land_ones by lia.
      split; [apply Z.mod_pos_bound; lia|].
      intros j Hj; rewrite Z.mod_pow2_bits_low, (pair_bit fs o) by (auto; lia); f_equal; lia.
  - intros Hrel Hread; destruct (Hr1 Hrel) as [_ Hrel1]; destruct (Hr2 Hrel1); auto.
  - discriminate.
  - intros Hrel Hread; destruct (Hr1 Hrel) as [_ Hrel1]; destruct (Hr2 Hrel1) as [E _].
    exfalso; symmetry in E; revert E.
    rewrite <- (Z.div_mul (o + 1) 8) at 1 by lia; apply Hread; rewrite Ht; cbn [width].
    destruct odd; lia.
Qed.

(** ** The sector after a sector *)

(** The answer the layout asks for: the next sector of the root directory or of
    the cluster, or the first of the cluster the FAT's entry names; 0 at the end. *)
Definition next_spec (fs : filesystem) (s r : Z) : Prop :=
  if s <? data fs then
    r = if s <? rootdir fs then SECTOR_ERROR else if s + 1 <? data fs then s + 1 else 0
  else if negb ((s - data fs + 1) mod clustsize fs =? 0) then r = s + 1
  else
    let c := 2 + (s - data fs) / clustsize fs in
    if endcluster fs <=? c then r = SECTOR_ERROR
    else
      exists e, is_entry fs c e /\
        r = if end_mark (fat_type fs) <=? e then 0 else libfat_clustertosector fs e.

(** The test for the last sector of a cluster. *)
Lemma last_in_cluster rs k : 0 <= k -> 0 <= rs ->
  (Z.land (Z.lnot rs) (2 ^ k - 1) =? 0) = ((rs + 1) mod 2 ^ k =? 0).
Proof.
  intros Hk Hr; replace (2 ^ k - 1) with (Z.ones k) by (rewrite Z.ones_equiv; lia).
  rewrite Z.land_ones by lia; unfold Z.lnot.
  assert (0 < 2 ^ k) by (apply Z.pow_pos_nonneg; lia).
  replace (Z.pred (- rs)) with (- (rs + 1)) by lia.
  apply Bool.eq_iff_eq_true; rewrite !Z.eqb_eq; split; intros H0.
  - apply Z.mod_divide in H0; [|lia]; apply Z.mod_divide; [lia|]; now apply (proj1 (Z.divide_opp_r _ _)).
  - apply Z.mod_divide in H0; [|lia]; apply Z.mod_divide; [lia|]; now apply (proj2 (Z.divide_opp_r _ _)).
Qed.

Lemma is_entry_fun fs c e e' : is_entry fs c e -> is_entry fs c e' -> e = e'.
Proof.
  intros [R1 B1] [R2 B2].
  assert (Hu : 0 <= used (fat_type fs)) by (destruct (fat_type fs); cbn; lia).
  apply Z.bits_inj'; intros j Hj; destruct (Z.lt_ge_cases j (used (fat_type fs))).
  - now rewrite B1, B2.
  - rewrite <- (Z.mod_small e (2 ^ used (fat_type fs))), <- (Z.mod_small e' (2 ^ used (fat_type fs)))
      by lia.
    now rewrite !Z.mod_pow2_bits_high by lia.
Qed.

Lemma next_spec_fun fs s r r' : next_spec fs s r -> next_spec fs s r' -> r = r'.
Proof.
  unfold next_spec; repeat case_match; try congruence.
  intros (e & He & ->) (e' & He' & ->); now rewrite (is_entry_fun _ _ _ _ He He').
Qed.

(** A sector of the root directory or of a cluster. *)
Definition in_volume (fs : filesystem) (s : Z) : Prop :=
  rootdir fs <= s < data fs + (endcluster fs - 2) * clustsize fs.

Lemma clustsize_pos fs : geometry fs -> 0 < clustsize fs.
Proof. intros G; destruct (geo_shift _ G) as [H ->]; apply Z.pow_pos_nonneg; lia. Qed.

Lemma in_volume_end fs s : geometry fs -> in_volume fs s -> 0 <= s < fend fs.
Proof. intros G H; pose proof (geo_layout _ G); pose proof (geo_clusters _ G); unfold in_volume in H; lia. Qed.

Lemma cluster_fits fs c : geometry fs -> 2 <= c < endcluster fs ->
  data fs <= data fs + (c - 2) * clustsize fs /\
  data fs + (c - 2) * clustsize fs + clustsize fs <=
    data fs + (endcluster fs - 2) * clustsize fs.
Proof. intros G H; pose proof (clustsize_pos _ G); nia. Qed.

(** Every cluster number is an error, the fixed root directory, or a cluster all
    of whose sectors are in the volume. *)
Lemma clustertosector_spec fs c :
  geometry fs ->
  libfat_clustertosector fs c = SECTOR_ERROR \/ libfat_clustertosector fs c = rootdir fs \/
  exists c', 2 <= c' < endcluster fs /\
    libfat_clustertosector fs c = data fs + (c' - 2) * clustsize fs.
Proof.
  intros G; unfold libfat_clustertosector.
  set (c' := if c =? 0 then rootcluster fs else c); clearbody c'.
  destruct (c' =? 0); [auto|].
  destruct ((c' <? 2) || (endcluster fs <=? c')) eqn:E; [auto|]; bools.
  right; right; exists c'; split; [lia|].
  pose proof (cluster_fits fs c' G ltac:(lia)); pose proof (geo_end _ G); pose proof (geo_layout _ G).
  pose proof (clustsize_pos _ G); pose proof (geo_clusters _ G).
  destruct (geo_shift _ G) as [Hs Hc]; rewrite Z.shiftl_mul_pow2, <- Hc by lia.
  unfold u64; rewrite (Z.mod_small ((c' - 2) * _)), Z.mod_small by lia; reflexivity.
Qed.

(** The root directory, if there is a fixed one, and the clusters. *)
Lemma clustertosector_in fs c :
  geometry fs -> libfat_clustertosector fs c = SECTOR_ERROR \/
    libfat_clustertosector fs c = rootdir fs \/ in_volume fs (libfat_clustertosector fs c).
Proof.
  intros G; destruct (clustertosector_spec fs c G) as [E|[E|(c' & Hc' & E)]]; auto.
  right; right; rewrite E; unfold in_volume; pose proof (cluster_fits fs c' G Hc').
  pose proof (clustsize_pos _ G); pose proof (geo_layout _ G); lia.
Qed.

Lemma next_in_volume fs s r :
  geometry fs -> in_volume fs s -> next_spec fs s r ->
  r = SECTOR_ERROR \/ r = 0 \/ r = rootdir fs \/ in_volume fs r.
Proof.
  intros G Hs; pose proof (geo_layout _ G); pose proof (clustsize_pos _ G); unfold next_spec, in_volume in *.
  destruct (Z.ltb_spec s (data fs)).
  - intros ->; repeat case_match; bools; try lia; auto.
    pose proof (geo_clusters _ G); right; right; right; nia.
  - destruct (Z.eqb_spec ((s - data fs + 1) mod clustsize fs) 0) as [E|E]; cbn [negb].
    + case_match; auto; intros (e & _ & ->); case_match; auto.
      destruct (clustertosector_in fs e G) as [E'|[E'|E']]; auto.
    + intros ->; right; right; right; split; [lia|].
      destruct (Z.eq_dec (s - data fs + 1) ((endcluster fs - 2) * clustsize fs)) as [E1|]; [|lia].
      rewrite E1, Z.mod_mul in E by lia; done.
Qed.

Lemma nextsector_step s fs m r fs' m' :
  geometry fs -> coherent fs -> in_volume fs s ->
  libfat_nextsector s fs m = (r, fs', m') ->
  coherent fs' /\ same_volume fs fs' /\
  (next_spec fs s r \/ r = SECTOR_ERROR) /\
  (r = SECTOR_ERROR \/ r = 0 \/ r = rootdir fs \/ in_volume fs r) /\
  (Mem.reliable m -> fat_readable fs -> next_spec fs s r /\ Mem.reliable m').
Proof.
  intros G Hc Hs H.
  assert (Main : coherent fs' /\ same_volume fs fs' /\ (next_spec fs s r \/ r = SECTOR_ERROR) /\
            (Mem.reliable m -> fat_readable fs -> next_spec fs s r /\ Mem.reliable m')).
  { pose proof (in_volume_end _ _ G Hs); pose proof (geo_end _ G); pose proof (geo_layout _ G).
    pose proof (clustsize_pos _ G); pose proof (geo_clusters _ G); destruct (geo_shift _ G) as [Hsh Hcs].
    unfold libfat_nextsector in H; unfold next_spec.
    destruct (Z.ltb_spec s (data fs)).
    { rewrite (proj2 (Z.ltb_ge s (rootdir fs))) in * by apply Hs.
      injection H as <- <- <-; split; [done|]; split; [done|]; auto. }
    rewrite Hcs, last_in_cluster, <- Hcs in H by lia.
    destruct (Z.eqb_spec ((s - data fs + 1) mod clustsize fs) 0) as [E|E]; cbn [negb] in *.
    2: { injection H as <- <- <-; unfold u64; rewrite Z.mod_small by lia.
         split; [done|]; split; [done|]; auto. }
    assert (Hq : 0 <= (s - data fs) / clustsize fs < endcluster fs - 2).
    { split; [apply Z.div_pos; lia|apply Z.div_lt_upper_bound; [lia|]].
      unfold in_volume in Hs; lia. }
    assert (Hcl : s32 (2 + Z.shiftr (s - data fs) (clustshift fs)) = 2 + (s - data fs) / clustsize fs).
    { rewrite Z.shiftr_div_pow2, <- Hcs by lia; apply s32_of_small; lia. }
    rewrite Hcl in H; set (c := 2 + (s - data fs) / clustsize fs) in *.
    destruct (Z.leb_spec (endcluster fs) c).
    { injection H as <- <- <-; split; [done|]; split; [done|]; auto. }
    destruct (match fat_type fs with FAT12 => _ | FAT16 => _ | FAT28 => _ end) as [[x fs1] m1] eqn:Er.
    assert (Hcr : 0 <= c < endcluster fs) by lia.
    assert (Hent : entry_read fs c m x fs1 m1)
      by (destruct (fat_type fs) eqn:Et;
          [eapply next_fat12_entry|eapply next_fat16_entry|eapply next_fat28_entry]; eauto).
    destruct Hent as (Hc1 & Hv1 & Hx & Hrel).
    assert (Hsame : fat_type fs1 = fat_type fs /\ forall e, libfat_clustertosector fs1 e = libfat_clustertosector fs e)
      by (destruct fs, fs1; injection Hv1; intros; subst; split; reflexivity).
    destruct Hsame as [Et Esec].
    destruct x as [e|].
    - rewrite Et, Esec in H.
      assert (Hr : r = (if end_mark (fat_type fs) <=? e then 0 else libfat_clustertosector fs e) /\
                   fs1 = fs' /\ m1 = m')
        by (destruct (_ <=? e); injection H as <- <- <-; auto).
      destruct Hr as (-> & <- & <-); specialize (Hx e eq_refl).
      split; [done|]; split; [done|]; split; [eauto|].
      intros Hm Hread; destruct (Hrel Hm Hread); eauto.
    - injection H as <- <- <-; split; [done|]; split; [done|]; split; [auto|].
      intros Hm Hread; destruct (Hrel Hm Hread); done. }
  destruct Main as (M1 & M2 & M3 & M4); split; [done|]; split; [done|]; split; [done|]; split; [|done].
  destruct M3 as [M3|]; [|auto]; eapply next_in_volume; eauto.
Qed.

(** Libfat_nextsector answers the sector that follows in the root directory,
    in the cluster, or in the cluster the FAT's entry of 12, 16 or 28 bits names -
    the entries being consecutive fields of one array of bits - and 0 at the end;
    otherwise -1.  It answers -1 for another reason only when a read or an
    allocation fails, keeps its cache true to the volume, and never leaves it. *)
Theorem nextsector_correct s fs m r fs' m' :
  geometry fs -> coherent fs -> in_volume fs s ->
  libfat_nextsector s fs m = (r, fs', m') ->
  coherent fs' /\ same_volume fs fs' /\
  (next_spec fs s r \/ r = SECTOR_ERROR) /\
  (r = SECTOR_ERROR \/ r = 0 \/ r = rootdir fs \/ in_volume fs r) /\
  (Mem.reliable m -> fat_readable fs -> next_spec fs s r /\ Mem.reliable m').
Proof. apply nextsector_step. Qed.

(** ** What libfat_open accepts *)

Lemma find_clustshift_spec fuel : forall i b k,
  find_clustshift fuel i b = Some k -> i <= k < i + Z.of_nat fuel.
Proof.
  induction fuel as [|fuel IH]; intros i b k H; cbn [find_clustshift] in H; [discriminate|].
  destruct (_ =? b); [injection H as <-; lia|apply IH in H; lia].
Qed.

(** The sectors of one FAT, by the boot sector. *)
Definition fat_sectors (bs : list Z) : Z :=
  if get_16 bs 22 =? 0 then get_32 bs 36 else get_16 bs 22.

Lemma read_geometry_ok bs cache fs :
  Forall is_byte bs -> read_geometry bs cache = Some fs ->
  geometry fs /\ sectors fs = cache /\
  width (fat_type fs) * endcluster fs <= 4096 * fat_sectors bs + 4 /\
  (fat_type fs <> FAT12 -> width (fat_type fs) * endcluster fs <= 4096 * fat_sectors bs).
Proof.
  intros Hb; unfold read_geometry; fold (fat_sectors bs).
  destruct (negb _); [discriminate|].
  destruct (find_clustshift 9 0 _) as [i|] eqn:Ei; [|discriminate].
  apply find_clustshift_spec in Ei.
  set (total := if get_16 bs 19 =? 0 then get_32 bs 32 else get_16 bs 19).
  assert (Ht : 0 <= total < 4294967296).
  { unfold total; pose proof (get_32_range bs 32 Hb); pose proof (get_16_range bs 19 Hb).
    case_match; lia. }
  pose proof (get_16_range bs 14 Hb) as Hfat; pose proof (get_16_range bs 17 Hb) as Hroot.
  set (rd := u32 (fat_sectors bs * byte_at bs 16)).
  assert (Hrd : 0 <= rd < 4294967296) by apply u32_range.
  set (ds := Z.shiftr (Z.shiftl (get_16 bs 17) 5 + 511) 9).
  assert (Hds : 0 <= ds).
  { unfold ds; rewrite Z.shiftr_div_pow2, Z.shiftl_mul_pow2 by lia; apply Z.div_pos; lia. }
  destruct (Z.leb_spec total (get_16 bs 14 + rd + ds)); [discriminate|].
  set (dat := get_16 bs 14 + rd + ds) in *.
  assert (Hn : u32 (Z.shiftr (total - dat) i) = (total - dat) / 2 ^ i /\
               0 <= (total - dat) / 2 ^ i /\ (total - dat) / 2 ^ i * 2 ^ i <= total - dat).
  { rewrite Z.shiftr_div_pow2 by lia; assert (0 < 2 ^ i) by (apply Z.pow_pos_nonneg; lia).
    pose proof (Z.div_mod (total - dat) (2 ^ i)); pose proof (Z.mod_pos_bound (total - dat) (2 ^ i)).
    assert (0 <= (total - dat) / 2 ^ i) by (apply Z.div_pos; lia).
    split; [apply u32_small; nia|nia]. }
  destruct Hn as (-> & Hn0 & Hn1); set (n := (total - dat) / 2 ^ i) in *.
  destruct (Z.leb_spec n 0xffffff4) as [Hsmall|].
  2: { rewrite (proj2 (Z.leb_gt n 0xff4)), (proj2 (Z.leb_gt n 0xfff4)) by lia; discriminate. }
  rewrite (s32_of_small (n + 2)) by lia.
  assert (Hfin : forall t minfat root, 0 <= minfat < 4294967296 - 511 ->
    (if fat_sectors bs <? Z.shiftr (u32 (minfat + 512 - 1)) 9 then None
     else Some (Fs t (Z.shiftl 1 i) i (n + 2) root (get_16 bs 14) (get_16 bs 14 + rd) dat total cache)) =
      Some fs ->
    fat_type fs = t /\ endcluster fs = n + 2 /\ rootcluster fs = root /\ clustshift fs = i /\
    clustsize fs = 2 ^ i /\ fat fs = get_16 bs 14 /\ rootdir fs = get_16 bs 14 + rd /\
    data fs = dat /\ fend fs = total /\ sectors fs = cache /\ minfat <= 512 * fat_sectors bs).
  { intros t minfat root Hm; destruct (Z.ltb_spec (fat_sectors bs) (Z.shiftr (u32 (minfat + 512 - 1)) 9));
      [discriminate|]; intros [= <-].
    repeat apply conj; try reflexivity; [cbn; rewrite Z.shiftl_mul_pow2 by lia; lia|].
    rewrite u32_small, Z.shiftr_div_pow2 in H0 by lia; change (2 ^ 9) with 512 in H0.
    Z.to_euclidean_division_equations; lia. }
  assert (Hgeo : fat fs = get_16 bs 14 -> rootdir fs = get_16 bs 14 + rd -> data fs = dat ->
    fend fs = total -> clustshift fs = i -> clustsize fs = 2 ^ i -> endcluster fs = n + 2 ->
    -2147483648 <= rootcluster fs < 2147483648 -> geometry fs).
  { intros E1 E2 E3 E4 E5 E6 E7 E8; split; rewrite ?E1, ?E2, ?E3, ?E4, ?E5, ?E6, ?E7; try lia;
      split; try lia; try reflexivity. }
  pose proof (get_32_range bs 44 Hb) as Hr44.
  destruct (Z.leb_spec n 0xff4); [|destruct (Z.leb_spec n 0xfff4)]; cbn [option_map].
  - intros H1; apply Hfin in H1 as (Et & Ee & Er & Esh & Esz & Ef & Erd & Ed & Een & Ec & Em);
      [|rewrite Z.shiftr_div_pow2 by lia; change (2 ^ 1) with 2; Z.to_euclidean_division_equations; lia].
    rewrite Et, Ee; cbn [width]; split; [apply Hgeo; auto; rewrite Er; lia|split; [done|]].
    rewrite Z.shiftr_div_pow2 in Em by lia; change (2 ^ 1) with 2 in Em.
    split; [Z.to_euclidean_division_equations; lia|done].
  - intros H2; apply Hfin in H2 as (Et & Ee & Er & Esh & Esz & Ef & Erd & Ed & Een & Ec & Em);
      [|rewrite Z.shiftl_mul_pow2 by lia; lia].
    rewrite Et, Ee; cbn [width]; split; [apply Hgeo; auto; rewrite Er; lia|split; [done|]].
    rewrite Z.shiftl_mul_pow2 in Em by lia; lia.
  - intros H2; apply Hfin in H2 as (Et & Ee & Er & Esh & Esz & Ef & Erd & Ed & Een & Ec & Em);
      [|rewrite Z.shiftl_mul_pow2 by lia; lia].
    rewrite Et, Ee; cbn [width]; split; [apply Hgeo; auto; rewrite Er; ulia|split; [done|]].
    rewrite Z.shiftl_mul_pow2 in Em by lia; lia.
Qed.

(** A volume that libfat_open accepts is laid out soundly: the FATs, the root
    directory and the clusters follow each other inside it, every cluster number
    below the end names whole sectors of it, and a FAT of the stated size has an
    entry for each of them - except that half a byte of the last entry of a
    12-bit FAT may be missing.  The cache holds what was read. *)
Theorem open_geometry m fs m' :
  libfat_open m = (Some fs, m') ->
  exists bs, disk 0 = Some bs /\ geometry fs /\ coherent fs /\
    width (fat_type fs) * endcluster fs <= 4096 * fat_sectors bs + 4 /\
    (fat_type fs <> FAT12 -> width (fat_type fs) * endcluster fs <= 4096 * fat_sectors bs).
Proof.
  unfold libfat_open; intros H; destruct (Mem.malloc m) as [[] m1]; cbn [negb] in H; [|discriminate].
  destruct (libfat_get_sector 0 no_geometry m1) as [[x fs1] m2] eqn:E.
  apply get_sector_reads in E as (Hc & _ & Hx & _); [|intros n d Hin; cbn in Hin; set_solver].
  destruct x as [bs|]; [|discriminate]; specialize (Hx bs eq_refl).
  injection H as H <-; destruct (disk_ok _ _ Hx) as [_ Hb].
  apply read_geometry_ok in H as (G & Hs & F1 & F2); auto.
  exists bs; split; [done|]; split; [done|]; split; [intros n d; rewrite Hs; apply Hc|auto].
Qed.

(** ** Searching a directory *)

(** The entries of a sector. *)
Fixpoint slices (fuel : nat) (s : Z) (nent : nat) (dep : list Z) : list direntry :=
  match fuel with
  | O => []
  | S fuel => Dirent s (Z.of_nat nent) (take 32 dep) :: slices fuel s (nent + 32) (drop 32 dep)
  end.

Definition entries (s : Z) : list direntry :=
  match disk s with Some d => slices 16 s 0 d | None => [] end.

(** The first entry of the name, looked for up to an entry never used. *)
Fixpoint find_entry (name : list Z) (l : list direntry) : option search_result :=
  match l with
  | [] => None
  | e :: l =>
      if bool_decide (take 11 (d_entry e) = name) then Some (Found (entry_cluster (d_entry e)) e)
      else if byte_at (d_entry e) 0 =? 0 then Some NotFound
      else find_entry name l
  end.

Lemma find_entry_app name l1 l2 :
  find_entry name (l1 ++ l2) =
    match find_entry name l1 with Some r => Some r | None => find_entry name l2 end.
Proof. induction l1 as [|e l1 IH]; cbn; [done|]; repeat case_match; auto. Qed.

Lemma search_sector_spec name s fuel : forall nent dep,
  search_sector fuel s nent name dep = find_entry name (slices fuel s nent dep).
Proof.
  induction fuel as [|fuel IH]; intros nent dep; cbn [search_sector slices find_entry d_entry];
    [done|]; now rewrite IH.
Qed.

(** The sectors of a directory: from each the next is the one the layout asks
    for, up to the end of the chain. *)
Inductive chain (fs : filesystem) : Z -> list Z -> Prop :=
  | chain_end : chain fs 0 []
  | chain_next s r l :
      s <> 0 -> s <> SECTOR_ERROR -> (s = rootdir fs -> in_volume fs s) ->
      next_spec fs s r -> chain fs r l -> chain fs s (s :: l).

Lemma chain_volume fs fs' s l : same_volume fs fs' -> chain fs s l -> chain fs' s l.
Proof. unfold same_volume; destruct fs, fs'; intros [=]; subst; induction 1; econstructor; eauto. Qed.

Lemma readable_volume fs fs' : same_volume fs fs' -> fat_readable fs -> fat_readable fs'.
Proof. unfold same_volume; destruct fs, fs'; intros [=]; subst; auto. Qed.

Lemma search_loop_correct name l : forall s fs m fuel,
  geometry fs -> coherent fs -> Mem.reliable m -> fat_readable fs ->
  (s = rootdir fs \/ s = 0 \/ s = SECTOR_ERROR \/ in_volume fs s) ->
  chain fs s l -> (forall n, n ∈ l -> disk n <> None) -> (length l < fuel)%nat ->
  exists fs' m', search_loop fuel s name fs m =
    Some (default NotFound (find_entry name (concat (map entries l))), fs', m') /\
    coherent fs' /\ same_volume fs fs'.
Proof.
  induction l as [|s0 l IH]; intros s fs m fuel G Hc Hm Hr Hs Hch Hd Hf;
    inversion Hch as [|? r ? Hs0 Hse Hin Hnext Hrest]; subst;
    (destruct fuel as [|fuel]; [cbn in Hf; lia|]); cbn [search_loop].
  - exists fs, m; split; [reflexivity|split; [done|reflexivity]].
  - rewrite (proj2 (Z.eqb_neq s0 0) Hs0), (proj2 (Z.eqb_neq s0 SECTOR_ERROR) Hse).
    assert (Hvol : in_volume fs s0) by (destruct Hs as [E|[E|[E|E]]]; auto; congruence).
    destruct (libfat_get_sector s0 fs m) as [[x fs1] m1] eqn:E1.
    apply get_sector_reads in E1 as (Hc1 & Hv1 & _ & Hr1); auto.
    destruct (Hr1 Hm) as [-> Hm1].
    destruct (disk s0) as [d|] eqn:Ed; [|exfalso; apply (Hd s0); [set_solver|done]].
    cbn [map concat]; rewrite find_entry_app; unfold entries at 1; rewrite Ed, search_sector_spec.
    destruct (find_entry name (slices 16 s0 0 d)) as [res|].
    { exists fs1, m1; split; [reflexivity|split; done]. }
    destruct (libfat_nextsector s0 fs1 m1) as [[r' fs2] m2] eqn:E2.
    pose proof (geometry_volume _ _ Hv1 G) as G1.
    assert (Hvol1 : in_volume fs1 s0)
      by (revert Hvol; destruct fs, fs1; injection Hv1; intros; subst; done).
    destruct (nextsector_step s0 fs1 m1 r' fs2 m2 G1 Hc1 Hvol1 E2) as (Hc2 & Hv2 & _ & Hin2 & Hok).
    destruct (Hok Hm1 (readable_volume _ _ Hv1 Hr)) as [Hn2 Hm2].
    pose proof (same_volume_trans _ _ _ Hv1 Hv2) as Hv.
    assert (r' = r) as ->.
    { apply (next_spec_fun fs1 s0); [exact Hn2|].
      revert Hnext; clear -Hv1; unfold same_volume in Hv1; destruct fs, fs1; injection Hv1; intros;
        subst; assumption. }
    destruct (IH r fs2 m2 fuel) as (fs' & m' & E & Hc' & Hv'); auto.
    + eapply geometry_volume; eauto.
    + eapply readable_volume; eauto.
    + revert Hin2; clear -Hv2; unfold same_volume in Hv2; destruct fs1, fs2; injection Hv2; intros;
        subst; cbn in *; tauto.
    + eapply chain_volume; eauto.
    + intros n Hn; apply Hd; set_solver.
    + cbn in Hf; lia.
    + exists fs', m'; split; [exact E|split; [done|eapply same_volume_trans; eauto]].
Qed.

(** When the directory's sectors and the FAT can be read and memory is
    granted, libfat_searchdir ends, and answers the first entry of the given name
    in the sectors of the directory taken in the order of the FAT, with its
    position and the first cluster of its file; "not found" when an entry never
    used, or the end of the chain, comes first. *)
Theorem searchdir_correct dirclust name fs m l fuel :
  geometry fs -> coherent fs -> Mem.reliable m -> fat_readable fs ->
  chain fs (libfat_clustertosector fs dirclust) l -> (forall n, n ∈ l -> disk n <> None) ->
  (length l < fuel)%nat ->
  exists fs' m', libfat_searchdir fuel dirclust name fs m =
    Some (default NotFound (find_entry name (concat (map entries l))), fs', m') /\
    coherent fs' /\ same_volume fs fs'.
Proof.
  intros G Hc Hm Hr Hch Hd Hf; apply search_loop_correct; auto.
  destruct (clustertosector_in fs dirclust G) as [->|[->|?]]; auto.
Qed.
End volume.

(** ** A small volume *)

(** A FAT12 volume of 8 clusters: the FAT in sector 1, the root directory in
    sector 2; the file in clusters 2 and 3. *)
Definition file_entry : list Z :=
  [76; 68; 76; 73; 78; 85; 88; 32; 83; 89; 83] ++ replicate 15 0 ++ bytes_32 2 ++ [0; 4].

Definition small_disk (n : Z) : option (list Z) :=
  if n =? 0 then
    Some (blit 11 [0; 2; 1; 1; 0; 1; 16; 0; 11; 0; 0xF8; 1; 0] (replicate 512 0))
  else if n =? 1 then Some (blit 3 [3; 0xF0; 0xFF] (replicate 512 0))
  else if n =? 2 then Some (blit 32 file_entry (blit 0 [65] (replicate 512 0)))
  else None.

Definition small_fs : filesystem := Fs FAT12 1 0 10 0 1 2 3 11 [].

Lemma small_disk_ok n d : small_disk n = Some d -> length d = 512%nat /\ Forall is_byte d.
Proof.
  unfold small_disk; repeat case_match; intros [= <-];
    (split; [vm_compute; reflexivity|apply bytes_ok; vm_compute; reflexivity]).
Qed.

Lemma small_geometry : geometry small_fs.
Proof. split; cbn; lia. Qed.

Lemma small_readable : fat_readable small_disk small_fs.
Proof.
  intros b Hb; cbn in Hb; cbn [fat small_fs].
  replace (b / 8 / 512) with 0 by (Z.to_euclidean_division_equations; lia); discriminate.
Qed.

Lemma small_coherent : coherent small_disk small_fs.
Proof. intros n d Hin; cbn in Hin; set_solver. Qed.

Lemma open_geometry_witness :
  exists fs m', libfat_open small_disk Mem.always = (Some fs, m') /\ geometry fs /\
    fat_type fs = FAT12 /\ endcluster fs = 10.
Proof.
  destruct (libfat_open small_disk Mem.always) as [[fs|] m'] eqn:E; [|vm_compute in E; discriminate E].
  exists fs, m'; split; [reflexivity|].
  destruct (open_geometry small_disk small_disk_ok _ _ _ E) as (bs & _ & G & _).
  split; [exact G|]; vm_compute in E; injection E as <- _; split; reflexivity.
Defined.

Lemma nextsector_correct_witness :
  fst (fst (libfat_nextsector small_disk 3 small_fs Mem.always)) = 4 /\
  next_spec small_disk small_fs 3 4.
Proof.
  split; [vm_compute; reflexivity|].
  destruct (libfat_nextsector small_disk 3 small_fs Mem.always) as [[r fs'] m'] eqn:E.
  destruct (nextsector_correct small_disk small_disk_ok 3 small_fs Mem.always r fs' m'
    small_geometry small_coherent ltac:(unfold in_volume; cbn; lia) E) as (_ & _ & _ & _ & H).
  destruct (H Mem.always_reliable small_readable) as [Hn _].
  vm_compute in E; injection E as <- _ _; exact Hn.
Defined.

Lemma searchdir_correct_witness :
  exists fs' m', libfat_searchdir small_disk 2 0 (take 11 file_entry) small_fs Mem.always =
    Some (Found 2 (Dirent 2 32 file_entry), fs', m').
Proof.
  destruct (searchdir_correct small_disk small_disk_ok 0 (take 11 file_entry) small_fs
    Mem.always [2] 2 small_geometry small_coherent Mem.always_reliable small_readable)
    as (fs' & m' & E & _).
  - apply (chain_next _ _ 2 0); [lia|vm_compute; discriminate|intros _; unfold in_volume; cbn; lia| |constructor].
    vm_compute; reflexivity.
  - intros n ->%list_elem_of_singleton; discriminate.
  - cbn; lia.
  - exists fs', m'; rewrite E; do 2 f_equal; vm_compute; reflexivity.
Defined.

(** 681 clusters need 8196 bits of 12-bit entries; libfat_open accepts FATs of two
    sectors, 8192 bits, since it rounds half a byte down. *)
Example short_fat_accepted :
  let bs := blit 11 [0; 2; 1; 1; 0; 2; 16; 0; 0xAF; 2; 0xF8; 2; 0] (replicate 512 0) in
  option_map (fun fs => (fat_type fs, width FAT12 * endcluster fs, 4096 * fat_sectors bs))
    (read_geometry bs []) = Some (FAT12, 8196, 8192).
Proof. vm_compute; reflexivity. Qed.
