(* ===== verification/Cache.v ===== *)
(** * The block cache of the core: core/fs/cache.c

    A device's cache is one buffer that holds the data of the blocks, followed by
    the head of a list and one descriptor for each block.  Descriptors are linked
    through the head in a ring, the least recently used one first; a descriptor
    that is locked is out of the ring.  Pointers to descriptors are indices, the
    head is 0; pointers to data are offsets in the buffer.  The disk's transfer
    function is a parameter. *)

From S2P Require Import Prelude.

Open Scope word_scope.

(** [(block_t) -1], the mark of an empty descriptor *)
Definition no_block : Z := 18446744073709551615.

(** [sizeof(struct cache)] in a 32-bit build *)
Definition sizeof_cache : Z := 20.

(** [src/core/include/cache.h:10-15 struct cache] *)
Record desc := Desc { block : Z; prev : option nat; next : option nat; cdata : option nat }.

(** The buffer's part for the descriptors is [descs].
    [src/core/include/fs.h:132-142 struct device] *)
Record device := Dev {
  cache_inited : bool;
  cache_data : list Z;
  cache_head : bool;
  cache_block_size : Z;
  cache_entries : Z;
  cache_size : Z;
  descs : list desc
}.

(** ** Writing through pointers *)

Definition set_block (i : nat) (b : Z) (ds : list desc) : option (list desc) :=
  let* d := ds !! i in Some (<[i := Desc b (prev d) (next d) (cdata d)]> ds).
Definition set_prev (i : nat) (p : option nat) (ds : list desc) : option (list desc) :=
  let* d := ds !! i in Some (<[i := Desc (block d) p (next d) (cdata d)]> ds).
Definition set_next (i : nat) (n : option nat) (ds : list desc) : option (list desc) :=
  let* d := ds !! i in Some (<[i := Desc (block d) (prev d) n (cdata d)]> ds).

Definition nxt (ds : list desc) (i : nat) : option nat := ds !! i ≫= next.
Definition prv (ds : list desc) (i : nat) : option nat := ds !! i ≫= prev.

Definition set_descs (ds : list desc) (dev : device) : device :=
  Dev (cache_inited dev) (cache_data dev) (cache_head dev) (cache_block_size dev)
    (cache_entries dev) (cache_size dev) ds.

Definition set_data (l : list Z) (dev : device) : device :=
  Dev (cache_inited dev) l (cache_head dev) (cache_block_size dev)
    (cache_entries dev) (cache_size dev) (descs dev).

(** [src/core/fs/cache.c:48-56 cache_init] *)
Fixpoint init_descs (fuel i entries : nat) (bsize : Z) (data : Z) : list desc :=
  match fuel with
  | O => []
  | S fuel =>
      Desc no_block (Some i) (Some (if (S i =? entries)%nat then 0%nat else S (S i)))
        (Some (Z.to_nat data)) :: init_descs fuel (S i) entries bsize (data + bsize)
  end.

(** The number of blocks; both it and the block size are 16-bit.
    [src/core/fs/cache.c:18-59 cache_init] *)
Definition cache_init (dev : device) (block_size_shift : Z) : device :=
  let bsize := u16 (Z.shiftl 1 block_size_shift) in
  if cache_size dev <? bsize + 2 * sizeof_cache then
    Dev (cache_inited dev) (cache_data dev) false bsize (cache_entries dev) (cache_size dev) (descs dev)
  else
    let entries := u16 (u32 (cache_size dev - sizeof_cache) / (bsize + sizeof_cache)) in
    let n := Z.to_nat entries in
    let head := Desc no_block (Some n) (Some (if (n =? 0)%nat then 0%nat else 1%nat)) None in
    Dev true (cache_data dev) true bsize entries (cache_size dev)
      (head :: init_descs n 0 n bsize 0).

(** [src/core/fs/cache.c:65-71 cache_lock_block] *)
Definition cache_lock_block (cs : nat) (dev : device) : option device :=
  let ds := descs dev in
  let* p := prv ds cs in
  let* ds := set_next p (nxt ds cs) ds in
  let* n := nxt ds cs in
  let* ds := set_prev n (prv ds cs) ds in
  let* ds := set_prev cs None ds in
  let* ds := set_next cs None ds in
  Some (set_descs ds dev).

(** [src/core/fs/cache.c:84-90 _get_cache_block] *)
Fixpoint find_block (n cs : nat) (b : Z) (ds : list desc) : option (option nat) :=
  match n with
  | O => Some None
  | S n =>
      let* d := ds !! cs in
      if block d =? b then Some (Some cs) else find_block n (S cs) b ds
  end.

(** To the end of the ring. [src/core/fs/cache.c:97-105 _get_cache_block] *)
Definition move_to_end (cs : nat) (ds : list desc) : option (list desc) :=
  let* p := prv ds cs in
  let* ds := set_next p (nxt ds cs) ds in
  let* n := nxt ds cs in
  let* ds := set_prev n (prv ds cs) ds in
  let* ds := set_prev cs (prv ds 0) ds in
  let* q := prv ds 0 in
  let* ds := set_next q (Some cs) ds in
  let* ds := set_next cs (Some 0%nat) ds in
  set_prev 0 (Some cs) ds.

(** [src/core/fs/cache.c:78-108 _get_cache_block] *)
Definition _get_cache_block (dev : device) (b : Z) : option (nat * device) :=
  if cache_head dev then
    let* f := find_block (Z.to_nat (cache_entries dev)) 1 b (descs dev) in
    let* cs := match f with Some cs => Some cs | None => nxt (descs dev) 0 end in
    let* d := descs dev !! cs in
    match next d with
    | Some _ =>
        let* ds := move_to_end cs (descs dev) in
        Some (cs, set_descs ds dev)
    | None => Some (cs, dev)
    end
  else None.

Section disk.
(** [rdwr_sectors old lba count] is the buffer, [old] before, after [count]
    sectors were read into it from [lba] on. *)
Variable sector_size : Z.
Variable rdwr_sectors : list Z -> Z -> Z -> list Z.

(** [src/core/fs/diskio.c:14-19 getoneblk] *)
Definition getoneblk (old : list Z) (b : Z) (block_size : Z) : list Z :=
  let sec_per_block := block_size / sector_size in
  rdwr_sectors old (u64 (b * sec_per_block)) sec_per_block.

(** The data of the block at offset [p] of the buffer. *)
Definition data_at (dev : device) (p : nat) : list Z :=
  slice p (Z.to_nat (cache_block_size dev)) (cache_data dev).

(** The answer is the pointer to the block's data.
    [src/core/fs/cache.c:116-127 get_cache] *)
Definition get_cache (dev : device) (b : Z) : option (nat * device) :=
  let* (cs, dev) := _get_cache_block dev b in
  let* d := descs dev !! cs in
  let* p := cdata d in
  if block d =? b then Some (p, dev)
  else
    let* ds := set_block cs b (descs dev) in
    let dev := set_descs ds dev in
    Some (p, set_data (blit p (getoneblk (data_at dev p) b (cache_block_size dev)) (cache_data dev)) dev).

(** What the ext2 and UFS drivers do to have block zero read as zeroes.
    [src/core/fs/ext2/ext2.c:319-322 ext2_fs_init] *)
Definition force_block_zero (dev : device) : option device :=
  let* (cs, dev) := _get_cache_block dev 0 in
  let* d := descs dev !! cs in
  let* p := cdata d in
  let zeroes := replicate (Z.to_nat (cache_block_size dev)) 0 in
  cache_lock_block cs (set_data (blit p zeroes (cache_data dev)) dev).

(** The answer is what was copied to the caller's buffer.
    [src/core/fs/cache.c:143-157 cache_read] *)
Fixpoint cache_read_loop (fuel : nat) (block_shift block_size offset count : Z) (dev : device)
  : option (list Z * device) :=
  if count =? 0 then Some ([], dev)
  else
    match fuel with
    | O => None
    | S fuel =>
        let b := Z.shiftr offset block_shift in
        let off := u32 (Z.land offset (block_size - 1)) in
        let* (cd, dev) := get_cache dev b in
        let cnt := block_size ⊟ off in
        let cnt := if count <? cnt then count else cnt in
        let part := slice (cd + Z.to_nat off) (Z.to_nat cnt) (cache_data dev) in
        let* (rest, dev) :=
          cache_read_loop fuel block_shift block_size (u64 (offset + cnt)) (count - cnt) dev in
        Some (part ++ rest, dev)
    end.

(** Every turn of the loop copies a byte or more: the count is fuel enough.
    [src/core/fs/cache.c:136-159 cache_read] *)
Definition cache_read (block_shift block_size offset count : Z) (dev : device)
  : option (list Z * device) :=
  cache_read_loop (Z.to_nat count) block_shift block_size offset count dev.
End disk.

(** ** The ring *)

(** [seg ds a l b]: the links lead from [a] over the descriptors [l] to [b], and back. *)
Definition link (ds : list desc) (a b : nat) : Prop := nxt ds a = Some b /\ prv ds b = Some a.

Fixpoint seg (ds : list desc) (a : nat) (l : list nat) (b : nat) : Prop :=
  match l with
  | [] => link ds a b
  | x :: l => link ds a x /\ seg ds x l b
  end.

Lemma seg_app ds l1 x l2 b : forall a,
  seg ds a (l1 ++ x :: l2) b <-> seg ds a l1 x /\ seg ds x l2 b.
Proof.
  induction l1 as [|y l1 IH]; intros a; cbn [app seg]; [done|].
  rewrite IH; tauto.
Qed.

Lemma seg_ext ds ds' l b : forall a,
  (forall u, u ∈ a :: l -> nxt ds' u = nxt ds u) ->
  (forall v, v ∈ l ++ [b] -> prv ds' v = prv ds v) ->
  seg ds a l b -> seg ds' a l b.
Proof.
  induction l as [|x l IH]; intros a Hn Hp; cbn [seg]; unfold link.
  - rewrite Hn, Hp by set_solver; done.
  - intros [H1 H2]; rewrite Hn, Hp by set_solver; split; [done|].
    apply IH; auto; intros ? ?; [apply Hn|apply Hp]; set_solver.
Qed.

Lemma last_of_cons (l : list nat) : forall x a, List.last (x :: l) a = List.last l x.
Proof. induction l as [|y l IH]; intros x a; [done|]. cbn [List.last] in *; rewrite (IH y a); destruct l; auto. Qed.

(** The links in and out of a segment. *)
Lemma seg_in ds l b : forall a, seg ds a l b ->
  prv ds b = Some (List.last l a).
Proof. induction l as [|x l IH]; intros a H; destruct H as [H1 H2]; [done|]; now rewrite last_of_cons, (IH _ H2). Qed.

Lemma seg_out ds a l b : seg ds a l b -> nxt ds a = Some (List.hd b l).
Proof. destruct l; intros H; destruct H as [H _]; [done|apply H]. Qed.

(** What the list code leaves alone: which block a descriptor holds, and where. *)
Definition payload (ds : list desc) : list (Z * option nat) :=
  map (fun d => (block d, cdata d)) ds.

Lemma nxt_bound ds i j : nxt ds i = Some j -> (i < length ds)%nat.
Proof. unfold nxt; intros H; destruct (ds !! i) eqn:E; [|done]; eapply lookup_lt_Some; eauto. Qed.
Lemma prv_bound ds i j : prv ds i = Some j -> (i < length ds)%nat.
Proof. unfold prv; intros H; destruct (ds !! i) eqn:E; [|done]; eapply lookup_lt_Some; eauto. Qed.

Lemma payload_insert ds i d d' :
  ds !! i = Some d -> block d' = block d -> cdata d' = cdata d ->
  payload (<[i := d']> ds) = payload ds.
Proof.
  intros H Hb Hc; unfold payload; rewrite list_fmap_insert, Hb, Hc.
  apply list_insert_id; now rewrite list_lookup_fmap, H.
Qed.

Lemma set_next_spec i n ds : (i < length ds)%nat ->
  exists ds', set_next i n ds = Some ds' /\ payload ds' = payload ds /\
    (forall j, nxt ds' j = if decide (j = i) then n else nxt ds j) /\
    (forall j, prv ds' j = prv ds j).
Proof.
  intros [d H]%lookup_lt_is_Some; unfold set_next, nxt, prv; rewrite H; eexists; split; [done|].
  pose proof (lookup_lt_Some _ _ _ H).
  split; [eapply payload_insert; eauto|split; intros j; destruct (decide (j = i)) as [->|]].
  - now rewrite list_lookup_insert_eq.
  - now rewrite list_lookup_insert_ne.
  - now rewrite list_lookup_insert_eq, H.
  - now rewrite list_lookup_insert_ne.
Qed.

Lemma set_prev_spec i p ds : (i < length ds)%nat ->
  exists ds', set_prev i p ds = Some ds' /\ payload ds' = payload ds /\
    (forall j, prv ds' j = if decide (j = i) then p else prv ds j) /\
    (forall j, nxt ds' j = nxt ds j).
Proof.
  intros [d H]%lookup_lt_is_Some; unfold set_prev, nxt, prv; rewrite H; eexists; split; [done|].
  pose proof (lookup_lt_Some _ _ _ H).
  split; [eapply payload_insert; eauto|split; intros j; destruct (decide (j = i)) as [->|]].
  - now rewrite list_lookup_insert_eq.
  - now rewrite list_lookup_insert_ne.
  - now rewrite list_lookup_insert_eq, H.
  - now rewrite list_lookup_insert_ne.
Qed.

Lemma payload_length ds ds' : payload ds' = payload ds -> length ds' = length ds.
Proof. intros H; apply (f_equal length) in H; unfold payload in H; now rewrite !length_map in H. Qed.

Lemma last_snoc_or (l : list nat) a :
  (l = [] /\ List.last l a = a) \/ exists l', l = l' ++ [List.last l a].
Proof.
  destruct (decide (l = [])) as [->|Hl]; [now left|right].
  exists (removelast l); now apply app_removelast_last.
Qed.

(** Membership facts out of the lists without repetition. *)
Ltac nodups :=
  repeat match goal with
  | H : NoDup (_ :: _) |- _ => apply NoDup_cons in H as [? H]
  | H : NoDup (_ ++ _) |- _ => apply NoDup_app in H as (H & ? & ?)
  end; set_solver.

(** Taking a descriptor out of the ring, and putting one in before the head. *)
Lemma seg_unlink ds ds' l1 x l2 :
  NoDup (0%nat :: l1 ++ x :: l2) -> seg ds 0 (l1 ++ x :: l2) 0 ->
  (forall j, nxt ds' j = if decide (j = List.last l1 0%nat) then Some (List.hd 0%nat l2) else nxt ds j) ->
  (forall j, prv ds' j = if decide (j = List.hd 0%nat l2) then Some (List.last l1 0%nat) else prv ds j) ->
  seg ds' 0 (l1 ++ l2) 0.
Proof.
  intros Hnd [H1 H2]%seg_app Hn Hp.
  assert (T : seg ds' (List.last l1 0%nat) l2 0).
  { destruct l2 as [|n l2]; cbn [seg List.hd] in *.
    - split; [now rewrite Hn, decide_True|now rewrite Hp, decide_True].
    - split; [split; [now rewrite Hn, decide_True|now rewrite Hp, decide_True]|].
      destruct H2 as [_ H2]; revert H2; apply seg_ext; intros u Hu.
      + rewrite Hn, decide_False; [done|]; intros ->; revert Hnd Hu.
        destruct (last_snoc_or l1 0%nat) as [[-> ->]|[l' ->]]; rewrite ?last_last; intros; nodups.
      + rewrite Hp, decide_False; [done|]; intros ->; nodups. }
  destruct (last_snoc_or l1 0%nat) as [[-> E]|[l' E]]; [exact T|].
  rewrite E in H1 |- *; rewrite <- app_assoc; apply seg_app; split; [|exact T].
  apply seg_app in H1 as [H1 _]; revert H1; rewrite E in Hnd; clear E.
  set (p := List.last l1 0%nat) in *; clearbody p; apply seg_ext; intros u Hu.
  - rewrite Hn, decide_False; [done|]; intros ->; nodups.
  - rewrite Hp, decide_False; [done|]; intros ->; destruct l2; cbn [List.hd] in *; nodups.
Qed.

Lemma seg_append ds ds' l x :
  NoDup (0%nat :: l ++ [x]) -> seg ds 0 l 0 ->
  (forall j, nxt ds' j = if decide (j = x) then Some 0%nat
     else if decide (j = List.last l 0%nat) then Some x else nxt ds j) ->
  (forall j, prv ds' j = if decide (j = 0%nat) then Some x
     else if decide (j = x) then Some (List.last l 0%nat) else prv ds j) ->
  seg ds' 0 (l ++ [x]) 0.
Proof.
  intros Hnd H Hn Hp; apply seg_app; cbn [seg].
  assert (x <> 0%nat) by (intros ->; nodups).
  assert (Hl : List.last l 0%nat <> x).
  { destruct (last_snoc_or l 0%nat) as [[-> E]|[l' E]]; [done|]; intros Hx; rewrite E, Hx in Hnd.
    nodups. }
  split; [|split; [now rewrite Hn, decide_True|now rewrite Hp, decide_True]].
  destruct (last_snoc_or l 0%nat) as [[-> E]|[l' E]].
  - split; [rewrite Hn, decide_False, decide_True by auto; done|].
    rewrite Hp, decide_False, decide_True by auto; done.
  - rewrite E in H, Hnd |- *; apply seg_app in H as [H _]; apply seg_app; split.
    + revert H; apply seg_ext; intros u Hu.
      * rewrite Hn, !decide_False; [done| |]; intros ->; nodups.
      * rewrite Hp, !decide_False; [done| |]; intros ->; nodups.
    + split; [rewrite Hn, decide_False, decide_True by auto; done|].
      rewrite Hp, decide_False, decide_True by auto; done.
Qed.

Lemma hd_app_not_in (l : list nat) x : NoDup (0%nat :: x :: l) -> List.hd 0%nat l <> x.
Proof. destruct l; cbn [List.hd]; intros; nodups. Qed.

(** [cs] leaves its place and becomes the last. *)
Lemma move_to_end_spec ds l1 cs l2 :
  NoDup (0%nat :: l1 ++ cs :: l2) -> seg ds 0 (l1 ++ cs :: l2) 0 ->
  exists ds', move_to_end cs ds = Some ds' /\ payload ds' = payload ds /\
    seg ds' 0 ((l1 ++ l2) ++ [cs]) 0 /\
    (forall i, i ∉ 0%nat :: l1 ++ cs :: l2 -> nxt ds' i = nxt ds i).
Proof.
  intros Hnd Hs; pose proof Hs as [H1 H2]%seg_app; unfold move_to_end.
  pose proof (seg_in _ _ _ _ H1) as Hp; pose proof (seg_out _ _ _ _ H2) as Hn; rewrite Hp, Hn.
  assert (Hp' : exists y, nxt ds (List.last l1 0%nat) = Some y).
  { destruct (last_snoc_or l1 0%nat) as [[-> E]|[l' E]].
    - cbn in *; eexists; apply H1.
    - rewrite E in H1; apply seg_app in H1 as [_ H1]; eexists; apply H1. }
  destruct Hp' as [y Hy]; pose proof (nxt_bound _ _ _ Hy) as B1.
  assert (B2 : exists y, prv ds (List.hd 0%nat l2) = Some y)
    by (destruct l2; cbn in *; eexists; apply H2).
  destruct B2 as [y2 Hy2]; pose proof (prv_bound _ _ _ Hy2) as B2.
  pose proof (nxt_bound _ _ _ Hn) as B3.
  pose proof (seg_out _ _ _ _ Hs) as Hh; pose proof (nxt_bound _ _ _ Hh) as B0.
  destruct (set_next_spec (List.last l1 0%nat) (Some (List.hd 0%nat l2)) ds B1) as (ds1 & -> & P1 & N1 & Q1).
  assert (Hc : List.last l1 0%nat <> cs).
  { destruct (last_snoc_or l1 0%nat) as [[-> E]|[l' E]]; [cbn|rewrite E in Hnd; intros E2; rewrite E2 in Hnd];
      nodups. }
  rewrite N1, decide_False, Hn by auto.
  destruct (set_prev_spec (List.hd 0%nat l2) (prv ds1 cs) ds1) as (ds2 & -> & P2 & Q2 & N2);
    [now rewrite (payload_length _ _ P1)|]; rewrite Q1, Hp in Q2.
  assert (L2 : length ds2 = length ds) by (erewrite !payload_length by eauto; done).
  assert (S2 : seg ds2 0 (l1 ++ l2) 0).
  { eapply seg_unlink; eauto; intros j; rewrite ?N2, ?Q2, ?N1, ?Q1; done. }
  destruct (set_prev_spec cs (prv ds2 0) ds2) as (ds3 & -> & P3 & Q3 & N3); [lia|].
  assert (Hcs : cs <> 0%nat) by (intros ->; nodups).
  rewrite Q3, decide_False by auto; rewrite (seg_in _ _ _ _ S2) in Q3 |- *.
  set (q := List.last (l1 ++ l2) 0%nat) in *.
  assert (B4 : (q < length ds3)%nat).
  { rewrite (payload_length _ _ P3), L2; subst q.
    destruct (last_snoc_or (l1 ++ l2) 0%nat) as [[_ ->]|[l' E]]; [lia|].
    rewrite E in S2; apply seg_app in S2 as [_ [S2 _]].
    rewrite <- L2; eapply nxt_bound; eauto. }
  destruct (set_next_spec q (Some cs) ds3 B4) as (ds4 & -> & P4 & N4 & Q4).
  destruct (set_next_spec cs (Some 0%nat) ds4) as (ds5 & -> & P5 & N5 & Q5);
    [erewrite !payload_length by eauto; lia|].
  destruct (set_prev_spec 0 (Some cs) ds5) as (ds6 & -> & P6 & Q6 & N6);
    [erewrite !payload_length by eauto; lia|].
  exists ds6; split; [done|split; [congruence|split]].
  - eapply seg_append; [|exact S2| |].
    + revert Hnd; rewrite <- !app_assoc, (Permutation_app_comm l2 [cs]); done.
    + intros j; rewrite N6, N5, N4, N3; done.
    + intros j; rewrite Q6, Q5, Q4, Q3; done.
  - intros i Hi; rewrite N6, N5, N4, N3, N2, N1, !decide_False; auto; intros ->; revert Hi; subst q.
    + destruct (last_snoc_or l1 0%nat) as [[-> ->]|[l' ->]]; rewrite ?last_last; set_solver.
    + destruct (last_snoc_or (l1 ++ l2) 0%nat) as [[_ ->]|[l' E]]; [set_solver|].
      assert (List.last (l1 ++ l2) 0%nat ∈ l1 ++ l2) by (rewrite E at 2; set_solver); set_solver.
    + set_solver.
Qed.

(** ** The invariant, and what a lookup does *)

Section correct.
Context (sector_size : Z) (rdwr_sectors : list Z -> Z -> Z -> list Z).

(** The disk: the bytes of each sector; [rdwr_sectors] reads them. *)
Context (disk : Z -> list Z).
Hypothesis sector_pos : 0 < sector_size.
Hypothesis disk_sectors : forall s, Z.of_nat (length (disk s)) = sector_size.
Hypothesis rdwr_ok : forall old lba n, 0 <= lba -> 0 <= n ->
  Z.of_nat (length old) = n * sector_size ->
  rdwr_sectors old lba n = concat (map disk (seqZ lba n)).

(** The bytes of the block [b] of the device. *)
Definition content (bsize b : Z) : list Z :=
  let spb := bsize / sector_size in concat (map disk (seqZ (b * spb) spb)).

Definition block_of (ds : list desc) (i : nat) : Z :=
  match ds !! i with Some d => block d | None => no_block end.

(** The ring holds the descriptors of [l], in this order, the others are locked;
    the data of the i-th descriptor is the i-th piece of the buffer, and is the
    block's; no block is held twice. *)
Record cache_inv (dev : device) (l : list nat) : Prop := {
  inv_head : cache_head dev = true;
  inv_spb : 0 < cache_block_size dev /\ (sector_size | cache_block_size dev);
  inv_len : length (descs dev) = S (Z.to_nat (cache_entries dev));
  inv_nodup : NoDup (0%nat :: l);
  inv_ring : seg (descs dev) 0 l 0;
  inv_bound : forall i, i ∈ l -> (i <= Z.to_nat (cache_entries dev))%nat;
  inv_locked : forall i, i ∉ 0%nat :: l -> nxt (descs dev) i = None;
  inv_data : forall i d, descs dev !! S i = Some d ->
    cdata d = Some (i * Z.to_nat (cache_block_size dev))%nat;
  inv_room : (Z.to_nat (cache_entries dev) * Z.to_nat (cache_block_size dev) <= length (cache_data dev))%nat;
  inv_content : forall i d, descs dev !! S i = Some d -> block d <> no_block ->
    data_at dev (i * Z.to_nat (cache_block_size dev)) = content (cache_block_size dev) (block d);
  inv_distinct : forall i j d e, descs dev !! S i = Some d -> descs dev !! S j = Some e ->
    block d = block e -> block d <> no_block -> i = j
}.

(** The blocks of the ring, least recently used first, and the locked ones. *)
Definition lru_blocks (dev : device) (l : list nat) : list Z := map (block_of (descs dev)) l.
Definition locked_block (dev : device) (l : list nat) (b : Z) : Prop :=
  exists i, (1 <= i <= Z.to_nat (cache_entries dev))%nat /\ i ∉ l /\ block_of (descs dev) i = b.

(** What the cache promises: an access moves the block to the end of the queue,
    in the place of the first one if it was not there. *)
Definition lru_access (b : Z) (q : list Z) : list Z :=
  if decide (b ∈ q) then filter (fun x => x <> b) q ++ [b] else tail q ++ [b].

Lemma find_block_spec b ds n : forall cs, (cs + n <= length ds)%nat ->
  match find_block n cs b ds with
  | Some (Some i) => (cs <= i < cs + n)%nat /\ exists d, ds !! i = Some d /\ block d = b
  | Some None => forall i, (cs <= i < cs + n)%nat -> forall d, ds !! i = Some d -> block d <> b
  | None => False
  end.
Proof.
  induction n as [|n IH]; intros cs Hcs; cbn [find_block]; [intros; lia|].
  destruct (lookup_lt_is_Some_2 ds cs) as [d Hd]; [lia|]; rewrite Hd.
  destruct (block d =? b) eqn:E; bools; [split; [lia|eauto]|].
  specialize (IH (S cs) ltac:(lia)); destruct (find_block n (S cs) b ds) as [[i|]|]; [|..|done].
  - destruct IH as [? ?]; split; [lia|done].
  - intros i Hi d' Hd'; destruct (decide (i = cs)) as [->|]; [congruence|]; apply (IH i); auto; lia.
Qed.

Lemma payload_lookup ds ds' i d :
  payload ds' = payload ds -> ds' !! i = Some d ->
  exists d0, ds !! i = Some d0 /\ block d0 = block d /\ cdata d0 = cdata d.
Proof.
  intros H Hd; apply (f_equal (fun l => l !! i)) in H; unfold payload in H.
  rewrite !list_lookup_fmap, Hd in H; destruct (ds !! i) as [d0|]; [|done].
  injection H as -> ->; eauto.
Qed.

Lemma payload_block_of ds ds' i : payload ds' = payload ds -> block_of ds' i = block_of ds i.
Proof.
  intros H; unfold block_of; apply (f_equal (fun l => l !! i)) in H; unfold payload in H.
  rewrite !list_lookup_fmap in H; destruct (ds !! i), (ds' !! i); cbn in H; congruence.
Qed.

(** Moving pointers about keeps the rest of the invariant. *)
Lemma inv_relink dev l ds' l' :
  cache_inv dev l -> payload ds' = payload (descs dev) -> (forall i, i ∈ l' -> i ∈ l) ->
  NoDup (0%nat :: l') -> seg ds' 0 l' 0 -> (forall i, i ∉ 0%nat :: l' -> nxt ds' i = None) ->
  cache_inv (set_descs ds' dev) l'.
Proof.
  intros I P Hl Hnd Hs Hn; destruct I; split; cbn [set_descs descs cache_head cache_block_size cache_entries
    cache_data]; auto.
  - now rewrite (payload_length _ _ P).
  - intros i d Hd; destruct (payload_lookup _ _ _ _ P Hd) as (d0 & H0 & _ & <-); eauto.
  - intros i d Hd Hb; destruct (payload_lookup _ _ _ _ P Hd) as (d0 & H0 & E & _).
    rewrite <- E in *; apply (inv_content0 i d0); auto.
  - intros i j d e Hd He Hb Hne.
    destruct (payload_lookup _ _ _ _ P Hd) as (d0 & H0 & E & _).
    destruct (payload_lookup _ _ _ _ P He) as (e0 & H1 & E1 & _).
    rewrite <- E, <- E1 in *; eauto.
Qed.

Lemma get_block_spec dev l b :
  cache_inv dev l -> b <> no_block -> l <> [] \/ locked_block dev l b ->
  exists cs ds' l', _get_cache_block dev b = Some (cs, set_descs ds' dev) /\
    (1 <= cs <= Z.to_nat (cache_entries dev))%nat /\
    cache_inv (set_descs ds' dev) l' /\ payload ds' = payload (descs dev) /\
    ((cs ∉ l /\ l' = l /\ ds' = descs dev /\ block_of (descs dev) cs = b) \/
     (exists l1 l2, l = l1 ++ cs :: l2 /\ l' = (l1 ++ l2) ++ [cs] /\
       (block_of (descs dev) cs = b \/
        l1 = [] /\ forall i d, descs dev !! S i = Some d -> block d <> b))).
Proof.
  intros I Hb Hl; pose proof I as I'; destruct I'; unfold _get_cache_block; rewrite inv_head0.
  pose proof (find_block_spec b (descs dev) (Z.to_nat (cache_entries dev)) 1 ltac:(lia)) as F.
  assert (Hcs : exists cs, match find_block (Z.to_nat (cache_entries dev)) 1 b (descs dev) with
     | Some f => match f with Some cs => Some cs | None => nxt (descs dev) 0 end
     | None => None end = Some cs /\ (1 <= cs <= Z.to_nat (cache_entries dev))%nat /\
     (block_of (descs dev) cs = b \/ List.hd_error l = Some cs /\
        forall i d, descs dev !! S i = Some d -> block d <> b)).
  { destruct (find_block _ _ _ _) as [[cs|]|]; [| |done].
    - destruct F as (Hr & d & Hd & Eb); exists cs; split; [done|split; [lia|left]].
      unfold block_of; now rewrite Hd.
    - assert (Hn : forall i d, descs dev !! S i = Some d -> block d <> b).
      { intros i d Hd; pose proof (lookup_lt_Some _ _ _ Hd); apply (F (S i)); [lia|done]. }
      destruct l as [|cs l].
      + destruct Hl as [?|(i & Hi & _ & Ei)]; [done|].
        destruct (lookup_lt_is_Some_2 (descs dev) i) as [d Hd]; [lia|].
        unfold block_of in Ei; rewrite Hd in Ei; destruct i; [lia|]; edestruct Hn; eauto.
      + destruct inv_ring0 as [[-> _] _]; exists cs; split; [done|].
        assert (cs <> 0%nat) by (intros ->; clear -inv_nodup0; nodups).
        split; [|right; auto]; pose proof (inv_bound0 cs ltac:(set_solver)); lia. }
  destruct Hcs as (cs & Ef & Hr & Hcase).
  destruct (find_block _ _ _ _) as [f|]; [|done]; rewrite Ef; clear Ef F.
  destruct (lookup_lt_is_Some_2 (descs dev) cs) as [d Hd]; [lia|]; rewrite Hd.
  destruct (decide (cs ∈ l)) as [Hin|Hin].
  - destruct (list_elem_of_split _ _ Hin) as (l1 & l2 & ->).
    destruct (move_to_end_spec (descs dev) l1 cs l2) as (ds' & E & P & S' & N); auto.
    assert (Hx : exists n, nxt (descs dev) cs = Some n)
      by (apply seg_app in inv_ring0 as [_ H]; apply seg_out in H; eauto).
    destruct Hx as [n Hx]; unfold nxt in Hx; rewrite Hd in Hx; cbn in Hx; rewrite Hx, E.
    exists cs, ds', ((l1 ++ l2) ++ [cs]); split; [done|split; [lia|split; [|split; [done|right]]]].
    + assert (Hpm : (l1 ++ l2) ++ [cs] ≡ₚ l1 ++ cs :: l2)
        by (rewrite <- app_assoc, (Permutation_app_comm l2 [cs]); done).
      apply (inv_relink dev (l1 ++ cs :: l2)); auto; [intros i; now rewrite Hpm|now rewrite Hpm|].
      intros i Hi; rewrite Hpm in Hi; rewrite N by done; auto.
    + exists l1, l2; split; [done|split; [done|]]; destruct Hcase as [?|[Hh ?]]; [auto|right; split; auto].
      destruct l1 as [|y l1]; [done|]; cbn in Hh; injection Hh as ->.
      exfalso; clear -inv_nodup0; nodups.
  - assert (Hx : nxt (descs dev) cs = None) by (apply inv_locked0; intros [->|?]%elem_of_cons; [lia|done]).
    unfold nxt in Hx; rewrite Hd in Hx; cbn in Hx; rewrite Hx.
    exists cs, (descs dev), l; assert (set_descs (descs dev) dev = dev) as -> by now destruct dev.
    split; [done|split; [lia|split; [done|split; [done|left]]]]; split; [done|split; [done|split; [done|]]].
    destruct Hcase as [?|[Hh _]]; [done|]; destruct l; [done|]; cbn in Hh; injection Hh as ->; destruct Hin; left.
Qed.

Lemma length_content bsize b : (sector_size | bsize) -> 0 <= bsize -> length (content bsize b) = Z.to_nat bsize.
Proof.
  intros [k ->] H; unfold content; rewrite Z.div_mul by lia; assert (0 <= k) by nia.
  assert (E : forall l, Z.of_nat (length (concat (map disk l))) = Z.of_nat (length l) * sector_size).
  { induction l as [|s l IH]; cbn [map concat length]; [lia|].
    rewrite length_app, Nat2Z.inj_add, IH, disk_sectors; lia. }
  apply Nat2Z.inj; rewrite E, length_seqZ; lia.
Qed.

(** A descriptor that is not the head is one of the ring, or locked. *)
Lemma block_distinct dev l i j :
  cache_inv dev l -> i <> 0%nat -> j <> 0%nat ->
  block_of (descs dev) i = block_of (descs dev) j -> block_of (descs dev) i <> no_block -> i = j.
Proof.
  intros I Hi Hj; destruct i as [|i], j as [|j]; try lia; unfold block_of.
  destruct (descs dev !! S i) eqn:E, (descs dev !! S j) eqn:F; try done.
  intros; f_equal; eapply inv_distinct; eauto.
Qed.

Lemma filter_absent (b : Z) (q : list Z) : b ∉ q -> filter (fun x => x <> b) q = q.
Proof.
  induction q as [|x q IH]; intros H; [done|]; rewrite filter_cons, decide_True by set_solver.
  rewrite IH; [done|set_solver].
Qed.

(** The queue after an access, when the descriptor of the block moved to the end. *)
Lemma lru_hit dev l l1 cs l2 b ds' :
  cache_inv dev l -> l = l1 ++ cs :: l2 -> b <> no_block ->
  block_of (descs dev) cs = b -> payload ds' = payload (descs dev) ->
  map (block_of ds') ((l1 ++ l2) ++ [cs]) = lru_access b (lru_blocks dev l).
Proof.
  intros I -> Hb Ec P; pose proof (inv_nodup _ _ I) as Hnd; unfold lru_access, lru_blocks.
  assert (N : forall k, k <> cs -> k ∈ l1 ++ cs :: l2 -> block_of (descs dev) k <> b).
  { intros k Hk Hin E; apply Hk; eapply block_distinct; eauto; [| |congruence|congruence];
      intros ->; clear -Hnd Hin; nodups. }
  assert (A : forall q, (forall k, k ∈ q -> k <> cs /\ k ∈ l1 ++ cs :: l2) -> b ∉ map (block_of (descs dev)) q).
  { intros q Hq (k & E & Hk)%list_elem_of_fmap; destruct (Hq k Hk); eapply N; eauto. }
  rewrite map_app, !map_app; cbn [map]; rewrite Ec, decide_True by set_solver.
  rewrite filter_app, filter_cons, decide_False by auto.
  rewrite !filter_absent by (apply A; intros k Hk; split; [intros ->; clear -Hnd Hk; nodups|set_solver]).
  rewrite payload_block_of with (ds := descs dev), Ec by auto; f_equal; f_equal;
    apply map_ext; intros; now apply payload_block_of.
Qed.

(** Reading a block into the descriptor [cs] of the ring. *)
Lemma inv_fill dev l cs b :
  cache_inv dev l -> cs ∈ l -> 0 <= b < no_block -> u64 (b * (cache_block_size dev / sector_size)) =
    b * (cache_block_size dev / sector_size) ->
  (forall i d, descs dev !! S i = Some d -> block d <> b) ->
  exists d ds', descs dev !! cs = Some d /\ set_block cs b (descs dev) = Some ds' /\
    let p := ((cs - 1) * Z.to_nat (cache_block_size dev))%nat in
    let data := blit p (getoneblk sector_size rdwr_sectors (data_at dev p) b (cache_block_size dev)) (cache_data dev) in
    let dev' := set_data data (set_descs ds' dev) in
    cdata d = Some p /\ cache_inv dev' l /\ data_at dev' p = content (cache_block_size dev) b /\
    (p + Z.to_nat (cache_block_size dev) <= length (cache_data dev))%nat.
Proof.
  intros I Hin Hb Hov Hno; pose proof I as I'; destruct I'.
  assert (Hcs : (1 <= cs <= Z.to_nat (cache_entries dev))%nat)
    by (pose proof (inv_bound0 _ Hin); split; [destruct cs; [clear -inv_nodup0 Hin; nodups|lia]|done]).
  destruct cs as [|k]; [lia|]; destruct (lookup_lt_is_Some_2 (descs dev) (S k)) as [d Hd]; [lia|].
  unfold set_block; rewrite Hd; do 2 eexists; split; [done|split; [done|]]; cbn zeta.
  replace (S k - 1)%nat with k by lia; set (bs := Z.to_nat (cache_block_size dev)) in *; set (p := (k * bs)%nat).
  assert (Hp : (p + bs <= length (cache_data dev))%nat) by (pose proof (Nat.mul_le_mono_r (S k) _ bs (proj2 Hcs)); subst p; lia).
  assert (Hold : length (data_at dev p) = bs) by now apply length_slice.
  assert (Hg : getoneblk sector_size rdwr_sectors (data_at dev p) b (cache_block_size dev) = content (cache_block_size dev) b).
  { unfold getoneblk, content; rewrite Hov.
    assert (0 <= cache_block_size dev / sector_size) by (apply Z.div_pos; lia).
    apply rdwr_ok; [apply Z.mul_nonneg_nonneg; lia|lia|]; rewrite Hold; subst bs; destruct inv_spb0 as [? [q Hq]]; rewrite Hq at 2; rewrite Z.div_mul by lia; nia. }
  assert (Hc : length (content (cache_block_size dev) b) = bs) by (apply length_content; [apply inv_spb0|lia]).
  rewrite Hg; clear Hg.
  assert (Hkeep : forall i, i <> k -> (i < Z.to_nat (cache_entries dev))%nat ->
    slice (i * bs) bs (blit p (content (cache_block_size dev) b) (cache_data dev)) = slice (i * bs) bs (cache_data dev)).
  { intros i Hi Hl; pose proof (Nat.mul_le_mono_r (S i) _ bs Hl).
    apply slice_blit_out; subst p; [lia|]; rewrite Hc.
    destruct (lt_dec i k) as [Hlt|]; [pose proof (Nat.mul_le_mono_r (S i) k bs Hlt)|
      pose proof (Nat.mul_le_mono_r (S k) i bs ltac:(lia))]; lia. }
  assert (Hnow : slice p bs (blit p (content (cache_block_size dev) b) (cache_data dev)) = content (cache_block_size dev) b).
  { rewrite <- Hc at 1; apply slice_blit_in; lia. }
  split; [eauto|split; [|split; [exact Hnow|exact Hp]]].
  assert (P : forall i, nxt (<[S k := Desc b (prev d) (next d) (cdata d)]> (descs dev)) i = nxt (descs dev) i /\
    prv (<[S k := Desc b (prev d) (next d) (cdata d)]> (descs dev)) i = prv (descs dev) i).
  { intros i; unfold nxt, prv; destruct (decide (i = S k)) as [->|];
      [rewrite list_lookup_insert_eq, Hd by lia|rewrite list_lookup_insert_ne by auto]; done. }
  assert (L : forall i e, <[S k := Desc b (prev d) (next d) (cdata d)]> (descs dev) !! S i = Some e ->
    (i = k /\ block e = b /\ cdata e = cdata d) \/ (i <> k /\ descs dev !! S i = Some e)).
  { intros i e He; destruct (decide (i = k)) as [->|].
    - rewrite list_lookup_insert_eq in He by lia; injection He as <-; auto.
    - rewrite list_lookup_insert_ne in He by lia; auto. }
  split; cbn [set_data set_descs descs cache_head cache_block_size cache_entries cache_data]; auto;
    rewrite ?length_insert, ?length_blit; auto.
  - revert inv_ring0; apply seg_ext; intros; apply P.
  - intros i Hi; rewrite (proj1 (P i)); auto.
  - intros i e He; destruct (L _ _ He) as [(-> & _ & ->)|[? ?]]; eauto.
  - intros i e He Hne; destruct (L _ _ He) as [(-> & -> & _)|[? He']]; [exact Hnow|].
    pose proof (lookup_lt_Some _ _ _ He').
    unfold data_at; cbn [set_data set_descs cache_block_size cache_data].
    rewrite Hkeep by lia; apply (inv_content0 i e); auto.
  - intros i j e f He Hf Ee Hne.
    destruct (L _ _ He) as [(-> & Eb & _)|[? He']], (L _ _ Hf) as [(-> & Eb' & _)|[? Hf']]; auto.
    + destruct (Hno _ _ Hf'); congruence.
    + destruct (Hno _ _ He'); congruence.
    + eauto.
Qed.

(** The block number is one that the disk can have. *)
Definition valid_block (bsize b : Z) : Prop :=
  0 <= b < no_block /\ 0 <= b * (bsize / sector_size) <= no_block.

Lemma block_of_data ds i d : ds !! i = Some d -> block_of ds i = block d.
Proof. unfold block_of; now intros ->. Qed.

Lemma block_of_set ds cs b ds' i :
  set_block cs b ds = Some ds' -> block_of ds' i = if decide (i = cs) then b else block_of ds i.
Proof.
  unfold set_block, block_of; destruct (ds !! cs) eqn:E; [|done]; intros [= <-].
  pose proof (lookup_lt_Some _ _ _ E); destruct (decide (i = cs)) as [->|].
  - now rewrite list_lookup_insert_eq.
  - now rewrite list_lookup_insert_ne.
Qed.

(** What a lookup leaves as it was. *)
Definition same_cache (dev dev' : device) : Prop :=
  cache_block_size dev' = cache_block_size dev /\ cache_entries dev' = cache_entries dev /\
  length (cache_data dev') = length (cache_data dev).

(** The queue after an access to [b]: locked blocks do not move. *)
Definition lru_step (dev dev' : device) (l l' : list nat) (b : Z) : Prop :=
  (locked_block dev l b /\ dev' = dev /\ l' = l) \/
  (~ locked_block dev l b /\ lru_blocks dev' l' = lru_access b (lru_blocks dev l) /\
   (b ∈ lru_blocks dev l -> cache_data dev' = cache_data dev) /\
   (forall x, locked_block dev' l' x <-> locked_block dev l x) /\ length l' = length l).

Lemma locked_relink dev l ds' data l' x :
  (forall i, i ∈ l' <-> i ∈ l) ->
  (forall i, i ∉ l -> (1 <= i)%nat -> block_of ds' i = block_of (descs dev) i) ->
  locked_block (set_data data (set_descs ds' dev)) l' x <-> locked_block dev l x.
Proof.
  intros Hl P; unfold locked_block; cbn; split; intros (i & ? & Hi & <-); exists i.
  - rewrite P by (rewrite <- ?Hl; auto; lia); rewrite <- Hl; auto.
  - rewrite P by (auto; lia); rewrite Hl; auto.
Qed.

Lemma set_data_same dev : set_data (cache_data dev) dev = dev.
Proof. now destruct dev. Qed.

Lemma get_cache_step dev l b :
  cache_inv dev l -> valid_block (cache_block_size dev) b -> l <> [] \/ locked_block dev l b ->
  exists p dev' l', get_cache sector_size rdwr_sectors dev b = Some (p, dev') /\
    cache_inv dev' l' /\ same_cache dev dev' /\
    data_at dev' p = content (cache_block_size dev) b /\
    (p + Z.to_nat (cache_block_size dev) <= length (cache_data dev))%nat /\
    lru_step dev dev' l l' b.
Proof.
  intros I [Hb Hov] Hl; assert (Hne : b <> no_block) by lia.
  destruct (get_block_spec dev l b) as (cs & ds' & l' & E & Hr & I' & P & Hcase); auto.
  unfold get_cache; rewrite E; clear E; cbn [descs set_descs].
  destruct (lookup_lt_is_Some_2 ds' cs) as [d Hd];
    [rewrite (payload_length _ _ P), (inv_len _ _ I); lia|]; rewrite Hd.
  pose proof (block_of_data _ _ _ Hd) as Hbd; rewrite (payload_block_of _ _ _ P) in Hbd.
  destruct cs as [|k]; [lia|].
  assert (Hc : cdata d = Some (k * Z.to_nat (cache_block_size dev))%nat) by (eapply (inv_data _ _ I'); eauto).
  rewrite Hc.
  assert (Hp : (k * Z.to_nat (cache_block_size dev) + Z.to_nat (cache_block_size dev) <= length (cache_data dev))%nat).
  { pose proof (inv_room _ _ I); pose proof (Nat.mul_le_mono_r (S k) _ (Z.to_nat (cache_block_size dev)) (proj2 Hr)); lia. }
  destruct (block d =? b) eqn:Eb; bools.
  - do 2 eexists; exists l'; split; [done|split; [done|split; [done|split; [|split; [exact Hp|]]]]].
    { rewrite <- Eb; apply (inv_content _ _ I' k d); auto; lia. }
    destruct Hcase as [(Hn & -> & -> & Ec)|(l1 & l2 & -> & -> & _)].
    + left; split; [exists (S k); auto|split; [now destruct dev|done]].
    + right; split; [|split; [|split; [done|split]]].
      * intros (i & Hi & Hn & Ei); apply Hn; replace i with (S k); [set_solver|].
        apply (block_distinct _ _ _ _ I); try lia; congruence.
      * unfold lru_blocks; cbn [set_descs descs]; eapply lru_hit; [exact I|done|lia|congruence|exact P].
      * intros x; rewrite <- (set_data_same (set_descs ds' dev)); apply locked_relink;
          [intros; set_solver|intros; now apply payload_block_of].
      * rewrite !length_app; cbn; lia.
  - destruct Hcase as [(_ & _ & _ & Ec)|(l1 & l2 & -> & -> & [?|[-> Hno]])]; [congruence..|].
    cbn [app] in *; assert (Hno' : forall i d, ds' !! S i = Some d -> block d <> b).
    { intros i e He; destruct (payload_lookup _ _ _ _ P He) as (e0 & H0 & <- & _); eauto. }
    destruct (inv_fill _ _ (S k) b I') as (e & ds2 & He & Es & Hrest); auto; [set_solver| |].
    { cbn; apply Z.mod_small; unfold no_block in *; lia. }
    cbn [set_descs descs cache_block_size cache_data] in *; rewrite Es; replace (S k - 1)%nat with k in Hrest by lia.
    destruct Hrest as (_ & I2 & Hd2 & _).
    do 2 eexists; eexists; split; [done|split; [exact I2|split; [|split; [exact Hd2|split; [exact Hp|right]]]]].
    { split; [done|split; [done|apply length_blit]]. }
    assert (Hcs : block_of ds2 (S k) = b) by (rewrite (block_of_set _ _ _ _ _ Es); now rewrite decide_True).
    assert (Hot : forall i, i <> S k -> block_of ds2 i = block_of (descs dev) i).
    { intros i Hi; rewrite (block_of_set _ _ _ _ _ Es), decide_False by auto; now apply payload_block_of. }
    assert (Habs : forall i, i <> 0%nat -> block_of (descs dev) i <> b).
    { intros [|i] Hi; [done|]; unfold block_of; destruct (descs dev !! S i) eqn:Ei; [eauto|lia]. }
    pose proof (inv_nodup _ _ I) as Hnd.
    assert (Hq : b ∉ lru_blocks dev (S k :: l2)).
    { unfold lru_blocks; intros (i & Ei & Hi)%list_elem_of_fmap; apply (Habs i); [|done].
      intros ->; clear -Hnd Hi; nodups. }
    split; [intros (i & Hi & _ & Ei); apply (Habs i); [lia|done]|split; [|split; [done|split]]].
    + unfold lru_access; rewrite decide_False by done; unfold lru_blocks; cbn [set_data set_descs descs map tail].
      rewrite map_app; cbn [map]; rewrite Hcs; f_equal; apply map_ext_in; intros i Hi%list_elem_of_In.
      apply Hot; intros ->; clear -Hnd Hi; nodups.
    + intros x; refine (locked_relink dev (S k :: l2) ds2 _ _ x _ _); [intros; set_solver|].
      intros i Hi _; apply Hot; set_solver.
    + rewrite length_app; cbn; lia.
Qed.

(** ** Setting the cache up *)

Lemma init_descs_lookup n bs fuel : forall i p k, (k < fuel)%nat ->
  init_descs fuel i n bs p !! k =
    Some (Desc no_block (Some (i + k)%nat) (Some (if (S (i + k) =? n)%nat then 0%nat else S (S (i + k))))
      (Some (Z.to_nat (p + Z.of_nat k * bs)))).
Proof.
  induction fuel as [|fuel IH]; intros i p k Hk; [lia|]; cbn [init_descs]; destruct k as [|k]; cbn [lookup list_lookup].
  - rewrite Nat.add_0_r; do 3 f_equal; lia.
  - rewrite IH by lia; replace (S i + k)%nat with (i + S k)%nat by lia; do 3 f_equal; lia.
Qed.

Lemma length_init_descs n bs fuel : forall i p, length (init_descs fuel i n bs p) = fuel.
Proof. induction fuel; intros; cbn; auto. Qed.

Lemma seg_seq ds m b : forall a,
  (forall j, (a <= j < a + m)%nat -> link ds j (S j)) -> link ds (a + m) b -> seg ds a (seq (S a) m) b.
Proof.
  induction m as [|m IH]; intros a H1 H2; cbn [seq seg]; [now rewrite Nat.add_0_r in H2|].
  split; [apply H1; lia|apply IH; [intros; apply H1; lia|now replace (S a + m)%nat with (a + S m)%nat by lia]].
Qed.

Lemma cache_init_step dev shift :
  let bsize := 2 ^ shift in
  let n := (cache_size dev - sizeof_cache) / (bsize + sizeof_cache) in
  let dev' := cache_init dev shift in
  0 <= shift < 16 -> is_u32 (cache_size dev) -> (sector_size | bsize) ->
  Z.of_nat (length (cache_data dev)) = cache_size dev -> n < 65536 ->
  bsize + 2 * sizeof_cache <= cache_size dev ->
  cache_inv dev' (seq 1 (Z.to_nat n)) /\ cache_block_size dev' = bsize /\
  lru_blocks dev' (seq 1 (Z.to_nat n)) = replicate (Z.to_nat n) no_block /\
  1 <= n /\ Z.shiftl n shift + (n + 1) * sizeof_cache <= cache_size dev.
Proof.
  intros bsize n dev' Hs Hz Hdv Hlen Hn Hfit.
  assert (Hb : 1 <= bsize <= 32768) by (split; [apply (Z.pow_le_mono_r 2 0)|apply (Z.pow_le_mono_r 2 _ 15)]; lia).
  assert (Hn1 : 1 <= n) by (apply Z.div_le_lower_bound; unfold sizeof_cache in *; lia).
  pose proof (Z.mul_div_le (cache_size dev - sizeof_cache) (bsize + sizeof_cache) ltac:(unfold sizeof_cache; lia)) as Hm.
  fold n in Hm.
  assert (E : dev' = Dev true (cache_data dev) true bsize n (cache_size dev)
    (Desc no_block (Some (Z.to_nat n)) (Some 1%nat) None :: init_descs (Z.to_nat n) 0 (Z.to_nat n) bsize 0)).
  { unfold dev', cache_init; rewrite Z.shiftl_1_l; fold bsize; rewrite (u16_small bsize) by lia.
    rewrite (proj2 (Z.ltb_ge _ _)) by lia; rewrite u32_small by (unfold is_u32, sizeof_cache in *; lia).
    fold n; rewrite u16_small by lia; rewrite (proj2 (Nat.eqb_neq _ _)) by lia; done. }
  clearbody dev'; subst dev'; unfold sizeof_cache in *.
  assert (L : forall k, (k < Z.to_nat n)%nat -> descs (Dev true (cache_data dev) true bsize n (cache_size dev)
    (Desc no_block (Some (Z.to_nat n)) (Some 1%nat) None :: init_descs (Z.to_nat n) 0 (Z.to_nat n) bsize 0)) !! S k =
    Some (Desc no_block (Some k) (Some (if (S k =? Z.to_nat n)%nat then 0%nat else S (S k)))
      (Some (Z.to_nat (Z.of_nat k * bsize))))) by (intros; cbn; now rewrite init_descs_lookup by lia).
  assert (LL : forall k d, descs (Dev true (cache_data dev) true bsize n (cache_size dev)
    (Desc no_block (Some (Z.to_nat n)) (Some 1%nat) None :: init_descs (Z.to_nat n) 0 (Z.to_nat n) bsize 0)) !! S k = Some d ->
    block d = no_block /\ cdata d = Some (k * Z.to_nat bsize)%nat).
  { intros k d Hd; pose proof (lookup_lt_Some _ _ _ Hd) as Hk; cbn in Hk; rewrite length_init_descs in Hk.
    rewrite L in Hd by lia; injection Hd as <-; split; [done|cbn; f_equal; lia]. }
  split; [|split; [done|split; [|split; [lia|rewrite Z.shiftl_mul_pow2 by lia; fold bsize; lia]]]].
  - split; cbn [cache_head cache_block_size cache_entries cache_data]; auto; try lia.
    + split; [lia|done].
    + cbn; now rewrite length_init_descs.
    + change (0%nat :: seq 1 (Z.to_nat n)) with (seq 0 (S (Z.to_nat n))); apply NoDup_seq.
    + apply seg_seq.
      * intros [|j] Hj; split; unfold nxt, prv; rewrite ?L by lia; cbn [mbind option_bind next prev]; try done.
        rewrite (proj2 (Nat.eqb_neq _ _)) by lia; done.
      * cbn [Nat.add]; split; unfold nxt, prv; [|done].
        pose proof (L (Z.to_nat n - 1)%nat ltac:(lia)) as L'.
        replace (S (Z.to_nat n - 1)) with (Z.to_nat n) in L' by lia; rewrite L'; cbn [mbind option_bind next].
        now rewrite Nat.eqb_refl.
    + intros i Hi%elem_of_seq; lia.
    + intros i Hi; unfold nxt; rewrite lookup_ge_None_2; [done|]; cbn; rewrite length_init_descs.
      destruct (decide (S (Z.to_nat n) <= i)%nat); [done|]; destruct Hi; destruct i; [left|right; apply elem_of_seq; lia].
    + intros i d Hd; now apply LL.
    + intros i d Hd; destruct (LL _ _ Hd) as [-> _]; done.
    + intros i j d e Hd _ _; destruct (LL _ _ Hd) as [-> _]; done.
  - apply list_eq_same_length with (n := Z.to_nat n); rewrite ?length_replicate; unfold lru_blocks;
      rewrite ?length_map, ?length_seq; auto.
    intros i x y Hi; rewrite list_lookup_fmap, lookup_replicate_2, lookup_seq_lt by done.
    cbn [fmap option_fmap option_map]; unfold block_of.
    change (1 + i)%nat with (S i); rewrite (L i) by done; cbn; congruence.
Qed.

(** ** Locking a block *)

Lemma lock_step dev l1 cs l2 :
  cache_inv dev (l1 ++ cs :: l2) ->
  exists ds', cache_lock_block cs dev = Some (set_descs ds' dev) /\
    payload ds' = payload (descs dev) /\ cache_inv (set_descs ds' dev) (l1 ++ l2).
Proof.
  intros I; pose proof (inv_nodup _ _ I) as Hnd; pose proof (inv_ring _ _ I) as Hs.
  pose proof Hs as [H1 H2]%seg_app; unfold cache_lock_block.
  pose proof (seg_in _ _ _ _ H1) as Hp; pose proof (seg_out _ _ _ _ H2) as Hn; rewrite Hp, Hn.
  assert (Hc : List.last l1 0%nat <> cs).
  { destruct (last_snoc_or l1 0%nat) as [[-> E]|[l' E]]; [cbn|rewrite E in Hnd; intros E2; rewrite E2 in Hnd];
      nodups. }
  assert (Hc2 : List.hd 0%nat l2 <> cs) by (destruct l2; cbn [List.hd]; nodups).
  assert (B : (List.last l1 0 < length (descs dev) /\ List.hd 0 l2 < length (descs dev) /\ cs < length (descs dev))%nat).
  { split; [|split; [|eapply nxt_bound; eauto]].
    - destruct (last_snoc_or l1 0%nat) as [[-> E]|[l' E]]; [cbn in *; eapply nxt_bound; apply H1|].
      rewrite E in H1; apply seg_app in H1 as [_ [H1 _]]; eapply nxt_bound; eauto.
    - destruct l2; cbn in *; eapply prv_bound; apply H2. }
  destruct B as (B1 & B2 & B3).
  destruct (set_next_spec _ (Some (List.hd 0%nat l2)) _ B1) as (ds1 & -> & P1 & N1 & Q1).
  rewrite N1, decide_False, Hn by auto.
  destruct (set_prev_spec (List.hd 0%nat l2) (prv ds1 cs) ds1) as (ds2 & -> & P2 & Q2 & N2);
    [now rewrite (payload_length _ _ P1)|]; rewrite Q1, Hp in Q2.
  destruct (set_prev_spec cs None ds2) as (ds3 & -> & P3 & Q3 & N3); [erewrite !payload_length by eauto; lia|].
  destruct (set_next_spec cs None ds3) as (ds4 & -> & P4 & N4 & Q4); [erewrite !payload_length by eauto; lia|].
  exists ds4; split; [done|split; [congruence|]].
  apply (inv_relink dev (l1 ++ cs :: l2)); [done|congruence| | | |].
  - intros i; rewrite !elem_of_app, elem_of_cons; tauto.
  - eapply (NoDup_cons_1_2 cs); revert Hnd; rewrite <- (Permutation_middle (0%nat :: l1) l2 cs); done.
  - assert (S2 : seg ds2 0 (l1 ++ l2) 0).
    { eapply seg_unlink; eauto; intros j; rewrite ?N2, ?Q2, ?N1, ?Q1; done. }
    revert S2; apply seg_ext; intros u Hu.
    + rewrite N4, N3, decide_False; [done|]; intros ->; nodups.
    + rewrite Q4, Q3, decide_False; [done|]; intros ->; nodups.
  - intros i Hi; rewrite N4; destruct (decide (i = cs)); [done|]; rewrite N3, N2, N1.
    assert (Hi' : i ∉ 0%nat :: l1 ++ cs :: l2) by set_solver.
    destruct (decide (i = List.last l1 0%nat)) as [->|]; [|now apply (inv_locked _ _ I)].
    destruct Hi; destruct (last_snoc_or l1 0%nat) as [[-> E]|[l' E]]; [left|right].
    rewrite E at 2; set_solver.
Qed.

(** Every descriptor is empty. *)
Definition empty_cache (dev : device) : Prop := forall i d, descs dev !! S i = Some d -> block d = no_block.

Lemma fill_empty dev l p data :
  cache_inv dev l -> empty_cache dev -> cache_inv (set_data (blit p data (cache_data dev)) dev) l.
Proof.
  intros I E; destruct I; split; cbn [set_data descs cache_head cache_block_size cache_entries cache_data];
    rewrite ?length_blit; auto.
  intros i d Hd Hb; destruct (Hb (E _ _ Hd)).
Qed.

Lemma force_step dev l :
  cache_inv dev l -> empty_cache dev -> l <> [] ->
  exists dev' l', force_block_zero dev = Some dev' /\ cache_inv dev' l' /\
    length l' = (length l - 1)%nat /\ empty_cache dev' /\ locked_block dev' l' no_block /\
    cache_block_size dev' = cache_block_size dev.
Proof.
  intros I E Hl; destruct (get_block_spec dev l 0) as (cs & ds' & l' & G & Hr & I' & P & Hcase); auto.
  unfold force_block_zero; rewrite G.
  destruct (lookup_lt_is_Some_2 ds' cs) as [d Hd]; [rewrite (payload_length _ _ P), (inv_len _ _ I); lia|].
  cbn [descs set_descs]; rewrite Hd; destruct cs as [|k]; [lia|].
  rewrite (inv_data _ _ I' k d Hd).
  assert (E' : empty_cache (set_descs ds' dev)).
  { intros i e He; destruct (payload_lookup _ _ _ _ P He) as (e0 & H0 & <- & _); eauto. }
  assert (Hb : block_of (descs dev) (S k) <> 0).
  { unfold block_of; destruct (descs dev !! S k) eqn:Ek; [rewrite (E _ _ Ek); done|done]. }
  destruct Hcase as [(_ & _ & _ & ?)|(l1 & l2 & -> & -> & _)]; [done|].
  apply fill_empty with (p := (k * Z.to_nat (cache_block_size dev))%nat)
    (data := replicate (Z.to_nat (cache_block_size dev)) 0) in I'; [|done].
  destruct (lock_step _ (l1 ++ l2) (S k) [] I') as (ds2 & El & P2 & I2).
  do 2 eexists; split; [exact El|split; [exact I2|split; [rewrite !length_app; cbn; lia|split; [|split; [|done]]]]].
  - intros i e He; cbn in He; destruct (payload_lookup _ _ _ _ P2 He) as (e0 & H0 & <- & _).
    cbn in H0; eapply E'; eauto.
  - exists (S k); split; [done|split].
    + pose proof (inv_nodup _ _ I); nodups.
    + cbn; rewrite (payload_block_of _ _ _ P2); cbn; rewrite (block_of_data _ _ _ Hd); eapply E'; eauto.
Qed.

(** ** Reading at byte offsets *)

(** The byte [i] of the device. *)
Definition device_byte (i : Z) : Z := byte_at (disk (i / sector_size)) (Z.to_nat (i mod sector_size)).

Lemma disk_bytes s : disk s = map device_byte (seqZ (s * sector_size) sector_size).
Proof.
  pose proof (disk_sectors s).
  apply list_eq_same_length with (n := Z.to_nat sector_size); rewrite ?length_map, ?length_seqZ; try lia.
  intros i x y Hi Hx; rewrite list_lookup_fmap, lookup_seqZ_lt by lia; cbn.
  unfold device_byte, byte_at; rewrite Z.div_add_l, Z.div_small, Z.add_0_r by lia.
  rewrite Z.add_comm, Z.mod_add, Z.mod_small, Nat2Z.id, Hx by lia; cbn; congruence.
Qed.

Lemma content_bytes bsize b :
  (sector_size | bsize) -> 0 <= bsize -> content bsize b = map device_byte (seqZ (b * bsize) bsize).
Proof.
  intros [k ->] Hk; unfold content; rewrite Z.div_mul by lia.
  assert (0 <= k) by nia; rewrite Z.mul_assoc; generalize (b * k); clear b Hk.
  pattern k; apply natlike_ind; [intros s; cbn; done| |done]; intros n Hn IH s.
  rewrite seqZ_cons by lia; cbn [map concat]; replace (Z.pred (Z.succ n)) with n by lia.
  rewrite IH, disk_bytes, (Z.mul_succ_l n), (Z.add_comm (n * sector_size)), seqZ_app, map_app by nia.
  do 3 f_equal; lia.
Qed.

Lemma slice_seqZ a n p c :
  0 <= n -> (p + c <= Z.to_nat n)%nat -> slice p c (map device_byte (seqZ a n)) = map device_byte (seqZ (a + Z.of_nat p) (Z.of_nat c)).
Proof.
  intros Hn H; unfold slice; rewrite <- fmap_drop, <- fmap_take; f_equal.
  replace n with (Z.of_nat p + (Z.of_nat c + (n - Z.of_nat p - Z.of_nat c))) by lia.
  rewrite seqZ_app by lia; rewrite drop_app_length' by (rewrite length_seqZ; lia).
  rewrite seqZ_app by lia; rewrite take_app_length' by (rewrite length_seqZ; lia); done.
Qed.

Lemma slice_slice p q n c (mem : list Z) :
  (q + c <= n)%nat -> slice q c (slice p n mem) = slice (p + q) c mem.
Proof. intros H; unfold slice; rewrite skipn_firstn_comm, drop_drop, take_take; f_equal; lia. Qed.

Lemma lru_step_length dev dev' l l' b : lru_step dev dev' l l' b -> length l' = length l.
Proof. intros [(_ & _ & ->)|(_ & _ & _ & _ & ?)]; done. Qed.

Lemma read_loop_step shift fuel : forall offset count dev l,
  0 <= shift < 32 -> cache_inv dev l -> l <> [] -> cache_block_size dev = 2 ^ shift ->
  0 <= count < 4294967296 -> 0 <= offset -> offset + count < no_block -> (Z.to_nat count <= fuel)%nat ->
  exists dev' l', cache_read_loop sector_size rdwr_sectors fuel shift (2 ^ shift) offset count dev =
      Some (map device_byte (seqZ offset count), dev') /\
    cache_inv dev' l' /\ length l' = length l /\ cache_block_size dev' = cache_block_size dev.
Proof.
  induction fuel as [|fuel IH]; intros offset count dev l Hs I Hl Hbs Hc Ho Hoc Hf;
    [assert (count = 0) as -> by lia; exists dev, l; done|].
  cbn [cache_read_loop]; destruct (count =? 0) eqn:E; bools; [subst count; exists dev, l; done|].
  assert (Hp : 1 <= 2 ^ shift <= 2147483648) by (split; [apply (Z.pow_le_mono_r 2 0)|apply (Z.pow_le_mono_r 2 _ 31)]; lia).
  replace (2 ^ shift - 1) with (Z.ones shift) by (rewrite Z.ones_equiv; lia).
  rewrite Z.land_ones, Z.shiftr_div_pow2 by lia.
  pose proof (Z.mod_pos_bound offset (2 ^ shift)); pose proof (Z.div_mod offset (2 ^ shift)).
  assert (Hq : 0 <= offset / 2 ^ shift <= offset).
  { split; [apply Z.div_pos; lia|apply Z.div_le_upper_bound; [lia|]]; nia. }
  rewrite (u32_small (offset mod _)), (u32_small (2 ^ shift - _)) by lia.
  set (off := offset mod 2 ^ shift) in *; set (b := offset / 2 ^ shift) in *.
  destruct (get_cache_step dev l b) as (p & dev1 & l1 & -> & I1 & (B1 & _ & L1) & D1 & P1 & S1); auto.
  { rewrite Hbs; split; [lia|]; assert (0 <= 2 ^ shift / sector_size <= 2 ^ shift)
      by (split; [apply Z.div_pos; lia|apply Z.div_le_upper_bound; [lia|]; nia]); nia. }
  apply lru_step_length in S1.
  set (cnt := if count <? 2 ^ shift - off then count else 2 ^ shift - off).
  assert (Hcnt : 1 <= cnt <= count /\ off + cnt <= 2 ^ shift) by (subst cnt; split_if; lia).
  assert (Hov : u64 (offset + cnt) = offset + cnt) by (apply Z.mod_small; unfold no_block in *; lia).
  destruct (IH (offset + cnt) (count - cnt) dev1 l1) as (dev2 & l2 & E2 & I2 & L2 & B2); auto; try lia.
  { intros ->; destruct l; done. }
  rewrite Hov, E2; exists dev2, l2; split; [|split; [done|split; [congruence|congruence]]].
  do 2 f_equal; replace count with (cnt + (count - cnt)) at 2 by lia.
  rewrite seqZ_app, map_app by lia; f_equal.
  rewrite <- (slice_slice p (Z.to_nat off) (Z.to_nat (cache_block_size dev))) by lia.
  unfold data_at in D1; rewrite B1 in D1; rewrite D1, content_bytes by (try apply (inv_spb _ _ I); lia).
  rewrite slice_seqZ, Hbs by lia; do 2 f_equal; lia.
Qed.

(** ** The theorems *)

(** C10: get_cache answers where the bytes of the block on the disk are; in the
    queue of blocks, least recently used first, the block moves to the end, or
    comes in the place of the first one when it was not there, and only then is
    the buffer written; locked blocks neither move nor leave.  The ring of links,
    the data and the block numbers stay consistent. *)
Theorem get_cache_correct dev l b :
  cache_inv dev l -> valid_block (cache_block_size dev) b -> l <> [] \/ locked_block dev l b ->
  exists p dev' l', get_cache sector_size rdwr_sectors dev b = Some (p, dev') /\
    cache_inv dev' l' /\ same_cache dev dev' /\
    data_at dev' p = content (cache_block_size dev) b /\
    (p + Z.to_nat (cache_block_size dev) <= length (cache_data dev))%nat /\
    lru_step dev dev' l l' b.
Proof. apply get_cache_step. Qed.

(** Cache_init cuts the buffer into as many blocks as fit beside the head and
    their descriptors, all of them empty and in the ring, without reaching past
    the buffer's end. *)
Theorem cache_init_correct dev shift :
  let bsize := 2 ^ shift in
  let n := (cache_size dev - sizeof_cache) / (bsize + sizeof_cache) in
  let dev' := cache_init dev shift in
  0 <= shift < 16 -> is_u32 (cache_size dev) -> (sector_size | bsize) ->
  Z.of_nat (length (cache_data dev)) = cache_size dev -> n < 65536 ->
  bsize + 2 * sizeof_cache <= cache_size dev ->
  cache_inv dev' (seq 1 (Z.to_nat n)) /\ cache_block_size dev' = bsize /\
  lru_blocks dev' (seq 1 (Z.to_nat n)) = replicate (Z.to_nat n) no_block /\
  1 <= n /\ Z.shiftl n shift + (n + 1) * sizeof_cache <= cache_size dev.
Proof. apply cache_init_step. Qed.

(** Cache_read copies the bytes of the device from the offset on, whatever
    blocks they lie in and however they are aligned, and ends. *)
Theorem cache_read_correct dev l shift offset count :
  0 <= shift < 32 -> cache_inv dev l -> l <> [] -> cache_block_size dev = 2 ^ shift ->
  0 <= count < 4294967296 -> 0 <= offset -> offset + count < no_block ->
  exists dev' l', cache_read sector_size rdwr_sectors shift (2 ^ shift) offset count dev =
      Some (map device_byte (seqZ offset count), dev') /\ cache_inv dev' l' /\ l' <> [].
Proof.
  intros Hs I Hl Hb Hc Ho Hoc.
  destruct (read_loop_step shift (Z.to_nat count) offset count dev l) as (dev' & l' & E & I' & L & _); auto.
  exists dev', l'; split; [exact E|split; [done|]]; intros ->; destruct l; done.
Qed.

(** The ext2 and UFS drivers clear the descriptor that _get_cache_block
    answers for block 0 and lock it, to have that block read as zeroes; but the
    descriptor is not marked with the block's number: block 0 still reads as what
    is on the disk, and an empty descriptor is locked for good. *)
Theorem block_zero_not_forced dev l :
  cache_inv dev l -> empty_cache dev -> (2 <= length l)%nat ->
  exists dev1 l1, force_block_zero dev = Some dev1 /\ cache_inv dev1 l1 /\
    locked_block dev1 l1 no_block /\ ~ locked_block dev1 l1 0 /\
    exists p dev2, get_cache sector_size rdwr_sectors dev1 0 = Some (p, dev2) /\
      data_at dev2 p = content (cache_block_size dev) 0.
Proof.
  intros I E Hl; destruct (force_step dev l) as (dev1 & l1 & F & I1 & L1 & E1 & K1 & B1); auto.
  { intros ->; cbn in Hl; lia. }
  exists dev1, l1; split; [done|split; [done|split; [done|split]]].
  - intros ([|i] & Hi & _ & Ei); [lia|]; unfold block_of in Ei.
    destruct (descs dev1 !! S i) eqn:Ed; [rewrite (E1 _ _ Ed) in Ei|]; discriminate.
  - destruct (get_cache_step dev1 l1 0) as (p & dev2 & l2 & G & _ & _ & D & _); auto.
    + split; unfold no_block; lia.
    + left; intros ->; cbn in L1; lia.
    + rewrite <- B1; eauto.
Qed.
End correct.

(** ** What the file system drivers use of the cache *)

(** A reader of blocks: the block's bytes, and its own state after. *)
Class BlockReader (St : Type) := { read_block : Z -> St -> option (list Z * St) }.

(** It answers the bytes [bytes b] of every block up to [bound]. *)
Class BlockReaderLaws (St : Type) `{BlockReader St} (bytes : Z -> list Z) (bound : Z) := {
  reader_ok : St -> Prop;
  read_block_ok : forall st b, reader_ok st -> 0 <= b < bound ->
    exists st', read_block b st = Some (bytes b, st') /\ reader_ok st'
}.

(** The cache is one. *)
Definition cache_reader sector_size rdwr_sectors : BlockReader device := {|
  read_block b dev :=
    let* (p, dev) := get_cache sector_size rdwr_sectors dev b in Some (data_at dev p, dev)
|}.

Definition cache_reader_laws sector_size rdwr_sectors disk bsize
  (pos : 0 < sector_size) (sectors : forall s, Z.of_nat (length (disk s)) = sector_size)
  (rdwr_ok : forall old lba n, 0 <= lba -> 0 <= n -> Z.of_nat (length old) = n * sector_size ->
    rdwr_sectors old lba n = concat (map disk (seqZ lba n)))
  (Hb : (sector_size | bsize) /\ 0 < bsize < 65536) :
  @BlockReaderLaws device (cache_reader sector_size rdwr_sectors) (content sector_size disk bsize) 281474976710656.
Proof.
  refine (@Build_BlockReaderLaws _ (cache_reader _ _) _ _
    (fun dev => exists l, cache_inv sector_size disk dev l /\ l <> [] /\ cache_block_size dev = bsize) _).
  intros dev b (l & I & Hl & Hs) Hr; cbn.
  destruct (get_cache_step _ _ _ pos sectors rdwr_ok dev l b I) as (p & dev' & l' & -> & I' & (B & _) & D & _ & S);
    [|now left|].
  - rewrite Hs; split; [unfold no_block; lia|].
    assert (0 <= bsize / sector_size <= bsize) by
      (split; [apply Z.div_pos|apply Z.div_le_upper_bound]; nia).
    unfold no_block; nia.
  - exists dev'; rewrite D, Hs; split; [done|]; exists l'; split; [done|split; [|congruence]].
    apply lru_step_length in S; intros ->; destruct l; done.
Defined.

(** With blocks of one sector, a block is a sector. *)
Lemma content_sector sector_size disk b : 0 < sector_size -> content sector_size disk sector_size b = disk b.
Proof. intros H; unfold content; rewrite Z.div_same, Z.mul_1_r by lia; cbn; apply app_nil_r. Qed.

Definition sector_reader_laws sector_size rdwr_sectors disk
  (pos : 0 < sector_size < 65536) (sectors : forall s, Z.of_nat (length (disk s)) = sector_size)
  (rdwr_ok : forall old lba n, 0 <= lba -> 0 <= n -> Z.of_nat (length old) = n * sector_size ->
    rdwr_sectors old lba n = concat (map disk (seqZ lba n))) :
  @BlockReaderLaws device (cache_reader sector_size rdwr_sectors) disk 281474976710656.
Proof.
  refine (@Build_BlockReaderLaws _ (cache_reader _ _) _ _
    (fun dev => exists l, cache_inv sector_size disk dev l /\ l <> [] /\ cache_block_size dev = sector_size) _).
  intros dev b Hd Hb; rewrite <- (content_sector sector_size disk b) by lia.
  assert (D : (sector_size | sector_size) /\ 0 < sector_size < 65536) by (split; [reflexivity|done]).
  apply (@read_block_ok _ _ _ _ (cache_reader_laws _ _ _ _ (proj1 pos) sectors rdwr_ok D) dev b Hd Hb).
Defined.

(** ** A small cache *)

(** Sectors of two bytes, blocks of two sectors, room for three blocks. *)
Definition small_disk (s : Z) : list Z := [u8 s; 1].
Definition small_rdwr (old : list Z) (lba n : Z) : list Z := concat (map small_disk (seqZ lba n)).
Definition small_dev : device := cache_init (Dev false (replicate 100 0) false 0 0 100 []) 2.

Lemma small_inv : cache_inv 2 small_disk small_dev [1; 2; 3]%nat.
Proof.
  change [1; 2; 3]%nat with (seq 1 (Z.to_nat ((100 - sizeof_cache) / (2 ^ 2 + sizeof_cache)))).
  apply (cache_init_step 2 small_disk); cbn; unfold is_u32, sizeof_cache; try lia; try done.
  now exists 2.
Qed.

Definition run_cache (bs : list Z) (dev : device) : option (list Z * device) :=
  fold_left (fun r b => let* (_, dev) := r in
    let* (p, dev) := get_cache 2 small_rdwr dev b in Some (data_at dev p, dev)) bs (Some ([], dev)).

(** 5 is used again and stays; 6, the oldest, makes room for 8. *)
Example lru_run :
  option_map (fun r => (r.1, lru_blocks r.2 [1; 2; 3]%nat)) (run_cache [5; 6; 7; 5; 8] small_dev) =
  Some ([16; 1; 17; 1], [5; 8; 7]).
Proof. vm_compute; reflexivity. Qed.

Lemma get_cache_correct_witness :
  exists p dev' l', get_cache 2 small_rdwr small_dev 5 = Some (p, dev') /\
    cache_inv 2 small_disk dev' l' /\ data_at dev' p = [10; 1; 11; 1].
Proof.
  destruct (get_cache_correct 2 small_rdwr small_disk) with (dev := small_dev) (l := [1; 2; 3]%nat) (b := 5)
    as (p & dev' & l' & H & I & _ & D & _);
    [lia|reflexivity|reflexivity|apply small_inv|vm_compute; intuition discriminate|left; discriminate|].
  exists p, dev', l'; split; [exact H|split; [exact I|rewrite D; reflexivity]].
Defined.

Lemma cache_init_correct_witness :
  cache_inv 2 small_disk small_dev [1; 2; 3]%nat /\ cache_block_size small_dev = 4.
Proof.
  destruct (cache_init_correct 2 small_disk) with (dev := Dev false (replicate 100 0) false 0 0 100 []) (shift := 2)
    as (H & Hb & _); [lia|unfold is_u32; cbn; lia|exists 2; reflexivity|reflexivity|
      reflexivity|vm_compute; discriminate|].
  split; [exact H|exact Hb].
Defined.

Lemma cache_read_correct_witness :
  exists dev' l', cache_read 2 small_rdwr 2 4 3 7 small_dev = Some ([1; 2; 1; 3; 1; 4; 1], dev') /\
    cache_inv 2 small_disk dev' l' /\ l' <> [].
Proof.
  destruct (cache_read_correct 2 small_rdwr small_disk) with (dev := small_dev) (l := [1; 2; 3]%nat)
    (shift := 2) (offset := 3) (count := 7) as (dev' & l' & H & I & N);
    [lia|reflexivity|reflexivity|lia|apply small_inv|discriminate|reflexivity|lia|lia|reflexivity|].
  exists dev', l'; split; [exact (eq_trans H eq_refl)|split; [exact I|exact N]].
Defined.

Lemma block_zero_not_forced_witness :
  exists dev1 l1, force_block_zero small_dev = Some dev1 /\ cache_inv 2 small_disk dev1 l1 /\
    exists p dev2, get_cache 2 small_rdwr dev1 0 = Some (p, dev2) /\ data_at dev2 p = [0; 1; 1; 1].
Proof.
  destruct (block_zero_not_forced 2 small_rdwr small_disk) with (dev := small_dev) (l := [1; 2; 3]%nat)
    as (dev1 & l1 & F & I & _ & _ & p & dev2 & G & D);
    [lia|reflexivity|reflexivity|apply small_inv| |cbn; lia|].
  - intros [|[|[|[|i]]]] d H; cbn in H; try discriminate; injection H as <-; reflexivity.
  - exists dev1, l1; split; [exact F|split; [exact I|]].
    exists p, dev2; split; [exact G|rewrite D; reflexivity].
Defined.

(** A block of 64 KB does not fit in the 16 bits of the block size: the head of
    the list is put 65536 times the number of blocks after the buffer's start. *)
Example blocks_of_64K :
  let dev := cache_init (Dev false [] false 0 0 131072 []) 16 in
  (cache_block_size dev, cache_entries dev, Z.shiftl (cache_entries dev) 16) = (0, 6552, 429391872).
Proof. vm_compute; reflexivity. Qed.
