(* ===== verification/Getfssec.v ===== *)
(** * Reading files by extents: core/fs/getfssec.c

    The generic read routine of the file system drivers.  A driver maps a logical
    sector of a file to a run of sectors on the disk ([next_extent]); the routine
    keeps the run in use and the one ahead, joins runs that continue each other,
    and transfers them.  The driver is an instance of the class [NextExtent]; what
    it promises is [NextExtentLaws]. *)

From S2P Require Import Prelude.

Open Scope word_scope.

(** [src/core/include/fs.h:85-89 struct extent] *)
Record extent := Extent { pstart : Z; lstart : Z; len : Z }.

(** [src/core/include/fs.h:92-93 EXTENT_ZERO] *)
Definition EXTENT_ZERO : Z := 18446744073709551615.
Definition EXTENT_VOID : Z := 18446744073709551614.

(** [src/core/include/fs.h:95-95 EXTENT_SPECIAL] *)
Definition EXTENT_SPECIAL (x : Z) : bool := EXTENT_VOID <=? x.

(** [src/com32/include/sys/dirent.h:23-33 enum dirent_type] *)
Inductive dirent_type := 
  DT_UNKNOWN | DT_FIFO | DT_CHR | DT_DIR | DT_BLK | DT_REG | DT_LNK | DT_SOCK | DT_WHT.

(** The part of an inode that reading uses; [pvt] is the driver's.
    [src/core/include/fs.h:100-117 struct inode] *)
Record inode (P : Type) := Inode {
  mode : dirent_type;
  size : Z;
  this_extent : extent;
  next_extent : extent;
  pvt : P
}.
Arguments Inode {P}.
Arguments mode {P}.
Arguments size {P}.
Arguments this_extent {P}.
Arguments next_extent {P}.
Arguments pvt {P}.

Section setters.
Context {P : Type}.
Definition set_this (e : extent) (i : inode P) : inode P := Inode (mode i) (size i) e (next_extent i) (pvt i).
Definition set_nextx (e : extent) (i : inode P) : inode P := Inode (mode i) (size i) (this_extent i) e (pvt i).
Definition set_size (n : Z) (i : inode P) : inode P := Inode (mode i) n (this_extent i) (next_extent i) (pvt i).
Definition set_pvt (p : P) (i : inode P) : inode P := Inode (mode i) (size i) (this_extent i) (next_extent i) p.
End setters.

(** [src/core/include/fs.h:119-123 struct file] *)
Record file (P : Type) := File { offset : Z; f_inode : inode P }.
Arguments File {P}.
Arguments offset {P}.
Arguments f_inode {P}.

(** The driver's method: the return value, the inode and the driver's state
    after; [None] when it does not return.
    [src/core/include/fs.h:73-73 struct fs_ops] *)
Class NextExtent (P St : Type) := {
  fs_next_extent : inode P -> Z -> St -> option (Z * inode P * St)
}.

(** [src/core/fs/getfssec.c:60-66 next_psector] *)
Definition next_psector (psector skip : Z) : Z :=
  if EXTENT_SPECIAL psector then psector else u64 (psector + skip).

(** [src/core/fs/getfssec.c:68-71 next_pstart] *)
Definition next_pstart (e : extent) : Z := next_psector (pstart e) (len e).

(** The logical sector after an extent. *)
Definition lend (e : extent) : Z := lstart e ⊞ len e.

Section getfssec.
Context {P St : Type} {driver : NextExtent P St}.
Variable sector_shift : Z.
Variable rdwr_sectors : list Z -> Z -> Z -> list Z.

(** [src/core/fs/getfssec.c:74-86 get_next_extent] *)
Definition get_next_extent (i : inode P) (st : St) : option (inode P * St) :=
  let l := lend (this_extent i) in
  let* (r, i, st) := fs_next_extent i l st in
  let n := next_extent i in
  let i := if negb (r =? 0) then set_nextx (Extent (pstart n) (lstart n) 0) i else i in
  let n := next_extent i in
  Some (set_nextx (Extent (pstart n) l (len n)) i, st).

(** The extents are collected until they hold the sectors asked for, or do not
    continue each other; the answer is the number of sectors still to read.
    [src/core/fs/getfssec.c:138-159 generic_getfssec] *)
Fixpoint gather (fuel : nat) (sectors : Z) (i : inode P) (st : St) : option (Z * inode P * St) :=
  if len (this_extent i) <? sectors then
    match fuel with
    | O => None
    | S fuel =>
        let* (i, st) :=
          if (len (next_extent i) =? 0) || negb (lstart (next_extent i) =? lend (this_extent i))
          then get_next_extent i st else Some (i, st) in
        let t := this_extent i in
        let n := next_extent i in
        if len t =? 0 then
          let i := set_this n i in
          if len n =? 0 then Some (0, i, st) else gather fuel sectors i st
        else if negb (len n =? 0) && (pstart n =? next_pstart t) then
          gather fuel sectors (set_this (Extent (pstart t) (lstart t) (len t ⊞ len n)) i) st
        else Some (sectors, i, st)
    end
  else Some (sectors, i, st).

(** The caller's buffer is written from [p] on.
    [src/core/fs/getfssec.c:134-185 generic_getfssec] *)
Fixpoint transfer (fuel : nat) (sectors : Z) (i : inode P) (st : St) (buf : list Z) (p : nat)
    (bytes_read : Z) : option (Z * inode P * St * list Z) :=
  if sectors =? 0 then Some (bytes_read, i, st, buf)
  else
    match fuel with
    | O => None
    | S fuel =>
        let* (sectors, i, st) := gather (Z.to_nat sectors) sectors i st in
        let t := this_extent i in
        let chunk := Z.min sectors (len t) in
        let n := u32 (Z.shiftl chunk sector_shift) in
        if (p + Z.to_nat n <=? length buf)%nat then
          let '(bytes, ps) :=
            if pstart t =? EXTENT_ZERO then (replicate (Z.to_nat n) 0, pstart t)
            else (rdwr_sectors (slice p (Z.to_nat n) buf) (pstart t) chunk, u64 (pstart t + chunk)) in
          transfer fuel (sectors - chunk)
            (set_this (Extent ps (lstart t ⊞ chunk) (len t ⊟ chunk)) i) st
            (blit p bytes buf) (p + Z.to_nat n) (bytes_read ⊞ n)
        else None
    end.

Definition in_extent (l : Z) (e : extent) : bool := negb ((l <? lstart e) || (lend e <=? l)).

(** Which of the extents at hand holds the sector to start from.
    [src/core/fs/getfssec.c:109-127 generic_getfssec] *)
Definition find_start (lsector : Z) (i : inode P) : inode P :=
  let i := if in_extent lsector (this_extent i) then i else set_this (next_extent i) i in
  let t := this_extent i in
  if in_extent lsector t then
    let delta := lsector ⊟ lstart t in
    set_this (Extent (next_psector (pstart t) delta) lsector (len t ⊟ delta)) i
  else set_this (Extent (pstart t) lsector 0) i.

(** The answer: the bytes read, what was stored through [have_more] ([None]:
    nothing), the file, the driver's state and the buffer.
    [src/core/fs/getfssec.c:88-194 generic_getfssec] *)
Definition generic_getfssec (f : file P) (buf : list Z) (sectors : Z) (st : St)
  : option (Z * option bool * file P * St * list Z) :=
  let i := f_inode f in
  let bytes_left := u32 (size i - offset f) in
  let sectors_left := Z.shiftr (u32 (bytes_left + Z.shiftl 1 sector_shift - 1)) sector_shift in
  let sectors := if sectors_left <? u32 sectors then sectors_left else sectors in
  if sectors =? 0 then Some (0, None, f, st, buf)
  else
    let lsector := Z.shiftr (offset f) sector_shift in
    let i := find_start lsector i in
    let* (bytes_read, i, st, buf) := transfer (Z.to_nat sectors) sectors i st buf 0 0 in
    let bytes_read := Z.min bytes_read bytes_left in
    Some (bytes_read, Some (bytes_read <? bytes_left), File (offset f ⊞ bytes_read) i, st, buf).

(** Reading through a handle; [None] among the answers is a handle that was closed
    at the end of the file.  A read that does not say whether there is more leaves
    the test undefined.
    [src/core/fs/fs.c:120-140 pmapi_read_file] *)
Definition pmapi_read_file (handle : option (file P)) (buf : list Z) (sectors : Z) (st : St)
  : option (Z * option (file P) * St * list Z) :=
  let* f := handle in
  let* (n, have_more, f, st, buf) := generic_getfssec f buf sectors st in
  let* more := have_more in
  Some (n, (if more : bool then Some f else None), st, buf).

(** A caller that reads [sectors] sectors at a time until the handle is closed. *)
Fixpoint read_whole (fuel : nat) (handle : option (file P)) (sectors : Z) (st : St)
  : option (list Z * St) :=
  match handle with
  | None => Some ([], st)
  | Some f =>
      match fuel with
      | O => None
      | S fuel =>
          let buf := replicate (Z.to_nat (sectors * 2 ^ sector_shift)) 0 in
          let* (n, handle, st, buf) := pmapi_read_file handle buf sectors st in
          let* (rest, st) := read_whole fuel handle sectors st in
          Some (take (Z.to_nat n) buf ++ rest, st)
      end
  end.
End getfssec.

(** ** What a driver promises *)

(** The logical sectors of an extent read as the file's: zeroes, or sectors of the
    disk in a row.  Only the sectors below [nsec], the file's, matter. *)
Definition reads_as (disk fsector : Z -> list Z) (nsec sector_size : Z) (e : extent) : Prop :=
  (pstart e = EXTENT_ZERO /\
   forall l, lstart e <= l < lstart e + len e -> l < nsec ->
     fsector l = replicate (Z.to_nat sector_size) 0) \/
  (0 <= pstart e /\ pstart e + len e <= EXTENT_VOID /\
   forall l, lstart e <= l < lstart e + len e -> l < nsec ->
     fsector l = disk (pstart e + (l - lstart e))).

(** The driver cuts files at multiples of [unit] sectors, and is asked for an
    extent only at one of them. *)
Record extent_ok (disk fsector : Z -> list Z) (nsec sector_size unit : Z) (e : extent) : Prop := {
  ext_pstart : 0 <= pstart e;
  ext_lstart : 0 <= lstart e;
  ext_len : 0 <= len e;
  ext_end : lstart e + len e < 4294967296;
  ext_unit : (unit | lstart e + len e);
  ext_reads : 0 < len e -> reads_as disk fsector nsec sector_size e
}.

(** [ext_inode] is the driver's invariant of an inode and of its own state; a
    driver that is [reliable] never fails. *)
Class NextExtentLaws (P St : Type) `{NextExtent P St} (disk fsector : Z -> list Z)
    (nsec sector_size unit fsize : Z) := {
  ext_inode : P -> St -> Prop;
  ext_reliable : Prop;
  ext_next : forall (i : inode P) l st,
    ext_inode (pvt i) st -> size i = fsize -> 0 <= l < nsec -> (unit | l) ->
    exists r n p st', let i' := Inode (mode i) (size i) (this_extent i) n p in
      (fs_next_extent i l st = Some (r, i', st') /\ ext_inode p st' /\ 0 <= pstart n /\
       (r = 0 -> 0 < len n /\
         extent_ok disk fsector nsec sector_size unit (Extent (pstart n) l (len n)))) /\
      (ext_reliable -> r = 0)
}.

Section reading.
Context {P St : Type} {driver : NextExtent P St}.
Context (disk fsector : Z -> list Z) (sector_shift nsec unit fsize : Z).
Notation sector_size := (2 ^ sector_shift).
Context (laws : NextExtentLaws P St disk fsector nsec sector_size unit fsize).
Context (rdwr_sectors : list Z -> Z -> Z -> list Z).

Hypothesis shift_range : 0 <= sector_shift < 16.
Hypothesis size_range : 0 <= fsize <= 4294967296 - sector_size.
Hypothesis nsec_def : nsec = (fsize + sector_size - 1) / sector_size.
Hypothesis fsector_size : forall l, 0 <= l < nsec -> Z.of_nat (length (fsector l)) = sector_size.
Hypothesis rdwr_ok : forall old lba n, 0 <= lba -> 0 <= n ->
  Z.of_nat (length old) = n * sector_size ->
  rdwr_sectors old lba n = concat (map disk (seqZ lba n)).

Notation good := (extent_ok disk fsector nsec sector_size unit).

(** The sectors from [l] on, [k] of them. *)
Definition file_sectors (l k : Z) : list Z := concat (map fsector (seqZ l k)).

Lemma sector_size_pos : 1 <= sector_size <= 32768.
Proof. split; [apply (Z.pow_le_mono_r 2 0)|apply (Z.pow_le_mono_r 2 _ 15)]; lia. Qed.

Lemma nsec_range : 0 <= nsec /\ nsec * sector_size <= fsize + sector_size - 1 /\ fsize <= nsec * sector_size.
Proof.
  pose proof sector_size_pos; rewrite nsec_def.
  pose proof (Z.div_mod (fsize + sector_size - 1) sector_size).
  pose proof (Z.mod_pos_bound (fsize + sector_size - 1) sector_size).
  split; [apply Z.div_pos; lia|lia].
Qed.

Lemma length_file_sectors l k : 0 <= l -> 0 <= k -> l + k <= nsec ->
  Z.of_nat (length (file_sectors l k)) = k * sector_size.
Proof.
  intros Hl Hk; revert l Hl; pattern k; apply natlike_ind; [reflexivity| |done]; clear k Hk.
  intros k Hk IH l Hl Hn; unfold file_sectors in *; rewrite seqZ_cons by lia; cbn [map concat].
  rewrite length_app, Nat2Z.inj_add, fsector_size by lia.
  replace (Z.pred (Z.succ k)) with k by lia; rewrite IH by lia; lia.
Qed.

Lemma file_sectors_app l a b : 0 <= a -> 0 <= b ->
  file_sectors l (a + b) = file_sectors l a ++ file_sectors (l + a) b.
Proof. intros; unfold file_sectors; now rewrite seqZ_app, map_app, concat_app by lia. Qed.

(** The tail of an extent is one too. *)
Lemma good_advance e d :
  good e -> 0 <= d <= len e ->
  good (Extent (next_psector (pstart e) d) (lstart e + d) (len e - d)).
Proof.
  intros [] Hd; split; cbn; try lia; [unfold next_psector; split_if; ulia|replace (lstart e + d + (len e - d)) with (lstart e + len e) by lia; done|].
  intros Hp; destruct (ext_reads0 ltac:(lia)) as [[Hz Hr]|(H0 & Hv & Hr)]; unfold next_psector, EXTENT_SPECIAL.
  - left; rewrite Hz; cbn; split; [done|]; intros l Hl; apply Hr; lia.
  - right; cbn; rewrite (proj2 (Z.leb_gt _ _)) by lia.
    unfold u64; rewrite Z.mod_small by (unfold EXTENT_VOID in *; lia).
    split; [lia|split; [lia|]]; intros l Hl Hn; rewrite (Hr l) by lia; f_equal; lia.
Qed.

Lemma good_empty e l : 0 <= pstart e -> 0 <= l < 4294967296 -> (unit | l) -> good (Extent (pstart e) l 0).
Proof. intros; split; cbn; rewrite ?Z.add_0_r; auto; lia. Qed.

Lemma good_lend e : good e -> lend e = lstart e + len e.
Proof. intros []; apply u32_small; lia. Qed.

(** Joining an extent with one that continues it. *)
Lemma good_join t n :
  good t -> good n -> 0 < len t -> 0 < len n -> lstart n = lstart t + len t ->
  pstart n = next_pstart t ->
  good (Extent (pstart t) (lstart t) (len t + len n)).
Proof.
  intros Gt Gn Ht Hn El Ep; pose proof (ext_reads _ _ _ _ _ _ Gt Ht) as Rt;
    pose proof (ext_reads _ _ _ _ _ _ Gn Hn) as Rn; destruct Gt, Gn.
  split; cbn; try lia; [rewrite Z.add_assoc, <- El; done|]; intros _.
  unfold next_pstart, next_psector, EXTENT_SPECIAL in Ep.
  destruct Rt as [[Zt Rt]|(Pt & Vt & Rt)].
  - rewrite Zt in Ep; change (EXTENT_VOID <=? EXTENT_ZERO) with true in Ep.
    destruct Rn as [[Zn Rn]|(Pn & Vn & Rn)]; [|unfold EXTENT_VOID, EXTENT_ZERO in *; lia].
    left; cbn; split; [done|]; intros l Hl Hl'; destruct (Z_lt_ge_dec l (lstart t + len t));
      [apply Rt|apply Rn]; lia.
  - rewrite (proj2 (Z.leb_gt _ _)) in Ep by lia.
    unfold u64 in Ep; rewrite Z.mod_small in Ep by (unfold EXTENT_VOID in *; lia).
    destruct Rn as [[Zn Rn]|(Pn & Vn & Rn)]; [unfold EXTENT_VOID, EXTENT_ZERO in *; lia|].
    right; cbn; split; [lia|split; [lia|]]; intros l Hl Hl'; destruct (Z_lt_ge_dec l (lstart t + len t)).
    + apply Rt; lia.
    + rewrite Rn by lia; f_equal; lia.
Qed.

(** ** The invariant of an open file *)

Record inode_ok (i : inode P) (st : St) : Prop := {
  ok_pvt : ext_inode (pvt i) st;
  ok_size : size i = fsize;
  ok_this : good (this_extent i);
  ok_next : good (next_extent i)
}.

Lemma get_next_spec i st :
  inode_ok i st -> lstart (this_extent i) + len (this_extent i) < nsec ->
  exists i' st', get_next_extent i st = Some (i', st') /\ inode_ok i' st' /\
    this_extent i' = this_extent i /\
    lstart (next_extent i') = lstart (this_extent i) + len (this_extent i) /\
    (ext_reliable -> 0 < len (next_extent i')).
Proof.
  intros [Hp Hs Ht Hn] Hl; unfold get_next_extent; rewrite (good_lend _ Ht).
  destruct (ext_next i (lstart (this_extent i) + len (this_extent i)) st) as (r & n & p & st' & (-> & Hp' & Hps & Hr) & Hrel);
    auto; [destruct Ht; lia|apply Ht|].
  cbn [next_extent set_nextx]; destruct (r =? 0) eqn:E; bools; cbn [negb next_extent set_nextx].
  - destruct (Hr E) as [Hlen Hg]; do 2 eexists; split; [done|].
    split; [split; cbn; auto|]; split; [done|split; [done|auto]].
  - do 2 eexists; split; [done|split; [split; cbn; auto|]]; [|split; [done|split; [done|]]].
    + apply (good_empty n); [done|destruct Ht; lia|apply Ht].
    + intros H; destruct (E (Hrel H)).
Qed.

Lemma next_ahead i st :
  inode_ok i st -> lstart (this_extent i) + len (this_extent i) < nsec ->
  exists i' st',
    (if (len (next_extent i) =? 0) || negb (lstart (next_extent i) =? lend (this_extent i))
     then get_next_extent i st else Some (i, st)) = Some (i', st') /\
    inode_ok i' st' /\ this_extent i' = this_extent i /\
    lstart (next_extent i') = lstart (this_extent i) + len (this_extent i) /\
    (ext_reliable -> 0 < len (next_extent i')).
Proof.
  intros I Hl; rewrite (good_lend _ (ok_this _ _ I)).
  destruct (_ || _) eqn:E; [now apply get_next_spec|bools].
  exists i, st; split; [done|split; [done|split; [done|split; [done|intros _]]]].
  pose proof (ext_len _ _ _ _ _ _ (ok_next _ _ I)); lia.
Qed.

Lemma gather_spec fuel : forall sectors i st,
  inode_ok i st -> 0 < sectors -> lstart (this_extent i) + sectors <= nsec ->
  (Z.to_nat (sectors - len (this_extent i)) <= fuel)%nat ->
  exists s i' st', gather fuel sectors i st = Some (s, i', st') /\ inode_ok i' st' /\
    lstart (this_extent i') = lstart (this_extent i) /\
    (s = sectors /\ 0 < len (this_extent i') \/
     s = 0 /\ len (this_extent i') = 0 /\ ~ ext_reliable).
Proof.
  induction fuel as [|fuel IH]; intros sectors i st I Hs Hn Hf; cbn [gather];
    destruct (len (this_extent i) <? sectors) eqn:E; bools; [lia|do 3 eexists; split; [done|split; [done|split; [done|left; lia]]]| |
      do 3 eexists; split; [done|split; [done|split; [done|left; lia]]]].
  destruct (next_ahead i st I) as (i1 & st1 & -> & I1 & E1 & El & Hr); [lia|].
  pose proof (ok_this _ _ I1) as Gt; pose proof (ok_next _ _ I1) as Gn; rewrite E1 in Gt |- *.
  pose proof (ext_len _ _ _ _ _ _ Gt); pose proof (ext_len _ _ _ _ _ _ Gn).
  destruct (len (this_extent i) =? 0) eqn:Et; bools.
  - cbn [next_extent set_this]; destruct (len (next_extent i1) =? 0) eqn:En; bools.
    + do 3 eexists; split; [done|split; [destruct I1; split; cbn; auto|split; [cbn; lia|right]]].
      split; [done|split; [done|]]; intros H1; specialize (Hr H1); lia.
    + destruct (IH sectors (set_this (next_extent i1) i1) st1) as (s & i' & st' & -> & I' & L' & Hc);
        [destruct I1; split; cbn; auto|done|cbn; lia|cbn; lia|].
      do 3 eexists; split; [done|split; [done|split; [rewrite L'; cbn; lia|done]]].
  - destruct (negb _ && _) eqn:Ec; bools.
    + pose proof (ext_end _ _ _ _ _ _ Gn); rewrite u32_small by (pose proof (ext_lstart _ _ _ _ _ _ Gt); lia).
      destruct (IH sectors (set_this (Extent (pstart (this_extent i)) (lstart (this_extent i))
          (len (this_extent i) + len (next_extent i1))) i1) st1) as (s & i' & st' & -> & I' & L' & Hc);
        [|done|cbn; lia|cbn; lia|].
      * destruct I1; split; cbn; auto; apply good_join with (n := next_extent i1); auto; lia.
      * do 3 eexists; split; [done|split; [done|split; [done|done]]].
    + do 3 eexists; split; [done|split; [done|split; [congruence|left; rewrite E1; lia]]].
    + do 3 eexists; split; [done|split; [done|split; [congruence|left; rewrite E1; lia]]].
Qed.

Lemma map_seqZ_ext (f g : Z -> list Z) a b k :
  (forall j, 0 <= j < k -> f (a + j) = g (b + j)) -> map f (seqZ a k) = map g (seqZ b k).
Proof.
  intros H; apply list_eq; intros i; rewrite !list_lookup_fmap.
  destruct (decide (Z.of_nat i < k)); [rewrite !lookup_seqZ_lt by lia; cbn; now rewrite H by lia|].
  now rewrite !lookup_seqZ_ge by lia.
Qed.

Lemma concat_zeroes n l k : concat (map (fun _ => replicate n 0) (seqZ l k)) = replicate (Z.to_nat k * n) 0.
Proof.
  rewrite <- (length_seqZ l k); induction (seqZ l k) as [|x q IH]; cbn; [done|].
  now rewrite IH, replicate_add.
Qed.

(** What is read of an extent, whatever it reads as. *)
Lemma extent_data t chunk old :
  good t -> 0 <= chunk <= len t -> (chunk = 0 -> len t = 0) -> lstart t + chunk <= nsec ->
  Z.of_nat (length old) = chunk * sector_size ->
  exists ps, (if pstart t =? EXTENT_ZERO then (replicate (Z.to_nat (chunk * sector_size)) 0, pstart t)
      else (rdwr_sectors old (pstart t) chunk, u64 (pstart t + chunk))) =
      (file_sectors (lstart t) chunk, ps) /\ good (Extent ps (lstart t + chunk) (len t - chunk)).
Proof.
  intros Gt Hc H0 Hn Ho; pose proof sector_size_pos; pose proof (good_advance t chunk Gt Hc) as Ga.
  destruct (decide (chunk = 0)) as [->|Hne].
  { assert (Hempty : file_sectors (lstart t) 0 = []) by reflexivity; rewrite Hempty.
    assert (rdwr_sectors old (pstart t) 0 = []) as -> by (rewrite rdwr_ok; [done|apply Gt|lia|lia]).
    destruct (_ =? _); eexists; (split; [reflexivity|]); destruct Gt; split; cbn;
      rewrite ?Z.add_0_r, ?Z.sub_0_r; auto; try lia; unfold u64; apply Z.mod_pos_bound; lia. }
  assert (Hl : 0 < len t) by lia; destruct (ext_reads _ _ _ _ _ _ Gt Hl) as [[Zt Rt]|(Pt & Vt & Rt)].
  - rewrite Zt; cbn [Z.eqb]; eexists; split; [f_equal|].
    + unfold file_sectors; rewrite (map_seqZ_ext _ (fun _ => replicate (Z.to_nat sector_size) 0) _ 0)
        by (intros; apply Rt; lia).
      rewrite concat_zeroes; f_equal; rewrite Z2Nat.inj_mul by lia; done.
    + rewrite Zt in Ga; exact Ga.
  - rewrite (proj2 (Z.eqb_neq _ _)) by (unfold EXTENT_ZERO, EXTENT_VOID in *; lia).
    rewrite rdwr_ok by lia; eexists; split; [f_equal|].
    + unfold file_sectors; f_equal; apply map_seqZ_ext; intros j Hj; rewrite Rt by lia; f_equal; lia.
    + unfold next_psector, EXTENT_SPECIAL in Ga; rewrite (proj2 (Z.leb_gt _ _)) in Ga by lia; exact Ga.
Qed.

Lemma transfer_spec fuel : forall sectors i st buf p bytes,
  inode_ok i st -> 0 <= sectors -> lstart (this_extent i) + sectors <= nsec ->
  (Z.to_nat sectors <= fuel)%nat ->
  (p + Z.to_nat (sectors * sector_size) <= length buf)%nat ->
  0 <= bytes -> bytes + sectors * sector_size < 4294967296 ->
  exists k i' st', transfer sector_shift rdwr_sectors fuel sectors i st buf p bytes =
      Some (bytes + k * sector_size, i', st', blit p (file_sectors (lstart (this_extent i)) k) buf) /\
    0 <= k <= sectors /\ inode_ok i' st' /\ lstart (this_extent i') = lstart (this_extent i) + k /\
    (ext_reliable -> k = sectors).
Proof.
  pose proof sector_size_pos as Hss.
  induction fuel as [|fuel IH]; intros sectors i st buf p bytes I Hs Hn Hf Hp Hb Hbs; cbn [transfer];
    destruct (sectors =? 0) eqn:E; bools; try lia;
    [exists 0, i, st; rewrite Z.add_0_r, Z.add_0_r; split; [done|split; [lia|split; [done|split; [lia|auto]]]]..|].
  destruct (gather_spec (Z.to_nat sectors) sectors i st) as (s & i1 & st1 & -> & I1 & L1 & Hc);
    auto; [lia|pose proof (ext_len _ _ _ _ _ _ (ok_this _ _ I)); lia|].
  pose proof (ok_this _ _ I1) as Gt; set (t := this_extent i1) in *.
  pose proof (ext_len _ _ _ _ _ _ Gt); pose proof (ext_lstart _ _ _ _ _ _ Gt); pose proof (ext_end _ _ _ _ _ _ Gt).
  set (chunk := Z.min s (len t)).
  assert (Hchunk : 0 <= chunk <= len t /\ chunk <= s <= sectors) by (subst chunk; lia).
  assert (Hcs : chunk * sector_size <= sectors * sector_size) by nia.
  assert (Hcz : 0 <= chunk * sector_size) by nia.
  rewrite Z.shiftl_mul_pow2, (u32_small (chunk * _)) by lia.
  rewrite (proj2 (Nat.leb_le _ _)) by lia.
  assert (Hlen : length (slice p (Z.to_nat (chunk * sector_size)) buf) = Z.to_nat (chunk * sector_size))
    by (apply length_slice; lia).
  assert (Hdata : exists ps, (if pstart t =? EXTENT_ZERO
      then (replicate (Z.to_nat (chunk * sector_size)) 0, pstart t)
      else (rdwr_sectors (slice p (Z.to_nat (chunk * sector_size)) buf) (pstart t) chunk, u64 (pstart t + chunk))) =
      (file_sectors (lstart t) chunk, ps) /\ good (Extent ps (lstart t + chunk) (len t - chunk))).
  { apply extent_data; auto; try lia; destruct Hc as [[-> ?]|(-> & ? & _)]; lia. }
  destruct Hdata as (ps & -> & Gps); rewrite (u32_small (lstart t + chunk)) by lia.
  rewrite (u32_small (len t - chunk)), (u32_small (bytes + _)) by lia.
  destruct (IH (s - chunk) (set_this (Extent ps (lstart t + chunk) (len t - chunk)) i1) st1
    (blit p (file_sectors (lstart t) chunk) buf) (p + Z.to_nat (chunk * sector_size))%nat (bytes + chunk * sector_size))
    as (k & i' & st' & E' & Hk & I' & L' & Hr).
  - destruct I1; split; cbn; auto.
  - lia.
  - cbn; lia.
  - destruct Hc as [[-> ?]|[-> _]]; lia.
  - rewrite length_blit; nia.
  - lia.
  - nia.
  - rewrite E'; exists (chunk + k), i', st'; cbn [this_extent set_this lstart] in *.
    split; [|split; [lia|split; [done|split; [lia|]]]].
    + rewrite <- L1, file_sectors_app, blit_app by lia.
      replace (length (file_sectors (lstart t) chunk)) with (Z.to_nat (chunk * sector_size))
        by (pose proof (length_file_sectors (lstart t) chunk); lia).
      now replace (bytes + chunk * sector_size + k * sector_size) with (bytes + (chunk + k) * sector_size) by lia.
    + intros Hx; specialize (Hr Hx); destruct Hc as [[-> _]|(_ & _ & Hne)]; [lia|destruct (Hne Hx)].
Qed.

(** ** The theorem *)

(** An open file: the extents are right, and the one in use begins at the offset. *)
Record file_ok (f : file P) (st : St) : Prop := {
  fok_inode : inode_ok (f_inode f) st;
  fok_offset : 0 <= offset f <= fsize;
  fok_here : offset f < fsize ->
    (sector_size | offset f) /\ lstart (this_extent (f_inode f)) = offset f / sector_size
}.

Lemma find_start_spec l i st :
  inode_ok i st -> lstart (this_extent i) = l ->
  inode_ok (find_start l i) st /\ lstart (this_extent (find_start l i)) = l.
Proof.
  intros [Hp Hs Gt Gn] Hl; pose proof (ext_lstart _ _ _ _ _ _ Gt); pose proof (ext_len _ _ _ _ _ _ Gt);
    pose proof (ext_end _ _ _ _ _ _ Gt).
  assert (Hempty : len (this_extent i) = 0 -> forall e, good e -> good (Extent (pstart e) l 0)).
  { intros E0 e Ge; apply good_empty; [apply Ge|lia|]; subst l.
    pose proof (ext_unit _ _ _ _ _ _ Gt) as Hu; now rewrite E0, Z.add_0_r in Hu. }
  assert (A : forall e, good e -> in_extent l e = true ->
    good (Extent (next_psector (pstart e) (l ⊟ lstart e)) l (len e ⊟ (l ⊟ lstart e)))).
  { intros e Ge Hin; pose proof (good_lend _ Ge) as Eend; unfold in_extent in Hin; rewrite Eend in Hin; bools.
    pose proof (ext_lstart _ _ _ _ _ _ Ge); pose proof (ext_end _ _ _ _ _ _ Ge).
    rewrite (u32_small (l - _)), u32_small by lia.
    pose proof (good_advance e (l - lstart e) Ge ltac:(lia)) as Ga.
    now replace (lstart e + (l - lstart e)) with l in Ga by lia. }
  unfold find_start; destruct (in_extent l (this_extent i)) eqn:E.
  - rewrite E; split; [split; cbn; auto|done].
  - assert (E0 : len (this_extent i) = 0).
    { unfold in_extent in E; rewrite (good_lend _ Gt) in E; bools; lia. }
    cbn [this_extent set_this]; destruct (in_extent l (next_extent i)) eqn:E2;
      (split; [split; cbn; auto|done]).
Qed.

Lemma sectors_left_spec left : 0 <= left <= fsize ->
  Z.shiftr (u32 (left + Z.shiftl 1 sector_shift - 1)) sector_shift = (left + sector_size - 1) / sector_size.
Proof. intros H; pose proof sector_size_pos; rewrite Z.shiftl_1_l, u32_small, Z.shiftr_div_pow2 by lia; done. Qed.

Lemma getfssec_step f st buf sectors :
  let left := fsize - offset f in
  let n := Z.min sectors ((left + sector_size - 1) / sector_size) in
  file_ok f st -> 0 <= sectors < 2147483648 -> (Z.to_nat (n * sector_size) <= length buf)%nat ->
  exists k f' st', generic_getfssec sector_shift rdwr_sectors f buf sectors st =
    Some (Z.min (k * sector_size) left,
          if n =? 0 then None else Some (Z.min (k * sector_size) left <? left),
          f', st', blit 0 (file_sectors (offset f / sector_size) k) buf) /\
    0 <= k <= n /\ (ext_reliable -> k = n) /\ file_ok f' st' /\
    offset f' = offset f + Z.min (k * sector_size) left.
Proof.
  intros left n [Hi Ho Hh] Hs Hbuf; pose proof sector_size_pos as Hss.
  pose proof (Z.div_mod (left + sector_size - 1) sector_size).
  pose proof (Z.mod_pos_bound (left + sector_size - 1) sector_size).
  assert (Hn0 : 0 <= (left + sector_size - 1) / sector_size) by (apply Z.div_pos; lia).
  unfold generic_getfssec; rewrite (ok_size _ _ Hi); fold left.
  rewrite (u32_small left), sectors_left_spec, (u32_small sectors) by lia.
  replace (if _ <? sectors then _ else sectors) with n by (subst n; split_if; lia).
  destruct (n =? 0) eqn:En; bools.
  { exists 0, f, st; rewrite Z.mul_0_l, Z.min_l, Z.add_0_r by lia; split; [reflexivity|].
    split; [lia|split; [lia|split; [now split|done]]]. }
  assert (Hleft : 0 < left).
  { enough (left <> 0) by lia; intros E0; apply En; unfold n; rewrite E0, Z.add_0_l, Z.div_small by lia; lia. }
  destruct (Hh ltac:(lia)) as [[q Hq] Hl]; rewrite Z.shiftr_div_pow2 by lia.
  assert (Hd : offset f / sector_size = q) by (rewrite Hq, Z.div_mul; lia); rewrite Hd in *.
  assert (Hnsec : q + n <= nsec /\ n * sector_size <= fsize - offset f + sector_size - 1).
  { split; [|nia]; assert (n <= (left + sector_size - 1) / sector_size) by lia.
    rewrite nsec_def; replace (fsize + sector_size - 1) with (q * sector_size + (left + sector_size - 1)) by lia.
    rewrite Z.div_add_l by lia; lia. }
  destruct (find_start_spec q _ _ Hi Hl) as [Hi1 Hl1].
  destruct (transfer_spec (Z.to_nat n) n (find_start q (f_inode f)) st buf 0 0)
    as (k & i' & st' & -> & Hk & Hi' & Hl' & Hr); auto; try lia.
  rewrite Hl1 in *; rewrite Z.add_0_l; cbn [app].
  assert (Hmin : 0 <= Z.min (k * sector_size) left <= left) by nia.
  exists k, (File (offset f ⊞ Z.min (k * sector_size) left) i'), st'.
  split; [done|split; [lia|split; [done|]]]; cbn [offset f_inode]; rewrite u32_small by lia.
  split; [split; cbn [offset f_inode]; [done|lia|]|done]; intros Hlt.
  rewrite Z.min_l in Hlt |- * by lia; rewrite Hq, Hl', <- Z.mul_add_distr_r, Z.div_mul by lia.
  split; [now exists (q + k)|done].
Qed.

(** Generic_getfssec reads the sectors of the file from its offset on, as many
    as were asked for and the file has - all of them if the driver maps them all,
    otherwise those before the first it cannot map - into the buffer and nowhere
    else, with whatever runs the driver maps them and in one transfer for each run;
    it advances the offset by the bytes read, says whether there is more, and ends. *)
Theorem getfssec_correct f st buf sectors :
  let left := fsize - offset f in
  let n := Z.min sectors ((left + sector_size - 1) / sector_size) in
  file_ok f st -> 0 <= sectors < 2147483648 -> (Z.to_nat (n * sector_size) <= length buf)%nat ->
  exists k f' st', generic_getfssec sector_shift rdwr_sectors f buf sectors st =
    Some (Z.min (k * sector_size) left,
          if n =? 0 then None else Some (Z.min (k * sector_size) left <? left),
          f', st', blit 0 (file_sectors (offset f / sector_size) k) buf) /\
    0 <= k <= n /\ (ext_reliable -> k = n) /\ file_ok f' st' /\
    offset f' = offset f + Z.min (k * sector_size) left.
Proof. apply getfssec_step. Qed.

(** ** Reading the whole file *)

Definition file_bytes : list Z := take (Z.to_nat fsize) (file_sectors 0 nsec).

Lemma take_blit_zero (bs buf : list Z) n :
  (n <= length bs)%nat -> (length bs <= length buf)%nat -> take n (blit 0 bs buf) = take n bs.
Proof.
  intros Hn Hb; pose proof (slice_blit_in 0 bs buf Hb) as H; unfold slice in H; cbn [drop] in H.
  rewrite <- H at 2; rewrite take_take; f_equal; lia.
Qed.

Lemma file_bytes_drop q : 0 <= q <= nsec ->
  drop (Z.to_nat (q * sector_size)) file_bytes =
    take (Z.to_nat (fsize - q * sector_size)) (file_sectors q (nsec - q)).
Proof.
  intros Hq; pose proof sector_size_pos; unfold file_bytes; rewrite skipn_firstn_comm.
  replace nsec with (q + (nsec - q)) at 1 by lia; rewrite file_sectors_app, drop_app_length'
    by (rewrite ?Z.add_0_l; try lia; pose proof (length_file_sectors 0 q); lia).
  rewrite Z.add_0_l; f_equal; lia.
Qed.

Lemma read_whole_step fuel sectors : forall f st,
  ext_reliable -> 0 < sectors -> sectors * sector_size < 2147483648 ->
  file_ok f st -> offset f < fsize -> (Z.to_nat (nsec - offset f / sector_size) <= fuel)%nat ->
  exists st', read_whole sector_shift rdwr_sectors fuel (Some f) sectors st =
    Some (drop (Z.to_nat (offset f)) file_bytes, st').
Proof.
  pose proof sector_size_pos as Hss; pose proof nsec_range as (N0 & N1 & N2).
  induction fuel as [|fuel IH]; intros f st Hrel Hs Hsb F Ho Hf; cbn [read_whole];
    destruct (fok_here _ _ F Ho) as [[q Hq] _]; pose proof (fok_offset _ _ F) as Hoff;
    assert (Hd : offset f / sector_size = q) by (rewrite Hq, Z.div_mul; lia); rewrite Hd in Hf.
  { assert (q * sector_size < nsec * sector_size) by lia; assert (q < nsec) by nia; lia. }
  assert (Hqn : 0 <= q < nsec) by nia.
  set (left := fsize - offset f).
  assert (Hceil : (left + sector_size - 1) / sector_size = nsec - q).
  { unfold left; rewrite Hq, nsec_def.
    replace (fsize - q * sector_size + sector_size - 1) with (fsize + sector_size - 1 + (- q) * sector_size) by lia.
    rewrite Z.div_add by lia; lia. }
  set (n := Z.min sectors (nsec - q)); assert (Hn : 1 <= n <= sectors) by lia.
  assert (Hnb : sectors < 2147483648) by nia.
  assert (Hns : n * sector_size <= sectors * sector_size) by nia.
  destruct (getfssec_step f st (replicate (Z.to_nat (sectors * sector_size)) 0) sectors F)
    as (k & f' & st' & E & Hk & Hr & F' & Ho'); [lia|rewrite length_replicate; fold left; rewrite Hceil; fold n; lia|].
  fold left in E, Hk, Hr, Ho'; rewrite Hceil in E, Hk, Hr; fold n in E, Hk, Hr; rewrite (Hr Hrel) in *; clear Hr Hk.
  unfold pmapi_read_file; rewrite E, (proj2 (Z.eqb_neq _ _)) by lia; clear E; rewrite Hd.
  pose proof (length_file_sectors q n ltac:(lia) ltac:(lia) ltac:(lia)) as Hlen.
  rewrite take_blit_zero by (rewrite ?length_replicate; lia).
  assert (Eoff : Z.to_nat (offset f) = Z.to_nat (q * sector_size)) by lia; rewrite Eoff, file_bytes_drop by lia.
  replace (fsize - q * sector_size) with left by (unfold left; lia).
  replace (nsec - q) with (n + (nsec - (q + n))) by lia; rewrite file_sectors_app by lia.
  destruct (Z.ltb_spec (Z.min (n * sector_size) left) left) as [Hlt|Hge].
  - rewrite Z.min_l in * by lia.
    destruct (IH f' st') as (st'' & ->); auto; [lia|rewrite Ho', Hq, <- Z.mul_add_distr_r, Z.div_mul by lia; lia|].
    exists st''; rewrite Ho', Hq, <- Z.mul_add_distr_r, file_bytes_drop, take_app by lia.
    rewrite !(take_ge (file_sectors q n)) by lia.
    replace (Z.to_nat (fsize - (q + n) * sector_size)) with (Z.to_nat left - length (file_sectors q n))%nat
      by (unfold left; lia); done.
  - assert (left <= n * sector_size) by lia; rewrite (Z.min_r (n * _) left) in * by lia; exists st'; destruct fuel; cbn [read_whole];
      rewrite app_nil_r, take_app_le by lia; done.
Qed.

(** A caller that reads some sectors at a time through pmapi_read_file, until
    the handle is closed, gets the bytes of the file, all of them and no more, and
    comes to the end, provided the file is not empty. *)
Theorem read_whole_correct f st sectors :
  ext_reliable -> 0 < sectors -> sectors * sector_size < 2147483648 ->
  file_ok f st -> offset f = 0 -> 0 < fsize ->
  exists st', read_whole sector_shift rdwr_sectors (Z.to_nat nsec) (Some f) sectors st = Some (file_bytes, st').
Proof.
  intros Hr Hs Hsb F Ho Hf; destruct (read_whole_step (Z.to_nat nsec) sectors f st) as (st' & E); auto; [lia| |].
  - rewrite Ho; pose proof sector_size_pos; rewrite Z.div_0_l by lia; lia.
  - exists st'; rewrite E, Ho; done.
Qed.
End reading.

(** ** A file in pieces *)

(** Five sectors of two bytes, each on the disk at ten more than twice its number,
    the fourth being a hole. *)
Definition toy_disk (s : Z) : list Z := [u8 s; 1].
Definition toy_rdwr (old : list Z) (lba n : Z) : list Z := concat (map toy_disk (seqZ lba n)).
Definition toy_sector (l : Z) : list Z := if l =? 3 then [0; 0] else toy_disk (10 + 2 * l).

#[local] Instance toy_driver : NextExtent () () := {|
  fs_next_extent i l st :=
    let p := if l =? 3 then EXTENT_ZERO else 10 + 2 * l in
    Some (0, set_nextx (Extent p l 1) i, st)
|}.

#[local] Instance toy_laws : NextExtentLaws () () toy_disk toy_sector 5 2 1 9.
Proof.
  refine {| ext_inode := fun _ _ => True; ext_reliable := True |}.
  intros i l st _ _ Hl _; cbn; do 4 eexists; split; [|done]; split; [reflexivity|split; [done|]].
  split; [cbn; split_if; unfold EXTENT_ZERO; lia|]; intros _; split; [done|].
  split; cbn; try lia; [split_if; unfold EXTENT_ZERO; lia|apply Z.divide_1_l|].
  intros _; unfold toy_sector; destruct (l =? 3) eqn:E; bools; [left|right].
  - split; [done|]; intros l' Hl' _; cbn in Hl'; now replace l' with 3 by lia.
  - cbn; unfold EXTENT_VOID; split; [lia|split; [lia|]]; intros l' Hl' _.
    rewrite (proj2 (Z.eqb_neq _ _)) by lia; f_equal; lia.
Defined.

Definition toy_file (n : Z) : file () :=
  File n (Inode DT_REG 9 (Extent 0 (n / 2) 0) (Extent 0 0 0) ()).

Example toy_read :
  option_map (fun r => let '(n, more, f, _, buf) := r in (n, more, offset f, buf))
    (generic_getfssec 1 toy_rdwr (toy_file 4) (replicate 8 9) 4 ()) =
  Some (5, Some false, 9, [14; 1; 0; 0; 18; 1; 9; 9]).
Proof. vm_compute; reflexivity. Qed.

Lemma getfssec_correct_witness :
  exists f' st', generic_getfssec 1 toy_rdwr (toy_file 4) (replicate 8 9) 4 () =
    Some (5, Some false, f', st', [14; 1; 0; 0; 18; 1; 9; 9]) /\ offset f' = 9.
Proof.
  destruct (getfssec_correct toy_disk toy_sector 1 5 1 9 toy_laws toy_rdwr)
    with (f := toy_file 4) (st := tt) (buf := replicate 8 9) (sectors := 4)
    as (k & f' & st' & H & Hk & Hr & _ & Ho); [lia|lia|reflexivity| |reflexivity| |lia|cbn; lia|].
  - intros l Hl; unfold toy_sector; destruct (l =? 3); reflexivity.
  - split; [split; [exact I|reflexivity| |]|cbn; lia|].
    + split; [vm_compute; discriminate..|reflexivity|apply Z.divide_1_l|discriminate].
    + split; [vm_compute; discriminate..|reflexivity|apply Z.divide_1_l|discriminate].
    + intros _; cbn; split; [now exists 2|reflexivity].
  - specialize (Hr I); rewrite Hr in H, Ho; exists f', st'; split; [exact (eq_trans H eq_refl)|exact (eq_trans Ho eq_refl)].
Defined.

Lemma read_whole_correct_witness :
  exists st', read_whole 1 toy_rdwr 5 (Some (toy_file 0)) 2 () = Some ([10; 1; 12; 1; 14; 1; 0; 0; 18], st').
Proof.
  destruct (read_whole_correct toy_disk toy_sector 1 5 1 9 toy_laws toy_rdwr)
    with (f := toy_file 0) (st := tt) (sectors := 2) as (st' & H); [lia|lia|reflexivity| |reflexivity|exact I|lia|lia| |reflexivity|lia|].
  - intros l Hl; unfold toy_sector; destruct (l =? 3); reflexivity.
  - split; [split; [exact I|reflexivity| |]|cbn; lia|].
    + split; [vm_compute; discriminate..|reflexivity|apply Z.divide_1_l|discriminate].
    + split; [vm_compute; discriminate..|reflexivity|apply Z.divide_1_l|discriminate].
    + intros _; cbn; split; [now exists 0|reflexivity].
  - exists st'; exact (eq_trans H eq_refl).
Defined.

(** An empty file: whether there is more is never stored, and the caller tests an
    undefined variable. *)
Example empty_file_undefined :
  pmapi_read_file 1 toy_rdwr (Some (File 0 (Inode DT_REG 0 (Extent 0 0 0) (Extent 0 0 0) ()))) [0; 0] 1 () = None.
Proof. reflexivity. Qed.
