(* ===== verification/Fs.v ===== *)
(** * The file system layer of the core: core/fs/fs.c, chdir.c, readdir.c

    Inodes are objects with a reference count and a pointer to the inode of their
    directory; the files that are open, the root and the current directory refer to
    them.  A path is walked over the directories of a driver, through symbolic
    links, and what the walk holds is released on every way out. *)

From S2P Require Import Prelude Getfssec.

Open Scope word_scope.

(** ** Drivers *)

(** An inode as the driver fills it in; its parent is NULL. *)
Record ientry (P : Type) := Ientry { e_mode : dirent_type; e_size : Z; e_data : P }.
Arguments Ientry {P}.
Arguments e_mode {P}.
Arguments e_size {P}.
Arguments e_data {P}.

(** The methods of a driver the layer calls: the file of a name in a directory, the
    target of a link (empty on an error), the translation of path names.  They answer
    from the disk, which does not change.
    [src/core/include/fs.h:51-80 struct fs_ops] *)
Class Driver (P : Type) := {
  iget : list Z -> P -> option (ientry P);
  readlink : option (P -> list Z);
  mangle : list Z -> list Z
}.

(** ** Inodes *)

(** What does not change once the walk has stored the name.
    [src/core/include/fs.h:100-117 struct inode] *)
Record info (P : Type) := Info { i_name : option (list Z); i_mode : dirent_type; i_size : Z; i_data : P }.
Arguments Info {P}.
Arguments i_name {P}.
Arguments i_mode {P}.
Arguments i_size {P}.
Arguments i_data {P}.

Record vnode (P : Type) := Vnode { v_info : info P; parent : option nat; refcnt : Z }.
Arguments Vnode {P}.
Arguments v_info {P}.
Arguments parent {P}.
Arguments refcnt {P}.

(** The inodes that are allocated, by their address; addresses are not used twice. *)
Record heap (P : Type) := Heap { nodes : gmap nat (vnode P); fresh : nat; mem : Mem.t }.
Arguments Heap {P}.
Arguments nodes {P}.
Arguments fresh {P}.
Arguments mem {P}.

Definition set_mem {P} (m : Mem.t) (hp : heap P) : heap P := Heap (nodes hp) (fresh hp) m.

Section inodes.
Context {P : Type}.

(** [src/core/fs/fs.c:27-36 alloc_inode] *)
Definition alloc_inode (e : ientry P) (hp : heap P) : nat * heap P :=
  let i := fresh hp in
  (i, Heap (<[i := Vnode (Info None (e_mode e) (e_size e) (e_data e)) None 1]> (nodes hp)) (S i) (mem hp)).

(** The count cannot overflow: every reference takes memory.
    [src/core/include/fs.h:161-167 get_inode] *)
Definition get_inode (i : nat) (hp : heap P) : option (heap P) :=
  let* n := nodes hp !! i in
  Some (Heap (<[i := Vnode (v_info n) (parent n) (refcnt n + 1)]> (nodes hp)) (fresh hp) (mem hp)).

(** [None] is the use of an inode that was freed.  The parent of an inode is older
    than the inode, so its address bounds the loop.
    [src/core/fs/fs.c:41-54 put_inode] *)
Fixpoint put_loop (fuel : nat) (i : option nat) (h : gmap nat (vnode P)) : option (gmap nat (vnode P)) :=
  match i with
  | None => Some h
  | Some i =>
      match fuel with
      | O => None
      | S fuel =>
          let* n := h !! i in
          let refcnt := refcnt n - 1 in
          if negb (refcnt =? 0) then Some (<[i := Vnode (v_info n) (parent n) refcnt]> h)
          else put_loop fuel (parent n) (delete i h)
      end
  end.

Definition put_inode (i : option nat) (hp : heap P) : option (heap P) :=
  let* h := put_loop (fresh hp) i (nodes hp) in
  Some (Heap h (fresh hp) (mem hp)).
End inodes.

(** ** Names in a path *)

Notation slash := 47.

(** A name up to the next slash, and what follows the slash. *)
Fixpoint take_name (s : list Z) : list Z * option (list Z) :=
  match s with
  | [] => ([], None)
  | c :: s =>
      if c =? slash then ([], Some s)
      else let (name, next) := take_name s in (c :: name, next)
  end.

Fixpoint skip_slashes (s : list Z) : list Z :=
  match s with
  | c :: s' => if c =? slash then skip_slashes s' else s
  | [] => []
  end.

(** The next name of a path, [None] for the root directory, and the rest.  An empty
    path is read past its end.
    [src/core/fs/fs.c:183-202 searchdir] *)
Definition next_name (path : list Z) : option (option (list Z) * option (list Z)) :=
  match path with
  | [] => None
  | c :: s =>
      let (name, next) :=
        if c =? slash then (None, Some s)
        else let (name, next) := take_name s in (Some (c :: name), next) in
      let next :=
        match next with
        | Some s => match skip_slashes s with [] => None | s => Some s end
        | None => None
        end in
      Some (name, next)
  end.

(** [src/core/fs/fs.c:21-22 MAX_SYMLINK_CNT] *)
Definition MAX_SYMLINK_CNT : Z := 20.
Definition MAX_SYMLINK_BUF : Z := 4096.

(** ** The walk *)

Definition is_dir (m : dirent_type) : bool := match m with DT_DIR => true | _ => false end.
Definition is_lnk (m : dirent_type) : bool := match m with DT_LNK => true | _ => false end.
Definition is_reg (m : dirent_type) : bool := match m with DT_REG => true | _ => false end.

Section layer.
Context {P : Type} {driver : Driver P}.

(** The room for the target of a link and the rest of the path, an [int].
    [src/core/fs/fs.c:262-268 searchdir] *)
Definition link_len (size : Z) (next : option (list Z)) : Z :=
  let new_len := s32 (size + 1) in
  match next with
  | Some p => s32 (new_len + (Z.of_nat (length p) + 1))
  | None => new_len
  end.

(** The path that takes the place of a link and of what follows it.
    [src/core/fs/fs.c:283-293 searchdir] *)
Definition link_path (target : list Z) (next : option (list Z)) : list Z :=
  match next with Some p => target ++ slash :: p | None => target end.

(** The loop over the names of the path: the inode reached, [Some None] when there is
    none.  The walk holds one reference, to [inode].
    [src/core/fs/fs.c:182-319 searchdir] *)
Fixpoint walk (fuel : nat) (root : nat) (path : list Z) (symlink_count : Z) (inode : nat) (hp : heap P)
  : option (option nat * heap P) :=
  match fuel with
  | O => None
  | S fuel =>
      let* (name, next) := next_name path in
      let continue (inode : nat) (hp : heap P) :=
        match next with
        | Some path => walk fuel root path symlink_count inode hp
        | None => Some (Some inode, hp)
        end in
      let fail (inode : nat) (hp : heap P) :=
        let* hp := put_inode (Some inode) hp in Some (None, hp) in
      match name with
      | None =>
          let* hp := put_inode (Some inode) hp in
          let* hp := get_inode root hp in
          continue root hp
      | Some name =>
          if bool_decide (name = [46]) then continue inode hp
          else if bool_decide (name = [46; 46]) then
            let* n := nodes hp !! inode in
            match parent n with
            | None => continue inode hp
            | Some tmp =>
                let* hp := get_inode tmp hp in
                let* hp := put_inode (Some inode) hp in
                continue tmp hp
            end
          else
            let tmp := inode in
            let* n := nodes hp !! tmp in
            match iget name (i_data (v_info n)) with
            | None => fail tmp hp
            | Some e =>
                let (inode, hp) := alloc_inode e hp in
                let (ok, m) := Mem.malloc (mem hp) in
                let name := if ok then Some name else None in
                let n := Vnode (Info name (e_mode e) (e_size e) (e_data e)) (Some tmp) 1 in
                let hp := Heap (<[inode := n]> (nodes hp)) (fresh hp) m in
                if is_lnk (e_mode e) then
                  let new_len := link_len (e_size e) next in
                  match readlink with
                  | None => fail inode hp
                  | Some readlink =>
                      if (symlink_count - 1 =? 0) || (MAX_SYMLINK_BUF <? new_len) then fail inode hp
                      else
                        let (ok, m) := Mem.malloc (mem hp) in
                        let hp := set_mem m hp in
                        if negb ok then fail inode hp
                        else
                          let target := readlink (e_data e) in
                          match target with
                          | [] => fail inode hp
                          | _ =>
                              let path := link_path target next in
                              if new_len <? Z.of_nat (length path) + 1 then None
                              else
                                let* hp := get_inode tmp hp in
                                let* hp := put_inode (Some inode) hp in
                                walk fuel root path (symlink_count - 1) tmp hp
                          end
                  end
                else if (match next with Some _ => true | None => false end) && negb (is_dir (e_mode e))
                then fail inode hp
                else continue inode hp
            end
      end
  end.

(** ** Files *)

(** [src/core/include/fs.h:119-123 struct file] *)
Record ofile := Ofile { o_offset : Z; o_inode : option nat }.

Definition MAX_OPEN : nat := 128.

(** A file in use has a file system.
    [src/core/include/fs.h:31-39 struct fs_info] *)
Record fsys := Fsys {
  hp : heap P;
  files : list (option ofile);
  root : nat;
  cwd : nat;
  cwd_name : list Z
}.

Definition set_hp (h : heap P) (s : fsys) : fsys := Fsys h (files s) (root s) (cwd s) (cwd_name s).
Definition set_file (k : nat) (f : option ofile) (s : fsys) : fsys :=
  Fsys (hp s) (<[k := f]> (files s)) (root s) (cwd s) (cwd_name s).

(** [src/core/fs/fs.c:59-71 alloc_file] *)
Definition alloc_file (s : fsys) : option nat :=
  match list_find (fun f => f = None) (files s) with Some (k, _) => Some k | None => None end.

(** With [generic_close_file] of core/fs/lib/close.c.
    [src/core/fs/fs.c:81-86 _close_file] *)
Definition _close_file (k : nat) (s : fsys) : option fsys :=
  let* f := files s !! k in
  match f with
  | Some f =>
      let* h := put_inode (o_inode f) (hp s) in
      Some (set_file k None (set_hp h s))
  | None => Some (set_file k None s)
  end.

(** The handle, -1 when there is no file; drivers with a method of their own
    (PXELINUX) are left out.
    [src/core/fs/fs.c:141-338 searchdir] *)
Definition searchdir (fuel : nat) (name : list Z) (s : fsys) : option (Z * fsys) :=
  match alloc_file s with
  | None => Some (-1, s)
  | Some k =>
      let s := set_file k (Some (Ofile 0 None)) s in
      let err (s : fsys) := let* s := _close_file k s in Some (-1, s) in
      let (ok, m) := Mem.malloc (mem (hp s)) in
      let s := set_hp (set_mem m (hp s)) s in
      if negb ok then err s
      else
        let* h := get_inode (cwd s) (hp s) in
        let* (r, h) := walk fuel (root s) name MAX_SYMLINK_CNT (cwd s) h in
        let s := set_hp h s in
        match r with
        | None => err s
        | Some i => Some (Z.of_nat k + 1, set_file k (Some (Ofile 0 (Some i))) s)
        end
  end.

(** What a handle refers to. *)
Definition file_inode (k : nat) (s : fsys) : option (vnode P) :=
  let* f := files s !! k in
  let* f := f in
  let* i := o_inode f in
  nodes (hp s) !! i.

(** A handle and the size of the file.
    [src/core/fs/fs.c:340-366 open_file] *)
Definition open_file (fuel : nat) (name : list Z) (s : fsys) : option ((Z * Z) * fsys) :=
  let* (rv, s) := searchdir fuel (mangle name) s in
  if rv <? 0 then Some (rv, 0, s)
  else
    let k := Z.to_nat (rv - 1) in
    let* n := file_inode k s in
    if negb (is_reg (i_mode (v_info n))) then
      let* s := _close_file k s in Some (-1, 0, s)
    else Some (rv, i_size (v_info n), s).

(** [src/core/fs/fs.c:368-376 close_file] *)
Definition close_file (handle : Z) (s : fsys) : option fsys :=
  if handle =? 0 then Some s else _close_file (Z.to_nat (handle - 1)) s.

(** [src/core/fs/readdir.c:11-28 opendir] *)
Definition opendir (fuel : nat) (path : list Z) (s : fsys) : option (option nat * fsys) :=
  let* (rv, s) := searchdir fuel path s in
  if rv <? 0 then Some (None, s)
  else
    let k := Z.to_nat (rv - 1) in
    let* n := file_inode k s in
    if negb (is_dir (i_mode (v_info n))) then
      let* s := _close_file k s in Some (None, s)
    else Some (Some k, s).

(** [src/core/fs/readdir.c:51-56 closedir] *)
Definition closedir (k : nat) (s : fsys) : option fsys := _close_file k s.

(** ** Path names of inodes *)

(** The byte at [ix], if it is in the buffer; the position, which grows in any case.
    [src/core/fs/chdir.c:21-35 copy_string] *)
Fixpoint copy_string (buf : list Z) (ix bufsize : Z) (src : list Z) : list Z * Z :=
  match src with
  | [] => (if ix <? bufsize then <[Z.to_nat ix := 0]> buf else buf, ix)
  | c :: src => copy_string (if ix + 1 <? bufsize then <[Z.to_nat ix := c]> buf else buf) (ix + 1) bufsize src
  end.

(** [Some None] is the error -1.
    [src/core/fs/chdir.c:37-56 generic_inode_to_path] *)
Fixpoint generic_inode_to_path (fuel : nat) (h : gmap nat (vnode P)) (i : nat) (dst : list Z) (bufsize : Z)
  : option (option (list Z * Z)) :=
  match fuel with
  | O => None
  | S fuel =>
      let* n := h !! i in
      match parent n with
      | None => Some (Some (dst, 0))
      | Some p =>
          match i_name (v_info n) with
          | None => Some None
          | Some name =>
              let* r := generic_inode_to_path fuel h p dst bufsize in
              match r with
              | None => Some None
              | Some (dst, s) =>
                  let (dst, s) := copy_string dst s bufsize [slash] in
                  Some (Some (copy_string dst s bufsize name))
              end
          end
      end
  end.

(** The position, -1 on an error, and the buffer.
    [src/core/fs/chdir.c:58-85 realpath] *)
Definition realpath (fuel : nat) (dst src : list Z) (bufsize : Z) (s : fsys) : option (Z * list Z * fsys) :=
  let* (rv, s) := searchdir fuel src s in
  if rv <? 0 then Some (-1, dst, s)
  else
    let k := Z.to_nat (rv - 1) in
    let* f := files s !! k in
    let* f := f in
    let* i := o_inode f in
    let* r := generic_inode_to_path (fresh (hp s)) (nodes (hp s)) i dst bufsize in
    let '(n, dst) :=
      match r with
      | None => (-1, dst)
      | Some (dst, n) => if n =? 0 then let (dst, n) := copy_string dst 0 bufsize [slash] in (n, dst) else (n, dst)
      end in
    let* s := _close_file k s in
    Some (n, dst, s).

(** [src/core/include/fs.h:21-24 FILENAME_MAX] *)
Definition FILENAME_MAX : Z := 256.
Definition CURRENTDIR_MAX : Z := FILENAME_MAX.

(** A store into an array. *)
Definition store (i : Z) (c : Z) (buf : list Z) : option (list Z) :=
  if (0 <=? i) && (i <? Z.of_nat (length buf)) then Some (<[Z.to_nat i := c]> buf) else None.

(** The name of the current directory, from what [generic_inode_to_path] has put into
    the buffer; [None] is an access past it.
    [src/core/fs/chdir.c:117-126 chdir] *)
Definition cwd_path (buf : list Z) (s : Z) (old : list Z) : option (list Z) :=
  let* last := if s <? 1 then Some 0 else buf !! Z.to_nat (s - 1) in
  let* (buf, s) :=
    if negb (last =? slash) then let* buf := store s slash buf in Some (buf, s + 1) else Some (buf, s) in
  let s := if CURRENTDIR_MAX <=? s then CURRENTDIR_MAX - 1 else s in
  let* buf := store s 0 buf in
  Some (blit 0 (take (Z.to_nat (s + 1)) buf) old).

(** [garbage] is what the buffer holds.
    [src/core/fs/chdir.c:87-132 chdir] *)
Definition chdir (fuel : nat) (garbage src : list Z) (s : fsys) : option (Z * fsys) :=
  let* (rv, s) := searchdir fuel src s in
  if rv <? 0 then Some (rv, s)
  else
    let k := Z.to_nat (rv - 1) in
    let* n := file_inode k s in
    if negb (is_dir (i_mode (v_info n))) then let* s := _close_file k s in Some (-1, s)
    else
      let* h := put_inode (Some (cwd s)) (hp s) in
      let* f := files s !! k in
      let* f := f in
      let* i := o_inode f in
      let* h := get_inode i h in
      let s := Fsys h (files s) (root s) i (cwd_name s) in
      let* s := _close_file k s in
      let* r := generic_inode_to_path (fresh (hp s)) (nodes (hp s)) i garbage (CURRENTDIR_MAX - 1) in
      let* (buf, n) := r in
      let* name := cwd_path buf n (cwd_name s) in
      Some (0, Fsys (hp s) (files s) (root s) (cwd s) name).

(** The C string at the beginning of a buffer. *)
Fixpoint c_string (buf : list Z) : list Z :=
  match buf with [] => [] | c :: buf => if c =? 0 then [] else c :: c_string buf end.

(** [src/core/fs/getcwd.c:4-13 core_getcwd] *)
Definition core_getcwd (buf : list Z) (size : Z) (s : fsys) : option (list Z) :=
  let name := c_string (cwd_name s) in
  if Z.of_nat (length name) <? size then Some (blit 0 (name ++ [0]) buf) else None.

(** A directory and a file name, with a slash between them, cut to the buffer.
    [src/core/fs/lib/searchconfig.c:27-30 search_dirs] *)
Definition search_name (sd sf : list Z) : list Z :=
  take (Z.to_nat (FILENAME_MAX - 1))
    (sd ++ (if (0 <? length sd)%nat && (byte_at sd (length sd - 1) =? slash) then [] else [slash]) ++ sf).

(** One directory: the first of the names that can be opened there. *)
Fixpoint search_files (fuel : nat) (sd : list Z) (filenames : list (list Z)) (realname : list Z) (s : fsys)
  : option (option (Z * Z) * list Z * fsys) :=
  match filenames with
  | [] => Some (None, realname, s)
  | sf :: filenames =>
      let* (n, realname, s) := realpath fuel realname (search_name sd sf) FILENAME_MAX s in
      if n =? -1 then search_files fuel sd filenames realname s
      else
        let* (rv, size, s) := open_file fuel (c_string realname) s in
        if 0 <=? rv then Some (Some (rv, size), realname, s)
        else search_files fuel sd filenames realname s
  end.

(** [src/core/fs/lib/searchconfig.c:16-42 search_dirs] *)
Fixpoint search_dirs (fuel : nat) (garbage : list Z) (search_directories filenames : list (list Z))
    (realname : list Z) (s : fsys) : option (option (Z * Z) * list Z * fsys) :=
  match search_directories with
  | [] => Some (None, realname, s)
  | sd :: search_directories =>
      let* (r, realname, s) := search_files fuel sd filenames realname s in
      match r with
      | Some r => let* (_, s) := chdir fuel garbage sd s in Some (Some r, realname, s)
      | None => search_dirs fuel garbage search_directories filenames realname s
      end
  end.
End layer.

(** ** References *)

(** How many inodes have this one for their parent, and how many of the references
    held elsewhere are to it. *)
Definition children {P} (i : nat) (h : gmap nat (vnode P)) : nat :=
  base.size (filter (fun kn => parent kn.2 = Some i) h).

Definition refs (i : nat) (roots : list nat) : nat := length (filter (fun r => r = i) roots).

Record node_ok {P} (h : gmap nat (vnode P)) (roots : list nat) (i : nat) (n : vnode P) : Prop := {
  n_count : refcnt n = Z.of_nat (children i h + refs i roots);
  n_pos : 0 < refcnt n;
  n_parent : forall p, parent n = Some p -> (p < i)%nat /\ is_Some (h !! p)
}.

(** Every inode is referred to as often as its count says, and at least once; parents
    are allocated, and so is all that is referred to. *)
Record heap_ok {P} (h : gmap nat (vnode P)) (roots : list nat) : Prop := {
  h_nodes : forall i n, h !! i = Some n -> node_ok h roots i n;
  h_roots : forall r, r ∈ roots -> is_Some (h !! r)
}.

(** The inodes that are left are what they were. *)
Definition keeps {P} (h h' : gmap nat (vnode P)) : Prop :=
  forall i n', h' !! i = Some n' -> exists n, h !! i = Some n /\ v_info n = v_info n' /\ parent n = parent n'.

Section refs.
Context {P : Type}.
Implicit Types (h : gmap nat (vnode P)) (n : vnode P).

Lemma refs_cons i r roots : refs i (r :: roots) = ((if decide (r = i) then 1 else 0) + refs i roots)%nat.
Proof. unfold refs; rewrite filter_cons; destruct (decide (r = i)); reflexivity. Qed.

Lemma refs_perm i roots roots' : roots ≡ₚ roots' -> refs i roots = refs i roots'.
Proof. intros E; unfold refs; now rewrite E. Qed.

Lemma refs_in i roots : (0 < refs i roots)%nat <-> i ∈ roots.
Proof.
  induction roots as [|r roots IH]; [cbn; split; [lia|set_solver]|].
  rewrite refs_cons, elem_of_cons; destruct (decide (r = i)); [subst; split; [now left|lia]|].
  rewrite Nat.add_0_l, IH; split; [now right|intros [?|?]; [congruence|done]].
Qed.

#[export] Instance heap_ok_perm h : Proper ((≡ₚ) ==> iff) (heap_ok h).
Proof.
  assert (Hp : forall r r', r ≡ₚ r' -> heap_ok h r -> heap_ok h r').
  { intros r r' E [Hn Hr]; split; [|intros x Hx; apply Hr; now rewrite E].
    intros i n Hi; destruct (Hn i n Hi) as [H1 H2 H3]; split; auto.
    now rewrite <- (refs_perm i r r' E). }
  intros r r' E; split; apply Hp; [done|now symmetry].
Qed.

Lemma children_pos i h : (0 < children i h)%nat <-> exists k n, h !! k = Some n /\ parent n = Some i.
Proof.
  unfold children; split.
  - intros H; destruct (map_choose (filter (fun kn => parent kn.2 = Some i) h)) as (k & n & Hk).
    + intros E; rewrite E, map_size_empty in H; lia.
    + apply map_lookup_filter_Some in Hk; exists k, n; exact Hk.
  - intros (k & n & Hk & Hp); apply Nat.neq_0_lt_0; intros E; apply map_size_empty_inv in E.
    assert (Hf : filter (fun kn => parent kn.2 = Some i) h !! k = Some n) by (apply map_lookup_filter_Some; auto).
    rewrite E in Hf; discriminate.
Qed.

(** A change of the count alone. *)
Lemma children_insert_same i h k n n' :
  h !! k = Some n -> parent n' = parent n -> children i (<[k := n']> h) = children i h.
Proof.
  intros Hk Hp; unfold children; destruct (decide (parent n = Some i)) as [E|E].
  - rewrite map_filter_insert_True by (cbn; congruence).
    apply map_size_insert_Some; exists n; now apply map_lookup_filter_Some.
  - rewrite map_filter_insert_False by (cbn; congruence).
    rewrite map_filter_delete, delete_id; [done|]; apply map_lookup_filter_None; right; intros x Hx; cbn; congruence.
Qed.

Lemma children_insert_new i h k n :
  h !! k = None -> children i (<[k := n]> h) = ((if decide (parent n = Some i) then 1 else 0) + children i h)%nat.
Proof.
  intros Hk; unfold children; destruct (decide (parent n = Some i)) as [E|E].
  - rewrite map_filter_insert_True by done; apply map_size_insert_None; apply map_lookup_filter_None; now left.
  - rewrite map_filter_insert_False by done; now rewrite delete_id.
Qed.

Lemma children_delete i h k n :
  h !! k = Some n -> children i h = ((if decide (parent n = Some i) then 1 else 0) + children i (delete k h))%nat.
Proof.
  intros Hk; rewrite <- (children_insert_new i (delete k h) k n) by apply lookup_delete_eq.
  now rewrite insert_delete_id.
Qed.
End refs.

Section counting.
Context {P : Type}.
Implicit Types (h : gmap nat (vnode P)) (n : vnode P).

Lemma keeps_refl h : keeps h h.
Proof. intros i n Hi; eauto. Qed.

Lemma keeps_trans h1 h2 h3 : keeps h1 h2 -> keeps h2 h3 -> keeps h1 h3.
Proof.
  intros H12 H23 i n Hi; destruct (H23 i n Hi) as (n2 & Hi2 & E1 & E2).
  destruct (H12 i n2 Hi2) as (n1 & Hi1 & E3 & E4); exists n1; split; [done|split; congruence].
Qed.

Lemma keeps_count h i n c : h !! i = Some n -> keeps h (<[i := Vnode (v_info n) (parent n) c]> h).
Proof.
  intros Hi k n' Hk; destruct (decide (k = i)) as [->|Hne].
  - rewrite lookup_insert_eq in Hk; injection Hk as <-; eauto.
  - rewrite lookup_insert_ne in Hk by done; eauto.
Qed.

(** One reference more, or one less that is not the last. *)
Lemma heap_ok_count h roots roots' i n c :
  heap_ok h roots -> h !! i = Some n -> 0 < c ->
  c = Z.of_nat (children i h + refs i roots') -> (forall k, k <> i -> refs k roots' = refs k roots) ->
  heap_ok (<[i := Vnode (v_info n) (parent n) c]> h) roots'.
Proof.
  intros [Hn Hr] Hi Hc E Ho.
  assert (Hdom : forall k, is_Some (h !! k) -> is_Some (<[i := Vnode (v_info n) (parent n) c]> h !! k)).
  { intros k Hk; destruct (decide (k = i)) as [->|]; [rewrite lookup_insert_eq; eauto|now rewrite lookup_insert_ne by done]. }
  split.
  - intros k n' Hk; destruct (decide (k = i)) as [->|Hne].
    + rewrite lookup_insert_eq in Hk; injection Hk as <-; destruct (Hn i n Hi) as [H1 H2 H3].
      split; cbn [refcnt parent]; [rewrite (children_insert_same i h i n) by done; exact E|done|].
      intros p Hp; destruct (H3 p Hp); auto.
    + rewrite lookup_insert_ne in Hk by done; destruct (Hn k n' Hk) as [H1 H2 H3]; split; [|done|].
      * rewrite (children_insert_same k h i n) by done; now rewrite Ho.
      * intros p Hp; destruct (H3 p Hp); auto.
  - intros r Hrt; apply Hdom; destruct (decide (r = i)) as [->|Hne]; [eauto|].
    apply Hr, refs_in; rewrite <- Ho by done; now apply refs_in.
Qed.

Lemma get_spec (hp : heap P) roots i :
  heap_ok (nodes hp) roots -> is_Some (nodes hp !! i) ->
  exists hp', get_inode i hp = Some hp' /\ heap_ok (nodes hp') (i :: roots) /\ keeps (nodes hp) (nodes hp') /\
    fresh hp' = fresh hp /\ mem hp' = mem hp.
Proof.
  intros Hok [n Hi]; unfold get_inode; rewrite Hi; eexists; split; [reflexivity|]; cbn [nodes fresh mem].
  pose proof (h_nodes _ _ Hok i n Hi) as [H1 H2 _].
  split; [|split; [now apply keeps_count|done]].
  apply heap_ok_count with roots; auto; [lia| |].
  - rewrite refs_cons, decide_True by done; lia.
  - intros k Hk; rewrite refs_cons, decide_False by congruence; reflexivity.
Qed.

Lemma put_loop_spec fuel : forall i h roots,
  heap_ok h (option_list i ++ roots) -> (forall k, i = Some k -> (k < fuel)%nat) ->
  exists h', put_loop fuel i h = Some h' /\ heap_ok h' roots /\ keeps h h'.
Proof.
  induction fuel as [|fuel IH]; intros [i|] h roots Hok Hf; cbn [put_loop]; try (exists h; now auto using keeps_refl).
  - specialize (Hf i eq_refl); lia.
  - specialize (Hf i eq_refl); change (option_list (Some i) ++ roots) with (i :: roots) in Hok.
    destruct (h_roots _ _ Hok i ltac:(left)) as [n Hi]; rewrite Hi.
    pose proof (h_nodes _ _ Hok i n Hi) as [H1 H2 H3]; rewrite refs_cons, decide_True in H1 by done.
    destruct (Z.eqb_spec (refcnt n - 1) 0) as [E|E]; cbn [negb].
    + destruct (IH (parent n) (delete i h) roots) as (h' & E' & Hok' & Hk).
      * assert (Hc0 : children i h = 0%nat /\ refs i roots = 0%nat) by lia; destruct Hc0 as [Hc0 Hr0].
        assert (Hnoc : forall k m, h !! k = Some m -> parent m <> Some i).
        { intros k m Hk Hp; assert (0 < children i h)%nat by (apply children_pos; eauto); lia. }
        split.
        -- intros k m Hk; apply lookup_delete_Some in Hk as [Hne Hk].
           destruct (h_nodes _ _ Hok k m Hk) as [K1 K2 K3]; rewrite refs_cons, decide_False in K1 by congruence.
           rewrite (children_delete k h i n Hi) in K1; split; [|done|].
           ++ destruct (parent n) as [p|]; [change (option_list (Some p) ++ roots) with (p :: roots); rewrite refs_cons|exact K1].
              destruct (decide (p = k)) as [->|Hpk]; [rewrite decide_True in K1 by done; lia|].
              rewrite decide_False in K1 by congruence; lia.
           ++ intros p Hp; destruct (K3 p Hp) as [? Hs]; split; [done|].
              rewrite lookup_delete_ne; [done|]; intros <-; now apply (Hnoc k m).
        -- intros r Hr; assert (Hr' : is_Some (h !! r) /\ r <> i).
           { apply elem_of_app in Hr as [Hr|Hr].
             - destruct (parent n) as [p|] eqn:Ep; [|inversion Hr]; apply list_elem_of_singleton in Hr as ->.
               destruct (H3 p eq_refl); split; [done|lia].
             - split; [apply (h_roots _ _ Hok); now right|]; intros ->; apply refs_in in Hr; lia. }
           destruct Hr' as [Hs Hne]; now rewrite lookup_delete_ne.
      * intros k Hk; destruct (H3 k Hk); lia.
      * exists h'; split; [done|split; [done|]]; apply keeps_trans with (delete i h); [|done].
        intros k m Hkm; apply lookup_delete_Some in Hkm as [_ Hkm]; eauto.
    + eexists; split; [reflexivity|split; [|now apply keeps_count]].
      apply heap_ok_count with (i :: roots); auto; [lia|lia|].
      intros k Hk; rewrite refs_cons, decide_False by congruence; reflexivity.
Qed.

(** Addresses are below [fresh]. *)
Definition fresh_ok (hp : heap P) : Prop := forall i, is_Some (nodes hp !! i) -> (i < fresh hp)%nat.

Lemma keeps_fresh (hp hp' : heap P) :
  keeps (nodes hp) (nodes hp') -> fresh hp' = fresh hp -> fresh_ok hp -> fresh_ok hp'.
Proof. intros K E F i [n Hi]; rewrite E; apply F; destruct (K i n Hi) as (m & ? & _); eauto. Qed.

Lemma put_spec (hp : heap P) roots i :
  fresh_ok hp -> heap_ok (nodes hp) (i :: roots) ->
  exists hp', put_inode (Some i) hp = Some hp' /\ heap_ok (nodes hp') roots /\ keeps (nodes hp) (nodes hp') /\
    fresh hp' = fresh hp /\ mem hp' = mem hp.
Proof.
  intros F Hok; unfold put_inode.
  destruct (put_loop_spec (fresh hp) (Some i) (nodes hp) roots Hok) as (h' & -> & Hok' & K).
  - intros k [= <-]; apply F, (h_roots _ _ Hok); left.
  - eexists; split; [reflexivity|]; auto.
Qed.

(** A new inode takes over the reference to its directory. *)
Lemma alloc_spec (hp : heap P) roots p inf m :
  fresh_ok hp -> heap_ok (nodes hp) (p :: roots) ->
  let hp' := Heap (<[fresh hp := Vnode inf (Some p) 1]> (nodes hp)) (S (fresh hp)) m in
  heap_ok (nodes hp') (fresh hp :: roots) /\ fresh_ok hp'.
Proof.
  intros F Hok; cbn [nodes].
  assert (Hnew : nodes hp !! fresh hp = None).
  { destruct (nodes hp !! fresh hp) eqn:E; [|done]; specialize (F (fresh hp) ltac:(eauto)); lia. }
  assert (Hp : is_Some (nodes hp !! p)) by (apply (h_roots _ _ Hok); left).
  assert (Hdom : forall k v, is_Some (nodes hp !! k) -> is_Some (<[fresh hp := v]> (nodes hp) !! k)).
  { intros k v Hk; destruct (decide (k = fresh hp)) as [->|]; [rewrite lookup_insert_eq; eauto|now rewrite lookup_insert_ne by done]. }
  split; [split|].
  - intros k n Hk; destruct (decide (k = fresh hp)) as [->|Hne].
    + rewrite lookup_insert_eq in Hk; injection Hk as <-; split; cbn [refcnt parent]; [|lia|].
      * rewrite children_insert_new by done; cbn [parent].
        assert (p <> fresh hp) by (specialize (F p Hp); lia); rewrite decide_False by congruence.
        rewrite refs_cons, decide_True by done.
        assert (Hc : children (fresh hp) (nodes hp) = 0%nat).
        { destruct (children (fresh hp) (nodes hp)) eqn:E; [done|].
          destruct (proj1 (children_pos (fresh hp) (nodes hp)) ltac:(lia)) as (k & m' & Hk & Hpk).
          destruct (n_parent _ _ _ _ (h_nodes _ _ Hok k m' Hk) _ Hpk) as [_ Hs]; rewrite Hnew in Hs; now destruct Hs. }
        assert (Hr : refs (fresh hp) roots = 0%nat).
        { destruct (refs (fresh hp) roots) eqn:E; [done|].
          assert (Hin : fresh hp ∈ roots) by (apply refs_in; lia).
          destruct (h_roots _ _ Hok (fresh hp) ltac:(now right)) as [? Hs]; congruence. }
        lia.
      * intros q [= <-]; split; [now apply F|auto].
    + rewrite lookup_insert_ne in Hk by done; destruct (h_nodes _ _ Hok k n Hk) as [H1 H2 H3]; split; [|done|].
      * rewrite H1, children_insert_new by done; cbn [parent]; rewrite !refs_cons.
        rewrite (decide_False (P := fresh hp = k)) by congruence.
        destruct (decide (p = k)) as [->|]; [rewrite decide_True by done; lia|rewrite decide_False by congruence; lia].
      * intros q Hq; destruct (H3 q Hq); auto.
  - intros r Hr; apply elem_of_cons in Hr as [->|Hr]; [rewrite lookup_insert_eq; eauto|].
    apply Hdom, (h_roots _ _ Hok); now right.
  - intros k [n Hk]; cbn [fresh]; destruct (decide (k = fresh hp)) as [->|Hne]; [lia|].
    cbn [nodes] in Hk; rewrite lookup_insert_ne in Hk by done; specialize (F k ltac:(eauto)); lia.
Qed.
End counting.

(** ** The walk over directories alone *)

(** What the driver promises of links: a target fits the size of its inode. *)
Class DriverLaws (P : Type) {driver : Driver P} := {
  link_ok : forall name d e, iget name d = Some e -> is_lnk (e_mode e) = true ->
    0 <= e_size e < 1073741824 /\ forall rl, readlink = Some rl -> Z.of_nat (length (rl (e_data e))) <= e_size e
}.

Section lookup.
Context {P : Type} {driver : Driver P}.

(** A place is the inode and its directories, up to the root.  No inodes are
    allocated, nothing is counted: what a path leads to from a place. *)
Fixpoint lookup_path (fuel : nat) (rootc : list (info P)) (path : list Z) (links : Z) (c : list (info P))
  : option (option (list (info P))) :=
  match fuel with
  | O => None
  | S fuel =>
      let* (name, next) := next_name path in
      let continue c :=
        match next with
        | Some path => lookup_path fuel rootc path links c
        | None => Some (Some c)
        end in
      match name with
      | None => continue rootc
      | Some name =>
          if bool_decide (name = [46]) then continue c
          else if bool_decide (name = [46; 46]) then
            continue (match c with _ :: (_ :: _) as up => up | _ => c end)
          else
            let* dir := head c in
            match iget name (i_data dir) with
            | None => Some None
            | Some e =>
                if is_lnk (e_mode e) then
                  match readlink with
                  | None => Some None
                  | Some readlink =>
                      if (links - 1 =? 0) || (MAX_SYMLINK_BUF <? link_len (e_size e) next) then Some None
                      else match readlink (e_data e) with
                           | [] => Some None
                           | target => lookup_path fuel rootc (link_path target next) (links - 1) c
                           end
                  end
                else if (match next with Some _ => true | None => false end) && negb (is_dir (e_mode e))
                then Some None
                else continue (Info (Some name) (e_mode e) (e_size e) (e_data e) :: c)
            end
      end
  end.

(** The inodes from one to the root. *)
Fixpoint chain_at (h : gmap nat (vnode P)) (i : option nat) (c : list (info P)) : Prop :=
  match c with
  | [] => i = None
  | x :: c => exists k n, i = Some k /\ h !! k = Some n /\ v_info n = x /\ chain_at h (parent n) c
  end.

Lemma chain_keeps h h' roots c : forall i,
  keeps h h' -> heap_ok h' roots -> (forall k, i = Some k -> is_Some (h' !! k)) ->
  chain_at h i c -> chain_at h' i c.
Proof.
  induction c as [|x c IH]; intros i K Hok Hi; cbn [chain_at]; [done|]; intros (k & n & -> & Hn & <- & Hc).
  destruct (Hi k eq_refl) as [n' Hn']; destruct (K k n' Hn') as (n2 & E & E1 & E2).
  rewrite Hn in E; injection E as <-; exists k, n'; split; [done|split; [done|split; [done|]]].
  rewrite <- E2; apply IH; auto; intros p Hp; apply (n_parent _ _ _ _ (h_nodes _ _ Hok k n' Hn')); congruence.
Qed.

Lemma chain_new h j n c : forall i, h !! j = None -> chain_at h i c -> chain_at (<[j := n]> h) i c.
Proof.
  induction c as [|x c IH]; intros i Hj; cbn [chain_at]; [done|]; intros (k & m & -> & Hm & E & Hc).
  exists k, m; split; [done|split; [|split; [done|now apply IH]]].
  rewrite lookup_insert_ne; congruence.
Qed.

Lemma next_name_spec path name next :
  next_name path = Some (name, next) ->
  path <> [] /\ forall p, next = Some p -> p <> [] /\ (length p < length path)%nat.
Proof.
  assert (Hskip : forall s, (length (skip_slashes s) <= length s)%nat).
  { induction s as [|c s IH]; cbn; [done|]; destruct (c =? slash); cbn; lia. }
  assert (Htake : forall s p, (take_name s).2 = Some p -> (length p < length s)%nat).
  { induction s as [|c s IH]; cbn; [done|]; intros p; destruct (c =? slash); cbn; [intros [= ->]; lia|].
    destruct (take_name s) as [nm nx]; cbn in *; intros E; specialize (IH p E); lia. }
  unfold next_name; destruct path as [|c s]; [done|]; intros H; split; [done|].
  assert (Hs : forall o q, (match o with Some s0 => match skip_slashes s0 with [] => None | z :: l => Some (z :: l) end
      | None => None end) = Some q -> (forall p, o = Some p -> (length p < S (length s))%nat) ->
      q <> [] /\ (length q < S (length s))%nat).
  { intros [o|] q E Hl; [|done]; specialize (Hskip o); specialize (Hl o eq_refl).
    destruct (skip_slashes o) as [|z l]; [done|]; injection E as <-; cbn in *; split; [done|lia]. }
  intros p ->; cbn [length]; destruct (c =? slash).
  - injection H as _ H; apply (Hs (Some s)); [exact H|intros q [= ->]; lia].
  - destruct (take_name s) as [nm nx] eqn:E; injection H as _ H; apply (Hs nx); [exact H|].
    intros q ->; specialize (Htake s q); rewrite E in Htake; specialize (Htake eq_refl); lia.
Qed.

Lemma next_name_some path : path <> [] -> next_name path <> None.
Proof. destruct path as [|c s]; [done|]; unfold next_name; destruct (c =? slash); [done|]; now destruct (take_name s). Qed.

Lemma link_len_small size next :
  0 <= size < 1073741824 -> (forall p, next = Some p -> Z.of_nat (length p) < 1073741823) ->
  link_len size next = size + 1 + match next with Some p => Z.of_nat (length p) + 1 | None => 0 end.
Proof.
  intros Hs Hn; unfold link_len; rewrite (s32_of_small (size + 1)) by lia; destruct next as [p|]; [|lia].
  specialize (Hn p eq_refl); rewrite s32_of_small; lia.
Qed.

Lemma link_path_length target next :
  Z.of_nat (length (link_path target next)) =
    Z.of_nat (length target) + match next with Some p => Z.of_nat (length p) + 1 | None => 0 end.
Proof. destruct next; cbn; [rewrite length_app; cbn|]; lia. Qed.

(** ** What the walk does *)

Definition frame (hp hp' : heap P) (roots : list nat) : Prop :=
  forall k c, k ∈ roots -> chain_at (nodes hp) (Some k) c -> chain_at (nodes hp') (Some k) c.

(** The walk ends; it leaves one reference to what it found; no place that is held
    changes; if there is memory ([R]), it has found what the path leads to. *)
Definition outcome (R : Prop) (hp : heap P) (roots : list nat) (spec : option (option (list (info P))))
    (r : option (option nat * heap P)) : Prop :=
  exists j hp', r = Some (j, hp') /\ heap_ok (nodes hp') (option_list j ++ roots) /\ fresh_ok hp' /\
    frame hp hp' roots /\
    (R -> Mem.reliable (mem hp') /\ exists o, spec = Some o /\
      match o with
      | Some c => exists i, j = Some i /\ chain_at (nodes hp') (Some i) c
      | None => j = None
      end).

Lemma no_frame_change hp roots : frame hp hp roots.
Proof. intros k c _ H; exact H. Qed.

Lemma frame_keeps hp hp' roots more :
  keeps (nodes hp) (nodes hp') -> heap_ok (nodes hp') (more ++ roots) -> frame hp hp' roots.
Proof.
  intros K Hok k c Hk; apply (chain_keeps _ _ _ _ _ K Hok).
  intros q [= <-]; apply (h_roots _ _ Hok), elem_of_app; now right.
Qed.

Lemma outcome_step R hp hp2 roots spec r :
  frame hp hp2 roots -> outcome R hp2 roots spec r -> outcome R hp roots spec r.
Proof.
  intros Fr (j & hp' & E & Hok & F & Fr2 & Hspec); exists j, hp'; split; [done|split; [done|split; [done|split; [|done]]]].
  intros k c Hk Hc; apply Fr2; auto.
Qed.

Lemma outcome_spec (R : Prop) hp roots spec spec' r :
  (R -> spec = spec') -> outcome R hp roots spec' r -> outcome R hp roots spec r.
Proof.
  intros E (j & hp' & H1 & H2 & H3 & H4 & H5); exists j, hp'; split; [done|split; [done|split; [done|split; [done|]]]].
  intros HR; rewrite E by done; auto.
Qed.

(** Nothing is found: the reference is given back. *)
Lemma outcome_fail R hp roots i spec :
  heap_ok (nodes hp) (i :: roots) -> fresh_ok hp -> (R -> Mem.reliable (mem hp) /\ spec = Some None) ->
  outcome R hp roots spec (let* hp := put_inode (Some i) hp in Some (None, hp)).
Proof.
  intros Hok F Hspec; destruct (put_spec hp roots i F Hok) as (hp' & -> & Hok' & K & Ef & Em).
  exists None, hp'; split; [done|split; [done|split; [now apply (keeps_fresh hp)|split]]].
  - now apply (frame_keeps hp hp' roots []).
  - intros Hr; destruct (Hspec Hr); rewrite Em; split; [done|]; exists None; auto.
Qed.
End lookup.

Section walk.
Context {P : Type} {driver : Driver P} {laws : DriverLaws P}.
Context (R : Prop) (r : nat) (rootc : list (info P)).

(** What the loop holds at its head. *)
Record at_place (hp : heap P) (roots : list nat) (i : nat) (c : list (info P)) : Prop := {
  w_ok : heap_ok (nodes hp) (i :: roots);
  w_fresh : fresh_ok hp;
  w_root : r ∈ roots;
  w_rootc : chain_at (nodes hp) (Some r) rootc;
  w_mem : R -> Mem.reliable (mem hp);
  w_chain : R -> chain_at (nodes hp) (Some i) c
}.

(** One reference is taken before another is given back. *)
Lemma at_place_swap hp roots i j c cj :
  at_place hp roots i c -> is_Some (nodes hp !! j) -> (R -> chain_at (nodes hp) (Some j) cj) ->
  exists hp1 hp2, get_inode j hp = Some hp1 /\ put_inode (Some i) hp1 = Some hp2 /\
    at_place hp2 roots j cj /\ frame hp hp2 roots.
Proof.
  intros [Hok F Hr Hrc Hm Hc] Hj Hcj.
  destruct (get_spec hp (i :: roots) j Hok Hj) as (hp1 & E1 & Hok1 & K1 & Ef1 & Em1).
  assert (F1 : fresh_ok hp1) by now apply (keeps_fresh hp).
  assert (Hok1' : heap_ok (nodes hp1) (i :: j :: roots)) by now rewrite Permutation_swap.
  destruct (put_spec hp1 (j :: roots) i F1 Hok1') as (hp2 & E2 & Hok2 & K2 & Ef2 & Em2).
  assert (K : keeps (nodes hp) (nodes hp2)) by now apply keeps_trans with (nodes hp1).
  assert (Fr : frame hp hp2 roots) by now apply (frame_keeps hp hp2 roots [j]).
  exists hp1, hp2; split; [done|split; [done|split; [|done]]].
  split; [done|now apply (keeps_fresh hp1)|done|now apply Fr|rewrite Em2, Em1; done|].
  intros HR; apply (chain_keeps _ _ _ _ _ K Hok2); auto.
  intros k [= <-]; apply (h_roots _ _ Hok2); left.
Qed.

(** To the root: the reference is given back first. *)
Lemma at_place_root hp roots i c :
  at_place hp roots i c ->
  exists hp1 hp2, put_inode (Some i) hp = Some hp1 /\ get_inode r hp1 = Some hp2 /\
    at_place hp2 roots r rootc /\ frame hp hp2 roots.
Proof.
  intros [Hok F Hr Hrc Hm Hc]; destruct (put_spec hp roots i F Hok) as (hp1 & E1 & Hok1 & K1 & Ef1 & Em1).
  destruct (get_spec hp1 roots r Hok1) as (hp2 & E2 & Hok2 & K2 & Ef2 & Em2); [now apply (h_roots _ _ Hok1)|].
  assert (K : keeps (nodes hp) (nodes hp2)) by now apply keeps_trans with (nodes hp1).
  assert (Fr : frame hp hp2 roots) by now apply (frame_keeps hp hp2 roots [r]).
  exists hp1, hp2; split; [done|split; [done|split; [|done]]].
  split; [done| |done|now apply Fr|rewrite Em2, Em1; done|intros _; now apply Fr].
  apply (keeps_fresh hp1); auto; now apply (keeps_fresh hp).
Qed.

(** To a file of the directory: its inode takes over the reference. *)
Lemma at_place_new hp roots i c inf m :
  at_place hp roots i c -> (R -> Mem.reliable m) ->
  let hp' := Heap (<[fresh hp := Vnode inf (Some i) 1]> (nodes hp)) (S (fresh hp)) m in
  at_place hp' roots (fresh hp) (inf :: c) /\ frame hp hp' roots /\
  (R -> chain_at (nodes hp') (Some i) c) /\ is_Some (nodes hp' !! i).
Proof.
  intros [Hok F Hr Hrc Hm Hc] Hm'; cbn zeta; destruct (alloc_spec hp roots i inf m F Hok) as [Hok' F'].
  assert (Hnew : nodes hp !! fresh hp = None).
  { destruct (nodes hp !! fresh hp) eqn:E; [|done]; specialize (F (fresh hp) ltac:(eauto)); lia. }
  split; [split; [done|done|done|now apply chain_new|done|]|split; [|split]].
  - intros HR; exists (fresh hp), (Vnode inf (Some i) 1); cbn [nodes]; rewrite lookup_insert_eq.
    split; [done|split; [done|split; [done|]]]; now apply chain_new, Hc.
  - intros k c' _ Hk; now apply chain_new.
  - intros HR; now apply chain_new, Hc.
  - destruct (h_roots _ _ Hok i ltac:(left)) as [n Hi]; cbn [nodes].
    rewrite lookup_insert_ne by congruence; eauto.
Qed.

(** The inode of the place and its first entry. *)
Lemma at_place_node hp roots i c :
  at_place hp roots i c -> exists n, nodes hp !! i = Some n /\ (R -> exists c', c = v_info n :: c').
Proof.
  intros [Hok _ _ _ _ Hc]; destruct (h_roots _ _ Hok i ltac:(left)) as [n Hi]; exists n; split; [done|].
  intros HR; specialize (Hc HR); destruct c as [|x c]; [discriminate Hc|].
  destruct Hc as (k & n' & [= <-] & Hn & <- & _); rewrite Hi in Hn; injection Hn as <-; eauto.
Qed.

Lemma walk_outcome fuel : forall path links i hp roots c,
  at_place hp roots i c -> path <> [] -> Z.of_nat (length path) < 1073741823 ->
  1 <= links -> links * 4096 + Z.of_nat (length path) < Z.of_nat fuel ->
  outcome R hp roots (lookup_path fuel rootc path links c) (walk fuel r path links i hp).
Proof.
  induction fuel as [|fuel IH]; intros path links i hp roots c Hpl Hne Hlen Hl Hf; [lia|].
  cbn [walk lookup_path]; destruct (next_name path) as [[name next]|] eqn:En; [|now apply next_name_some in En].
  destruct (next_name_spec _ _ _ En) as [_ Hnext].
  set (cont := fun (j : nat) (hp : heap P) =>
    match next with Some p => walk fuel r p links j hp | None => Some (Some j, hp) end).
  set (scont := fun (c : list (info P)) =>
    match next with Some p => lookup_path fuel rootc p links c | None => Some (Some c) end).
  assert (Hcont : forall hp2 j c2, at_place hp2 roots j c2 -> frame hp hp2 roots ->
    outcome R hp roots (scont c2) (cont j hp2)).
  { intros hp2 j c2 Hpl2 Fr; apply (outcome_step R hp hp2); [done|]; subst cont scont; cbn beta.
    destruct next as [p|].
    - destruct (Hnext p eq_refl); apply IH; auto; lia.
    - destruct Hpl2 as [H1 H2 H3 H4 H5 H6]; exists (Some j), hp2.
      split; [done|split; [done|split; [done|split; [apply no_frame_change|]]]].
      intros HR; split; [auto|]; exists (Some c2); eauto. }
  destruct name as [name|].
  2: { destruct (at_place_root hp roots i c Hpl) as (hp1 & hp2 & -> & -> & Hpl2 & Fr); now apply Hcont. }
  destruct (bool_decide (name = [46])); [apply Hcont; auto using no_frame_change|].
  destruct (at_place_node hp roots i c Hpl) as (n & Hn & Hhead).
  destruct (bool_decide (name = [46; 46])).
  { rewrite Hn; destruct (parent n) as [p|] eqn:Ep.
    - assert (Hp : is_Some (nodes hp !! p)) by (apply (n_parent _ _ _ _ (h_nodes _ _ (w_ok _ _ _ _ Hpl) i n Hn)); done).
      destruct (at_place_swap hp roots i p c (match c with _ :: (_ :: _) as up => up | _ => c end) Hpl Hp)
        as (hp1 & hp2 & -> & -> & Hpl2 & Fr); [|now apply Hcont].
      intros HR; pose proof (w_chain _ _ _ _ Hpl HR) as Hc; destruct c as [|x c]; [discriminate Hc|].
      destruct Hc as (k & n' & [= <-] & Hn' & <- & Hc); rewrite Hn in Hn'; injection Hn' as <-; rewrite Ep in Hc.
      destruct c as [|y c]; [discriminate Hc|exact Hc].
    - apply Hcont; [|apply no_frame_change]; destruct Hpl as [H1 H2 H3 H4 H5 H6]; split; auto.
      intros HR; specialize (H6 HR); destruct c as [|x c]; [done|].
      pose proof H6 as (k & n' & [= <-] & Hn' & <- & Hc); rewrite Hn in Hn'; injection Hn' as <-; rewrite Ep in Hc.
      destruct c as [|y c]; [exact H6|]; destruct Hc as (? & ? & [=] & _). }
  rewrite Hn; cbn zeta; fold cont scont.
  assert (Hfail : forall hp2 j c2 spec, at_place hp2 roots j c2 -> frame hp hp2 roots -> (R -> spec = Some None) ->
    outcome R hp roots spec (let* hp := put_inode (Some j) hp2 in Some (None, hp))).
  { intros hp2 j c2 spec Hpl2 Fr Hspec; apply (outcome_step R hp hp2); [done|].
    apply outcome_fail; [apply Hpl2|apply Hpl2|]; intros HR; split; [now apply (w_mem _ _ _ _ Hpl2)|auto]. }
  assert (Hspec : R -> exists c', c = v_info n :: c') by exact Hhead.
  destruct (iget name (i_data (v_info n))) as [e|] eqn:Ei.
  2: { apply (Hfail hp i c); [done|apply no_frame_change|].
       intros HR; destruct (Hspec HR) as [c' ->]; cbn [head]; now rewrite Ei. }
  unfold alloc_inode; cbn [nodes fresh mem].
  destruct (Mem.malloc (mem hp)) as [ok m] eqn:Em; rewrite insert_insert_eq.
  set (inf := Info (if ok then Some name else None) (e_mode e) (e_size e) (e_data e)).
  assert (Hm : R -> ok = true /\ Mem.reliable m).
  { intros HR; now apply (Mem.malloc_reliable (mem hp)), Em; apply (w_mem _ _ _ _ Hpl). }
  destruct (at_place_new hp roots i c inf m Hpl ltac:(intros HR; now apply Hm)) as (Hnew & Fr & Hci & Hsi).
  set (hp1 := Heap (<[fresh hp := Vnode inf (Some i) 1]> (nodes hp)) (S (fresh hp)) m) in *.
  apply (outcome_spec R) with
    (if is_lnk (e_mode e) then
       match readlink with
       | None => Some None
       | Some readlink =>
           if (links - 1 =? 0) || (MAX_SYMLINK_BUF <? link_len (e_size e) next) then Some None
           else match readlink (e_data e) with
                | [] => Some None
                | target => lookup_path fuel rootc (link_path target next) (links - 1) c
                end
       end
     else if (match next with Some _ => true | None => false end) && negb (is_dir (e_mode e))
     then Some None
     else scont (inf :: c)).
  { intros HR; destruct (Hspec HR) as [c' ->]; cbn [head]; rewrite Ei; subst inf.
    destruct (Hm HR) as [-> _]; reflexivity. }
  destruct (is_lnk (e_mode e)) eqn:El.
  - destruct (link_ok _ _ _ Ei El) as [Hsize Hrl]; destruct readlink as [rl|]; [|now apply (Hfail hp1 (fresh hp) (inf :: c))].
    specialize (Hrl rl eq_refl).
    destruct ((links - 1 =? 0) || (MAX_SYMLINK_BUF <? link_len (e_size e) next)) eqn:Ec;
      [now apply (Hfail hp1 (fresh hp) (inf :: c))|]; bools.
    change (mem hp1) with m; destruct (Mem.malloc m) as [ok2 m2] eqn:Em2.
    assert (Hm2 : R -> ok2 = true /\ Mem.reliable m2).
    { intros HR; now apply (Mem.malloc_reliable m), Em2; apply Hm. }
    assert (Hpl2 : at_place (set_mem m2 hp1) roots (fresh hp) (inf :: c)).
    { destruct Hnew as [H1 H2 H3 H4 H5 H6]; split; auto; intros HR; now apply Hm2. }
    destruct ok2; cbn [negb].
    2: { apply (Hfail _ _ _ _ Hpl2 Fr); intros HR; now destruct (Hm2 HR). }
    destruct (rl (e_data e)) as [|t0 target] eqn:Et; [now apply (Hfail _ _ _ _ Hpl2 Fr)|].
    set (T := t0 :: target) in *.
    pose proof (link_path_length T next) as Hlp.
    assert (Hnl : forall p, next = Some p -> Z.of_nat (length p) < 1073741823)
      by (intros p Hp; destruct (Hnext p Hp); lia).
    rewrite (link_len_small _ _ Hsize Hnl) in *; unfold MAX_SYMLINK_BUF in *.
    rewrite (proj2 (Z.ltb_ge _ _)) by lia.
    assert (Hback : exists hp3 hp4, get_inode i (set_mem m2 hp1) = Some hp3 /\ put_inode (Some (fresh hp)) hp3 = Some hp4 /\
      at_place hp4 roots i c /\ frame hp hp4 roots).
    { destruct (at_place_swap (set_mem m2 hp1) roots (fresh hp) i (inf :: c) c Hpl2 Hsi Hci)
        as (hp3 & hp4 & E3 & E4 & Hpl4 & Fr4).
      exists hp3, hp4; split; [done|split; [done|split; [done|]]]; intros k c' Hk Hc'; now apply Fr4, Fr. }
    destruct Hback as (hp3 & hp4 & -> & -> & Hpl4 & Fr4); apply (outcome_step R hp hp4); [done|].
    apply IH; [done|subst T; destruct next; done|lia|lia|lia].
  - destruct ((match next with Some _ => true | None => false end) && negb (is_dir (e_mode e)));
      [now apply (Hfail hp1 (fresh hp) (inf :: c))|now apply Hcont].
Qed.
End walk.

(** ** Files *)

Section files.
Context {P : Type} {driver : Driver P} {laws : DriverLaws P}.

Definition open_inodes (fs : list (option ofile)) : list nat := omap (fun f => f ≫= o_inode) fs.

(** All that refers to inodes from outside. *)
Definition held (s : fsys (P := P)) : list nat := root s :: cwd s :: open_inodes (files s).

(** The counts are right, and nothing is allocated that is not held. *)
Record fs_inv (s : fsys (P := P)) : Prop := {
  s_heap : heap_ok (nodes (hp s)) (held s);
  s_fresh : fresh_ok (hp s);
  s_files : length (files s) = MAX_OPEN
}.

(** An inode that is allocated is held, or is a directory on the way to one. *)
Inductive above (h : gmap nat (vnode P)) (i : nat) : nat -> Prop :=
| above_refl : above h i i
| above_child k n p : h !! k = Some n -> parent n = Some p -> above h i p -> above h i k.

Lemma no_leak s i : fs_inv s -> is_Some (nodes (hp s) !! i) -> exists k, k ∈ held s /\ above (nodes (hp s)) i k.
Proof.
  intros [Hok F _]; remember (fresh (hp s) - i)%nat as m eqn:Em; revert i Em.
  induction m as [m IH] using lt_wf_ind; intros i Em [n Hi].
  destruct (h_nodes _ _ Hok i n Hi) as [H1 H2 _].
  destruct (decide (0 < refs i (held s))%nat) as [Hr|Hr]; [exists i; split; [now apply refs_in|constructor]|].
  destruct (proj1 (children_pos i (nodes (hp s))) ltac:(lia)) as (k & nk & Hk & Hp).
  destruct (n_parent _ _ _ _ (h_nodes _ _ Hok k nk Hk) i Hp) as [Hlt _].
  specialize (F k ltac:(eauto)) as Hkf; destruct (IH (fresh (hp s) - k)%nat ltac:(lia) k eq_refl ltac:(eauto)) as (q & Hq & Ha).
  exists q; split; [done|]; clear -Ha Hk Hp; induction Ha as [|j n' p Hj Hp' Ha IH].
  - eapply above_child; [exact Hk|exact Hp|constructor].
  - eapply above_child; [exact Hj|exact Hp'|exact IH].
Qed.

Lemma open_inodes_set k f g (fs : list (option ofile)) :
  fs !! k = Some g -> g ≫= o_inode = None ->
  open_inodes (<[k := f]> fs) ≡ₚ option_list (f ≫= o_inode) ++ open_inodes fs.
Proof.
  intros Hk Hg; destruct (list_elem_of_split_length _ _ _ Hk) as (l1 & l2 & -> & ->).
  rewrite insert_app_r_alt, Nat.sub_diag by lia; cbn [insert list_insert].
  unfold open_inodes; rewrite !omap_app; cbn [omap list_omap]; rewrite Hg.
  destruct (f ≫= o_inode) as [i|]; cbn [option_list app]; [|done].
  now rewrite <- Permutation_middle.
Qed.

Lemma open_inodes_clear k f (fs : list (option ofile)) :
  fs !! k = Some f -> open_inodes fs ≡ₚ option_list (f ≫= o_inode) ++ open_inodes (<[k := None]> fs).
Proof.
  intros Hk; rewrite <- (open_inodes_set k f None) by (first [done|rewrite list_lookup_insert_eq; [done|now apply lookup_lt_Some in Hk]]).
  rewrite list_insert_insert_eq, list_insert_id by done; reflexivity.
Qed.

Lemma alloc_file_spec (s : fsys (P := P)) :
  match alloc_file s with
  | Some k => files s !! k = Some None
  | None => (None : option ofile) ∉ files s
  end.
Proof.
  unfold alloc_file; destruct (list_find _ (files s)) as [[k f]|] eqn:E.
  - apply list_find_Some in E as (E & -> & _); exact E.
  - apply list_find_None in E; rewrite Forall_forall in E; intros H; now apply (E None).
Qed.

Lemma close_spec k f s :
  fs_inv s -> files s !! k = Some f ->
  exists s', _close_file k s = Some s' /\ fs_inv s' /\ files s' = <[k := None]> (files s) /\ root s' = root s /\
    cwd s' = cwd s /\ cwd_name s' = cwd_name s /\ mem (hp s') = mem (hp s) /\ frame (hp s) (hp s') (held s').
Proof.
  intros [Hok F Hl] Hk; unfold _close_file; rewrite Hk.
  assert (Hp : held s ≡ₚ option_list (f ≫= o_inode) ++ root s :: cwd s :: open_inodes (<[k := None]> (files s))).
  { unfold held; rewrite (open_inodes_clear k f) by done.
    destruct (f ≫= o_inode) as [i|]; cbn [option_list app]; [|done].
    symmetry; exact (Permutation_middle [root s; cwd s] _ i). }
  rewrite Hp in Hok; destruct f as [f|]; cbn [mbind option_bind] in Hok.
  - destruct (o_inode f) as [i|] eqn:Ei; cbn [option_list app] in Hok.
    + destruct (put_spec (hp s) _ i F Hok) as (h & -> & Hok' & K & Ef & Em).
      eexists; split; [reflexivity|]; cbn; split; [split; cbn; [done|now apply (keeps_fresh (hp s))|now rewrite length_insert]|].
      do 5 (split; [done|]); now apply (frame_keeps (hp s) h _ []).
    + unfold put_inode; replace (put_loop (fresh (hp s)) None (nodes (hp s))) with (Some (nodes (hp s)))
        by now destruct (fresh (hp s)).
      eexists; split; [reflexivity|]; cbn; split; [split; cbn; [done|done|now rewrite length_insert]|].
      do 5 (split; [done|]); intros q c _ Hc; exact Hc.
  - eexists; split; [reflexivity|]; cbn; split; [split; cbn; [done|done|now rewrite length_insert]|].
    do 5 (split; [done|]); intros q c _ Hc; exact Hc.
Qed.

(** The places of the root and of the current directory. *)
Record places (s : fsys (P := P)) (rootc c : list (info P)) : Prop := {
  p_root : chain_at (nodes (hp s)) (Some (root s)) rootc;
  p_cwd : chain_at (nodes (hp s)) (Some (cwd s)) c
}.

(** What has become of the table of files. *)
Definition opened (s s' : fsys (P := P)) (rv : Z) (o : option (list (info P))) : Prop :=
  match o with
  | None => rv = -1 /\ files s' = files s
  | Some c => exists k i, rv = Z.of_nat k + 1 /\ files s !! k = Some None /\
      files s' = <[k := Some (Ofile 0 (Some i))]> (files s) /\ chain_at (nodes (hp s')) (Some i) c
  end.

(** The same root and current directory, at the same places. *)
Definition same_dirs (s s' : fsys (P := P)) : Prop :=
  root s' = root s /\ cwd s' = cwd s /\ cwd_name s' = cwd_name s /\ frame (hp s) (hp s') (held s).

Lemma fs_inv_mem m s : fs_inv s -> fs_inv (set_hp (set_mem m (hp s)) s).
Proof. intros [H1 H2 H3]; split; [exact H1|exact H2|exact H3]. Qed.

Lemma searchdir_step fuel name (s : fsys (P := P)) rootc c :
  fs_inv s -> places s rootc c -> name <> [] -> Z.of_nat (length name) < 1073741823 ->
  20 * 4096 + Z.of_nat (length name) < Z.of_nat fuel ->
  exists rv s', searchdir fuel name s = Some (rv, s') /\ fs_inv s' /\ same_dirs s s' /\
    (rv = -1 /\ files s' = files s \/ exists k i, rv = Z.of_nat k + 1 /\ files s !! k = Some None /\
      files s' = <[k := Some (Ofile 0 (Some i))]> (files s)) /\
    (Mem.reliable (mem (hp s)) -> (None : option ofile) ∈ files s ->
      Mem.reliable (mem (hp s')) /\ exists o, lookup_path fuel rootc name 20 c = Some o /\ opened s s' rv o).
Proof.
  intros Hinv [Hrc Hcc] Hne Hlen Hf; unfold searchdir; pose proof (alloc_file_spec s) as Ha.
  destruct (alloc_file s) as [k|].
  2: { exists (-1), s; split; [done|split; [done|split; [|split; [now left|done]]]].
       split; [done|split; [done|split; [done|apply no_frame_change]]]. }
  pose proof Hinv as [Hok F Hl].
  (* the file is closed again *)
  assert (Hclose : forall h, heap_ok (nodes h) (held s) -> fresh_ok h ->
    exists s', (let* s := _close_file k (set_hp h (set_file k (Some (Ofile 0 None)) s)) in Some (-1, s)) = Some (-1, s') /\
      fs_inv s' /\ files s' = files s /\ root s' = root s /\ cwd s' = cwd s /\ cwd_name s' = cwd_name s /\
      mem (hp s') = mem h /\ frame h (hp s') (held s)).
  { intros h Hh Fh; set (s1 := set_hp h (set_file k (Some (Ofile 0 None)) s)).
    assert (Ho : open_inodes (files s1) ≡ₚ open_inodes (files s)) by (now apply (open_inodes_set k (Some (Ofile 0 None)) None)).
    assert (Hi1 : fs_inv s1).
    { split; [|exact Fh|cbn; now rewrite length_insert]; unfold held in *; rewrite Ho; exact Hh. }
    destruct (close_spec k (Some (Ofile 0 None)) s1 Hi1) as (s' & E & Hi' & Ef & Er & Ec & En & Em & Fr);
      [cbn; rewrite list_lookup_insert_eq; [done|now apply lookup_lt_Some in Ha]|].
    assert (Hfs : files s' = files s) by (rewrite Ef; cbn; now rewrite list_insert_insert_eq, list_insert_id).
    exists s'; rewrite E; split; [done|split; [done|split; [done|do 3 (split; [done|]); split; [done|]]]].
    replace (held s) with (held s') by (unfold held; now rewrite Hfs, Er, Ec); exact Fr. }
  destruct (Mem.malloc (mem (hp s))) as [ok m] eqn:Em; cbn [set_file hp set_hp files root cwd cwd_name].
  rewrite Em; destruct ok; cbn [negb].
  2: { destruct (Hclose (set_mem m (hp s)) Hok F) as (s' & E & Hi' & Ef & Er & Ec & En & Em' & Fr).
       exists (-1), s'; split; [exact E|split; [done|split; [|split; [now left|]]]].
       - split; [done|split; [done|split; [done|exact Fr]]].
       - intros Hm _; destruct (Mem.malloc_reliable _ _ _ Hm Em); done. }
  destruct (get_spec (set_mem m (hp s)) (held s) (cwd s) Hok) as (h1 & E1 & Hok1 & K1 & Ef1 & Em1);
    [apply (h_roots _ _ Hok); right; left|].
  cbn [nodes set_mem] in *; rewrite E1.
  assert (F1 : fresh_ok h1) by now apply (keeps_fresh (set_mem m (hp s))).
  assert (Fr1 : frame (hp s) h1 (held s)) by (now apply (frame_keeps (set_mem m (hp s)) h1 _ [cwd s])).
  assert (Hpl : at_place (Mem.reliable (mem (hp s))) (root s) rootc h1 (held s) (cwd s) c).
  { split; [done|done|left|apply Fr1; [left|done]| |intros _; apply Fr1; [right; left|done]].
    intros Hm; rewrite Em1; cbn; now apply (Mem.malloc_reliable _ _ _ Hm Em). }
  destruct (walk_outcome _ _ _ fuel name 20 (cwd s) h1 (held s) c Hpl Hne Hlen ltac:(lia) ltac:(lia))
    as (j & h2 & E2 & Hok2 & F2 & Fr2 & Hspec).
  change MAX_SYMLINK_CNT with 20; rewrite E2.
  assert (Fr12 : frame (hp s) h2 (held s)) by (intros q cq Hq Hc; now apply Fr2, Fr1).
  destruct j as [i|]; cbn [option_list app] in Hok2.
  - eexists _, _; split; [reflexivity|].
    assert (Ho : open_inodes (<[k := Some (Ofile 0 (Some i))]> (files s)) ≡ₚ i :: open_inodes (files s))
      by (now apply (open_inodes_set k (Some (Ofile 0 (Some i))) None)).
    split; [|split; [split; [done|split; [done|split; [done|exact Fr12]]]|split]].
    + split; cbn; [|done|now rewrite !length_insert].
      unfold held; cbn; rewrite list_insert_insert_eq, Ho.
      change (root s :: cwd s :: i :: open_inodes (files s)) with ([root s; cwd s] ++ i :: open_inodes (files s)).
      rewrite <- Permutation_middle; exact Hok2.
    + right; exists k, i; cbn; rewrite list_insert_insert_eq; done.
    + intros Hm _; destruct (Hspec Hm) as (Hm2 & o & Es & Ho'); split; [exact Hm2|]; exists o; split; [done|].
      destruct o as [co|]; [|done]; destruct Ho' as (i' & [= <-] & Hco); exists k, i; cbn.
      rewrite list_insert_insert_eq; done.
  - destruct (Hclose h2 Hok2 F2) as (s' & E & Hi' & Ef & Er & Ec & En & Em' & Fr).
    exists (-1), s'; split; [exact E|split; [done|split; [|split; [now left|]]]].
    + split; [done|split; [done|split; [done|]]]; intros q cq Hq Hc; now apply Fr, Fr12.
    + intros Hm _; destruct (Hspec Hm) as (Hm2 & o & Es & Ho'); rewrite Em'; split; [exact Hm2|]; exists o; split; [done|].
      destruct o as [co|]; [|done]; now destruct Ho' as (i' & ? & _).
Qed.
End files.

(** ** Names of places *)

(** No link target contains a NUL. *)
Class LinkText (P : Type) {driver : Driver P} := {
  link_text : forall rl, readlink = Some rl -> forall d, Forall (fun c => c <> 0) (rl d)
}.

Section names.
Context {P : Type} {driver : Driver P}.

Definition file_name (n : list Z) : Prop :=
  n <> [] /\ Forall (fun c => c <> slash /\ c <> 0) n /\ n <> [46] /\ n <> [46; 46].

(** A file of a directory, by its name. *)
Definition child (dir x : info P) (n : list Z) : Prop :=
  is_dir (i_mode dir) = true /\ file_name n /\ exists e, iget n (i_data dir) = Some e /\
    is_lnk (e_mode e) = false /\ x = Info (Some n) (e_mode e) (e_size e) (e_data e).

(** A place the names lead to: each inode is in the directory before it. *)
Inductive place (rt : info P) : list (info P) -> Prop :=
| place_root : place rt [rt]
| place_child x dir c n : child dir x n -> place rt (dir :: c) -> place rt (x :: dir :: c).

Fixpoint path_of (c : list (info P)) : list Z :=
  match c with
  | [] => []
  | x :: up => match up with [] => [] | _ => path_of up ++ slash :: default [] (i_name x) end
  end.

Lemma path_of_child x dir c n : child dir x n -> path_of (x :: dir :: c) = path_of (dir :: c) ++ slash :: n.
Proof. intros (_ & _ & e & _ & _ & ->); reflexivity. Qed.

Definition text (s : list Z) : Prop := Forall (fun c => c <> 0) s.

Lemma take_name_spec s name next :
  take_name s = (name, next) ->
  Forall (fun c => c <> slash) name /\ s = name ++ match next with Some p => slash :: p | None => [] end.
Proof.
  revert name next; induction s as [|c s IH]; intros name next; cbn; [intros [= <- <-]; done|].
  destruct (Z.eqb_spec c slash) as [->|Hc]; [intros [= <- <-]; done|].
  destruct (take_name s) as [nm nx]; intros [= <- <-]; destruct (IH nm nx eq_refl) as [H1 H2].
  split; [now constructor|cbn; now f_equal].
Qed.

Lemma skip_slashes_text s : text s -> text (skip_slashes s).
Proof. induction s as [|c s IH]; cbn; [done|]; destruct (c =? slash); [|done]; intros H; inversion_clear H; auto. Qed.

Lemma next_name_text path name next :
  next_name path = Some (name, next) -> text path ->
  (forall n, name = Some n -> n <> [] /\ Forall (fun c => c <> slash /\ c <> 0) n) /\
  (forall p, next = Some p -> text p).
Proof.
  unfold next_name; destruct path as [|c s]; [done|]; intros E Ht; inversion_clear Ht as [|? ? Hc Hs].
  assert (Hnx : forall o p, (match o with Some s0 => match skip_slashes s0 with [] => None | z :: l => Some (z :: l) end
      | None => None end) = Some p -> (forall q, o = Some q -> text q) -> text p).
  { intros [o|] p Ep Hq; [|done]; specialize (Hq o eq_refl); apply skip_slashes_text in Hq.
    destruct (skip_slashes o); [done|now injection Ep as <-]. }
  destruct (Z.eqb_spec c slash) as [->|Hne].
  - injection E as <- <-; split; [done|]; intros p Ep; apply (Hnx (Some s) p Ep); now intros q [= <-].
  - destruct (take_name s) as [nm nx] eqn:En; injection E as <- <-; destruct (take_name_spec _ _ _ En) as [Hnm ->].
    apply Forall_app in Hs as [Hs1 Hs2]; split.
    + intros n [= <-]; split; [done|]; constructor; [done|]; apply Forall_and; auto.
    + intros p Ep; apply (Hnx nx p Ep); intros q ->; now inversion_clear Hs2.
Qed.

(** What a path leads to is such a place, if the walk begins at one. *)
Lemma lookup_place {lt : LinkText P} rt fuel : forall path links c c',
  is_dir (i_mode rt) = true -> place rt c -> (forall x, head c = Some x -> is_dir (i_mode x) = true) -> text path ->
  lookup_path fuel [rt] path links c = Some (Some c') -> place rt c'.
Proof.
  induction fuel as [|fuel IH]; intros path links c c' Hrt Hc Hd Ht; cbn [lookup_path]; [done|].
  destruct (next_name path) as [[name next]|] eqn:En; [|done].
  destruct (next_name_text _ _ _ En Ht) as [Hname Hnext]; cbn zeta.
  assert (Hcont : forall c2, place rt c2 -> (next <> None -> forall x, head c2 = Some x -> is_dir (i_mode x) = true) ->
    (match next with Some p => lookup_path fuel [rt] p links c2 | None => Some (Some c2) end) = Some (Some c') ->
    place rt c').
  { intros c2 H2 Hd2; destruct next as [p|]; [|intros [= <-]; done]; apply IH; auto. }
  destruct name as [name|].
  2: { apply Hcont; [constructor|]; intros _ x [= <-]; done. }
  destruct (Hname name eq_refl) as [Hne Hch].
  destruct (bool_decide (name = [46])) eqn:E1; [apply Hcont; auto|].
  destruct (bool_decide (name = [46; 46])) eqn:E2.
  { apply Hcont; [inversion Hc; subst; [constructor|done]|].
    intros _ x; inversion Hc as [|y dir cc n Hchild Hp]; subst; [intros [= <-]; done|].
    intros [= <-]; apply Hchild. }
  apply bool_decide_eq_false in E1, E2.
  destruct c as [|dir c]; cbn [head]; [done|]; specialize (Hd dir eq_refl).
  destruct (iget name (i_data dir)) as [e|] eqn:Ei; [|done].
  destruct (is_lnk (e_mode e)) eqn:El.
  - destruct readlink as [rl|] eqn:Er; [|done]; destruct (_ || _); [done|].
    pose proof (link_text rl Er (e_data e)) as Htx; destruct (rl (e_data e)) as [|t0 t]; [done|].
    intros Hlk; apply (IH _ _ (dir :: c) c' Hrt Hc) in Hlk; [done|intros x [= <-]; done|].
    unfold link_path; destruct next as [p|]; [|exact Htx].
    apply Forall_app; split; [exact Htx|constructor; [done|now apply Hnext]].
  - destruct (_ && _) eqn:Ed; [done|]; apply Hcont.
    + apply (place_child _ _ _ _ name); [|done]; split; [done|split; [split; [done|split; [done|split; done]]|exists e; done]].
    + intros Hn x [= <-]; cbn; destruct next; [|done]; cbn in Ed; now destruct (is_dir (e_mode e)).
Qed.

(** From a place, names alone lead to another. *)
Inductive leads (c : list (info P)) : list (list Z) -> list (info P) -> Prop :=
| leads_nil : leads c [] c
| leads_snoc ns n x dir c' : leads c ns (dir :: c') -> child dir x n -> leads c (ns ++ [n]) (x :: dir :: c').

Lemma place_leads rt c : place rt c -> exists ns, leads [rt] ns c /\ path_of c = concat (map (cons slash) ns).
Proof.
  induction 1 as [|x dir c n Hch Hp (ns & Hl & Ep)]; [exists []; split; [constructor|done]|].
  exists (ns ++ [n]); split; [now apply leads_snoc|]; rewrite (path_of_child _ _ _ n Hch), Ep, map_app, concat_app.
  cbn; now rewrite app_nil_r.
Qed.

Lemma next_name_join n ns :
  file_name n -> Forall file_name ns ->
  next_name (n ++ concat (map (cons slash) ns)) =
    Some (Some n, match ns with [] => None | m :: ms => Some (m ++ concat (map (cons slash) ms)) end).
Proof.
  intros (Hne & Hn & _) Hns.
  assert (Htake : forall n, Forall (fun c => c <> slash /\ c <> 0) n -> take_name (n ++ concat (map (cons slash) ns)) =
    (n, match ns with [] => None | m :: ms => Some (m ++ concat (map (cons slash) ms)) end)).
  { induction 1 as [|c m [Hc _] Hm IH]; [destruct ns; done|]; cbn [app take_name].
    rewrite (proj2 (Z.eqb_neq _ _) Hc); now rewrite IH. }
  destruct n as [|c n]; [done|]; inversion_clear Hn as [|? ? [Hc _] Hn']; cbn [app next_name].
  rewrite (proj2 (Z.eqb_neq _ _) Hc), Htake by done; f_equal; f_equal.
  destruct ns as [|m ms]; [done|]; inversion_clear Hns as [|? ? (Hm & Hmc & _) _].
  destruct m as [|c' m]; [done|]; inversion_clear Hmc as [|? ? [Hc' _] _]; cbn [app skip_slashes].
  now rewrite (proj2 (Z.eqb_neq _ _) Hc').
Qed.

Lemma leads_names c ns c' : leads c ns c' -> Forall file_name ns.
Proof. induction 1 as [|ns n x dir c' H IH Hch]; [done|]; apply Forall_app; split; [done|constructor; [apply Hch|done]]. Qed.

Lemma leads_cons c n ns c' :
  leads c (n :: ns) c' -> exists x dir up, c = dir :: up /\ child dir x n /\ leads (x :: c) ns c'.
Proof.
  remember (n :: ns) as l eqn:El; intros H; revert n ns El; induction H as [|ns n x dir c' H IH Hch]; intros m ms El; [done|].
  destruct ns as [|m' ns]; cbn in El; injection El as <- <-.
  - inversion H as [E|? ? ? ? ? ? ? E]; [subst; exists x, dir, c'; split; [done|split; [done|constructor]]|].
    destruct ns; discriminate.
  - destruct (IH m' ns eq_refl) as (y & d & up & -> & Hc & Hl); exists y, d, up; split; [done|split; [done|]].
    now apply leads_snoc.
Qed.

Lemma leads_dir c ns c' : leads c ns c' -> ns <> [] -> forall x, head c = Some x -> is_dir (i_mode x) = true.
Proof.
  destruct ns as [|n ns]; [done|]; intros H _ x Hx; destruct (leads_cons _ _ _ _ H) as (y & d & up & -> & Hc & _).
  injection Hx as <-; apply Hc.
Qed.

Lemma lookup_names rootc links fuel : forall ns n c c',
  leads c (n :: ns) c' -> (length ns < fuel)%nat ->
  lookup_path fuel rootc (n ++ concat (map (cons slash) ns)) links c = Some (Some c').
Proof.
  induction fuel as [|fuel IH]; intros ns n c c' Hl Hf; [lia|]; cbn [lookup_path].
  pose proof (leads_names _ _ _ Hl) as Hn; inversion_clear Hn as [|? ? Hn1 Hns]; rewrite next_name_join by done; cbn zeta.
  pose proof Hn1 as (_ & _ & H1 & H2); rewrite !bool_decide_eq_false_2 by done.
  destruct (leads_cons _ _ _ _ Hl) as (x & dir & up & -> & Hch & Hl'); cbn [head].
  destruct Hch as (Hd & _ & e & Ei & El & ->); rewrite Ei, El.
  destruct ns as [|m ns]; cbn [andb].
  - inversion Hl' as [E|? ? ? ? ? ? ? E]; [done|destruct ns; discriminate].
  - rewrite (leads_dir _ _ _ Hl' ltac:(done) _ eq_refl : is_dir (e_mode e) = true); cbn [negb]; apply IH; [done|cbn in Hf; lia].
Qed.

(** The name of a place leads to it, from anywhere. *)
Lemma lookup_path_of rt c fuel links c0 :
  place rt c -> (length (path_of c) + 1 < fuel)%nat ->
  lookup_path fuel [rt] (match path_of c with [] => [slash] | p => p end) links c0 = Some (Some c).
Proof.
  intros Hc Hf; destruct (place_leads rt c Hc) as (ns & Hl & Ep); destruct fuel as [|fuel]; [lia|].
  destruct ns as [|n ns].
  - rewrite Ep; cbn; inversion Hl as [E|? ? ? ? ? ? ? E]; [done|destruct ns; discriminate].
  - pose proof (leads_names _ _ _ Hl) as Hn; inversion_clear Hn as [|? ? Hn1 Hns].
    rewrite Ep; cbn [map concat app]; cbn [lookup_path next_name].
    change (slash =? slash) with true; cbn iota beta.
    assert (Hsk : skip_slashes (n ++ concat (map (cons slash) ns)) = n ++ concat (map (cons slash) ns) /\
      n ++ concat (map (cons slash) ns) <> []).
    { destruct Hn1 as (Hne & Hch & _); destruct n as [|ch n]; [done|]; inversion_clear Hch as [|? ? [Hc1 _] _]; cbn.
      now rewrite (proj2 (Z.eqb_neq _ _) Hc1). }
    destruct Hsk as [-> Hne]; destruct (n ++ concat (map (cons slash) ns)) as [|z l] eqn:E; [done|]; rewrite <- E.
    apply lookup_names; [done|].
    assert (Hlen : (length ns <= length (concat (map (cons slash) ns)))%nat).
    { clear; induction ns as [|m ns IH]; cbn; [lia|]; rewrite length_app; lia. }
    rewrite Ep in Hf; cbn in Hf; rewrite length_app in Hf; lia.
Qed.
End names.

(** ** The names in buffers *)

Section buffers.
Context {P : Type} {driver : Driver P}.

Lemma copy_string_fits src : forall buf ix bufsize,
  0 <= ix -> ix + Z.of_nat (length src) < bufsize ->
  copy_string buf ix bufsize src = (blit (Z.to_nat ix) (src ++ [0]) buf, ix + Z.of_nat (length src)).
Proof.
  induction src as [|c src IH]; intros buf ix bufsize H0 Hs; cbn [copy_string app blit length] in *.
  - rewrite (proj2 (Z.ltb_lt ix bufsize)) by lia; f_equal; lia.
  - rewrite (proj2 (Z.ltb_lt (ix + 1) bufsize)) by lia; rewrite IH by lia.
    replace (Z.to_nat (ix + 1)) with (S (Z.to_nat ix)) by lia; f_equal; lia.
Qed.

Lemma take_blit (p bs buf : list Z) n :
  take n buf = p -> length p = n -> (n + length bs <= length buf)%nat ->
  take (n + length bs) (blit n bs buf) = p ++ bs.
Proof.
  intros Hp Hn Hl; apply list_eq; intros i; destruct (decide (i < n + length bs)%nat) as [Hi|Hi].
  - rewrite lookup_take_lt, blit_lookup by lia; destruct (decide _) as [Hd|Hd].
    + rewrite lookup_app_r by lia; f_equal; lia.
    + rewrite lookup_app_l by lia; rewrite <- Hp, lookup_take_lt by lia; done.
  - rewrite !lookup_ge_None_2; [done|rewrite length_app; lia|rewrite length_take, length_blit; lia].
Qed.

Lemma take_less {A} (l p q : list A) n m : take n l = p ++ q -> length p = m -> (m <= n)%nat -> take m l = p.
Proof.
  intros E Hm Hle; rewrite <- (take_app_length p q), <- E, take_take, Hm; f_equal; lia.
Qed.

(** What the buffer holds after a path of [n] bytes. *)
Definition holds_path (buf : list Z) (p : list Z) : Prop := p <> [] -> take (length p + 1) buf = p ++ [0].

Lemma to_path_spec h rt dst bufsize : forall c i fuel,
  (forall k n p, h !! k = Some n -> parent n = Some p -> (p < k)%nat) ->
  place rt c -> chain_at h (Some i) c -> (i < fuel)%nat ->
  Z.of_nat (length (path_of c)) < bufsize -> bufsize <= Z.of_nat (length dst) ->
  exists dst', generic_inode_to_path fuel h i dst bufsize = Some (Some (dst', Z.of_nat (length (path_of c)))) /\
    holds_path dst' (path_of c) /\ length dst' = length dst.
Proof.
  induction c as [|x c IH]; intros i fuel Hold Hp Hc Hi Hlen Hdst; [inversion Hp|].
  destruct fuel as [|fuel]; [lia|]; cbn [generic_inode_to_path].
  destruct Hc as (k & n & [= <-] & Hn & Hx & Hc); rewrite Hn.
  inversion Hp as [E|y dir c' nm Hch Hp']; subst.
  - cbn in Hc; rewrite Hc; exists dst; split; [done|split; [intros []; done|done]].
  - pose proof Hc as (p & np & Ep & Hnp & _ & _); rewrite Ep in *.
    rewrite (path_of_child _ _ _ nm Hch) in *; rewrite length_app in Hlen; cbn [length] in Hlen.
    destruct Hch as (_ & Hnm & e & _ & _ & ->); cbn [i_name].
    destruct (IH p fuel Hold Hp' Hc) as (d1 & -> & Hd1 & Hl1); [specialize (Hold _ _ _ Hn Ep); lia|lia|done|].
    set (p1 := path_of (dir :: c')) in *.
    rewrite (copy_string_fits [slash]) by (cbn [length]; lia); cbn [length app].
    rewrite copy_string_fits by lia.
    eexists; split; [do 3 f_equal; rewrite length_app; cbn [length]; lia|split; [|now rewrite !length_blit]].
    intros _; rewrite Nat2Z.id; replace (Z.to_nat (Z.of_nat (length p1) + Z.of_nat 1)) with (length p1 + 1)%nat by lia.
    assert (H0 : take (length p1) d1 = p1).
    { destruct (decide (p1 = [])) as [E|E]; [rewrite E; done|].
      apply (take_less _ p1 [0] (length p1 + 1)); [now apply Hd1|done|lia]. }
    assert (H2 : take (length p1 + 2) (blit (length p1) [slash; 0] d1) = p1 ++ [slash; 0])
      by (apply (take_blit p1 [slash; 0]); [done|done|cbn [length]; lia]).
    assert (H3 : take (length p1 + 1) (blit (length p1) [slash; 0] d1) = p1 ++ [slash]).
    { apply (take_less _ (p1 ++ [slash]) [0] (length p1 + 2)); [now rewrite <- app_assoc|rewrite length_app; cbn [length]; lia|lia]. }
    replace (length (p1 ++ slash :: nm) + 1)%nat with (length p1 + 1 + length (nm ++ [0%Z]))%nat
      by (rewrite !length_app; cbn [length]; lia).
    rewrite (take_blit (p1 ++ [slash])); [now rewrite <- !app_assoc|done|rewrite length_app; cbn [length]; lia|].
    rewrite length_blit, length_app; cbn [length]; lia.
Qed.

Lemma c_string_app p l : text p -> c_string (p ++ 0 :: l) = p.
Proof. induction 1 as [|c p Hc Hp IH]; cbn; [done|]; rewrite (proj2 (Z.eqb_neq _ _) Hc); now f_equal. Qed.

Lemma c_string_take buf p n : take n buf = p ++ [0] -> text p -> c_string buf = p.
Proof. intros E Hp; rewrite <- (take_drop n buf), E, <- app_assoc; now apply c_string_app. Qed.

Lemma path_text rt c : place rt c -> text (path_of c).
Proof.
  induction 1 as [|x dir c n Hch Hp IH]; [constructor|]; rewrite (path_of_child _ _ _ n Hch).
  apply Forall_app; split; [exact IH|]; destruct Hch as (_ & (_ & Hn & _) & _); constructor; [done|].
  eapply Forall_impl; [exact Hn|]; now intros ? [].
Qed.
End buffers.

(** ** The properties *)

Section properties.
Context {P : Type} {driver : Driver P} {laws : DriverLaws P} {texts : LinkText P}.
Context (rt : info P).
Implicit Types (s : fsys (P := P)) (c : list (info P)).
Hypothesis root_dir : is_dir (i_mode rt) = true.

(** Between two calls: the counts are right, and the current directory is one. *)
Record fs_ok (s : fsys (P := P)) (c : list (info P)) : Prop := {
  ok_inv : fs_inv s;
  ok_places : places s [rt] c;
  ok_cwd : place rt c /\ forall x, head c = Some x -> is_dir (i_mode x) = true
}.

(** A name and the fuel for it. *)
Definition name_fits (fuel : nat) (name : list Z) : Prop :=
  name <> [] /\ text name /\ Z.of_nat (length name) < 1073741823 /\
  20 * 4096 + Z.of_nat (length name) < Z.of_nat fuel.

Lemma same_dirs_ok s s' c : fs_ok s c -> fs_inv s' -> same_dirs s s' -> fs_ok s' c.
Proof.
  intros [Hi [Hr Hc] Hp] Hi' (Er & Ec & _ & Fr); split; [done| |done].
  split; [rewrite Er; apply Fr; [left|done]|rewrite Ec; apply Fr; [right; left|done]].
Qed.

(** C7: opening a path leads to the file the path names - through directories, dots
    and symbolic links, of which there may be 19 -, or to nothing if it names none;
    in either case, and whatever allocations fail, every inode is counted as often as
    it is referred to, so that no inode in use is freed and none is lost. *)
Theorem path_search_correct fuel name s c :
  fs_ok s c -> name_fits fuel name ->
  exists rv s', searchdir fuel name s = Some (rv, s') /\ fs_ok s' c /\
    (Mem.reliable (mem (hp s)) -> (None : option ofile) ∈ files s ->
      exists o, lookup_path fuel [rt] name 20 c = Some o /\ opened s s' rv o).
Proof.
  intros Hok (H1 & H2 & H3 & H4); pose proof Hok as [Hi Hp Hd].
  destruct (searchdir_step fuel name s [rt] c Hi Hp H1 H3 H4) as (rv & s' & E & Hi' & Hs & _ & Hspec).
  exists rv, s'; split; [done|split; [now apply (same_dirs_ok s)|]]; intros Hm Hn; now apply Hspec.
Qed.

(** The inode of a file that has just been opened. *)
Lemma opened_node s s' k i :
  fs_inv s' -> files s !! k = Some None -> files s' = <[k := Some (Ofile 0 (Some i))]> (files s) ->
  files s' !! k = Some (Some (Ofile 0 (Some i))) /\ i ∈ open_inodes (files s') /\
  exists n, nodes (hp s') !! i = Some n /\ file_inode k s' = Some n.
Proof.
  intros Hi Hk Ef; assert (E : files s' !! k = Some (Some (Ofile 0 (Some i))))
    by (rewrite Ef, list_lookup_insert_eq; [done|now apply lookup_lt_Some in Hk]).
  assert (Hin : i ∈ open_inodes (files s')) by (rewrite Ef, (open_inodes_set k _ None) by done; left).
  split; [done|split; [done|]].
  destruct (h_roots _ _ (s_heap _ Hi) i) as [n Hn]; [unfold held; now right; right|].
  exists n; split; [done|]; unfold file_inode; now rewrite E.
Qed.

(** A file that was opened is closed again. *)
Lemma close_opened s s' c k i :
  fs_ok s' c -> files s !! k = Some None -> files s' = <[k := Some (Ofile 0 (Some i))]> (files s) ->
  exists s'', _close_file k s' = Some s'' /\ fs_ok s'' c /\ files s'' = files s /\ root s'' = root s' /\
    cwd s'' = cwd s' /\ cwd_name s'' = cwd_name s' /\ mem (hp s'') = mem (hp s') /\ frame (hp s') (hp s'') (held s'').
Proof.
  intros [Hi [Hr Hc] Hd] Hk Ef; destruct (opened_node s s' k i Hi Hk Ef) as (E & _ & _).
  destruct (close_spec k _ s' Hi E) as (s'' & Ec & Hi' & Ef' & Er & Ew & En & Em & Fr).
  exists s''; split; [done|split; [split; [done| |done]|split; [|done]]].
  - split; [rewrite Er; apply Fr; [unfold held; rewrite Er; left|done]|].
    rewrite Ew; apply Fr; [unfold held; rewrite Ew; right; left|done].
  - now rewrite Ef', Ef, list_insert_insert_eq, list_insert_id.
Qed.

(** C8: opening a file gives a handle to a regular file and its size, and takes one
    place of the table; anything else is an error and leaves the table as it was;
    closing the handle gives the place and all inodes that were opened for it back. *)
Theorem open_close_correct fuel name s c :
  fs_ok s c -> name_fits fuel (mangle name) ->
  exists rv size s', open_file fuel name s = Some (rv, size, s') /\ fs_ok s' c /\
    (rv = -1 /\ files s' = files s \/
     0 < rv /\ exists s'', close_file rv s' = Some s'' /\ fs_ok s'' c /\ files s'' = files s) /\
    (Mem.reliable (mem (hp s)) -> (None : option ofile) ∈ files s ->
      exists o, lookup_path fuel [rt] (mangle name) 20 c = Some o /\
        match o with
        | Some (x :: _) => if is_reg (i_mode x) then 0 < rv /\ size = i_size x else rv = -1
        | _ => rv = -1
        end).
Proof.
  intros Hok (H1 & H2 & H3 & H4); pose proof Hok as [Hi Hp Hd].
  destruct (searchdir_step fuel _ s [rt] c Hi Hp H1 H3 H4) as (rv & s1 & E & Hi1 & Hs & Hrv & Hspec).
  pose proof (same_dirs_ok s s1 c Hok Hi1 Hs) as Hok1; unfold open_file; rewrite E.
  destruct Hrv as [[-> Ef]|(k & i & -> & Hk & Ef)]; cbn [Z.ltb Z.compare].
  - exists (-1), 0, s1; split; [done|split; [done|split; [now left|]]].
    intros Hm Hn; destruct (Hspec Hm Hn) as (_ & o & Eo & Ho); exists o; split; [done|].
    destruct o as [co|]; [|done]; destruct Ho as (k & i & ? & _); lia.
  - rewrite (proj2 (Z.ltb_ge _ 0)) by lia; replace (Z.to_nat (Z.of_nat k + 1 - 1)) with k by lia.
    destruct (opened_node s s1 k i Hi1 Hk Ef) as (Ek & _ & n & Hn & ->).
    destruct (close_opened s s1 c k i Hok1 Hk Ef) as (s2 & E2 & Hok2 & Ef2 & _).
    assert (Hx : Mem.reliable (mem (hp s)) -> (None : option ofile) ∈ files s ->
      exists up, lookup_path fuel [rt] (mangle name) 20 c = Some (Some (v_info n :: up))).
    { intros Hm Hnf; destruct (Hspec Hm Hnf) as (_ & o & Eo & Ho); destruct o as [co|]; [|destruct Ho; lia].
      destruct Ho as (k' & i' & Ek' & _ & Ef' & Hco); assert (k' = k) by lia; subst k'.
      rewrite Ef' in Ek; rewrite list_lookup_insert_eq in Ek by (now apply lookup_lt_Some in Hk); injection Ek as ->.
      destruct co as [|x up]; [done|]; destruct Hco as (k2 & n2 & [= <-] & Hn2 & <- & _).
      rewrite Hn in Hn2; injection Hn2 as <-; eauto. }
    destruct (is_reg (i_mode (v_info n))) eqn:Er; cbn [negb].
    + eexists _, _, _; split; [reflexivity|split; [done|split]].
      * right; split; [lia|]; exists s2; unfold close_file; rewrite (proj2 (Z.eqb_neq _ 0)) by lia.
        replace (Z.to_nat (Z.of_nat k + 1 - 1)) with k by lia; done.
      * intros Hm Hnf; destruct (Hx Hm Hnf) as [up Eo]; exists (Some (v_info n :: up)); rewrite Er; split; [done|split; [lia|done]].
    + rewrite E2; eexists _, _, _; split; [reflexivity|split; [done|split; [now left|]]].
      intros Hm Hnf; destruct (Hx Hm Hnf) as [up Eo]; exists (Some (v_info n :: up)); rewrite Er; done.
Qed.

(** What a search that succeeds has done. *)
Lemma search_success fuel name s c c' :
  fs_ok s c -> name_fits fuel name -> Mem.reliable (mem (hp s)) -> (None : option ofile) ∈ files s ->
  lookup_path fuel [rt] name 20 c = Some (Some c') ->
  exists k i s', searchdir fuel name s = Some (Z.of_nat k + 1, s') /\ fs_ok s' c /\ files s !! k = Some None /\
    files s' = <[k := Some (Ofile 0 (Some i))]> (files s) /\ chain_at (nodes (hp s')) (Some i) c' /\ place rt c' /\
    root s' = root s /\ cwd_name s' = cwd_name s /\ Mem.reliable (mem (hp s')).
Proof.
  intros Hok (H1 & H2 & H3 & H4) Hm Hn Hl; pose proof Hok as [Hi Hp [Hd1 Hd2]].
  destruct (searchdir_step fuel name s [rt] c Hi Hp H1 H3 H4) as (rv & s1 & E & Hi1 & Hs & _ & Hspec).
  destruct (Hspec Hm Hn) as (Hm' & o & Eo & Ho); rewrite Hl in Eo; injection Eo as <-.
  destruct Ho as (k & i & -> & Hk & Ef & Hc); exists k, i, s1.
  split; [done|split; [now apply (same_dirs_ok s)|split; [done|split; [done|split; [done|split; [|split; [apply Hs|split; [apply Hs|done]]]]]]]].
  now apply (lookup_place rt fuel name 20 c).
Qed.

Lemma path_slash c : place rt c -> path_of c <> [] -> last (path_of c) <> Some slash.
Proof.
  intros Hc; induction Hc as [|x dir c n Hch Hp IH]; [done|]; intros _; rewrite (path_of_child _ _ _ n Hch).
  rewrite last_app_cons; destruct Hch as (_ & (Hne & Hn & _) & _).
  destruct n as [|z n] using rev_ind; [done|]; rewrite app_comm_cons, last_snoc.
  apply Forall_app in Hn as [_ Hn]; inversion_clear Hn as [|? ? [Hz _] _]; congruence.
Qed.

(** C9: the name that realpath gives a file leads to the same file, from whatever
    directory it is looked up, though the name asked for may have gone through links
    and dots; nothing stays open. *)
Theorem realpath_roundtrip fuel dst src s c c' :
  fs_ok s c -> name_fits fuel src -> Mem.reliable (mem (hp s)) -> (None : option ofile) ∈ files s ->
  lookup_path fuel [rt] src 20 c = Some (Some c') ->
  Z.of_nat (length (path_of c')) < 255 -> length dst = 256%nat ->
  exists n dst' s', realpath fuel dst src FILENAME_MAX s = Some (n, dst', s') /\ fs_ok s' c /\ files s' = files s /\
    n = Z.of_nat (length (c_string dst')) /\
    forall c0, lookup_path fuel [rt] (c_string dst') 20 c0 = Some (Some c').
Proof.
  intros Hok Hfit Hm Hn Hl Hlen Hdst.
  destruct (search_success fuel src s c c' Hok Hfit Hm Hn Hl) as (k & i & s1 & E & Hok1 & Hk & Ef & Hc' & Hp & _).
  unfold realpath; rewrite E, (proj2 (Z.ltb_ge _ 0)) by lia; replace (Z.to_nat (Z.of_nat k + 1 - 1)) with k by lia.
  destruct (opened_node s s1 k i (ok_inv _ _ Hok1) Hk Ef) as (-> & Hin & n & Hn1 & _); cbn [o_inode].
  destruct (close_opened s s1 c k i Hok1 Hk Ef) as (s2 & E2 & Hok2 & Ef2 & _).
  pose proof (s_heap _ (ok_inv _ _ Hok1)) as Hheap.
  destruct (to_path_spec (nodes (hp s1)) rt dst FILENAME_MAX c' i (fresh (hp s1))) as (d1 & -> & Hd1 & Hld);
    [intros q m p Hq Hpq; now apply (n_parent _ _ _ _ (h_nodes _ _ Hheap q m Hq))|done|done| |unfold FILENAME_MAX; lia|unfold FILENAME_MAX; lia|].
  { apply (s_fresh _ (ok_inv _ _ Hok1)); eauto. }
  assert (Hfuel : (length (path_of c') + 1 < fuel)%nat) by (destruct Hfit as (_ & _ & _ & ?); lia).
  assert (Hback : forall d, c_string d = (match path_of c' with [] => [slash] | p => p end) ->
    forall c0, lookup_path fuel [rt] (c_string d) 20 c0 = Some (Some c')).
  { intros d -> c0; now apply lookup_path_of. }
  destruct (path_of c') as [|z p] eqn:Ep.
  - cbn [length Z.of_nat Z.eqb]; rewrite copy_string_fits by (unfold FILENAME_MAX; cbn; lia).
    rewrite E2; set (d2 := blit (Z.to_nat 0) ([slash] ++ [0]) d1).
    assert (Hd2 : c_string d2 = [slash]).
    { apply (c_string_take d2 [slash] 2); [apply (take_blit [] [slash; 0] d1 0); [done|done|cbn; lia]|repeat constructor; done]. }
    exists 1, d2, s2; split; [done|split; [done|split; [done|rewrite Hd2 at 1; split; [done|now apply Hback]]]].
  - rewrite (proj2 (Z.eqb_neq _ 0)) by (cbn [length]; lia); rewrite E2.
    assert (Hd2 : c_string d1 = z :: p).
    { apply (c_string_take d1 (z :: p) (length (z :: p) + 1)); [now apply Hd1|rewrite <- Ep; now apply (path_text rt)]. }
    exists (Z.of_nat (length (z :: p))), d1, s2; split; [done|split; [done|split; [done|]]].
    rewrite Hd2 at 1; split; [done|now apply Hback].
Qed.

Lemma store_next (buf p : list Z) z :
  take (length p) buf = p -> (length p < length buf)%nat ->
  exists buf', store (Z.of_nat (length p)) z buf = Some buf' /\ take (length (p ++ [z])) buf' = p ++ [z] /\
    length buf' = length buf.
Proof.
  intros E Hl; unfold store; rewrite (proj2 (Z.leb_le 0 _)), (proj2 (Z.ltb_lt _ _)) by lia; cbn [andb].
  eexists; split; [reflexivity|]; rewrite Nat2Z.id, length_insert; split; [|done].
  rewrite length_app; apply (take_blit p [z] buf (length p)); [done|done|cbn [length]; lia].
Qed.

Lemma cwd_path_spec buf p old :
  holds_path buf p -> last p <> Some slash -> text p -> (length p <= 254)%nat -> length buf = 256%nat -> length old = 256%nat ->
  exists new, cwd_path buf (Z.of_nat (length p)) old = Some new /\ c_string new = p ++ [slash] /\ length new = 256%nat.
Proof.
  intros Hb Hs Ht Hp Hl Hlo; unfold cwd_path.
  assert (E0 : take (length p) buf = p).
  { destruct (decide (p = [])) as [->|E]; [done|]; apply (take_less _ p [0] (length p + 1)); [now apply Hb|done|lia]. }
  assert (Hlast : exists z, (if Z.of_nat (length p) <? 1 then Some 0 else buf !! Z.to_nat (Z.of_nat (length p) - 1)) = Some z /\
    (z =? slash) = false).
  { destruct (Z.ltb_spec (Z.of_nat (length p)) 1); [exists 0; done|].
    rewrite <- (lookup_take_lt buf (length p)) by lia; rewrite E0.
    replace (Z.to_nat (Z.of_nat (length p) - 1)) with (pred (length p)) by lia; rewrite <- last_lookup.
    destruct (last p) as [z|] eqn:Ez; [exists z; split; [done|]; apply Z.eqb_neq; congruence|].
    apply last_None in Ez; subst p; cbn in *; lia. }
  destruct Hlast as (z & -> & ->); cbn [negb].
  destruct (store_next buf p slash E0) as (b1 & -> & E1 & L1); [lia|].
  unfold CURRENTDIR_MAX, FILENAME_MAX; rewrite (proj2 (Z.leb_gt _ _)) by lia.
  destruct (store_next b1 (p ++ [slash]) 0 E1) as (b2 & E & E2 & L2); [rewrite length_app; cbn [length]; lia|].
  rewrite length_app in E; cbn [length] in E; replace (Z.of_nat (length p + 1)) with (Z.of_nat (length p) + 1) in E by lia.
  rewrite E; eexists; split; [reflexivity|].
  replace (Z.to_nat (Z.of_nat (length p) + 1 + 1)) with (length ((p ++ [slash]) ++ [0])) by (rewrite !length_app; cbn [length]; lia).
  rewrite E2; split; [|now rewrite length_blit].
  apply (c_string_take _ _ (length ((p ++ [slash]) ++ [0]))).
  - apply (take_blit [] ((p ++ [slash]) ++ [0]) old 0); [done|done|rewrite !length_app; cbn [length]; lia].
  - apply Forall_app; split; [done|repeat constructor; done].
Qed.

(** Changing the directory to one that a path names makes it the current
    directory, under its own name with a slash at the end, if the name is not longer
    than 254 bytes; the directory before is released. *)
Theorem chdir_correct fuel garbage src s c x up :
  fs_ok s c -> name_fits fuel src -> Mem.reliable (mem (hp s)) -> (None : option ofile) ∈ files s ->
  lookup_path fuel [rt] src 20 c = Some (Some (x :: up)) -> is_dir (i_mode x) = true ->
  (length (path_of (x :: up)) <= 254)%nat -> length garbage = 256%nat -> length (cwd_name s) = 256%nat ->
  exists s', chdir fuel garbage src s = Some (0, s') /\ fs_ok s' (x :: up) /\ files s' = files s /\
    c_string (cwd_name s') = path_of (x :: up) ++ [slash].
Proof.
  intros Hok Hfit Hm Hn Hl Hdir Hlen Hg Hcn.
  destruct (search_success fuel src s c _ Hok Hfit Hm Hn Hl) as (k & i & s1 & E & Hok1 & Hk & Ef & Hc' & Hp & Er & Ecn & _).
  unfold chdir; rewrite E, (proj2 (Z.ltb_ge _ 0)) by lia; replace (Z.to_nat (Z.of_nat k + 1 - 1)) with k by lia.
  destruct (opened_node s s1 k i (ok_inv _ _ Hok1) Hk Ef) as (Ek & Hin & n & Hn1 & ->).
  pose proof Hc' as (i0 & n0 & [= <-] & Hn0 & Hx & _); rewrite Hn1 in Hn0; injection Hn0 as <-.
  rewrite Hx, Hdir; cbn [negb]; destruct (ok_inv _ _ Hok1) as [Hh Hf Hlf].
  assert (Hh' : heap_ok (nodes (hp s1)) (cwd s1 :: root s1 :: open_inodes (files s1)))
    by (unfold held in Hh; now rewrite Permutation_swap).
  destruct (put_spec (hp s1) _ (cwd s1) Hf Hh') as (h2 & -> & Hh2 & K2 & Ef2 & _).
  rewrite Ek; cbn [o_inode].
  destruct (get_spec h2 _ i Hh2) as (h3 & -> & Hh3 & K3 & Ef3 & _); [apply (h_roots _ _ Hh2); now right|].
  set (s3 := Fsys h3 (files s1) (root s1) i (cwd_name s1)).
  assert (Fr : frame (hp s1) h3 (root s1 :: open_inodes (files s1))).
  { apply (frame_keeps _ _ _ [i]); [now apply keeps_trans with (nodes h2)|done]. }
  assert (Hok3 : fs_ok s3 (x :: up)).
  { split; [split; cbn; [unfold held; cbn; now rewrite Permutation_swap| |done]|split; cbn|].
    - apply (keeps_fresh h2); auto; now apply (keeps_fresh (hp s1)).
    - exact (Fr (root s1) [rt] ltac:(left) (p_root _ _ _ (ok_places _ _ Hok1))).
    - exact (Fr i (x :: up) ltac:(now right) Hc').
    - split; [done|intros y [= <-]; done]. }
  destruct (close_opened s s3 (x :: up) k i Hok3 Hk Ef) as (s4 & E4 & Hok4 & Ef4 & Er4 & Ec4 & En4 & _).
  rewrite E4; pose proof (s_heap _ (ok_inv _ _ Hok4)) as Hheap.
  assert (Hc4 : chain_at (nodes (hp s4)) (Some i) (x :: up)).
  { pose proof (p_cwd _ _ _ (ok_places _ _ Hok4)) as H; rewrite Ec4 in H; exact H. }
  pose proof Hc4 as (i4 & n4 & [= <-] & Hn4 & _).
  destruct (to_path_spec (nodes (hp s4)) rt garbage (CURRENTDIR_MAX - 1) (x :: up) i (fresh (hp s4))) as (d1 & -> & Hd1 & Hld);
    [intros q m p Hq Hpq; now apply (n_parent _ _ _ _ (h_nodes _ _ Hheap q m Hq))|done|done
    |apply (s_fresh _ (ok_inv _ _ Hok4)); eauto|unfold CURRENTDIR_MAX, FILENAME_MAX; lia|unfold CURRENTDIR_MAX, FILENAME_MAX; lia|].
  destruct (cwd_path_spec d1 (path_of (x :: up)) (cwd_name s4) Hd1) as (new & -> & Hnew & _);
    [|now apply (path_text rt)|done|lia|rewrite En4; cbn; now rewrite Ecn|].
  { destruct (decide (path_of (x :: up) = [])) as [->|Hne]; [done|now apply path_slash]. }
  eexists; split; [reflexivity|]; cbn [files cwd_name]; split; [|done].
  destruct Hok4 as [[A1 A2 A3] [B1 B2] C]; split; [split; assumption|split; assumption|assumption].
Qed.
End properties.

(** ** A small file system *)

(** In the root directory (0) the directory boot (1) with the file cfg (3), a link
    conf (4) to boot/cfg, and a link loop (5) to itself. *)
Definition str (s : string) : list Z := map (fun b => Z.of_N (Byte.to_N b)) (String.list_byte_of_string s).

Definition small_iget (name : list Z) (d : nat) : option (ientry nat) :=
  match d with
  | 0%nat =>
      if bool_decide (name = str "boot") then Some (Ientry DT_DIR 0 1%nat)
      else if bool_decide (name = str "conf") then Some (Ientry DT_LNK 8 4%nat)
      else if bool_decide (name = str "loop") then Some (Ientry DT_LNK 5 5%nat) else None
  | 1%nat => if bool_decide (name = str "cfg") then Some (Ientry DT_REG 10 3%nat) else None
  | _ => None
  end.

Definition small_readlink (d : nat) : list Z :=
  match d with 4%nat => str "boot/cfg" | 5%nat => str "/loop" | _ => [] end.

#[export] Instance small_driver : Driver nat :=
  {| iget := small_iget; readlink := Some small_readlink; mangle := fun s => s |}.

#[export] Instance small_laws : DriverLaws nat.
Proof.
  split; intros name d e He Hl; cbn in He; unfold small_iget in He; repeat case_match; try discriminate;
    injection He as <-; try discriminate Hl; (split; [cbn; lia|]); intros rl [= <-]; cbn; lia.
Defined.

#[export] Instance small_texts : LinkText nat.
Proof. split; intros rl [= <-] d; do 6 (destruct d as [|d]; [repeat constructor; done|]); constructor. Defined.

Definition small_root : info nat := Info None DT_DIR 0 0%nat.
Definition small_fs : fsys :=
  Fsys (Heap {[0%nat := Vnode small_root None 2]} 1 Mem.always) (replicate MAX_OPEN None) 0 0 (replicate 256 0).
Definition small_fuel : nat := Z.to_nat 90000.

Lemma small_fs_ok : fs_ok small_root small_fs [small_root].
Proof.
  assert (Hn : forall i (n : vnode nat), nodes (hp small_fs) !! i = Some n -> i = 0%nat /\ n = Vnode small_root None 2).
  { intros i n Hi; cbn in Hi; now apply lookup_singleton_Some in Hi as [<- <-]. }
  split; [split; [split| |reflexivity]|split|split].
  - intros i n Hi; destruct (Hn i n Hi) as [-> ->]; split; [reflexivity|cbn; lia|done].
  - intros r Hr; assert (r = 0%nat) as ->; [|eexists; reflexivity].
    repeat (apply elem_of_cons in Hr as [->|Hr]; [done|]); vm_compute in Hr; inversion Hr.
  - intros i [n Hi]; destruct (Hn i n Hi) as [-> _]; cbn; lia.
  - exists 0%nat, (Vnode small_root None 2); done.
  - exists 0%nat, (Vnode small_root None 2); done.
  - constructor.
  - intros x [= <-]; done.
Qed.

Lemma small_fits name : name <> [] -> text name -> (length name <= 1000)%nat -> name_fits small_fuel name.
Proof. intros H1 H2 H3; split; [done|split; [done|]]; unfold small_fuel; lia. Qed.

Lemma small_file_free : (None : option ofile) ∈ files small_fs.
Proof. left. Qed.

Lemma path_search_correct_witness :
  exists rv s', searchdir small_fuel (str "/boot//../conf") small_fs = Some (rv, s') /\ 0 < rv /\
    fs_ok small_root s' [small_root].
Proof.
  destruct (path_search_correct small_root small_fuel (str "/boot//../conf") small_fs [small_root] small_fs_ok)
    as (rv & s' & E & Hok & H).
  - apply small_fits; [done|repeat constructor; done|cbn; lia].
  - destruct (H Mem.always_reliable small_file_free) as (o & Eo & Ho); vm_compute in Eo; injection Eo as <-.
    destruct Ho as (k & i & -> & _); exists (Z.of_nat k + 1), s'; split; [exact E|split; [lia|exact Hok]].
Defined.

Lemma open_close_correct_witness :
  exists rv s' s'', open_file small_fuel (str "conf") small_fs = Some (rv, 10, s') /\
    close_file rv s' = Some s'' /\ files s'' = files small_fs.
Proof.
  destruct (open_close_correct small_root small_fuel (str "conf") small_fs [small_root] small_fs_ok)
    as (rv & size & s' & E & Hok & Hc & H).
  - apply small_fits; [done|repeat constructor; done|cbn; lia].
  - destruct (H Mem.always_reliable small_file_free) as (o & Eo & Ho); vm_compute in Eo; injection Eo as <-.
    destruct Ho as [Hrv ->]; destruct Hc as [[-> _]|(_ & s'' & Ec & _ & Ef)]; [lia|].
    exists rv, s', s''; split; [exact E|split; [exact Ec|exact Ef]].
Defined.

Lemma realpath_roundtrip_witness :
  exists n dst s', realpath small_fuel (replicate 256 0) (str "conf") FILENAME_MAX small_fs = Some (n, dst, s') /\
    forall c0, exists c', lookup_path small_fuel [small_root] (c_string dst) 20 c0 = Some (Some c').
Proof.
  destruct (lookup_path small_fuel [small_root] (str "conf") 20 [small_root]) as [[c'|]|] eqn:El; [|vm_compute in El; discriminate El..].
  destruct (realpath_roundtrip small_root eq_refl small_fuel (replicate 256 0) (str "conf") small_fs [small_root] c' small_fs_ok)
    as (n & dst & s' & E & _ & _ & _ & H);
    [apply small_fits; [done|repeat constructor; done|cbn; lia]|exact Mem.always_reliable|exact small_file_free|exact El
    |vm_compute in El; injection El as <-; cbn; lia|reflexivity|].
  exists n, dst, s'; split; [exact E|]; intros c0; exists c'; apply H.
Defined.

Lemma chdir_correct_witness :
  exists s', chdir small_fuel (replicate 256 7) (str "/boot/.") small_fs = Some (0, s') /\
    c_string (cwd_name s') = str "/boot/".
Proof.
  destruct (chdir_correct small_root eq_refl small_fuel (replicate 256 7) (str "/boot/.") small_fs [small_root]
    (Info (Some (str "boot")) DT_DIR 0 1%nat) [small_root] small_fs_ok) as (s' & E & _ & _ & H);
    [apply small_fits; [done|repeat constructor; done|cbn; lia]|exact Mem.always_reliable|exact small_file_free
    |vm_compute; reflexivity|reflexivity|cbn; lia|reflexivity|reflexivity|].
  exists s'; split; [exact E|exact H].
Defined.

(** A link to itself is followed 19 times. *)
Example link_loop : option_map fst (searchdir small_fuel (str "loop") small_fs) = Some (-1).
Proof. vm_compute; reflexivity. Qed.

(** The empty path is read past its end. *)
Example empty_path_overrun : searchdir small_fuel [] small_fs = None.
Proof. vm_compute; reflexivity. Qed.

(** A directory whose name is longer than the buffer: the byte before the end of its
    name is outside. *)
Definition deep_driver : Driver nat :=
  {| iget := fun _ d => Some (Ientry DT_DIR 0 (S d)); readlink := None; mangle := fun s => s |}.

Example long_cwd_overrun :
  chdir (driver := deep_driver) small_fuel (replicate 256 0) (replicate 300 97) small_fs = None /\
  option_map fst (searchdir (driver := deep_driver) small_fuel (replicate 300 97) small_fs) = Some 1.
Proof. split; vm_compute; reflexivity. Qed.
