(* ===== verification/Fat.v ===== *)
(** * The FAT driver of the core: core/fs/fat

    The allocation table, the extents of files and the sectors of directories.
    The driver reads the disk through the interface of the block cache, and is an
    instance of the class of drivers that the generic read routine works with.
    Sectors are the cache's blocks; [sector_shift] is the file system's. *)

From S2P Require Import Prelude Cache Getfssec.

Open Scope word_scope.

(** [src/core/fs/fat/fat_fs.h:29-29 enum fat_type] *)
Inductive fat_type_t := FAT12 | FAT16 | FAT32.

(** [src/core/fs/fat/fat_fs.h:86-103 struct fat_sb_info] *)
Record fat_sb_info := Sb {
  fat : Z;
  root : Z;
  data : Z;
  clusters : Z;
  root_cluster : Z;
  root_size : Z;
  clust_shift : Z;
  clust_byte_shift : Z;
  clust_mask : Z;
  clust_size : Z;
  fat_type : fat_type_t;
  uuid : Z
}.

(** [src/core/fs/fat/fat_fs.h:151-156 struct fat_pvt_inode] *)
Record fat_pvt := Pvt { start_cluster : Z; start : Z; poffset : Z; here : Z }.

Section driver.
Context {St : Type} {reader : BlockReader St}.
Variable sector_shift : Z.
Variable sbi : fat_sb_info.

(** [src/core/fs/fat/fat.c:27-30 get_fat_sector] *)
Definition get_fat_sector (sector : Z) (st : St) : option (list Z * St) :=
  read_block (u64 (fat sbi + sector)) st.

(** [src/core/fs/fat/fat.c:41-64 get_next_cluster] *)
Definition get_next_fat12 (clust_num : Z) (st : St) : option (Z * St) :=
  let sector_mask := Z.shiftl 1 sector_shift - 1 in
  let offset := u32 (clust_num + Z.shiftr clust_num 1) in
  let fat_sector := Z.shiftr offset sector_shift in
  let offset := Z.land offset sector_mask in
  let* (d, st) := get_fat_sector fat_sector st in
  let* (next_cluster, st) :=
    if offset =? sector_mask then
      let next_cluster := byte_at d (Z.to_nat offset) in
      let* (d, st) := get_fat_sector (fat_sector + 1) st in
      Some (next_cluster + Z.shiftl (byte_at d 0) 8, st)
    else Some (get_16 d (Z.to_nat offset), st) in
  Some (if negb (Z.land clust_num 1 =? 0) then Z.shiftr next_cluster 4
        else Z.land next_cluster 0x0fff, st).

(** [src/core/fs/fat/fat.c:32-85 get_next_cluster] *)
Definition get_next_cluster (clust_num : Z) (st : St) : option (Z * St) :=
  let sector_mask := Z.shiftl 1 sector_shift - 1 in
  match fat_type sbi with
  | FAT12 => get_next_fat12 clust_num st
  | FAT16 =>
      let offset := u32 (Z.shiftl clust_num 1) in
      let fat_sector := Z.shiftr offset sector_shift in
      let* (d, st) := get_fat_sector fat_sector st in
      Some (get_16 d (Z.to_nat (Z.land offset sector_mask)), st)
  | FAT32 =>
      let offset := u32 (Z.shiftl clust_num 2) in
      let fat_sector := Z.shiftr offset sector_shift in
      let* (d, st) := get_fat_sector fat_sector st in
      Some (Z.land (get_32 d (Z.to_nat (Z.land offset sector_mask))) 0x0fffffff, st)
  end.

(** Along the chain to the cluster [mcluster] of the file: the number of clusters
    passed and the cluster's number on the disk; on the left, how many clusters the
    chain has when it is too short.
    [src/core/fs/fat/fat.c:112-123 fat_next_extent] *)
Fixpoint walk_to (fuel : nat) (mcluster lcluster pcluster : Z) (st : St)
  : option ((Z + Z * Z) * St) :=
  if clusters sbi <=? pcluster ⊟ 2 then Some (inl lcluster, st)
  else if mcluster <=? lcluster then Some (inr (lcluster, pcluster), st)
  else
    match fuel with
    | O => None
    | S fuel =>
        let* (pcluster, st) := get_next_cluster pcluster st in
        walk_to fuel mcluster (lcluster ⊞ 1) pcluster st
    end.

(** On while the clusters are consecutive: the cluster of the file reached, the
    last entry read and the length.
    [src/core/fs/fat/fat.c:130-135 fat_next_extent] *)
Fixpoint contiguous (fuel : nat) (tcluster lcluster pcluster xcluster n : Z) (st : St)
  : option (Z * Z * Z * St) :=
  let lcluster := lcluster ⊞ 1 in
  if lcluster <? tcluster then
    match fuel with
    | O => None
    | S fuel =>
        let* (xcluster, st) := get_next_cluster pcluster st in
        let pcluster := pcluster ⊞ 1 in
        if xcluster =? pcluster then
          contiguous fuel tcluster lcluster pcluster xcluster (n ⊞ u32 (Z.shiftl 1 (clust_shift sbi))) st
        else Some (lcluster, xcluster, n, st)
    end
  else Some (lcluster, xcluster, n, st).

(** [src/core/fs/fat/fat.c:87-146 fat_next_extent] *)
Definition fat_next_extent (i : inode fat_pvt) (lstart : Z) (st : St)
  : option (Z * inode fat_pvt * St) :=
  let mcluster := Z.shiftr lstart (clust_shift sbi) in
  let cluster_bytes := u32 (Z.shiftl 1 (clust_byte_shift sbi)) in
  let cluster_secs := u32 (Z.shiftl 1 (clust_shift sbi)) in
  let data_area := data sbi in
  let tcluster := u32 (Z.shiftr (u64 (size i + cluster_bytes - 1)) (clust_byte_shift sbi)) in
  if tcluster <=? mcluster then Some (-1, i, st)
  else
    let lcluster := u32 (Z.shiftr (poffset (pvt i)) (clust_shift sbi)) in
    let pcluster := u32 (Z.shiftr (u64 (here (pvt i) - data_area)) (clust_shift sbi) + 2) in
    let '(lcluster, pcluster) :=
      if (mcluster <? lcluster) || (here (pvt i) <? data_area)
      then (0, start_cluster (pvt i)) else (lcluster, pcluster) in
    let* (r, st) := walk_to (Z.to_nat (mcluster - lcluster)) mcluster lcluster pcluster st in
    match r with
    | inl lcluster => Some (-1, set_size (u32 (Z.shiftl lcluster (clust_shift sbi))) i, st)
    | inr (lcluster, pcluster) =>
        let ps := u64 (u64 (Z.shiftl (pcluster ⊟ 2) (clust_shift sbi)) + data_area) in
        let* (lcluster, xcluster, n, st) :=
          contiguous (Z.to_nat tcluster) tcluster lcluster pcluster 0 cluster_secs st in
        let i := set_nextx (Extent ps (Getfssec.lstart (next_extent i)) n) i in
        let p := pvt i in
        let h := u64 (u32 (Z.shiftl (xcluster ⊟ 2) (clust_shift sbi)) + data_area) in
        Some (0, set_pvt (Pvt (start_cluster p) (start p) (u32 (Z.shiftl lcluster (clust_shift sbi))) h) i, st)
    end.

(** [src/core/fs/fat/fat.c:148-178 get_next_sector] *)
Definition get_next_sector (sector : Z) (st : St) : option (Z * St) :=
  let sector := u32 sector in
  let data_area := data sbi in
  if sector <? data_area then
    let sector := sector ⊞ 1 in
    Some (if data_area <=? sector then 0 else sector, st)
  else
    let data_sector := sector - data_area in
    if negb (Z.land (data_sector + 1) (clust_mask sbi) =? 0) then Some (sector ⊞ 1, st)
    else
      let cluster := u32 (Z.shiftr data_sector (clust_shift sbi)) in
      let* (next, st) := get_next_cluster (cluster ⊞ 2) st in
      let cluster := next ⊟ 2 in
      if clusters sbi <=? cluster then Some (0, st)
      else Some (u32 (u32 (Z.shiftl cluster (clust_shift sbi)) + data_area), st).

(** [src/core/fs/fat/fat.c:201-204 get_the_right_sector] *)
Fixpoint seek_sector (fuel : nat) (where_ sector_pos sector : Z) (st : St) : option (Z * St) :=
  if where_ <? sector_pos then
    match fuel with
    | O => None
    | S fuel =>
        let* (sector, st) := get_next_sector sector st in
        seek_sector fuel (where_ ⊞ 1) sector_pos sector st
    end
  else Some (sector, st).

(** [src/core/fs/fat/fat.c:185-210 get_the_right_sector] *)
Definition get_the_right_sector (f : file fat_pvt) (st : St) : option (Z * file fat_pvt * St) :=
  let i := f_inode f in
  let p := pvt i in
  let sector_pos := Z.shiftr (offset f) sector_shift in
  let '(where_, sector) := if sector_pos <? poffset p then (0, start p) else (u32 (poffset p), here p) in
  let* (sector, st) := seek_sector (Z.to_nat (sector_pos - where_)) where_ sector_pos sector st in
  Some (sector, File (offset f) (set_pvt (Pvt (start_cluster p) (start p) sector_pos sector) i), st).

(** [src/core/fs/fat/fat.c:215-223 next_sector] *)
Definition next_sector (f : file fat_pvt) (st : St) : option (Z * file fat_pvt * St) :=
  let i := f_inode f in
  let p := pvt i in
  let* (sector, st) := get_next_sector (here p) st in
  Some (sector,
    File (offset f) (set_pvt (Pvt (start_cluster p) (start p) (u64 (poffset p + 1)) sector) i), st).
End driver.

(** ** The table, as an array of entries *)

Section volume.
Context {St : Type} {reader : BlockReader St}.
Context (disk : Z -> list Z) (bound : Z) {laws : BlockReaderLaws St disk bound}.
Context (sector_shift : Z) (sbi : fat_sb_info).
Notation sector_size := (2 ^ sector_shift).
Notation secs := (2 ^ clust_shift sbi).

(** A sound superblock of a volume the reader can reach. *)
Record volume_ok : Prop := {
  v_shift : 5 <= sector_shift < 16;
  v_disk : forall s, Z.of_nat (length (disk s)) = sector_size /\ Forall is_byte (disk s);
  v_fat : 0 <= fat sbi /\ fat sbi + (4 * (clusters sbi + 2)) / sector_size + 2 <= bound;
  v_bound : bound <= 281474976710656;
  v_clusters : 0 <= clusters sbi <= 0x0ffffff4;
  v_clust : 0 <= clust_shift sbi <= 7 /\ clust_byte_shift sbi = clust_shift sbi + sector_shift;
  v_data : 0 <= data sbi /\ data sbi + clusters sbi * secs < 4294967296
}.

(** The i-th byte of the table. *)
Definition fat_byte (i : Z) : Z :=
  byte_at (disk (fat sbi + i / sector_size)) (Z.to_nat (i mod sector_size)).

(** The entry of a cluster: three bytes hold two entries of 12 bits, the high four
    bits of an entry of 32 are not part of it. *)
Definition fat_entry (c : Z) : Z :=
  match fat_type sbi with
  | FAT12 =>
      let e := 3 * (c / 2) in
      if Z.even c then fat_byte e + 256 * (fat_byte (e + 1) mod 16)
      else fat_byte (e + 1) / 16 + 16 * fat_byte (e + 2)
  | FAT16 => fat_byte (2 * c) + 256 * fat_byte (2 * c + 1)
  | FAT32 =>
      (fat_byte (4 * c) + 256 * fat_byte (4 * c + 1) + 65536 * fat_byte (4 * c + 2) +
       16777216 * fat_byte (4 * c + 3)) mod 268435456
  end.

Hypothesis V : volume_ok.

Lemma sector_size_range : 32 <= sector_size <= 32768.
Proof. pose proof (v_shift V); split; [apply (Z.pow_le_mono_r 2 5)|apply (Z.pow_le_mono_r 2 _ 15)]; lia. Qed.

Lemma fat_byte_range i : 0 <= fat_byte i < 256.
Proof.
  unfold fat_byte, byte_at; destruct (v_disk V (fat sbi + i / sector_size)) as [_ H].
  destruct (disk _ !! _) eqn:E; cbn; [|lia]; rewrite Forall_lookup in H; exact (H _ _ E).
Qed.

(** A byte in the sector of another, some bytes before it. *)
Lemma table_byte_near i k :
  0 <= i -> 0 <= k -> i mod sector_size + k < sector_size ->
  fat_byte (i + k) = byte_at (disk (fat sbi + i / sector_size)) (Z.to_nat (i mod sector_size) + Z.to_nat k).
Proof.
  intros Hi Hk Hs; pose proof sector_size_range; unfold fat_byte.
  pose proof (Z.mod_pos_bound i sector_size); pose proof (Z.div_mod i sector_size).
  rewrite <- (Z.div_unique (i + k) sector_size (i / sector_size) (i mod sector_size + k)) by lia.
  rewrite <- (Z.mod_unique (i + k) sector_size (i / sector_size) (i mod sector_size + k)) by lia.
  f_equal; lia.
Qed.

Lemma read_fat_sector i st :
  reader_ok st -> 0 <= i < 4 * (clusters sbi + 2) + sector_size ->
  exists st', get_fat_sector sbi (i / sector_size) st = Some (disk (fat sbi + i / sector_size), st') /\ reader_ok st'.
Proof.
  intros Hst Hi; pose proof sector_size_range; pose proof (v_fat V); pose proof (v_bound V).
  assert (0 <= i / sector_size <= (4 * (clusters sbi + 2)) / sector_size + 1).
  { split; [apply Z.div_pos; lia|]; rewrite <- Z.div_add by lia; apply Z.div_le_mono; lia. }
  unfold get_fat_sector; unfold u64; rewrite Z.mod_small by lia.
  apply read_block_ok; [done|lia].
Qed.

Lemma mask_mod i : 0 <= i -> Z.land i (Z.shiftl 1 sector_shift - 1) = i mod sector_size.
Proof.
  intros; pose proof (v_shift V); rewrite Z.shiftl_1_l.
  replace (sector_size - 1) with (Z.ones sector_shift) by (rewrite Z.ones_equiv; lia); apply Z.land_ones; lia.
Qed.

(** A number whose remainder is a multiple of [n], when the sector's size is too. *)
Lemma aligned_room i n m :
  0 < n -> sector_size = n * m -> (n | i) -> i mod sector_size + (n - 1) < sector_size.
Proof.
  intros Hn Hm [q ->]; pose proof sector_size_range.
  rewrite Hm, (Z.mul_comm q), Zmult_mod_distr_l; assert (0 < m) by nia.
  pose proof (Z.mod_pos_bound q m ltac:(lia)); nia.
Qed.

Lemma sector_size_4 : exists m, sector_size = 4 * m.
Proof.
  exists (2 ^ (sector_shift - 2)); pose proof (v_shift V).
  change 4 with (2 ^ 2); rewrite <- Z.pow_add_r by lia; f_equal; lia.
Qed.

Lemma get_next_fat12_spec c st :
  fat_type sbi = FAT12 -> reader_ok st -> 0 <= c < clusters sbi + 2 ->
  exists st', get_next_fat12 sector_shift sbi c st = Some (fat_entry c, st') /\ reader_ok st'.
Proof.
  intros T Hst Hc; pose proof (v_clusters V) as Hcl; pose proof (v_shift V); pose proof sector_size_range.
  unfold get_next_fat12; rewrite (Z.shiftr_div_pow2 c) by lia; change (2 ^ 1) with 2.
  assert (Ho : 0 <= c + c / 2 < 4 * (clusters sbi + 2)) by (Z.to_euclidean_division_equations; lia).
  rewrite (u32_small (c + c / 2)) by lia; rewrite Z.shiftr_div_pow2, mask_mod by lia.
  set (o := c + c / 2) in *.
  destruct (read_fat_sector o st Hst) as (st1 & -> & Hst1); [lia|].
  pose proof (Z.mod_pos_bound o sector_size ltac:(lia)) as Hm.
  rewrite Z.shiftl_1_l.
  assert (Hnext : exists st', (if o mod sector_size =? sector_size - 1
      then let* (d, st) := get_fat_sector sbi (o / sector_size + 1) st1 in
        Some (byte_at (disk (fat sbi + o / sector_size)) (Z.to_nat (o mod sector_size)) + Z.shiftl (byte_at d 0) 8, st)
      else Some (get_16 (disk (fat sbi + o / sector_size)) (Z.to_nat (o mod sector_size)), st1)) =
      Some (fat_byte o + 256 * fat_byte (o + 1), st') /\ reader_ok st').
  { destruct (_ =? _) eqn:E; bools.
    - assert (Ed : (o + 1) / sector_size = o / sector_size + 1).
      { symmetry; apply (Z.div_unique _ _ _ 0); [lia|]; pose proof (Z.div_mod o sector_size); lia. }
      destruct (read_fat_sector (o + 1) st1 Hst1) as (st2 & E2 & Hst2); [lia|]; rewrite Ed in E2; rewrite E2.
      exists st2; split; [|done]; do 2 f_equal; rewrite Z.shiftl_mul_pow2 by lia; change (2 ^ 8) with 256.
      unfold fat_byte; rewrite Ed, <- (Z.mod_unique (o + 1) sector_size (o / sector_size + 1) 0);
        [change (Z.to_nat 0) with 0%nat; lia|lia|pose proof (Z.div_mod o sector_size); lia].
    - exists st1; split; [|done]; unfold get_16; rewrite (table_byte_near o 1) by lia; done. }
  destruct Hnext as (st2 & -> & Hst2); exists st2; split; [|done]; do 2 f_equal.
  unfold fat_entry; rewrite T; cbn zeta; change 1 with (Z.ones 1) at 1; rewrite Z.land_ones by lia; change (2 ^ 1) with 2.
  change 0x0fff with (Z.ones 12); rewrite Z.land_ones, Z.shiftr_div_pow2 by lia.
  pose proof (fat_byte_range o); pose proof (fat_byte_range (o + 1)).
  pose proof (Z.div_mod c 2); pose proof (Z.mod_pos_bound c 2); rewrite Zeven_mod.
  destruct (Z.eq_dec (c mod 2) 0) as [E|E].
  - rewrite E; cbn [Z.eqb Zeq_bool negb]; replace (3 * (c / 2)) with o by (unfold o; lia).
    change (2 ^ 12) with 4096; Z.to_euclidean_division_equations; lia.
  - replace (c mod 2) with 1 by lia; cbn [Z.eqb negb].
    replace (3 * (c / 2)) with (o - 1) by (unfold o; lia); replace (o - 1 + 1) with o by lia;
      replace (o - 1 + 2) with (o + 1) by lia.
    change (2 ^ 4) with 16; Z.to_euclidean_division_equations; lia.
Qed.

Lemma get_next_cluster_spec c st :
  reader_ok st -> 0 <= c < clusters sbi + 2 ->
  exists st', get_next_cluster sector_shift sbi c st = Some (fat_entry c, st') /\ reader_ok st'.
Proof.
  intros Hst Hc; pose proof (v_clusters V); pose proof (v_shift V); pose proof sector_size_range.
  destruct sector_size_4 as [m Hm4].
  unfold get_next_cluster; destruct (fat_type sbi) eqn:T; [now apply get_next_fat12_spec| |];
    unfold fat_entry; rewrite T, Z.shiftl_mul_pow2, u32_small, Z.shiftr_div_pow2, mask_mod by lia.
  - destruct (read_fat_sector (c * 2 ^ 1) st Hst) as (st1 & -> & Hst1); [lia|]; exists st1; split; [|done].
    do 2 f_equal; change (2 ^ 1) with 2; rewrite (Z.mul_comm c 2); unfold get_16.
    rewrite (table_byte_near (2 * c) 1) by first [lia | apply (aligned_room _ 2 (2 * m)); [lia|lia|exists c; lia]]; done.
  - destruct (read_fat_sector (c * 2 ^ 2) st Hst) as (st1 & -> & Hst1); [lia|]; exists st1; split; [|done].
    do 2 f_equal; change (2 ^ 2) with 4; rewrite (Z.mul_comm c 4); unfold get_32, get_16.
    assert (4 * c mod sector_size + 3 < sector_size) by (apply (aligned_room _ 4 m); [lia|lia|exists c; lia]).
    rewrite !(table_byte_near (4 * c)) by lia; change 0x0fffffff with (Z.ones 28); rewrite Z.land_ones by lia.
    change (2 ^ 28) with 268435456; f_equal; unfold fat_byte.
    change (Z.to_nat 1) with 1%nat; change (Z.to_nat 2) with 2%nat; change (Z.to_nat 3) with 3%nat.
    rewrite <- !Nat.add_assoc; change (2 + 1)%nat with 3%nat; lia.
Qed.

(** ** Files *)

Notation cluster_bytes := (2 ^ clust_byte_shift sbi).

Context (fsize : Z) (chain : list Z).
Hypothesis size_range : 0 <= fsize <= 4294967296 - sector_size.

(** The number of clusters a file of [fsize] bytes has, and of sectors. *)
Definition file_clusters : Z := (fsize + cluster_bytes - 1) / cluster_bytes.
Definition file_nsec : Z := (fsize + sector_size - 1) / sector_size.

(** [chain] is the file's: each cluster's entry is the next one. *)
Record chain_ok : Prop := {
  ch_length : Z.of_nat (length chain) = file_clusters;
  ch_range : forall k c, chain !! k = Some c -> 2 <= c < clusters sbi + 2;
  ch_next : forall k a b, chain !! k = Some a -> chain !! S k = Some b -> fat_entry a = b
}.

Definition cluster_at (k : Z) : Z := default 0 (chain !! Z.to_nat k).

(** The sectors of the file. *)
Definition fat_sector_of (l : Z) : list Z :=
  disk (data sbi + (cluster_at (l / secs) - 2) * secs + l mod secs).

(** The place remembered in the inode is the right one, unless it is past the end. *)
Definition pvt_ok (p : fat_pvt) (st : St) : Prop :=
  reader_ok st /\ start_cluster p = cluster_at 0 /\ 0 <= poffset p < 4294967296 /\ 0 <= here p /\
  (poffset p / secs < file_clusters ->
   here p = data sbi + (cluster_at (poffset p / secs) - 2) * secs + poffset p mod secs).

Hypothesis C : chain_ok.

Lemma secs_range : 1 <= secs <= 128.
Proof. pose proof (v_clust V); split; [apply (Z.pow_le_mono_r 2 0)|apply (Z.pow_le_mono_r 2 _ 7)]; lia. Qed.

Lemma cluster_bytes_eq : cluster_bytes = secs * sector_size.
Proof.
  pose proof (v_clust V) as [? ->]; pose proof (v_shift V); rewrite Z.pow_add_r by lia; done.
Qed.

Lemma cluster_at_range k : 0 <= k < file_clusters -> 2 <= cluster_at k < clusters sbi + 2.
Proof.
  intros Hk; pose proof (ch_length C); unfold cluster_at.
  destruct (lookup_lt_is_Some_2 chain (Z.to_nat k)) as [c E]; [lia|]; rewrite E; eapply (ch_range C); eauto.
Qed.

Lemma cluster_at_next k : 0 <= k -> k + 1 < file_clusters -> fat_entry (cluster_at k) = cluster_at (k + 1).
Proof.
  intros Hk Hn; pose proof (ch_length C); unfold cluster_at.
  destruct (lookup_lt_is_Some_2 chain (Z.to_nat k)) as [c E]; [lia|].
  destruct (lookup_lt_is_Some_2 chain (S (Z.to_nat k))) as [d F]; [lia|].
  replace (Z.to_nat (k + 1)) with (S (Z.to_nat k)) by lia; rewrite E, F; eapply (ch_next C); eauto.
Qed.

(** Clusters hold what the sectors need, and few enough to be counted in 32 bits. *)
Lemma file_clusters_bounds :
  0 <= file_clusters /\ file_clusters * secs * sector_size < 4294967296 + 4194304 /\
  file_nsec <= file_clusters * secs /\ file_clusters * secs < 4294967296.
Proof.
  pose proof sector_size_range; pose proof secs_range; pose proof cluster_bytes_eq.
  unfold file_clusters, file_nsec; assert (Hcb : 1 <= cluster_bytes <= 4194304) by nia.
  pose proof (Z.div_mod (fsize + cluster_bytes - 1) cluster_bytes ltac:(lia)).
  pose proof (Z.mod_pos_bound (fsize + cluster_bytes - 1) cluster_bytes ltac:(lia)).
  pose proof (Z.div_mod (fsize + sector_size - 1) sector_size ltac:(lia)).
  pose proof (Z.mod_pos_bound (fsize + sector_size - 1) sector_size ltac:(lia)).
  set (t := (fsize + cluster_bytes - 1) / cluster_bytes) in *.
  set (n := (fsize + sector_size - 1) / sector_size) in *.
  assert (0 <= t) by (apply Z.div_pos; lia).
  assert (Et : t * secs * sector_size = cluster_bytes * t) by (rewrite cluster_bytes_eq; ring).
  split; [done|split; [lia|split]].
  - apply (Z.mul_le_mono_pos_r _ _ sector_size); [lia|].
    assert (n * sector_size < t * secs * sector_size + sector_size) by lia.
    assert (n < t * secs + 1) by (apply (Z.mul_lt_mono_pos_r sector_size); lia); nia.
  - apply (Z.mul_lt_mono_pos_r sector_size); [lia|]; nia.
Qed.

Lemma in_file l : 0 <= l < file_nsec -> 0 <= l / secs < file_clusters.
Proof.
  intros Hl; pose proof secs_range; destruct file_clusters_bounds as (H0 & _ & Hn & _).
  split; [apply Z.div_pos; lia|apply Z.div_lt_upper_bound; [lia|]]; rewrite Z.mul_comm; lia.
Qed.

Lemma walk_to_spec fuel : forall m l st,
  reader_ok st -> 0 <= l <= m -> m < file_clusters -> (Z.to_nat (m - l) <= fuel)%nat ->
  exists st', walk_to sector_shift sbi fuel m l (cluster_at l) st = Some (inr (m, cluster_at m), st') /\ reader_ok st'.
Proof.
  pose proof (v_clusters V).
  induction fuel as [|fuel IH]; intros m l st Hst Hl Hm Hf; cbn [walk_to];
    pose proof (cluster_at_range l ltac:(lia)); rewrite u32_small, (proj2 (Z.leb_gt _ _)) by lia.
  - replace l with m by lia; rewrite Z.leb_refl; eauto.
  - destruct (m <=? l) eqn:E; bools; [replace l with m by lia; eauto|].
    destruct (get_next_cluster_spec (cluster_at l) st Hst) as (st1 & -> & Hst1); [lia|].
    pose proof file_clusters_bounds as (_ & _ & _ & B); pose proof secs_range.
    rewrite u32_small by nia; rewrite cluster_at_next by lia; apply IH; auto; lia.
Qed.

Lemma contiguous_spec fuel m : forall l x st,
  reader_ok st -> 0 <= m <= l -> l < file_clusters -> (Z.to_nat (file_clusters - l) <= S fuel)%nat ->
  (forall j, 0 <= j <= l - m -> cluster_at (m + j) = cluster_at m + j) ->
  exists t x' st', contiguous sector_shift sbi fuel file_clusters l (cluster_at l) x ((l - m + 1) * secs) st =
      Some (t, x', (t - m) * secs, st') /\ reader_ok st' /\ m < t <= file_clusters /\
    (forall j, 0 <= j < t - m -> cluster_at (m + j) = cluster_at m + j) /\
    (t < file_clusters -> x' = cluster_at t).
Proof.
  pose proof (v_clusters V); pose proof secs_range; pose proof file_clusters_bounds as (_ & _ & _ & B).
  induction fuel as [|fuel IH]; intros l x st Hst Hml Hl Hf Hrun; cbn [contiguous];
    rewrite (u32_small (l + 1)) by nia; destruct (l + 1 <? file_clusters) eqn:E; bools; try lia;
    try (exists (l + 1), x, st; replace (l + 1 - m) with (l - m + 1) by lia;
      split; [done|split; [done|split; [lia|split; [|lia]]]]; intros; apply Hrun; lia).
  pose proof (cluster_at_range l ltac:(lia)); pose proof (cluster_at_range (l + 1) ltac:(lia)).
  destruct (get_next_cluster_spec (cluster_at l) st Hst) as (st1 & -> & Hst1); [lia|].
  rewrite cluster_at_next, (u32_small (cluster_at l + 1)) by lia.
  destruct (cluster_at (l + 1) =? _) eqn:En; bools.
  - rewrite (u32_small (Z.shiftl _ _)) by (rewrite Z.shiftl_1_l; lia); rewrite Z.shiftl_1_l, u32_small by nia.
    replace ((l - m + 1) * secs + secs) with ((l + 1 - m + 1) * secs) by lia; rewrite <- En.
    apply IH; auto; try lia; intros j Hj.
    destruct (decide (j = l + 1 - m)) as [->|]; [|apply Hrun; lia].
    replace (m + (l + 1 - m)) with (l + 1) by lia; rewrite En.
    specialize (Hrun (l - m) ltac:(lia)); replace (m + (l - m)) with l in Hrun by lia; lia.
  - exists (l + 1), (cluster_at (l + 1)), st1; replace (l + 1 - m) with (l - m + 1) by lia.
    split; [done|split; [done|split; [lia|split; [|done]]]]; intros; apply Hrun; lia.
Qed.

(** The place that the search starts from. *)
Lemma start_of_walk p st m :
  pvt_ok p st -> 0 <= m < file_clusters ->
  exists l, 0 <= l <= m /\
    (if (m <? u32 (Z.shiftr (poffset p) (clust_shift sbi))) || (here p <? data sbi)
     then (0, start_cluster p)
     else (u32 (Z.shiftr (poffset p) (clust_shift sbi)),
           u32 (Z.shiftr (u64 (here p - data sbi)) (clust_shift sbi) + 2))) = (l, cluster_at l).
Proof.
  intros (_ & Hs & Ho & Hh & Hw) Hm; pose proof secs_range; pose proof (v_clust V); pose proof (v_data V).
  pose proof (v_clusters V).
  rewrite !Z.shiftr_div_pow2 by lia.
  assert (Hd : 0 <= poffset p / secs < 4294967296).
  { split; [apply Z.div_pos; lia|apply Z.div_lt_upper_bound; nia]. }
  rewrite (u32_small (poffset p / secs)) by lia.
  destruct (_ || _) eqn:E; bools; try (exists 0; split; [lia|now rewrite Hs]).
  exists (poffset p / secs); split; [lia|]; f_equal.
  pose proof (cluster_at_range (poffset p / secs) ltac:(lia)).
  pose proof (Z.mod_pos_bound (poffset p) secs ltac:(lia)).
  rewrite (Hw ltac:(lia)).
  replace (data sbi + (cluster_at (poffset p / secs) - 2) * secs + poffset p mod secs - data sbi) with
    ((cluster_at (poffset p / secs) - 2) * secs + poffset p mod secs) by lia.
  unfold u64; rewrite Z.mod_small by nia; rewrite Z.div_add_l, (Z.div_small (poffset p mod _)), u32_small by lia; lia.
Qed.

(** A run of consecutive clusters of the file is an extent of it. *)
Lemma run_extent m t e :
  0 <= m < t -> t <= file_clusters ->
  (forall j, 0 <= j < t - m -> cluster_at (m + j) = cluster_at m + j) ->
  pstart e = data sbi + (cluster_at m - 2) * secs -> lstart e = m * secs -> len e = (t - m) * secs ->
  extent_ok disk fat_sector_of file_nsec sector_size secs e.
Proof.
  intros Hm Ht Hrun Ep El En; pose proof secs_range; pose proof (v_clust V); pose proof (v_data V).
  pose proof file_clusters_bounds as (_ & _ & _ & B); pose proof (cluster_at_range m ltac:(lia)).
  pose proof (cluster_at_range (t - 1) ltac:(lia)) as Hlast.
  assert (Hend : lstart e + len e = t * secs) by lia.
  pose proof (Hrun (t - 1 - m) ltac:(lia)) as Hr; replace (m + (t - 1 - m)) with (t - 1) in Hr by lia.
  assert (Hsec : pstart e + len e <= data sbi + clusters sbi * secs) by nia.
  split; [nia|nia|nia|nia|rewrite Hend; now exists t|intros _; right].
  split; [nia|split; [unfold EXTENT_VOID; lia|]]; intros l Hl _; unfold fat_sector_of; f_equal.
  rewrite El in Hl; pose proof (Z.div_mod l secs ltac:(lia)); pose proof (Z.mod_pos_bound l secs ltac:(lia)).
  assert (Hq : m <= l / secs < t) by nia.
  pose proof (Hrun (l / secs - m) ltac:(lia)) as Hc; replace (m + (l / secs - m)) with (l / secs) in Hc by lia.
  rewrite Hc, Ep, El; nia.
Qed.

Lemma next_extent_spec (i : inode fat_pvt) l st :
  pvt_ok (pvt i) st -> size i = fsize -> 0 <= l < file_nsec -> (secs | l) ->
  exists n p st', fat_next_extent sector_shift sbi i l st =
      Some (0, Inode (mode i) (size i) (this_extent i) n p, st') /\
    pvt_ok p st' /\ 0 < len n /\
    extent_ok disk fat_sector_of file_nsec sector_size secs (Extent (pstart n) l (len n)).
Proof.
  intros Hp Hs Hl [m Hm]; pose proof secs_range; pose proof (v_clust V) as [Hcs Hcb].
  pose proof sector_size_range; pose proof cluster_bytes_eq as Ecb; pose proof (v_shift V).
  pose proof (v_data V); pose proof (v_clusters V).
  pose proof file_clusters_bounds as (T0 & T1 & T2 & T3); pose proof (in_file l Hl) as Hin.
  assert (Hcbr : 1 <= cluster_bytes <= 4194304) by nia.
  assert (El : l / secs = m) by (subst l; apply Z.div_mul; lia); rewrite El in Hin.
  unfold fat_next_extent; rewrite Hs, !Z.shiftl_1_l, (u32_small cluster_bytes), (u32_small secs) by lia.
  rewrite (Z.shiftr_div_pow2 l), El by lia.
  assert (Et : u32 (Z.shiftr (u64 (fsize + cluster_bytes - 1)) (clust_byte_shift sbi)) = file_clusters).
  { unfold u64; rewrite Z.mod_small, Z.shiftr_div_pow2 by lia; apply u32_small; fold file_clusters; nia. }
  rewrite Et, (proj2 (Z.leb_gt _ _)) by lia.
  destruct (start_of_walk _ st m Hp Hin) as (l0 & Hl0 & ->).
  destruct (walk_to_spec (Z.to_nat (m - l0)) m l0 st) as (st1 & -> & Hst1); [apply Hp|lia..|].
  pose proof (cluster_at_range m Hin) as Hcm.
  destruct (contiguous_spec (Z.to_nat file_clusters) m m 0 st1 Hst1)
    as (t & x & st2 & Ec & Hst2 & Ht & Hrun & Hx); [lia..|intros j Hj; replace j with 0 by lia; now rewrite !Z.add_0_r|].
  replace ((m - m + 1) * secs) with secs in Ec by lia; rewrite Ec.
  do 3 eexists; split; [unfold set_pvt, set_nextx; cbn [mode size this_extent next_extent pvt]; rewrite Hs; reflexivity|].
  cbn [pstart len].
  rewrite (u32_small (cluster_at m - 2)), (Z.shiftl_mul_pow2 (cluster_at m - 2)) by lia.
  assert (Hps : 0 <= (cluster_at m - 2) * secs <= clusters sbi * secs).
  { split; [apply Z.mul_nonneg_nonneg; lia|apply Z.mul_le_mono_nonneg_r; lia]. }
  rewrite (u64_small ((cluster_at m - 2) * secs)), (u64_small ((cluster_at m - 2) * secs + data sbi)) by lia.
  split; [|split; [nia|apply (run_extent m t); cbn; auto; lia]].
  split; [done|split; [apply Hp|]]; cbn [poffset here start_cluster].
  rewrite (Z.shiftl_mul_pow2 t), (u32_small (t * secs)) by nia.
  split; [nia|split; [apply u64_range|]].
  rewrite Z.div_mul, Z.mod_mul, Z.add_0_r by lia; intros Hlt; rewrite (Hx Hlt).
  pose proof (cluster_at_range t ltac:(lia)).
  assert (Hpt : 0 <= (cluster_at t - 2) * secs <= clusters sbi * secs).
  { split; [apply Z.mul_nonneg_nonneg; lia|apply Z.mul_le_mono_nonneg_r; lia]. }
  rewrite (u32_small (cluster_at t - 2)), Z.shiftl_mul_pow2, u32_small, u64_small by lia; lia.
Qed.

(** The driver's instance of the class, and its promise. *)
#[local] Instance fat_driver : NextExtent fat_pvt St := {| fs_next_extent := fat_next_extent sector_shift sbi |}.

#[local] Instance fat_driver_laws : NextExtentLaws fat_pvt St disk fat_sector_of file_nsec sector_size secs fsize.
Proof.
  refine {| ext_inode := pvt_ok; ext_reliable := True |}.
  intros i l st Hp Hs Hl Hu; destruct (next_extent_spec i l st Hp Hs Hl Hu) as (n & p & st' & E & Hp' & Hn & He).
  exists 0, n, p, st'; split; [|done]; split; [exact E|split; [done|split; [|done]]].
  pose proof (ext_pstart _ _ _ _ _ _ He); done.
Defined.

(** A file as it is after it was found: nothing is mapped yet. *)
Definition opened : file fat_pvt :=
  let s := data sbi + (cluster_at 0 - 2) * secs in
  File 0 (Inode DT_REG fsize (Extent 0 0 0) (Extent 0 0 0) (Pvt (cluster_at 0) s 0 s)).

Lemma opened_ok st : reader_ok st -> 0 < fsize ->
  file_ok disk fat_sector_of sector_shift file_nsec secs fsize fat_driver_laws opened st.
Proof.
  intros Hst Hf; pose proof secs_range; pose proof (v_data V); pose proof (v_clusters V).
  pose proof (in_file 0) as Hin; pose proof sector_size_range.
  assert (Hn : 0 < file_nsec) by (unfold file_nsec; apply Z.div_str_pos; lia).
  rewrite Z.div_0_l in Hin by lia; specialize (Hin ltac:(lia)); pose proof (cluster_at_range 0 Hin).
  assert (0 <= (cluster_at 0 - 2) * secs) by (apply Z.mul_nonneg_nonneg; lia).
  assert (E : extent_ok disk fat_sector_of file_nsec sector_size secs (Extent 0 0 0))
    by (split; cbn; try lia; apply Z.divide_0_r).
  split; [split; [|done..]|cbn; lia|intros _; cbn; rewrite Z.div_0_l by lia; split; [apply Z.divide_0_r|done]].
  change (pvt_ok (pvt (f_inode opened)) st); unfold opened, pvt_ok; cbn [pvt f_inode poffset here start_cluster].
  split; [done|split; [done|split; [lia|split; [lia|]]]].
  intros _; rewrite Z.mod_0_l, Z.div_0_l by lia; lia.
Qed.
(** The entry of a cluster that get_next_cluster answers is the one of the
    table, 12, 16 or 28 bits wide, in whatever sectors its bytes lie, also when the
    two bytes of a 12-bit entry lie in different ones. *)
Theorem next_cluster_correct c st :
  reader_ok st -> 0 <= c < clusters sbi + 2 ->
  exists st', get_next_cluster sector_shift sbi c st = Some (fat_entry c, st') /\ reader_ok st'.
Proof. now apply get_next_cluster_spec. Qed.

(** Fat_next_extent maps the sector where a cluster of a sound file begins, from
    whatever place it was left at, to the longest run of consecutive clusters from
    there on within the file, and remembers the place where the run ended. *)
Theorem next_extent_correct (i : inode fat_pvt) l st :
  pvt_ok (pvt i) st -> size i = fsize -> 0 <= l < file_nsec -> (secs | l) ->
  exists n p st', fat_next_extent sector_shift sbi i l st =
      Some (0, Inode (mode i) (size i) (this_extent i) n p, st') /\
    pvt_ok p st' /\ 0 < len n /\
    extent_ok disk fat_sector_of file_nsec sector_size secs (Extent (pstart n) l (len n)).
Proof. now apply next_extent_spec. Qed.
End volume.

(** ** Files over the cache over the disk *)

Section stack.
Context (rdwr_sectors : list Z -> Z -> Z -> list Z) (disk : Z -> list Z).
Context (sector_shift : Z) (sbi : fat_sb_info) (fsize : Z) (chain : list Z).
Notation sector_size := (2 ^ sector_shift).
Hypothesis V : volume_ok disk 281474976710656 sector_shift sbi.
Hypothesis size_range : 0 < fsize <= 4294967296 - sector_size.
Hypothesis C : chain_ok disk sector_shift sbi fsize chain.
Hypothesis rdwr_ok : forall old lba n, 0 <= lba -> 0 <= n ->
  Z.of_nat (length old) = n * sector_size ->
  rdwr_sectors old lba n = concat (map disk (seqZ lba n)).

#[local] Instance stack_reader : BlockReader device := cache_reader sector_size rdwr_sectors.
#[local] Instance stack_driver : NextExtent fat_pvt device := fat_driver sector_shift sbi.

(** The bytes of the file: the clusters of the chain one after the other. *)
Definition fat_file_bytes : list Z :=
  take (Z.to_nat fsize) (concat (map (fat_sector_of disk sbi chain) (seqZ 0 (file_nsec sector_shift fsize)))).

(** C4: a file whose chain of clusters is sound is read whole and exactly, over a
    chain in pieces or in one, through the runs the driver finds in the table, the
    table through the block cache, and the cache from the disk, whatever the cache
    held before and however many sectors are read at a time. *)
Theorem fat_read_correct dev l sectors :
  cache_inv sector_size disk dev l -> l <> [] -> cache_block_size dev = sector_size ->
  0 < sectors -> sectors * sector_size < 2147483648 ->
  exists dev', read_whole sector_shift rdwr_sectors (Z.to_nat (file_nsec sector_shift fsize))
    (Some (opened sbi fsize chain)) sectors dev = Some (fat_file_bytes, dev').
Proof.
  intros I Hl Hb Hs Hsb; pose proof (sector_size_range disk _ sector_shift sbi V) as Hss.
  assert (Hlen : forall s, Z.of_nat (length (disk s)) = sector_size) by apply (v_disk _ _ _ _ V).
  set (laws := sector_reader_laws sector_size rdwr_sectors disk ltac:(lia) Hlen rdwr_ok).
  assert (Hr : @reader_ok _ _ _ _ laws dev) by (exists l; auto).
  assert (Hsz : 0 <= fsize <= 4294967296 - sector_size) by lia.
  destruct (read_whole_step disk (fat_sector_of disk sbi chain) sector_shift (file_nsec sector_shift fsize)
    (2 ^ clust_shift sbi) fsize (@fat_driver_laws device _ disk _ laws sector_shift sbi V fsize chain Hsz C)
    rdwr_sectors) with (fuel := Z.to_nat (file_nsec sector_shift fsize)) (sectors := sectors)
    (f := opened sbi fsize chain) (st := dev) as (dev' & E); auto; try exact Logic.I.
  - pose proof (v_shift _ _ _ _ V); lia.
  - intros s _; apply Hlen.
  - apply (opened_ok disk _ sector_shift sbi V fsize chain Hsz C); [exact Hr|lia].
  - cbn; lia.
  - cbn [offset opened]; rewrite Z.div_0_l by lia; lia.
  - exists dev'; exact E.
Qed.
End stack.

(** ** A small volume *)

(** Sectors of 32 bytes, the table in sector 1, clusters of one sector from sector
    2 on; a file of 70 bytes in the clusters 3, 5 and 4. *)
Definition tiny_disk (s : Z) : list Z :=
  if s =? 1 then blit 0 [0xF8; 0xFF; 0xFF; 0x00; 0x50; 0x00; 0xFF; 0x4F; 0x00] (replicate 32 0)
  else replicate 32 (u8 s).
Definition tiny_rdwr (old : list Z) (lba n : Z) : list Z := concat (map tiny_disk (seqZ lba n)).
Definition tiny_sb : fat_sb_info := Sb 1 2 2 4 0 0 0 5 0 32 FAT12 0.
Definition tiny_dev : device := cache_init (Dev false (replicate 200 0) false 0 0 200 []) 5.

Lemma tiny_volume : volume_ok tiny_disk 281474976710656 5 tiny_sb.
Proof.
  split; cbn; try lia; [|vm_compute; intuition discriminate].
  intros s; unfold tiny_disk; destruct (s =? 1); [split; [reflexivity|]|split; [reflexivity|apply Forall_replicate, u8_byte]].
  apply bytes_ok; reflexivity.
Qed.

Lemma tiny_chain : chain_ok tiny_disk 5 tiny_sb 70 [3; 5; 4].
Proof.
  split; [reflexivity| |].
  - intros [|[|[|k]]] c H; cbn in H; try discriminate; injection H as <-; cbn; lia.
  - intros [|[|[|k]]] a b Ha Hb; cbn in Ha, Hb; try discriminate; injection Ha as <-; injection Hb as <-; reflexivity.
Qed.

Lemma fat_read_correct_witness :
  exists dev', @read_whole _ _ (stack_driver tiny_rdwr 5 tiny_sb) 5 tiny_rdwr 3
    (Some (opened tiny_sb 70 [3; 5; 4])) 2 tiny_dev =
    Some (replicate 32 3 ++ replicate 32 5 ++ replicate 6 4, dev').
Proof.
  destruct (fat_read_correct tiny_rdwr tiny_disk 5 tiny_sb 70 [3; 5; 4] tiny_volume)
    with (dev := tiny_dev) (l := [1; 2; 3]%nat) (sectors := 2) as (dev' & H);
    [lia|exact tiny_chain|reflexivity| |discriminate|reflexivity|lia|reflexivity|].
  - change [1; 2; 3]%nat with (seq 1 (Z.to_nat ((200 - sizeof_cache) / (2 ^ 5 + sizeof_cache)))).
    apply (cache_init_step 32 tiny_disk) with (shift := 5) (dev := Dev false (replicate 200 0) false 0 0 200 []);
      cbn; unfold is_u32, sizeof_cache; try lia; try done.
  - exists dev'; exact (eq_trans H eq_refl).
Defined.

Lemma tiny_reader : BlockReaderLaws device (H := stack_reader tiny_rdwr 5) tiny_disk 281474976710656.
Proof.
  apply (sector_reader_laws 32); [lia| |reflexivity].
  intros s; apply (v_disk _ _ _ _ tiny_volume).
Defined.

Lemma tiny_dev_ok : reader_ok (BlockReaderLaws := tiny_reader) tiny_dev.
Proof.
  exists [1; 2; 3]%nat; split; [|split; [discriminate|reflexivity]].
  change [1; 2; 3]%nat with (seq 1 (Z.to_nat ((200 - sizeof_cache) / (2 ^ 5 + sizeof_cache)))).
  apply (cache_init_step 32 tiny_disk) with (shift := 5) (dev := Dev false (replicate 200 0) false 0 0 200 []);
    cbn; unfold is_u32, sizeof_cache; try lia; try done.
Qed.

(** The entry of cluster 3, the twelve high bits of the bytes 4 and 5: 5. *)
Lemma next_cluster_correct_witness :
  exists st', @get_next_cluster _ (stack_reader tiny_rdwr 5) 5 tiny_sb 3 tiny_dev = Some (5, st').
Proof.
  destruct (@next_cluster_correct _ _ tiny_disk _ tiny_reader 5 tiny_sb tiny_volume 3 tiny_dev tiny_dev_ok)
    as (st' & H & _); [cbn; lia|].
  exists st'; exact (eq_trans H eq_refl).
Defined.

Lemma next_extent_correct_witness :
  exists n p st', @fat_next_extent _ (stack_reader tiny_rdwr 5) 5 tiny_sb
      (f_inode (opened tiny_sb 70 [3; 5; 4])) 1 tiny_dev =
    Some (0, Inode DT_REG 70 (Extent 0 0 0) n p, st') /\ 0 < len n.
Proof.
  assert (Hr : 0 <= 70 <= 4294967296 - 2 ^ 5) by (vm_compute; intuition discriminate).
  destruct (@next_extent_correct _ _ tiny_disk _ tiny_reader 5 tiny_sb tiny_volume 70 [3; 5; 4] Hr tiny_chain
    (f_inode (opened tiny_sb 70 [3; 5; 4])) 1 tiny_dev) as (n & p & st' & H & _ & Hn & _).
  - split; [exact tiny_dev_ok|vm_compute; intuition discriminate].
  - reflexivity.
  - vm_compute; intuition discriminate.
  - exists 1; reflexivity.
  - exists n, p, st'; split; [exact H|exact Hn].
Defined.

(** A file whose size says more clusters than its chain has: the size becomes the
    number of sectors the chain has, not of bytes. *)
Example short_chain_size :
  option_map (fun r => (r.1.1, size r.1.2))
    (@fat_next_extent _ (stack_reader tiny_rdwr 5) 5 tiny_sb
      (f_inode (opened tiny_sb 200 [3; 5; 4])) 3 tiny_dev) = Some (-1, 3).
Proof. vm_compute; reflexivity. Qed.

(** Whoever reads on past the 96 bytes there are is told for ever that there is more. *)
Example short_chain_reads_on :
  let i := set_size 3 (f_inode (opened tiny_sb 200 [3; 5; 4])) in
  let i := set_this (Extent 0 3 0) i in
  option_map (fun r => let '(n, more, f, _, _) := r in (n, more, offset f))
    (@generic_getfssec _ _ (stack_driver tiny_rdwr 5 tiny_sb) 5 tiny_rdwr (File 96 i) (replicate 64 0) 2 tiny_dev) =
  Some (0, Some true, 96).
Proof. vm_compute; reflexivity. Qed.
