(* ===== verification/FatDir.v ===== *)
(** * Names and directories of the FAT driver: core/fs/fat/fat.c

    Path names as the core passes them on, the names of directory entries, and the
    search of a directory for a name, long or short.  C strings are lists of their
    bytes, without the NUL; the names in long entries are lists of 16-bit
    characters.  The tables of the code page, which the build generates, are
    parameters. *)

From S2P Require Import Prelude Cache Getfssec Fat.

Open Scope word_scope.

(** The byte [i] of a C string, NUL at its end. *)
Notation char_at := byte_at.

(** [src/core/include/fs.h:146-149 not_whitespace] *)
Definition not_whitespace (c : Z) : bool := 32 <? c.

Definition FILENAME_MAX : Z := 256.

(** ** Path names *)

(** What was copied, and the room left in the buffer.
    [src/core/fs/lib/mangle.c:22-32 generic_mangle_name] *)
Fixpoint mangle_copy (src dst : list Z) (i : Z) : list Z * Z :=
  match src with
  | c :: rest =>
      if not_whitespace c then
        if (c =? 47) && (char_at rest 0 =? 47) then mangle_copy rest dst (i - 1)
        else mangle_copy rest (dst ++ [c]) (i - 1)
      else (dst, i)
  | [] => (dst, i)
  end.

(** Slashes at the end, but for one alone.
    [src/core/fs/lib/mangle.c:34-44 generic_mangle_name] *)
Fixpoint mangle_strip (fuel : nat) (dst : list Z) (i : Z) : list Z * Z :=
  match fuel with
  | O => (dst, i)
  | S fuel =>
      if (length dst =? 0)%nat then (dst, i)
      else if negb (char_at dst (length dst - 1) =? 47) then (dst, i)
      else if (length dst =? 1)%nat then (dst, i)
      else mangle_strip fuel (take (length dst - 1) dst) (i + 1)
  end.

Definition mangle_pad (r : list Z * Z) : list Z := r.1 ++ replicate (Z.to_nat (r.2 + 1)) 0.

(** All that is stored from [dst] on.
    [src/core/fs/lib/mangle.c:17-49 generic_mangle_name] *)
Definition generic_mangle_name (src : list Z) : list Z :=
  let (dst, i) := mangle_copy src [] (FILENAME_MAX - 1) in
  mangle_pad (mangle_strip (length dst) dst i).

(** The converted character is tested, the character of the source is copied.
    [src/core/fs/fat/fat.c:246-259 vfat_mangle_name] *)
Fixpoint vfat_mangle_copy (src dst : list Z) (i : Z) : list Z * Z :=
  match src with
  | s :: rest =>
      if not_whitespace s then
        let c := if s =? 92 then 47 else s in
        if (c =? 47) && ((char_at rest 0 =? 47) || (char_at rest 0 =? 92))
        then vfat_mangle_copy rest dst (i - 1)
        else vfat_mangle_copy rest (dst ++ [s]) (i - 1)
      else (dst, i)
  | [] => (dst, i)
  end.

(** [src/core/fs/fat/fat.c:240-276 vfat_mangle_name] *)
Definition vfat_mangle_name (src : list Z) : list Z :=
  let (dst, i) := vfat_mangle_copy src [] (FILENAME_MAX - 1) in
  mangle_pad (mangle_strip (length dst) dst i).

(** ** Directory entries *)

(** Thirty-two bytes; the fields of a short and of a long entry.
    [src/core/fs/fat/fat_fs.h:105-118 struct fat_dir_entry] *)
Definition de_name (de : list Z) : list Z := take 11 de.
Definition de_attr (de : list Z) : Z := byte_at de 11.
Definition de_lcase (de : list Z) : Z := byte_at de 12.
Definition de_first_cluster_high (de : list Z) : Z := get_16 de 20.
Definition de_first_cluster_low (de : list Z) : Z := get_16 de 26.
Definition de_file_size (de : list Z) : Z := get_32 de 28.

(** [src/core/fs/fat/fat_fs.h:123-132 struct fat_long_name_entry] *)
Definition le_id (de : list Z) : Z := byte_at de 0.
Definition le_checksum (de : list Z) : Z := byte_at de 13.

(** The thirteen characters of a long entry.
    [src/core/fs/fat/fat.c:394-402 copy_long_chunk] *)
Definition long_chunk (de : list Z) : list Z :=
  map (fun i => get_16 de (1 + 2 * i)) (seq 0 5) ++
  map (fun i => get_16 de (14 + 2 * i)) (seq 0 6) ++
  map (fun i => get_16 de (28 + 2 * i)) (seq 0 2).

(** [src/core/fs/fat/fat.c:404-412 get_checksum] *)
Definition get_checksum (dir_name : list Z) : Z :=
  fold_left (fun sum c => u8 (Z.shiftl (Z.land sum 1) 7 + Z.shiftr sum 1 + c)) (take 11 dir_name) 0.

(** [src/core/fs/fat/fat.c:432-435 get_inode_mode] *)
Definition get_inode_mode (attr : Z) : dirent_type :=
  if negb (Z.land attr 0x10 =? 0) then DT_DIR else DT_REG.

Section codepage.
(** [codepage.upper] and [lower], and the two characters of [codepage.uni]. *)
Variables upper lower uni0 uni1 : Z -> Z.

(** The loop of the eight and three characters; what is in the buffer past [i] is
    overwritten.
    [src/core/fs/fat/fat.c:291-309 mangle_dos_name] *)
Fixpoint dos_copy (src buf : list Z) : list Z :=
  if (length buf <? 11)%nat then
    match src with
    | [] => buf
    | c :: src =>
        if (c <=? 32) || (c =? 47) then buf
        else if c =? 46 then dos_copy src (take 8 (buf ++ replicate 8 32))
        else
          let c := upper c in
          let c := if (length buf =? 0)%nat && (c =? 0xe5) then 0x05 else c in
          dos_copy src (buf ++ [c])
    end
  else buf.

(** [src/core/fs/fat/fat.c:281-316 mangle_dos_name] *)
Definition mangle_dos_name (src : list Z) : list Z :=
  let buf :=
    if (char_at src 0 =? 46) && ((char_at src 1 =? 0) || ((char_at src 1 =? 46) && (char_at src 2 =? 0)))
    then src else dos_copy src [] in
  buf ++ replicate (11 - length buf) 32.

(** The first loop: [None] is a character that differs, otherwise the rest of the
    string and of the padding.
    [src/core/fs/fat/fat.c:332-340 vfat_match_longname] *)
Fixpoint match_chars (str mch : list Z) (len : nat) : option (list Z * list Z * nat) :=
  match len with
  | O => Some (str, mch, O)
  | S len =>
      let cp := char_at mch 0 in
      let mch := tail mch in
      if cp =? 0 then Some (str, mch, len)
      else
        let c := char_at str 0 in
        if negb (cp =? uni0 c) && negb (cp =? uni1 c) then None
        else match_chars (tail str) mch len
  end.

(** [src/core/fs/fat/fat.c:324-352 vfat_match_longname] *)
Definition vfat_match_longname (str mch : list Z) (len : nat) : bool :=
  match match_chars str mch len with
  | None => false
  | Some (str, mch, len) =>
      (char_at str 0 =? 0) && forallb (fun c => c =? 0xffff) (take len mch)
  end.

(** ** The search of a directory *)

(** The local variables that collect a long name. *)
Record lfn := Lfn {
  vfat_next : Z;
  vfat_csum : Z;
  long_name : list Z;
  long_len : nat;
  long_match : bool
}.

Inductive entry_result :=
| NotFound
| Found
| Next (s : lfn).

(** [goto not_match] [src/core/fs/fat/fat.c:535-538 vfat_find_entry] *)
Definition not_match (vfat_init : Z) (s : lfn) : entry_result :=
  Next (Lfn vfat_init (vfat_csum s) (long_name s) (long_len s) false).

(** A long entry; [None] is a write past the end of [long_name].
    [src/core/fs/fat/fat.c:480-512 vfat_find_entry] *)
Definition long_entry (dname : list Z) (vfat_init : Z) (de : list Z) (s : lfn) : option entry_result :=
  let id := le_id de in
  if negb (id =? vfat_next s) then Some (not_match vfat_init s)
  else
    let initial := negb (Z.land id 0x40 =? 0) in
    if negb initial && negb (le_checksum de =? vfat_csum s) then Some (not_match vfat_init s)
    else
      let csum := if initial then le_checksum de else vfat_csum s in
      let len := if initial then Z.to_nat (Z.land id 0x3f * 13) else long_len s in
      let name := if initial then replicate 260 0 else long_name s in
      let id := u8 ((if initial then Z.land id 0x3f else id) - 1) in
      if 260 <? id * 13 + 13 then None
      else
        let name := blit (Z.to_nat (id * 13)) (long_chunk de) name in
        let s := Lfn id csum name len (long_match s) in
        if id =? 0 then
          if vfat_match_longname dname name len then Some (Next (Lfn id csum name len true))
          else Some (not_match vfat_init s)
        else Some (Next s).

(** [src/core/fs/fat/fat.c:473-538 vfat_find_entry] *)
Definition find_step (dname mangled_name : list Z) (vfat_init : Z) (de : list Z) (s : lfn)
  : option entry_result :=
  if byte_at de 0 =? 0 then Some NotFound
  else if de_attr de =? 0x0f then long_entry dname vfat_init de s
  else if negb (Z.land (de_attr de) 0x08 =? 0) then Some (not_match vfat_init s)
  else if long_match s then
    if get_checksum (de_name de) =? vfat_csum s then Some Found else Some (not_match vfat_init s)
  else if bool_decide (take 11 mangled_name = de_name de) then Some Found
  else Some (not_match vfat_init s).

(** The entries of one sector from [de] on; the entry that was found is the answer.
    [src/core/fs/fat/fat.c:470-540 vfat_find_entry] *)
Fixpoint find_sector (dname mangled_name : list Z) (vfat_init : Z) (entries : nat) (data : list Z) (s : lfn)
  : option (list Z + (bool * lfn)) :=
  match entries with
  | O => Some (inr (true, s))
  | S entries =>
      let de := take 32 data in
      let* r := find_step dname mangled_name vfat_init de s in
      match r with
      | NotFound => Some (inr (false, s))
      | Found => Some (inl de)
      | Next s => find_sector dname mangled_name vfat_init entries (drop 32 data) s
      end
  end.

(** ** The driver's directory operations *)

Section driver.
Context {St : Type} {reader : BlockReader St}.
Variable sector_shift : Z.
Variable sbi : fat_sb_info.

(** [src/core/fs/fat/fat.c:416-430 first_sector] *)
Definition first_sector (de : list Z) : Z :=
  let first_clust := u64 (s32 (Z.shiftl (de_first_cluster_high de) 16) + de_first_cluster_low de) in
  if first_clust =? 0 then root sbi
  else u64 (u64 (Z.shiftl (u64 (first_clust - 2)) (clust_shift sbi)) + data sbi).

(** [src/core/fs/fat/fat.c:577-577 vfat_iget_root] *)
Definition root_dir_bytes : Z :=
  if negb (root_size sbi =? 0) then u64 (s32 (Z.shiftl (root_size sbi) sector_shift)) else u64 (-1).

(** A new inode is cleared; running out of memory does not return.
    [src/core/fs/fat/fat.c:547-564 vfat_find_entry] *)
Definition found_inode (de : list Z) : inode fat_pvt :=
  let start_clust := u32 (Z.shiftl (de_first_cluster_high de) 16 + de_first_cluster_low de) in
  let no_extent := Extent 0 0 0 in
  let m := get_inode_mode (de_attr de) in
  if start_clust =? 0 then
    Inode m root_dir_bytes no_extent no_extent (Pvt (root_cluster sbi) (root sbi) 0 (root sbi))
  else
    Inode m (de_file_size de) no_extent no_extent (Pvt start_clust (first_sector de) 0 (first_sector de)).

(** [src/core/fs/fat/fat.c:567-582 vfat_iget_root] *)
Definition vfat_iget_root : inode fat_pvt :=
  Inode DT_DIR root_dir_bytes (Extent 0 0 0) (Extent 0 0 0) (Pvt (root_cluster sbi) (root sbi) 0 (root sbi)).

(** Sector by sector; [Some None] is a name that is not there, [None] a directory
    that does not end within [fuel] sectors.
    [src/core/fs/fat/fat.c:468-545 vfat_find_entry] *)
Fixpoint find_dir (fuel : nat) (dname mangled_name : list Z) (vfat_init dir_sector : Z) (s : lfn) (st : St)
  : option (option (list Z) * St) :=
  if dir_sector =? 0 then Some (None, st)
  else
    match fuel with
    | O => None
    | S fuel =>
        let* (data, st) := read_block dir_sector st in
        let entries := Z.to_nat (Z.shiftl 1 (sector_shift - 5)) in
        let* r := find_sector dname mangled_name vfat_init entries data s in
        match r with
        | inl de => Some (Some de, st)
        | inr (false, _) => Some (None, st)
        | inr (true, s) =>
            let* (dir_sector, st) := get_next_sector sector_shift sbi dir_sector st in
            find_dir fuel dname mangled_name vfat_init dir_sector s st
        end
    end.

(** What was in [long_name] before does not matter: a long name begins by clearing it.
    [src/core/fs/fat/fat.c:438-565 vfat_find_entry] *)
Definition vfat_find_entry (fuel : nat) (dname : list Z) (dir : inode fat_pvt) (st : St)
  : option (option (inode fat_pvt) * St) :=
  let slots := (Z.of_nat (length dname) + 12) / 13 in
  if 20 <? slots then Some (None, st)
  else
    let slots := Z.lor slots 0x40 in
    let s := Lfn slots 0 (replicate 260 0) (Z.to_nat (slots * 13)) false in
    let* (r, st) := find_dir fuel dname (mangle_dos_name dname) slots (start (pvt dir)) s st in
    Some (match r with Some de => Some (found_inode de) | None => None end, st).

(** ** Listing a directory *)

(** [codepage.uni] read as one table of 512 characters. *)
Definition uni_at (c : Z) : Z := if c <? 256 then uni0 c else uni1 (c - 256).

(** The first place of a character in the table.
    [src/core/fs/fat/fat.c:377-384 vfat_cvt_longname] *)
Fixpoint find_uni (fuel : nat) (c cp : Z) : option Z :=
  match fuel with
  | O => None
  | S fuel => if uni_at c =? cp then Some c else find_uni fuel (c + 1) cp
  end.

(** The characters before the NUL, converted; [unicache] remembers, for each low
    byte, the last character looked up.  [None]: one that is not in the code page.
    [src/core/fs/fat/fat.c:358-392 vfat_cvt_longname] *)
Fixpoint vfat_cvt_longname (long_name : list Z) (unicache : list (Z * Z)) : option (list Z) * list (Z * Z) :=
  match long_name with
  | [] => (None, unicache)
  | cp :: long_name =>
      let uc := default (0, 0) (unicache !! Z.to_nat (cp mod 256)) in
      match (if uc.1 =? cp then Some (uc.2, unicache)
             else match find_uni 512 0 cp with
                  | Some c => Some (u8 c, <[Z.to_nat (cp mod 256) := (cp, u8 c)]> unicache)
                  | None => None
                  end) with
      | None => (None, unicache)
      | Some (c, unicache) =>
          if cp =? 0 then (Some [], unicache)
          else
            let (r, unicache) := vfat_cvt_longname long_name unicache in
            (match r with Some r => Some (c :: r) | None => None end, unicache)
      end
  end.

(** A part of the short name, up to its first space.
    [src/core/fs/fat/fat.c:669-676 vfat_readdir] *)
Fixpoint short_part (name : list Z) (lcase : bool) : list Z :=
  match name with
  | [] => []
  | c :: name => if c =? 32 then [] else (if lcase then lower c else c) :: short_part name lcase
  end.

(** [src/core/fs/fat/fat.c:664-689 vfat_readdir] *)
Definition short_name (de : list Z) : list Z :=
  short_part (take 8 de) (negb (Z.land (de_lcase de) 8 =? 0)) ++
  (if negb (byte_at de 8 =? 32)
   then 46 :: short_part (take 3 (drop 8 de)) (negb (Z.land (de_lcase de) 16 =? 0)) else []).

(** The variables of the loop; [rd_file] is the name converted last, [None] when it
    could not be ([name_len] is -1). *)
Record rdlfn := Rdlfn {
  rd_next : Z; rd_csum : Z; rd_name : list Z; rd_file : option (list Z); rd_long : bool;
  rd_cache : list (Z * Z)
}.

Inductive read_result :=
| EndOfDir
| Got (name : option (list Z)) (s : rdlfn)
| Skip (s : rdlfn).

Definition invalid (s : rdlfn) : read_result :=
  Skip (Rdlfn (rd_next s) (rd_csum s) (rd_name s) (rd_file s) false (rd_cache s)).

(** The size of [dirent->d_name] is [NAME_MAX + 1]. *)
Definition d_name_size : nat := 256.

(** [src/core/fs/fat/fat.c:621-653 vfat_readdir] *)
Definition read_long (de : list Z) (s : rdlfn) : option read_result :=
  let id := le_id de in
  let initial := negb (Z.land id 0x40 =? 0) in
  let csum := if initial then le_checksum de else rd_csum s in
  let s := Rdlfn (rd_next s) csum (rd_name s) (rd_file s) (rd_long s) (rd_cache s) in
  if initial && (20 <=? Z.land id 0x3f) then Some (invalid s)
  else if negb initial && (negb (le_checksum de =? csum) || negb (id =? rd_next s)) then Some (invalid s)
  else
    let name := if initial then replicate 261 0 else rd_name s in
    let id := u8 ((if initial then Z.land id 0x3f else id) - 1) in
    if 261 <? id * 13 + 13 then None
    else
      let name := blit (Z.to_nat (id * 13)) (long_chunk de) name in
      let s := Rdlfn id csum name (rd_file s) (rd_long s) (rd_cache s) in
      if id =? 0 then
        let (r, cache) := vfat_cvt_longname name (rd_cache s) in
        let long := match r with
          | Some f => rd_long s || ((0 <? length f)%nat && (length f <? d_name_size)%nat)
          | None => rd_long s end in
        Some (Skip (Rdlfn id csum name r long cache))
      else Some (Skip s).

(** [src/core/fs/fat/fat.c:616-695 vfat_readdir] *)
Definition read_step (de : list Z) (s : rdlfn) : option read_result :=
  if byte_at de 0 =? 0 then Some EndOfDir
  else if byte_at de 0 =? 0xe5 then Some (invalid s)
  else if de_attr de =? 0x0f then read_long de s
  else if negb (Z.land (de_attr de) 0x08 =? 0) then Some (invalid s)
  else if rd_long s && (get_checksum (de_name de) =? rd_csum s) then Some (Got (rd_file s) s)
  else Some (Got (Some (short_name de)) s).

(** [None] for the name: nothing is stored.
    [src/com32/include/sys/dirent.h:15-21 struct dirent] *)
Record dirent := Dirent { d_ino : Z; d_off : Z; d_type : dirent_type; d_name : option (list Z) }.

Definition advance (f : file fat_pvt) : file fat_pvt := File (offset f ⊞ 32) (f_inode f).

(** The entries left in the sector that was read, then the next sector's.
    [src/core/fs/fat/fat.c:614-719 vfat_readdir] *)
Fixpoint readdir_loop (fuel entries_left : nat) (d : list Z) (s : rdlfn) (f : file fat_pvt) (st : St)
  : option (option dirent * list (Z * Z) * file fat_pvt * St) :=
  match fuel with
  | O => None
  | S fuel =>
      match entries_left with
      | O =>
          let* (sector, f, st) := next_sector sector_shift sbi f st in
          if sector =? 0 then Some (None, rd_cache s, f, st)
          else
            let* (d, st) := read_block sector st in
            readdir_loop fuel (Z.to_nat (Z.shiftl 1 (sector_shift - 5))) d s f st
      | S entries_left =>
          let de := take 32 d in
          let* r := read_step de s in
          match r with
          | EndOfDir => Some (None, rd_cache s, f, st)
          | Skip s => readdir_loop fuel entries_left (drop 32 d) s (advance f) st
          | Got name s =>
              let ino := u32 (Z.lor (de_first_cluster_low de) (Z.shiftl (de_first_cluster_high de) 16)) in
              Some (Some (Dirent ino (offset f) (get_inode_mode (de_attr de)) name), rd_cache s, advance f, st)
          end
      end
  end.

(** [None] for the entry is the end of the directory; the cache of the characters
    is a static variable.
    [src/core/fs/fat/fat.c:589-720 vfat_readdir] *)
Definition vfat_readdir (fuel : nat) (f : file fat_pvt) (unicache : list (Z * Z)) (st : St)
  : option (option dirent * list (Z * Z) * file fat_pvt * St) :=
  let* (sector, f, st) := get_the_right_sector sector_shift sbi f st in
  let sec_off := Z.land (offset f) (Z.shiftl 1 sector_shift - 1) in
  let* (d, st) := read_block sector st in
  let entries_left := Z.to_nat (Z.shiftr (Z.shiftl 1 sector_shift - sec_off) 5) in
  readdir_loop fuel entries_left (drop (Z.to_nat sec_off) d)
    (Rdlfn 0xff 0xff (replicate 261 0) None false unicache) f st.
End driver.
End codepage.

(** ** Directories as lists of files *)

(** The bytes of 16-bit characters. *)
Definition bytes_16 (c : Z) : list Z := [u8 c; u8 (c / 256)].
Definition chars (l : list Z) : list Z := concat (map bytes_16 l).

(** A long entry of thirteen characters. *)
Definition enc_long (id csum : Z) (chunk : list Z) : list Z :=
  id :: chars (take 5 chunk) ++ [0x0f; 0; csum] ++ chars (take 6 (drop 5 chunk)) ++ [0; 0] ++
  chars (drop 11 chunk).

Definition char_ok (c : Z) : Prop := 0 < c < 65536.

Definition slots (l : list Z) : nat := ((length l + 12) / 13)%nat.

(** The name, its NUL and the padding fill the slots. *)
Definition padded (l : list Z) : list Z := take (13 * slots l) (l ++ 0 :: replicate 12 0xffff).

Definition chunk_of (l : list Z) (k : nat) : list Z := take 13 (drop (13 * k) (padded l)).

(** The long entries, the last part of the name first. *)
Definition entry_of (csum : Z) (l : list Z) (j : nat) : list Z :=
  enc_long (if (S j =? slots l)%nat then Z.of_nat (S j) + 0x40 else Z.of_nat (S j)) csum (chunk_of l j).

Definition enc_name (csum : Z) (l : list Z) : list (list Z) :=
  map (entry_of csum l) (rev (seq 0 (slots l))).

(** A file: its long name, if it has one, and its short entry; anything else: an
    entry that was deleted, or a volume label. *)
Inductive item :=
| Named (long : option (list Z)) (short : list Z)
| Other (de : list Z).

Definition enc_item (i : item) : list (list Z) :=
  match i with
  | Named (Some l) de => enc_name (get_checksum (de_name de)) l ++ [de]
  | Named None de => [de]
  | Other de => [de]
  end.

Definition item_ok (i : item) : Prop :=
  match i with
  | Named long de =>
      match long with Some l => (1 <= length l <= 255)%nat /\ Forall char_ok l | None => True end /\
      length de = 32%nat /\ Forall is_byte de /\ byte_at de 0 <> 0 /\ de_attr de <> 0x0f /\ Z.land (de_attr de) 0x08 = 0
  | Other de =>
      length de = 32%nat /\ Forall is_byte de /\ byte_at de 0 <> 0 /\
      (byte_at de 0 = 0xe5 \/ (de_attr de <> 0x0f /\ Z.land (de_attr de) 0x08 <> 0))
  end.

Lemma bytes_16_char c : 0 <= c < 65536 -> u8 c + 256 * u8 (c / 256) = c.
Proof. intros; ulia. Qed.

Lemma enc_long_fields id csum chunk :
  length chunk = 13%nat -> Forall (fun c => 0 <= c < 65536) chunk ->
  let de := enc_long id csum chunk in
  length de = 32%nat /\ byte_at de 0 = id /\ le_id de = id /\ le_checksum de = csum /\ de_attr de = 0x0f /\
  long_chunk de = chunk.
Proof.
  intros Hl Hc; do 13 (destruct chunk as [|? chunk]; [discriminate|]); destruct chunk; [|discriminate].
  repeat match goal with H : Forall _ (_ :: _) |- _ => inversion_clear H end.
  split; [done|split; [done|split; [done|split; [done|split; [done|]]]]].
  unfold long_chunk, enc_long, get_16, byte_at; cbn; now rewrite !bytes_16_char by assumption.
Qed.

(** ** The padding of names *)

Lemma slots_bounds l : (length l <= 13 * slots l < length l + 13)%nat.
Proof. unfold slots; pose proof (Nat.div_mod (length l + 12) 13); pose proof (Nat.mod_upper_bound (length l + 12) 13); lia. Qed.

Lemma length_padded l : length (padded l) = (13 * slots l)%nat.
Proof. pose proof (slots_bounds l); unfold padded; rewrite length_take, length_app; cbn [length]; rewrite length_replicate; lia. Qed.

Lemma padded_chars l : Forall char_ok l -> Forall (fun c => 0 <= c < 65536) (padded l).
Proof.
  intros H; apply Forall_take, Forall_app; split; [|constructor; [lia|apply Forall_replicate; lia]].
  eapply Forall_impl; [exact H|]; unfold char_ok; cbn; lia.
Qed.

Lemma chunk_facts l k : Forall char_ok l -> (k < slots l)%nat ->
  length (chunk_of l k) = 13%nat /\ Forall (fun c => 0 <= c < 65536) (chunk_of l k).
Proof.
  intros H Hk; unfold chunk_of; split; [rewrite length_take, length_drop, length_padded; lia|].
  now apply Forall_take, Forall_drop, padded_chars.
Qed.

(** The padding after a name: NUL and 0xffff, as much as there is room for. *)
Lemma padded_split l : exists m, (13 * slots l = length l + m)%nat /\
  padded l = l ++ match m with O => [] | S m => 0 :: replicate m 0xffff end.
Proof.
  pose proof (slots_bounds l); exists (13 * slots l - length l)%nat; split; [lia|].
  unfold padded; rewrite take_app, take_ge by lia; f_equal.
  destruct (13 * slots l - length l)%nat eqn:E; [done|]; rewrite firstn_cons; f_equal.
  rewrite take_replicate; f_equal; lia.
Qed.

Lemma slot_bits n : (1 <= n <= 20)%nat ->
  Z.land (Z.of_nat n + 64) 64 <> 0 /\ Z.land (Z.of_nat n + 64) 63 = Z.of_nat n /\ Z.land (Z.of_nat n) 64 = 0 /\
  Z.lor (Z.of_nat n) 64 = Z.of_nat n + 64.
Proof. intros H; do 21 (destruct n as [|n]; [first [lia | vm_compute; intuition discriminate]|]); lia. Qed.

Section search.
Context (upper uni0 uni1 : Z -> Z).

(** No character of the code page, 0 apart, stands for 0. *)
Hypothesis uni_nul : uni0 0 = 0 /\ uni1 0 = 0.

(** ** Long names that match *)

(** Character by character, in one case or the other. *)
Fixpoint long_eq (dname l : list Z) : bool :=
  match dname, l with
  | [], [] => true
  | c :: dname, cp :: l => ((cp =? uni0 c) || (cp =? uni1 c)) && long_eq dname l
  | _, _ => false
  end.

Definition name_ok (dname : list Z) : Prop := Forall (fun c => 0 < c < 256) dname.

Lemma match_padding str m rest :
  name_ok str ->
  match match_chars uni0 uni1 str (match m with O => [] | S m => 0 :: replicate m 0xffff end ++ rest) m with
  | None => false
  | Some (str, mch, len) => (char_at str 0 =? 0) && forallb (fun c => c =? 0xffff) (take len mch)
  end = match str with [] => true | _ => false end.
Proof.
  intros Hs; assert (Hz : (char_at str 0 =? 0) = match str with [] => true | _ => false end).
  { destruct str as [|c str]; [done|]; inversion Hs; subst; unfold byte_at; cbn; apply Z.eqb_neq; lia. }
  destruct m; cbn [match_chars]; [rewrite take_0; cbn; now rewrite Hz, andb_true_r|].
  cbn; rewrite Hz; rewrite take_app_le by (rewrite length_replicate; lia).
  rewrite take_ge by (rewrite length_replicate; lia).
  replace (forallb (fun c => c =? 65535) (replicate m 65535)) with true; [now rewrite andb_true_r|].
  symmetry; induction m; cbn; auto.
Qed.

Lemma match_longname_spec dname l rest :
  name_ok dname -> Forall char_ok l ->
  vfat_match_longname uni0 uni1 dname (padded l ++ rest) (13 * slots l) = long_eq dname l.
Proof.
  intros Hd Hl; destruct (padded_split l) as (m & -> & ->); unfold vfat_match_longname.
  rewrite <- app_assoc; clear -uni_nul Hd Hl; revert dname Hd; induction Hl as [|cp l Hc Hl IH]; intros str Hd.
  - cbn [length app Nat.add]; rewrite match_padding by done; destruct str; done.
  - cbn [length app Nat.add match_chars]; change (char_at (cp :: _) 0) with cp; unfold char_ok in Hc.
    rewrite (proj2 (Z.eqb_neq cp 0)) by lia; destruct str as [|c str]; cbn [long_eq].
    + unfold byte_at; cbn; destruct uni_nul as [-> ->].
      rewrite (proj2 (Z.eqb_neq cp 0)) by lia; done.
    + change (char_at (c :: str) 0) with c; cbn [tail]; inversion Hd; subst.
      destruct (cp =? uni0 c), (cp =? uni1 c); cbn [negb andb orb]; auto.
Qed.

(** ** The long entries of a name, one after the other *)

(** The search over a list of entries. *)
Fixpoint find_entries (dname mangled_name : list Z) (vfat_init : Z) (entries : list (list Z)) (s : lfn)
  : option (list Z + (bool * lfn)) :=
  match entries with
  | [] => Some (inr (true, s))
  | de :: entries =>
      let* r := find_step uni0 uni1 dname mangled_name vfat_init de s in
      match r with
      | NotFound => Some (inr (false, s))
      | Found => Some (inl de)
      | Next s => find_entries dname mangled_name vfat_init entries s
      end
  end.

Lemma find_entries_app dname mangled init es1 es2 : forall s,
  find_entries dname mangled init (es1 ++ es2) s =
    match find_entries dname mangled init es1 s with
    | Some (inr (true, s)) => find_entries dname mangled init es2 s
    | r => r
    end.
Proof.
  induction es1 as [|de es1 IH]; intros s; cbn [app find_entries]; [done|].
  destruct (find_step _ _ _ _ _ _ _) as [[| |s']|]; auto.
Qed.

(** Between two files. *)
Definition clean (init : Z) (s : lfn) : Prop := vfat_next s = init /\ long_match s = false.

Context (dname mangled : list Z).
Notation dslots := (slots dname).
Notation init := (Z.of_nat dslots + 0x40).
Hypothesis dname_ok : name_ok dname.
Hypothesis dname_short : (length dname <= 260)%nat.

Lemma dslots_bound : (dslots <= 20)%nat.
Proof. unfold slots; apply (Nat.Div0.div_le_mono _ 272 13); lia. Qed.

(** A long entry of another name is passed over. *)
Lemma skip_entry de s :
  byte_at de 0 <> 0 -> de_attr de = 0x0f -> le_id de <> init -> clean init s ->
  exists s', find_step uni0 uni1 dname mangled init de s = Some (Next s') /\ clean init s'.
Proof.
  intros H0 Ha Hi [Hn Hm]; unfold find_step, long_entry.
  rewrite (proj2 (Z.eqb_neq _ _) H0), (proj2 (Z.eqb_eq _ _) Ha), Hn, (proj2 (Z.eqb_neq _ _) Hi).
  eexists; split; [reflexivity|done].
Qed.

(** What [long_name] holds when [j] entries of the name are still to come. *)
Definition name_buffer (l : list Z) (j : nat) : list Z :=
  replicate (13 * j) 0 ++ drop (13 * j) (padded l) ++ replicate (260 - 13 * slots l) 0.

Lemma name_buffer_start l : (slots l <= 20)%nat -> name_buffer l (slots l) = replicate 260 0.
Proof.
  intros H; unfold name_buffer; rewrite drop_ge by (rewrite length_padded; lia).
  cbn [app]; rewrite <- replicate_add; f_equal; lia.
Qed.

Lemma blit_middle (a b c bs : list Z) : length bs = length b -> blit (length a) bs (a ++ b ++ c) = a ++ bs ++ c.
Proof.
  intros H; apply list_eq; intros i; destruct (decide (i < length (a ++ b ++ c))%nat) as [Hi|Hi].
  - rewrite blit_lookup by done; rewrite !length_app in Hi; destruct (decide _) as [Hd|Hd].
    + rewrite lookup_app_r, lookup_app_l by lia; done.
    + destruct (decide (i < length a)%nat); [now rewrite !lookup_app_l by lia|].
      rewrite !(lookup_app_r a), !lookup_app_r by lia; f_equal; lia.
  - rewrite !lookup_ge_None_2; [done|rewrite !length_app in *; lia|rewrite length_blit; lia].
Qed.

Lemma name_buffer_step l j : (S j <= slots l)%nat ->
  blit (13 * j) (chunk_of l j) (name_buffer l (S j)) = name_buffer l j.
Proof.
  intros Hj; unfold name_buffer; replace (13 * S j)%nat with (13 * j + 13)%nat by lia.
  rewrite replicate_add, <- app_assoc, <- (length_replicate (13 * j) 0) at 1; pose proof (length_padded l).
  rewrite blit_middle by (unfold chunk_of; rewrite length_take, length_drop, length_replicate; lia).
  f_equal; rewrite app_assoc; f_equal; unfold chunk_of.
  rewrite <- drop_drop; apply take_drop.
Qed.

(** The last thing done for a long entry. *)
Definition chunk_result (csum : Z) (l : list Z) (j : nat) (r : entry_result) : Prop :=
  match j with
  | O => exists s, r = Next s /\
      (if long_eq dname l then long_match s = true /\ vfat_csum s = csum else clean init s)
  | S _ => r = Next (Lfn (Z.of_nat j) csum (name_buffer l j) (13 * slots l) false)
  end.

Lemma chunk_entry csum l j s :
  Forall char_ok l -> slots l = dslots -> (S j <= slots l)%nat ->
  (if (S j =? slots l)%nat then clean init s
   else s = Lfn (Z.of_nat (S j)) csum (name_buffer l (S j)) (13 * slots l) false) ->
  exists r, find_step uni0 uni1 dname mangled init (entry_of csum l j) s = Some r /\ chunk_result csum l j r.
Proof.
  intros Hl Hsl Hj Hs; pose proof dslots_bound as Hb; unfold entry_of.
  destruct (chunk_facts l j Hl ltac:(lia)) as [Hcl Hcc].
  set (id := if (S j =? slots l)%nat then Z.of_nat (S j) + 64 else Z.of_nat (S j)) in *.
  destruct (enc_long_fields id csum (chunk_of l j) Hcl Hcc) as (_ & H0 & Hid & Hcs & Ha & Hch).
  destruct (slot_bits (S j) ltac:(lia)) as (B1 & B2 & B3 & _).
  assert (Hidne : id <> 0) by (subst id; destruct (S j =? slots l)%nat; lia).
  unfold find_step, long_entry; rewrite H0, Ha, Hid, Hcs, Hch, (proj2 (Z.eqb_neq _ _) Hidne).
  change (15 =? 15) with true; cbn iota beta zeta.
  assert (Hstep : exists s0, vfat_next s = id /\ s0 = s) by
    (exists s; split; [|done]; subst id; destruct (S j =? slots l)%nat eqn:E;
      [apply Nat.eqb_eq in E; rewrite E, Hsl; apply Hs|rewrite Hs; done]).
  destruct Hstep as (_ & Hn & _); rewrite Hn, Z.eqb_refl; cbn [negb].
  assert (Hinit : negb (Z.land id 64 =? 0) = (S j =? slots l)%nat).
  { subst id; destruct (S j =? slots l)%nat; [now rewrite (proj2 (Z.eqb_neq _ _) B1)|now rewrite B3]. }
  rewrite Hinit.
  assert (Hc2 : negb (S j =? slots l)%nat && negb (csum =? vfat_csum s) = false).
  { destruct (S j =? slots l)%nat; [done|]; rewrite Hs; cbn; now rewrite Z.eqb_refl. }
  rewrite Hc2.
  assert (Hcsum : (if (S j =? slots l)%nat then csum else vfat_csum s) = csum)
    by (destruct (S j =? slots l)%nat; [done|now rewrite Hs]).
  assert (Hlen : (if (S j =? slots l)%nat then Z.to_nat (Z.land id 63 * 13) else long_len s) = (13 * slots l)%nat).
  { subst id; destruct (S j =? slots l)%nat eqn:E; [apply Nat.eqb_eq in E; rewrite B2; lia|now rewrite Hs]. }
  assert (Hname : (if (S j =? slots l)%nat then replicate 260 0 else long_name s) = name_buffer l (S j)).
  { destruct (S j =? slots l)%nat eqn:E; [apply Nat.eqb_eq in E; rewrite E, name_buffer_start by lia; done|now rewrite Hs]. }
  assert (Hid2 : u8 ((if (S j =? slots l)%nat then Z.land id 63 else id) - 1) = Z.of_nat j).
  { subst id; destruct (S j =? slots l)%nat; [rewrite B2|]; rewrite u8_small by lia; lia. }
  assert (Hm : long_match s = false) by (destruct (S j =? slots l)%nat; [apply Hs|now rewrite Hs]).
  rewrite Hcsum, Hlen, Hname, Hid2, Hm; rewrite (proj2 (Z.ltb_ge _ _)) by lia.
  replace (Z.to_nat (Z.of_nat j * 13)) with (13 * j)%nat by lia; rewrite name_buffer_step by lia.
  unfold chunk_result; destruct j as [|j].
  - cbn [Z.of_nat Z.eqb].
    assert (name_buffer l 0 = padded l ++ replicate (260 - 13 * slots l) 0) as -> by reflexivity.
    rewrite match_longname_spec by done.
    destruct (long_eq dname l); eexists; (split; [reflexivity|]); eexists; (split; [reflexivity|]); done.
  - rewrite (proj2 (Z.eqb_neq _ _)) by lia; eexists; split; done.
Qed.

(** After the long entries of a name: it matched, or the search is between files. *)
Definition after_name (csum : Z) (l : list Z) (s : lfn) : Prop :=
  if long_eq dname l then long_match s = true /\ vfat_csum s = csum else clean init s.

Lemma entries_from csum l j : forall s,
  Forall char_ok l -> slots l = dslots -> (S j <= slots l)%nat ->
  (if (S j =? slots l)%nat then clean init s
   else s = Lfn (Z.of_nat (S j)) csum (name_buffer l (S j)) (13 * slots l) false) ->
  exists s', find_entries dname mangled init (map (entry_of csum l) (rev (seq 0 (S j)))) s = Some (inr (true, s')) /\
    after_name csum l s'.
Proof.
  induction j as [|j IH]; intros s Hl Hsl Hj Hs;
    rewrite seq_S, rev_app_distr; cbn [rev app Nat.add map find_entries];
    destruct (chunk_entry csum l _ s Hl Hsl Hj Hs) as (r & -> & Hr); cbn [chunk_result] in Hr.
  - destruct Hr as (s' & -> & Hs'); exists s'; split; [done|exact Hs'].
  - subst r; apply IH; auto; [lia|]; rewrite (proj2 (Nat.eqb_neq _ _)) by lia; done.
Qed.

Lemma find_same_slots csum l s :
  Forall char_ok l -> (1 <= slots l)%nat -> slots l = dslots -> clean init s ->
  exists s', find_entries dname mangled init (enc_name csum l) s = Some (inr (true, s')) /\ after_name csum l s'.
Proof.
  intros Hl H1 Hsl Hs; unfold enc_name.
  assert (exists j, slots l = S j) as [j E] by (exists (slots l - 1)%nat; lia); rewrite E.
  apply entries_from; auto; rewrite E; [lia|]; now rewrite Nat.eqb_refl.
Qed.

Lemma find_other_slots csum l ks : forall s,
  Forall char_ok l -> (forall k, k ∈ ks -> (k < slots l)%nat) -> (slots l <= 20)%nat -> slots l <> dslots -> clean init s ->
  exists s', find_entries dname mangled init (map (entry_of csum l) ks) s = Some (inr (true, s')) /\ clean init s'.
Proof.
  induction ks as [|k ks IH]; intros s Hl Hk Hsl Hne Hs; cbn [map find_entries]; [eauto|].
  destruct (chunk_facts l k Hl (Hk k ltac:(left))) as [Hcl Hcc].
  specialize (Hk k ltac:(left)) as Hk0.
  set (id := if (S k =? slots l)%nat then Z.of_nat (S k) + 64 else Z.of_nat (S k)).
  destruct (enc_long_fields id csum (chunk_of l k) Hcl Hcc) as (_ & H0 & Hid & _ & Ha & _).
  destruct (skip_entry (entry_of csum l k) s) as (s' & -> & Hs'); auto.
  - unfold entry_of; fold id; rewrite H0; subst id; destruct (S k =? slots l)%nat; lia.
  - unfold entry_of; fold id; rewrite Hid; subst id; destruct (S k =? slots l)%nat eqn:E; [apply Nat.eqb_eq in E|]; lia.
  - apply IH; auto; intros; apply Hk; now right.
Qed.

Lemma long_eq_length d : forall l, long_eq d l = true -> length d = length l.
Proof. induction d as [|c d IH]; intros [|cp l]; cbn; try done; intros H; bools; auto. Qed.

Lemma find_name csum l s :
  Forall char_ok l -> (1 <= length l <= 255)%nat -> clean init s ->
  exists s', find_entries dname mangled init (enc_name csum l) s = Some (inr (true, s')) /\ after_name csum l s'.
Proof.
  intros Hl Hlen Hs; pose proof (slots_bounds l).
  destruct (decide (slots l = dslots)); [apply find_same_slots; auto; lia|].
  destruct (find_other_slots csum l (rev (seq 0 (slots l))) s) as (s' & E & Hs'); auto; [|unfold slots; apply (Nat.Div0.div_le_mono _ 272 13); lia|].
  - intros k Hk; apply list_elem_of_In, in_rev, in_seq in Hk; lia.
  - exists s'; split; [done|]; unfold after_name; destruct (long_eq dname l) eqn:E'; [|done].
    apply long_eq_length in E'; unfold slots in n; rewrite E' in n; done.
Qed.

(** ** The search of a directory of files *)

(** What the name asked for matches: the long name or the short one. *)
Definition item_matches (i : item) : bool :=
  match i with
  | Named long de =>
      match long with Some l => long_eq dname l | None => false end ||
      bool_decide (take 11 mangled = de_name de)
  | Other _ => false
  end.

Hypothesis mangled_ok : length mangled = 11%nat /\ byte_at mangled 0 <> 0xe5.

Lemma find_item i s :
  item_ok i -> clean init s ->
  match i with
  | Named _ de => if item_matches i then find_entries dname mangled init (enc_item i) s = Some (inl de)
      else exists s', find_entries dname mangled init (enc_item i) s = Some (inr (true, s')) /\ clean init s'
  | Other de => exists s', find_entries dname mangled init (enc_item i) s = Some (inr (true, s')) /\ clean init s'
  end.
Proof.
  assert (Hshort : forall de s, byte_at de 0 <> 0 -> de_attr de <> 0x0f -> Z.land (de_attr de) 8 = 0 -> clean init s ->
    if bool_decide (take 11 mangled = de_name de) then find_entries dname mangled init [de] s = Some (inl de)
    else exists s', find_entries dname mangled init [de] s = Some (inr (true, s')) /\ clean init s').
  { intros de s0 H0 Ha H8 [Hn Hm]; cbn [find_entries]; unfold find_step.
    rewrite (proj2 (Z.eqb_neq _ _) H0), (proj2 (Z.eqb_neq _ _) Ha), H8, Hm; cbn.
    destruct (bool_decide _); [done|eexists; split; [reflexivity|done]]. }
  destruct i as [long de|de]; cbn [item_ok enc_item item_matches].
  - intros (Hlong & _ & _ & H0 & Ha & H8) Hs; destruct long as [l|].
    + destruct Hlong as [Hlen Hl].
      destruct (find_name (get_checksum (de_name de)) l s Hl Hlen Hs) as (s1 & E & Hs1).
      rewrite find_entries_app, E; unfold after_name in Hs1; destruct (long_eq dname l); cbn [orb].
      * destruct Hs1 as [Hm Hc]; cbn [find_entries]; unfold find_step.
        rewrite (proj2 (Z.eqb_neq _ _) H0), (proj2 (Z.eqb_neq _ _) Ha), H8, Hm, Hc, !Z.eqb_refl; reflexivity.
      * apply Hshort; auto.
    + cbn [orb]; apply Hshort; auto.
  - intros (_ & _ & H0 & Hd) [Hn Hm]; cbn [find_entries]; unfold find_step, long_entry.
    rewrite (proj2 (Z.eqb_neq _ _) H0).
    assert (Hnm : exists s', (match Some (not_match init s) with Some r => match r with
      | NotFound => Some (inr (false, s)) | Found => Some (inl de) | Next s => Some (inr (true, s)) end
      | None => None end) = Some (inr (true, s')) /\ clean init s') by (eexists; split; [reflexivity|done]).
    destruct (de_attr de =? 15) eqn:Ea; bools.
    + destruct Hd as [He|[Hne _]]; [|done]; unfold le_id; rewrite He, Hn.
      rewrite (proj2 (Z.eqb_neq 229 init)); [exact Hnm|].
      pose proof dslots_bound; lia.
    + destruct (Z.land (de_attr de) 8 =? 0) eqn:E8; bools; cbn [negb]; [|exact Hnm].
      destruct Hd as [He|[_ ?]]; [|done]; rewrite Hm.
      rewrite bool_decide_eq_false_2; [exact Hnm|].
      intros E; apply mangled_ok; rewrite <- He; unfold de_name in E; rewrite take_ge in E by lia.
      rewrite E; unfold byte_at; destruct de; done.
Qed.

(** The short entry of the first file that matches. *)
Fixpoint lookup_name (items : list item) : option (list Z) :=
  match items with
  | [] => None
  | i :: items =>
      match i with
      | Named _ de => if item_matches i then Some de else lookup_name items
      | Other _ => lookup_name items
      end
  end.

(** The end of a directory: an entry never used, or nothing. *)
Definition dir_end (rest : list (list Z)) : Prop :=
  match rest with [] => True | de :: _ => byte_at de 0 = 0 end.

Lemma find_items items rest : forall s,
  Forall item_ok items -> dir_end rest -> clean init s ->
  match lookup_name items with
  | Some de => find_entries dname mangled init (concat (map enc_item items) ++ rest) s = Some (inl de)
  | None => exists b s', find_entries dname mangled init (concat (map enc_item items) ++ rest) s = Some (inr (b, s'))
  end.
Proof.
  induction items as [|i items IH]; intros s Hok Hr Hs; cbn [lookup_name map concat].
  - destruct rest as [|de rest]; cbn [app find_entries]; [eauto|].
    cbn in Hr; unfold find_step; rewrite Hr; cbn; eauto.
  - inversion Hok as [|? ? Hi Hok']; subst; rewrite <- app_assoc, find_entries_app.
    pose proof (find_item i s Hi Hs) as F; destruct i as [long de|de].
    + destruct (item_matches _); [now rewrite F|]; destruct F as (s' & -> & Hs'); now apply IH.
    + destruct F as (s' & -> & Hs'); now apply IH.
Qed.
End search.

Lemma dos_copy_facts upper src : forall buf,
  (length buf <= 11)%nat -> byte_at buf 0 <> 0xe5 ->
  (length (dos_copy upper src buf) <= 11)%nat /\ byte_at (dos_copy upper src buf) 0 <> 0xe5.
Proof.
  induction src as [|c src IH]; intros buf Hl Hb; cbn [dos_copy];
    destruct (length buf <? 11)%nat eqn:E; auto; apply Nat.ltb_lt in E.
  destruct (_ || _); auto; destruct (c =? 46).
  - apply IH; [rewrite length_take, length_app, length_replicate; lia|].
    destruct buf as [|b buf]; [done|exact Hb].
  - apply IH; [rewrite length_app; cbn; lia|]; destruct buf as [|b buf]; [|exact Hb].
    unfold byte_at; cbn; destruct (upper c =? 229) eqn:Eu; bools; cbn; [done|exact Eu].
Qed.

Lemma mangle_dos_facts upper src :
  name_ok src -> length (mangle_dos_name upper src) = 11%nat /\ byte_at (mangle_dos_name upper src) 0 <> 0xe5.
Proof.
  intros Hn; unfold mangle_dos_name.
  assert (Hb : forall buf, (length buf <= 11)%nat -> byte_at buf 0 <> 0xe5 ->
    length (buf ++ replicate (11 - length buf) 32) = 11%nat /\ byte_at (buf ++ replicate (11 - length buf) 32) 0 <> 0xe5).
  { intros [|b buf] Hl Hb; (split; [rewrite length_app, length_replicate; cbn in *; lia|exact Hb || done]). }
  destruct (_ && _) eqn:E; [|apply Hb; apply dos_copy_facts; cbn; (lia || done)].
  destruct src as [|a [|b [|c src]]]; [done|apply Hb; [cbn; lia|bools; unfold byte_at in *; cbn in *; lia]..|].
  exfalso; inversion_clear Hn as [|? ? Ha Hn']; inversion_clear Hn' as [|? ? Hb' Hn]; inversion_clear Hn.
  unfold byte_at in E; cbn in E; bools; lia.
Qed.

(** ** The sectors of a directory *)

Section directory.
Context {St : Type} {reader : BlockReader St}.
Context (disk : Z -> list Z) (bound : Z) {laws : BlockReaderLaws St disk bound}.
Context (sector_shift : Z) (sbi : fat_sb_info).
Notation secs := (2 ^ clust_shift sbi).
Hypothesis V : volume_ok disk bound sector_shift sbi.
Hypothesis mask_ok : clust_mask sbi = secs - 1.

Notation fat_entry := (fat_entry disk sector_shift sbi).

(** The sector after a sector of a directory: in the area of the root directory, in
    the cluster, or in the next cluster; 0 at the end. *)
Definition next_of (s : Z) : Z :=
  if s <? data sbi then (if data sbi <=? s + 1 then 0 else s + 1)
  else if negb ((s - data sbi + 1) mod secs =? 0) then s + 1
  else
    let e := fat_entry ((s - data sbi) / secs + 2) in
    if (2 <=? e) && (e <? clusters sbi + 2) then data sbi + (e - 2) * secs else 0.

Lemma fat_entry_range c : 0 <= fat_entry c < 268435456.
Proof.
  unfold Fat.fat_entry; pose proof (fat_byte_range disk bound sector_shift sbi V) as B.
  destruct (fat_type sbi); [|pose proof (B (2 * c)); pose proof (B (2 * c + 1)); lia|apply Z.mod_pos_bound; lia].
  cbn zeta; pose proof (B (3 * (c / 2))); pose proof (B (3 * (c / 2) + 1)); pose proof (B (3 * (c / 2) + 2)).
  destruct (Z.even c); Z.to_euclidean_division_equations; lia.
Qed.

Lemma get_next_sector_spec s st :
  reader_ok st -> 0 <= s < data sbi + clusters sbi * secs ->
  exists st', get_next_sector sector_shift sbi s st = Some (next_of s, st') /\ reader_ok st'.
Proof.
  intros Hst Hs; pose proof (v_data _ _ _ _ V); pose proof (secs_range disk bound sector_shift sbi V).
  pose proof (v_clust _ _ _ _ V); pose proof (v_clusters _ _ _ _ V).
  unfold get_next_sector, next_of; rewrite (u32_small s) by lia.
  destruct (s <? data sbi) eqn:E; bools; [rewrite u32_small by lia; destruct (_ <=? _); eauto|].
  rewrite mask_ok; replace (secs - 1) with (Z.ones (clust_shift sbi)) by (rewrite Z.ones_equiv; lia).
  rewrite Z.land_ones by lia; destruct (_ =? 0) eqn:Em; bools; cbn [negb]; [|rewrite u32_small by lia; eauto].
  rewrite Z.shiftr_div_pow2 by lia.
  assert (Hq : 0 <= (s - data sbi) / secs < clusters sbi)
    by (split; [apply Z.div_pos; lia|apply Z.div_lt_upper_bound; lia]).
  rewrite (u32_small ((s - data sbi) / secs)), (u32_small ((s - data sbi) / secs + 2)) by lia.
  destruct (get_next_cluster_spec disk bound sector_shift sbi V ((s - data sbi) / secs + 2) st Hst)
    as (st' & -> & Hst'); [lia|].
  exists st'; split; [|done]; pose proof (fat_entry_range ((s - data sbi) / secs + 2)) as He.
  set (e := fat_entry _) in *; destruct (Z_lt_ge_dec e 2) as [Hlt|Hge].
  - rewrite (proj2 (Z.leb_gt 2 e)) by lia; rewrite (proj2 (Z.leb_le _ _)) by ulia; done.
  - rewrite (u32_small (e - 2)), (proj2 (Z.leb_le 2 e)) by lia; cbn [andb].
    destruct (Z.leb_spec (clusters sbi) (e - 2)); destruct (Z.ltb_spec e (clusters sbi + 2)); try lia; [done|].
    rewrite Z.shiftl_mul_pow2 by lia.
    assert (0 <= (e - 2) * secs <= clusters sbi * secs)
      by (split; [apply Z.mul_nonneg_nonneg; lia|apply Z.mul_le_mono_nonneg_r; lia]).
    rewrite (u32_small ((e - 2) * secs)), u32_small by lia; do 2 f_equal; lia.
Qed.

(** The sectors of the directory that begins at a sector. *)
Inductive dir_chain : Z -> list Z -> Prop :=
| dir_nil : dir_chain 0 []
| dir_cons s l : 0 < s < data sbi + clusters sbi * secs -> s < bound ->
    dir_chain (next_of s) l -> dir_chain s (s :: l).

Fixpoint slices (n : nat) (d : list Z) : list (list Z) :=
  match n with O => [] | S n => take 32 d :: slices n (drop 32 d) end.

Definition sector_entries (s : Z) : list (list Z) := slices (Z.to_nat (2 ^ (sector_shift - 5))) (disk s).
Definition dir_entries (l : list Z) : list (list Z) := concat (map sector_entries l).

Lemma find_sector_slices uni0 uni1 dname mangled init n : forall d s,
  find_sector uni0 uni1 dname mangled init n d s = find_entries uni0 uni1 dname mangled init (slices n d) s.
Proof.
  induction n as [|n IH]; intros d s; cbn [find_sector slices find_entries]; [done|].
  destruct (find_step _ _ _ _ _ _ _) as [[| |s']|]; auto.
Qed.

Lemma find_dir_spec uni0 uni1 dname mangled init sec l :
  dir_chain sec l -> forall fuel s st r, (length l <= fuel)%nat -> reader_ok st ->
  find_entries uni0 uni1 dname mangled init (dir_entries l) s = Some r ->
  exists st', find_dir uni0 uni1 sector_shift sbi fuel dname mangled init sec s st =
      Some (match r with inl de => Some de | inr _ => None end, st') /\ reader_ok st'.
Proof.
  induction 1 as [|sec l Hsec Hb Hl IH]; intros fuel s st r Hf Hst Hr.
  - exists st; split; [|done]; cbn in Hr; injection Hr as <-; now destruct fuel.
  - destruct fuel as [|fuel]; [cbn in Hf; lia|]; cbn [find_dir].
    rewrite (proj2 (Z.eqb_neq sec 0)) by lia.
    destruct (read_block_ok st sec Hst ltac:(lia)) as (st1 & -> & Hst1).
    cbn [dir_entries map concat] in Hr; unfold dir_entries in Hr; cbn [map concat] in Hr.
    rewrite find_entries_app in Hr; pose proof (v_shift _ _ _ _ V) as Hsh.
    rewrite find_sector_slices, Z.shiftl_1_l; fold (sector_entries sec).
    destruct (find_entries _ _ _ _ _ (sector_entries sec) s) as [[de|[[] s']]|] eqn:E; try discriminate.
    + injection Hr as <-; eauto.
    + destruct (get_next_sector_spec sec st1 Hst1 ltac:(lia)) as (st2 & -> & Hst2).
      apply IH; auto; cbn in Hf; lia.
    + injection Hr as <-; eauto.
Qed.

(** The search of a directory. *)
Lemma find_entry_step upper uni0 uni1 dname dir l items rest fuel st :
  uni0 0 = 0 /\ uni1 0 = 0 -> name_ok dname -> (length dname <= 260)%nat ->
  dir_chain (start (pvt dir)) l -> dir_entries l = concat (map enc_item items) ++ rest ->
  Forall item_ok items -> dir_end rest -> (length l <= fuel)%nat -> reader_ok st ->
  exists st', vfat_find_entry upper uni0 uni1 sector_shift sbi fuel dname dir st =
      Some (found_inode sector_shift sbi <$> lookup_name uni0 uni1 dname (mangle_dos_name upper dname) items, st') /\
    reader_ok st'.
Proof.
  intros Hu Hn Hlen Hl He Hi Hr Hf Hst; unfold vfat_find_entry.
  assert (Hs : (Z.of_nat (length dname) + 12) / 13 = Z.of_nat (slots dname))
    by (unfold slots; rewrite Nat2Z.inj_div; f_equal; lia).
  pose proof (dslots_bound dname Hlen) as Hb.
  rewrite Hs, (proj2 (Z.ltb_ge _ _)) by lia.
  assert (Z.lor (Z.of_nat (slots dname)) 64 = Z.of_nat (slots dname) + 64) as ->
    by (destruct (slots dname); [done|now destruct (slot_bits (S n) ltac:(lia)) as (_ & _ & _ & ->)]).
  pose proof (find_items uni0 uni1 Hu dname (mangle_dos_name upper dname) Hn Hlen (mangle_dos_facts upper dname Hn)
    items rest (Lfn (Z.of_nat (slots dname) + 64) 0 (replicate 260 0)
      (Z.to_nat ((Z.of_nat (slots dname) + 64) * 13)) false) Hi Hr ltac:(done)) as F.
  rewrite <- He in F; destruct (lookup_name _ _ _ _ _) as [de|]; [|destruct F as (b & s' & F)];
    destruct (find_dir_spec _ _ _ _ _ _ _ Hl fuel _ st _ Hf Hst F) as (st' & -> & Hst'); eauto.
Qed.

(** C11: looking a name up in a directory gives the inode of the first file whose
    long name, without regard to case, or whose short name is the name: through the
    sectors of the directory, across the long entries of each file, past deleted
    entries and volume labels, to the end; and no inode if no file has the name. *)
Theorem find_entry_correct upper uni0 uni1 dname dir l items rest fuel st :
  uni0 0 = 0 /\ uni1 0 = 0 -> name_ok dname -> (length dname <= 260)%nat ->
  dir_chain (start (pvt dir)) l -> dir_entries l = concat (map enc_item items) ++ rest ->
  Forall item_ok items -> dir_end rest -> (length l <= fuel)%nat -> reader_ok st ->
  exists st', vfat_find_entry upper uni0 uni1 sector_shift sbi fuel dname dir st =
      Some (found_inode sector_shift sbi <$> lookup_name uni0 uni1 dname (mangle_dos_name upper dname) items, st') /\
    reader_ok st'.
Proof. apply find_entry_step. Qed.
End directory.

(** ** A small directory *)

(** Sectors of 64 bytes; the root directory in the sectors 2 and 3: a label, a file
    with a long name, whose last entry is in the second sector, and a short one. *)
Definition string_bytes (s : string) : list Z := map (fun b => Z.of_N (Byte.to_N b)) (String.list_byte_of_string s).
Definition short_entry (name : string) (attr clust size : Z) : list Z :=
  string_bytes name ++ [attr] ++ replicate 14 0 ++ [u8 clust; 0; size; 0; 0; 0].
Definition small_items : list item :=
  [Other (short_entry "SYSLINUX   " 8 0 0);
   Named (Some (string_bytes "Read me.txt")) (short_entry "README~1TXT" 32 3 70);
   Named None (short_entry "B       TXT" 32 0 0)].
Definition small_dir_disk (s : Z) : list Z :=
  let d := concat (concat (map enc_item small_items)) in
  if s =? 2 then take 64 d else if s =? 3 then drop 64 d else replicate 64 (if s =? 0 then 65 else 0).
Definition small_dir_rdwr (old : list Z) (lba n : Z) : list Z := concat (map small_dir_disk (seqZ lba n)).
Definition small_dir_sb : fat_sb_info := Sb 1 2 4 4 0 2 0 6 0 64 FAT12 0.
Definition small_dir_dev : device := cache_init (Dev false (replicate 300 0) false 0 0 300 []) 6.
Definition ascii_upper (c : Z) : Z := if (97 <=? c) && (c <=? 122) then c - 32 else c.
Definition ascii_lower (c : Z) : Z := if (65 <=? c) && (c <=? 90) then c + 32 else c.
Definition ascii_uni0 (c : Z) : Z := c.
Definition ascii_uni1 (c : Z) : Z := if (97 <=? c) && (c <=? 122) then c - 32 else ascii_lower c.

Lemma small_dir_volume : volume_ok small_dir_disk 281474976710656 6 small_dir_sb.
Proof.
  split; cbn; try lia; [|vm_compute; intuition discriminate].
  intros s; unfold small_dir_disk; destruct (s =? 2); [|destruct (s =? 3); [|destruct (s =? 0)]];
    (split; [reflexivity|apply bytes_ok; reflexivity]).
Qed.

Lemma small_dir_reader : BlockReaderLaws device (H := stack_reader small_dir_rdwr 6) small_dir_disk 281474976710656.
Proof.
  apply (sector_reader_laws 64); [lia| |reflexivity].
  intros s; apply (v_disk _ _ _ _ small_dir_volume).
Defined.

Lemma small_dir_dev_ok : reader_ok (BlockReaderLaws := small_dir_reader) small_dir_dev.
Proof.
  exists (seq 1 (Z.to_nat ((300 - sizeof_cache) / (2 ^ 6 + sizeof_cache)))); split; [|split; [discriminate|reflexivity]].
  apply (cache_init_step 64 small_dir_disk) with (shift := 6) (dev := Dev false (replicate 300 0) false 0 0 300 []);
    cbn; unfold is_u32, sizeof_cache; try lia; try done.
Qed.

Lemma find_entry_correct_witness :
  exists st', @vfat_find_entry ascii_upper ascii_uni0 ascii_uni1 _ (stack_reader small_dir_rdwr 6) 6 small_dir_sb
      2 (string_bytes "READ Me.TXT") (vfat_iget_root 6 small_dir_sb) small_dir_dev =
    Some (Some (Inode DT_REG 70 (Extent 0 0 0) (Extent 0 0 0) (Pvt 3 5 0 5)), st').
Proof.
  destruct (@find_entry_correct _ _ small_dir_disk _ small_dir_reader 6 small_dir_sb small_dir_volume ltac:(reflexivity)
    ascii_upper ascii_uni0 ascii_uni1 (string_bytes "READ Me.TXT") (vfat_iget_root 6 small_dir_sb)
    [2; 3] small_items [] 2%nat small_dir_dev) as (st' & H & _).
  - done.
  - repeat constructor; lia.
  - cbn; lia.
  - repeat (constructor; [cbn; lia|cbn; lia|]); constructor.
  - reflexivity.
  - repeat (apply Forall_cons; split); [| | |constructor]; cbn [item_ok small_items].
    + split; [done|split; [now apply bytes_ok|split; [done|now right]]].
    + split; [split; [cbn; lia|repeat constructor; done]|split; [done|split; [now apply bytes_ok|done]]].
    + split; [done|split; [done|split; [now apply bytes_ok|done]]].
  - exact Logic.I.
  - cbn; lia.
  - exact small_dir_dev_ok.
  - exists st'; exact (eq_trans H eq_refl).
Defined.

(** The directory has been read to its end, and its sectors are full: the listing
    goes on with an entry made of the boot sector, which is sector 0. *)
Example listing_boot_sector :
  option_map (fun r => let '(e, _, _, _) := r in d_name <$> e)
    (@vfat_readdir ascii_lower ascii_uni0 ascii_uni1 _ (stack_reader small_dir_rdwr 6) 6 small_dir_sb
      5 (Getfssec.File 128 (vfat_iget_root 6 small_dir_sb)) (replicate 256 (0, 0)) small_dir_dev) =
  Some (Some (Some (string_bytes "AAAAAAAA.AAA"))).
Proof. vm_compute; reflexivity. Qed.

(** The listing of the directory before that. *)
Example listing_files :
  map (fun off => option_map (fun r => let '(e, _, _, _) := r in d_name <$> e)
    (@vfat_readdir ascii_lower ascii_uni0 ascii_uni1 _ (stack_reader small_dir_rdwr 6) 6 small_dir_sb
      5 (Getfssec.File off (vfat_iget_root 6 small_dir_sb)) (replicate 256 (0, 0)) small_dir_dev)) [0; 96] =
  [Some (Some (Some (string_bytes "Read me.txt"))); Some (Some (Some (string_bytes "B.TXT")))].
Proof. vm_compute; reflexivity. Qed.

(** A long entry whose number is 0 is copied to 255 * 13. *)
Example listing_overrun garbage s :
  rd_next s = 0 -> rd_csum s = 0 ->
  read_long garbage garbage (0 :: replicate 10 1 ++ [15; 0; 0] ++ replicate 18 1) s = None.
Proof. intros Hn Hc; unfold read_long; cbn -[Z.mul]; rewrite Hn, Hc; reflexivity. Qed.

(** Backslashes reach the file system as they are. *)
Example backslash_kept :
  take 4 (vfat_mangle_name (string_bytes "a\b")) = string_bytes "a\b" ++ [0] /\
  take 4 (vfat_mangle_name (string_bytes "a\\b")) = string_bytes "a\b" ++ [0].
Proof. split; vm_compute; reflexivity. Qed.

(** Nothing keeps a name within the 256 bytes of the destination. *)
Example mangle_overrun :
  length (vfat_mangle_name (replicate 300 97)) = 300%nat /\ length (generic_mangle_name (replicate 300 97)) = 300%nat.
Proof. split; vm_compute; reflexivity. Qed.
