(* ===== verification/FatInit.v ===== *)
(** * The set-up of the FAT driver: core/fs/fat/fat.c

    The layout of the volume as the boot sector describes it: what the driver makes
    of it is a sound superblock, and the one the installers' reader, in libfat,
    arrives at. *)

From S2P Require Import Prelude Libfat Getfssec Fat.

Open Scope word_scope.

(** ** Setting the driver up *)

(** The fields of the boot sector.
    [src/core/fs/fat/fat_fs.h:35-81 struct fat_bpb] *)
Definition bxSecPerClust (b : list Z) : Z := byte_at b 13.
Definition bxResSectors (b : list Z) : Z := get_16 b 14.
Definition bxFATs (b : list Z) : Z := byte_at b 16.
Definition bxRootDirEnts (b : list Z) : Z := get_16 b 17.
Definition bxSectors (b : list Z) : Z := get_16 b 19.
Definition bxFATsecs (b : list Z) : Z := get_16 b 22.
Definition bsHugeSectors (b : list Z) : Z := get_32 b 32.
Definition bxFATsecs_32 (b : list Z) : Z := get_32 b 36.
Definition extended_flags (b : list Z) : Z := get_16 b 40.
Definition bpb_root_cluster (b : list Z) : Z := get_32 b 44.
Definition num_serial_32 (b : list Z) : Z := get_32 b 67.
Definition num_serial_16 (b : list Z) : Z := get_32 b 39.

(** [src/core/fs/fat/fat_fs.h:142-146 root_dir_size] *)
Definition root_dir_size (sector_shift : Z) (b : list Z) : Z :=
  Z.shiftr (bxRootDirEnts b + Z.shiftl 1 sector_shift / 32 - 1) (sector_shift - 5).

(** [Some None] is the answer -1; [None], the logarithm of 0.  [garbage] is what the
    allocated superblock holds: its [root_cluster] is not set.  The cache is
    initialised besides.
    [src/core/fs/fat/fat.c:723-791 vfat_fs_init] *)
Definition vfat_fs_init (sector_shift : Z) (b : list Z) (garbage : Z)
  : option (option fat_sb_info) :=
  if (bxResSectors b =? 0) || (bxFATs b =? 0) then Some None
  else if bxSecPerClust b =? 0 then None
  else
    let sectors_per_fat := s32 (if negb (bxFATsecs b =? 0) then bxFATsecs b else bxFATsecs_32 b) in
    let total_sectors := if negb (bxSectors b =? 0) then bxSectors b else bsHugeSectors b in
    let fat := bxResSectors b in
    let root := u64 (fat + s32 (sectors_per_fat * bxFATs b)) in
    let root_size := root_dir_size sector_shift b in
    let data := u64 (root + root_size) in
    let clust_shift := Z.log2 (bxSecPerClust b) in
    let mk fat root clusters t uuid :=
      Sb fat root data clusters garbage root_size clust_shift (clust_shift + sector_shift)
        (bxSecPerClust b - 1) (s32 (Z.shiftl (bxSecPerClust b) sector_shift)) t uuid in
    let clusters := u32 (Z.shiftr (u64 (total_sectors - data)) clust_shift) in
    Some (Some
      (if clusters <=? 0xff4 then mk fat root clusters FAT12 (num_serial_16 b)
       else if clusters <=? 0xfff4 then mk fat root clusters FAT16 (num_serial_16 b)
       else
         let clusters := if 0x0ffffff4 <? clusters then 0x0ffffff4 else clusters in
         let fat :=
           if negb (Z.land (extended_flags b) 0x80 =? 0)
           then u64 (fat + s32 (Z.land (extended_flags b) 0x0f * sectors_per_fat)) else fat in
         let root := u64 (data + u32 (Z.shiftl (bpb_root_cluster b ⊟ 2) clust_shift)) in
         mk fat root clusters FAT32 (num_serial_32 b))).

(** The fields from the sector size to the end of the FAT16 part, copied into the
    caller's buffer.
    [src/core/fs/fat/fat.c:793-819 vfat_copy_superblock] *)
Definition vfat_copy_superblock (b buf : list Z) : option (list Z) :=
  if (bxResSectors b =? 0) || (bxFATs b =? 0) then None
  else Some (blit 11 (slice 11 (62 - 11) b) buf).

(** ** The layout *)

Definition fat_secs (b : list Z) : Z := if negb (bxFATsecs b =? 0) then bxFATsecs b else bxFATsecs_32 b.
Definition total_secs (b : list Z) : Z := if negb (bxSectors b =? 0) then bxSectors b else bsHugeSectors b.
Definition root_sector (b : list Z) : Z := bxResSectors b + fat_secs b * bxFATs b.
Definition data_sector (shift : Z) (b : list Z) : Z := root_sector b + root_dir_size shift b.
Definition cluster_count (shift k : Z) (b : list Z) : Z := (total_secs b - data_sector shift b) / 2 ^ k.

(** The sector of the table in use: the copies are not the same if the flag is set. *)
Definition fat_start (b : list Z) : Z :=
  bxResSectors b +
  (if Z.land (extended_flags b) 0x80 =? 0 then 0 else Z.land (extended_flags b) 0x0f * fat_secs b).

(** A boot sector whose areas follow one another, of clusters of 2 ^ k sectors. *)
Record bpb_ok (shift k : Z) (b : list Z) : Prop := {
  bpb_shift : 5 <= shift < 16;
  bpb_bytes : Forall is_byte b;
  bpb_res : bxResSectors b <> 0;
  bpb_fats : bxFATs b <> 0;
  bpb_clust : bxSecPerClust b = 2 ^ k /\ 0 <= k;
  bpb_tables : fat_secs b * bxFATs b < 2147483648;
  bpb_active : Z.land (extended_flags b) 0x80 = 0 \/ Z.land (extended_flags b) 0x0f < bxFATs b;
  bpb_total : data_sector shift b <= total_secs b
}.

Section layout.
Context (shift k : Z) (b : list Z) (garbage : Z).
Hypothesis B : bpb_ok shift k b.

Lemma bpb_ranges :
  0 < bxResSectors b < 65536 /\ 0 < bxFATs b < 256 /\ 0 <= fat_secs b < 2147483648 /\
  0 <= fat_secs b * bxFATs b /\ 0 <= total_secs b < 4294967296 /\ 0 <= root_dir_size shift b < 131072 /\ 0 <= k <= 7.
Proof.
  destruct B as [Hs Hb Hr Hf [Hc Hk] Ht _ _]; unfold bxResSectors, bxFATs in *.
  pose proof (get_16_range b 14 Hb); pose proof (byte_range b 16 Hb).
  assert (0 <= fat_secs b).
  { unfold fat_secs, bxFATsecs, bxFATsecs_32; pose proof (get_16_range b 22 Hb); pose proof (get_32_range b 36 Hb).
    case_match; lia. }
  assert (0 <= total_secs b < 4294967296).
  { unfold total_secs, bxSectors, bsHugeSectors; pose proof (get_16_range b 19 Hb); pose proof (get_32_range b 32 Hb).
    case_match; lia. }
  assert (0 <= root_dir_size shift b < 131072).
  { unfold root_dir_size, bxRootDirEnts; pose proof (get_16_range b 17 Hb).
    rewrite Z.shiftr_div_pow2, Z.shiftl_1_l by lia.
    assert (2 ^ shift = 32 * 2 ^ (shift - 5)) as -> by (change 32 with (2 ^ 5); rewrite <- Z.pow_add_r by lia; f_equal; lia).
    assert (0 < 2 ^ (shift - 5)) by (apply Z.pow_pos_nonneg; lia); rewrite (Z.mul_comm 32), Z.div_mul by lia.
    split; [apply Z.div_pos; lia|apply Z.div_lt_upper_bound; nia]. }
  assert (k <= 7).
  { unfold bxSecPerClust in Hc; pose proof (byte_range b 13 Hb); destruct (Z_le_gt_dec k 7); [done|].
    pose proof (Z.pow_le_mono_r 2 8 k); lia. }
  repeat split; try lia; nia.
Qed.

Lemma cluster_count_range : 0 <= cluster_count shift k b /\
  data_sector shift b + cluster_count shift k b * 2 ^ k <= total_secs b /\ cluster_count shift k b < 4294967296.
Proof.
  pose proof bpb_ranges; pose proof (bpb_total _ _ _ B).
  assert (0 < 2 ^ k) by (apply Z.pow_pos_nonneg; lia).
  unfold cluster_count; set (n := total_secs b - data_sector shift b) in *.
  assert (0 <= data_sector shift b) by (unfold data_sector, root_sector; lia).
  pose proof (Z.mul_div_le n (2 ^ k)); assert (0 <= n / 2 ^ k) by (apply Z.div_pos; lia).
  assert (n / 2 ^ k <= n) by (apply Z.div_le_upper_bound; nia); lia.
Qed.

Definition fat_kind (n : Z) : Fat.fat_type_t :=
  if n <=? 0xff4 then FAT12 else if n <=? 0xfff4 then FAT16 else FAT32.

(** What the set-up computes, in numbers that do not wrap. *)
Lemma fs_init_layout :
  exists sbi, vfat_fs_init shift b garbage = Some (Some sbi) /\
    let n := cluster_count shift k b in
    fat_type sbi = fat_kind n /\ clusters sbi = Z.min n 0x0ffffff4 /\
    fat sbi = (match fat_kind n with FAT32 => fat_start b | _ => bxResSectors b end) /\
    data sbi = data_sector shift b /\ root_size sbi = root_dir_size shift b /\
    clust_shift sbi = k /\ clust_byte_shift sbi = k + shift /\ clust_mask sbi = 2 ^ k - 1 /\
    clust_size sbi = 2 ^ (k + shift) /\
    uuid sbi = (match fat_kind n with FAT32 => num_serial_32 b | _ => num_serial_16 b end) /\
    root sbi = (match fat_kind n with
                | FAT32 => u64 (data_sector shift b + u32 (Z.shiftl (bpb_root_cluster b ⊟ 2) k))
                | _ => root_sector b end).
Proof.
  pose proof bpb_ranges as (R1 & R2 & R3 & R4 & R5 & R6 & R7); pose proof cluster_count_range as (C1 & C2 & C3).
  destruct B as [Hs _ Hr Hf [Hc _] Ht Ha Htot]; unfold vfat_fs_init.
  fold (fat_secs b); fold (total_secs b).
  rewrite (proj2 (Z.eqb_neq _ _) Hr), (proj2 (Z.eqb_neq _ _) Hf); cbn [orb].
  rewrite Hc, (proj2 (Z.eqb_neq (2 ^ k) 0)) by (pose proof (Z.pow_pos_nonneg 2 k); lia).
  rewrite Z.log2_pow2, (s32_of_small (fat_secs b)), (s32_of_small (fat_secs b * bxFATs b)) by lia.
  fold (root_sector b); rewrite (u64_small (root_sector b)) by (unfold root_sector; lia).
  fold (data_sector shift b); rewrite (u64_small (data_sector shift b)) by (unfold data_sector, root_sector; lia).
  rewrite u64_small by (unfold data_sector, root_sector in *; lia).
  rewrite Z.shiftr_div_pow2 by lia; fold (cluster_count shift k b).
  rewrite u32_small by lia; set (n := cluster_count shift k b) in *.
  assert (Hcs : s32 (Z.shiftl (2 ^ k) shift) = 2 ^ (k + shift)).
  { rewrite Z.shiftl_mul_pow2, <- Z.pow_add_r by lia; apply s32_of_small.
    pose proof (Z.pow_le_mono_r 2 (k + shift) 23); pose proof (Z.pow_pos_nonneg 2 (k + shift)); lia. }
  eexists; split; [reflexivity|]; cbn zeta; unfold fat_kind.
  destruct (Z.leb_spec n 0xff4); [repeat split; cbn; lia|].
  destruct (Z.leb_spec n 0xfff4); [repeat split; cbn; lia|].
  repeat split; cbn.
  - destruct (Z.ltb_spec 0x0ffffff4 n); lia.
  - unfold fat_start; destruct (Z.land (extended_flags b) 128 =? 0) eqn:E; bools; cbn; [lia|].
    assert (0 <= Z.land (extended_flags b) 15) by (apply Z.land_nonneg; lia).
    destruct Ha as [?|Ha]; [lia|]; assert (Z.land (extended_flags b) 15 * fat_secs b <= fat_secs b * bxFATs b) by nia.
    assert (0 <= Z.land (extended_flags b) 15 * fat_secs b) by nia.
    rewrite s32_of_small, u64_small by lia; done.
  - exact Hcs.
Qed.

Lemma fs_init_volume disk :
  (forall s, Z.of_nat (length (disk s)) = 2 ^ shift /\ Forall is_byte (disk s)) ->
  exists sbi, vfat_fs_init shift b garbage = Some (Some sbi) /\
    volume_ok disk 281474976710656 shift sbi /\ clust_mask sbi = 2 ^ clust_shift sbi - 1.
Proof.
  intros Hd; destruct fs_init_layout as (sbi & E & _ & Ec & Ef & Ed & _ & Ek & Eb & Em & _).
  exists sbi; split; [done|split; [|now rewrite Em, Ek]].
  pose proof bpb_ranges as (R1 & R2 & R3 & R4 & R5 & R6 & R7); pose proof cluster_count_range as (C1 & C2 & C3).
  pose proof (bpb_shift _ _ _ B) as Hs; set (n := cluster_count shift k b) in *.
  assert (0 < 2 ^ k) by (apply Z.pow_pos_nonneg; lia).
  assert (Hf : 0 <= fat sbi < 4294967296).
  { assert (0 <= fat_start b < 4294967296); [|rewrite Ef; destruct (fat_kind n); lia].
    unfold fat_start; destruct (bpb_active _ _ _ B) as [->|Ha]; [cbn; lia|].
    assert (0 <= Z.land (extended_flags b) 15) by (apply Z.land_nonneg; lia).
    assert (Z.land (extended_flags b) 15 * fat_secs b <= bxFATs b * fat_secs b) by (apply Z.mul_le_mono_nonneg_r; lia).
    assert (0 <= Z.land (extended_flags b) 15 * fat_secs b) by (apply Z.mul_nonneg_nonneg; lia).
    pose proof (bpb_tables _ _ _ B); destruct (Z.land (extended_flags b) 128 =? 0); lia. }
  split; [done|done|split; [lia|]|lia|rewrite Ec; clear -C1; lia|rewrite Ek, Eb; lia|split; [rewrite Ed|rewrite Ed, Ec, Ek]].
  - assert (4 * (clusters sbi + 2) / 2 ^ shift <= 4 * (clusters sbi + 2)); [|lia].
    assert (0 < 2 ^ shift) by (apply Z.pow_pos_nonneg; lia); apply Z.div_le_upper_bound; [lia|nia].
  - unfold data_sector, root_sector; lia.
  - assert (Z.min n 268435444 * 2 ^ k <= n * 2 ^ k) by (apply Z.mul_le_mono_nonneg_r; lia); lia.
Qed.
End layout.

(** The layout of a volume, from its boot sector: reserved sectors, the copies of the FAT,
    a root directory of fixed size, clusters to the end.  The number of clusters alone
    decides the kind of FAT; with FAT32 one copy may be the active one, and the root
    directory is a chain of clusters.  (Cluster 2 is the first.) *)
Record laid_out (shift k : Z) (b : list Z) (sbi : fat_sb_info) : Prop := {
  l_root_size : 2 ^ shift * (root_size sbi - 1) < 32 * bxRootDirEnts b <= 2 ^ shift * root_size sbi;
  l_data : data sbi = bxResSectors b + bxFATs b * fat_secs b + root_size sbi;
  l_clust : clust_shift sbi = k /\ clust_byte_shift sbi = k + shift /\
    clust_size sbi = 2 ^ (k + shift) /\ clust_mask sbi = 2 ^ k - 1;
  l_kind : exists n, data sbi + 2 ^ k * n <= total_secs b < data sbi + 2 ^ k * (n + 1) /\
    match fat_type sbi with
    | FAT12 | FAT16 =>
        clusters sbi = n /\ (if fat_type sbi is FAT12 then n < 4085 else 4085 <= n < 65525) /\
        fat sbi = bxResSectors b /\ root sbi = bxResSectors b + bxFATs b * fat_secs b /\
        uuid sbi = num_serial_16 b
    | FAT32 =>
        clusters sbi = Z.min n 0x0ffffff4 /\ 65525 <= n /\
        fat sbi = bxResSectors b + fat_secs b *
          (if Z.testbit (extended_flags b) 7 then extended_flags b mod 16 else 0) /\
        (2 <= bpb_root_cluster b < clusters sbi + 2 ->
           root sbi = data sbi + 2 ^ k * (bpb_root_cluster b - 2)) /\
        uuid sbi = num_serial_32 b
    end
}.

Lemma mirror_flag v : (Z.land v 0x80 =? 0) = negb (Z.testbit v 7).
Proof.
  destruct (Z.testbit v 7) eqn:E; cbn [negb].
  - apply Z.eqb_neq; intros H; apply (f_equal (fun x => Z.testbit x 7)) in H.
    rewrite Z.land_spec, E in H; discriminate.
  - apply Z.eqb_eq, Z.bits_inj'; intros i Hi; rewrite Z.land_spec, Z.bits_0; change 0x80 with (2 ^ 7).
    rewrite Z.pow2_bits_eqb by lia; destruct (Z.eqb_spec 7 i) as [<-|]; [now rewrite E|apply andb_false_r].
Qed.

Lemma root_dir_size_ok shift b : 5 <= shift -> 
  2 ^ shift * (root_dir_size shift b - 1) < 32 * bxRootDirEnts b <= 2 ^ shift * root_dir_size shift b.
Proof.
  intros Hs; unfold root_dir_size; rewrite Z.shiftr_div_pow2, Z.shiftl_1_l by lia.
  assert (2 ^ shift = 32 * 2 ^ (shift - 5)) as -> by (change 32 with (2 ^ 5); rewrite <- Z.pow_add_r by lia; f_equal; lia).
  set (q := 2 ^ (shift - 5)); assert (0 < q) by (apply Z.pow_pos_nonneg; lia); rewrite (Z.mul_comm 32 q), Z.div_mul by lia.
  pose proof (Z.mul_div_le (bxRootDirEnts b + q - 1) q); pose proof (Z.mul_succ_div_gt (bxRootDirEnts b + q - 1) q); lia.
Qed.

Lemma layout_laid_out shift k b garbage sbi : bpb_ok shift k b ->
  vfat_fs_init shift b garbage = Some (Some sbi) -> laid_out shift k b sbi.
Proof.
  intros B E; destruct (fs_init_layout shift k b garbage B) as (sbi' & E' & Et & Ec & Ef & Ed & Er & Ek & Eb & Em & Es & Eu & Eroot).
  assert (sbi' = sbi) as -> by congruence; pose proof (bpb_ranges shift k b B) as (R1 & R2 & R3 & R4 & R5 & R6 & R7).
  pose proof (cluster_count_range shift k b B) as (C1 & C2 & C3); pose proof (bpb_shift _ _ _ B) as Hs.
  assert (Hk : 0 < 2 ^ k) by (apply Z.pow_pos_nonneg; lia).
  split; [rewrite Er; apply root_dir_size_ok; lia|rewrite Ed, Er; unfold data_sector, root_sector; lia|auto|].
  exists (cluster_count shift k b); split.
  { rewrite Ed; split; [lia|]; unfold cluster_count.
    pose proof (Z.mul_succ_div_gt (total_secs b - data_sector shift b) (2 ^ k) Hk); lia. }
  rewrite Et, Ef, Eu, Eroot; unfold fat_kind in *; set (n := cluster_count shift k b) in *.
  assert (root_sector b = bxResSectors b + bxFATs b * fat_secs b) by (unfold root_sector; lia).
  destruct (Z.leb_spec n 0xff4); [repeat split; lia || done|]; destruct (Z.leb_spec n 0xfff4); [repeat split; lia || done|].
  split; [done|]; split; [lia|]; split; [|split; [|done]].
  - unfold fat_start; rewrite mirror_flag; change 0x0f with (Z.ones 4); rewrite Z.land_ones by lia.
    change (2 ^ 4) with 16; destruct (Z.testbit _ 7); cbn [negb]; lia.
  - rewrite Ec, Ed; intros Hr; rewrite (u32_small (bpb_root_cluster b - 2)), Z.shiftl_mul_pow2 by lia.
    assert (0 <= (bpb_root_cluster b - 2) * 2 ^ k <= n * 2 ^ k)
      by (split; [apply Z.mul_nonneg_nonneg; lia|apply Z.mul_le_mono_nonneg_r; lia]).
    assert (0 <= data_sector shift b) by (unfold data_sector, root_sector; lia).
    rewrite u32_small, u64_small by lia; lia.
Qed.

(** C12: setting the driver up succeeds, and the superblock it makes of a boot sector is the
    layout that sector describes: the size of the root directory, rounded up; the first
    sector of the data; the whole clusters behind it, and from their number the kind of
    FAT; the copy of the FAT in use; the root directory, with FAT32 at its first cluster
    if that exists; the serial number; and with it all that reading files and searching
    directories suppose of the volume holds.  The conditions: reserved sectors and
    copies of the FAT are not zero in number, a cluster is a power of two of sectors,
    the copies of the FAT together have fewer than 2^31 sectors, the active copy exists if only one is
    used, all areas fit into the total (a number of 32 bits), and a sector has 2^5 to 2^15
    bytes. *)
Theorem fs_init_sound shift k b garbage disk :
  bpb_ok shift k b ->
  (forall s, Z.of_nat (length (disk s)) = 2 ^ shift /\ Forall is_byte (disk s)) ->
  exists sbi, vfat_fs_init shift b garbage = Some (Some sbi) /\ laid_out shift k b sbi /\
    volume_ok disk 281474976710656 shift sbi /\ clust_mask sbi = 2 ^ clust_shift sbi - 1.
Proof.
  intros B Hd; destruct (fs_init_volume shift k b garbage B disk Hd) as (sbi & E & V & M).
  exists sbi; split; [done|]; split; [exact (layout_laid_out shift k b garbage sbi B E)|done].
Qed.

(** ** The two readers of the repository *)

Definition kind_of (t : Libfat.fat_type_t) : Fat.fat_type_t :=
  match t with Libfat.FAT12 => FAT12 | Libfat.FAT16 => FAT16 | FAT28 => FAT32 end.

Lemma find_clustshift_pow fuel : forall i b k,
  0 <= i -> find_clustshift fuel i b = Some k -> i <= k /\ b = u8 (2 ^ k).
Proof.
  induction fuel as [|fuel IH]; intros i b k Hi H; cbn [find_clustshift] in H; [discriminate|].
  destruct (_ =? b) eqn:E; bools; [injection H as <-; rewrite Z.shiftl_1_l in E; split; [lia|done]|].
  apply IH in H; [split; [lia|apply H]|lia].
Qed.

(** What an accepted boot sector says. *)
Lemma read_geometry_layout b cache fs :
  Forall is_byte b -> bxSecPerClust b <> 0 -> fat_secs b * bxFATs b < 2147483648 ->
  read_geometry b cache = Some fs ->
  0 <= clustshift fs /\ bxSecPerClust b = 2 ^ clustshift fs /\ data_sector 9 b < total_secs b /\
  Libfat.fat fs = bxResSectors b /\ Libfat.data fs = data_sector 9 b /\ rootdir fs = root_sector b /\
  let n := cluster_count 9 (clustshift fs) b in
  n <= 0x0ffffff4 /\ endcluster fs = n + 2 /\ kind_of (Libfat.fat_type fs) = fat_kind n /\
  rootcluster fs = match fat_kind n with FAT32 => s32 (bpb_root_cluster b) | _ => 0 end.
Proof.
  intros Hb Hc Ht; unfold read_geometry; destruct (negb _); [discriminate|].
  destruct (find_clustshift 9 0 _) as [i|] eqn:Ei; [|discriminate].
  pose proof (find_clustshift_spec _ _ _ _ Ei) as Hi; apply find_clustshift_pow in Ei as [_ Ei]; [|lia].
  assert (Hi7 : i <= 7) by (unfold bxSecPerClust in Hc; destruct (decide (i = 8)) as [->|]; [done|lia]).
  fold (bxSecPerClust b) in Ei; rewrite u8_small in Ei
    by (pose proof (Z.pow_le_mono_r 2 i 7); pose proof (Z.pow_pos_nonneg 2 i); lia).
  assert ((if get_16 b 22 =? 0 then get_32 b 36 else get_16 b 22) = fat_secs b) as ->
    by (unfold fat_secs, bxFATsecs; destruct (_ =? 0); done).
  assert ((if get_16 b 19 =? 0 then get_32 b 32 else get_16 b 19) = total_secs b) as ->
    by (unfold total_secs, bxSectors; destruct (_ =? 0); done).
  fold (bxResSectors b) (bxFATs b) (bpb_root_cluster b).
  assert (Hrd : Z.shiftr (Z.shiftl (get_16 b 17) 5 + 511) 9 = root_dir_size 9 b).
  { unfold root_dir_size, bxRootDirEnts; pose proof (get_16_range b 17 Hb).
    rewrite !Z.shiftr_div_pow2, Z.shiftl_mul_pow2 by lia; change (2 ^ 9) with 512; change (2 ^ 5) with 32;
      change (2 ^ (9 - 5)) with 16; change (Z.shiftl 1 9 / 32) with 16; Z.to_euclidean_division_equations; lia. }
  rewrite Hrd; clear Hrd.
  assert (R : 0 <= fat_secs b /\ 0 <= bxFATs b /\ 0 <= total_secs b < 4294967296 /\ 0 <= bxResSectors b /\ 0 <= root_dir_size 9 b).
  { unfold fat_secs, total_secs, bxFATs, bxFATsecs, bxFATsecs_32, bxSectors, bsHugeSectors, bxResSectors, root_dir_size, bxRootDirEnts.
    pose proof (get_16_range b 22 Hb); pose proof (get_32_range b 36 Hb); pose proof (byte_range b 16 Hb);
      pose proof (get_16_range b 19 Hb); pose proof (get_32_range b 32 Hb); pose proof (get_16_range b 14 Hb);
      pose proof (get_16_range b 17 Hb).
    repeat split; try (case_match; lia); try lia; rewrite Z.shiftr_nonneg; change (Z.shiftl 1 9 / 32) with 16; lia. }
  destruct R as (R1 & R2 & R3 & R4 & R5).
  rewrite (u32_small (fat_secs b * bxFATs b)) by (split; [apply Z.mul_nonneg_nonneg; lia|lia]).
  fold (root_sector b); fold (data_sector 9 b).
  destruct (Z.leb_spec (total_secs b) (data_sector 9 b)) as [|Htot]; [discriminate|].
  rewrite Z.shiftr_div_pow2 by lia; fold (cluster_count 9 i b).
  assert (Hn : 0 <= cluster_count 9 i b < 4294967296).
  { assert (0 <= data_sector 9 b) by (unfold data_sector, root_sector; nia).
    assert (0 < 2 ^ i) by (apply Z.pow_pos_nonneg; lia); unfold cluster_count; split; [apply Z.div_pos; lia|].
    apply Z.div_lt_upper_bound; nia. }
  rewrite u32_small by lia; unfold fat_kind; set (n := cluster_count 9 i b) in *.
  assert (Hn2 : n <= 0x0ffffff4 -> s32 (n + 2) = n + 2) by (intros; apply s32_of_small; lia).
  destruct (Z.leb_spec n 0xff4) as [L1|L1]; [|destruct (Z.leb_spec n 0xfff4) as [L2|L2];
    [|destruct (Z.leb_spec n 0xffffff4) as [L3|L3]; [|discriminate]]];
    cbn [option_map]; destruct (_ <? _); try discriminate; intros [= <-]; cbn; fold n;
    rewrite ?Hn2 by lia; unfold fat_kind;
    rewrite ?(proj2 (Z.leb_le n 0xff4)), ?(proj2 (Z.leb_gt n 0xff4)), ?(proj2 (Z.leb_le n 0xfff4)),
      ?(proj2 (Z.leb_gt n 0xfff4)) by lia; repeat split; lia || done.
Qed.

(** C13: for every boot sector, of a volume with sectors of 512 bytes, that the
    reader of the installers accepts, the driver of the core accepts it too and
    arrives at the same volume: the kind of FAT, the number of clusters and
    their size, and the sectors of the FAT, of the root directory and of the
    data agree. The conditions: the numbers of sectors in a cluster, of reserved
    sectors and of FATs are not zero ([zero_cluster_size] is a sector the reader
    accepts and the driver does not), the FATs together have fewer than 2^31
    sectors, mirroring is on (bit 7 of the extended flags is clear, so that no
    single FAT is the active one: the reader of the installers does not look at
    it), and with a FAT of 28 bits the cluster of the root directory exists. *)
Theorem fs_init_agrees b garbage cache fs :
  Forall is_byte b -> bxSecPerClust b <> 0 -> bxResSectors b <> 0 -> bxFATs b <> 0 ->
  fat_secs b * bxFATs b < 2147483648 -> Z.land (extended_flags b) 0x80 = 0 ->
  read_geometry b cache = Some fs ->
  (Libfat.fat_type fs = FAT28 -> 2 <= rootcluster fs < endcluster fs) ->
  exists sbi, vfat_fs_init 9 b garbage = Some (Some sbi) /\
    fat_type sbi = kind_of (Libfat.fat_type fs) /\ fat sbi = Libfat.fat fs /\ data sbi = Libfat.data fs /\
    clusters sbi + 2 = endcluster fs /\ clust_shift sbi = clustshift fs /\
    root sbi = libfat_clustertosector fs 0.
Proof.
  intros Hb Hc Hr Hf Ht Ha Hg Hroot.
  destruct (read_geometry_layout b cache fs Hb Hc Ht Hg) as (G0 & G1 & G2 & G3 & G4 & G5 & G6 & G7 & G8 & G9).
  assert (B : bpb_ok 9 (clustshift fs) b) by (split; auto; lia).
  destruct (fs_init_layout 9 (clustshift fs) b garbage B) as (sbi & E & E1 & E2 & E3 & E4 & _ & E5 & _ & _ & _ & _ & E6).
  pose proof (bpb_ranges 9 (clustshift fs) b B) as R; pose proof (cluster_count_range 9 (clustshift fs) b B) as C.
  exists sbi; split; [done|]; rewrite E1, E2, E3, E4, E5, E6, G3, G4, G7, G8; set (n := cluster_count 9 (clustshift fs) b) in *.
  split; [done|split; [destruct (fat_kind n); unfold fat_start; rewrite ?Ha; cbn; lia|split; [done|split; [lia|split; [done|]]]]].
  unfold libfat_clustertosector; cbn [Z.eqb]; rewrite G9 in *; destruct (fat_kind n) eqn:Ek; cbn [Z.eqb]; [now rewrite G5..|].
  assert (Libfat.fat_type fs = FAT28) as H28 by (destruct (Libfat.fat_type fs); cbn in G8; congruence).
  specialize (Hroot H28); rewrite (proj2 (Z.eqb_neq _ _)) by lia; rewrite (proj2 (Z.ltb_ge _ _)), (proj2 (Z.leb_gt _ _)) by lia.
  cbn [orb]; rewrite G4; pose proof (get_32_range b 44 Hb); unfold bpb_root_cluster in *.
  rewrite s32_of_small in * by ulia; rewrite (u32_small (get_32 b 44 - 2)) by lia.
  rewrite !Z.shiftl_mul_pow2 by lia; assert (0 < 2 ^ clustshift fs) by (apply Z.pow_pos_nonneg; lia).
  assert (0 <= (get_32 b 44 - 2) * 2 ^ clustshift fs <= n * 2 ^ clustshift fs)
    by (split; [apply Z.mul_nonneg_nonneg; lia|apply Z.mul_le_mono_nonneg_r; lia]).
  assert (0 <= data_sector 9 b) by (unfold data_sector, root_sector; lia).
  rewrite u32_small, (u64_small (_ * _)) by lia; done.
Qed.

(** ** A boot sector *)

(** 512 bytes per sector, one sector per cluster, one reserved sector, two copies of
    a FAT of one sector, 16 entries in the root directory, 64 sectors. *)
Definition floppy_boot (spc : Z) : list Z :=
  blit 11 [0; 2; spc; 1; 0; 2; 16; 0; 64; 0; 0xF8; 1; 0] (replicate 512 0).

Lemma floppy_bytes : Forall is_byte (floppy_boot 1).
Proof. apply bytes_ok; reflexivity. Qed.

Lemma fs_init_sound_witness :
  exists sbi, vfat_fs_init 9 (floppy_boot 1) 0 = Some (Some sbi) /\
    laid_out 9 0 (floppy_boot 1) sbi /\ volume_ok (fun _ => replicate 512 0) 281474976710656 9 sbi /\
    root sbi = 3 /\ data sbi = 4.
Proof.
  destruct (fs_init_sound 9 0 (floppy_boot 1) 0 (fun _ => replicate 512 0)) as (sbi & E & L & V & _).
  - split; try done; [apply floppy_bytes|now left].
  - intros _; split; [reflexivity|apply Forall_replicate; unfold is_byte; lia].
  - exists sbi; split; [exact E|split; [exact L|split; [exact V|]]]; vm_compute in E; injection E as <-; split; reflexivity.
Defined.

Lemma fs_init_agrees_witness :
  exists sbi fs, vfat_fs_init 9 (floppy_boot 1) 0 = Some (Some sbi) /\ read_geometry (floppy_boot 1) [] = Some fs /\
    clusters sbi + 2 = endcluster fs /\ root sbi = libfat_clustertosector fs 0.
Proof.
  destruct (read_geometry (floppy_boot 1) []) as [fs|] eqn:E; [|vm_compute in E; discriminate E].
  destruct (fs_init_agrees (floppy_boot 1) 0 [] fs) as (sbi & Hs & _ & _ & _ & Hc & _ & Hr); try done.
  - apply floppy_bytes.
  - vm_compute in E; injection E as <-; discriminate.
  - exists sbi, fs; auto.
Defined.

(** No sectors per cluster: 256 of them to the installers, no value to the core. *)
Example zero_cluster_size :
  option_map clustsize (read_geometry (blit 19 [0xE8; 3] (floppy_boot 0)) []) = Some 256 /\
  vfat_fs_init 9 (blit 19 [0xE8; 3] (floppy_boot 0)) 0 = None.
Proof. split; reflexivity. Qed.
