(* ===== verification/Ext2Map.v ===== *)
(** * The block map of ext2, ext3 and ext4: core/fs/ext2/bmap.c

    The blocks of a file are found through the pointers in its inode and the tables of
    pointers behind them, or through a tree of extents.  The driver reads blocks
    through the interface of the cache, and is an instance of the class of drivers
    that the generic read routine works with. *)

From Stdlib Require Import Sorted.
From S2P Require Import Prelude Cache Getfssec.

Open Scope word_scope.

Notation EXT2_NDIR_BLOCKS := 12.
Notation EXT2_IND_BLOCK := 12%nat.
Notation EXT2_DIND_BLOCK := 13%nat.
Notation EXT2_TIND_BLOCK := 14%nat.
Notation EXT4_EXT_MAGIC := 0xf30a.
Notation EXT4_EXTENTS_FLAG := 0x00080000.

(** The sixty bytes of pointers, or of the root of a tree, and the flags of the inode.
    [src/core/fs/ext2/ext2_fs.h:296-301 struct ext2_pvt_inode] *)
Record ext2_pvt := Pvt { i_block : list Z; flags : Z }.

(** The pointer [k] of a table. *)
Definition pointer (data : list Z) (k : Z) : Z := get_32 data (Z.to_nat (4 * k)).

Section driver.
Context {St : Type} {reader : BlockReader St}.
Variables block_shift sector_shift : Z.

(** ** The tree of extents *)

(** A field of a node; [None] is past its end. *)
Definition field_32 (data : list Z) (off : nat) : option Z :=
  if (off + 4 <=? length data)%nat then Some (get_32 data off) else None.
Definition field_16 (data : list Z) (off : nat) : option Z :=
  if (off + 2 <=? length data)%nat then Some (get_16 data off) else None.

(** The header of a node: magic, number of entries, depth.
    [src/core/fs/ext2/ext2_fs.h:255-261 struct ext4_extent_header] *)
Definition eh_magic (data : list Z) : option Z := field_16 data 0.
Definition eh_entries (data : list Z) : option Z := field_16 data 2.
Definition eh_depth (data : list Z) : option Z := field_16 data 6.

(** An entry of twelve bytes behind the header; the first field of either kind is the
    first block it is for.
    [src/core/fs/ext2/ext2_fs.h:233-250 struct ext4_extent] *)
Definition entry (i : nat) : nat := (12 + 12 * i)%nat.

(** The number of entries up to the first one that is for blocks behind [block].
    [src/core/fs/ext2/bmap.c:30-33 ext4_find_leaf] *)
Fixpoint count_up_to (n i : nat) (data : list Z) (block : Z) : option nat :=
  match n with
  | O => Some i
  | S n => let* b := field_32 data (entry i) in if block <? b then Some i else count_up_to n (S i) data block
  end.

(** The leaf for a block; [None] inside is the answer NULL.  The depth is what the
    nodes say, so [fuel] bounds the walk on whatever is on the disk.
    [src/core/fs/ext2/bmap.c:15-41 ext4_find_leaf] *)
Fixpoint ext4_find_leaf (fuel : nat) (eh : list Z) (block : Z) (st : St) : option (option (list Z) * St) :=
  match fuel with
  | O => None
  | S fuel =>
      let* magic := eh_magic eh in
      if negb (magic =? EXT4_EXT_MAGIC) then Some (None, st)
      else
        let* depth := eh_depth eh in
        if depth =? 0 then Some (Some eh, st)
        else
          let* n := eh_entries eh in
          let* i := count_up_to (Z.to_nat n) 0 eh block in
          match i with
          | O => Some (None, st)
          | S i =>
              let* hi := field_16 eh (entry i + 8) in
              let* lo := field_32 eh (entry i + 4) in
              let* (eh, st) := read_block (u64 (Z.shiftl hi 32 + lo)) st in
              ext4_find_leaf fuel eh block st
          end
  end.

(** The block on the disk, 0 for none, and what is stored through [nblocks], [None] for
    nothing.
    [src/core/fs/ext2/bmap.c:45-80 bmap_extent] *)
Definition bmap_extent (fuel : nat) (p : ext2_pvt) (block : Z) (st : St) : option (Z * option Z * St) :=
  let* (leaf, st) := ext4_find_leaf fuel (i_block p) block st in
  match leaf with
  | None => Some (0, None, st)
  | Some leaf =>
      let* n := eh_entries leaf in
      let* i := count_up_to (Z.to_nat n) 0 leaf block in
      match i with
      | O => Some (0, None, st)
      | S i =>
          let* ee_block := field_32 leaf (entry i) in
          let* ee_len := field_16 leaf (entry i + 4) in
          let block := block ⊟ ee_block in
          if ee_len <=? block then Some (0, None, st)
          else
            let* hi := field_16 leaf (entry i + 6) in
            let* lo := field_32 leaf (entry i + 8) in
            Some (u64 (u64 (Z.shiftl hi 32 + lo) + block), Some (ee_len - block), st)
      end
  end.

(** ** The tables of pointers *)

(** How many pointers behind [k] go on as the first one does.
    [src/core/fs/ext2/bmap.c:92-104 scan_set_nblocks] *)
Fixpoint scan (n : nat) (map : list Z) (k next skip cnt : Z) : Z :=
  match n with
  | O => cnt
  | S n => if pointer map (k + 1) =? next then scan n map (k + 1) (next ⊞ skip) skip (cnt + 1) else cnt
  end.

(** [src/core/fs/ext2/bmap.c:86-110 scan_set_nblocks] *)
Definition scan_set_nblocks (map : list Z) (k : Z) (count : Z) : Z * option Z :=
  let blk := pointer map k in
  let skip := if blk =? 0 then 0 else 1 in
  (blk, Some (scan (Z.to_nat (count - 1)) map k (blk ⊞ skip) skip 1)).

Definition addr_shift : Z := block_shift - 2.
Definition addr_count : Z := Z.shiftl 1 addr_shift.

(** [blk] and [index] are those of the table read last.
    [src/core/fs/ext2/bmap.c:116-137 bmap_indirect] *)
Fixpoint bmap_indirect (levels : nat) (start block : Z) (blk : list Z) (index : Z) (st : St) : option (Z * option Z * St) :=
  match levels with
  | O => Some (scan_set_nblocks blk index (addr_count - index), st)
  | S levels =>
      if start =? 0 then Some (0, Some (u32 (Z.shiftl addr_count (Z.of_nat levels * addr_shift))), st)
      else
        let* (blk, st) := read_block start st in
        let index := Z.land (Z.shiftr block (Z.of_nat levels * addr_shift)) (addr_count - 1) in
        bmap_indirect levels (pointer blk index) block blk index st
  end.

(** [src/core/fs/ext2/bmap.c:143-179 bmap_traditional] *)
Definition bmap_traditional (p : ext2_pvt) (block : Z) (st : St) : option (Z * option Z * St) :=
  let direct_blocks := EXT2_NDIR_BLOCKS in
  let indirect_blocks := Z.shiftr (Z.shiftl 1 block_shift) 2 in
  let double_blocks := u32 (Z.shiftl indirect_blocks addr_shift) in
  let triple_blocks := u32 (Z.shiftl double_blocks addr_shift) in
  if block <? direct_blocks then Some (scan_set_nblocks (i_block p) block (direct_blocks - block), st)
  else
    let block := block - direct_blocks in
    if block <? indirect_blocks then bmap_indirect 1 (pointer (i_block p) 12) (u32 block) [] 0 st
    else
      let block := block - indirect_blocks in
      if block <? double_blocks then bmap_indirect 2 (pointer (i_block p) 13) (u32 block) [] 0 st
      else
        let block := block - double_blocks in
        if block <? triple_blocks then bmap_indirect 3 (pointer (i_block p) 14) (u32 block) [] 0 st
        else Some (0, None, st).

(** [src/core/fs/ext2/bmap.c:194-204 ext2_bmap] *)
Definition ext2_bmap (fuel : nat) (p : ext2_pvt) (block : Z) (st : St) : option (Z * option Z * St) :=
  if negb (Z.land (flags p) EXT4_EXTENTS_FLAG =? 0) then bmap_extent fuel p (u32 block) st
  else bmap_traditional p block st.

(** [src/core/fs/ext2/bmap.c:210-228 ext2_next_extent] *)
Definition ext2_next_extent (fuel : nat) (i : inode ext2_pvt) (lstart : Z) (st : St)
  : option (Z * inode ext2_pvt * St) :=
  let blktosec := block_shift - sector_shift in
  let blkmask := Z.shiftl 1 blktosec - 1 in
  let* (block, nblocks, st) := ext2_bmap fuel (pvt i) (Z.shiftr lstart blktosec) st in
  let nblocks := default 0 nblocks in
  let e := next_extent i in
  let pstart :=
    if block =? 0 then EXTENT_ZERO else u64 (Z.lor (Z.shiftl block blktosec) (Z.land lstart blkmask)) in
  Some (0, set_nextx (Extent pstart (Getfssec.lstart e) (u32 (Z.shiftl nblocks blktosec - Z.land lstart blkmask))) i, st).
End driver.

(** ** The blocks of a file *)

(** The element [i] of lists of one length in a row. *)
Lemma lookup_concat {A} (L : nat) (ls : list (list A)) : (0 < L)%nat -> Forall (fun l => length l = L) ls ->
  forall i, concat ls !! i = (ls !! (i / L)%nat) ≫= (fun l => l !! (i mod L)%nat).
Proof.
  intros HL H; induction H as [|l ls Hl H IH]; intros i; cbn [concat]; [now rewrite lookup_nil|].
  destruct (decide (i < L)%nat).
  - rewrite lookup_app_l, Nat.div_small, Nat.mod_small by lia; done.
  - rewrite lookup_app_r, IH, Hl by lia.
    pose proof (Nat.div_mod (i - L) L ltac:(lia)) as Hd; pose proof (Nat.mod_upper_bound (i - L) L ltac:(lia)) as Hm.
    rewrite <- (Nat.div_unique i L (S ((i - L) / L)) ((i - L) mod L)) by lia.
    now rewrite <- (Nat.mod_unique i L (S ((i - L) / L)) ((i - L) mod L)) by lia.
Qed.

Lemma length_concat_same {A} (L : nat) (ls : list (list A)) :
  Forall (fun l => length l = L) ls -> length (concat ls) = (length ls * L)%nat.
Proof. intros H; induction H as [|l ls Hl H IH]; [done|]; cbn [concat]; rewrite length_app, Hl, IH; done. Qed.

Section map.
Context {St : Type} {reader : BlockReader St} {bytes : Z -> list Z} {bound : Z} {laws : BlockReaderLaws St bytes bound}.
Variable block_shift : Z.

Hypothesis shift_range : 10 <= block_shift <= 12.
Hypothesis bound_range : 4294967296 <= bound.
Hypothesis block_bytes : forall b, length (bytes b) = Z.to_nat (2 ^ block_shift) /\ Forall is_byte (bytes b).

Notation addr_count := (addr_count block_shift).
Notation addr_shift := (addr_shift block_shift).

(** All pointers below a pointer, in order: of a table of [n] levels that is not there
    as many zeroes as it would have. *)
Fixpoint leaves (n : nat) (p : Z) : list Z :=
  match n with
  | O => [p]
  | S n' =>
      if p =? 0 then replicate (Z.to_nat addr_count ^ n) 0
      else concat (map (fun k => leaves n' (pointer (bytes p) k)) (seqZ 0 addr_count))
  end.

(** The blocks of a file on the disk, in order. *)
Definition file_map (p : ext2_pvt) : list Z :=
  map (pointer (i_block p)) (seqZ 0 12) ++
  leaves 1 (pointer (i_block p) 12) ++ leaves 2 (pointer (i_block p) 13) ++ leaves 3 (pointer (i_block p) 14).

(** No table is missing on the way to a block. *)
Fixpoint no_gap (n : nat) (p b : Z) : Prop :=
  match n with
  | O => True
  | S n => p <> 0 /\ no_gap n (pointer (bytes p) (b / addr_count ^ Z.of_nat n mod addr_count)) b
  end.

(** What a run that begins with [v] goes on with. *)
Definition run (v j : Z) : Z := if v =? 0 then 0 else v ⊞ j.

Lemma addr_count_eq : addr_count = 2 ^ addr_shift /\ 8 <= addr_shift <= 10 /\ 256 <= addr_count <= 1024.
Proof.
  unfold addr_count; rewrite Z.shiftl_1_l; unfold Ext2Map.addr_shift; split; [done|split; [lia|]].
  split; [apply (Z.pow_le_mono_r 2 8)|apply (Z.pow_le_mono_r 2 _ 10)]; lia.
Qed.

Lemma pointer_range p k : 0 <= pointer (bytes p) k < 4294967296.
Proof. apply get_32_range, block_bytes. Qed.

Lemma length_leaves n : forall p, length (leaves n p) = (Z.to_nat addr_count ^ n)%nat.
Proof.
  pose proof addr_count_eq as (_ & _ & Ha); induction n as [|n IH]; intros p; [done|]; cbn [leaves].
  destruct (p =? 0); [apply length_replicate|].
  rewrite (length_concat_same (Z.to_nat addr_count ^ n)).
  - rewrite length_map, length_seqZ; done.
  - apply Forall_forall; intros l Hl; apply list_elem_of_In, in_map_iff in Hl as (k & <- & _); apply IH.
Qed.

Lemma leaves_lookup n p (b : nat) :
  p <> 0 -> (b < Z.to_nat addr_count ^ S n)%nat ->
  leaves (S n) p !! b =
    leaves n (pointer (bytes p) (Z.of_nat (b / Z.to_nat addr_count ^ n))) !! (b mod Z.to_nat addr_count ^ n)%nat.
Proof.
  pose proof addr_count_eq as (_ & _ & Ha); intros Hp Hb; cbn [leaves]; rewrite (proj2 (Z.eqb_neq p 0)) by done.
  assert (HL : (0 < Z.to_nat addr_count ^ n)%nat) by (apply Nat.neq_0_lt_0, Nat.pow_nonzero; lia).
  rewrite (lookup_concat (Z.to_nat addr_count ^ n)); [|done|].
  - rewrite list_lookup_fmap, lookup_seqZ_lt; [cbn; now rewrite Z.add_0_l|].
    assert (b / Z.to_nat addr_count ^ n < Z.to_nat addr_count)%nat by (apply Nat.Div0.div_lt_upper_bound; cbn in Hb; lia).
    lia.
  - apply Forall_forall; intros l Hl; apply list_elem_of_In, in_map_iff in Hl as (k & <- & _); apply length_leaves.
Qed.

Lemma scan_spec n map : forall k next skip cnt, next = u32 next ->
  exists m, scan n map k next skip cnt = cnt + m /\ 0 <= m <= Z.of_nat n /\
    forall j, 0 <= j < m -> pointer map (k + 1 + j) = u32 (next + j * skip).
Proof.
  induction n as [|n IH]; intros k next skip cnt Hn; cbn [scan]; [exists 0; split; [lia|split; [lia|lia]]|].
  destruct (Z.eqb_spec (pointer map (k + 1)) next) as [E|]; [|exists 0; split; [lia|split; [lia|lia]]].
  destruct (IH (k + 1) (next ⊞ skip) skip (cnt + 1)) as (m & -> & Hm & H).
  { now rewrite (u32_small (next ⊞ skip)) by apply u32_range. }
  exists (m + 1); split; [lia|split; [lia|]]; intros j Hj; destruct (Z.eq_dec j 0) as [->|].
  - rewrite Z.add_0_r, E, Z.mul_0_l, Z.add_0_r; exact Hn.
  - replace (k + 1 + j) with (k + 1 + 1 + (j - 1)) by lia; rewrite H by lia.
    unfold u32; rewrite Zplus_mod_idemp_l; f_equal; lia.
Qed.

Lemma scan_set_spec map k count :
  1 <= count -> 0 <= pointer map k < 4294967296 ->
  exists cnt, scan_set_nblocks map k count = (pointer map k, Some cnt) /\ 1 <= cnt <= count /\
    forall j, 0 <= j < cnt -> pointer map (k + j) = run (pointer map k) j.
Proof.
  intros Hc Hv; unfold scan_set_nblocks; set (v := pointer map k) in *; set (skip := if v =? 0 then 0 else 1).
  destruct (scan_spec (Z.to_nat (count - 1)) map k (v ⊞ skip) skip 1) as (m & -> & Hm & H).
  { now rewrite (u32_small (v ⊞ skip)) by apply u32_range. }
  exists (1 + m); split; [done|split; [lia|]]; intros j Hj; unfold run.
  destruct (Z.eq_dec j 0) as [->|].
  { rewrite Z.add_0_r; fold v; destruct (Z.eqb_spec v 0); [done|]; rewrite Z.add_0_r; now rewrite u32_small. }
  replace (k + j) with (k + 1 + (j - 1)) by lia; rewrite H by lia; unfold skip; destruct (Z.eqb_spec v 0) as [->|].
  - rewrite Z.mul_0_r; reflexivity.
  - unfold u32; rewrite Zplus_mod_idemp_l; f_equal; lia.
Qed.

(** A block among the [n] levels behind a pointer. *)
Definition within (n : nat) (b : Z) : nat := Z.to_nat (b mod addr_count ^ Z.of_nat n).

Lemma pow_nat n : Z.of_nat (Z.to_nat addr_count ^ n)%nat = addr_count ^ Z.of_nat n.
Proof. pose proof addr_count_eq as (_ & _ & Ha); rewrite Nat2Z.inj_pow, Z2Nat.id by lia; done. Qed.

Lemma index_eq (n : nat) b :
  0 <= b -> Z.land (Z.shiftr b (Z.of_nat n * addr_shift)) (addr_count - 1) = b / addr_count ^ Z.of_nat n mod addr_count.
Proof.
  pose proof addr_count_eq as (E & Hs & Ha); intros Hb; rewrite E.
  replace (2 ^ addr_shift - 1) with (Z.ones addr_shift) by (rewrite Z.ones_equiv; lia).
  rewrite Z.land_ones, Z.shiftr_div_pow2, <- Z.pow_mul_r by lia.
  now rewrite (Z.mul_comm addr_shift).
Qed.

(** One level down. *)
Lemma leaves_within n p b :
  p <> 0 -> 0 <= b ->
  leaves (S n) p !! within (S n) b = leaves n (pointer (bytes p) (b / addr_count ^ Z.of_nat n mod addr_count)) !! within n b.
Proof.
  pose proof addr_count_eq as (_ & _ & Ha); intros Hp Hb; unfold within.
  assert (HP : 0 < addr_count ^ Z.of_nat n) by (apply Z.pow_pos_nonneg; lia).
  rewrite Nat2Z.inj_succ, Z.pow_succ_r by lia.
  pose proof (Z.mod_pos_bound b (addr_count * addr_count ^ Z.of_nat n) ltac:(nia)) as Hm.
  assert (Hlt : (Z.to_nat (b mod (addr_count * addr_count ^ Z.of_nat n)) < Z.to_nat addr_count ^ S n)%nat).
  { apply Nat2Z.inj_lt; rewrite pow_nat, Z2Nat.id, Nat2Z.inj_succ, Z.pow_succ_r by lia; lia. }
  rewrite leaves_lookup by done.
  rewrite Nat2Z.inj_div, pow_nat, Z2Nat.id by lia.
  rewrite (Z.mul_comm addr_count), Z.rem_mul_r by lia.
  pose proof (Z.mod_pos_bound b (addr_count ^ Z.of_nat n) HP) as Hm2.
  rewrite (Z.add_comm (b mod _)), Z.mul_comm, Z.div_add_l, (Z.div_small (b mod _)), Z.add_0_r by lia.
  f_equal; apply Nat2Z.inj; rewrite Nat2Z.inj_mod, pow_nat, Z2Nat.id.
  - rewrite Z.add_comm, Z.mod_add, Z.mod_mod by lia; now rewrite Z2Nat.id by lia.
  - pose proof (Z.mod_pos_bound (b / addr_count ^ Z.of_nat n) addr_count ltac:(lia)); nia.
Qed.

Lemma within_add n b j :
  0 <= b -> 0 <= j -> b mod addr_count ^ Z.of_nat n + j < addr_count ^ Z.of_nat n ->
  (b + j) / addr_count ^ Z.of_nat n = b / addr_count ^ Z.of_nat n /\ within n (b + j) = (within n b + Z.to_nat j)%nat.
Proof.
  pose proof addr_count_eq as (_ & _ & Ha); intros Hb Hj Hlt; unfold within.
  set (P := addr_count ^ Z.of_nat n) in *; assert (HP : 0 < P) by (apply Z.pow_pos_nonneg; lia).
  pose proof (Z.mod_pos_bound b P HP) as Hm; pose proof (Z.div_mod b P ltac:(lia)) as Hd.
  rewrite <- (Z.div_unique (b + j) P (b / P) (b mod P + j)) by lia.
  rewrite <- (Z.mod_unique (b + j) P (b / P) (b mod P + j)) by lia; lia.
Qed.

Lemma within_lt n b p v k : leaves n p !! (within n b + k)%nat = Some v -> b mod addr_count ^ Z.of_nat n + Z.of_nat k < addr_count ^ Z.of_nat n.
Proof.
  pose proof addr_count_eq as (_ & _ & Ha); intros H; apply lookup_lt_Some in H; rewrite length_leaves in H.
  assert (HP : 0 < addr_count ^ Z.of_nat n) by (apply Z.pow_pos_nonneg; lia).
  pose proof (Z.mod_pos_bound b _ HP); apply Nat2Z.inj_lt in H; rewrite pow_nat in H; unfold within in H; lia.
Qed.

(** What a walk over [n] levels answers. *)
Definition walked (n : nat) (start block : Z) (r : Z * option Z * St) : Prop :=
  exists v cnt st, r = (v, Some cnt, st) /\ reader_ok st /\ 0 <= v < 4294967296 /\
    leaves n start !! within n block = Some v /\ 0 < cnt /\
    (no_gap n start block -> cnt <= addr_count /\
      forall j, 0 <= j < cnt -> leaves n start !! (within n block + Z.to_nat j)%nat = Some (run v j)).

Lemma within_0 b : within 0 b = 0%nat.
Proof. unfold within; cbn [Z.of_nat Z.pow]; now rewrite Z.mod_1_r. Qed.

Lemma last_table start block st :
  reader_ok st -> start <> 0 -> 0 <= block ->
  let k := block / addr_count ^ Z.of_nat 0 mod addr_count in
  walked 1 start block (scan_set_nblocks (bytes start) k (addr_count - k), st).
Proof.
  pose proof addr_count_eq as (_ & _ & Ha); intros Hst Hs Hb k.
  assert (Ek : k = block mod addr_count) by (unfold k; cbn [Z.of_nat Z.pow]; now rewrite Z.div_1_r).
  pose proof (Z.mod_pos_bound block addr_count ltac:(lia)) as Hk.
  destruct (scan_set_spec (bytes start) k (addr_count - k) ltac:(lia) (pointer_range _ _)) as (cnt & E & Hc & Hrun).
  pose proof (leaves_within 0 start) as Hleaf.
  exists (pointer (bytes start) k), cnt, st; split; [now rewrite E|split; [done|split; [apply pointer_range|]]].
  split; [now rewrite (Hleaf block Hs Hb), within_0|split; [lia|]]; intros _; split; [lia|]; intros j Hj.
  destruct (within_add 1 block j Hb ltac:(lia)) as [_ Hw]; [rewrite Z.pow_1_r; lia|].
  rewrite <- Hw, (Hleaf (block + j) Hs ltac:(lia)), <- Hrun by lia; cbn [leaves].
  rewrite within_0; cbn [lookup list_lookup]; do 2 f_equal; cbn [Z.of_nat Z.pow]; rewrite Z.div_1_r, Ek.
  pose proof (Z.div_mod block addr_count ltac:(lia)) as Hd; symmetry.
  apply (Z.mod_unique (block + j) addr_count (block / addr_count)); lia.
Qed.

(** A table that is missing: a run of zeroes as long as all that is behind it, wherever
    in it the block is. *)
Lemma missing_table n block st :
  (n <= 2)%nat -> reader_ok st -> 0 <= block ->
  walked (S n) 0 block (0, Some (u32 (Z.shiftl addr_count (Z.of_nat n * addr_shift))), st).
Proof.
  pose proof addr_count_eq as (Ea & Hs & Ha); intros Hn Hst Hb.
  assert (HP : 0 < addr_count ^ Z.of_nat (S n)) by (apply Z.pow_pos_nonneg; lia).
  assert (HP2 : addr_count ^ Z.of_nat (S n) <= 1024 ^ 3).
  { transitivity (1024 ^ Z.of_nat (S n)); [apply Z.pow_le_mono_l; lia|apply Z.pow_le_mono_r; lia]. }
  change (1024 ^ 3) with 1073741824 in HP2.
  assert (E : u32 (Z.shiftl addr_count (Z.of_nat n * addr_shift)) = addr_count ^ Z.of_nat (S n)).
  { rewrite Z.shiftl_mul_pow2, Z.mul_comm, (Z.mul_comm (Z.of_nat n)), Z.pow_mul_r, <- Ea, Z.mul_comm by lia.
    rewrite <- Z.pow_succ_r, <- Nat2Z.inj_succ by lia; apply u32_small; lia. }
  rewrite E; exists 0, (addr_count ^ Z.of_nat (S n)), st.
  split; [done|split; [done|split; [lia|split; [|split; [lia|now intros [H _]]]]]].
  cbn [leaves Z.eqb]; apply lookup_replicate; split; [done|].
  apply Nat2Z.inj_lt; rewrite pow_nat; unfold within; pose proof (Z.mod_pos_bound block _ HP); lia.
Qed.

Lemma indirect_spec n : forall start block blk idx st,
  (n <= 2)%nat -> reader_ok st -> 0 <= start < 4294967296 -> 0 <= block ->
  exists r, bmap_indirect block_shift (S n) start block blk idx st = Some r /\ walked (S n) start block r.
Proof.
  pose proof addr_count_eq as (Ea & Hs & Ha); induction n as [|n IH]; intros start block blk idx st Hn Hst Hstart Hb;
    cbn [bmap_indirect]; (destruct (Z.eqb_spec start 0) as [->|Hs0]; [eexists; split; [reflexivity|now apply missing_table]|]);
    destruct (read_block_ok st start Hst ltac:(lia)) as (st1 & -> & Hst1); rewrite index_eq by done.
  - eexists; split; [reflexivity|now apply last_table].
  - fold (bmap_indirect (reader := reader) block_shift).
    set (k := block / addr_count ^ Z.of_nat (S n) mod addr_count).
    destruct (IH (pointer (bytes start) k) block (bytes start) k st1 ltac:(lia) Hst1 (pointer_range _ _) Hb) as (r & E & H).
    exists r; split; [exact E|].
    destruct H as (v & cnt & st2 & -> & Hst2 & Hv & Hl & Hc & Hrun); exists v, cnt, st2.
    split; [done|split; [done|split; [done|split; [now rewrite leaves_within by done|split; [done|]]]]].
    intros [_ Hg]; destruct (Hrun Hg) as [Hca Hr]; split; [done|]; intros j Hj; specialize (Hr j Hj).
    pose proof (within_lt _ _ _ _ _ Hr) as Hlt; rewrite Z2Nat.id in Hlt by lia.
    destruct (within_add (S n) block j Hb ltac:(lia) Hlt) as [Hd Hw].
    assert (HP : 0 < addr_count ^ Z.of_nat (S n)) by (apply Z.pow_pos_nonneg; lia).
    destruct (within_add (S (S n)) block j Hb ltac:(lia)) as [_ Hw2].
    { rewrite (Nat2Z.inj_succ (S n)), Z.pow_succ_r, (Z.mul_comm addr_count), Z.rem_mul_r by lia; fold k.
      pose proof (Z.mod_pos_bound (block / addr_count ^ Z.of_nat (S n)) addr_count ltac:(lia)); fold k in H; nia. }
    rewrite <- Hw2, leaves_within, Hd, Hw by (done || lia); exact Hr.
Qed.

(** The inode's pointers. *)
Definition inode_block (p : ext2_pvt) : Prop := length (i_block p) = 60%nat /\ Forall is_byte (i_block p).

(** The number of blocks there are pointers for. *)
Definition map_size : Z := 12 + addr_count + addr_count * addr_count + addr_count * addr_count * addr_count.

(** No table is missing on the way to the block [b] of the file. *)
Definition no_gap_at (p : ext2_pvt) (b : Z) : Prop :=
  if b <? 12 then True
  else if b <? 12 + addr_count then no_gap 1 (pointer (i_block p) 12) (b - 12)
  else if b <? 12 + addr_count + addr_count * addr_count then no_gap 2 (pointer (i_block p) 13) (b - 12 - addr_count)
  else no_gap 3 (pointer (i_block p) 14) (b - 12 - addr_count - addr_count * addr_count).

(** An answer for the block [b]: what the map says, and how long it goes on so. *)
Definition answers (m : list Z) (b : Z) (dense : Prop) (r : Z * option Z * St) : Prop :=
  exists v cnt st, r = (v, Some cnt, st) /\ reader_ok st /\ 0 <= v < 4294967296 /\ m !! Z.to_nat b = Some v /\ 0 < cnt /\
    (dense -> cnt <= addr_count /\ forall j, 0 <= j < cnt -> m !! Z.to_nat (b + j) = Some (run v j)).

Lemma walked_answers n start off pre post b r :
  walked n start (b - off) r -> Z.of_nat (length pre) = off -> off <= b < off + addr_count ^ Z.of_nat n ->
  answers (pre ++ leaves n start ++ post) b (no_gap n start (b - off)) r.
Proof.
  intros (v & cnt & st & -> & Hst & Hv & Hl & Hc & Hr) Hoff Hb; exists v, cnt, st.
  assert (Hw : within n (b - off) = Z.to_nat (b - off)) by (unfold within; now rewrite Z.mod_small by lia).
  assert (Hat : forall j w, 0 <= j -> leaves n start !! (within n (b - off) + Z.to_nat j)%nat = Some w ->
    (pre ++ leaves n start ++ post) !! Z.to_nat (b + j) = Some w).
  { intros j w Hj H; rewrite lookup_app_r by lia; rewrite lookup_app_l.
    - rewrite <- H, Hw; f_equal; lia.
    - apply lookup_lt_Some in H; lia. }
  split; [done|split; [done|split; [done|split; [|split; [done|]]]]].
  - replace b with (b + 0) by lia; apply Hat; [lia|]; now rewrite Nat.add_0_r.
  - intros Hg; destruct (Hr Hg) as [Hca Hrun]; split; [done|]; intros j Hj; apply Hat; [lia|auto].
Qed.

Lemma bmap_traditional_step p b st :
  inode_block p -> reader_ok st -> 0 <= b < map_size ->
  exists r, bmap_traditional block_shift p b st = Some r /\ answers (file_map p) b (no_gap_at p b) r.
Proof.
  pose proof addr_count_eq as (Ea & Hs & Ha); intros [Hp60 Hpb] Hst Hb; unfold map_size in Hb.
  pose proof (fun k => get_32_range (i_block p) (Z.to_nat (4 * k)) Hpb) as Hptr; fold (pointer (i_block p)) in Hptr.
  unfold bmap_traditional, no_gap_at.
  assert (E1 : Z.shiftr (Z.shiftl 1 block_shift) 2 = addr_count).
  { unfold Ext2Map.addr_count, Ext2Map.addr_shift; rewrite <- Z.shiftr_shiftl_l by lia; done. }
  assert (HA2 : addr_count * addr_count <= 1024 * 1024) by nia.
  assert (HA3 : addr_count * addr_count * addr_count <= 1024 * 1024 * 1024) by nia.
  rewrite E1, !Z.shiftl_mul_pow2, <- !Ea, (u32_small (addr_count * addr_count)), (u32_small (addr_count * addr_count * addr_count)) by lia.
  assert (L12 : length (map (pointer (i_block p)) (seqZ 0 12)) = 12%nat) by (rewrite length_map, length_seqZ; done).
  assert (L1 : Z.of_nat (length (leaves 1 (pointer (i_block p) 12))) = addr_count) by (rewrite length_leaves; cbn [Nat.pow]; lia).
  assert (L2 : Z.of_nat (length (leaves 2 (pointer (i_block p) 13))) = addr_count * addr_count)
    by (rewrite length_leaves; cbn [Nat.pow]; lia).
  unfold file_map; destruct (Z.ltb_spec b 12).
  { destruct (scan_set_spec (i_block p) b (12 - b) ltac:(lia) (Hptr b)) as (cnt & -> & Hc & Hrun).
    assert (Hat : forall j, 0 <= j < cnt -> (map (pointer (i_block p)) (seqZ 0 12) ++ leaves 1 (pointer (i_block p) 12) ++
      leaves 2 (pointer (i_block p) 13) ++ leaves 3 (pointer (i_block p) 14)) !! Z.to_nat (b + j) = Some (pointer (i_block p) (b + j))).
    { intros j Hj; rewrite lookup_app_l, list_lookup_fmap, lookup_seqZ_lt by lia; cbn; do 2 f_equal; lia. }
    eexists; split; [reflexivity|]; exists (pointer (i_block p) b), cnt, st.
    split; [done|split; [done|split; [apply Hptr|split; [|split; [lia|]]]]].
    - replace b with (b + 0) by lia; apply Hat; lia.
    - intros _; split; [lia|]; intros j Hj; now rewrite <- Hrun by lia; apply Hat. }
  destruct (Z.ltb_spec (b - 12) addr_count).
  { rewrite (proj2 (Z.ltb_lt b (12 + addr_count))) by lia; rewrite u32_small by lia.
    destruct (indirect_spec 0 (pointer (i_block p) 12) (b - 12) [] 0 st) as (r & -> & Hw); [lia|done|apply Hptr|lia|].
    exists r; split; [done|]; apply walked_answers; [done|lia|cbn; lia]. }
  rewrite (proj2 (Z.ltb_ge b (12 + addr_count))) by lia; destruct (Z.ltb_spec (b - 12 - addr_count) (addr_count * addr_count)).
  { rewrite (proj2 (Z.ltb_lt b (12 + addr_count + _))) by lia; rewrite u32_small by lia.
    destruct (indirect_spec 1 (pointer (i_block p) 13) (b - 12 - addr_count) [] 0 st) as (r & -> & Hw); [lia|done|apply Hptr|lia|].
    exists r; split; [done|]; rewrite app_assoc; replace (b - 12 - addr_count) with (b - (12 + addr_count)) in * by lia.
    apply walked_answers; [done|rewrite length_app; lia|change (Z.of_nat 2) with 2; rewrite Z.pow_2_r; lia]. }
  rewrite (proj2 (Z.ltb_ge b (12 + addr_count + _))) by lia; rewrite (proj2 (Z.ltb_lt (b - 12 - addr_count - _) _)) by lia.
  rewrite u32_small by lia.
  destruct (indirect_spec 2 (pointer (i_block p) 14) (b - 12 - addr_count - addr_count * addr_count) [] 0 st) as (r & -> & Hw);
    [lia|done|apply Hptr|lia|].
  exists r; split; [done|]; rewrite !app_assoc; rewrite <- (app_nil_r (leaves 3 _)).
  replace (b - 12 - addr_count - addr_count * addr_count) with (b - (12 + addr_count + addr_count * addr_count)) in * by lia.
  rewrite app_assoc, <- (app_assoc _ (leaves 3 _)).
  apply walked_answers; [done|rewrite !length_app; lia|change (Z.of_nat 3) with (1 + 2); rewrite Z.pow_add_r, Z.pow_2_r, Z.pow_1_r by lia; lia].
Qed.
End map.

(** ** The extents of a file *)

(** Blocks of a file in a row, and where they are on the disk. *)
Record ext := Ext { e_block : Z; e_len : Z; e_start : Z }.

Definition covers (b : Z) (e : ext) : bool := (e_block e <=? b) && (b <? e_block e + e_len e).
Definition ahead (e e' : ext) : Prop := e_block e + e_len e <= e_block e'.

(** The block on the disk, 0 for none. *)
Definition ext_block (es : list ext) (b : Z) : Z :=
  match find (covers b) es with Some e => e_start e + (b - e_block e) | None => 0 end.

(** A leaf of the tree that holds the extents. *)
Record leaf_of (data : list Z) (es : list ext) : Prop := {
  leaf_magic : eh_magic data = Some EXT4_EXT_MAGIC;
  leaf_depth : eh_depth data = Some 0;
  leaf_entries : eh_entries data = Some (Z.of_nat (length es));
  leaf_entry : forall i e, es !! i = Some e ->
    field_32 data (entry i) = Some (e_block e) /\ field_16 data (entry i + 4) = Some (e_len e) /\
    exists hi lo, field_16 data (entry i + 6) = Some hi /\ field_32 data (entry i + 8) = Some lo /\
      e_start e = hi * 4294967296 + lo;
  leaf_range : forall e, e ∈ es -> 0 <= e_block e /\ 0 <= e_len e < 65536 /\ e_block e + e_len e <= 4294967296 /\
    0 < e_start e < 281474976710656;
  leaf_sorted : StronglySorted ahead es
}.

(** A child of a node: the first block it is for, its block on the disk, its extents. *)
Record kid := Kid { k_first : Z; k_block : Z; k_exts : list ext }.

Section tree.
Context {St : Type} {reader : BlockReader St} {bytes : Z -> list Z} {bound : Z} {laws : BlockReaderLaws St bytes bound}.

(** A tree of depth [d] and the extents it holds, in order. *)
Inductive ext_tree : nat -> list Z -> list ext -> Prop :=
  | tree_leaf data es : leaf_of data es -> ext_tree 0 data es
  | tree_node d data depth kids :
      eh_magic data = Some EXT4_EXT_MAGIC -> eh_depth data = Some depth -> depth <> 0 ->
      eh_entries data = Some (Z.of_nat (length kids)) ->
      (forall i k, kids !! i = Some k ->
        field_32 data (entry i) = Some (k_first k) /\
        (exists hi lo, field_16 data (entry i + 8) = Some hi /\ field_32 data (entry i + 4) = Some lo /\
          k_block k = hi * 4294967296 + lo) /\
        0 <= k_block k < bound /\ bound <= 18446744073709551616 /\
        (forall e, e ∈ k_exts k -> k_first k <= e_block e)) ->
      (forall i k, kids !! i = Some k -> ext_tree d (bytes (k_block k)) (k_exts k)) ->
      StronglySorted (fun k k' => k_first k <= k_first k' /\
        forall e, e ∈ k_exts k -> e_block e + e_len e <= k_first k') kids ->
      ext_tree (S d) data (concat (map k_exts kids)).

Lemma count_spec data b fs : (forall i f, fs !! i = Some f -> field_32 data (entry i) = Some f) ->
  forall n i, (i + n = length fs)%nat ->
  exists c, count_up_to n i data b = Some c /\ (i <= c <= length fs)%nat /\
    (forall k f, (i <= k < c)%nat -> fs !! k = Some f -> f <= b) /\
    (forall f, fs !! c = Some f -> b < f).
Proof.
  intros Hfs; induction n as [|n IH]; intros i Hi; cbn [count_up_to].
  - exists i; split; [done|split; [lia|split; [lia|]]]; intros f Hf; apply lookup_lt_Some in Hf; lia.
  - destruct (lookup_lt_is_Some_2 fs i ltac:(lia)) as [f Ef]; rewrite (Hfs i f Ef); destruct (Z.ltb_spec b f).
    + exists i; split; [done|split; [lia|split; [lia|]]]; intros f' Hf; rewrite Ef in Hf; now injection Hf as <-.
    + destruct (IH (S i) ltac:(lia)) as (c & -> & Hc & Hbelow & Habove); exists c; split; [done|split; [lia|split; [|done]]].
      intros k f' Hk Hf; destruct (decide (k = i)) as [->|]; [rewrite Ef in Hf; injection Hf as <-; lia|].
      apply (Hbelow k); [lia|done].
Qed.

Lemma sorted_lookup {A} (R : A -> A -> Prop) l : StronglySorted R l ->
  forall i j a b, l !! i = Some a -> l !! j = Some b -> (i < j)%nat -> R a b.
Proof.
  intros H; induction H as [|x l Hl IH Hx]; intros i j a b Ha Hb Hij; [now rewrite lookup_nil in Ha|].
  destruct j as [|j]; [lia|]; cbn in Hb; destruct i as [|i]; cbn in Ha.
  - injection Ha as ->; exact (proj1 (Forall_lookup _ _) Hx j b Hb).
  - apply (IH i j); auto; lia.
Qed.

Lemma covers_spec b e : covers b e = true <-> e_block e <= b < e_block e + e_len e.
Proof. unfold covers; rewrite andb_true_iff, Z.leb_le, Z.ltb_lt; lia. Qed.

(** The walk ends in a leaf that holds the extent of the block, if there is one. *)
Lemma find_leaf_spec b d data es : ext_tree d data es ->
  forall st fuel, reader_ok st -> (d < fuel)%nat ->
  exists r st', ext4_find_leaf fuel data b st = Some (r, st') /\ reader_ok st' /\
    match r with
    | None => forall e, e ∈ es -> covers b e = false
    | Some leaf => exists es', leaf_of leaf es' /\ (forall e, e ∈ es' -> e ∈ es) /\
        forall e, e ∈ es -> covers b e = true -> e ∈ es'
    end.
Proof.
  induction 1 as [data es Hl|d data depth kids Hm Hd Hdz He Hk _ IH Hs]; intros st fuel Hst Hf;
    (destruct fuel as [|fuel]; [lia|]); cbn [ext4_find_leaf].
  - rewrite (leaf_magic _ _ Hl), (leaf_depth _ _ Hl); cbn [negb Z.eqb Pos.eqb].
    exists (Some data), st; split; [done|split; [done|]]; exists es; done.
  - rewrite Hm, Hd, He; cbn [negb Z.eqb Pos.eqb]; rewrite (proj2 (Z.eqb_neq depth 0) Hdz), Nat2Z.id.
    destruct (count_spec data b (map k_first kids)) with (n := length kids) (i := 0%nat) as (c & -> & Hc & Hbelow & Habove).
    { intros i f Hif; apply list_lookup_fmap_Some in Hif as (k & -> & Hk'); apply (Hk i k Hk'). }
    { now rewrite length_map. }
    assert (Hnone : forall i k e, kids !! i = Some k -> e ∈ k_exts k -> S i <> c -> covers b e = false).
    { intros i k e Hk' He' Hi; apply not_true_iff_false; rewrite covers_spec; intros Hcov.
      destruct (Hk i k Hk') as (_ & _ & _ & _ & Hfirst); specialize (Hfirst e He').
      destruct (decide (c <= i)%nat) as [Hci|Hci].
      - destruct (lookup_lt_is_Some_2 kids c) as [kc Hkc]; [apply lookup_lt_Some in Hk'; lia|].
        specialize (Habove (k_first kc)); rewrite list_lookup_fmap, Hkc in Habove; specialize (Habove eq_refl).
        destruct (decide (c = i)) as [->|]; [rewrite Hkc in Hk'; injection Hk' as ->; lia|].
        destruct (sorted_lookup _ _ Hs c i kc k Hkc Hk' ltac:(lia)); lia.
      - destruct (lookup_lt_is_Some_2 kids (S i)) as [k' Hk2]; [rewrite length_map in Hc; lia|].
        destruct (sorted_lookup _ _ Hs i (S i) k k' Hk' Hk2 ltac:(lia)) as [_ Hend]; specialize (Hend e He').
        pose proof (Hbelow (S i) (k_first k') ltac:(lia)) as Hb2; rewrite list_lookup_fmap, Hk2 in Hb2; specialize (Hb2 eq_refl); lia. }
    assert (Hin : forall e, e ∈ concat (map k_exts kids) <-> exists i k, kids !! i = Some k /\ e ∈ k_exts k).
    { intros e; rewrite list_elem_of_In, in_concat; split.
      - intros (l & Hl & He'); apply in_map_iff in Hl as (k & <- & Hk'); apply list_elem_of_In, list_elem_of_lookup in Hk' as [i Hi].
        exists i, k; split; [done|now apply list_elem_of_In].
      - intros (i & k & Hi & He'); exists (k_exts k); split; [|now apply list_elem_of_In].
        apply in_map_iff; exists k; split; [done|]; apply list_elem_of_In, (list_elem_of_lookup_2 _ _ _ Hi). }
    destruct c as [|c].
    + exists None, st; split; [done|split; [done|]]; intros e (i & k & Hi & He')%Hin; apply (Hnone i k e Hi He'); lia.
    + destruct (lookup_lt_is_Some_2 kids c) as [k Hkc]; [rewrite length_map in Hc; lia|].
      destruct (Hk c k Hkc) as (_ & (hi & lo & -> & -> & Eb) & Hkb & Hbd & _).
      rewrite Z.shiftl_mul_pow2 by lia; change (2 ^ 32) with 4294967296; rewrite <- Eb, u64_small by lia.
      destruct (read_block_ok st (k_block k) Hst Hkb) as (st1 & -> & Hst1).
      destruct (IH c k Hkc st1 fuel Hst1 ltac:(lia)) as (r & st' & E & Hst' & Hr); exists r, st'; split; [done|split; [done|]].
      assert (Hall : forall e, e ∈ concat (map k_exts kids) -> covers b e = true -> e ∈ k_exts k).
      { intros e (i & k' & Hi & He')%Hin Hcov; destruct (decide (S i = S c)) as [[= ->]|Hne].
        - rewrite Hkc in Hi; now injection Hi as ->.
        - rewrite (Hnone i k' e Hi He' Hne) in Hcov; done. }
      destruct r as [leaf|].
      * destruct Hr as (es' & Hl & Hsub & Hcov); exists es'; split; [done|split; [|auto]].
        intros e He'; apply Hin; exists c, k; auto.
      * intros e He'; apply not_true_iff_false; intros Hcov; specialize (Hall e He' Hcov); specialize (Hr e Hall); congruence.
Qed.

Lemma sorted_concat {A} (R : A -> A -> Prop) (ls : list (list A)) :
  (forall l, l ∈ ls -> StronglySorted R l) -> StronglySorted (fun l l' => forall a b, a ∈ l -> b ∈ l' -> R a b) ls ->
  StronglySorted R (concat ls).
Proof.
  intros H Hs; induction Hs as [|l ls Hs IH Hl]; cbn [concat]; [constructor|].
  assert (Hc : StronglySorted R (concat ls)) by (apply IH; set_solver).
  assert (Hcross : forall a, a ∈ l -> Forall (R a) (concat ls)).
  { intros a Ha; apply Forall_forall; intros b Hb; apply list_elem_of_In, in_concat in Hb as (l' & Hl' & Hb).
    apply list_elem_of_In in Hl', Hb; rewrite Forall_forall in Hl; exact (Hl l' Hl' a b Ha Hb). }
  assert (Hll : StronglySorted R l) by (apply H; set_solver); clear H IH Hl Hs.
  induction Hll as [|a l Hll IH Ha]; cbn [app]; [done|]; constructor; [apply IH; set_solver|].
  apply Forall_app; split; [done|apply Hcross; set_solver].
Qed.

Lemma sorted_map {A B} (f : A -> B) (R : B -> B -> Prop) l :
  StronglySorted (fun a b => R (f a) (f b)) l -> StronglySorted R (map f l).
Proof. induction 1 as [|a l H IH Ha]; cbn [map]; constructor; [done|]; now apply Forall_map. Qed.

Lemma ssorted_weaken {A} (R R' : A -> A -> Prop) l :
  (forall a b, a ∈ l -> b ∈ l -> R a b -> R' a b) -> StronglySorted R l -> StronglySorted R' l.
Proof.
  intros H Hs; induction Hs as [|a l Hs IH Ha]; constructor; [apply IH; set_solver|].
  rewrite Forall_forall in *; intros b Hb; apply H; [set_solver|set_solver|auto].
Qed.

(** The extents of a tree are sound, and in order. *)
Lemma tree_extents d data es : ext_tree d data es ->
  StronglySorted ahead es /\
  forall e, e ∈ es -> 0 <= e_block e /\ 0 <= e_len e < 65536 /\ e_block e + e_len e <= 4294967296 /\ 0 < e_start e < 281474976710656.
Proof.
  induction 1 as [data es Hl|d data depth kids Hm Hd Hdz He Hk _ IH Hs]; [split; apply Hl|].
  assert (Hat : forall k, k ∈ kids -> exists i, kids !! i = Some k) by (intros k Hk'; now apply list_elem_of_lookup).
  split.
  - apply sorted_concat.
    + intros l Hl; apply list_elem_of_In, in_map_iff in Hl as (k & <- & Hk'); apply list_elem_of_In, Hat in Hk' as [i Hi]; apply (IH i k Hi).
    + apply sorted_map; eapply ssorted_weaken; [|exact Hs]; cbn; intros k k' Hk1 Hk2 [_ Hend] a b Ha Hb.
      apply Hat in Hk2 as [j Hj]; destruct (Hk j k' Hj) as (_ & _ & _ & _ & Hf); specialize (Hend a Ha); specialize (Hf b Hb).
      unfold ahead; lia.
  - intros e Hin; apply list_elem_of_In, in_concat in Hin as (l & Hl & He'); apply in_map_iff in Hl as (k & <- & Hk').
    apply list_elem_of_In, Hat in Hk' as [i Hi]; apply (IH i k Hi); now apply list_elem_of_In.
Qed.

Lemma find_covering b es e : StronglySorted ahead es -> e ∈ es -> covers b e = true -> find (covers b) es = Some e.
Proof.
  intros Hs; induction Hs as [|x es Hs IH Hx]; intros He Hc; [now apply not_elem_of_nil in He|]; cbn [find].
  apply elem_of_cons in He as [->|He]; [now rewrite Hc|]; destruct (covers b x) eqn:Ex; [|auto].
  rewrite Forall_forall in Hx; specialize (Hx e He); apply covers_spec in Ex, Hc; unfold ahead in Hx; lia.
Qed.

Lemma ext_block_covered b es e : StronglySorted ahead es -> e ∈ es -> covers b e = true -> ext_block es b = e_start e + (b - e_block e).
Proof. intros Hs He Hc; unfold ext_block; now rewrite (find_covering b es e Hs He Hc). Qed.

Lemma ext_block_hole b es : (forall e, e ∈ es -> covers b e = false) -> ext_block es b = 0.
Proof.
  intros H; unfold ext_block; destruct (find (covers b) es) as [e|] eqn:E; [|done]; apply find_some in E as [He Hc].
  apply list_elem_of_In in He; now rewrite (H e He) in Hc.
Qed.

Lemma bmap_extent_step d p es b st fuel :
  ext_tree d (i_block p) es -> (d < fuel)%nat -> reader_ok st -> 0 <= b < 4294967296 ->
  exists nb st', bmap_extent fuel p b st = Some (ext_block es b, nb, st') /\ reader_ok st' /\
    match nb with
    | None => forall e, e ∈ es -> covers b e = false
    | Some cnt => 0 < cnt < 65536 /\ 0 < ext_block es b /\ forall j, 0 <= j < cnt -> ext_block es (b + j) = ext_block es b + j
    end.
Proof.
  intros Ht Hf Hst Hb; destruct (tree_extents d _ es Ht) as [Hs Hr].
  destruct (find_leaf_spec b d _ es Ht st fuel Hst Hf) as (r & st' & E & Hst' & Hleaf); unfold bmap_extent; rewrite E.
  destruct r as [leaf|]; [|exists None, st'; split; [now rewrite ext_block_hole|done]].
  destruct Hleaf as (es' & Hl & Hsub & Hcov); rewrite (leaf_entries _ _ Hl), Nat2Z.id.
  destruct (count_spec leaf b (map e_block es')) with (n := length es') (i := 0%nat) as (c & -> & Hc & Hbelow & Habove).
  { intros i f Hif; apply list_lookup_fmap_Some in Hif as (e & -> & He); apply (leaf_entry _ _ Hl i e He). }
  { now rewrite length_map. }
  assert (Hsole : forall i e, es' !! i = Some e -> covers b e = true -> S i = c).
  { intros i e He Hcv; apply covers_spec in Hcv; destruct (Nat.lt_trichotomy (S i) c) as [Hlt|[Heq|Hgt]]; [|done|].
    - destruct (lookup_lt_is_Some_2 es' (S i)) as [e' He']; [rewrite length_map in Hc; lia|].
      pose proof (sorted_lookup _ _ (leaf_sorted _ _ Hl) i (S i) e e' He He' ltac:(lia)) as Ha; unfold ahead in Ha.
      pose proof (Hbelow (S i) (e_block e') ltac:(lia)) as H2; rewrite list_lookup_fmap, He' in H2; specialize (H2 eq_refl); lia.
    - destruct (lookup_lt_is_Some_2 es' c) as [ec Hec]; [apply lookup_lt_Some in He; lia|].
      specialize (Habove (e_block ec)); rewrite list_lookup_fmap, Hec in Habove; specialize (Habove eq_refl).
      destruct (decide (c = i)) as [->|]; [rewrite Hec in He; injection He as ->; lia|].
      pose proof (sorted_lookup _ _ (leaf_sorted _ _ Hl) c i ec e Hec He ltac:(lia)) as Ha; unfold ahead in Ha.
      destruct (leaf_range _ _ Hl ec (list_elem_of_lookup_2 _ _ _ Hec)); lia. }
  assert (Hhole : (forall e, e ∈ es' -> covers b e = false) -> forall e, e ∈ es -> covers b e = false).
  { intros H e He; apply not_true_iff_false; intros Hcv; specialize (Hcov e He Hcv); specialize (H e Hcov); congruence. }
  assert (Hmiss : (forall i e, es' !! i = Some e -> S i <> c) -> forall e, e ∈ es -> covers b e = false).
  { intros H; apply Hhole; intros e He; apply not_true_iff_false; intros Hcv; apply list_elem_of_lookup in He as [i Hi].
    exact (H i e Hi (Hsole i e Hi Hcv)). }
  destruct c as [|c].
  { pose proof (Hmiss ltac:(intros; lia)) as Hh; exists None, st'; split; [now rewrite ext_block_hole|done]. }
  destruct (lookup_lt_is_Some_2 es' c) as [e He]; [rewrite length_map in Hc; lia|].
  destruct (leaf_entry _ _ Hl c e He) as (-> & -> & hi & lo & -> & -> & Est).
  pose proof (list_elem_of_lookup_2 _ _ _ He) as Hin; destruct (leaf_range _ _ Hl e Hin) as (R1 & R2 & R3 & R4).
  pose proof (Hbelow c (e_block e) ltac:(lia)) as Hle; rewrite list_lookup_fmap, He in Hle; specialize (Hle eq_refl).
  rewrite (u32_small (b - e_block e)) by lia; destruct (Z.leb_spec (e_len e) (b - e_block e)).
  - assert (Hh : forall e, e ∈ es -> covers b e = false).
    { apply Hhole; intros e2 He2; apply not_true_iff_false; intros Hcv; pose proof Hcv as Hcv'.
      apply list_elem_of_lookup in He2 as [i Hi]; pose proof (Hsole i e2 Hi Hcv) as [= ->].
      rewrite He in Hi; injection Hi as <-; apply covers_spec in Hcv'; lia. }
    exists None, st'; split; [now rewrite ext_block_hole|done].
  - rewrite Z.shiftl_mul_pow2 by lia; change (2 ^ 32) with 4294967296; rewrite <- Est, (u64_small (e_start e)), u64_small by lia.
    assert (Hblk : forall j, 0 <= j < e_len e - (b - e_block e) -> ext_block es (b + j) = e_start e + (b + j - e_block e)).
    { intros j Hj; apply ext_block_covered; [done|now apply Hsub|apply covers_spec; lia]. }
    pose proof (Hblk 0 ltac:(lia)) as H0; rewrite Z.add_0_r in H0; rewrite <- H0.
    exists (Some (e_len e - (b - e_block e))), st'; split; [done|split; [done|split; [lia|split; [lia|]]]].
    intros j Hj; rewrite Hblk, H0 by lia; lia.
Qed.
End tree.

(** ** The driver *)

(** A file whose blocks are known to the end: its tables are all there, or its extents
    cover it.  [fblock] is where the blocks are, 0 for a block of zeroes. *)
Inductive file_sound {St : Type} {reader : BlockReader St} (bytes : Z -> list Z) (bound block_shift : Z) (fuel : nat)
    (p : ext2_pvt) (nblk : Z) (fblock : Z -> Z) : Prop :=
  | sound_map :
      Z.land (flags p) EXT4_EXTENTS_FLAG = 0 -> inode_block p -> nblk <= map_size block_shift ->
      10 <= block_shift <= 12 -> (forall b, length (bytes b) = Z.to_nat (2 ^ block_shift) /\ Forall is_byte (bytes b)) ->
      (forall b, 0 <= b < nblk -> no_gap_at (bytes := bytes) block_shift p b) ->
      (forall b, 0 <= b < nblk -> file_map (bytes := bytes) block_shift p !! Z.to_nat b = Some (fblock b) /\ fblock b < 4294967295) ->
      file_sound bytes bound block_shift fuel p nblk fblock
  | sound_tree d es :
      Z.land (flags p) EXT4_EXTENTS_FLAG <> 0 -> ext_tree (bytes := bytes) (bound := bound) d (i_block p) es -> (d < fuel)%nat ->
      nblk <= 4294967296 ->
      (forall b, 0 <= b < nblk -> exists e, e ∈ es /\ covers b e = true) ->
      (forall b, 0 <= b < nblk -> fblock b = ext_block es b) ->
      file_sound bytes bound block_shift fuel p nblk fblock.

Section bmap.
Context {St : Type} {reader : BlockReader St} {bytes : Z -> list Z} {bound : Z} {laws : BlockReaderLaws St bytes bound}.
Context (block_shift : Z) (fuel : nat) (fblock : Z -> Z).
Hypothesis bound_range : 4294967296 <= bound.

(** What is stored through [nblocks] is a run within the file. *)
Lemma bmap_good n p b st :
  file_sound bytes bound block_shift fuel p n fblock -> reader_ok st -> 0 <= b < n ->
  exists cnt st', ext2_bmap block_shift fuel p b st = Some (fblock b, Some cnt, st') /\ reader_ok st' /\
    0 <= fblock b < 562949953421312 /\ 0 < cnt <= 65536 /\
    forall j, 0 <= j < cnt -> b + j < n -> fblock (b + j) = if fblock b =? 0 then 0 else fblock b + j.
Proof.
  intros Hs Hst Hb; unfold ext2_bmap; destruct Hs as [Hf Hp Hn Hsh Hbytes Hgap Hmap|d es Hf Ht Hd Hn Hcov Hmap].
  - rewrite Hf; cbn [Z.eqb negb].
    destruct (bmap_traditional_step block_shift Hsh bound_range Hbytes p b st Hp Hst ltac:(lia)) as (r & -> & v & cnt & st' & -> & Hst' & Hv & Hl & Hc & Hr).
    destruct (Hr (Hgap b Hb)) as [Hca Hrun]; destruct (Hmap b Hb) as [Hm Hlt]; rewrite Hm in Hl; injection Hl as <-.
    assert (Ha : 256 <= addr_count block_shift <= 1024) by (eapply addr_count_eq; eassumption).
    exists cnt, st'; split; [done|split; [done|split; [lia|split; [lia|]]]].
    assert (Hat : forall j, 0 <= j < cnt -> b + j < n -> fblock (b + j) = run (fblock b) j /\ fblock (b + j) < 4294967295).
    { intros j Hj Hbj; destruct (Hmap (b + j) ltac:(lia)) as [Hmj Hltj]; rewrite (Hrun j Hj) in Hmj; injection Hmj as Hmj; split; [congruence|exact Hltj]. }
    intros j Hj Hbj; destruct (Hat j Hj Hbj) as [-> Hltj]; unfold run; destruct (Z.eqb_spec (fblock b) 0); [done|].
    destruct (Z_lt_ge_dec (fblock b + j) 4294967296); [now apply u32_small; lia|].
    destruct (Hat (4294967295 - fblock b) ltac:(lia) ltac:(lia)) as [E Hlt2]; unfold run in E.
    rewrite (proj2 (Z.eqb_neq (fblock b) 0)) in E by done; replace (fblock b + (4294967295 - fblock b)) with 4294967295 in E by lia.
    rewrite E in Hlt2; now vm_compute in Hlt2.
  - rewrite (proj2 (Z.eqb_neq _ 0) Hf), u32_small by lia; cbn [negb].
    destruct (bmap_extent_step d p es b st fuel Ht Hd Hst ltac:(lia)) as (nb & st' & -> & Hst' & Hnb).
    destruct (Hcov b Hb) as (e & He & Hc); destruct (tree_extents d _ es Ht) as [Hs Hr]; specialize (Hr e He).
    assert (Hv : ext_block es b < 562949953421312).
    { rewrite (ext_block_covered b es e Hs He Hc); apply covers_spec in Hc; lia. }
    destruct nb as [cnt|]; [|now rewrite (Hnb e He) in Hc].
    destruct Hnb as (Hcnt & Hpos & Hrun); exists cnt, st'; rewrite (Hmap b Hb); split; [done|split; [done|split; [lia|split; [lia|]]]].
    intros j Hj Hbj; rewrite (proj2 (Z.eqb_neq (ext_block es b) 0)) by lia; rewrite (Hmap (b + j)) by lia; auto.
Qed.

End bmap.

Section driver.
Context {St : Type} {reader : BlockReader St} {bytes : Z -> list Z} {bound : Z} {laws : BlockReaderLaws St bytes bound}.
Context (disk : Z -> list Z) (block_shift sector_shift : Z) (fuel : nat) (fsize : Z) (fblock : Z -> Z).
Notation sector_size := (2 ^ sector_shift).
Notation unit := (2 ^ (block_shift - sector_shift)).

Hypothesis bound_range : 4294967296 <= bound.
Hypothesis shifts : 9 <= sector_shift < 16 /\ sector_shift <= block_shift <= 16.
Hypothesis size_range : 0 <= fsize <= 4294967296 - sector_size.

Definition nsec : Z := (fsize + sector_size - 1) / sector_size.
Definition nblk : Z := (nsec + unit - 1) / unit.

(** The file's sectors. *)
Definition ext2_sector_of (l : Z) : list Z :=
  let v := fblock (l / unit) in
  if v =? 0 then replicate (Z.to_nat sector_size) 0 else disk (v * unit + l mod unit).

Definition sound (p : ext2_pvt) : Prop := file_sound bytes bound block_shift fuel p nblk fblock.

Lemma unit_range : 1 <= unit <= 128 /\ 512 <= sector_size <= 32768.
Proof.
  split; [split; [apply (Z.pow_le_mono_r 2 0)|apply (Z.pow_le_mono_r 2 _ 7)]|
    split; [apply (Z.pow_le_mono_r 2 9)|apply (Z.pow_le_mono_r 2 _ 15)]]; lia.
Qed.

Lemma nsec_bound : 0 <= nsec < 8388608 /\ nsec <= nblk * unit.
Proof.
  pose proof unit_range as [Hu Hss]; unfold nblk, nsec; set (n := (fsize + sector_size - 1) / sector_size).
  assert (Hn : 0 <= n < 8388608).
  { unfold n; split; [apply Z.div_pos; lia|apply Z.div_lt_upper_bound; lia]. }
  pose proof (Z.div_mod (n + unit - 1) unit ltac:(lia)); pose proof (Z.mod_pos_bound (n + unit - 1) unit ltac:(lia)); lia.
Qed.

Lemma ext2_extent_spec (i : inode ext2_pvt) l st :
  sound (pvt i) -> reader_ok st -> 0 <= l < nsec -> (unit | l) ->
  exists n st', ext2_next_extent block_shift sector_shift fuel i l st = Some (0, set_nextx n i, st') /\
    reader_ok st' /\ 0 <= pstart n /\ 0 < len n /\
    extent_ok disk ext2_sector_of nsec sector_size unit (Extent (pstart n) l (len n)).
Proof.
  intros Hp Hst Hl [b Hb]; pose proof unit_range as [Hu Hss]; pose proof nsec_bound as [Hn Hnb].
  assert (Hbr : 0 <= b < nblk) by nia.
  destruct (bmap_good block_shift fuel fblock bound_range nblk (pvt i) b st Hp Hst Hbr) as (cnt & st' & E & Hst' & Hv & Hc & Hrun); unfold ext2_next_extent.
  rewrite Z.shiftr_div_pow2 by lia; replace (l / unit) with b by (subst l; now rewrite Z.div_mul by lia); rewrite E; cbn [default].
  assert (Hmask : Z.land l (Z.shiftl 1 (block_shift - sector_shift) - 1) = 0).
  { rewrite Z.shiftl_1_l; replace (unit - 1) with (Z.ones (block_shift - sector_shift)) by (rewrite Z.ones_equiv; lia).
    rewrite Z.land_ones by lia; subst l; now apply Z.mod_mul; lia. }
  rewrite Hmask, Z.lor_0_r, Z.sub_0_r, !Z.shiftl_mul_pow2 by lia; unfold id.
  assert (Hlen : 0 < cnt * unit <= 8388608) by nia.
  assert (Hps : 0 <= fblock b * unit < 72057594037927936) by nia.
  rewrite (u64_small (fblock b * unit)), (u32_small (cnt * unit)) by lia.
  assert (Hin : forall l', l <= l' < l + cnt * unit -> 0 <= l' / unit - b < cnt).
  { intros l' Hl'; assert (b <= l' / unit) by (apply Z.div_le_lower_bound; lia).
    assert (l' / unit < b + cnt) by (apply Z.div_lt_upper_bound; lia); lia. }
  eexists _, st'; split; [reflexivity|]; cbn [pstart len].
  split; [done|split; [destruct (fblock b =? 0); unfold EXTENT_ZERO; lia|split; [lia|]]].
  split; cbn [pstart Getfssec.lstart len]; try lia; [destruct (fblock b =? 0); unfold EXTENT_ZERO; lia|exists (b + cnt); lia|].
  intros _; destruct (Z.eqb_spec (fblock b) 0) as [E0|E0]; [left|right; unfold EXTENT_VOID; cbn [pstart Getfssec.lstart len]; split; [lia|split; [lia|]]].
  - split; [done|]; intros l' Hl' Hn'; unfold ext2_sector_of.
    cbn [pstart Getfssec.lstart len] in Hl'; pose proof (Hin l' Hl') as Hq.
    assert (l' / unit < nblk) by (apply Z.div_lt_upper_bound; lia).
    pose proof (Hrun (l' / unit - b) Hq ltac:(lia)) as Hr.
    replace (b + (l' / unit - b)) with (l' / unit) in Hr by lia; now rewrite Hr.
  - intros l' Hl' Hn'; unfold ext2_sector_of; pose proof (Z.div_mod l' unit ltac:(lia)) as Hd; cbn [pstart Getfssec.lstart] in *.
    cbn [pstart Getfssec.lstart len] in Hl'; pose proof (Hin l' Hl') as Hq.
    assert (l' / unit < nblk) by (apply Z.div_lt_upper_bound; lia).
    pose proof (Hrun (l' / unit - b) Hq ltac:(lia)) as Hr.
    replace (b + (l' / unit - b)) with (l' / unit) in Hr by lia; rewrite Hr, (proj2 (Z.eqb_neq (fblock b + _) 0)) by lia.
    f_equal; nia.
Qed.

(** The driver's instance of the class, and its promise. *)
#[local] Instance ext2_driver : NextExtent ext2_pvt St := {| fs_next_extent := ext2_next_extent block_shift sector_shift fuel |}.

#[local] Instance ext2_driver_laws : NextExtentLaws ext2_pvt St disk ext2_sector_of nsec sector_size unit fsize.
Proof.
  refine {| ext_inode p st := sound p /\ reader_ok st; ext_reliable := True |}.
  intros i l st [Hp Hst] Hs Hl Hu; destruct (ext2_extent_spec i l st Hp Hst Hl Hu) as (n & st' & E & Hst' & Hn & Hlen & He).
  exists 0, n, (pvt i), st'; split; [|done]; split; [|done]; exact E.
Defined.

(** A file as it is after it was found: nothing is mapped yet. *)
Definition new_file (p : ext2_pvt) : file ext2_pvt := File 0 (Inode DT_REG fsize (Extent 0 0 0) (Extent 0 0 0) p).

Lemma new_file_ok p st : sound p -> reader_ok st ->
  file_ok disk ext2_sector_of sector_shift nsec unit fsize ext2_driver_laws (new_file p) st.
Proof.
  intros Hp Hst; pose proof unit_range as [Hu Hss].
  assert (E : extent_ok disk ext2_sector_of nsec sector_size unit (Extent 0 0 0))
    by (split; cbn; try lia; apply Z.divide_0_r).
  split; [split; [split; done|done..]|cbn; lia|intros _; cbn; rewrite Z.div_0_l by lia; split; [apply Z.divide_0_r|done]].
Qed.
End driver.

(** ** Correctness *)

(** The block of a file is the one that stands in its place when all pointers are
    written in a row - the twelve of the inode, those of the table, of the tables behind
    the double and of those behind the triple one, zeroes where a table is missing -,
    and when no table is missing on the way, the run answered goes on in the file. *)
Theorem bmap_traditional_correct {St : Type} {reader : BlockReader St} {bytes bound} {laws : BlockReaderLaws St bytes bound}
    block_shift p b st :
  10 <= block_shift <= 12 -> 4294967296 <= bound ->
  (forall b, length (bytes b) = Z.to_nat (2 ^ block_shift) /\ Forall is_byte (bytes b)) ->
  inode_block p -> reader_ok st -> 0 <= b < map_size block_shift ->
  exists v cnt st', bmap_traditional block_shift p b st = Some (v, Some cnt, st') /\ reader_ok st' /\
    file_map (bytes := bytes) block_shift p !! Z.to_nat b = Some v /\ 0 < cnt /\
    (no_gap_at (bytes := bytes) block_shift p b ->
      forall j, 0 <= j < cnt -> file_map (bytes := bytes) block_shift p !! Z.to_nat (b + j) = Some (run v j)).
Proof.
  intros Hs Hb Hbytes Hp Hst Hr.
  destruct (bmap_traditional_step block_shift Hs Hb Hbytes p b st Hp Hst Hr) as (r & -> & v & cnt & st' & -> & H1 & _ & H2 & H3 & H4).
  exists v, cnt, st'; split; [done|split; [done|split; [done|split; [done|]]]]; intros Hg; apply (H4 Hg).
Qed.

(** The block of a file with extents is the one that its extents say, however deep
    the tree is they are found in; with it comes what is left of the extent, and
    nothing is stored for a block outside of all extents. *)
Theorem bmap_extent_correct {St : Type} {reader : BlockReader St} {bytes bound} {laws : BlockReaderLaws St bytes bound}
    d p es b st fuel :
  ext_tree (bytes := bytes) (bound := bound) d (i_block p) es -> (d < fuel)%nat -> reader_ok st -> 0 <= b < 4294967296 ->
  exists nb st', bmap_extent fuel p b st = Some (ext_block es b, nb, st') /\ reader_ok st' /\
    match nb with
    | None => forall e, e ∈ es -> covers b e = false
    | Some cnt => 0 < cnt < 65536 /\ 0 < ext_block es b /\ forall j, 0 <= j < cnt -> ext_block es (b + j) = ext_block es b + j
    end.
Proof. apply bmap_extent_step. Qed.

Section stack.
Context (rdwr_sectors : list Z -> Z -> Z -> list Z) (disk : Z -> list Z).
Context (block_shift sector_shift : Z) (fuel : nat) (p : ext2_pvt) (fsize : Z) (fblock : Z -> Z).
Notation sector_size := (2 ^ sector_shift).
Notation block_size := (2 ^ block_shift).

#[local] Instance stack_reader : BlockReader device := cache_reader sector_size rdwr_sectors.
#[local] Instance stack_driver : NextExtent ext2_pvt device := ext2_driver block_shift sector_shift fuel.

Hypothesis shifts : 9 <= sector_shift < 16 /\ sector_shift <= block_shift < 16.
Hypothesis size_range : 0 < fsize <= 4294967296 - sector_size.
Hypothesis disk_ok : forall s, Z.of_nat (length (disk s)) = sector_size.
Hypothesis rdwr_ok : forall old lba n, 0 <= lba -> 0 <= n ->
  Z.of_nat (length old) = n * sector_size ->
  rdwr_sectors old lba n = concat (map disk (seqZ lba n)).

(** The bytes of the file: its blocks one after the other, zeroes for a hole. *)
Definition ext2_file_bytes : list Z :=
  take (Z.to_nat fsize) (concat (map (ext2_sector_of disk block_shift sector_shift fblock) (seqZ 0 (nsec sector_shift fsize)))).

(** C14: a file whose tables are all there, or whose extents cover it, is read whole and
    exactly, holes of the tables as zeroes, through the runs the driver finds in the
    tables or the tree, these through the block cache, and the cache from the disk,
    whatever the cache held before and however many sectors are read at a time. *)
Theorem ext2_read_correct dev l sectors :
  file_sound (content sector_size disk block_size) 281474976710656 block_shift fuel p
    (nblk block_shift sector_shift fsize) fblock ->
  cache_inv sector_size disk dev l -> l <> [] -> cache_block_size dev = block_size ->
  0 < sectors -> sectors * sector_size < 2147483648 ->
  exists dev', read_whole sector_shift rdwr_sectors (Z.to_nat (nsec sector_shift fsize))
    (Some (new_file fsize p)) sectors dev = Some (ext2_file_bytes, dev').
Proof.
  intros Hp I Hl Hb Hs Hsb.
  assert (Hss : 0 < sector_size) by (apply Z.pow_pos_nonneg; lia).
  assert (Hdiv : (sector_size | block_size) /\ 0 < block_size < 65536).
  { split; [exists (2 ^ (block_shift - sector_shift)); rewrite <- Z.pow_add_r by lia; f_equal; lia|].
    split; [apply Z.pow_pos_nonneg; lia|apply (Z.pow_lt_mono_r 2 _ 16); lia]. }
  set (laws := cache_reader_laws sector_size rdwr_sectors disk block_size Hss disk_ok rdwr_ok Hdiv).
  assert (Hr : @reader_ok _ _ _ _ laws dev) by (exists l; auto).
  assert (Hsz : 0 <= fsize <= 4294967296 - sector_size) by lia.
  assert (Hsh : 9 <= sector_shift < 16 /\ sector_shift <= block_shift <= 16) by lia.
  assert (Hbd : 4294967296 <= 281474976710656) by lia.
  destruct (read_whole_step disk (ext2_sector_of disk block_shift sector_shift fblock) sector_shift (nsec sector_shift fsize)
    (2 ^ (block_shift - sector_shift)) fsize
    (@ext2_driver_laws device _ _ _ laws disk block_shift sector_shift fuel fsize fblock Hbd Hsh Hsz)
    rdwr_sectors) with (fuel := Z.to_nat (nsec sector_shift fsize)) (sectors := sectors)
    (f := new_file fsize p) (st := dev) as (dev' & E); auto; try exact Logic.I; try lia.
  - intros s _; unfold ext2_sector_of; destruct (_ =? 0); [rewrite length_replicate; lia|apply disk_ok].
  - apply (new_file_ok disk block_shift sector_shift fuel fsize fblock Hbd Hsh Hsz p dev Hp Hr).
  - cbn; lia.
  - cbn [offset new_file]; rewrite Z.div_0_l by lia; lia.
  - exists dev'; exact E.
Qed.
End stack.

(** ** Small volumes *)

(** Blocks of 1024 bytes; the block 5 is a table of the pointers 100 to 355, but for a
    hole; all others are zeroes. *)
Definition table_bytes (b : Z) : list Z :=
  if b =? 5 then blit 12 [0; 0; 0; 0] (concat (map bytes_32 (seqZ 100 256))) else replicate 1024 0.
#[local] Instance table_reader : BlockReader () := {| read_block b st := Some (table_bytes b, st) |}.
#[local] Instance table_laws : BlockReaderLaws () table_bytes 4294967296.
Proof. refine {| reader_ok _ := True |}; intros st b _ _; now exists st. Defined.

Definition table_inode : ext2_pvt := Pvt (blit 48 [5; 0; 0; 0] (replicate 60 0)) 0.

Lemma table_bytes_ok b : length (table_bytes b) = Z.to_nat (2 ^ 10) /\ Forall is_byte (table_bytes b).
Proof.
  unfold table_bytes; destruct (b =? 5).
  - split; [vm_compute; reflexivity|apply bytes_ok; vm_compute; reflexivity].
  - split; [vm_compute; reflexivity|apply Forall_replicate; split; reflexivity].
Qed.

Lemma bmap_traditional_correct_witness :
  exists v cnt st', bmap_traditional 10 table_inode 17 () = Some (v, Some cnt, st') /\ reader_ok st' /\
    file_map (bytes := table_bytes) 10 table_inode !! Z.to_nat 17 = Some v /\ 0 < cnt /\
    (no_gap_at (bytes := table_bytes) 10 table_inode 17 ->
      forall j, 0 <= j < cnt -> file_map (bytes := table_bytes) 10 table_inode !! Z.to_nat (17 + j) = Some (run v j)).
Proof.
  refine (bmap_traditional_correct (laws := table_laws) 10 table_inode 17 () _ _ table_bytes_ok _ _ _).
  - lia.
  - lia.
  - split; [reflexivity|apply bytes_ok; reflexivity].
  - exact Logic.I.
  - vm_compute; split; [discriminate|reflexivity].
Defined.

(** The block 17 is the sixth of the table, 105, and 250 more follow; the fourth is a
    hole of one block. *)
Example table_values :
  bmap_traditional 10 table_inode 17 () = Some (105, Some 251, ()) /\
  bmap_traditional 10 table_inode 15 () = Some (0, Some 1, ()).
Proof. split; vm_compute; reflexivity. Qed.

(** The double table is missing, and from the middle of what is behind it as many
    zeroes are answered as from its beginning: more than there are. *)
Example gap_from_the_middle :
  bmap_traditional 10 table_inode (12 + 256) () = Some (0, Some (256 * 256), ()) /\
  bmap_traditional 10 table_inode (12 + 256 + 65535) () = Some (0, Some (256 * 256), ()).
Proof. split; vm_compute; reflexivity. Qed.

(** A root with two extents: the blocks 0 and 1 at 10, the block 2 at 20. *)
Definition two_extents : list ext := [Ext 0 2 10; Ext 2 1 20].
Definition leaf_bytes : list Z :=
  [10; 243; 2; 0; 4; 0; 0; 0; 0; 0; 0; 0] ++
  [0; 0; 0; 0; 2; 0; 0; 0; 10; 0; 0; 0] ++ [2; 0; 0; 0; 1; 0; 0; 0; 20; 0; 0; 0] ++ replicate 24 0.
Definition leaf_inode : ext2_pvt := Pvt leaf_bytes EXT4_EXTENTS_FLAG.

Lemma two_extents_leaf : leaf_of leaf_bytes two_extents.
Proof.
  split; try reflexivity.
  - intros [|[|i]] e H; cbn in H; try discriminate; injection H as <-;
      (split; [reflexivity|split; [reflexivity|]]); eexists 0, _; (split; [reflexivity|split; [reflexivity|reflexivity]]).
  - intros e He; apply list_elem_of_In in He; destruct He as [<-|[<-|[]]]; cbn; lia.
  - repeat constructor; unfold ahead; cbn; lia.
Qed.

Lemma bmap_extent_correct_witness :
  exists nb st', bmap_extent 1 leaf_inode 1 () = Some (ext_block two_extents 1, nb, st') /\ reader_ok st' /\
    match nb with
    | None => forall e, e ∈ two_extents -> covers 1 e = false
    | Some cnt => 0 < cnt < 65536 /\ 0 < ext_block two_extents 1 /\
        forall j, 0 <= j < cnt -> ext_block two_extents (1 + j) = ext_block two_extents 1 + j
    end.
Proof.
  apply (bmap_extent_correct (laws := table_laws) 0 leaf_inode two_extents 1 () 1); try done; try lia.
  constructor; exact two_extents_leaf.
Defined.

(** Behind the extents nothing is stored, and the run is empty: what reads a file with
    a hole stops there. *)
Example hole_of_extents :
  bmap_extent 1 leaf_inode 3 () = Some (0, None, ()) /\
  option_map (fun r => next_extent r.1.2) (ext2_next_extent 10 9 1 (f_inode (new_file 9000 leaf_inode)) 6 ()) =
    Some (Extent EXTENT_ZERO 0 0).
Proof. split; vm_compute; reflexivity. Qed.

Definition tiny_disk (s : Z) : list Z := replicate 512 (u8 s).
Definition tiny_rdwr (old : list Z) (lba n : Z) : list Z := concat (map tiny_disk (seqZ lba n)).
Definition tiny_dev : device := cache_init (Dev false (replicate 4000 0) false 0 0 4000 []) 10.

Lemma ext2_read_correct_witness :
  exists dev', @read_whole _ _ (stack_driver tiny_rdwr 10 9 1) 9 tiny_rdwr 6
    (Some (new_file 2570 leaf_inode)) 4 tiny_dev =
    Some (concat (map (fun s => replicate 512 s) [20; 21; 22; 23; 40]) ++ replicate 10 41, dev').
Proof.
  assert (Hsound : file_sound (reader := stack_reader tiny_rdwr 9) (content (2 ^ 9) tiny_disk (2 ^ 10)) 281474976710656 10 1 leaf_inode
    (nblk 10 9 2570) (ext_block two_extents)).
  { apply (sound_tree _ _ _ _ _ _ _ 0 two_extents); [discriminate|constructor; exact two_extents_leaf|lia|discriminate| |done].
    intros b Hb; change (nblk 10 9 2570) with 3 in Hb.
    destruct (Z_lt_ge_dec b 2); [exists (Ext 0 2 10)|exists (Ext 2 1 20)];
      (split; [apply list_elem_of_In; cbn; auto|apply covers_spec; cbn; lia]). }
  assert (Hinv : cache_inv (2 ^ 9) tiny_disk tiny_dev [1; 2; 3]%nat).
  { change [1; 2; 3]%nat with (seq 1 (Z.to_nat ((4000 - sizeof_cache) / (2 ^ 10 + sizeof_cache)))).
    apply (cache_init_step (2 ^ 9) tiny_disk) with (shift := 10) (dev := Dev false (replicate 4000 0) false 0 0 4000 []);
      cbn; unfold is_u32, sizeof_cache; try lia; try done; now exists 2. }
  destruct (ext2_read_correct tiny_rdwr tiny_disk 10 9 1 leaf_inode 2570 (ext_block two_extents))
    with (dev := tiny_dev) (l := [1; 2; 3]%nat) (sectors := 4) as (dev' & H);
    [lia|lia|intros s; unfold tiny_disk; now rewrite length_replicate|intros; reflexivity|exact Hsound|exact Hinv|discriminate|reflexivity|lia|lia|].
  exists dev'; change (Z.to_nat (nsec 9 2570)) with 6%nat in H; rewrite H; do 2 f_equal; vm_compute; reflexivity.
Defined.
