(* ===== verification/Ext2.v ===== *)
(** * The driver of ext2, ext3 and ext4: core/fs/ext2/ext2.c

    The superblock, the inodes in their groups, directories and symbolic links, over
    the block map of [Ext2Map]. *)

From S2P Require Import Prelude Cache Getfssec Ext2Map.

Open Scope word_scope.

(** ** Data *)

Notation EXT2_SUPER_MAGIC := 0xEF53.
Notation EXT2_ROOT_INO := 2.
Notation size_of_group_desc := 32.
Notation size_of_inode := 128%nat.

(** The fields of the superblock that are used.
    [src/core/fs/ext2/ext2_fs.h:69-139 struct ext2_super_block] *)
Definition s_blocks_count (sb : list Z) : Z := get_32 sb 4.
Definition s_first_data_block (sb : list Z) : Z := get_32 sb 20.
Definition s_log_block_size (sb : list Z) : Z := get_32 sb 24.
Definition s_blocks_per_group (sb : list Z) : Z := get_32 sb 32.
Definition s_inodes_per_group (sb : list Z) : Z := get_32 sb 40.
Definition s_magic (sb : list Z) : Z := get_16 sb 56.
Definition s_inode_size (sb : list Z) : Z := get_16 sb 88.
Definition s_uuid (sb : list Z) : list Z := slice 104 16 sb.
Definition s_desc_size (sb : list Z) : Z := get_16 sb 254.

(** [src/core/fs/ext2/ext2_fs.h:272-281 struct ext2_sb_info] *)
Record ext2_sb_info := Sb {
  inodes_per_block : Z; inodes_per_group : Z; blocks_per_group : Z; desc_per_block : Z;
  groups_count : Z; first_data_block : Z; inode_size : Z; uuid : list Z
}.

(** [src/core/fs/ext2/ext2_fs.h:152-161 struct ext2_group_desc] *)
Definition bg_inode_table (desc : list Z) : Z := get_32 desc 8.

(** An inode in memory; flags and pointers are in [i_pvt].
    [src/core/fs/ext2/ext2.c:147-159 fill_inode] *)
Record ext2_inode := Inode2 {
  i_mode : Z; i_size : Z; i_atime : Z; i_ctime : Z; i_mtime : Z; i_dtime : Z; i_blocks : Z; i_file_acl : Z;
  i_pvt : ext2_pvt
}.

(** From the bytes of the inode on the disk; the mode is its upper four bits.
    [src/core/fs/ext2/ext2.c:147-159 fill_inode] *)
Definition fill_inode (e : list Z) : ext2_inode :=
  Inode2 (Z.shiftr (Z.land (get_16 e 0) 0xf000) 12) (get_32 e 4) (get_32 e 8) (get_32 e 12) (get_32 e 16) (get_32 e 20)
    (get_32 e 28) (get_32 e 104) (Pvt (slice 40 60 e) (get_32 e 32)).

(** The entry of a directory that begins at [off].
    [src/core/fs/ext2/ext2_fs.h:209-215 struct ext2_dir_entry] *)
Definition d_inode (data : list Z) (off : nat) : Z := get_32 data off.
Definition d_rec_len (data : list Z) (off : nat) : Z := get_16 data (off + 4).
Definition d_name_len (data : list Z) (off : nat) : Z := byte_at data (off + 6).
Definition d_file_type (data : list Z) (off : nat) : Z := byte_at data (off + 7).
Definition d_name (data : list Z) (off : nat) : list Z := slice (off + 8) (Z.to_nat (d_name_len data off)) data.

(** The type of an entry; the test lets one index through that is past the table.
    [src/core/fs/ext2/ext2.c:15-26 ext2_cvt_type] *)
Definition ext2_cvt_type (d_file_type : Z) : option dirent_type :=
  if 8 <? d_file_type then Some DT_UNKNOWN
  else [DT_UNKNOWN; DT_REG; DT_DIR; DT_CHR; DT_BLK; DT_FIFO; DT_SOCK; DT_LNK] !! Z.to_nat d_file_type.

(** [src/com32/include/sys/dirent.h:15-21 struct dirent] *)
Record dirent := Dirent { d_ino : Z; d_off : Z; d_reclen : Z; d_type : dirent_type; d_text : list Z }.

Section driver.
Context {St : Type} {reader : BlockReader St}.
Variables block_shift sector_shift : Z.
Variable fuel : nat.
Variable sbi : ext2_sb_info.
Notation block_size := (Z.shiftl 1 block_shift).

(** ** Inodes *)

(** The descriptor of a group: [None] inside is NULL; it is in one block by the number
    of descriptors in a block, and at a multiple of the size of the structure.
    [src/core/fs/ext2/ext2.c:31-54 ext2_get_group_desc] *)
Definition ext2_get_group_desc (group_num : Z) (st : St) : option (option (list Z) * St) :=
  if groups_count sbi <=? group_num then Some (None, st)
  else if desc_per_block sbi =? 0 then None
  else
    let desc_block := group_num / desc_per_block sbi in
    let desc_index := group_num mod desc_per_block sbi in
    let* (data, st) := read_block (desc_block ⊞ u32 (first_data_block sbi + 1)) st in
    let off := Z.to_nat (desc_index * size_of_group_desc) in
    if (off + 32 <=? length data)%nat then Some (Some (slice off 32 data), st) else None.

(** The bytes of an inode; [None] inside is NULL.
    [src/core/fs/ext2/ext2.c:122-145 ext2_get_inode] *)
Definition ext2_get_inode (inr : Z) (st : St) : option (option (list Z) * St) :=
  let inr := u32 (inr - 1) in
  if (inodes_per_group sbi =? 0) || (inodes_per_block sbi =? 0) then None
  else
    let inode_group := inr / inodes_per_group sbi in
    let inode_offset := inr mod inodes_per_group sbi in
    let* (desc, st) := ext2_get_group_desc inode_group st in
    match desc with
    | None => Some (None, st)
    | Some desc =>
        let block_num := bg_inode_table desc ⊞ (inode_offset / inodes_per_block sbi) in
        let block_off := inode_offset mod inodes_per_block sbi in
        let* (data, st) := read_block block_num st in
        let off := Z.to_nat (block_off * inode_size sbi) in
        if (off + size_of_inode <=? length data)%nat then Some (Some (slice off size_of_inode data), st) else None
    end.

(** [granted]: whether there is memory for the inode.
    [src/core/fs/ext2/ext2.c:161-175 ext2_iget_by_inr] *)
Definition ext2_iget_by_inr (granted : bool) (inr : Z) (st : St) : option (option ext2_inode * St) :=
  let* (e, st) := ext2_get_inode inr st in
  Some ((let* e := e in if granted then Some (fill_inode e) else None), st).

(** [src/core/fs/ext2/ext2.c:177-180 ext2_iget_root] *)
Definition ext2_iget_root (granted : bool) (st : St) : option (option ext2_inode * St) :=
  ext2_iget_by_inr granted EXT2_ROOT_INO st.

(** ** Directories *)

(** [src/core/fs/ext2/ext2.c:81-86 ext2_get_cache] *)
Definition ext2_get_cache (p : ext2_pvt) (lblock : Z) (st : St) : option (list Z * St) :=
  let* (pblock, _, st) := ext2_bmap block_shift fuel p lblock st in
  read_block pblock st.

(** [None]: the name is compared past the end of the block.
    [src/core/fs/ext2/ext2.c:59-67 ext2_match_entry] *)
Definition ext2_match_entry (name : list Z) (data : list Z) (off : nat) : option bool :=
  if d_inode data off =? 0 then Some false
  else if negb (Z.of_nat (length name) =? d_name_len data off) then Some false
  else if (off + 8 + length name <=? length data)%nat then Some (bool_decide (name = d_name data off))
  else None.

(** The entries of a block: where the one of the name is.
    [src/core/fs/ext2/ext2.c:106-115 ext2_find_entry] *)
Fixpoint find_in_block (n : nat) (dname data : list Z) (offset maxoffset : Z) : option (option nat) :=
  if offset <? maxoffset ⊟ 8 then
    match n with
    | O => None
    | S n =>
        let off := Z.to_nat offset in
        if maxoffset ⊟ offset <? d_rec_len data off then Some None
        else
          let* found := ext2_match_entry dname data off in
          if found : bool then Some (Some off)
          else find_in_block n dname data (offset ⊞ d_rec_len data off) maxoffset
    end
  else Some None.

(** The blocks of a directory from [i] on; the answer is the block and the place of the
    entry in it.  What is left of the directory is computed with the wrong sign.
    [src/core/fs/ext2/ext2.c:101-119 ext2_find_entry] *)
Fixpoint find_loop (blocks entries : nat) (p : ext2_pvt) (size : Z) (dname : list Z) (i index : Z) (st : St)
  : option (option (list Z * nat) * St) :=
  if i <? size then
    match blocks with
    | O => None
    | S blocks =>
        let* (data, st) := ext2_get_cache p index st in
        let maxoffset := u32 (Z.min block_size (u64 (i - size))) in
        let* found := find_in_block entries dname data 0 maxoffset in
        match found with
        | Some off => Some (Some (data, off), st)
        | None => find_loop blocks entries p size dname (i ⊞ block_size) (u64 (index + 1)) st
        end
    end
  else Some (None, st).

(** The loops end after as many turns as there are blocks, and bytes in a block, unless
    a record has no length.
    [src/core/fs/ext2/ext2.c:91-120 ext2_find_entry] *)
Definition ext2_find_entry (dir : ext2_inode) (dname : list Z) (st : St) : option (option (list Z * nat) * St) :=
  find_loop (Z.to_nat (i_size dir / block_size + 1)) (Z.to_nat block_size) (i_pvt dir) (i_size dir) dname 0 0 st.

(** [src/core/fs/ext2/ext2.c:182-192 ext2_iget] *)
Definition ext2_iget (granted : bool) (dname : list Z) (parent : ext2_inode) (st : St) : option (option ext2_inode * St) :=
  let* (de, st) := ext2_find_entry parent dname st in
  match de with
  | None => Some (None, st)
  | Some (data, off) => ext2_iget_by_inr granted (d_inode data off) st
  end.

(** One entry, and the offset of the next; [Some None] is the end.
    [src/core/fs/ext2/ext2.c:242-267 ext2_readdir] *)
Definition ext2_readdir (dir : ext2_inode) (offset : Z) (st : St) : option (option (dirent * Z) * St) :=
  if i_size dir <=? offset then Some (None, st)
  else
    let* (data, st) := ext2_get_cache (i_pvt dir) (Z.shiftr offset block_shift) st in
    let off := Z.to_nat (Z.land offset (block_size - 1)) in
    if (off + 8 + Z.to_nat (d_name_len data off) <=? length data)%nat then
      let* t := ext2_cvt_type (d_file_type data off) in
      Some (Some (Dirent (d_inode data off) offset (12 + d_name_len data off + 1) t (d_name data off),
                  offset ⊞ d_rec_len data off), st)
    else None.

(** ** Symbolic links *)

(** The blocks of a file copied to a buffer from [q] on.
    [src/core/fs/ext2/ext2.c:209-216 cache_get_file] *)
Fixpoint get_blocks (n : nat) (p : ext2_pvt) (index bytes : Z) (buf : list Z) (q : nat) (st : St) : option (list Z * St) :=
  if bytes =? 0 then Some (buf, st)
  else
    match n with
    | O => None
    | S n =>
        let chunk := Z.min bytes block_size in
        let* (data, st) := ext2_get_cache p index st in
        if (Z.to_nat chunk <=? length data)%nat && (q + Z.to_nat chunk <=? length buf)%nat then
          get_blocks n p (u32 (index + 1)) (bytes - chunk) (blit q (take (Z.to_nat chunk) data) buf) (q + Z.to_nat chunk) st
        else None
    end.

(** The count of bytes is raised to the size of the file, where the smaller one is meant.
    [src/core/fs/ext2/ext2.c:197-219 cache_get_file] *)
Definition cache_get_file (i : ext2_inode) (buf : list Z) (bytes : Z) (st : St) : option (list Z * St) :=
  let bytes := if bytes <? i_size i then u32 (i_size i) else bytes in
  get_blocks (Z.to_nat (bytes / block_size + 1)) (i_pvt i) 0 bytes buf 0 st.

(** The length, or -1, and the buffer.
    [src/core/fs/ext2/ext2.c:221-237 ext2_readlink] *)
Definition ext2_readlink (i : ext2_inode) (buf : list Z) (st : St) : option (Z * list Z * St) :=
  let sec_per_block := Z.shiftl 1 (block_shift - sector_shift) in
  if block_size <? i_size i then Some (-1, buf, st)
  else if (if i_file_acl i =? 0 then 0 else sec_per_block) =? i_blocks i then
    if (Z.to_nat (i_size i) <=? 60)%nat && (Z.to_nat (i_size i) <=? length buf)%nat then
      Some (i_size i, blit 0 (take (Z.to_nat (i_size i)) (i_block (i_pvt i))) buf, st)
    else None
  else
    let* (buf, st) := cache_get_file i buf (i_size i) st in Some (i_size i, buf, st).
End driver.

(** ** The set-up *)

(** The superblock is read as the second and third sector: [None] when they are more
    than its 1024 bytes, and for a division by zero.  [Some None] is the answer -1; else
    the shift of the blocks, the superblock in memory and the device.
    [src/core/fs/ext2/ext2.c:272-325 ext2_fs_init] *)
Definition ext2_fs_init (rdwr_sectors : list Z -> Z -> Z -> list Z) (sector_shift : Z) (granted : bool) (dev : device)
  : option (option (Z * ext2_sb_info * device)) :=
  if 1024 <? 2 * 2 ^ sector_shift then None
  else
    let sb := rdwr_sectors (replicate (Z.to_nat (2 * 2 ^ sector_shift)) 0) 2 2 in
    if negb (s_magic sb =? EXT2_SUPER_MAGIC) then Some None
    else if negb granted then Some None
    else
      let block_shift := s32 (s_log_block_size sb + 10) in
      let block_size := Z.shiftl 1 block_shift in
      let desc_size := if s_desc_size sb <? size_of_group_desc then size_of_group_desc else s_desc_size sb in
      if (s_inode_size sb =? 0) || (s_blocks_per_group sb =? 0) then None
      else
        let sbi := Sb (block_size / s_inode_size sb) (s_inodes_per_group sb) (s_blocks_per_group sb) (block_size / desc_size)
          (u32 (s_blocks_count sb - s_first_data_block sb + s_blocks_per_group sb - 1) / s_blocks_per_group sb)
          (s_first_data_block sb) (s_inode_size sb) (s_uuid sb) in
        let* dev := force_block_zero (cache_init dev block_shift) in
        Some (Some (block_shift, sbi, dev)).

(** ** Blocks in a row *)

Lemma slice_concat (L : nat) (ls : list (list Z)) q r n b :
  Forall (fun l => length l = L) ls -> ls !! q = Some b -> (r + n <= L)%nat ->
  slice (q * L + r) n (concat ls) = slice r n b.
Proof.
  intros H; revert q; induction H as [|l ls Hl H IH]; intros q Hq Hr; [now rewrite lookup_nil in Hq|].
  unfold slice in *; destruct q as [|q]; cbn in Hq; cbn [concat].
  - injection Hq as ->; cbn [Nat.mul Nat.add]; rewrite drop_app_le, take_app_le by (rewrite ?length_drop; lia); done.
  - replace (S q * L + r)%nat with (length l + (q * L + r))%nat by lia.
    rewrite drop_app_add; auto.
Qed.

Section geometry.
Context {St : Type} {reader : BlockReader St} {bytes : Z -> list Z} {bound : Z} {laws : BlockReaderLaws St bytes bound}.
Context (block_shift sector_shift : Z) (fuel : nat) (sbi : ext2_sb_info).
Notation block_size := (2 ^ block_shift).

Hypothesis bound_range : 4294967296 <= bound.
Hypothesis shift_range : 10 <= block_shift <= 16.
Hypothesis block_bytes : forall b, length (bytes b) = Z.to_nat block_size /\ Forall is_byte (bytes b).

(** The blocks from [first] on, [n] of them. *)
Definition area (first n : Z) : list Z := concat (map bytes (seqZ first n)).

Definition table_blocks : Z := inodes_per_group sbi / inodes_per_block sbi + 1.
Definition desc_blocks : Z := groups_count sbi / desc_per_block sbi + 1.

(** The descriptor of a group: the table of descriptors has no gaps. *)
Definition desc_bytes (g : Z) : list Z :=
  slice (Z.to_nat (g * size_of_group_desc)) 32 (area (first_data_block sbi + 1) desc_blocks).

(** The bytes of an inode in the table of its group. *)
Definition inode_bytes (inr : Z) : list Z :=
  let g := (inr - 1) / inodes_per_group sbi in
  slice (Z.to_nat ((inr - 1) mod inodes_per_group sbi * inode_size sbi)) size_of_inode
    (area (bg_inode_table (desc_bytes g)) table_blocks).

(** Inodes and descriptors fill their blocks. *)
Record geometry_ok : Prop := {
  geo_inodes : inodes_per_block sbi * inode_size sbi = block_size /\ 128 <= inode_size sbi /\ 0 < inodes_per_block sbi;
  geo_group : 0 < inodes_per_group sbi < 4294967296;
  geo_descs : desc_per_block sbi * size_of_group_desc = block_size;
  geo_first : 0 <= first_data_block sbi /\ 0 <= groups_count sbi /\
    first_data_block sbi + 1 + desc_blocks < 4294967296;
  geo_tables : forall g, 0 <= g < groups_count sbi -> bg_inode_table (desc_bytes g) + table_blocks < 4294967296
}.

Hypothesis G : geometry_ok.

(** A piece of an area that lies in one block. *)
Lemma area_slice first n q r len :
  0 <= q < n -> 0 <= r -> (Z.to_nat r + len <= Z.to_nat block_size)%nat ->
  slice (Z.to_nat (q * block_size + r)) len (area first n) = slice (Z.to_nat r) len (bytes (first + q)).
Proof.
  intros Hq Hr Hlen; assert (Hb : 0 < block_size) by (apply Z.pow_pos_nonneg; lia).
  replace (Z.to_nat (q * block_size + r)) with (Z.to_nat q * Z.to_nat block_size + Z.to_nat r)%nat
    by (rewrite <- Z2Nat.inj_mul by lia; rewrite Z2Nat.inj_add by lia; done).
  apply (slice_concat (Z.to_nat block_size)); [| |done].
  - apply Forall_forall; intros l Hl; apply list_elem_of_In, in_map_iff in Hl as (k & <- & _); apply block_bytes.
  - rewrite list_lookup_fmap, lookup_seqZ_lt by lia; cbn; do 2 f_equal; lia.
Qed.

Lemma group_desc_spec g st :
  reader_ok st -> 0 <= g < groups_count sbi ->
  exists st', ext2_get_group_desc sbi g st = Some (Some (desc_bytes g), st') /\ reader_ok st'.
Proof.
  intros Hst Hg; destruct G as [_ _ Hd (Hf & Hgc & Hfirst) _]; unfold ext2_get_group_desc.
  assert (Hb : 0 < block_size) by (apply Z.pow_pos_nonneg; lia).
  set (n := desc_per_block sbi) in *; assert (Hn : 0 < n) by lia.
  rewrite (proj2 (Z.leb_gt (groups_count sbi) g)), (proj2 (Z.eqb_neq n 0)) by lia.
  pose proof (Z.div_mod g n ltac:(lia)) as Hdm; pose proof (Z.mod_pos_bound g n Hn) as Hm.
  assert (Hq : 0 <= g / n < desc_blocks).
  { split; [apply Z.div_pos; lia|]; unfold desc_blocks; fold n; pose proof (Z.div_le_mono g (groups_count sbi) n Hn ltac:(lia)); lia. }
  rewrite (u32_small (first_data_block sbi + 1)), u32_small by lia.
  destruct (read_block_ok st (g / n + (first_data_block sbi + 1)) Hst ltac:(lia)) as (st' & -> & Hst').
  destruct (block_bytes (g / n + (first_data_block sbi + 1))) as [Hlen _].
  rewrite (proj2 (Nat.leb_le _ _)) by (rewrite Hlen; nia).
  exists st'; split; [do 3 f_equal|done]; unfold desc_bytes.
  replace (g * size_of_group_desc) with (g / n * block_size + g mod n * size_of_group_desc) by nia.
  rewrite area_slice by (lia || nia); do 2 f_equal; lia.
Qed.

Lemma desc_table_range g : 0 <= bg_inode_table (desc_bytes g).
Proof.
  apply get_32_range; unfold desc_bytes, slice; apply Forall_take, Forall_drop, Forall_concat, Forall_forall.
  intros l Hl; apply list_elem_of_In, in_map_iff in Hl as (k & <- & _); apply block_bytes.
Qed.

Lemma get_inode_spec inr st :
  reader_ok st -> 1 <= inr <= 4294967296 ->
  exists st', ext2_get_inode sbi inr st =
      Some (if (inr - 1) / inodes_per_group sbi <? groups_count sbi then Some (inode_bytes inr) else None, st') /\ reader_ok st'.
Proof.
  intros Hst Hi; destruct G as [(Hi1 & Hi2 & Hi3) Hg _ _ Ht]; unfold ext2_get_inode; rewrite u32_small by lia.
  assert (Hb : 0 < block_size) by (apply Z.pow_pos_nonneg; lia).
  rewrite (proj2 (Z.eqb_neq (inodes_per_group sbi) 0)), (proj2 (Z.eqb_neq (inodes_per_block sbi) 0)) by lia; cbn [orb].
  set (g := (inr - 1) / inodes_per_group sbi); set (k := (inr - 1) mod inodes_per_group sbi).
  assert (Hg0 : 0 <= g) by (apply Z.div_pos; lia); pose proof (Z.mod_pos_bound (inr - 1) (inodes_per_group sbi) ltac:(lia)) as Hk; fold k in Hk.
  destruct (Z.ltb_spec g (groups_count sbi)).
  - destruct (group_desc_spec g st Hst ltac:(lia)) as (st1 & -> & Hst1).
    specialize (Ht g ltac:(lia)); pose proof (desc_table_range g) as Ht0.
    pose proof (Z.div_mod k (inodes_per_block sbi) ltac:(lia)) as Hdm; pose proof (Z.mod_pos_bound k (inodes_per_block sbi) Hi3) as Hm.
    assert (Hq : 0 <= k / inodes_per_block sbi < table_blocks).
    { split; [apply Z.div_pos; lia|]; unfold table_blocks.
      pose proof (Z.div_le_mono k (inodes_per_group sbi) (inodes_per_block sbi) Hi3 ltac:(lia)); lia. }
    rewrite u32_small by lia.
    destruct (read_block_ok st1 (bg_inode_table (desc_bytes g) + k / inodes_per_block sbi) Hst1 ltac:(lia)) as (st2 & -> & Hst2).
    destruct (block_bytes (bg_inode_table (desc_bytes g) + k / inodes_per_block sbi)) as [Hlen _].
    rewrite (proj2 (Nat.leb_le _ _)) by (rewrite Hlen; nia).
    exists st2; split; [do 3 f_equal|done]; unfold inode_bytes; fold g k.
    replace (k * inode_size sbi) with (k / inodes_per_block sbi * block_size + k mod inodes_per_block sbi * inode_size sbi) by nia.
    now rewrite area_slice by (lia || nia).
  - exists st; unfold ext2_get_group_desc; now rewrite (proj2 (Z.leb_le _ _)) by lia.
Qed.
End geometry.

(** ** Directories as lists of names *)

(** The entry at a place, as it is listed: inode, type, name. *)
Definition dent : Type := Z * Z * list Z.
Definition dent_at (data : list Z) (off : nat) : dent := (d_inode data off, d_file_type data off, d_name data off).

(** The entry of a name; one without an inode is not in use. *)
Definition is_named (dname : list Z) (e : dent) : bool := negb (e.1.1 =? 0) && bool_decide (e.2 = dname).

(** A block of entries, from [off] on: where they begin. *)
Inductive entries (data : list Z) : nat -> list nat -> Prop :=
  | entries_end : entries data (length data) []
  | entries_next off offs :
      9 <= d_rec_len data off -> 8 + d_name_len data off <= d_rec_len data off ->
      (off + Z.to_nat (d_rec_len data off) <= length data)%nat ->
      entries data (off + Z.to_nat (d_rec_len data off)) offs -> entries data off (off :: offs).

Lemma entries_bound data off offs : entries data off offs -> (off <= length data)%nat.
Proof. intros H; inversion H; subst; lia. Qed.

Section directory.
Context {St : Type} {reader : BlockReader St} {bytes : Z -> list Z} {bound : Z} {laws : BlockReaderLaws St bytes bound}.
Context (block_shift : Z) (fuel : nat) (fblock : Z -> Z).
Notation block_size := (2 ^ block_shift).

Hypothesis bound_range : 4294967296 <= bound.
Hypothesis shift_range : 10 <= block_shift <= 16.
Hypothesis block_bytes : forall b, length (bytes b) = Z.to_nat block_size /\ Forall is_byte (bytes b).

Lemma block_size_range : 1024 <= block_size <= 65536 /\ Z.shiftl 1 block_shift = block_size.
Proof.
  split; [split; [apply (Z.pow_le_mono_r 2 10)|apply (Z.pow_le_mono_r 2 _ 16)]; lia|apply Z.shiftl_1_l].
Qed.

Lemma match_spec dname data off :
  Forall is_byte data -> (off + 8 + Z.to_nat (d_name_len data off) <= length data)%nat ->
  ext2_match_entry dname data off = Some (is_named dname (dent_at data off)).
Proof.
  intros Hb Hl; unfold ext2_match_entry, is_named, dent_at; cbn [fst snd]; destruct (Z.eqb_spec (d_inode data off) 0); [done|]; cbn [negb andb].
  assert (Hlen : length (d_name data off) = Z.to_nat (d_name_len data off)) by (apply length_slice; lia).
  pose proof (byte_range data (off + 6) Hb) as Hn; fold (d_name_len data off) in Hn.
  destruct (Z.eqb_spec (Z.of_nat (length dname)) (d_name_len data off)) as [E|E]; cbn [negb].
  - rewrite (proj2 (Nat.leb_le _ _)) by lia; f_equal; apply bool_decide_ext; split; congruence.
  - symmetry; f_equal; apply bool_decide_eq_false; intros En; rewrite En in Hlen; lia.
Qed.

(** A block is searched as the list of its entries. *)
Lemma find_in_block_spec dname data offs : forall n off,
  length data = Z.to_nat block_size -> Forall is_byte data -> entries data off offs -> (length data - off <= n)%nat ->
  find_in_block n dname data (Z.of_nat off) block_size =
    Some (find (fun o => is_named dname (dent_at data o)) offs).
Proof.
  pose proof block_size_range as [Hbs _]; intros n off Hl Hb H; revert n; induction H as [|off offs Hr Hname Hend H IH];
    intros n Hn.
  - destruct n; cbn [find_in_block]; rewrite (u32_small (block_size - 8)), (proj2 (Z.ltb_ge _ _)) by lia; done.
  - pose proof (get_16_range data (off + 4) Hb) as Hrec; fold (d_rec_len data off) in Hrec.
    pose proof (entries_bound _ _ _ H) as Hoff.
    destruct n as [|n]; [lia|]; cbn [find_in_block find]; rewrite Nat2Z.id, (u32_small (block_size - 8)), (proj2 (Z.ltb_lt _ _)) by lia.
    rewrite u32_small, (proj2 (Z.ltb_ge _ _)) by lia.
    rewrite match_spec by (done || lia); destruct (is_named dname (dent_at data off)); [done|].
    rewrite (u32_small (Z.of_nat off + d_rec_len data off)) by lia.
    replace (Z.of_nat off + d_rec_len data off) with (Z.of_nat (off + Z.to_nat (d_rec_len data off))) by lia.
    apply IH; lia.
Qed.

(** A directory: its blocks are known, and each is a list of entries from its begin to
    its end. *)
Record dir_ok (dir : ext2_inode) (n : Z) (offs : Z -> list nat) : Prop := {
  dir_size : i_size dir = n * block_size;
  dir_range : 0 <= n /\ n * block_size + block_size < 4294967296;
  dir_map : file_sound bytes bound block_shift fuel (i_pvt dir) n fblock;
  dir_blocks : forall k, 0 <= k < n -> fblock k < bound;
  dir_entries : forall k, 0 <= k < n -> entries (bytes (fblock k)) 0 (offs k)
}.

(** All entries of a directory, in order. *)
Definition dir_list (n : Z) (offs : Z -> list nat) : list dent :=
  concat (map (fun k => map (dent_at (bytes (fblock k))) (offs k)) (seqZ 0 n)).

Lemma dir_block_spec dir n offs k st :
  dir_ok dir n offs -> reader_ok st -> 0 <= k < n ->
  exists st', ext2_get_cache block_shift fuel (i_pvt dir) k st = Some (bytes (fblock k), st') /\ reader_ok st'.
Proof.
  intros Hd Hst Hk; unfold ext2_get_cache.
  destruct (bmap_good block_shift fuel fblock bound_range n (i_pvt dir) k st (dir_map _ _ _ Hd) Hst Hk) as (cnt & st1 & -> & Hst1 & Hv & _).
  pose proof (dir_blocks _ _ _ Hd k Hk); destruct (read_block_ok st1 (fblock k) Hst1 ltac:(lia)) as (st2 & -> & Hst2); eauto.
Qed.

Lemma find_map {A B} (f : A -> B) (P : B -> bool) l : find P (map f l) = option_map f (find (fun a => P (f a)) l).
Proof. induction l as [|a l IH]; cbn [map find]; [done|]; destruct (P (f a)); done. Qed.

Lemma find_app {A} (P : A -> bool) l1 l2 : find P (l1 ++ l2) = match find P l1 with Some a => Some a | None => find P l2 end.
Proof. induction l1 as [|a l1 IH]; cbn [app find]; [done|]; destruct (P a); done. Qed.

Lemma find_loop_spec dir n offs dname m : forall k turns st,
  dir_ok dir n offs -> reader_ok st -> 0 <= k -> k + Z.of_nat m = n -> (m < turns)%nat ->
  exists r st', find_loop block_shift fuel turns (Z.to_nat block_size) (i_pvt dir) (i_size dir) dname (k * block_size) k st = Some (r, st') /\
    reader_ok st' /\
    option_map (fun '(data, off) => dent_at data off) r =
      find (is_named dname) (concat (map (fun k => map (dent_at (bytes (fblock k))) (offs k)) (seqZ k (Z.of_nat m)))).
Proof.
  pose proof block_size_range as [Hbs Esh]; induction m as [|m IH]; intros k turns st Hd Hst Hk Hkm Ht;
    pose proof (dir_range _ _ _ Hd) as [Hn0 Hn]; pose proof (dir_size _ _ _ Hd) as Hsz; rewrite Hsz.
  - assert (k = n) as -> by lia; destruct turns as [|t]; cbn [find_loop]; rewrite (proj2 (Z.ltb_ge _ _)) by lia; eauto.
  - destruct turns as [|turns]; [lia|]; cbn [find_loop]; rewrite Esh, (proj2 (Z.ltb_lt _ _)) by nia.
    destruct (dir_block_spec dir n offs k st Hd Hst ltac:(lia)) as (st1 & -> & Hst1).
    assert (Hmax : u32 (Z.min block_size (u64 (k * block_size - n * block_size))) = block_size).
    { assert (k * block_size < n * block_size) by nia.
      assert (E : u64 (k * block_size - n * block_size) = k * block_size - n * block_size + 18446744073709551616).
      { unfold u64; rewrite <- (Z.mod_add _ 1) by lia; apply Z.mod_small; nia. }
      rewrite E, Z.min_l by nia; apply u32_small; lia. }
    rewrite Hmax; change 0 with (Z.of_nat 0) at 1; destruct (block_bytes (fblock k)) as [Hlen Hbb].
    rewrite (find_in_block_spec dname (bytes (fblock k)) (offs k)) by first [done | lia | apply (dir_entries _ _ _ Hd); lia].
    rewrite seqZ_cons by lia; cbn [map concat]; rewrite find_app, find_map.
    destruct (find (fun o => is_named dname (dent_at (bytes (fblock k)) o)) (offs k)) as [off|] eqn:Ef; cbn [option_map].
    + eexists _, st1; split; [reflexivity|split; [done|]]; reflexivity.
    + replace (Z.succ k) with (k + 1) by lia; replace (Z.pred (Z.of_nat (S m))) with (Z.of_nat m) by lia.
      rewrite (u32_small (k * block_size + block_size)), (u64_small (k + 1)) by nia.
      replace (k * block_size + block_size) with ((k + 1) * block_size) by lia; rewrite <- Hsz; apply IH; auto; lia.
Qed.

Lemma find_entry_spec dir n offs dname st :
  dir_ok dir n offs -> reader_ok st ->
  exists r st', ext2_find_entry block_shift fuel dir dname st = Some (r, st') /\ reader_ok st' /\
    option_map (fun '(data, off) => dent_at data off) r = find (is_named dname) (dir_list n offs).
Proof.
  pose proof block_size_range as [Hbs Esh]; intros Hd Hst; pose proof (dir_range _ _ _ Hd) as [Hn0 Hn]; unfold ext2_find_entry.
  assert (Et : i_size dir / block_size = n) by (rewrite (dir_size _ _ _ Hd); apply Z.div_mul; lia); rewrite Esh, Et.
  destruct (find_loop_spec dir n offs dname (Z.to_nat n) 0 (Z.to_nat (n + 1)) st) as (r & st' & E & H); auto; try lia.
  rewrite Z.mul_0_l in E; rewrite Z2Nat.id in H by lia; eauto.
Qed.

(** The entries of a directory are bytes. *)
Lemma dir_list_range n offs e : e ∈ dir_list n offs -> 0 <= e.1.1 < 4294967296.
Proof.
  intros He; apply list_elem_of_In, in_concat in He as (l & Hl & He); apply in_map_iff in Hl as (k & <- & _).
  apply in_map_iff in He as (o & <- & _); apply get_32_range, block_bytes.
Qed.

(** All that is listed from an offset on. *)
Fixpoint list_dir (turns : nat) (dir : ext2_inode) (offset : Z) (st : St) : option (list dirent * St) :=
  match turns with
  | O => None
  | S turns =>
      let* (r, st) := ext2_readdir block_shift fuel dir offset st in
      match r with
      | None => Some ([], st)
      | Some (d, offset) => let* (ds, st) := list_dir turns dir offset st in Some (d :: ds, st)
      end
  end.

Definition key_of (d : dirent) : Z * list Z := (d_ino d, d_text d).
Definition key_at (e : dent) : Z * list Z := (e.1.1, e.2).

Lemma readdir_spec dir n offs k off rest st :
  dir_ok dir n offs -> reader_ok st -> 0 <= k < n -> entries (bytes (fblock k)) off (off :: rest) ->
  d_file_type (bytes (fblock k)) off <> 8 ->
  exists d st', ext2_readdir block_shift fuel dir (k * block_size + Z.of_nat off) st =
      Some (Some (d, k * block_size + Z.of_nat (off + Z.to_nat (d_rec_len (bytes (fblock k)) off))), st') /\ reader_ok st' /\
    key_of d = key_at (dent_at (bytes (fblock k)) off).
Proof.
  pose proof block_size_range as [Hbs Esh]; intros Hd Hst Hk He Ht; inversion He as [|? ? Hrec Hname Hend _]; subst.
  pose proof (dir_range _ _ _ Hd) as [Hn0 Hn]; pose proof (dir_size _ _ _ Hd) as Hsz.
  destruct (block_bytes (fblock k)) as [Hlen Hb]; rewrite Hlen in Hend.
  pose proof (byte_range (bytes (fblock k)) (off + 6) Hb) as Hnl; fold (d_name_len (bytes (fblock k)) off) in Hnl.
  pose proof (byte_range (bytes (fblock k)) (off + 7) Hb) as Htr; fold (d_file_type (bytes (fblock k)) off) in Htr.
  assert (Hkn : k * block_size + block_size <= n * block_size) by nia.
  unfold ext2_readdir; rewrite Hsz, (proj2 (Z.leb_gt _ _)) by lia.
  rewrite Z.shiftr_div_pow2, Z.div_add_l, (Z.div_small (Z.of_nat off)), Z.add_0_r by lia.
  destruct (dir_block_spec dir n offs k st Hd Hst Hk) as (st1 & -> & Hst1).
  assert (Eoff : Z.to_nat (Z.land (k * block_size + Z.of_nat off) (Z.shiftl 1 block_shift - 1)) = off).
  { rewrite Esh; replace (block_size - 1) with (Z.ones block_shift) by (rewrite Z.ones_equiv; lia).
    rewrite Z.land_ones, Z.add_comm, Z.mod_add, Z.mod_small by lia; lia. }
  rewrite Eoff, (proj2 (Nat.leb_le _ _)) by (rewrite Hlen; lia).
  assert (Hcvt : is_Some (ext2_cvt_type (d_file_type (bytes (fblock k)) off))).
  { unfold ext2_cvt_type; destruct (Z.ltb_spec 8 (d_file_type (bytes (fblock k)) off)); [eauto|].
    apply lookup_lt_is_Some_2; cbn [length]; lia. }
  destruct Hcvt as [t ->]; rewrite u32_small by lia.
  replace (k * block_size + Z.of_nat off + d_rec_len (bytes (fblock k)) off)
    with (k * block_size + Z.of_nat (off + Z.to_nat (d_rec_len (bytes (fblock k)) off))) by lia.
  eexists _, st1; split; [reflexivity|split; [done|reflexivity]].
Qed.

Lemma list_blocks dir n offs m : forall k,
  dir_ok dir n offs -> 0 <= k -> k + Z.of_nat m = n ->
  (forall j o, 0 <= j < n -> o ∈ offs j -> d_file_type (bytes (fblock j)) o <> 8) ->
  exists t, forall st turns, reader_ok st -> (t <= turns)%nat ->
    exists ds st', list_dir turns dir (k * block_size) st = Some (ds, st') /\ reader_ok st' /\
      map key_of ds = map key_at (concat (map (fun k => map (dent_at (bytes (fblock k))) (offs k)) (seqZ k (Z.of_nat m)))).
Proof.
  pose proof block_size_range as [Hbs Esh]; induction m as [|m IH]; intros k Hd Hk Hkm Ht.
  - exists 1%nat; intros st [|turns] Hst Htu; [lia|]; cbn [list_dir]; unfold ext2_readdir.
    rewrite (dir_size _ _ _ Hd), (proj2 (Z.leb_le _ _)) by nia; exists [], st; done.
  - destruct (IH (k + 1) Hd ltac:(lia) ltac:(lia) Ht) as [t Hrest]; clear IH.
    assert (Hlt : 0 <= k < n) by lia; clear Hkm.
    assert (Hblock : forall os off, entries (bytes (fblock k)) off os -> (forall o, o ∈ os -> o ∈ offs k) ->
      forall st turns, reader_ok st -> (t + length os <= turns)%nat ->
      exists ds st', list_dir turns dir (k * block_size + Z.of_nat off) st = Some (ds, st') /\ reader_ok st' /\
        map key_of ds = map key_at (map (dent_at (bytes (fblock k))) os ++
          concat (map (fun k => map (dent_at (bytes (fblock k))) (offs k)) (seqZ (k + 1) (Z.of_nat m))))).
    { induction os as [|o os IH]; intros off He Hin st turns Hst Htu; cbn [length] in Htu.
      - inversion He; subst; rewrite (proj1 (block_bytes _)), Z2Nat.id by lia.
        replace (k * block_size + block_size) with ((k + 1) * block_size) by lia; apply Hrest; [done|lia].
      - inversion He as [|? ? Hr Hn He2 Hnext]; subst; destruct turns as [|turns]; [lia|]; cbn [list_dir].
        destruct (readdir_spec dir n offs k o os st Hd Hst Hlt He) as (d & st1 & -> & Hst1 & Ekey); [apply Ht; [done|apply Hin; set_solver]|].
        destruct (IH _ Hnext ltac:(set_solver) st1 turns Hst1 ltac:(lia)) as (ds & st2 & -> & Hst2 & Eds).
        exists (d :: ds), st2; split; [done|split; [done|]]; cbn [map app]; now rewrite Ekey, Eds. }
    exists (t + length (offs k))%nat; intros st turns Hst Htu.
    destruct (Hblock (offs k) 0%nat (dir_entries _ _ _ Hd k Hlt) ltac:(auto) st turns Hst Htu) as (ds & st' & E & Hst' & Eds).
    rewrite Z.add_0_r in E; exists ds, st'; split; [done|split; [done|]].
    rewrite seqZ_cons by lia; cbn [map concat]; replace (Z.succ k) with (k + 1) by lia.
    now replace (Z.pred (Z.of_nat (S m))) with (Z.of_nat m) by lia.
Qed.
End directory.

(** ** Correctness *)

Section volume.
Context {St : Type} {reader : BlockReader St} {bytes : Z -> list Z} {bound : Z} {laws : BlockReaderLaws St bytes bound}.
Context (block_shift sector_shift : Z) (fuel : nat) (sbi : ext2_sb_info) (fblock : Z -> Z).
Notation block_size := (2 ^ block_shift).

Hypothesis bound_range : 4294967296 <= bound.
Hypothesis shift_range : 10 <= block_shift <= 16.
Hypothesis block_bytes : forall b, length (bytes b) = Z.to_nat block_size /\ Forall is_byte (bytes b).
Hypothesis G : geometry_ok (bytes := bytes) block_shift sbi.

(** The inode a name of a directory leads to: that of the first entry in use with the
    name, if there is its group. *)
Definition named_inode (entries : list dent) (dname : list Z) : option ext2_inode :=
  let* e := find (is_named dname) entries in
  if (e.1.1 - 1) / inodes_per_group sbi <? groups_count sbi then Some (fill_inode (inode_bytes (bytes := bytes) sbi e.1.1)) else None.

(** C15: looking a name up in a directory gives the inode of the first entry of
    that name, as it stands in the table of its group, or nothing if there is no
    such entry or group: through the block map of the directory, the records of
    its blocks, the descriptors and the table of inodes. The conditions: memory
    is granted and blocks, of 1 KiB to 64 KiB, can be read; group descriptors
    have the 32 bytes that the driver has for them ([wide_descriptors] is a
    volume with 64, which it reads wrongly) and fill their blocks, as do the
    inodes, of at least 128 bytes; descriptors and tables lie within 2^32
    blocks; and the size of the directory is a whole number of blocks, less than
    2^32 bytes, its block map is sound, and each of its blocks is a list of
    records that fill it. *)
Theorem ext2_iget_correct dir n offs dname st :
  dir_ok (bytes := bytes) (bound := bound) block_shift fuel fblock dir n offs -> reader_ok st ->
  exists st', ext2_iget block_shift fuel sbi true dname dir st =
      Some (named_inode (dir_list (bytes := bytes) fblock n offs) dname, st') /\ reader_ok st'.
Proof.
  intros Hd Hst; destruct (find_entry_spec block_shift fuel fblock bound_range shift_range block_bytes dir n offs dname st Hd Hst)
    as (r & st1 & E & Hst1 & Hr).
  unfold ext2_iget, named_inode; rewrite E, <- Hr; destruct r as [[data off]|]; cbn [option_map]; [|eauto].
  assert (He : find (is_named dname) (dir_list (bytes := bytes) fblock n offs) = Some (dent_at data off)) by (rewrite <- Hr; done).
  apply find_some in He as [Hin Hnamed]; apply list_elem_of_In in Hin.
  pose proof (dir_list_range block_shift fblock block_bytes n offs _ Hin) as Hrange; unfold dent_at in *; cbn [fst snd] in *.
  unfold is_named in Hnamed; cbn [fst snd] in Hnamed; apply andb_true_iff in Hnamed as [Hne _]; bools.
  destruct (get_inode_spec block_shift sbi bound_range shift_range block_bytes G (d_inode data off) st1 Hst1 ltac:(lia)) as (st2 & E2 & Hst2).
  unfold ext2_iget_by_inr; rewrite E2; exists st2; split; [|done]; destruct (_ <? _); done.
Qed.

(** Listing a directory from its begin gives all its entries, in order and to the
    end, those that are not in use, too; a type just past the table of types is the one
    thing it does not take. *)
Theorem ext2_readdir_correct dir n offs st :
  dir_ok (bytes := bytes) (bound := bound) block_shift fuel fblock dir n offs -> reader_ok st ->
  (forall k o, 0 <= k < n -> o ∈ offs k -> d_file_type (bytes (fblock k)) o <> 8) ->
  exists turns ds st', list_dir block_shift fuel turns dir 0 st = Some (ds, st') /\ reader_ok st' /\
    map key_of ds = map key_at (dir_list (bytes := bytes) fblock n offs).
Proof.
  intros Hd Hst Ht; pose proof (dir_range _ _ _ _ _ _ Hd) as [Hn _].
  destruct (list_blocks block_shift fuel fblock bound_range shift_range block_bytes dir n offs (Z.to_nat n) 0 Hd ltac:(lia) ltac:(lia) Ht)
    as [t H].
  destruct (H st t Hst ltac:(lia)) as (ds & st' & E & Hst' & Eds); rewrite Z2Nat.id in Eds by lia; exists t, ds, st'; auto.
Qed.

(** The text of a link: in the place of the pointers, or in its first block.  One of
    more than a block is refused. *)
Theorem ext2_readlink_correct i buf st :
  0 <= i_size i < 4294967296 -> reader_ok st -> 0 <= sector_shift <= block_shift ->
  let fast := (if i_file_acl i =? 0 then 0 else 2 ^ (block_shift - sector_shift)) =? i_blocks i in
  (fast = true -> i_size i <= block_size -> i_size i <= 60) -> (Z.to_nat (i_size i) <= length buf)%nat ->
  (fast = false -> 0 < i_size i -> file_sound bytes bound block_shift fuel (i_pvt i) 1 fblock /\ fblock 0 < bound) ->
  exists st', ext2_readlink block_shift sector_shift fuel i buf st =
      Some (if block_size <? i_size i then (-1, buf, st')
            else (i_size i, blit 0 (take (Z.to_nat (i_size i)) (if fast then i_block (i_pvt i) else bytes (fblock 0))) buf, st')) /\
    reader_ok st'.
Proof.
  intros Hsz Hst Hsh fast Hfast Hbuf Hslow.
  destruct (block_size_range block_shift shift_range) as [Hbs Esh]; unfold ext2_readlink.
  rewrite Esh, Z.shiftl_1_l; fold fast; destruct (Z.ltb_spec block_size (i_size i)) as [Hbig|Hsmall]; [eauto|].
  destruct fast eqn:Ef.
  - specialize (Hfast eq_refl Hsmall); rewrite (proj2 (Nat.leb_le (Z.to_nat (i_size i)) 60)), (proj2 (Nat.leb_le _ (length buf))) by lia; eauto.
  - unfold cache_get_file; rewrite Z.ltb_irrefl, Esh.
    destruct (Z.eq_dec (i_size i) 0) as [E0|E0].
    { rewrite E0, Z.div_0_l by lia; exists st; cbn; done. }
    destruct (Hslow eq_refl ltac:(lia)) as [Hmap Hbl].
    assert (Hn : exists n, Z.to_nat (i_size i / block_size + 1) = S n).
    { exists (Z.to_nat (i_size i / block_size)); pose proof (Z.div_pos (i_size i) block_size); lia. }
    destruct Hn as [n ->]; cbn [get_blocks]; rewrite (proj2 (Z.eqb_neq (i_size i) 0)), Esh, Z.min_l by lia.
    unfold ext2_get_cache.
    destruct (bmap_good block_shift fuel fblock bound_range 1 (i_pvt i) 0 st Hmap Hst ltac:(lia)) as (cnt & st1 & -> & Hst1 & Hv & _).
    destruct (read_block_ok st1 (fblock 0) Hst1 ltac:(lia)) as (st2 & -> & Hst2).
    rewrite (proj1 (block_bytes (fblock 0))), (proj2 (Nat.leb_le _ (Z.to_nat block_size))), (proj2 (Nat.leb_le _ (length buf))) by lia; cbn [andb].
    rewrite Z.sub_diag; exists st2; split; [|done]; destruct n; reflexivity.
Qed.
End volume.

(** ** A small volume *)

(** Blocks of 1024 bytes: the descriptors in block 2, eight inodes in block 5, the root
    in block 10 with an entry for itself, one not in use, and the file "a", inode 3. *)
Definition root_bytes : list Z :=
  blit 24 [3; 0; 0; 0; 232; 3; 1; 1; 97] (blit 12 [0; 0; 0; 0; 12; 0; 1; 1; 120]
    (blit 0 [2; 0; 0; 0; 12; 0; 1; 2; 46] (replicate 1024 0))).
Definition tiny_bytes (b : Z) : list Z :=
  if b =? 2 then blit 8 [5] (replicate 1024 0)
  else if b =? 5 then
    blit 256 [0xA4; 0x81; 0; 0; 7] (blit 168 [10] (blit 128 [0xED; 0x41; 0; 0; 0; 4] (replicate 1024 0)))
  else if b =? 10 then root_bytes
  else replicate 1024 0.

#[local] Instance tiny_reader : BlockReader () := {| read_block b st := Some (tiny_bytes b, st) |}.
#[local] Instance tiny_laws : BlockReaderLaws () tiny_bytes 4294967296.
Proof. refine {| reader_ok _ := True |}; intros st b _ _; now exists st. Defined.

Definition tiny_sbi : ext2_sb_info := Sb 8 8 8192 32 1 1 128 [].

Lemma tiny_bytes_ok b : length (tiny_bytes b) = Z.to_nat (2 ^ 10) /\ Forall is_byte (tiny_bytes b).
Proof.
  unfold tiny_bytes; repeat match goal with |- context [if ?c then _ else _] => destruct c end;
    (split; [vm_compute; reflexivity|apply bytes_ok; vm_compute; reflexivity]).
Qed.

Lemma tiny_geometry : geometry_ok (bytes := tiny_bytes) 10 tiny_sbi.
Proof.
  split.
  - split; [vm_compute; reflexivity|split; [vm_compute; discriminate|vm_compute; reflexivity]].
  - split; vm_compute; reflexivity.
  - vm_compute; reflexivity.
  - split; [vm_compute; discriminate|split; [vm_compute; discriminate|vm_compute; reflexivity]].
  - intros g Hg; cbn in Hg; replace g with 0 by lia; vm_compute; reflexivity.
Qed.

Definition tiny_root : ext2_inode := fill_inode (inode_bytes (bytes := tiny_bytes) tiny_sbi 2).
Definition tiny_block (k : Z) : Z := 10.
Definition tiny_offs (k : Z) : list nat := [0; 12; 24]%nat.

Lemma tiny_dir : dir_ok (bytes := tiny_bytes) (bound := 4294967296) 10 1 tiny_block tiny_root 1 tiny_offs.
Proof.
  split.
  - vm_compute; reflexivity.
  - vm_compute; split; [discriminate|reflexivity].
  - apply sound_map; [vm_compute; reflexivity|split; [vm_compute; reflexivity|apply bytes_ok; vm_compute; reflexivity]|
      vm_compute; discriminate|lia|exact tiny_bytes_ok| |].
    + intros b Hb; replace b with 0 by lia; exact Logic.I.
    + intros b Hb; replace b with 0 by lia; split; [|vm_compute; reflexivity].
      unfold file_map; rewrite lookup_app_l by (vm_compute; lia); vm_compute; reflexivity.
  - intros k Hk; vm_compute; reflexivity.
  - intros k Hk; change (tiny_bytes (tiny_block k)) with root_bytes.
    repeat (apply entries_next; [vm_compute; discriminate|vm_compute; discriminate|vm_compute; lia|]).
    match goal with |- entries _ ?o _ => replace o with (length root_bytes) by (vm_compute; reflexivity) end; apply entries_end.
Qed.

Lemma ext2_iget_correct_witness :
  exists st', ext2_iget 10 1 tiny_sbi true [97] tiny_root () =
    Some (named_inode (bytes := tiny_bytes) tiny_sbi (dir_list (bytes := tiny_bytes) tiny_block 1 tiny_offs) [97], st') /\ reader_ok st'.
Proof.
  refine (ext2_iget_correct (laws := tiny_laws) 10 1 tiny_sbi tiny_block _ _ tiny_bytes_ok tiny_geometry tiny_root 1 tiny_offs [97] () tiny_dir _);
    [lia|lia|exact Logic.I].
Defined.

Example tiny_lookups :
  (match ext2_iget 10 1 tiny_sbi true [97] tiny_root () with Some (Some i, _) => Some (i_mode i, i_size i) | _ => None end) = Some (8, 7) /\
  (match ext2_iget 10 1 tiny_sbi true [120] tiny_root () with Some (None, _) => true | _ => false end) = true.
Proof. split; vm_compute; reflexivity. Qed.

Lemma ext2_readdir_correct_witness :
  exists turns ds st', list_dir 10 1 turns tiny_root 0 () = Some (ds, st') /\ reader_ok st' /\
    map key_of ds = map key_at (dir_list (bytes := tiny_bytes) tiny_block 1 tiny_offs).
Proof.
  refine (ext2_readdir_correct (laws := tiny_laws) 10 1 tiny_block _ _ tiny_bytes_ok tiny_root 1 tiny_offs () tiny_dir _ _); [lia|lia|exact Logic.I|].
  intros k o _ Ho; apply list_elem_of_In in Ho; destruct Ho as [<-|[<-|[<-|[]]]]; vm_compute; discriminate.
Defined.

(** The entry that is not in use is listed as any other. *)
Example tiny_listing :
  option_map (fun r => map key_of r.1) (list_dir 10 1 4 tiny_root 0 ()) = Some [(2, [46]); (0, [120]); (3, [97])].
Proof. vm_compute; reflexivity. Qed.

Lemma ext2_readlink_correct_witness :
  let i := Inode2 10 5 0 0 0 0 0 0 (Pvt (replicate 60 120) 0) in
  exists st', ext2_readlink 10 9 1 i (replicate 8 0) () = Some (5, [120; 120; 120; 120; 120; 0; 0; 0], st') /\ reader_ok st'.
Proof.
  intros i.
  destruct (ext2_readlink_correct (laws := tiny_laws) 10 9 1 tiny_block ltac:(lia) ltac:(lia) tiny_bytes_ok i (replicate 8 0) ())
    as (st' & E & H); [cbn; lia|exact Logic.I|lia|cbn; lia|cbn; lia|cbn; discriminate|].
  exists st'; split; [exact (eq_trans E eq_refl)|exact H].
Defined.

(** A record without a length: the search of its block does not end, whatever the
    bound. *)
Theorem record_of_no_length n dname data :
  d_rec_len data 0 = 0 -> ext2_match_entry dname data 0 = Some false -> find_in_block n dname data 0 1024 = None.
Proof.
  intros Hr Hm; induction n as [|n IH]; [reflexivity|]; cbn [find_in_block].
  change (0 <? 1024 ⊟ 8) with true; change (Z.to_nat 0) with 0%nat; rewrite Hr, Hm; exact IH.
Qed.

Lemma record_of_no_length_witness : find_in_block 5 [97] (replicate 1024 0) 0 1024 = None.
Proof. apply (record_of_no_length 5 [97] (replicate 1024 0)); vm_compute; reflexivity. Defined.

(** Descriptors of 64 bytes: the block holds 16 of them, but the one of the group 1 is
    looked for 32 bytes behind the first. *)
Example wide_descriptors :
  let sbi := Sb 8 8 8192 (1024 / 64) 2 1 128 [] in
  option_map fst (ext2_get_group_desc (reader := {| read_block _ st := Some (map Z.of_nat (seq 0 1024), st) |}) sbi 1 ()) =
    Some (Some (map Z.of_nat (seq 32 32))).
Proof. vm_compute; reflexivity. Qed.

(** The type 8 is past the table of types. *)
Example type_past_table : ext2_cvt_type 8 = None.
Proof. reflexivity. Qed.
