(* ===== verification/Thread.v ===== *)
(** * The threads of the core: core/thread

    A thread is a number; [ring] is the circular list of the threads in the
    order of [list.next], beginning with the one after the current thread, so
    that the current thread comes last in it.  A sleeping thread's [struct
    thread_block] is on its stack; [t_block] holds it.  The wait queue of a
    semaphore is the list of the threads whose blocks are linked in it.

    [t_pc] is where a thread is in the functions of this directory: sem_down and
    sem_up (sem_asm.S) change the count in one instruction, and an interrupt may
    call __schedule before the slow path has locked interrupts out.  Each
    section that runs with interrupts locked out is one function here; an event
    is one such section of the current thread, or an interrupt.  [None] is a
    call of kaboom, a dereference of a dangling pointer, or an endless loop. *)

From S2P Require Import Prelude.

(** ** State *)

(** [src/core/include/thread.h:33-40 struct thread_block] *)
Record block := Block { b_sem : nat; b_time : Z; b_timeout : Z; b_timed_out : bool }.

Inductive pc :=
  | Running                              (** in the thread's own function *)
  | DownSlow (s : nat) (timeout : Z)     (** on the way into __sem_down_slow *)
  | UpSlow (s : nat)                     (** on the way into __sem_up_slow *)
  | Asleep                               (** in __schedule, in __sem_down_slow *)
  | Exiting.                             (** on the way into __exit_thread *)

(** [t_blocked] says that [blocked] points to [t_block].
    [src/core/include/thread.h:44-53 struct thread] *)
Record thread := Thread { t_prio : Z; t_blocked : bool; t_block : block; t_pc : pc }.

(** [s_ups] and [s_grants] are history variables the code does not have: the
    calls of sem_up so far, and the calls of sem_down that have succeeded.
    [src/core/include/thread.h:68-71 struct semaphore] *)
Record sem := Sem {
  s_count : Z; s_queue : list nat; s_valid : bool; s_ups : Z; s_grants : Z }.

(** The threads and semaphores, the timers (core/timer.inc), and what
    core/fs/pxe/isr.c shares with the scheduler. *)
Record state := State {
  cur : nat;
  ring : list nat;
  threads : gmap nat thread;
  sems : gmap nat sem;
  ms_timer : Z;
  jiffies : Z;
  in_sched_hook : bool;
  sched_hook : bool;                     (** sched_hook_func is pxe_poll_wakeups *)
  last_jiffies : Z;
  pxe_need_poll : Z;
  pxe_irq_pending : bool
}.

Definition set_ring (c : nat) (l : list nat) (st : state) : state :=
  State c l (threads st) (sems st) (ms_timer st) (jiffies st) (in_sched_hook st)
    (sched_hook st) (last_jiffies st) (pxe_need_poll st) (pxe_irq_pending st).

Definition set_threads (m : gmap nat thread) (st : state) : state :=
  State (cur st) (ring st) m (sems st) (ms_timer st) (jiffies st) (in_sched_hook st)
    (sched_hook st) (last_jiffies st) (pxe_need_poll st) (pxe_irq_pending st).

Definition set_sems (m : gmap nat sem) (st : state) : state :=
  State (cur st) (ring st) (threads st) m (ms_timer st) (jiffies st) (in_sched_hook st)
    (sched_hook st) (last_jiffies st) (pxe_need_poll st) (pxe_irq_pending st).

Definition set_clock (ms j : Z) (st : state) : state :=
  State (cur st) (ring st) (threads st) (sems st) ms j (in_sched_hook st)
    (sched_hook st) (last_jiffies st) (pxe_need_poll st) (pxe_irq_pending st).

Definition set_in_hook (b : bool) (st : state) : state :=
  State (cur st) (ring st) (threads st) (sems st) (ms_timer st) (jiffies st) b
    (sched_hook st) (last_jiffies st) (pxe_need_poll st) (pxe_irq_pending st).

Definition set_pxe (last np : Z) (irq : bool) (st : state) : state :=
  State (cur st) (ring st) (threads st) (sems st) (ms_timer st) (jiffies st) (in_sched_hook st)
    (sched_hook st) last np irq.

Definition set_thread (t : nat) (th : thread) (st : state) : state :=
  set_threads (<[t := th]> (threads st)) st.

Definition set_sem (s : nat) (sm : sem) (st : state) : state :=
  set_sems (<[s := sm]> (sems st)) st.

Definition set_pc (p : pc) (th : thread) : thread :=
  Thread (t_prio th) (t_blocked th) (t_block th) p.

Definition set_cur_pc (p : pc) (st : state) : option state :=
  let* th := threads st !! cur st in Some (set_thread (cur st) (set_pc p th) st).

(** ** Semaphores *)

(** (mstime_t)-1 *)
Definition TIMEOUT_NOW : Z := 4294967295.

(** [src/core/thread/semaphore.c:4-10 sem_init] *)
Definition sem_init (s : nat) (count : Z) (st : state) : state :=
  set_sem s (Sem count [] true 0 0) st.

(** [src/core/include/thread.h:94-98 sem_set_invalid] *)
Definition sem_set_invalid (s : nat) (st : state) : option state :=
  let* sm := sems st !! s in
  Some (set_sem s (Sem (s_count sm) (s_queue sm) false (s_ups sm) (s_grants sm)) st).

(** Unlinks a block from the queue it is in: when it is the first, this writes
    the [list.next] that sem_set_invalid may have cleared. *)
Definition unlink (t : nat) (sm : sem) : sem :=
  Sem (s_count sm) (filter (fun u => u <> t) (s_queue sm))
    (s_valid sm || bool_decide (head (s_queue sm) = Some t)) (s_ups sm) (s_grants sm).

Definition add_count (d : Z) (sm : sem) : sem :=
  Sem (s32 (s_count sm + d)) (s_queue sm) (s_valid sm) (s_ups sm) (s_grants sm).

Definition add_grant (sm : sem) : sem :=
  Sem (s_count sm) (s_queue sm) (s_valid sm) (s_ups sm) (s_grants sm + 1).

Definition add_up (sm : sem) : sem :=
  Sem (s_count sm) (s_queue sm) (s_valid sm) (s_ups sm + 1) (s_grants sm).

(** [js] tests the sign of the decremented count.
    [src/core/thread/sem_asm.S:1-7 sem_down] *)
Definition sem_down (s : nat) (timeout : Z) (st : state) : option state :=
  let* sm := sems st !! s in
  let sm := add_count (-1) sm in
  if s_count sm <? 0 then set_cur_pc (DownSlow s timeout) (set_sem s sm st)
  else Some (set_sem s (add_grant sm) st).

(** [jle] compares without the overflow of [incl].
    [src/core/thread/sem_asm.S:9-15 sem_up] *)
Definition sem_up_fast (s : nat) (st : state) : option (bool * state) :=
  let* sm := sems st !! s in
  Some (s_count sm + 1 <=? 0, set_sem s (add_up (add_count 1 sm)) st).

Section scheduling.
(** What a call of __schedule does. *)
Variable schedule : state -> option state.

(** The new block at the end of the queue.
    [src/core/thread/semaphore.c:31-47 __sem_down_slow] *)
Definition enqueue (s : nat) (timeout : Z) (sm : sem) (th : thread) (st : state) : state :=
  let now := ms_timer st in
  let b := Block s now (if timeout =? 0 then 0 else u32 (now + timeout)) false in
  set_sem s (Sem (s_count sm) (s_queue sm ++ [cur st]) (s_valid sm) (s_ups sm) (s_grants sm))
    (set_thread (cur st) (Thread (t_prio th) true b Asleep) st).

(** Up to the call of __schedule; [resume] is the rest.
    [src/core/thread/semaphore.c:12-56 __sem_down_slow] *)
Definition sem_down_slow (s : nat) (timeout : Z) (st : state) : option state :=
  let* sm := sems st !! s in
  let* th := threads st !! cur st in
  if negb (s_valid sm) then set_cur_pc Running st
  else if 0 <=? s_count sm then set_cur_pc Running (set_sem s (add_grant sm) st)
  else if timeout =? TIMEOUT_NOW then set_cur_pc Running (set_sem s (add_count 1 sm) st)
  else schedule (enqueue s timeout sm th st).

(** The value returned by the thread that __schedule has come back to.
    [src/core/thread/semaphore.c:51-55 __sem_down_slow] *)
Definition down_result (st : state) (th : thread) : Z :=
  if b_timed_out (t_block th) then TIMEOUT_NOW
  else u32 (ms_timer st - b_time (t_block th)).

(** [src/core/thread/semaphore.c:51-56 __sem_down_slow] *)
Definition resume (st : state) : option state :=
  let* th := threads st !! cur st in
  let s := b_sem (t_block th) in
  if b_timed_out (t_block th) then set_cur_pc Running st
  else
    let* sm := sems st !! s in
    set_cur_pc Running (set_sem s (add_grant sm) st).

(** [list.next] of a semaphore that is not valid is NULL, from which no block
    can be had.
    [src/core/thread/semaphore.c:58-87 __sem_up_slow] *)
Definition sem_up_slow (s : nat) (st : state) : option state :=
  let* sm := sems st !! s in
  if negb (s_valid sm) then None
  else
    match s_queue sm with
    | [] => Some st
    | t :: rest =>
        let* th := threads st !! t in
        schedule
          (set_thread t (Thread (t_prio th) false (t_block th) (t_pc th))
             (set_sem s (Sem (s_count sm) rest (s_valid sm) (s_ups sm) (s_grants sm)) st))
    end.

(** A call of sem_up with interrupts locked out. *)
Definition sem_up_locked (s : nat) (st : state) : option state :=
  let* (slow, st) := sem_up_fast s st in
  if slow then sem_up_slow s st else Some st.

(** ** Timeouts *)

(** The body of the walk, for one thread.
    [src/core/thread/timeout.c:25-39 __thread_process_timeouts] *)
Definition expire (now : Z) (t : nat) (st : state) : option state :=
  let* th := threads st !! t in
  let b := t_block th in
  if t_blocked th && negb (b_timeout b =? 0) && (s32 (b_timeout b - now) <=? 0) then
    let* sm := sems st !! b_sem b in
    schedule
      (set_thread t (Thread (t_prio th) false (Block (b_sem b) (b_time b) (b_timeout b) true) (t_pc th))
         (set_sem (b_sem b) (add_count 1 (unlink t sm)) st))
  else Some st.

(** The walk of the circular list [lap] up to the current thread, [l] being what
    is left of this lap.
    [src/core/thread/timeout.c:23-40 __thread_process_timeouts] *)
Fixpoint walk (fuel : nat) (now : Z) (lap l : list nat) (st : state) : option state :=
  match fuel with
  | O => None
  | S fuel =>
      match l with
      | [] => walk fuel now lap lap st
      | t :: l =>
          if decide (t = cur st) then Some st
          else
            let* st := expire now t st in
            walk fuel now lap l st
      end
  end.

(** [src/core/thread/timeout.c:14-41 __thread_process_timeouts] *)
Definition process_timeouts (st : state) : option state :=
  walk (S (length (ring st))) (ms_timer st) (ring st) (ring st) st.
End scheduling.

(** ** The scheduler *)

(** __schedule called from the hook returns at once.
    [src/core/thread/schedule.c:29-30 __schedule] *)
Definition schedule_in_hook (st : state) : option state :=
  if in_sched_hook st then Some st else None.

(** core/fs/pxe/isr.c's two semaphores *)
Definition pxe_receive_thread_sem : nat := 0.
Definition pxe_poll_thread_sem : nat := 1.

(** The function sched_hook_func is set to; it is called with [in_sched_hook] set.
    [src/core/fs/pxe/isr.c:121-141 pxe_poll_wakeups] *)
Definition pxe_poll_wakeups (st : state) : option state :=
  let* st :=
    if pxe_need_poll st =? 1 then
      sem_up_locked schedule_in_hook pxe_poll_thread_sem
        (set_pxe (last_jiffies st) 3 (pxe_irq_pending st) st)
    else Some st in
  let* st :=
    if jiffies st =? last_jiffies st then Some st
    else
      process_timeouts schedule_in_hook
        (set_pxe (jiffies st) (pxe_need_poll st) (pxe_irq_pending st) st) in
  if pxe_irq_pending st then
    sem_up_locked schedule_in_hook pxe_receive_thread_sem
      (set_pxe (last_jiffies st) (pxe_need_poll st) false st)
  else Some st.

(** The first thread of the least priority value among those not blocked.
    [src/core/thread/schedule.c:48-66 __schedule] *)
Fixpoint pick_best (m : gmap nat thread) (best : option (nat * Z)) (l : list nat)
  : option (option nat) :=
  match l with
  | [] => Some (option_map fst best)
  | t :: l =>
      let* th := m !! t in
      let best :=
        if t_blocked th then best
        else
          match best with
          | None => Some (t, t_prio th)
          | Some (b, p) => if t_prio th <? p then Some (t, t_prio th) else Some (b, p)
          end in
      pick_best m best l
  end.

(** The ring seen from another thread of it. *)
Fixpoint rotate_to (t : nat) (passed l : list nat) : list nat :=
  match l with
  | [] => passed
  | u :: l => if decide (u = t) then l ++ passed ++ [u] else rotate_to t (passed ++ [u]) l
  end.

(** [src/core/thread/schedule.c:68-80 __schedule] *)
Definition switch_to_best (st : state) : option state :=
  let* best := pick_best (threads st) None (ring st) in
  let* best := best in
  Some (set_ring best (rotate_to best [] (ring st)) st).

(** [src/core/thread/schedule.c:12-81 __schedule] *)
Definition schedule (st : state) : option state :=
  if in_sched_hook st then Some st
  else
    let* st :=
      if sched_hook st then
        let* st := pxe_poll_wakeups (set_in_hook true st) in
        Some (set_in_hook false st)
      else Some st in
    switch_to_best st.

(** ** Starting and ending threads *)

(** The new thread [t] is the one after the current thread; [stack] and [rmstack]
    say whether the two allocations succeed.
    [src/core/thread/start_thread.c:13-69 start_thread] *)
Definition start_thread (t : nat) (prio : Z) (stack rmstack : bool) (st : state) : option state :=
  if stack && rmstack then
    schedule
      (set_ring (cur st) (t :: ring st)
         (set_thread t (Thread prio false (Block 0 0 0 false) Running) st))
  else Some st.

(** [src/core/thread/exit_thread.c:7-30 __exit_thread] *)
Definition exit_thread (st : state) : option state :=
  let c := cur st in
  let* st :=
    schedule
      (set_ring c (filter (fun u => u <> c) (ring st))
         (set_threads (delete c (threads st)) st)) in
  if decide (cur st = c) then None else Some st.

Definition INT_MIN : Z := -2147483648.

(** [src/core/thread/kill_thread.c:7-39 kill_thread] *)
Definition kill_thread (t : nat) (st : state) : option state :=
  if decide (t = cur st) then exit_thread st
  else
    let* th := threads st !! t in
    if t_blocked th then
      let b := t_block th in
      let* sm := sems st !! b_sem b in
      schedule
        (set_thread t
           (Thread INT_MIN false (Block (b_sem b) (b_time b) (b_timeout b) true) Exiting)
           (set_sem (b_sem b) (add_count 1 (unlink t sm)) st))
    else
      schedule (set_thread t (Thread INT_MIN false (t_block th) Exiting) st).

(** ** Events *)

Inductive event :=
  | Down (s : nat) (timeout : Z)         (** the current thread calls sem_down *)
  | Up (s : nat)                         (** the current thread calls sem_up *)
  | Go                                   (** the current thread goes on where it was *)
  | Yield                                (** the current thread calls thread_yield *)
  | Start (t : nat) (prio : Z)           (** the current thread starts a new thread *)
  | Exit                                 (** the current thread's function returns *)
  | Kill (t : nat)                       (** the current thread kills another *)
  | Interrupt                            (** core_pm_hook, which is __schedule *)
  | PxeIrq                               (** the network card's interrupt *)
  | Tick (ms : Z).                       (** the timer interrupt *)

(** [src/core/thread/schedule.c:86-91 thread_yield] *)
Definition thread_yield (st : state) : option state := schedule st.

(** A thread takes more than 16 KB of the 4 GB of memory. *)
Definition MAX_THREADS : Z := 262144.

(** One event. An event that cannot happen in the state is [None] too. *)
Definition exec (e : event) (st : state) : option state :=
  let* th := threads st !! cur st in
  match e, t_pc th with
  | Down s timeout, Running => sem_down s timeout st
  | Up s, Running =>
      let* (slow, st) := sem_up_fast s st in
      if slow then set_cur_pc (UpSlow s) st else Some st
  | Yield, Running => thread_yield st
  | Start t prio, Running =>
      if decide (t ∈ dom (threads st) \/ MAX_THREADS <= Z.of_nat t) then None
      else start_thread t prio true true st
  | Exit, Running => exit_thread st
  | Kill t, Running => kill_thread t st
  | Go, DownSlow s timeout => sem_down_slow schedule s timeout st
  | Go, UpSlow s => let* st := set_cur_pc Running st in sem_up_slow schedule s st
  | Go, Asleep => resume st
  | Go, Exiting => exit_thread st
  | Interrupt, _ => schedule st
  | PxeIrq, _ => Some (set_pxe (last_jiffies st) (pxe_need_poll st) true st)
  | Tick ms, _ => Some (set_clock (u32 ms) (u32 (jiffies st + 1)) st)
  | _, _ => None
  end.

Fixpoint run (es : list event) (st : state) : option state :=
  match es with
  | [] => Some st
  | e :: es => let* st := exec e st in run es st
  end.

(** ** Two interleavings *)

(** Three threads of the same priority, thread 1 running, and the semaphore 7. *)
Definition demo_thread : thread := Thread 0 false (Block 0 0 0 false) Running.

Definition three_threads (count : Z) : state :=
  sem_init 7 count
    (State 1 [2; 3; 1]%nat
       (<[1%nat := demo_thread]> (<[2%nat := demo_thread]> (<[3%nat := demo_thread]> ∅)))
       ∅ 0 0 false false 0 0 false).

(** The semaphore 7, and which of the three threads are blocked. *)
Definition summary (st : state) : option (sem * list bool) :=
  let* sm := sems st !! 7%nat in
  Some (sm, map (fun t => match threads st !! t with Some th => t_blocked th | None => false end)
              [1; 2; 3]%nat).

(** Threads 1 and 2 are interrupted in sem_down before they have locked
    interrupts out; thread 3 calls sem_up twice. *)
Definition two_downs_two_ups : list event :=
  [Down 7 0; Interrupt; Down 7 0; Interrupt; Up 7; Go; Yield; Go; Go; Up 7; Go; Go].

(** Thread 1 is interrupted in sem_down and thread 2 in sem_up; thread 3 calls
    sem_down before thread 2 goes on. *)
Definition one_up_two_downs : list event :=
  [Down 7 0; Interrupt; Up 7; Interrupt; Yield; Go; Yield; Interrupt; Down 7 0; Go; Yield; Go; Go].

(** An interrupt in the wrong place breaks a semaphore both ways.  Two threads
    interrupted between the decrement in sem_down and the slow path: the first of
    two calls of sem_up finds the queue empty, both go to sleep since the count is
    still negative, and the second call wakes one of them: two ups, one granted
    down, a count of zero, and thread 2 sleeps without a timeout.  (The comment in
    __sem_up_slow says that the bailout clause of __sem_down_slow takes care of
    this.)  And a thread interrupted between the increment in sem_up and the slow
    path wakes a thread that came after: one up, and two downs have succeeded. *)
Theorem semaphore_races :
  run two_downs_two_ups (three_threads 0) ≫= summary =
    Some (Sem 0 [2%nat] true 2 1, [false; true; false]) /\
  run one_up_two_downs (three_threads 0) ≫= summary =
    Some (Sem (-1) [] true 1 2, [false; false; false]).
Proof. vm_compute; split; reflexivity. Qed.
