(* ===== verification/ThreadProof.v ===== *)
(** * The threads of the core are scheduled and synchronised as they should be

    [schedule_correct] says which thread __schedule runs next;
    [semaphore_conserves] that every semaphore's count accounts for its ups,
    its grants and its waiting threads, whatever the interrupts;
    [semaphore_correct] that a semaphore whose operations are not cut in two by an
    interrupt is a counting semaphore: it grants no more than it was given, and no
    thread sleeps while it has something to give. *)

From S2P Require Import Prelude Thread.

(** ** Threads and queues agree *)

Implicit Types (t s : nat) (th : thread) (sm : sem) (st : state)
  (m : gmap nat thread) (q : gmap nat sem).

Record linked m q : Prop := {
  blocked_in_queue t th : m !! t = Some th -> t_blocked th = true ->
    t_pc th = Asleep /\ b_timed_out (t_block th) = false /\
    exists sm, q !! b_sem (t_block th) = Some sm /\ t ∈ s_queue sm;
  queue_blocked s sm t : q !! s = Some sm -> t ∈ s_queue sm ->
    exists th, m !! t = Some th /\ t_blocked th = true /\ b_sem (t_block th) = s;
  queue_nodup s sm : q !! s = Some sm -> NoDup (s_queue sm);
  thread_ids t th : m !! t = Some th -> Z.of_nat t < MAX_THREADS
}.

(** A thread that is not blocked changes, or comes into being. *)
Lemma linked_insert m q t th :
  linked m q -> Z.of_nat t < MAX_THREADS -> t_blocked th = false ->
  (forall th0, m !! t = Some th0 -> t_blocked th0 = false) ->
  linked (<[t := th]> m) q.
Proof.
  intros [H1 H2 H3 H4] Hid Hb Hold; split; auto.
  - intros u th' Hu Hbl; destruct (decide (u = t)) as [->|].
    + rewrite lookup_insert_eq in Hu; congruence.
    + rewrite lookup_insert_ne in Hu by auto; eauto.
  - intros s sm u Hs Hu; destruct (H2 s sm u Hs Hu) as (th' & Hm & Hbl & Hsem).
    destruct (decide (u = t)) as [->|]; [rewrite (Hold _ Hm) in Hbl; discriminate|].
    exists th'; rewrite lookup_insert_ne; auto.
  - intros u th' Hu; destruct (decide (u = t)) as [->|]; auto.
    rewrite lookup_insert_ne in Hu by auto; eauto.
Qed.

Lemma linked_delete m q t :
  linked m q -> (forall th, m !! t = Some th -> t_blocked th = false) -> linked (delete t m) q.
Proof.
  intros [H1 H2 H3 H4] Hold; split; auto.
  - intros u th' Hu; apply lookup_delete_Some in Hu as [? Hu]; eauto.
  - intros s sm u Hs Hu; destruct (H2 s sm u Hs Hu) as (th' & Hm & Hbl & Hsem).
    destruct (decide (u = t)) as [->|]; [rewrite (Hold _ Hm) in Hbl; discriminate|].
    exists th'; rewrite lookup_delete_ne; auto.
  - intros u th' Hu; apply lookup_delete_Some in Hu as [? Hu]; eauto.
Qed.

(** A semaphore changes, not its queue. *)
Lemma linked_sem m q s sm sm' :
  linked m q -> q !! s = Some sm -> s_queue sm' = s_queue sm -> linked m (<[s := sm']> q).
Proof.
  intros [H1 H2 H3 H4] Hs Hq; split; auto.
  - intros t th Ht Hb; destruct (H1 t th Ht Hb) as (? & ? & sm0 & Hl & Hin).
    repeat split; auto; destruct (decide (b_sem (t_block th) = s)) as [E|].
    + exists sm'; rewrite E, lookup_insert_eq, Hq; split; [done|].
      now replace sm with sm0 by congruence.
    + exists sm0; rewrite lookup_insert_ne by auto; auto.
  - intros s' sm0 t Hl Hin; destruct (decide (s' = s)) as [->|].
    + rewrite lookup_insert_eq in Hl; injection Hl as <-; rewrite Hq in Hin; eauto.
    + rewrite lookup_insert_ne in Hl by auto; eauto.
  - intros s' sm0 Hl; destruct (decide (s' = s)) as [->|].
    + rewrite lookup_insert_eq in Hl; injection Hl as <-; rewrite Hq; eauto.
    + rewrite lookup_insert_ne in Hl by auto; eauto.
Qed.

(** A thread leaves the queue it is in. *)
Lemma linked_leave m q t th th' sm sm' :
  linked m q -> m !! t = Some th -> t_blocked th = true -> t_blocked th' = false ->
  q !! b_sem (t_block th) = Some sm -> s_queue sm' = filter (fun u => u <> t) (s_queue sm) ->
  linked (<[t := th']> m) (<[b_sem (t_block th) := sm']> q).
Proof.
  intros [H1 H2 H3 H4] Ht Hb Hb' Hs Hq; split.
  - intros u th0 Hu Hbl; destruct (decide (u = t)) as [->|];
      [rewrite lookup_insert_eq in Hu; congruence|].
    rewrite lookup_insert_ne in Hu by auto.
    destruct (H1 u th0 Hu Hbl) as (? & ? & sm0 & Hl & Hin); repeat split; auto.
    destruct (decide (b_sem (t_block th0) = b_sem (t_block th))) as [E|].
    + exists sm'; rewrite E, lookup_insert_eq; split; [done|].
      rewrite Hq; apply list_elem_of_filter; split; congruence.
    + exists sm0; rewrite lookup_insert_ne by auto; auto.
  - intros s sm0 u Hl Hin; destruct (decide (s = b_sem (t_block th))) as [->|].
    + rewrite lookup_insert_eq in Hl; injection Hl as <-; rewrite Hq in Hin.
      apply list_elem_of_filter in Hin as [Hne Hin]; destruct (H2 _ _ _ Hs Hin) as (th0 & ? & ? & ?).
      exists th0; rewrite lookup_insert_ne; auto.
    + rewrite lookup_insert_ne in Hl by auto; destruct (H2 _ _ _ Hl Hin) as (th0 & Hm & ? & ?).
      exists th0; rewrite lookup_insert_ne; auto; congruence.
  - intros s sm0 Hl; destruct (decide (s = b_sem (t_block th))) as [->|].
    + rewrite lookup_insert_eq in Hl; injection Hl as <-; rewrite Hq; apply NoDup_filter; eauto.
    + rewrite lookup_insert_ne in Hl by auto; eauto.
  - intros u th0 Hu; destruct (decide (u = t)) as [->|]; eauto.
    rewrite lookup_insert_ne in Hu by auto; eauto.
Qed.

(** A thread that was not blocked goes to sleep. *)
Lemma linked_enter m q t th th' s sm sm' :
  linked m q -> m !! t = Some th -> t_blocked th = false -> t_pc th' = Asleep ->
  b_timed_out (t_block th') = false -> b_sem (t_block th') = s -> t_blocked th' = true ->
  q !! s = Some sm -> s_queue sm' = s_queue sm ++ [t] ->
  linked (<[t := th']> m) (<[s := sm']> q).
Proof.
  intros [H1 H2 H3 H4] Ht Hb Hpc Hto Hsem Hb' Hs Hq.
  assert (Hout : forall s0 sm0, q !! s0 = Some sm0 -> t ∉ s_queue sm0)
    by (intros s0 sm0 Hl Hin; destruct (H2 _ _ _ Hl Hin) as (? & ? & ? & ?); congruence).
  split.
  - intros u th0 Hu Hbl; destruct (decide (u = t)) as [->|].
    + rewrite lookup_insert_eq in Hu; injection Hu as <-; repeat split; auto.
      exists sm'; rewrite Hsem, lookup_insert_eq, Hq; split; [done|set_solver].
    + rewrite lookup_insert_ne in Hu by auto.
      destruct (H1 u th0 Hu Hbl) as (? & ? & sm0 & Hl & Hin); repeat split; auto.
      destruct (decide (b_sem (t_block th0) = s)) as [E|].
      * exists sm'; rewrite E, lookup_insert_eq, Hq; split; [done|].
        assert (sm0 = sm) as -> by congruence; set_solver.
      * exists sm0; rewrite lookup_insert_ne by auto; auto.
  - intros s0 sm0 u Hl Hin; destruct (decide (u = t)) as [->|].
    + exists th'; rewrite lookup_insert_eq; repeat split; auto.
      destruct (decide (s0 = s)) as [->|]; [congruence|].
      rewrite lookup_insert_ne in Hl by auto; destruct (Hout _ _ Hl Hin).
    + rewrite lookup_insert_ne by auto; destruct (decide (s0 = s)) as [->|].
      * rewrite lookup_insert_eq in Hl; injection Hl as <-.
        rewrite Hq in Hin; apply elem_of_app in Hin as [Hin|Hin%list_elem_of_singleton]; [eauto|done].
      * rewrite lookup_insert_ne in Hl by auto; eauto.
  - intros s0 sm0 Hl; destruct (decide (s0 = s)) as [->|].
    + rewrite lookup_insert_eq in Hl; injection Hl as <-; rewrite Hq.
      apply NoDup_app; repeat split; eauto; [|apply NoDup_singleton].
      intros u Hu ->%list_elem_of_singleton; exact (Hout _ _ Hs Hu).
    + rewrite lookup_insert_ne in Hl by auto; eauto.
  - intros u th0 Hu; destruct (decide (u = t)) as [->|]; eauto.
    rewrite lookup_insert_ne in Hu by auto; eauto.
Qed.

(** ** What __schedule does to the threads and semaphores

    Through its hook, a sequence of calls of sem_up and of timeouts, each
    atomic; then another thread may be the current one. *)

Definition wake th : thread := Thread (t_prio th) false (t_block th) (t_pc th).

Definition time_out th : thread :=
  Thread (t_prio th) false
    (Block (b_sem (t_block th)) (b_time (t_block th)) (b_timeout (t_block th)) true) (t_pc th).

Definition set_queue (l : list nat) sm : sem :=
  Sem (s_count sm) l (s_valid sm) (s_ups sm) (s_grants sm).

Definition mem : Type := gmap nat thread * gmap nat sem.

Inductive atom : mem -> mem -> Prop :=
  | atom_up m q s sm :
      q !! s = Some sm -> 0 < s_count sm + 1 \/ s_queue sm = [] ->
      atom (m, q) (m, <[s := add_up (add_count 1 sm)]> q)
  | atom_up_wake m q s sm t l th :
      q !! s = Some sm -> s_count sm + 1 <= 0 -> s_queue sm = t :: l -> m !! t = Some th ->
      atom (m, q) (<[t := wake th]> m, <[s := set_queue l (add_up (add_count 1 sm))]> q)
  | atom_expire m q t th sm :
      m !! t = Some th -> t_blocked th = true -> q !! b_sem (t_block th) = Some sm ->
      atom (m, q) (<[t := time_out th]> m, <[b_sem (t_block th) := add_count 1 (unlink t sm)]> q).

Definition mem_of st : mem := (threads st, sems st).

(** Goes through the binds and tests of a function that has returned. *)
Ltac go H :=
  repeat match type of H with
  | None = Some _ => discriminate H
  | Some _ = Some _ => apply Some_inj in H
  | match ?m with Some _ => _ | None => None end = Some _ =>
      let E := fresh "E" in destruct m eqn:E; [|discriminate H]
  | (let '(_, _) := ?p in _) = Some _ => destruct p
  | (if ?b then _ else _) = Some _ =>
      lazymatch type of b with
      | bool => let E := fresh "E" in destruct b eqn:E; bools
      | _ => destruct b
      end
  | match ?p with (_, _) => _ end = Some _ => destruct p
  end.

Lemma schedule_in_hook_id st st' : schedule_in_hook st = Some st' -> st' = st.
Proof. unfold schedule_in_hook; case_match; intros [= <-]; done. Qed.

Lemma up_locked_atom st s st' :
  sem_up_locked schedule_in_hook s st = Some st' ->
  atom (mem_of st) (mem_of st') /\ cur st' = cur st /\ ring st' = ring st.
Proof.
  unfold sem_up_locked, sem_up_fast, sem_up_slow; intros H.
  destruct (sems st !! s) as [sm|] eqn:Hs; [|discriminate]; cbn [set_sem set_sems sems threads] in H.
  rewrite lookup_insert_eq in H; go H.
  - destruct (s_queue (add_up (add_count 1 sm))) as [|t l] eqn:Eq; cbn in Eq; go H.
    + subst st'; split; [|done]; apply atom_up; auto.
    + apply schedule_in_hook_id in H; subst st'; split; [|done].
      unfold mem_of, set_thread, set_threads, set_sem; cbn -[s32]; rewrite insert_insert_eq.
      eapply (atom_up_wake _ _ s sm t l); eauto.
  - subst st'; split; [|done]; apply atom_up; auto with lia.
Qed.

Lemma expire_atom now t st st' :
  expire schedule_in_hook now t st = Some st' ->
  rtc atom (mem_of st) (mem_of st') /\ cur st' = cur st /\ ring st' = ring st.
Proof.
  unfold expire; intros H; go H; try (subst; done).
  apply schedule_in_hook_id in H; subst st'; split; [|done].
  apply rtc_once; eapply (atom_expire _ _ t t0); eauto.
Qed.

Lemma walk_atoms fuel : forall now lap l st st',
  walk schedule_in_hook fuel now lap l st = Some st' ->
  rtc atom (mem_of st) (mem_of st') /\ cur st' = cur st /\ ring st' = ring st.
Proof.
  induction fuel as [|fuel IH]; intros now lap l st st' H; cbn [walk] in H; [discriminate|].
  destruct l as [|t l]; [eauto|]; go H; [subst; done|].
  apply expire_atom in E as (R1 & C1 & L1); apply IH in H as (R2 & C2 & L2).
  repeat split; [etrans; eauto|congruence|congruence].
Qed.

Lemma wakeups_atoms st st' :
  pxe_poll_wakeups st = Some st' ->
  rtc atom (mem_of st) (mem_of st') /\ cur st' = cur st /\ ring st' = ring st.
Proof.
  unfold pxe_poll_wakeups, process_timeouts; intros H; go H; rename s into st1, s0 into st2.
  all: assert (H1 : rtc atom (mem_of st) (mem_of st1) /\ cur st1 = cur st /\ ring st1 = ring st)
    by (go E; [apply up_locked_atom in E as (? & ? & ?); split; [apply rtc_once|]; auto
              |subst; done]).
  all: assert (H2 : rtc atom (mem_of st1) (mem_of st2) /\ cur st2 = cur st1 /\ ring st2 = ring st1)
    by (go E0; [subst; done|apply walk_atoms in E0; exact E0]).
  all: destruct H1 as (R1 & C1 & L1), H2 as (R2 & C2 & L2).
  - apply up_locked_atom in H as (R3 & C3 & L3); repeat split; cbn in *; try congruence.
    etrans; [exact R1|]; etrans; [exact R2|]; apply rtc_once; exact R3.
  - subst; repeat split; try congruence; etrans; eauto.
Qed.

(** ** The choice of the next thread *)

Definition runnable m t (p : Z) : Prop :=
  exists th, m !! t = Some th /\ t_blocked th = false /\ t_prio th = p.

(** [b] is the first of the runnable threads of [l] with the least priority
    value, which is [p]. *)
Definition best_of m (l : list nat) (b : nat) (p : Z) : Prop :=
  runnable m b p /\
  exists l1 l2, l = l1 ++ b :: l2 /\
    (forall t p', t ∈ l1 -> runnable m t p' -> p < p') /\
    (forall t p', t ∈ l2 -> runnable m t p' -> p <= p').

Definition pick_inv m (l : list nat) (best : option (nat * Z)) : Prop :=
  match best with
  | None => forall t p, t ∈ l -> ~ runnable m t p
  | Some (b, p) => best_of m l b p
  end.

Lemma runnable_fun m t p p' : runnable m t p -> runnable m t p' -> p = p'.
Proof. intros (? & ? & ? & ?) (? & ? & ? & ?); congruence. Qed.

(** One more thread is looked at. *)
Lemma pick_step m l t th best :
  m !! t = Some th -> pick_inv m l best ->
  pick_inv m (l ++ [t])
    (if t_blocked th then best
     else match best with
          | None => Some (t, t_prio th)
          | Some (b, p) => if t_prio th <? p then Some (t, t_prio th) else Some (b, p)
          end).
Proof.
  intros Ht Hinv.
  assert (Hself : forall p, runnable m t p -> t_blocked th = false /\ p = t_prio th)
    by (intros p (th' & ? & ? & ?); split; congruence).
  assert (Hrun : t_blocked th = false -> runnable m t (t_prio th)) by (exists th; auto).
  assert (Hsnoc : forall b p, best_of m l b p -> (forall p', runnable m t p' -> p <= p') ->
                    best_of m (l ++ [t]) b p).
  { intros b p (Hb & l1 & l2 & -> & H1 & H2) Hle; split; [done|].
    exists l1, (l2 ++ [t]); rewrite <- app_assoc; repeat split; auto.
    intros u p' [Hu|Hu%list_elem_of_singleton]%elem_of_app Hr; [eauto|subst; auto]. }
  destruct (t_blocked th) eqn:Eb.
  - destruct best as [[b p]|]; cbn in *.
    + apply Hsnoc; auto; intros p' Hp; apply Hself in Hp as [? ?]; discriminate.
    + intros u p' [Hu|Hu%list_elem_of_singleton]%elem_of_app Hr; [exact (Hinv _ _ Hu Hr)|].
      subst; apply Hself in Hr as [? ?]; discriminate.
  - destruct best as [[b p]|]; cbn in *.
    + destruct (Z.ltb_spec (t_prio th) p) as [Hlt|Hge].
      * split; [auto|]; exists l, []; repeat split; [|set_solver].
        destruct Hinv as (Hb & l1 & l2 & -> & H1 & H2); intros u p' Hu Hr.
        rewrite elem_of_app, elem_of_cons in Hu; destruct Hu as [Hu|[->|Hu]].
        -- specialize (H1 _ _ Hu Hr); lia.
        -- pose proof (runnable_fun _ _ _ _ Hb Hr); lia.
        -- specialize (H2 _ _ Hu Hr); lia.
      * apply Hsnoc; auto; intros p' Hp; apply Hself in Hp as [_ ->]; lia.
    + split; [auto|]; exists l, []; repeat split; [|set_solver].
      intros u p' Hu Hr; destruct (Hinv _ _ Hu Hr).
Qed.

Lemma pick_best_spec m l : forall done best r,
  pick_inv m done best -> pick_best m best l = Some r ->
  exists best', r = option_map fst best' /\ pick_inv m (done ++ l) best'.
Proof.
  induction l as [|t l IH]; intros done best r Hinv H; cbn [pick_best] in H.
  - injection H as <-; exists best; now rewrite app_nil_r.
  - destruct (m !! t) as [th|] eqn:Ht; [|discriminate].
    apply IH with (done := done ++ [t]) in H; [|now apply pick_step].
    now rewrite <- app_assoc in H.
Qed.

Lemma rotate_to_spec t l2 : forall passed l1,
  t ∉ l1 -> rotate_to t passed (l1 ++ t :: l2) = l2 ++ passed ++ l1 ++ [t].
Proof.
  intros passed l1; revert passed.
  induction l1 as [|u l1 IH]; intros passed Hn; cbn [rotate_to app].
  - now rewrite decide_True.
  - rewrite decide_False by set_solver.
    rewrite IH, <- !app_assoc by set_solver; reflexivity.
Qed.

(** The state the hook leaves, and the choice made in it. *)
Lemma schedule_inv st st' :
  in_sched_hook st = false -> schedule st = Some st' ->
  rtc atom (mem_of st) (mem_of st') /\
  (exists p, best_of (threads st') (ring st) (cur st') p) /\
  (NoDup (ring st) -> ring st' ≡ₚ ring st /\ last (ring st') = Some (cur st')) /\
  (sched_hook st = false -> mem_of st' = mem_of st) /\
  in_sched_hook st' = false.
Proof.
  unfold schedule; intros Hf H; rewrite Hf in H; go H.
  rename s into s0.
  assert (Hh : rtc atom (mem_of st) (mem_of s0) /\ ring s0 = ring st /\
               (sched_hook st = false -> s0 = st) /\ in_sched_hook s0 = false).
  { destruct (sched_hook st); [|injection E as <-; split; [reflexivity|auto]].
    go E; subst s0; apply wakeups_atoms in E0 as (R & _ & L).
    split; [exact R|]; split; [exact L|]; split; [discriminate|reflexivity]. }
  destruct Hh as (R & L & Hno & Hf'); unfold switch_to_best in H; go H.
  apply (pick_best_spec _ _ []) in E0 as (best & Eo & Hb); [|cbn; set_solver].
  destruct best as [[b p]|]; [|discriminate]; injection Eo as ->; subst st'.
  cbn [mem_of threads sems set_ring cur ring app] in *.
  repeat apply conj; auto.
  - exists p; now rewrite <- L.
  - intros Hnd; destruct Hb as (_ & l1 & l2 & El & _); rewrite <- L in *; rewrite El in *.
    apply NoDup_app in Hnd as (_ & Hl1 & _).
    rewrite rotate_to_spec by (intros Hin; apply (Hl1 _ Hin); set_solver); cbn [app].
    split; [|now rewrite app_assoc, last_snoc].
    rewrite app_assoc, (Permutation_app_comm _ [b]), <- Permutation_middle; cbn [app].
    constructor; apply Permutation_app_comm.
  - intros Hs; now rewrite Hno.
Qed.

(** ** Who waits for a semaphore *)

(** The thread's sem_down has taken the count, and has neither succeeded nor
    failed so far. *)
Definition waits s th : bool :=
  match t_pc th with
  | DownSlow s' _ => bool_decide (s' = s)
  | Asleep => bool_decide (b_sem (t_block th) = s) && negb (b_timed_out (t_block th))
  | _ => false
  end.

Definition waiting s m : Z := Z.of_nat (size (filter (fun p => waits s p.2 = true) m)).

Lemma waiting_new s m t th :
  m !! t = None -> waiting s (<[t := th]> m) = waiting s m + Z.b2z (waits s th).
Proof.
  intros Ht; unfold waiting; destruct (waits s th) eqn:E.
  - rewrite map_filter_insert_True by auto.
    rewrite map_size_insert_None; [cbn [Z.b2z]; lia|].
    apply map_lookup_filter_None; auto.
  - rewrite map_filter_insert_False by (cbn; congruence).
    rewrite delete_id by auto; cbn [Z.b2z]; lia.
Qed.

Lemma waiting_delete s m t th :
  m !! t = Some th -> waiting s (delete t m) = waiting s m - Z.b2z (waits s th).
Proof.
  intros Ht; rewrite <- (insert_delete_id m t th Ht) at 2.
  rewrite waiting_new by apply lookup_delete_eq; lia.
Qed.

Lemma waiting_set s m t th th' :
  m !! t = Some th ->
  waiting s (<[t := th']> m) = waiting s m - Z.b2z (waits s th) + Z.b2z (waits s th').
Proof.
  intros Ht; rewrite <- insert_delete_eq, waiting_new by apply lookup_delete_eq.
  now rewrite (waiting_delete s m t th).
Qed.

Lemma waiting_nonneg s m : 0 <= waiting s m.
Proof. unfold waiting; lia. Qed.

(** ** The sections of the threads

    What one event does before it calls __schedule, [c] being the current
    thread. *)

Inductive local (c : nat) : mem -> mem -> Prop :=
  | local_none w : local c w w
  | local_down m q s sm th :
      m !! c = Some th -> t_pc th = Running -> q !! s = Some sm -> 0 <= s32 (s_count sm - 1) ->
      local c (m, q) (m, <[s := add_grant (add_count (-1) sm)]> q)
  | local_down_slow m q s timeout sm th :
      m !! c = Some th -> t_pc th = Running -> q !! s = Some sm -> s32 (s_count sm - 1) < 0 ->
      local c (m, q) (<[c := set_pc (DownSlow s timeout) th]> m, <[s := add_count (-1) sm]> q)
  | local_up m q s sm th :
      m !! c = Some th -> t_pc th = Running -> q !! s = Some sm -> 0 < s_count sm + 1 ->
      local c (m, q) (m, <[s := add_up (add_count 1 sm)]> q)
  | local_up_slow m q s sm th :
      m !! c = Some th -> t_pc th = Running -> q !! s = Some sm -> s_count sm + 1 <= 0 ->
      local c (m, q) (<[c := set_pc (UpSlow s) th]> m, <[s := add_up (add_count 1 sm)]> q)
  | local_invalid m q s timeout sm th :
      m !! c = Some th -> t_pc th = DownSlow s timeout -> q !! s = Some sm -> s_valid sm = false ->
      local c (m, q) (<[c := set_pc Running th]> m, q)
  | local_bail m q s timeout sm th :
      m !! c = Some th -> t_pc th = DownSlow s timeout -> q !! s = Some sm ->
      s_valid sm = true -> 0 <= s_count sm ->
      local c (m, q) (<[c := set_pc Running th]> m, <[s := add_grant sm]> q)
  | local_timeout_now m q s sm th :
      m !! c = Some th -> t_pc th = DownSlow s TIMEOUT_NOW -> q !! s = Some sm ->
      s_valid sm = true -> s_count sm < 0 ->
      local c (m, q) (<[c := set_pc Running th]> m, <[s := add_count 1 sm]> q)
  | local_sleep m q s timeout sm th b :
      m !! c = Some th -> t_pc th = DownSlow s timeout -> q !! s = Some sm ->
      s_valid sm = true -> s_count sm < 0 -> b_sem b = s -> b_timed_out b = false ->
      local c (m, q) (<[c := Thread (t_prio th) true b Asleep]> m,
                      <[s := set_queue (s_queue sm ++ [c]) sm]> q)
  | local_wake_none m q s sm th :
      m !! c = Some th -> t_pc th = UpSlow s -> q !! s = Some sm -> s_queue sm = [] ->
      local c (m, q) (<[c := set_pc Running th]> m, q)
  | local_wake m q s sm th t l tht :
      m !! c = Some th -> t_pc th = UpSlow s -> q !! s = Some sm -> s_queue sm = t :: l ->
      <[c := set_pc Running th]> m !! t = Some tht ->
      local c (m, q) (<[t := wake tht]> (<[c := set_pc Running th]> m),
                      <[s := set_queue l sm]> q)
  | local_resume_timed_out m q th :
      m !! c = Some th -> t_pc th = Asleep -> b_timed_out (t_block th) = true ->
      local c (m, q) (<[c := set_pc Running th]> m, q)
  | local_resume m q th sm :
      m !! c = Some th -> t_pc th = Asleep -> b_timed_out (t_block th) = false ->
      q !! b_sem (t_block th) = Some sm ->
      local c (m, q) (<[c := set_pc Running th]> m, <[b_sem (t_block th) := add_grant sm]> q)
  | local_start m q t prio :
      m !! t = None -> Z.of_nat t < MAX_THREADS ->
      local c (m, q) (<[t := Thread prio false (Block 0 0 0 false) Running]> m, q)
  | local_exit m q th :
      m !! c = Some th -> t_pc th = Running \/ t_pc th = Exiting ->
      local c (m, q) (delete c m, q).

(** The current thread is not blocked. *)
Definition idle_cur (c : nat) (w : mem) : Prop :=
  exists th, w.1 !! c = Some th /\ t_blocked th = false.

(** In sem_down or sem_up, before the slow path has locked interrupts out. *)
Definition pending (p : pc) : bool :=
  match p with DownSlow _ _ | UpSlow _ => true | _ => false end.

Definition at_rest (c : nat) (w : mem) : Prop :=
  forall th, w.1 !! c = Some th -> pending (t_pc th) = false.

(** An event is a local section, then __schedule or not; only an interrupt calls
    __schedule while the thread is in between. *)
Definition sections (e : event) st st' : Prop :=
  exists w, local (cur st) (mem_of st) w /\ idle_cur (cur st') (mem_of st') /\
    ((mem_of st' = w /\ cur st' = cur st) \/
     (rtc atom w (mem_of st') /\ (e = Interrupt -> w = mem_of st) /\
      (e <> Interrupt -> at_rest (cur st) w))).

Definition no_kill (e : event) : bool := match e with Kill _ => false | _ => true end.

Lemma sections_stay e st st' w :
  local (cur st) (mem_of st) w -> idle_cur (cur st) w -> mem_of st' = w -> cur st' = cur st ->
  sections e st st'.
Proof. intros L I E1 E2; exists w; rewrite E1, E2; auto. Qed.

Lemma sections_schedule e st st1 st' :
  local (cur st) (mem_of st) (mem_of st1) -> (e = Interrupt -> st1 = st) ->
  (e <> Interrupt -> at_rest (cur st) (mem_of st1)) -> in_sched_hook st1 = false ->
  schedule st1 = Some st' -> sections e st st'.
Proof.
  intros L Ei Er F H; apply schedule_inv in H as (R & (p & (th & ? & ? & _) & _) & _); auto.
  exists (mem_of st1); split; [done|]; split; [exists th; auto|].
  right; repeat split; auto; intros ->%Ei; done.
Qed.

Lemma schedule_flag st st' :
  in_sched_hook st = false -> schedule st = Some st' -> in_sched_hook st' = false.
Proof. intros F H; apply schedule_inv in H; tauto. Qed.

Section current.
(** The current thread. *)
Context (e : event) st th (He : e <> Interrupt) (Hc : threads st !! cur st = Some th) (Hi : t_blocked th = false)
  (F : in_sched_hook st = false).

Definition done_with st' : Prop := sections e st st' /\ in_sched_hook st' = false.

Lemma with_schedule st1 st' :
  local (cur st) (mem_of st) (mem_of st1) -> at_rest (cur st) (mem_of st1) -> in_sched_hook st1 = false ->
  schedule st1 = Some st' -> done_with st'.
Proof.
  intros; split; [eapply sections_schedule|eapply schedule_flag]; eauto; tauto.
Qed.

Lemma without_schedule w st' :
  local (cur st) (mem_of st) w -> idle_cur (cur st) w -> mem_of st' = w -> cur st' = cur st ->
  in_sched_hook st' = in_sched_hook st -> done_with st'.
Proof. intros; split; [eapply sections_stay; eauto|congruence]. Qed.

Ltac known := simplify_eq.
Ltac stay L :=
  known; eapply without_schedule;
    [eapply L; eauto
    |eexists; split; [first [apply lookup_insert_eq | exact Hc] | exact Hi]
    |reflexivity|reflexivity|reflexivity].
Ltac switch L :=
  known; eapply with_schedule; [| | |eassumption];
    [eapply L; eauto
    |cbn; intros ? Hl; simplify_map_eq; auto
    |exact F].

Lemma down_sections s tm st' :
  t_pc th = Running -> sem_down s tm st = Some st' -> done_with st'.
Proof.
  unfold sem_down, set_cur_pc; intros Hp H; go H; cbn -[s32] in *.
  - rewrite Hc in *; go H; subst st'; stay local_down_slow; cbn -[s32] in *; congruence.
  - subst st'; stay local_down.
Qed.

Lemma up_sections s st' :
  t_pc th = Running ->
  (let* (slow, st) := sem_up_fast s st in
   if slow then set_cur_pc (UpSlow s) st else Some st) = Some st' -> done_with st'.
Proof.
  unfold sem_up_fast, set_cur_pc; intros Hp H.
  destruct (sems st !! s) as [sm|] eqn:Es; [|discriminate]; go H; cbn -[s32] in *.
  - rewrite Hc in *; go H; subst st'; stay local_up_slow; congruence.
  - subst st'; stay local_up.
Qed.

Lemma down_slow_sections s tm st' :
  t_pc th = DownSlow s tm -> sem_down_slow schedule s tm st = Some st' -> done_with st'.
Proof.
  unfold sem_down_slow, set_cur_pc; intros Hp H; go H; cbn -[s32] in *;
    rewrite Hc in *; try (apply Some_inj in H); subst.
  - stay local_invalid.
  - stay local_bail.
  - stay local_timeout_now.
  - unfold enqueue in H; switch local_sleep.
Qed.

Lemma resume_sections st' : t_pc th = Asleep -> resume st = Some st' -> done_with st'.
Proof.
  unfold resume, set_cur_pc; intros Hp H; rewrite Hc in H; go H; cbn -[s32] in *;
    rewrite ?Hc in *; try (apply Some_inj in H); subst.
  - stay local_resume_timed_out.
  - stay local_resume.
Qed.

Lemma up_slow_sections s st' :
  t_pc th = UpSlow s ->
  (let* x := set_cur_pc Running st in sem_up_slow schedule s x) = Some st' -> done_with st'.
Proof.
  unfold set_cur_pc, sem_up_slow; intros Hp H; rewrite Hc in H; cbn in H; go H.
  destruct (s_queue s0) as [|t l] eqn:Eq; go H; subst.
  - stay local_wake_none.
  - switch local_wake.
    apply lookup_insert_Some in Hl as [[-> <-]|[_ Hl]]; [|rewrite lookup_insert_eq in Hl; now simplify_eq].
    rewrite lookup_insert_eq in E1; now simplify_eq.
Qed.

Lemma exit_sections st' :
  t_pc th = Running \/ t_pc th = Exiting -> exit_thread st = Some st' -> done_with st'.
Proof.
  unfold exit_thread; intros Hp H; go H; subst; switch local_exit.
Qed.

Lemma start_sections t prio st' :
  t_pc th = Running -> threads st !! t = None -> Z.of_nat t < MAX_THREADS ->
  start_thread t prio true true st = Some st' -> done_with st'.
Proof.
  unfold start_thread; cbn [andb]; intros Hp Ht Hid H; switch local_start.
  now rewrite Hp.
Qed.
End current.

Lemma exec_sections e st st' :
  no_kill e = true -> in_sched_hook st = false -> idle_cur (cur st) (mem_of st) ->
  exec e st = Some st' -> sections e st st' /\ in_sched_hook st' = false.
Proof.
  unfold exec; intros Hk F (th & Hc & Hi) H; cbn in Hc; rewrite Hc in H.
  destruct e as [s tm|s| | |t prio| |t| | |ms]; try discriminate Hk;
    destruct (t_pc th) eqn:Ep; try discriminate H;
    try (injection H as <-; split;
      [eapply sections_stay; [apply local_none|exists th; auto|done..]|done]);
    try (split; [eapply sections_schedule; eauto using local_none; congruence
                |eapply schedule_flag; eauto]; done);
    try (assert (He : forall e, match e with Interrupt => False | _ => True end -> e <> Interrupt)
           by (intros [] ? ?; done)).
  - eapply down_sections; eauto.
  - eapply up_sections; eauto.
  - eapply down_slow_sections; eauto.
  - eapply up_slow_sections; eauto.
  - eapply resume_sections; eauto.
  - eapply exit_sections; eauto.
  - eapply with_schedule; eauto using local_none.
    intros ? Hl; cbn in Hl; simplify_eq; now rewrite Ep.
  - go H; rename n into Hn.
    eapply start_sections; eauto; [apply not_elem_of_dom; tauto|lia].
  - eapply exit_sections; eauto.
Qed.

(** ** The threads and queues keep agreeing *)

Lemma filter_head t l :
  NoDup (t :: l) -> filter (fun u => u <> t) (t :: l) = l.
Proof.
  intros H; apply NoDup_cons in H as [Hn _]; rewrite filter_cons_False by auto.
  induction l as [|u l IH]; [done|].
  rewrite not_elem_of_cons in Hn; destruct Hn.
  rewrite filter_cons_True, IH by auto; done.
Qed.

(** The first of a queue is woken. *)
Lemma linked_wake m q s sm t l th c0 :
  linked m q -> q !! s = Some sm -> s_queue sm = t :: l -> m !! t = Some th ->
  s_queue c0 = l -> linked (<[t := wake th]> m) (<[s := c0]> q).
Proof.
  intros L Hs Hq Ht Hc.
  destruct (queue_blocked _ _ L s sm t Hs) as (th' & Ht' & Hb & Hsem); [rewrite Hq; set_solver|].
  assert (th' = th) as -> by congruence; rewrite <- Hsem in *.
  eapply linked_leave; eauto.
  rewrite Hq, filter_head; [done|]; rewrite <- Hq; eapply queue_nodup; eauto.
Qed.

Lemma atom_linked w w' : atom w w' -> linked w.1 w.2 -> linked w'.1 w'.2.
Proof.
  intros H L; destruct H; cbn [fst snd] in *.
  - eapply linked_sem; eauto.
  - eapply linked_wake; eauto.
  - eapply linked_leave; eauto.
Qed.

Lemma local_linked c w w' :
  local c w w' -> idle_cur c w -> linked w.1 w.2 -> linked w'.1 w'.2.
Proof.
  intros H (th0 & Hc & Hb) L; pose proof (thread_ids _ _ L _ _ Hc) as Hid.
  destruct H; [exact L|..]; cbn [fst snd] in *; simplify_eq;
    assert (Hold : forall th, m !! c = Some th -> t_blocked th = false) by (intros; congruence);
    try (eapply linked_sem; eauto; done);
    try (apply linked_insert; auto; done);
    try (eapply linked_sem; eauto; apply linked_insert; auto; done).
  - eapply linked_enter; eauto.
  - eapply (linked_wake _ _ s sm t l tht); eauto; apply linked_insert; auto.
  - apply linked_insert; auto; congruence.
  - apply linked_delete; auto.
Qed.

(** ** Every semaphore's count accounts for what it was given *)

(** What has been given to a semaphore and not been granted. *)
Definition tokens v0 sm : Z := v0 + s_ups sm - s_grants sm.

(** Since the semaphore was [v0]. *)
Definition account s v0 (w : mem) : Prop :=
  exists sm, w.2 !! s = Some sm /\ s_valid sm = true /\
    s_count sm = s32 (tokens v0 sm - waiting s w.1).

Lemma s32_add a b : s32 (s32 a + b) = s32 (a + b).
Proof. ulia. Qed.

Lemma s32_sub a b : s32 (s32 a - b) = s32 (a - b).
Proof. ulia. Qed.

Lemma s32_small a : -2147483648 <= a < 2147483648 -> s32 a = a.
Proof. ulia. Qed.

Lemma waits_wake s th : waits s (wake th) = waits s th.
Proof. reflexivity. Qed.

(** The semaphore [s'] changes to [sm'] and the threads to [m']: what has to be
    shown for [s]. *)
Lemma account_step s v0 m q m' s' sm sm' :
  account s v0 (m, q) -> q !! s' = Some sm ->
  (s <> s' -> waiting s m' = waiting s m) ->
  (s = s' -> s_valid sm' = s_valid sm /\
     exists d, s_count sm' = s32 (s_count sm + d) /\
       tokens v0 sm' - waiting s m' = tokens v0 sm - waiting s m + d) ->
  account s v0 (m', <[s' := sm']> q).
Proof.
  intros (sm0 & Hs & Hv & Hc) Hs' Hne Heq; unfold account; cbn [fst snd] in *.
  destruct (decide (s = s')) as [->|Hn].
  - rewrite lookup_insert_eq; exists sm'; simplify_eq.
    destruct Heq as (-> & d & -> & E); auto; repeat split; auto.
    now rewrite Hc, s32_add, E.
  - rewrite lookup_insert_ne by auto; exists sm0; rewrite Hne by auto; auto.
Qed.

Lemma account_same s v0 m q m' s' sm sm' :
  account s v0 (m, q) -> q !! s' = Some sm ->
  (s <> s' -> waiting s m' = waiting s m) ->
  (s = s' -> s_valid sm' = s_valid sm /\ s_count sm' = s_count sm /\
     tokens v0 sm' - waiting s m' = tokens v0 sm - waiting s m) ->
  account s v0 (m', <[s' := sm']> q).
Proof.
  intros (sm0 & Hs & Hv & Hc) Hs' Hne Heq; unfold account; cbn [fst snd] in *.
  destruct (decide (s = s')) as [->|Hn].
  - rewrite lookup_insert_eq; exists sm'; simplify_eq; destruct Heq as (-> & -> & E); auto.
    now rewrite E.
  - rewrite lookup_insert_ne by auto; exists sm0; rewrite Hne by auto; auto.
Qed.

(** Only the threads change. *)
Lemma account_threads s v0 m q m' :
  account s v0 (m, q) -> waiting s m' = waiting s m -> account s v0 (m', q).
Proof. intros (sm & ? & ? & ?) E; exists sm; cbn [fst snd] in *; now rewrite E. Qed.

Ltac weigh :=
  repeat first
    [ erewrite waiting_set by eassumption
    | erewrite waiting_delete by eassumption
    | erewrite waiting_new by eassumption ];
  unfold waits; cbn [wake time_out set_pc t_pc t_block b_sem b_timed_out];
  repeat match goal with
  | H : t_pc _ = _ |- _ => rewrite H
  | H : b_timed_out _ = _ |- _ => rewrite H
  end;
  cbn [negb andb Z.b2z];
  rewrite ?andb_false_r, ?andb_true_r;
  repeat match goal with
  | |- context [bool_decide ?P] =>
      first [ rewrite (bool_decide_eq_true_2 P) by congruence
            | rewrite (bool_decide_eq_false_2 P) by congruence ]
  end;
  cbn [Z.b2z negb andb tokens s_ups s_grants add_up add_count add_grant set_queue unlink s_count
    s_valid s_queue].

Lemma unlink_valid t l sm : s_queue sm = l -> s_valid sm = true -> s_valid (unlink t sm) = true.
Proof. intros _ H; cbn; now rewrite H. Qed.

Lemma atom_account s v0 w w' :
  atom w w' -> linked w.1 w.2 -> account s v0 w -> account s v0 w'.
Proof.
  intros H L A; destruct H as [m q s' sm Hs _|m q s' sm t l th Hs _ Hq Ht|m q t th sm Ht Hb Hs];
    cbn [fst snd] in *.
  - eapply account_step; eauto; intros ->; split; auto; exists 1; weigh; unfold tokens; cbn; lia.
  - eapply account_step; eauto.
    + intros; erewrite waiting_set by eassumption; rewrite waits_wake; lia.
    + intros ->; split; auto; exists 1; erewrite waiting_set by eassumption.
      rewrite waits_wake; cbn; unfold tokens; cbn; split; [done|lia].
  - destruct (blocked_in_queue _ _ L t th Ht Hb) as (Hp & Hto & _).
    eapply account_step; eauto.
    + intros; weigh; lia.
    + intros ->; split.
      * destruct A as (sm0 & Hs0 & Hv & _); cbn in *; simplify_eq; now rewrite Hv.
      * exists 1; weigh; unfold tokens; cbn; split; [done|lia].
Qed.

Ltac settle :=
  first [ done | lia | congruence
        | weigh; unfold tokens; cbn; repeat split; first [done | lia] ].

Lemma local_account c s v0 w w' :
  local c w w' -> account s v0 w -> account s v0 w'.
Proof.
  intros H A; destruct H as
    [w|m q s' sm th Hc Hp Hs Hn|m q s' tm sm th Hc Hp Hs Hn|m q s' sm th Hc Hp Hs Hn
    |m q s' sm th Hc Hp Hs Hn|m q s' tm sm th Hc Hp Hs Hv|m q s' tm sm th Hc Hp Hs Hv Hn
    |m q s' sm th Hc Hp Hs Hv Hn|m q s' tm sm th b Hc Hp Hs Hv Hn Hb Hto|m q s' sm th Hc Hp Hs Hq
    |m q s' sm th t l tht Hc Hp Hs Hq Ht|m q th Hc Hp Hto|m q th sm Hc Hp Hto Hs
    |m q t prio Hn Hid|m q th Hc Hp]; [exact A|..].
  - eapply account_step; eauto; intros ->; split; auto; exists (-1); settle.
  - eapply account_step; eauto; [intros; settle|intros ->; split; auto; exists (-1); settle].
  - eapply account_step; eauto; intros ->; split; auto; exists 1; settle.
  - eapply account_step; eauto; [intros; settle|intros ->; split; auto; exists 1; settle].
  - eapply account_threads; eauto; destruct (decide (s' = s)) as [->|]; [|settle].
    destruct A as (sm0 & Hs0 & Hv0 & _); cbn in *; congruence.
  - eapply account_same; eauto; [intros; settle|intros ->; settle].
  - eapply account_step; eauto; [intros; settle|intros ->; split; auto; exists 1; settle].
  - eapply account_same; eauto; [intros; settle|intros ->; settle].
  - eapply account_threads; eauto; settle.
  - eapply account_same; eauto; erewrite waiting_set by eassumption; rewrite waits_wake; settle.
  - eapply account_threads; eauto; settle.
  - eapply account_same; eauto; [intros; settle|intros E; subst s; settle].
  - eapply account_threads; eauto; settle.
  - eapply account_threads; eauto; destruct Hp; settle.
Qed.

(** ** Runs in which no call is cut in two *)

(** Nobody sleeps while there is something to give, and no more has been given
    than there was: [level] is what is left to give when all that wait are
    asleep. *)
Definition level s v0 m sm : Z := tokens v0 sm - waiting s m + Z.of_nat (length (s_queue sm)).

Inductive phase := Rest | InDown | InUp.

Definition phase_of s (o : option thread) : phase :=
  match o with
  | Some th =>
      match t_pc th with
      | DownSlow s' _ => if decide (s' = s) then InDown else Rest
      | UpSlow s' => if decide (s' = s) then InUp else Rest
      | _ => Rest
      end
  | None => Rest
  end.

Definition fits (ph : phase) (lv : Z) (l : list nat) : Prop :=
  match ph with
  | Rest => 0 <= lv /\ (l <> [] -> lv = 0)
  | InDown => lv = -1
  | InUp => 0 <= lv /\ (l <> [] -> lv = 1)
  end.

(** For the semaphore [s], while the current thread is in the given phase, as long
    as the count cannot have overflowed. *)
Definition fair s v0 (ph : phase) (w : mem) : Prop :=
  exists sm, w.2 !! s = Some sm /\ 0 <= s_grants sm /\
    (v0 + s_ups sm < 2147483648 -> fits ph (level s v0 w.1 sm) (s_queue sm)).

(** The count is what [level] says it is. *)
Lemma queue_bound m q s sm :
  linked m q -> q !! s = Some sm -> Z.of_nat (length (s_queue sm)) <= 262144.
Proof.
  intros L Hs.
  assert (Hi : incl (map Z.of_nat (s_queue sm)) (seqZ 0 MAX_THREADS)).
  { intros z Hz; apply in_map_iff in Hz as (t & <- & Ht%list_elem_of_In).
    apply list_elem_of_In, elem_of_seqZ.
    destruct (queue_blocked _ _ L s sm t Hs Ht) as (th & Hm & _).
    pose proof (thread_ids _ _ L t th Hm); lia. }
  apply NoDup_incl_length in Hi.
  - rewrite length_map, length_seqZ in Hi; unfold MAX_THREADS in Hi; lia.
  - apply NoDup_ListNoDup, NoDup_fmap_2; [intros x y; lia|].
    apply (queue_nodup _ _ L s sm Hs).
Qed.

Lemma count_level s v0 m q sm :
  linked m q -> account s v0 (m, q) -> q !! s = Some sm -> 0 <= s_grants sm ->
  v0 + s_ups sm < 2147483648 -> -1 <= level s v0 m sm ->
  s_count sm = level s v0 m sm - Z.of_nat (length (s_queue sm)).
Proof.
  intros L (sm0 & Hs0 & _ & Hc) Hs Hg Hup Hl; cbn [fst snd] in *; simplify_eq.
  pose proof (queue_bound m q s _ L Hs0); pose proof (waiting_nonneg s m).
  rewrite Hc, s32_small; unfold level, tokens in *; lia.
Qed.

Lemma fair_step s v0 m q m' s' sm sm' ph ph' :
  fair s v0 ph (m, q) -> q !! s' = Some sm ->
  (s <> s' -> waiting s m' = waiting s m /\ ph' = ph) ->
  (s = s' -> 0 <= s_grants sm -> 0 <= s_grants sm' /\ s_ups sm <= s_ups sm' /\
     (v0 + s_ups sm < 2147483648 -> fits ph (level s v0 m sm) (s_queue sm) ->
      fits ph' (level s v0 m' sm') (s_queue sm'))) ->
  fair s v0 ph' (m', <[s' := sm']> q).
Proof.
  intros (sm0 & Hs & Hg & Hf) Hs' Hne Heq; unfold fair; cbn [fst snd] in *.
  destruct (decide (s = s')) as [->|Hn].
  - rewrite lookup_insert_eq; exists sm'; simplify_eq; destruct Heq as (? & ? & Hk); auto.
    repeat split; auto; intros; apply Hk; [lia|apply Hf; lia].
  - rewrite lookup_insert_ne by auto; destruct Hne as (E & ->); auto.
    exists sm0; unfold level in *; rewrite E; auto.
Qed.

Lemma fair_threads s v0 m q m' ph ph' :
  fair s v0 ph (m, q) -> waiting s m' = waiting s m -> 
  (forall l lv, fits ph lv l -> forall sm, q !! s = Some sm -> l = s_queue sm -> fits ph' lv l) ->
  fair s v0 ph' (m', q).
Proof.
  intros (sm & Hs & Hg & Hf) E Hk; exists sm; unfold level in *; cbn [fst snd] in *; rewrite E.
  repeat split; eauto.
Qed.

(** A count of zero or more is something to give; below zero it is not. *)
Lemma fair_count s v0 m q sm ph :
  linked m q -> account s v0 (m, q) -> fair s v0 ph (m, q) -> q !! s = Some sm ->
  v0 + s_ups sm < 2147483648 -> fits ph (level s v0 m sm) (s_queue sm) ->
  s_count sm = level s v0 m sm - Z.of_nat (length (s_queue sm)) /\
  -2147483648 <= s_count sm - 1 /\ s_count sm < 2147483648.
Proof.
  intros L A (sm0 & Hs0 & Hg & _) Hs Hup Hf; cbn [fst snd] in *; simplify_eq.
  assert (Hc : s_count sm0 = level s v0 m sm0 - Z.of_nat (length (s_queue sm0))).
  { eapply count_level; eauto; destruct ph; cbn [fits] in Hf; lia. }
  pose proof (queue_bound m q s _ L Hs0); pose proof (waiting_nonneg s m).
  split; [done|]; rewrite Hc; unfold level, tokens in *; destruct ph; cbn [fits] in Hf; lia.
Qed.

Lemma cons_not_nil {A} (x : A) l : x :: l <> [].
Proof. discriminate. Qed.

(** The three obligations of [fair_step] for the semaphore that changes. *)
Ltac same_sem :=
  intros Hg; cbn [s_grants s_ups add_up add_count add_grant set_queue unlink];
  split; [lia|split; [lia|intros Hup Hf]].

Lemma length_unlink t l : NoDup l -> t ∈ l ->
  S (length (filter (fun u => u <> t) l)) = length l.
Proof.
  induction l as [|u l IH]; intros Hnd Hin; [set_solver|].
  destruct (decide (u = t)) as [->|Hne].
  - now rewrite filter_head.
  - apply NoDup_cons in Hnd as [_ Hnd]; apply elem_of_cons in Hin as [->|Hin]; [done|].
    rewrite filter_cons_True by auto; cbn; now rewrite IH.
Qed.

Lemma atom_fair s v0 w w' :
  atom w w' -> linked w.1 w.2 -> account s v0 w -> fair s v0 Rest w -> fair s v0 Rest w'.
Proof.
  intros H L A Fa; destruct H as [m q s' sm Hs Hor|m q s' sm t l th Hs Hn Hq Ht|m q t th sm Ht Hb Hs];
    cbn [fst snd] in *.
  - eapply fair_step; eauto; intros ->; same_sem.
    destruct (fair_count s' v0 m q sm Rest L A Fa Hs Hup Hf) as (Hc & _ & _).
    unfold level, tokens in *; cbn [fits s_queue s_ups s_grants add_up add_count] in *.
    destruct (s_queue sm) as [|x l]; [split; [lia|done]|].
    destruct Hf as [H0 H2]; specialize (H2 (cons_not_nil x l)); cbn in *.
    destruct Hor; [lia|discriminate].
  - eapply fair_step; eauto.
    + intros; erewrite waiting_set by eassumption; rewrite waits_wake; split; [lia|done].
    + intros ->; same_sem.
      unfold level, tokens in *; erewrite waiting_set by eassumption; rewrite waits_wake, Hq in *.
      cbn in *; destruct Hf as [H0 H2]; specialize (H2 (cons_not_nil t l)); split; lia.
  - destruct (blocked_in_queue _ _ L t th Ht Hb) as (Hp & Hto & sm0 & Hs0 & Hin).
    assert (sm0 = sm) as -> by congruence; clear Hs0.
    pose proof (length_unlink t _ (queue_nodup _ _ L _ _ Hs) Hin) as Hlen.
    eapply fair_step; eauto.
    + intros; split; [weigh; lia|done].
    + intros ->; same_sem; unfold level, tokens in *; weigh.
      cbn [fits] in *; destruct Hf as [H0 H2]; cbn [s_queue unlink add_count] in *.
      assert (s_queue sm <> []) by (intros E; rewrite E in Hin; set_solver).
      specialize (H2 ltac:(assumption)); split; [|intros _]; lia.
Qed.

Lemma phase_at s c m th : m !! c = Some th ->
  phase_of s (m !! c) =
    match t_pc th with
    | DownSlow s' _ => if decide (s' = s) then InDown else Rest
    | UpSlow s' => if decide (s' = s) then InUp else Rest
    | _ => Rest
    end.
Proof. now intros ->. Qed.

Lemma phase_insert s c m th :
  phase_of s (<[c := th]> m !! c) = phase_of s (Some th).
Proof. now rewrite lookup_insert_eq. Qed.

(** Evaluates the phases of the goal and of [Fa]. *)
Ltac phases Hc Hp Fa :=
  rewrite ?phase_insert; rewrite (phase_at _ _ _ _ Hc) in *; rewrite Hp in *;
  cbn [phase_of set_pc t_pc] in *;
  repeat match goal with
  | |- context [decide (?x = ?x)] => rewrite (decide_True (P := x = x)) by reflexivity
  | H : context [decide (?x = ?x)] |- _ => rewrite (decide_True (P := x = x)) in H by reflexivity
  end.

Ltac other := intros; split; [settle|repeat (rewrite decide_False by congruence); reflexivity].

Lemma local_fair s v0 c w w' :
  local c w w' -> linked w.1 w.2 -> idle_cur c w -> account s v0 w ->
  fair s v0 (phase_of s (w.1 !! c)) w -> fair s v0 (phase_of s (w'.1 !! c)) w'.
Proof.
  intros H L (thc & Hidle & _) A Fa.
  assert (Hin : w.1 !! c <> None) by (rewrite Hidle; discriminate); clear thc Hidle.
  destruct H as
    [w|m q s' sm th Hc Hp Hs Hn|m q s' tm sm th Hc Hp Hs Hn|m q s' sm th Hc Hp Hs Hn
    |m q s' sm th Hc Hp Hs Hn|m q s' tm sm th Hc Hp Hs Hv|m q s' tm sm th Hc Hp Hs Hv Hn
    |m q s' sm th Hc Hp Hs Hv Hn|m q s' tm sm th b Hc Hp Hs Hv Hn Hb Hto|m q s' sm th Hc Hp Hs Hq
    |m q s' sm th t l tht Hc Hp Hs Hq Ht|m q th Hc Hp Hto|m q th sm Hc Hp Hto Hs
    |m q t prio Hn Hid|m q th Hc Hp]; [exact Fa|..]; cbn [fst snd] in *.
  - phases Hc Hp Fa; eapply fair_step; eauto; intros ->; same_sem.
    destruct (fair_count s' v0 m q sm Rest L A Fa Hs Hup Hf) as (Hct & ? & ?).
    rewrite s32_small in Hn by lia; unfold level, tokens in *; weigh; cbn [fits] in *.
    destruct (s_queue sm) as [|x l]; cbn in *; [split; [lia|done]|].
    destruct Hf as [H1 H2]; specialize (H2 (cons_not_nil x l)); lia.
  - phases Hc Hp Fa; eapply fair_step; eauto; [other|intros ->; same_sem].
    destruct (fair_count s' v0 m q sm Rest L A Fa Hs Hup Hf) as (Hct & ? & ?).
    rewrite s32_small in Hn by lia; unfold level, tokens in *; weigh; cbn [fits] in *.
    rewrite decide_True by done; cbn [fits].
    destruct (s_queue sm) as [|x l]; cbn in *; [lia|].
    destruct Hf as [H1 H2]; specialize (H2 (cons_not_nil x l)); lia.
  - phases Hc Hp Fa; eapply fair_step; eauto; intros ->; same_sem.
    destruct (fair_count s' v0 m q sm Rest L A Fa Hs Hup Hf) as (Hct & ? & ?).
    unfold level, tokens in *; weigh; cbn [fits] in *.
    destruct (s_queue sm) as [|x l]; cbn in *; [split; [lia|done]|].
    destruct Hf as [H1 H2]; specialize (H2 (cons_not_nil x l)); lia.
  - phases Hc Hp Fa; eapply fair_step; eauto; [other|intros ->; same_sem].
    rewrite decide_True by done; unfold level, tokens in *; weigh; cbn [fits] in *.
    destruct Hf as [H1 H2]; split; [lia|intros E; specialize (H2 E); lia].
  - destruct (decide (s' = s)) as [->|].
    { destruct A as (sm0 & Hs0 & Hv0 & _); cbn in *; congruence. }
    phases Hc Hp Fa; rewrite decide_False in Fa by done; eapply fair_threads; eauto; settle.
  - phases Hc Hp Fa; destruct (decide (s' = s)) as [->|Hne].
    + eapply fair_step; eauto; [done|intros _; same_sem].
      destruct (fair_count s v0 m q sm InDown L A Fa Hs Hup Hf) as (Hct & _ & _).
      cbn [fits] in *; lia.
    + eapply fair_step; eauto; [intros _; split; [settle|done]|congruence].
  - phases Hc Hp Fa; destruct (decide (s' = s)) as [->|Hne].
    + eapply fair_step; eauto; [done|intros _; same_sem].
      unfold level, tokens in *; weigh; cbn [fits] in *; split; [|intros _]; lia.
    + eapply fair_step; eauto; [intros _; split; [settle|done]|congruence].
  - phases Hc Hp Fa; destruct (decide (s' = s)) as [->|Hne].
    + eapply fair_step; eauto; [done|intros _; same_sem].
      unfold level, tokens in *; weigh; cbn [fits] in *; rewrite length_app; cbn [length].
      split; [|intros _]; lia.
    + eapply fair_step; eauto; [intros _; split; [settle|done]|congruence].
  - phases Hc Hp Fa; eapply fair_threads; [exact Fa|settle|].
    intros l lv Hf sm0 Hs0 ->; destruct (decide (s' = s)) as [->|Hne]; [|exact Hf].
    assert (sm0 = sm) as -> by congruence; rewrite Hq in *; cbn [fits] in *.
    destruct Hf; split; [done|intros []; done].
  - assert (E : phase_of s (<[t := wake tht]> (<[c := set_pc Running th]> m) !! c) = Rest).
    { destruct (decide (t = c)) as [->|]; [|rewrite lookup_insert_ne, lookup_insert_eq by auto; done].
      rewrite lookup_insert_eq in *; injection Ht as <-; done. }
    assert (W : waiting s (<[t := wake tht]> (<[c := set_pc Running th]> m)) = waiting s m).
    { rewrite (waiting_set s _ t tht (wake tht) Ht), waits_wake; settle. }
    rewrite E; rewrite (phase_at _ _ _ _ Hc), Hp in Fa; destruct (decide (s' = s)) as [->|Hne].
    + eapply fair_step; eauto; [done|intros _; same_sem].
      unfold level, tokens in *; rewrite W, Hq in *; cbn in *.
      destruct Hf as [_ Hf]; specialize (Hf (cons_not_nil t l)); split; [|intros _]; lia.
    + eapply fair_step; eauto; congruence.
  - phases Hc Hp Fa; eapply fair_threads; eauto; settle.
  - phases Hc Hp Fa; eapply fair_step; eauto; [intros; split; [settle|done]|intros ->; same_sem].
    unfold level, tokens in *; weigh; cbn [fits] in *; destruct Hf as [H1 H2].
    split; [lia|intros E; specialize (H2 E); lia].
  - rewrite lookup_insert_ne by congruence; eapply fair_threads; eauto; settle.
  - rewrite lookup_delete_eq; cbn [phase_of].
    rewrite (phase_at _ _ _ _ Hc) in Fa; eapply fair_threads; [exact Fa|destruct Hp; settle|].
    destruct Hp as [-> | ->]; auto.
Qed.

(** Nobody but the current thread is between the count and the slow path. *)
Definition others_rest (c : nat) (w : mem) : Prop :=
  forall t th, w.1 !! t = Some th -> t <> c -> pending (t_pc th) = false.

Lemma local_others c w w' : local c w w' -> others_rest c w -> others_rest c w'.
Proof.
  intros H Q; destruct H; [exact Q|..]; intros u thu Hu Hne; cbn [fst snd] in *;
    try (rewrite lookup_insert_ne in Hu by auto; eapply Q; eauto; done);
    try (eapply Q; eauto; done).
  - destruct (decide (u = t)) as [->|].
    + rewrite lookup_insert_eq in Hu; injection Hu as <-.
      rewrite lookup_insert_ne in H3 by auto; exact (Q t tht H3 Hne).
    + rewrite !lookup_insert_ne in Hu by auto; eapply Q; eauto.
  - destruct (decide (u = t)) as [->|].
    + rewrite lookup_insert_eq in Hu; injection Hu as <-; done.
    + rewrite lookup_insert_ne in Hu by auto; eapply Q; eauto.
  - rewrite lookup_delete_ne in Hu by auto; eapply Q; eauto.
Qed.

Definition all_rest (w : mem) : Prop :=
  forall t th, w.1 !! t = Some th -> pending (t_pc th) = false.

Lemma atom_rest w w' : atom w w' -> all_rest w -> all_rest w'.
Proof.
  intros H Q; destruct H; intros u thu Hu; cbn [fst snd] in *; [eapply Q; eauto|..];
    apply lookup_insert_Some in Hu as [[-> <-]|[_ Hu]]; try (eapply Q; eauto; done).
  - exact (Q u th H2).
  - exact (Q u th H).
Qed.

(** ** Runs *)

(** What holds between two events. *)
Definition good st : Prop :=
  linked (threads st) (sems st) /\ in_sched_hook st = false /\ idle_cur (cur st) (mem_of st).

Lemma atoms_linked w w' : rtc atom w w' -> linked w.1 w.2 -> linked w'.1 w'.2.
Proof. induction 1; eauto using atom_linked. Qed.

Lemma atoms_account s v0 w w' :
  rtc atom w w' -> linked w.1 w.2 -> account s v0 w -> account s v0 w'.
Proof. induction 1; eauto using atom_linked, atom_account. Qed.

Lemma atoms_fair s v0 w w' :
  rtc atom w w' -> linked w.1 w.2 -> account s v0 w -> fair s v0 Rest w -> fair s v0 Rest w'.
Proof. induction 1; eauto 6 using atom_linked, atom_account, atom_fair. Qed.

Lemma atoms_rest w w' : rtc atom w w' -> all_rest w -> all_rest w'.
Proof. induction 1; eauto using atom_rest. Qed.

Lemma exec_good e st st' :
  no_kill e = true -> good st -> exec e st = Some st' -> good st'.
Proof.
  intros Hk (L & F & I) H.
  destruct (exec_sections e st st' Hk F I H) as [(w & Hw & I' & Hcase) F'].
  pose proof (local_linked _ _ _ Hw I L) as Lw; split; [|done].
  destruct Hcase as [[<- _]|[R _]]; [|apply (atoms_linked _ _ R) in Lw]; exact Lw.
Qed.

Lemma exec_account e s v0 st st' :
  no_kill e = true -> good st -> account s v0 (mem_of st) -> exec e st = Some st' ->
  account s v0 (mem_of st').
Proof.
  intros Hk (L & F & I) A H.
  destruct (exec_sections e st st' Hk F I H) as [(w & Hw & I' & Hcase) F'].
  apply (local_account _ _ _ _ _ Hw) in A; pose proof (local_linked _ _ _ Hw I L) as Lw.
  destruct Hcase as [[<- _]|[R _]]; eauto using atoms_account.
Qed.

Lemma run_account s v0 es : forall st st',
  forallb no_kill es = true -> good st -> account s v0 (mem_of st) -> run es st = Some st' ->
  good st' /\ account s v0 (mem_of st').
Proof.
  induction es as [|e es IH]; intros st st' Hk G A H; cbn [run forallb] in *.
  - now injection H as <-.
  - destruct (exec e st) as [st1|] eqn:E; [|discriminate].
    apply andb_true_iff in Hk as [Hk1 Hk2].
    apply (IH st1); eauto using exec_good, exec_account.
Qed.

(** The current thread is not between a count and its slow path. *)
Definition interruptible st : bool :=
  match threads st !! cur st with Some th => negb (pending (t_pc th)) | None => true end.

(** No interrupt calls __schedule there. *)
Fixpoint uncut (es : list event) st : bool :=
  match es with
  | [] => true
  | e :: es =>
      match e with Interrupt => interruptible st | _ => true end &&
      match exec e st with Some st => uncut es st | None => true end
  end.

Definition calm_state s v0 st : Prop :=
  good st /\ account s v0 (mem_of st) /\ others_rest (cur st) (mem_of st) /\
  fair s v0 (phase_of s (threads st !! cur st)) (mem_of st).

Lemma interruptible_rest st : interruptible st = true <-> at_rest (cur st) (mem_of st).
Proof.
  unfold interruptible, at_rest; cbn; destruct (threads st !! cur st) as [th|]; [|done].
  rewrite negb_true_iff; split; [intros ? ? [= <-]|intros H]; auto.
Qed.

Lemma rest_phase s o : (forall th, o = Some th -> pending (t_pc th) = false) -> phase_of s o = Rest.
Proof.
  destruct o as [th|]; [|done]; intros H; specialize (H th eq_refl); cbn.
  destruct (t_pc th); done.
Qed.

Lemma exec_calm e s v0 st st' :
  no_kill e = true -> (e = Interrupt -> interruptible st = true) ->
  calm_state s v0 st -> exec e st = Some st' -> calm_state s v0 st'.
Proof.
  intros Hk Hi (G & A & Q & Fa) H.
  pose proof (exec_good e st st' Hk G H) as G'.
  pose proof (exec_account e s v0 st st' Hk G A H) as A'.
  destruct G as (L & F & I).
  destruct (exec_sections e st st' Hk F I H) as [(w & Hw & I' & Hcase) F'].
  pose proof (local_fair s v0 _ _ _ Hw L I A Fa) as Faw.
  pose proof (local_others _ _ _ Hw Q) as Qw.
  pose proof (local_linked _ _ _ Hw I L) as Lw.
  pose proof (local_account _ s v0 _ _ Hw A) as Aw.
  destruct Hcase as [[E Ec]|(R & Ei & Er)].
  { subst w; split; [done|]; split; [done|]; now rewrite Ec. }
  assert (Hat : at_rest (cur st) w).
  { destruct (match e with Interrupt => true | _ => false end) eqn:Ee.
    - destruct e; try discriminate; rewrite Ei by done; now apply interruptible_rest, Hi.
    - apply Er; intros ->; discriminate. }
  assert (Hall : all_rest w).
  { intros t th Ht; destruct (decide (t = cur st)) as [->|]; eauto. }
  rewrite (rest_phase s _ Hat) in Faw.
  pose proof (atoms_rest _ _ R Hall) as Hall'.
  split; [done|]; split; [done|]; split; [intros t th Ht _; eauto|].
  rewrite (rest_phase s) by eauto; eapply atoms_fair; eauto.
Qed.

Lemma run_calm es s v0 : forall st st',
  forallb no_kill es = true -> uncut es st = true -> calm_state s v0 st ->
  run es st = Some st' -> calm_state s v0 st'.
Proof.
  induction es as [|e es IH]; intros st st' Hk Hu C H; cbn [run forallb uncut] in *.
  - now injection H as <-.
  - destruct (exec e st) as [st1|] eqn:E; [|discriminate].
    apply andb_true_iff in Hk as [Hk1 Hk2]; apply andb_true_iff in Hu as [Hu1 Hu2].
    eapply (IH st1); eauto; eapply exec_calm; eauto; intros ->; done.
Qed.

Lemma queue_waits m q s sm :
  linked m q -> q !! s = Some sm -> Z.of_nat (length (s_queue sm)) <= waiting s m.
Proof.
  intros L Hs; unfold waiting; apply inj_le.
  rewrite <- (size_list_to_set (C := gset nat) _ (queue_nodup _ _ L s sm Hs)), <- size_dom.
  apply subseteq_size; intros t Ht%elem_of_list_to_set.
  destruct (queue_blocked _ _ L s sm t Hs Ht) as (th & Hm & Hb & Hsem).
  destruct (blocked_in_queue _ _ L t th Hm Hb) as (Hp & Hto & _).
  apply elem_of_dom; exists th; apply map_lookup_filter_Some; split; [done|].
  cbn; unfold waits; rewrite Hp, Hto, Hsem, bool_decide_eq_true_2; done.
Qed.

(** Every thread is in its own function, and the semaphore [s] has just been
    initialised. *)
Definition booted s v0 st : Prop :=
  map_Forall (fun t th => t_blocked th = false /\ t_pc th = Running /\ Z.of_nat t < MAX_THREADS)
    (threads st) /\
  map_Forall (fun _ sm => s_queue sm = []) (sems st) /\
  in_sched_hook st = false /\ threads st !! cur st <> None /\
  sems st !! s = Some (Sem v0 [] true 0 0) /\ 0 <= v0 < 2147483648.

Lemma booted_waiting s v0 st : booted s v0 st -> waiting s (threads st) = 0.
Proof.
  intros (Ht & _); unfold waiting; rewrite (proj2 (map_empty_filter _ _)); [done|].
  intros t th Hm; cbn; unfold waits; destruct (Ht t th Hm) as (_ & -> & _); done.
Qed.

Lemma booted_calm s v0 st : booted s v0 st -> calm_state s v0 st.
Proof.
  intros B; pose proof (booted_waiting s v0 st B) as W.
  destruct B as (Ht & Hq & F & Hc & Hs & Hv).
  assert (G : good st).
  { split; [|split; [done|]].
    - split.
      + intros t th Hm Hb; destruct (Ht t th Hm); congruence.
      + intros s' sm t Hm Hin; specialize (Hq s' sm Hm); cbn in Hq; rewrite Hq in Hin; set_solver.
      + intros s' sm Hm; specialize (Hq s' sm Hm); cbn in Hq; rewrite Hq; constructor.
      + intros t th Hm; apply (Ht t th Hm).
    - destruct (threads st !! cur st) as [th|] eqn:E; [|done].
      exists th; split; [done|apply (Ht _ _ E)]. }
  split; [done|]; split; [|split].
  - exists (Sem v0 [] true 0 0); cbn; rewrite W; repeat split; auto.
    unfold tokens; cbn; rewrite s32_small; lia.
  - intros t th Hm _; destruct (Ht t th Hm) as (_ & -> & _); done.
  - exists (Sem v0 [] true 0 0); cbn; split; [done|]; split; [done|]; intros _.
    rewrite rest_phase
      by (intros th Hm; destruct (Ht _ _ Hm) as (_ & -> & _); done).
    unfold level, tokens; cbn; rewrite W; split; [lia|done].
Qed.

(** C6: from a state in which a semaphore has just been initialised, with a
    value of 0 to 2^31 - 1, and every thread (below 2^18 of them) is in its own
    function and in no queue, and on every run in which no thread is killed,
    whatever interrupts cut the calls of sem_down and sem_up in two, the
    semaphore stays valid and its count is, modulo 2^32, what it was given (its
    first value and the calls of sem_up) less the calls of sem_down that have
    succeeded and those that wait: on the way into __sem_down_slow, asleep, or
    woken and not yet running. Sleeping and timing out, from the hook or at
    once, lose nothing. (A thread that is killed on its way into __sem_down_slow
    takes the one it has counted down with it.) *)
Theorem semaphore_conserves s v0 es st st' :
  booted s v0 st -> forallb no_kill es = true -> run es st = Some st' ->
  good st' /\ exists sm, sems st' !! s = Some sm /\ s_valid sm = true /\
    s_count sm = s32 (v0 + s_ups sm - s_grants sm - waiting s (threads st')).
Proof.
  intros B Hk H; destruct (booted_calm s v0 st B) as (G & A & _).
  destruct (run_account s v0 es st st' Hk G A H) as (G' & sm & ? & ? & ?); eauto 6.
Qed.

Lemma three_threads_booted : booted 7 0 (three_threads 0).
Proof.
  split; [|split; [|split; [reflexivity|split; [vm_compute; discriminate|split; [reflexivity|lia]]]]].
  - do 3 (apply map_Forall_insert_2; [repeat split|]); apply map_Forall_empty.
  - apply map_Forall_insert_2; [reflexivity|apply map_Forall_empty].
Qed.


Definition handover : list event :=
  [Down 7 0; Go; Up 7; Go; Yield; Go].


Lemma semaphore_conserves_witness :
  exists st', run two_downs_two_ups (three_threads 0) = Some st' /\
    exists sm, sems st' !! 7%nat = Some sm /\
      s_count sm = s32 (s_ups sm - s_grants sm - waiting 7 (threads st')).
Proof.
  destruct (run two_downs_two_ups (three_threads 0)) as [st'|] eqn:E;
    [|vm_compute in E; discriminate E].
  exists st'; split; [reflexivity|].
  destruct (semaphore_conserves 7 0 two_downs_two_ups _ _ three_threads_booted eq_refl E)
    as (_ & sm & Hs & _ & Hc).
  exists sm; split; [exact Hs|exact Hc].
Defined.

(** ** The scheduler and the timeouts *)

Lemma pick_best_total m l : forall best,
  (forall t, t ∈ l -> m !! t <> None) -> pick_best m best l <> None.
Proof.
  induction l as [|t l IH]; intros best H; cbn [pick_best]; [discriminate|].
  destruct (m !! t) eqn:E; [|destruct (H t); [set_solver|done]].
  apply IH; intros u Hu; apply H; set_solver.
Qed.

(** C25: __schedule (without its hook) switches to the thread that comes first, in
    the circular list after the current one, among the runnable threads of the
    most urgent priority; the list stays the same circle of threads, seen from
    the new current thread; threads and semaphores are untouched.  It does so
    whenever one thread is runnable. *)
Theorem schedule_correct st t p :
  in_sched_hook st = false -> sched_hook st = false -> NoDup (ring st) ->
  (forall u, u ∈ ring st -> threads st !! u <> None) ->
  t ∈ ring st -> runnable (threads st) t p ->
  exists st' l1 l2 best,
    schedule st = Some st' /\ ring st = l1 ++ cur st' :: l2 /\ ring st' = l2 ++ l1 ++ [cur st'] /\
    runnable (threads st) (cur st') best /\
    (forall u pu, u ∈ l1 -> runnable (threads st) u pu -> best < pu) /\
    (forall u pu, u ∈ l2 -> runnable (threads st) u pu -> best <= pu) /\
    threads st' = threads st /\ sems st' = sems st.
Proof.
  intros F Hh Hnd Hall Ht Hr; unfold schedule, switch_to_best; rewrite F, Hh.
  destruct (pick_best (threads st) None (ring st)) as [best|] eqn:E;
    [|destruct (pick_best_total (threads st) (ring st) None Hall E)].
  apply (pick_best_spec _ _ []) in E as ([[b pb]|] & -> & Hb); [| |cbn; set_solver].
  - destruct Hb as (Hb & l1 & l2 & El & H1 & H2); cbn [app option_map fst] in *.
    eexists _, l1, l2, pb; split; [reflexivity|]; cbn [ring cur set_ring threads sems].
    rewrite El in Hnd; apply NoDup_app in Hnd as (_ & Hl1 & _).
    repeat apply conj; auto.
    rewrite El, rotate_to_spec by (intros Hin; apply (Hl1 _ Hin); set_solver); done.
  - destruct (Hb t p Ht Hr).
Qed.

Lemma all_members (l : list nat) (m : gmap nat thread) :
  forallb (fun t => match m !! t with Some _ => true | None => false end) l = true ->
  forall t, t ∈ l -> m !! t <> None.
Proof.
  intros H t Ht E; rewrite forallb_forall in H.
  apply list_elem_of_In, H in Ht; now rewrite E in Ht.
Qed.

Lemma schedule_correct_witness :
  exists st', schedule (three_threads 0) = Some st' /\ cur st' = 2%nat.
Proof.
  destruct (schedule_correct (three_threads 0) 1 0) as (st' & l1 & l2 & best & E & _);
    [reflexivity|reflexivity| | | | |].
  - apply (bool_decide_unpack _); vm_compute; exact I.
  - apply all_members; vm_compute; reflexivity.
  - vm_compute; set_solver.
  - exists demo_thread; split; [vm_compute; reflexivity|split; reflexivity].
  - exists st'; split; [exact E|]; vm_compute in E; injection E as <-; reflexivity.
Defined.

(** A sleeper whose timeout is not later than [now]. *)
Definition expired (now : Z) th : bool :=
  t_blocked th && negb (b_timeout (t_block th) =? 0) && (s32 (b_timeout (t_block th) - now) <=? 0).

Lemma expire_effect now t st th :
  in_sched_hook st = true -> linked (threads st) (sems st) -> threads st !! t = Some th ->
  exists st', expire schedule_in_hook now t st = Some st' /\
    linked (threads st') (sems st') /\ in_sched_hook st' = true /\ cur st' = cur st /\
    threads st' = <[t := if expired now th then time_out th else th]> (threads st).
Proof.
  intros F L Ht; unfold expire; rewrite Ht; fold (expired now th).
  destruct (expired now th) eqn:E.
  - assert (Hb : t_blocked th = true) by (unfold expired in E; bools; done).
    destruct (blocked_in_queue _ _ L t th Ht Hb) as (_ & _ & sm & Hs & _).
    rewrite Hs; unfold schedule_in_hook; cbn [in_sched_hook set_thread set_threads set_sem set_sems].
    rewrite F; eexists; split; [reflexivity|]; cbn; split; [|auto].
    eapply (linked_leave _ _ t th (time_out th) sm); eauto.
  - exists st; rewrite insert_id by done; auto.
Qed.

Lemma walk_effect lap now : forall l st fuel,
  in_sched_hook st = true -> linked (threads st) (sems st) -> NoDup (l ++ [cur st]) ->
  (forall t, t ∈ l -> threads st !! t <> None) -> (length l < fuel)%nat ->
  exists st', walk schedule_in_hook fuel now lap (l ++ [cur st]) st = Some st' /\
    linked (threads st') (sems st') /\
    forall t th, threads st !! t = Some th ->
      threads st' !! t = Some (if bool_decide (t ∈ l) && expired now th then time_out th else th).
Proof.
  induction l as [|u l IH]; intros st fuel F L Hnd Hall Hfu; (destruct fuel as [|fuel]; [lia|]);
    cbn [walk app length] in *.
  - rewrite decide_True by done; exists st; auto.
  - apply NoDup_cons in Hnd as [Hu Hnd]; rewrite decide_False by (intros ->; set_solver).
    destruct (threads st !! u) as [thu|] eqn:Eu; [|destruct (Hall u); [set_solver|done]].
    destruct (expire_effect now u st thu F L Eu) as (st1 & -> & L1 & F1 & C1 & M1).
    rewrite <- C1 in *; destruct (IH st1 fuel F1 L1 Hnd) as (st' & -> & L' & HM); [|lia|].
    + intros t Ht; rewrite M1; destruct (decide (t = u)) as [->|];
        [rewrite lookup_insert_eq|rewrite lookup_insert_ne by auto]; [done|apply Hall; set_solver].
    + exists st'; split; [done|]; split; [done|]; intros t th Ht; rewrite M1 in HM.
      destruct (decide (t = u)) as [->|Hne].
      * rewrite (HM u _ (lookup_insert_eq _ _ _)); simplify_eq.
        rewrite (bool_decide_eq_false_2 (u ∈ l)), bool_decide_eq_true_2 by set_solver; done.
      * rewrite (HM t th) by (rewrite lookup_insert_ne; auto).
        now rewrite (bool_decide_ext (t ∈ l) (t ∈ u :: l)) by set_solver.
Qed.

(** The walk of __thread_process_timeouts, from the hook and with the current
    thread in the list, ends; it wakes, as timed out, exactly the other threads
    whose timeout has come, in the 32-bit circular order of the milliseconds,
    taking them out of their queues; every other thread stays as it was. *)
Theorem timeouts_correct st l :
  in_sched_hook st = true -> linked (threads st) (sems st) ->
  ring st = l ++ [cur st] -> NoDup (ring st) -> (forall t, t ∈ ring st -> threads st !! t <> None) ->
  exists st', process_timeouts schedule_in_hook st = Some st' /\
    linked (threads st') (sems st') /\
    forall t th, threads st !! t = Some th ->
      threads st' !! t =
        Some (if bool_decide (t ∈ l) && expired (ms_timer st) th then time_out th else th).
Proof.
  intros F L Hr Hnd Hall; unfold process_timeouts; rewrite Hr in *.
  apply walk_effect; auto.
  - intros t Ht; apply Hall; set_solver.
  - rewrite length_app; cbn; lia.
Qed.

(** Thread 1 sleeps on the semaphore 7 for 50 ms, and 200 ms have passed. *)
Definition doze : list event := [Down 7 50; Go; Tick 200].

Lemma timeouts_correct_witness :
  exists st st', run doze (three_threads 0) = Some st /\
    process_timeouts schedule_in_hook (set_in_hook true st) = Some st' /\
    option_map t_blocked (threads st !! 1%nat) = Some true /\
    option_map t_blocked (threads st' !! 1%nat) = Some false.
Proof.
  destruct (run doze (three_threads 0)) as [st|] eqn:E; [|vm_compute in E; discriminate E].
  destruct (booted_calm _ _ _ three_threads_booted) as (G & A & _).
  destruct (run_account 7 0 doze _ _ eq_refl G A E) as ((L & _ & _) & _).
  vm_compute in E; injection E as <-.
  match type of L with linked (threads ?s) _ =>
    destruct (timeouts_correct (set_in_hook true s) [3; 1]%nat) as (st' & E & _ & HM);
      [reflexivity|exact L|reflexivity| | |exists s, st'] end.
  - apply (bool_decide_unpack _); vm_compute; exact I.
  - apply all_members; vm_compute; reflexivity.
  - split; [reflexivity|]; split; [exact E|]; split; [reflexivity|].
    erewrite HM by (vm_compute; reflexivity); vm_compute; reflexivity.
Defined.

Lemma walk_past_end lap now fuel : forall l st,
  (forall t, t ∈ l -> t ∈ lap) -> cur st ∉ lap ->
  walk schedule_in_hook fuel now lap l st = None.
Proof.
  induction fuel as [|fuel IH]; intros l st Hl Hc; cbn [walk]; [done|].
  destruct l as [|t l]; [now apply IH|].
  rewrite decide_False by (intros ->; set_solver).
  destruct (expire schedule_in_hook now t st) as [st1|] eqn:E; [|done].
  apply expire_atom in E as (_ & E & _); apply IH; [set_solver|now rewrite E].
Qed.

(** The state in which __exit_thread's call of __schedule looks for timeouts. *)
Definition exit_hook st : state :=
  set_pxe (jiffies st) (pxe_need_poll st) (pxe_irq_pending st)
    (set_in_hook true
      (set_ring (cur st) (filter (fun u => u <> cur st) (ring st))
        (set_threads (delete (cur st) (threads st)) st))).

(** __exit_thread takes the current thread out of the list and calls
    __schedule; when the hook then looks for timeouts (a clock tick has passed
    since it last did), its walk, which only ends at the current thread's own
    node, never meets it: it ends for no number of steps, and so __exit_thread
    never gets to another thread. *)
Theorem exit_in_hook_loops st :
  in_sched_hook st = false -> sched_hook st = true -> pxe_need_poll st <> 1 ->
  jiffies st <> last_jiffies st ->
  exit_thread st = None /\
  forall fuel, walk schedule_in_hook fuel (ms_timer st) (ring (exit_hook st)) (ring (exit_hook st))
                 (exit_hook st) = None.
Proof.
  intros F Hh Hp Hj.
  assert (Hw : forall fuel, walk schedule_in_hook fuel (ms_timer st) (ring (exit_hook st))
                 (ring (exit_hook st)) (exit_hook st) = None).
  { intros fuel; apply walk_past_end; [done|]; cbn; rewrite list_elem_of_filter; intros [E _]; done. }
  split; [|exact Hw]; unfold exit_thread, schedule, pxe_poll_wakeups, process_timeouts.
  cbn [in_sched_hook sched_hook set_ring set_threads set_in_hook pxe_need_poll jiffies last_jiffies].
  rewrite F, Hh, (proj2 (Z.eqb_neq _ _) Hp).
  cbn [set_ring set_threads set_in_hook jiffies last_jiffies].
  rewrite (proj2 (Z.eqb_neq _ _) Hj).
  cbn [ms_timer set_ring set_threads set_in_hook set_pxe].
  match goal with |- context [walk schedule_in_hook ?f ?n ?a ?b ?x] =>
    replace (walk schedule_in_hook f n a b x) with (@None state) by (symmetry; exact (Hw f)) end.
  reflexivity.
Qed.

Definition ticking : state :=
  State 1 [2; 3; 1]%nat (threads (three_threads 0)) ∅ 0 1 false true 0 0 false.

Lemma exit_in_hook_loops_witness :
  exit_thread ticking = None /\ exit_thread (set_clock 0 0 ticking) <> None.
Proof.
  split; [|vm_compute; discriminate].
  apply exit_in_hook_loops; [reflexivity|reflexivity|vm_compute; discriminate..].
Defined.
