(* ===== verification/Mbox.v ===== *)
(** * The mailboxes of the core: core/thread/mbox.c

    A mailbox is a ring of messages guarded by four of the semaphores of [Thread].  Any
    number of threads post and fetch, and their steps interleave in any order.  A call of
    sem_down or sem_up is one step, from its first instruction to its end, to the call of
    __schedule that puts the thread to sleep, or that a wake-up makes: the section
    that runs with interrupts locked out together with the instruction before it, as when
    no interrupt comes in between ([Thread.two_downs_two_ups] and
    [Thread.one_up_two_downs] are what interrupts can do there).  The lemmas
    [down_section_is], [up_section_is] and [expire_section_is] tie these steps to the
    functions of [Thread]. *)

From S2P Require Import Prelude Thread.

(** ** Calls of a semaphore that no interrupt cuts in two *)

Inductive verdict := Passed | Refused | Queued.

(** The thread [i] calls: the semaphore afterwards, and whether sem_down returns at once,
    with success or with -1, or the thread is put to sleep.  (The count is the one just
    decremented: the test whether it is negative no more comes to nothing.)
    [src/core/thread/semaphore.c:12-56 __sem_down_slow] *)
Definition down_section (i : nat) (timeout : Z) (sm : sem) : sem * verdict :=
  let sm := add_count (-1) sm in
  if s_count sm <? 0 then
    if negb (s_valid sm) then (sm, Refused)
    else if timeout =? TIMEOUT_NOW then (add_count 1 sm, Refused)
    else (Sem (s_count sm) (s_queue sm ++ [i]) (s_valid sm) (s_ups sm) (s_grants sm), Queued)
  else (add_grant sm, Passed).

(** The semaphore after sem_up, and the thread that is woken; [None] is the use of
    the NULL of a semaphore that is not valid.
    [src/core/thread/semaphore.c:58-87 __sem_up_slow] *)
Definition up_section (sm : sem) : option (sem * option nat) :=
  let slow := s_count sm + 1 <=? 0 in
  let sm := add_up (add_count 1 sm) in
  if slow then
    if negb (s_valid sm) then None
    else
      match s_queue sm with
      | [] => Some (sm, None)
      | t :: rest => Some (Sem (s_count sm) rest (s_valid sm) (s_ups sm) (s_grants sm), Some t)
      end
  else Some (sm, None).

(** The thread [i] that sleeps on the semaphore times out.
    [src/core/thread/timeout.c:28-32 __thread_process_timeouts] *)
Definition expire_section (i : nat) (sm : sem) : sem := add_count 1 (unlink i sm).

(** sem_down followed by its slow path, if it goes there. *)
Lemma down_section_is sched s timeout sm th st :
  sems st !! s = Some sm -> Thread.threads st !! cur st = Some th -> t_pc th = Running ->
  (let* st1 := sem_down s timeout st in
   let* th1 := Thread.threads st1 !! cur st1 in
   match t_pc th1 with DownSlow _ _ => sem_down_slow sched s timeout st1 | _ => Some st1 end) =
  match down_section (cur st) timeout sm with
  | (sm', Queued) =>
      let b := Block s (ms_timer st) (if timeout =? 0 then 0 else u32 (ms_timer st + timeout)) false in
      sched (set_sem s sm' (set_thread (cur st) (Thread (t_prio th) true b Asleep) st))
  | (sm', _) => Some (set_sem s sm' st)
  end.
Proof.
  intros Hs Ht Hp; unfold sem_down, down_section; rewrite Hs; cbn [mbind option_bind].
  destruct (Z.ltb_spec (s_count (add_count (-1) sm)) 0) as [Hneg|Hpos].
  2:{ cbn [mbind option_bind]; cbn; rewrite Ht; cbn [mbind option_bind]; now rewrite Hp. }
  assert (Hrun : set_pc Running (set_pc (DownSlow s timeout) th) = th) by (destruct th; cbn in Hp; subst; reflexivity).
  unfold set_cur_pc at 1; cbn [set_sem set_sems Thread.threads cur]; rewrite Ht; cbn [mbind option_bind].
  unfold set_thread; cbn [set_threads set_sem set_sems Thread.threads cur]; rewrite lookup_insert_eq; cbn [mbind option_bind set_pc t_pc].
  unfold sem_down_slow, set_cur_pc; cbn [set_thread set_threads set_sem set_sems Thread.threads cur sems].
  rewrite !lookup_insert_eq; cbn [mbind option_bind]; rewrite (proj2 (Z.leb_gt 0 _)) by exact Hneg.
  destruct (s_valid (add_count (-1) sm)) eqn:Ev; cbn [negb]; [destruct (timeout =? TIMEOUT_NOW)|].
  - unfold set_thread, set_sem, set_threads, set_sems; cbn; rewrite Hrun, !insert_insert_eq, insert_id by done; reflexivity.
  - unfold enqueue, set_thread, set_sem, set_threads, set_sems; cbn; cbn in Ev; now rewrite !insert_insert_eq, Ev.
  - unfold set_thread, set_sem, set_threads, set_sems; cbn; rewrite Hrun, insert_insert_eq, insert_id by done; reflexivity.
Qed.

Lemma up_section_is sched s sm st :
  sems st !! s = Some sm ->
  sem_up_locked sched s st =
  let* (sm', woken) := up_section sm in
  match woken with
  | Some t =>
      let* th := Thread.threads st !! t in
      sched (set_thread t (Thread (t_prio th) false (t_block th) (t_pc th)) (set_sem s sm' st))
  | None => Some (set_sem s sm' st)
  end.
Proof.
  intros Hs; unfold sem_up_locked, sem_up_fast, up_section; rewrite Hs; cbn [mbind option_bind].
  destruct (s_count sm + 1 <=? 0); [|done].
  unfold sem_up_slow; cbn [set_sem set_sems sems]; rewrite lookup_insert_eq; cbn [mbind option_bind].
  destruct (s_valid _) eqn:Ev; cbn [negb]; [|done]; destruct (s_queue _) as [|t rest]; [done|].
  unfold set_thread, set_sem, set_sems, set_threads; cbn.
  destruct (Thread.threads st !! t); [|done]; cbn [mbind option_bind]; now rewrite insert_insert_eq.
Qed.

Lemma expire_section_is sched now t th sm st :
  Thread.threads st !! t = Some th -> sems st !! b_sem (t_block th) = Some sm ->
  t_blocked th = true -> b_timeout (t_block th) <> 0 -> s32 (b_timeout (t_block th) - now) <= 0 ->
  expire sched now t st =
  sched (set_thread t (Thread (t_prio th) false (Block (b_sem (t_block th)) (b_time (t_block th)) (b_timeout (t_block th)) true) (t_pc th))
    (set_sem (b_sem (t_block th)) (expire_section t sm) st)).
Proof.
  intros Ht Hs Hb Hto Hnow; unfold expire; rewrite Ht; cbn [mbind option_bind].
  rewrite Hb, (proj2 (Z.eqb_neq _ _) Hto), (proj2 (Z.leb_le _ _) Hnow); cbn [andb negb]; now rewrite Hs.
Qed.

(** What a semaphore has left to give: those that sleep have been counted down. *)
Definition value (sm : sem) : Z := s_count sm + Z.of_nat (length (s_queue sm)).

(** Between two calls: someone sleeps only if nothing is left. *)
Record settled (sm : sem) : Prop := {
  st_valid : s_valid sm = true;
  st_value : 0 <= value sm /\ (s_queue sm <> [] -> value sm = 0);
  st_range : -2147483647 <= s_count sm < 2147483647
}.

Lemma down_section_spec i timeout sm : settled sm ->
  let '(sm', v) := down_section i timeout sm in
  s_valid sm' = true /\
  match v with
  | Passed => s_queue sm = [] /\ s_queue sm' = [] /\ value sm' = value sm - 1 /\ 0 <= value sm'
  | Refused => timeout = TIMEOUT_NOW /\ s_queue sm' = s_queue sm /\ value sm' = value sm
  | Queued => s_queue sm' = s_queue sm ++ [i] /\ value sm' = value sm /\ value sm = 0
  end.
Proof.
  intros [Hv [H0 H1] Hr]; unfold down_section, value in *; cbn [add_count s_count s_queue s_valid].
  rewrite s32_of_small, Hv by lia; cbn [negb].
  destruct (Z.ltb_spec (s_count sm + -1) 0) as [Hneg|Hpos].
  - destruct (Z.eqb_spec timeout TIMEOUT_NOW); cbn [add_count s_count s_queue s_valid]; (split; [done|]).
    + rewrite (s32_of_small (s_count sm + -1)), s32_of_small by lia; repeat split; lia || done.
    + rewrite length_app; cbn [length]; split; [done|split; [lia|]].
      destruct (s_queue sm) as [|t q] eqn:Eq; [cbn in *; lia|apply H1; done].
  - cbn [add_grant add_count s_count s_queue s_valid]; split; [done|].
    destruct (s_queue sm) as [|t q] eqn:Eq; [cbn in *; rewrite ?s32_of_small by lia; split; [done|split; [done|split; lia]]|].
    specialize (H1 ltac:(done)); cbn in *; lia.
Qed.

Lemma up_section_spec sm : settled sm ->
  exists sm' w, up_section sm = Some (sm', w) /\ s_valid sm' = true /\
  match w with
  | None => s_queue sm = [] /\ s_queue sm' = [] /\ value sm' = value sm + 1
  | Some t => s_queue sm = t :: s_queue sm' /\ value sm' = value sm /\ value sm = 0
  end.
Proof.
  intros [Hv [H0 H1] Hr]; unfold up_section, value in *; cbn [add_up add_count s_count s_queue s_valid].
  rewrite s32_of_small, Hv by lia; cbn [negb].
  destruct (s_queue sm) as [|t q] eqn:Eq; cbn [length] in *.
  - destruct (s_count sm + 1 <=? 0) eqn:E; bools; [lia|].
    do 2 eexists; split; [reflexivity|]; cbn [add_up add_count s_count s_queue s_valid]; rewrite s32_of_small, Eq by lia; repeat split; cbn; lia || done.
  - specialize (H1 ltac:(done)); rewrite (proj2 (Z.leb_le _ _)) by lia.
    do 2 eexists; split; [reflexivity|]; cbn; repeat split; lia.
Qed.

Lemma filter_others i (q : list nat) : i ∉ q -> filter (fun u => u <> i) q = q.
Proof.
  induction q as [|u q IH]; intros H; [done|]; rewrite not_elem_of_cons in H; destruct H as [H1 H2].
  now rewrite filter_cons_True, IH by auto.
Qed.

Lemma expire_section_spec i sm : settled sm -> NoDup (s_queue sm) -> i ∈ s_queue sm ->
  s_valid (expire_section i sm) = true /\ s_queue (expire_section i sm) = filter (fun u => u <> i) (s_queue sm) /\
  value (expire_section i sm) = value sm.
Proof.
  intros [Hv [H0 H1] Hr] Hnd Hi; unfold expire_section, value; cbn [add_count unlink s_count s_queue s_valid].
  rewrite Hv, s32_of_small by lia; split; [done|split; [done|]].
  apply list_elem_of_split in Hi as (q1 & q2 & E); rewrite E in Hnd |- *.
  apply NoDup_app in Hnd as (Hn1 & Hn2 & Hn3); apply NoDup_cons in Hn3 as [Hn3 _].
  assert (i ∉ q1) by (intros H; apply (Hn2 _ H), elem_of_cons; now left).
  rewrite filter_app, filter_cons_False, !filter_others, !length_app by auto; cbn [length]; lia.
Qed.

(** ** Mailboxes *)

Inductive sem_id := Prod | Cons | Head | Tail.

#[export] Instance sem_id_eq_dec : EqDecision sem_id.
Proof. solve_decision. Defined.

Section mailbox.
Context {M : Type}.

(** [head] and [tail] are the indices of [*head] and [*tail] in [data], [wrap] is
    its length.
    [src/core/include/mbox.h:18-28 struct mailbox] *)
Record mailbox := Mbox {
  prod_sem : sem; cons_sem : sem; head_sem : sem; tail_sem : sem;
  head : nat; tail : nat;
  data : list M
}.

(** [src/core/thread/semaphore.c:4-10 sem_init] *)
Definition new_sem (count : Z) : sem := Sem count [] true 0 0.

(** [junk] is what the memory held before.
    [src/core/thread/mbox.c:11-23 mbox_init] *)
Definition mbox_init (junk : list M) : mailbox :=
  Mbox (new_sem (s32 (Z.of_nat (length junk)))) (new_sem 0) (new_sem 1) (new_sem 1) 0 0 junk.

(** [src/core/include/mbox.h:55-58 mbox_is_valid] *)
Definition mbox_is_valid (mb : mailbox) : bool := s_valid (prod_sem mb).

(** [src/core/thread/mbox.c:35-36 mbox_post] *)
Definition next_slot (mb : mailbox) (i : nat) : nat :=
  if decide (i + 1 = length (data mb))%nat then 0%nat else (i + 1)%nat.

(** [src/core/thread/mbox.c:33-36 mbox_post] *)
Definition put_slot (msg : M) (mb : mailbox) : mailbox :=
  Mbox (prod_sem mb) (cons_sem mb) (head_sem mb) (tail_sem mb)
    (next_slot mb (head mb)) (tail mb) (<[head mb := msg]> (data mb)).

(** [src/core/thread/mbox.c:54-58 mbox_fetch] *)
Definition take_slot (mb : mailbox) : mailbox :=
  Mbox (prod_sem mb) (cons_sem mb) (head_sem mb) (tail_sem mb)
    (head mb) (next_slot mb (tail mb)) (data mb).

Definition get_sem (k : sem_id) (mb : mailbox) : sem :=
  match k with Prod => prod_sem mb | Cons => cons_sem mb | Head => head_sem mb | Tail => tail_sem mb end.

Definition set_sem (k : sem_id) (sm : sem) (mb : mailbox) : mailbox :=
  match k with
  | Prod => Mbox sm (cons_sem mb) (head_sem mb) (tail_sem mb) (head mb) (tail mb) (data mb)
  | Cons => Mbox (prod_sem mb) sm (head_sem mb) (tail_sem mb) (head mb) (tail mb) (data mb)
  | Head => Mbox (prod_sem mb) (cons_sem mb) sm (tail_sem mb) (head mb) (tail mb) (data mb)
  | Tail => Mbox (prod_sem mb) (cons_sem mb) (head_sem mb) sm (head mb) (tail mb) (data mb)
  end.

(** The four calls of sem_down. *)
Inductive site :=
  | PostProd (msg : M) (timeout : Z)     (** mbox_post: sem_down(&mbox->prod_sem, timeout) *)
  | PostHead (msg : M)                   (** sem_down(&mbox->head_sem, 0) *)
  | FetchCons (timeout : Z)              (** mbox_fetch: sem_down(&mbox->cons_sem, timeout) *)
  | FetchTail.                           (** sem_down(&mbox->tail_sem, 0) *)

(** Where a thread is. *)
Inductive pc :=
  | Outside                              (** not in these functions *)
  | PostValid (msg : M) (timeout : Z)    (** mbox_post: the test of the mailbox *)
  | Calls (d : site)                     (** about to call sem_down *)
  | Sleeps (d : site)                    (** asleep in sem_down *)
  | Woken (d : site)                     (** woken by sem_up, and not yet running *)
  | PostWrite (msg : M)                  (** the lines on [*head] *)
  | PostUpHead                           (** sem_up(&mbox->head_sem) *)
  | PostUpCons                           (** sem_up(&mbox->cons_sem) *)
  | FetchRead                            (** the lines on [*tail] *)
  | FetchUpTail (msg : M)                (** sem_up(&mbox->tail_sem) *)
  | FetchUpProd (msg : M).               (** sem_up(&mbox->prod_sem) *)

Inductive result := Posted | Full | Fetched (msg : M) | Empty.

Definition sem_of (d : site) : sem_id :=
  match d with PostProd _ _ => Prod | PostHead _ => Head | FetchCons _ => Cons | FetchTail => Tail end.

Definition timeout_of (d : site) : Z :=
  match d with PostProd _ t | FetchCons t => t | PostHead _ | FetchTail => 0 end.

(** Where sem_down returns to.
    [src/core/thread/mbox.c:29-33 mbox_post] *)
Definition after (d : site) : pc :=
  match d with
  | PostProd msg _ => Calls (PostHead msg)
  | PostHead msg => PostWrite msg
  | FetchCons _ => Calls FetchTail
  | FetchTail => FetchRead
  end.

(** And when it returns -1: the value of the calls on the mutexes is not looked at.
    [src/core/thread/mbox.c:49-52 mbox_fetch] *)
Definition refused (d : site) : pc * option result :=
  match d with
  | PostProd _ _ => (Outside, Some Full)
  | FetchCons _ => (Outside, Some Empty)
  | PostHead _ | FetchTail => (after d, None)
  end.

(** A call of sem_down.  One that slept returns the time it took, which the caller cannot
    tell from a timeout if it is 2^32 - 1 milliseconds; such waits are left out.
    [src/core/thread/mbox.c:29-31 mbox_post] *)
Definition call_down (i : nat) (d : site) (mb : mailbox) : pc * mailbox * option nat * option result :=
  let '(sm, v) := down_section i (timeout_of d) (get_sem (sem_of d) mb) in
  let '(p, res) := match v with Passed => (after d, None) | Refused => refused d | Queued => (Sleeps d, None) end in
  (p, set_sem (sem_of d) sm mb, None, res).

(** A call of sem_up; the third value is the thread it wakes.
    [src/core/thread/mbox.c:38-40 mbox_post] *)
Definition call_up (k : sem_id) (next : pc) (res : option result) (mb : mailbox)
  : option (pc * mailbox * option nat * option result) :=
  let* (sm, woken) := up_section (get_sem k mb) in Some (next, set_sem k sm mb, woken, res).

(** One step of the thread [i], with the value it returns when it leaves.
    [src/core/thread/mbox.c:25-41 mbox_post] *)
Definition post_step (i : nat) (p : pc) (mb : mailbox) : option (pc * mailbox * option nat * option result) :=
  match p with
  | PostValid msg timeout =>
      if mbox_is_valid mb then Some (Calls (PostProd msg timeout), mb, None, None) else Some (Outside, mb, None, Some Full)
  | Calls ((PostProd _ _ | PostHead _) as d) => Some (call_down i d mb)
  | PostWrite msg => Some (PostUpHead, put_slot msg mb, None, None)
  | PostUpHead => call_up Head PostUpCons None mb
  | PostUpCons => call_up Cons Outside (Some Posted) mb
  | _ => None
  end.

(** [src/core/thread/mbox.c:43-63 mbox_fetch] *)
Definition fetch_step (i : nat) (p : pc) (mb : mailbox) : option (pc * mailbox * option nat * option result) :=
  match p with
  | Calls ((FetchCons _ | FetchTail) as d) => Some (call_down i d mb)
  | FetchRead => let* msg := data mb !! tail mb in Some (FetchUpTail msg, take_slot mb, None, None)
  | FetchUpTail msg => call_up Tail (FetchUpProd msg) None mb
  | FetchUpProd msg => call_up Prod Outside (Some (Fetched msg)) mb
  | _ => None
  end.

(** ** Threads and their steps *)

(** The mailbox, the threads, and two history variables: the messages in the
    order they were written, and in the order they were read. *)
Record system := Sys { box : mailbox; threads : list pc; written : list M; read : list M }.

Definition wrote (p : pc) : list M := match p with PostWrite msg => [msg] | _ => [] end.
Definition took (p : pc) : list M := match p with FetchUpTail msg => [msg] | _ => [] end.

Definition wake_up (p : pc) : pc := match p with Sleeps d => Woken d | p => p end.
Definition wake (t : option nat) (ts : list pc) : list pc :=
  match t with Some t => alter wake_up t ts | None => ts end.

(** A thread calls one of the functions; it makes a step; it goes on after it was woken; it
    times out, which a call with a timeout of 0 never does.  (When the clock says so is left open.) *)
Inductive step : system -> system -> Prop :=
  | step_call b ts w r i p :
      ts !! i = Some Outside -> (exists timeout, p = Calls (FetchCons timeout) \/ exists msg, p = PostValid msg timeout) ->
      step (Sys b ts w r) (Sys b (<[i := p]> ts) w r)
  | step_post b ts w r i p p' b' t res :
      ts !! i = Some p -> post_step i p b = Some (p', b', t, res) ->
      step (Sys b ts w r) (Sys b' (wake t (<[i := p']> ts)) (w ++ wrote p) r)
  | step_fetch b ts w r i p p' b' t res :
      ts !! i = Some p -> fetch_step i p b = Some (p', b', t, res) ->
      step (Sys b ts w r) (Sys b' (wake t (<[i := p']> ts)) w (r ++ took p'))
  | step_resume b ts w r i d :
      ts !! i = Some (Woken d) ->
      step (Sys b ts w r) (Sys (set_sem (sem_of d) (add_grant (get_sem (sem_of d) b)) b) (<[i := after d]> ts) w r)
  | step_timeout b ts w r i d :
      ts !! i = Some (Sleeps d) -> timeout_of d <> 0 ->
      step (Sys b ts w r) (Sys (set_sem (sem_of d) (expire_section i (get_sem (sem_of d) b)) b) (<[i := (refused d).1]> ts) w r).

(** A system that has just been set up: [junk] has the size of the mailbox. *)
Definition start (junk : list M) (n : nat) : system :=
  Sys (mbox_init junk) (replicate n Outside) [] [].

Definition reachable (junk : list M) (n : nat) : system -> Prop := rtc step (start junk n).

(** ** Counting the threads in each part *)

Fixpoint total (f : pc -> Z) (l : list pc) : Z :=
  match l with [] => 0 | p :: l => f p + total f l end.

Lemma total_set f : forall l i p p',
  l !! i = Some p -> total f (<[i := p']> l) = total f l - f p + f p'.
Proof.
  induction l as [|x l IH]; intros [|i] p p' H; try discriminate.
  - injection H as ->; cbn; lia.
  - change (<[S i := p']> (x :: l)) with (x :: <[i := p']> l); cbn [total].
    rewrite (IH i p p' H); lia.
Qed.

Lemma total_nonneg f l : (forall p, 0 <= f p) -> 0 <= total f l.
Proof. intros H; induction l as [|p l IH]; cbn; [lia|specialize (H p); lia]. Qed.

Lemma total_ge f l i p : (forall p, 0 <= f p) -> l !! i = Some p -> f p <= total f l.
Proof.
  intros H; revert i; induction l as [|x l IH]; intros [|i] Hi; try discriminate; cbn in *.
  - injection Hi as ->; pose proof (total_nonneg f l H); lia.
  - specialize (IH i Hi); specialize (H x); lia.
Qed.

Lemma total_replicate f n p : f p = 0 -> total f (replicate n p) = 0.
Proof. intros H; induction n; cbn; lia. Qed.

Lemma total_zero f l : (forall p, p ∈ l -> f p = 0) -> total f l = 0.
Proof.
  induction l as [|p l IH]; intros H; cbn; [done|].
  rewrite (H p) by set_solver; rewrite IH; [done|intros; apply H; set_solver].
Qed.

(** What a thread holds of a semaphore: a slot it has not written in, or has read and not
    given back; a message it has written and not told of, or that it is promised; the mutex
    of the head, and of the tail. *)
Definition holds (k : sem_id) (p : pc) : Z :=
  match k, p with
  | Prod, (Woken (PostProd _ _) | Calls (PostHead _) | Sleeps (PostHead _) | Woken (PostHead _) | PostWrite _ | FetchUpTail _ | FetchUpProd _) => 1
  | Cons, (PostUpHead | PostUpCons | Woken (FetchCons _) | Calls FetchTail | Sleeps FetchTail | Woken FetchTail | FetchRead) => 1
  | Head, (Woken (PostHead _) | PostWrite _ | PostUpHead) => 1
  | Tail, (Woken FetchTail | FetchRead | FetchUpTail _) => 1
  | _, _ => 0
  end.

Lemma holds_nonneg k p : 0 <= holds k p.
Proof. destruct k, p as [| | []|[]|[]| | | | | |]; cbn; lia. Qed.

(** What there is of a semaphore when no thread holds anything. *)
Definition stock (size : nat) (k : sem_id) (w r : list M) : Z :=
  match k with
  | Prod => Z.of_nat size - (Z.of_nat (length w) - Z.of_nat (length r))
  | Cons => Z.of_nat (length w) - Z.of_nat (length r)
  | Head | Tail => 1
  end.

Definition asleep_on (k : sem_id) (p : pc) : Prop := match p with Sleeps d => sem_of d = k | _ => False end.

#[local] Instance asleep_on_dec k p : Decision (asleep_on k p).
Proof. destruct p; cbn; solve_decision. Defined.

(** ** The invariant *)

(** A semaphore: its queue is the threads that sleep on it. *)
Record sem_inv (n : Z) (k : sem_id) (sm : sem) (ts : list pc) : Prop := {
  si_valid : s_valid sm = true;
  si_value : value sm = n - total (holds k) ts;
  si_waits : 0 <= value sm /\ (s_queue sm <> [] -> value sm = 0);
  si_nodup : NoDup (s_queue sm);
  si_queue i : i ∈ s_queue sm <-> exists p, ts !! i = Some p /\ asleep_on k p
}.

Record inv (size : nat) (s : system) : Prop := {
  inv_size : length (data (box s)) = size;
  inv_few : Z.of_nat size < 2147483647 /\ Z.of_nat (length (threads s)) < 2147483647;
  inv_sems k : sem_inv (stock size k (written s) (read s)) k (get_sem k (box s)) (threads s);
  inv_head : head (box s) = (length (written s) mod size)%nat;
  inv_tail : tail (box s) = (length (read s) mod size)%nat;
  inv_data k : (length (read s) <= k < length (written s))%nat ->
    data (box s) !! (k mod size)%nat = written s !! k;
  inv_read : read s = take (length (read s)) (written s)
}.

Lemma get_set k k' sm mb : get_sem k (set_sem k' sm mb) = if decide (k = k') then sm else get_sem k mb.
Proof. destruct k, k'; reflexivity. Qed.

Lemma set_sem_fields k sm mb : data (set_sem k sm mb) = data mb /\ head (set_sem k sm mb) = head mb /\ tail (set_sem k sm mb) = tail mb.
Proof. destruct k; done. Qed.

(** The queue is no longer than there are threads. *)
Lemma queue_short n k sm ts : sem_inv n k sm ts -> Z.of_nat (length (s_queue sm)) <= Z.of_nat (length ts).
Proof.
  intros I; pose proof (submseteq_length (s_queue sm) (seq 0 (length ts))) as H; rewrite length_seq in H.
  apply inj_le, H, NoDup_submseteq; [exact (si_nodup _ _ _ _ I)|]; intros i (p & Hp & _)%(si_queue _ _ _ _ I).
  apply elem_of_seq; apply lookup_lt_Some in Hp; lia.
Qed.

(** What is in stock is no more than the slots, once it is known that no semaphore is below zero. *)
Lemma stock_most size s k : (0 < size)%nat -> inv size s -> value (get_sem k (box s)) <= Z.of_nat size.
Proof.
  intros Hs I; pose proof (fun k => total_nonneg (holds k) (threads s) (holds_nonneg k)) as Hn.
  pose proof (fun k => si_value _ _ _ _ (inv_sems _ _ I k)) as Hv; pose proof (fun k => proj1 (si_waits _ _ _ _ (inv_sems _ _ I k))) as Hw.
  rewrite Hv; pose proof (Hn k); destruct k; cbn [stock]; try lia.
  - pose proof (Hv Cons); pose proof (Hw Cons); pose proof (Hn Cons); cbn [stock] in *; lia.
  - pose proof (Hv Prod); pose proof (Hw Prod); pose proof (Hn Prod); cbn [stock] in *; lia.
Qed.

Lemma inv_settled size s k : (0 < size)%nat -> inv size s -> settled (get_sem k (box s)).
Proof.
  intros Hs I; pose proof (inv_sems _ _ I k) as Hk; pose proof (queue_short _ _ _ _ Hk); pose proof (inv_few _ _ I).
  pose proof (stock_most size s k Hs I); destruct Hk as [Hv _ [Hge Hz] _ _]; split; [done|done|unfold value in *; lia].
Qed.

(** ** A semaphore under the steps *)

Section moves.
Context (n : Z) (k : sem_id) (sm : sem) (ts : list pc).
Hypothesis I : sem_inv n k sm ts.

(** A thread that neither slept nor sleeps on the semaphore moves. *)
Lemma sem_move n' sm' i p p' :
  ts !! i = Some p -> ~ asleep_on k p -> ~ asleep_on k p' ->
  s_valid sm' = true -> s_queue sm' = s_queue sm -> value sm' = n' - total (holds k) ts + holds k p - holds k p' ->
  0 <= value sm' /\ (s_queue sm <> [] -> value sm' = 0) ->
  sem_inv n' k sm' (<[i := p']> ts).
Proof.
  intros Hi Hp Hp' Hv Hq Hval Hw; destruct I as [_ _ _ H4 H5]; split; rewrite ?Hq; auto.
  - rewrite (total_set _ _ _ _ _ Hi); lia.
  - intros j; rewrite H5; destruct (decide (j = i)) as [->|Hne].
    + rewrite Hi, list_lookup_insert_eq by (apply lookup_lt_Some in Hi; lia).
      split; intros (q & [= <-] & H); done.
    + now rewrite list_lookup_insert_ne by auto.
Qed.

(** A thread goes to sleep on it. *)
Lemma sem_join sm' i p p' :
  ts !! i = Some p -> ~ asleep_on k p -> asleep_on k p' -> holds k p' = holds k p ->
  s_valid sm' = true -> s_queue sm' = s_queue sm ++ [i] -> value sm' = value sm -> value sm = 0 ->
  sem_inv n k sm' (<[i := p']> ts).
Proof.
  intros Hi Hp Hp' Hh Hv Hq Hval H0; destruct I as [_ H2 _ H4 H5].
  assert (Hni : i ∉ s_queue sm) by (rewrite H5, Hi; intros (q & [= <-] & H); done).
  split; rewrite ?Hq; [done|rewrite (total_set _ _ _ _ _ Hi); lia|lia| |].
  - apply NoDup_app; split; [done|split; [|apply NoDup_singleton]].
    intros j Hj ->%list_elem_of_singleton; done.
  - intros j; rewrite elem_of_app, list_elem_of_singleton, H5; destruct (decide (j = i)) as [->|Hne].
    + rewrite list_lookup_insert_eq by (apply lookup_lt_Some in Hi; lia); split; eauto.
    + rewrite list_lookup_insert_ne by auto; intuition.
Qed.

(** The sleeper that times out leaves. *)
Lemma sem_leave sm' i p p' :
  ts !! i = Some p -> asleep_on k p -> ~ asleep_on k p' -> holds k p' = holds k p ->
  s_valid sm' = true -> s_queue sm' = filter (fun u => u <> i) (s_queue sm) -> value sm' = value sm ->
  sem_inv n k sm' (<[i := p']> ts).
Proof.
  intros Hi Hp Hp' Hh Hv Hq Hval; destruct I as [_ H2 [H3 H3'] H4 H5]; split; rewrite ?Hq; [done|rewrite (total_set _ _ _ _ _ Hi); lia| | |].
  - rewrite Hval; split; [done|]; intros Hne; apply H3'; intros E; rewrite E in Hne; done.
  - now apply NoDup_filter.
  - intros j; rewrite list_elem_of_filter, H5; destruct (decide (j = i)) as [->|Hne].
    + rewrite list_lookup_insert_eq by (apply lookup_lt_Some in Hi; lia); split; [intros [? _]; done|intros (q & [= <-] & H); done].
    + rewrite list_lookup_insert_ne by auto; intuition.
Qed.

Lemma wake_insert t p : ts !! t = Some p -> alter wake_up t ts = <[t := wake_up p]> ts.
Proof. intros Ht; apply list_eq; intros j; destruct (decide (j = t)) as [->|Hne].
  - rewrite list_lookup_alter_eq, Ht, list_lookup_insert_eq by (apply lookup_lt_Some in Ht; lia); done.
  - now rewrite list_lookup_alter_ne, list_lookup_insert_ne by auto.
Qed.

(** The first that sleeps is woken: the unit is now its own. *)
Lemma sem_wake sm' t :
  s_valid sm' = true -> s_queue sm = t :: s_queue sm' -> value sm' = value sm -> value sm = 0 ->
  sem_inv (n + 1) k sm' (alter wake_up t ts).
Proof.
  intros Hv Hq Hval H0; destruct I as [_ H2 _ H4 H5]; rewrite Hq in H4; apply NoDup_cons in H4 as [Hnt H4].
  destruct (proj1 (H5 t)) as (p & Ht & Hp); [rewrite Hq; apply elem_of_cons; now left|].
  rewrite (wake_insert t p Ht); destruct p as [| | |d| | | | | | |]; try done; cbn [wake_up asleep_on] in *.
  assert (Hh : holds k (Woken d) = holds k (Sleeps d) + 1) by (subst k; destruct d; reflexivity).
  split; [done|rewrite (total_set _ _ _ _ _ Ht); lia|lia|done|].
  intros j; destruct (decide (j = t)) as [->|Hne].
  - rewrite list_lookup_insert_eq by (apply lookup_lt_Some in Ht; lia); split; [done|intros (q & [= <-] & H); done].
  - rewrite list_lookup_insert_ne by auto; rewrite <- H5, Hq, elem_of_cons; intuition.
Qed.

(** One that sleeps on another semaphore is woken. *)
Lemma sem_wake_other k' t p :
  ts !! t = Some p -> asleep_on k' p -> k' <> k -> sem_inv n k sm (alter wake_up t ts).
Proof.
  intros Ht Hp Hk; rewrite (wake_insert t p Ht); destruct p as [| | |d| | | | | | |]; try done; cbn [wake_up asleep_on] in *.
  pose proof (si_value _ _ _ _ I); pose proof (si_waits _ _ _ _ I).
  assert (Hh : holds k (Woken d) = holds k (Sleeps d)) by (destruct k, d; cbn in *; congruence).
  apply sem_move with (p := Sleeps d); cbn; try apply I; try done; try congruence; lia.
Qed.
End moves.

(** A step that changes no semaphore. *)
Lemma moved size b ts w r i p p' w' r' k :
  inv size (Sys b ts w r) -> ts !! i = Some p ->
  ~ asleep_on k p -> ~ asleep_on k p' -> stock size k w' r' - holds k p' = stock size k w r - holds k p ->
  sem_inv (stock size k w' r') k (get_sem k b) (<[i := p']> ts).
Proof.
  intros I Hi Hp Hp' Hs; pose proof (inv_sems _ _ I k) as Hk; cbn [box threads written read] in Hk.
  pose proof (si_value _ _ _ _ Hk).
  apply (sem_move _ _ _ _ Hk _ _ _ _ _ Hi); try apply Hk; auto; lia.
Qed.

Lemma length_wake t ts : length (wake t ts) = length ts.
Proof. destruct t; [apply length_alter|done]. Qed.

Lemma next_mod size n : (0 < size)%nat ->
  (if decide (n mod size + 1 = size) then 0 else n mod size + 1)%nat = ((n + 1) mod size)%nat.
Proof.
  intros H; pose proof (Nat.mod_upper_bound n size ltac:(lia)).
  rewrite Nat.Div0.add_mod; destruct (decide (size = 1%nat)) as [->|].
  - rewrite !Nat.mod_1_r; now rewrite decide_True.
  - rewrite (Nat.mod_small 1) by lia; destruct (decide _) as [E|E].
    + now rewrite E, Nat.Div0.mod_same.
    + now rewrite (Nat.mod_small (n mod size + 1)) by lia.
Qed.

(** Within one lap of the ring, different messages have different slots. *)
Lemma mod_lap size k n : (0 < size)%nat -> (k < n)%nat -> (n < k + size)%nat ->
  (k mod size <> n mod size)%nat.
Proof.
  intros H H1 H2 E.
  pose proof (Nat.div_mod_eq k size); pose proof (Nat.div_mod_eq n size); rewrite E in *.
  assert (size * (n / size - k / size) = n - k)%nat by nia.
  destruct (n / size - k / size)%nat; nia.
Qed.

Lemma down_inv size b ts w r i d p' b' t res : (0 < size)%nat ->
  inv size (Sys b ts w r) -> ts !! i = Some (Calls d) -> call_down i d b = (p', b', t, res) ->
  inv size (Sys b' (wake t (<[i := p']> ts)) w r) /\ took p' = [].
Proof.
  intros Hs I Hi; unfold call_down; pose proof (down_section_spec i (timeout_of d) _ (inv_settled _ _ (sem_of d) Hs I)) as Hd.
  cbn [box] in Hd; destruct (down_section _ _ _) as [sm v]; destruct Hd as [Hv Hd].
  set (next := match v with Passed => (after d, None) | Refused => refused d | Queued => (Sleeps d, None) end).
  destruct next as [p1 res1] eqn:En; intros [= <- <- <- <-]; cbn [wake].
  assert (Hother : forall k, k <> sem_of d -> ~ asleep_on k p1 /\ holds k p1 = holds k (Calls d)).
  { intros k Hk; unfold next in En; destruct v, d; injection En as <- <-; cbn in *; destruct k; try done; try (split; [congruence|done]);
      destruct Hd as [E _]; discriminate E. }
  assert (Ht : took p1 = []) by (unfold next in En; destruct v, d; injection En as <- <-; done).
  split; [|exact Ht]; pose proof (set_sem_fields (sem_of d) sm b) as (F1 & F2 & F3).
  pose proof I as [I1 I2 I3 I4 I5 I6 I7]; split; cbn [box threads written read] in *; rewrite ?F1, ?F2, ?F3, ?length_insert; auto.
  intros k; rewrite get_set; destruct (decide (k = sem_of d)) as [->|Hk].
  - pose proof (I3 (sem_of d)) as Hk; pose proof (si_value _ _ _ _ Hk) as Hval; unfold next in En; destruct v.
    + destruct Hd as (Hq & Hq' & Hval' & Hge); injection En as <- <-.
      apply (sem_move _ _ _ _ Hk _ _ _ _ _ Hi); [easy|destruct d; easy|done|congruence|rewrite Hval', Hval; destruct d; cbn; lia|].
      split; [done|congruence].
    + destruct Hd as (Hto & Hq & Hval'); pose proof (si_waits _ _ _ _ Hk).
      destruct d; try discriminate Hto; injection En as <- <-;
        (apply (sem_move _ _ _ _ Hk _ _ _ _ _ Hi); [easy|easy|done|done|rewrite Hval', Hval; cbn; lia|rewrite Hval'; done]).
    + destruct Hd as (Hq & Hval' & H0); injection En as <- <-.
      apply (sem_join _ _ _ _ Hk _ _ _ _ Hi); auto; destruct d; done.
  - destruct (Hother k Hk) as [Ha Hh]; apply (moved _ _ _ _ _ _ _ _ _ _ _ I Hi); [easy|done|lia].
Qed.

Lemma up_inv size b ts w r i k p p' res p1 b' t res1 : (0 < size)%nat ->
  inv size (Sys b ts w r) -> ts !! i = Some p -> (forall k', ~ asleep_on k' p) -> (forall k', ~ asleep_on k' p') ->
  (forall k', holds k' p' = holds k' p - (if decide (k' = k) then 1 else 0)) ->
  call_up k p' res b = Some (p1, b', t, res1) ->
  p1 = p' /\ inv size (Sys b' (wake t (<[i := p']> ts)) w r).
Proof.
  intros Hs I Hi Hp Hp' Hh; unfold call_up; destruct (up_section_spec _ (inv_settled _ _ k Hs I)) as (sm & wk & E & Hv & Hw).
  cbn [box] in E, Hw; rewrite E; intros [= <- <- <- <-]; split; [done|].
  pose proof (set_sem_fields k sm b) as (F1 & F2 & F3).
  pose proof I as [I1 I2 I3 I4 I5 I6 I7]; split; cbn [box threads written read] in *; rewrite ?F1, ?F2, ?F3, ?length_wake, ?length_insert; auto.
  pose proof (si_value _ _ _ _ (I3 k)) as Hval; pose proof (Hh k) as Hhk; rewrite decide_True in Hhk by done.
  intros k'; rewrite get_set; pose proof (Hh k') as Hh'; destruct (decide (k' = k)) as [->|Hk].
  - destruct wk as [t|]; cbn [wake].
    + destruct Hw as (Hq & Hval' & H0); replace (stock size k w r) with (stock size k w r - 1 + 1) by lia.
      apply (sem_wake _ _ (get_sem k b)); [|done|exact Hq|done|done].
      apply (sem_move _ _ _ _ (I3 k) _ _ _ _ _ Hi); try apply (I3 k); auto; lia.
    + destruct Hw as (Hq & Hq' & Hval'); pose proof (si_waits _ _ _ _ (I3 k)).
      apply (sem_move _ _ _ _ (I3 k) _ _ _ _ _ Hi); auto; try congruence; try lia; split; [lia|congruence].
  - pose proof (moved _ _ _ _ _ _ _ p' w r k' I Hi (Hp k') (Hp' k') ltac:(lia)) as Hm; destruct wk as [t|]; cbn [wake]; [|exact Hm].
    destruct Hw as (Hq & _); destruct (proj1 (si_queue _ _ _ _ (I3 k) t)) as (q & Ht & Hqk); [rewrite Hq; apply elem_of_cons; now left|].
    apply (sem_wake_other _ _ _ _ Hm k t q); [|done|auto].
    rewrite list_lookup_insert_ne; [done|]; intros ->; rewrite Hi in Ht; injection Ht as <-; exact (Hp _ Hqk).
Qed.

Ltac fields := cbn [box threads written read put_slot take_slot prod_sem cons_sem head_sem tail_sem head tail data] in *.

Lemma step_call_inv size b ts w r i p :
  inv size (Sys b ts w r) -> ts !! i = Some Outside -> (exists timeout, p = Calls (FetchCons timeout) \/ exists msg, p = PostValid msg timeout) ->
  inv size (Sys b (<[i := p]> ts) w r).
Proof.
  intros I Hi Hp; pose proof I as [I1 I2 I3 I4 I5 I6 I7]; split; fields; rewrite ?length_insert; auto.
  intros k; apply (moved _ _ _ _ _ _ _ p w r k I Hi); [easy| |]; destruct Hp as (to & [-> |[msg ->]]); destruct k; cbn; lia || easy.
Qed.

Lemma step_timeout_inv size b ts w r i d : (0 < size)%nat ->
  inv size (Sys b ts w r) -> ts !! i = Some (Sleeps d) -> timeout_of d <> 0 ->
  inv size (Sys (set_sem (sem_of d) (expire_section i (get_sem (sem_of d) b)) b) (<[i := (refused d).1]> ts) w r).
Proof.
  intros Hs I Hi Hto; pose proof I as [I1 I2 I3 I4 I5 I6 I7].
  pose proof (set_sem_fields (sem_of d) (expire_section i (get_sem (sem_of d) b)) b) as (F1 & F2 & F3).
  split; fields; rewrite ?F1, ?F2, ?F3, ?length_insert; auto.
  assert (Hin : i ∈ s_queue (get_sem (sem_of d) b)) by (apply (si_queue _ _ _ _ (I3 (sem_of d))); exists (Sleeps d); split; [exact Hi|reflexivity]).
  destruct (expire_section_spec i _ (inv_settled _ _ (sem_of d) Hs I) (si_nodup _ _ _ _ (I3 (sem_of d))) Hin) as (E1 & E2 & E3); fields.
  intros k; rewrite get_set; destruct (decide (k = sem_of d)) as [->|Hk].
  - apply (sem_leave _ _ _ _ (I3 (sem_of d)) _ _ _ _ Hi); auto; destruct d; easy.
  - apply (moved _ _ _ _ _ _ _ _ w r k I Hi); [cbn; congruence| |]; destruct d, k; try easy; congruence.
Qed.

Lemma step_resume_inv size b ts w r i d : (0 < size)%nat ->
  inv size (Sys b ts w r) -> ts !! i = Some (Woken d) ->
  inv size (Sys (set_sem (sem_of d) (add_grant (get_sem (sem_of d) b)) b) (<[i := after d]> ts) w r).
Proof.
  intros Hs I Hi; pose proof I as [I1 I2 I3 I4 I5 I6 I7].
  pose proof (set_sem_fields (sem_of d) (add_grant (get_sem (sem_of d) b)) b) as (F1 & F2 & F3).
  split; fields; rewrite ?F1, ?F2, ?F3, ?length_insert; auto.
  intros k; pose proof (moved _ _ _ _ _ _ _ (after d) w r k I Hi ltac:(easy) ltac:(destruct d; easy) ltac:(destruct d, k; reflexivity)) as Hm.
  rewrite get_set; destruct (decide (k = sem_of d)) as [->|Hk]; [|exact Hm]; destruct Hm; split; done.
Qed.

(** Messages in transit: no more than the slots, and those read are the first. *)
Lemma inv_lengths size s : (0 < size)%nat -> inv size s ->
  (length (read s) <= length (written s) <= length (read s) + size)%nat.
Proof.
  intros Hs I; pose proof (fun k => total_nonneg (holds k) (threads s) (holds_nonneg k)) as Hn.
  pose proof (fun k => si_value _ _ _ _ (inv_sems _ _ I k)) as Hv; pose proof (fun k => proj1 (si_waits _ _ _ _ (inv_sems _ _ I k))) as Hw.
  pose proof (Hv Prod); pose proof (Hw Prod); pose proof (Hn Prod); pose proof (Hv Cons); pose proof (Hw Cons); pose proof (Hn Cons); cbn [stock] in *; lia.
Qed.

Lemma write_inv size b ts w r i msg : (0 < size)%nat ->
  inv size (Sys b ts w r) -> ts !! i = Some (PostWrite msg) ->
  inv size (Sys (put_slot msg b) (<[i := PostUpHead]> ts) (w ++ [msg]) r).
Proof.
  intros Hs I Hi; pose proof (inv_lengths _ _ Hs I) as Hlen; pose proof I as [I1 I2 I3 I4 I5 I6 I7]; fields.
  assert (Hroom : (length w < length r + size)%nat).
  { pose proof (I3 Prod) as Hk; pose proof (si_value _ _ _ _ Hk); pose proof (proj1 (si_waits _ _ _ _ Hk)).
    pose proof (total_ge (holds Prod) ts i _ (holds_nonneg Prod) Hi); cbn [stock holds] in *; lia. }
  split; fields; rewrite ?length_insert, ?length_app; cbn [length]; auto.
  - intros k; replace (get_sem k (put_slot msg b)) with (get_sem k b) by (destruct k; done).
    apply (moved _ _ _ _ _ _ _ PostUpHead _ _ k I Hi); [easy|easy|]; destruct k; cbn [stock holds]; rewrite ?length_app; cbn [length]; lia.
  - unfold next_slot; rewrite I4, I1; apply next_mod; lia.
  - intros k Hk; destruct (decide (k = length w)) as [->|Hne].
    + rewrite I4, list_lookup_insert_eq by (rewrite I1; apply Nat.mod_upper_bound; lia).
      now rewrite lookup_app_r, Nat.sub_diag by lia.
    + rewrite list_lookup_insert_ne, lookup_app_l by (rewrite ?I4; try apply not_eq_sym, mod_lap; lia).
      apply I6; lia.
  - rewrite take_app_le by lia; exact I7.
Qed.

Lemma read_inv size b ts w r i msg : (0 < size)%nat ->
  inv size (Sys b ts w r) -> ts !! i = Some FetchRead -> data b !! tail b = Some msg ->
  inv size (Sys (take_slot b) (<[i := FetchUpTail msg]> ts) w (r ++ [msg])).
Proof.
  intros Hs I Hi Hmsg; pose proof (inv_lengths _ _ Hs I) as Hlen; pose proof I as [I1 I2 I3 I4 I5 I6 I7]; fields.
  assert (Hsome : (length r < length w)%nat).
  { pose proof (I3 Cons) as Hk; pose proof (si_value _ _ _ _ Hk); pose proof (proj1 (si_waits _ _ _ _ Hk)).
    pose proof (total_ge (holds Cons) ts i _ (holds_nonneg Cons) Hi); cbn [stock holds] in *; lia. }
  rewrite I5, I6 in Hmsg by lia.
  split; fields; rewrite ?length_insert, ?length_app; cbn [length]; auto.
  - intros k; replace (get_sem k (take_slot b)) with (get_sem k b) by (destruct k; done).
    apply (moved _ _ _ _ _ _ _ (FetchUpTail msg) _ _ k I Hi); [easy|easy|]; destruct k; cbn [stock holds]; rewrite ?length_app; cbn [length]; lia.
  - unfold next_slot; rewrite I5, I1; apply next_mod; lia.
  - intros k Hk; apply I6; lia.
  - rewrite Nat.add_1_r, (take_S_r _ _ msg) by exact Hmsg; now rewrite <- I7.
Qed.

Lemma step_post_inv size b ts w r i p p' b' t res : (0 < size)%nat ->
  inv size (Sys b ts w r) -> ts !! i = Some p -> post_step i p b = Some (p', b', t, res) ->
  inv size (Sys b' (wake t (<[i := p']> ts)) (w ++ wrote p) r).
Proof.
  intros Hs I Hi Hp; destruct p as [|msg to|d| | |msg| | | | |]; try discriminate; cbn [post_step wrote] in *; rewrite ?app_nil_r.
  - pose proof I as [I1 I2 I3 I4 I5 I6 I7].
    destruct (mbox_is_valid b); injection Hp as <- <- <- <-; cbn [wake]; split; fields; rewrite ?length_insert; auto;
      intros k; apply (moved _ _ _ _ _ _ _ _ w r k I Hi); destruct k; easy.
  - destruct d; try discriminate; injection Hp as Hp; exact (proj1 (down_inv _ _ _ _ _ _ _ _ _ _ _ Hs I Hi Hp)).
  - injection Hp as <- <- <- <-; now apply write_inv.
  - eapply up_inv in Hp as [-> H]; [exact H|exact Hs|exact I|exact Hi|easy|easy|intros []; reflexivity].
  - eapply up_inv in Hp as [-> H]; [exact H|exact Hs|exact I|exact Hi|easy|easy|intros []; reflexivity].
Qed.

Lemma step_fetch_inv size b ts w r i p p' b' t res : (0 < size)%nat ->
  inv size (Sys b ts w r) -> ts !! i = Some p -> fetch_step i p b = Some (p', b', t, res) ->
  inv size (Sys b' (wake t (<[i := p']> ts)) w (r ++ took p')).
Proof.
  intros Hs I Hi Hp; destruct p as [|msg to|d| | |msg| | | |msg|msg]; try discriminate; cbn [fetch_step] in Hp.
  - destruct d; try discriminate; injection Hp as Hp; destruct (down_inv _ _ _ _ _ _ _ _ _ _ _ Hs I Hi Hp) as [H ->];
      now rewrite app_nil_r.
  - destruct (data b !! tail b) as [msg|] eqn:E; [|discriminate]; injection Hp as <- <- <- <-; now apply read_inv.
  - eapply up_inv in Hp as [-> H]; [cbn [took]; rewrite app_nil_r; exact H|exact Hs|exact I|exact Hi|easy|easy|intros []; reflexivity].
  - eapply up_inv in Hp as [-> H]; [cbn [took]; rewrite app_nil_r; exact H|exact Hs|exact I|exact Hi|easy|easy|intros []; reflexivity].
Qed.

Lemma mbox_start_inv junk n : Z.of_nat (length junk) < 2147483647 -> Z.of_nat n < 2147483647 -> inv (length junk) (start junk n).
Proof.
  intros Hj Hn; split; unfold start, mbox_init; fields; rewrite ?length_replicate; cbn [length]; auto; try lia.
  2, 3: destruct (length junk); [done|now rewrite Nat.mod_0_l by lia].
  intros k; rewrite s32_of_small by lia.
  assert (Hno : forall i p, replicate n Outside !! i = Some p -> ~ asleep_on k p) by (intros i p [-> _]%lookup_replicate; easy).
  assert (Hq : s_queue (get_sem k (Mbox (new_sem (Z.of_nat (length junk))) (new_sem 0) (new_sem 1) (new_sem 1) 0 0 junk)) = []) by (destruct k; done).
  split; rewrite ?Hq.
  - destruct k; done.
  - rewrite total_replicate by (destruct k; done); destruct k; unfold value; cbn [get_sem prod_sem cons_sem head_sem tail_sem new_sem s_count s_queue length stock]; lia.
  - split; [destruct k; unfold value; cbn [get_sem prod_sem cons_sem head_sem tail_sem new_sem s_count s_queue length]; lia|done].
  - constructor.
  - intros i; split; [intros H; inversion H|intros (p & Hp & Ha); now apply Hno in Hp].
Qed.

Lemma mbox_step_inv size s s' : (0 < size)%nat -> step s s' -> inv size s -> inv size s'.
Proof.
  intros Hs H I; destruct H; eauto using step_call_inv, step_post_inv, step_fetch_inv, step_timeout_inv, step_resume_inv.
Qed.

Lemma reachable_inv junk n s : junk <> [] -> Z.of_nat (length junk) < 2147483647 -> Z.of_nat n < 2147483647 ->
  reachable junk n s -> inv (length junk) s.
Proof.
  intros Hj Hl Hn H; assert (0 < length junk)%nat by (destruct junk; cbn; [done|lia]).
  enough (forall s0, inv (length junk) s0 -> rtc step s0 s -> inv (length junk) s)
    by eauto using mbox_start_inv.
  clear H; intros s0 I R; induction R; eauto using mbox_step_inv.
Qed.

(** The threads on the lines that move the head, and those that move the tail. *)
Definition at_head (p : pc) : bool := match p with PostWrite _ => true | _ => false end.
Definition at_tail (p : pc) : bool := match p with FetchRead => true | _ => false end.

Lemma one_holder size s k i j p q : inv size s -> stock size k (written s) (read s) = 1 ->
  threads s !! i = Some p -> threads s !! j = Some q -> holds k p = 1 -> holds k q = 1 -> i = j.
Proof.
  intros I Hs Hi Hj Hp Hq; destruct (decide (i = j)) as [|Hne]; [done|exfalso].
  pose proof (inv_sems _ _ I k) as Hk; pose proof (si_value _ _ _ _ Hk); pose proof (proj1 (si_waits _ _ _ _ Hk)).
  pose proof (total_set (holds k) (threads s) i p Outside Hi).
  pose proof (total_ge (holds k) (<[i := Outside]> (threads s)) j q (holds_nonneg k) ltac:(now rewrite list_lookup_insert_ne)).
  assert (holds k Outside = 0) by (destruct k; done); lia.
Qed.

(** C24: a mailbox is a bounded queue, first in first out, for any number of threads that
    post and fetch, with any timeouts, in any interleaving of their steps, as long as no
    interrupt cuts a call of sem_down or sem_up in two (see [Thread.semaphore_races]), no wait
    lasts 2^32 - 1 milliseconds, and the mailbox stays valid: the messages read are, in order, the first of
    those written; no message is overwritten before it is read, since at most as many as
    there are slots are in between; and at most one thread at a time is on the lines
    that move the head, and on those that move the tail.  The mailbox has at least one
    slot, and slots and threads are fewer than 2^31 - 1. *)
Theorem mailbox_fifo junk n s :
  junk <> [] -> Z.of_nat (length junk) < 2147483647 -> Z.of_nat n < 2147483647 -> reachable junk n s ->
  read s = take (length (read s)) (written s) /\
  (length (read s) <= length (written s) <= length (read s) + length junk)%nat /\
  (forall i j p q, threads s !! i = Some p -> threads s !! j = Some q ->
     at_head p && at_head q || at_tail p && at_tail q = true -> i = j).
Proof.
  intros Hj Hl Hn H; pose proof (reachable_inv junk n s Hj Hl Hn H) as I.
  split; [exact (inv_read _ _ I)|]; split; [apply inv_lengths; [destruct junk; cbn; [done|lia]|exact I]|].
  intros i j p q Hi Hq Ht; apply orb_true_iff in Ht as [Ht|Ht]; apply andb_true_iff in Ht as [Hp Hq'].
  - apply (one_holder _ _ Head i j p q I); try done; [destruct p|destruct q]; done.
  - apply (one_holder _ _ Tail i j p q I); try done; [destruct p|destruct q]; done.
Qed.

(** No thread that is in the functions can make a step, but by timing out. *)
Definition stuck (s : system) : Prop :=
  forall i p, threads s !! i = Some p -> post_step i p (box s) = None /\ fetch_step i p (box s) = None /\ forall d, p <> Woken d.

Lemma stuck_pc size s i p : (0 < size)%nat -> inv size s -> stuck s -> threads s !! i = Some p -> p = Outside \/ exists d, p = Sleeps d.
Proof.
  intros Hs I St Hp; destruct (St i p Hp) as (E1 & E2 & E3).
  destruct p as [|msg to|[]|d|d| | | | |msg|msg]; cbn [post_step fetch_step] in *; try discriminate; eauto.
  - destruct (mbox_is_valid _); discriminate.
  - now destruct (E3 d).
  - unfold call_up in E1; destruct (up_section_spec _ (inv_settled _ _ Head Hs I)) as (sm & wk & E & _); rewrite E in E1; discriminate.
  - unfold call_up in E1; destruct (up_section_spec _ (inv_settled _ _ Cons Hs I)) as (sm & wk & E & _); rewrite E in E1; discriminate.
  - destruct (data (box s) !! tail (box s)) eqn:Ed; [discriminate|].
    apply lookup_ge_None in Ed; rewrite (inv_tail _ _ I), (inv_size _ _ I) in Ed.
    pose proof (Nat.mod_upper_bound (length (read s)) size); lia.
  - unfold call_up in E2; destruct (up_section_spec _ (inv_settled _ _ Tail Hs I)) as (sm & wk & E & _); rewrite E in E2; discriminate.
  - unfold call_up in E2; destruct (up_section_spec _ (inv_settled _ _ Prod Hs I)) as (sm & wk & E & _); rewrite E in E2; discriminate.
Qed.

(** C40: threads never wait for each other in vain, and no wake-up is lost: when none of the threads in
    mbox_post and mbox_fetch can make a step (other than by timing out), each of them is asleep, those in
    mbox_post because every slot holds a message that is not yet read, those in mbox_fetch
    because there is none; nobody waits for a mutex.  As before, no interrupt cuts a call of
    sem_down or sem_up in two, no wait lasts 2^32 - 1 milliseconds, the mailbox stays valid and has at least one slot, and slots
    and threads are fewer than 2^31 - 1. *)
Theorem mailbox_no_deadlock junk n s i p :
  junk <> [] -> Z.of_nat (length junk) < 2147483647 -> Z.of_nat n < 2147483647 ->
  reachable junk n s -> stuck s -> threads s !! i = Some p ->
  p = Outside \/
  ((exists msg timeout, p = Sleeps (PostProd msg timeout)) /\ length (written s) = (length (read s) + length junk)%nat) \/
  ((exists timeout, p = Sleeps (FetchCons timeout)) /\ written s = read s).
Proof.
  intros Hj Hl Hn H St Hp; pose proof (reachable_inv junk n s Hj Hl Hn H) as I.
  assert (Hs : (0 < length junk)%nat) by (destruct junk; cbn; [done|lia]).
  assert (Hquiet : forall j q, threads s !! j = Some q -> q = Outside \/ exists d, q = Sleeps d) by (intros j q; now apply stuck_pc with (length junk)).
  assert (Hzero : forall k d j, threads s !! j = Some (Sleeps d) -> sem_of d = k -> stock (length junk) k (written s) (read s) = total (holds k) (threads s)).
  { intros k d j Hjd Hd; pose proof (inv_sems _ _ I k) as Hk; pose proof (si_value _ _ _ _ Hk); destruct (si_waits _ _ _ _ Hk) as [_ Hw].
    rewrite Hw in *; [lia|]; intros E; assert (Hin : j ∈ s_queue (get_sem k (box s))) by (apply (si_queue _ _ _ _ Hk); exists (Sleeps d); done).
    rewrite E in Hin; inversion Hin. }
  assert (Hnone : forall k, (forall d, holds k (Sleeps d) = 1 -> forall j, threads s !! j <> Some (Sleeps d)) -> total (holds k) (threads s) = 0).
  { intros k Hk; apply total_zero; intros q (j & Hjq)%list_elem_of_lookup_1; destruct (Hquiet j q Hjq) as [->|[d ->]]; [destruct k; done|].
    pose proof (holds_nonneg k (Sleeps d)); destruct (decide (holds k (Sleeps d) = 1)) as [E|E]; [now destruct (Hk d E j)|].
    destruct k, d; cbn in *; lia. }
  assert (Hhead : forall msg j, threads s !! j <> Some (Sleeps (PostHead msg))).
  { intros msg j E; pose proof (Hzero Head _ _ E eq_refl) as Hz; rewrite Hnone in Hz; [discriminate|intros []; discriminate]. }
  assert (Htail : forall j, threads s !! j <> Some (Sleeps FetchTail)).
  { intros j E; pose proof (Hzero Tail _ _ E eq_refl) as Hz; rewrite Hnone in Hz; [discriminate|intros []; discriminate]. }
  destruct (Hquiet i p Hp) as [->|[d ->]]; [now left|right]; pose proof (inv_lengths _ _ Hs I) as Hlen.
  destruct d as [msg to|msg|to|]; [|now destruct (Hhead msg i)| |now destruct (Htail i)].
  - left; split; [eauto|]; pose proof (Hzero Prod _ _ Hp eq_refl) as Hz; rewrite Hnone in Hz; [cbn in Hz; lia|intros []; try discriminate; eauto].
  - right; split; [eauto|]; pose proof (Hzero Cons _ _ Hp eq_refl) as Hz; rewrite Hnone in Hz; [cbn [stock] in Hz|intros []; try discriminate; eauto].
    rewrite (inv_read _ _ I); symmetry; apply take_ge; lia.
Qed.
End mailbox.
Arguments mailbox : clear implicits.
Arguments system : clear implicits.

(** ** Two threads and a mailbox of two slots *)

(** Thread 1 waits for a message, and thread 0 posts one: thread 1 is woken. *)
Definition posted : system Z :=
  Sys (Mbox (Sem 1 [] true 0 1) (Sem 0 [] true 1 0) (Sem 1 [] true 1 1) (Sem 1 [] true 0 0) 1 0 [42; 0])
    [Outside; Woken (FetchCons 0)] [42] [].

Lemma posted_reachable : reachable [0; 0] 2 posted.
Proof.
  eapply rtc_l; [apply (step_call _ _ _ _ 1 (Calls (FetchCons 0))); [reflexivity|eauto]|].
  eapply rtc_l; [eapply (step_fetch _ _ _ _ 1); reflexivity|].
  eapply rtc_l; [apply (step_call _ _ _ _ 0 (PostValid 42 0)); [reflexivity|eauto]|].
  do 6 (eapply rtc_l; [eapply (step_post _ _ _ _ 0); reflexivity|]).
  apply rtc_refl.
Qed.

Lemma mailbox_fifo_witness :
  exists s : system Z, reachable [0; 0] 2 s /\ written s = [42] /\ (length (read s) <= 1)%nat.
Proof.
  exists posted; destruct (mailbox_fifo [0; 0] 2 posted ltac:(discriminate) ltac:(cbn; lia) ltac:(cbn; lia) posted_reachable) as (_ & H & _).
  split; [exact posted_reachable|]; split; [reflexivity|apply H].
Defined.

(** Thread 0 waits in vain for a message. *)
Definition waiting : system Z :=
  Sys (Mbox (Sem 2 [] true 0 0) (Sem (-1) [0%nat] true 0 0) (Sem 1 [] true 0 0) (Sem 1 [] true 0 0) 0 0 [0; 0])
    [Sleeps (FetchCons 0); Outside] [] [].

Lemma waiting_reachable : reachable [0; 0] 2 waiting.
Proof.
  eapply rtc_l; [apply (step_call _ _ _ _ 0 (Calls (FetchCons 0))); [reflexivity|eauto]|].
  eapply rtc_l; [eapply (step_fetch _ _ _ _ 0); reflexivity|].
  apply rtc_refl.
Qed.

Lemma mailbox_no_deadlock_witness :
  exists s : system Z, reachable [0; 0] 2 s /\ stuck s /\ threads s !! 0%nat = Some (Sleeps (FetchCons 0)) /\ written s = read s.
Proof.
  assert (St : stuck waiting) by (intros [|[|i]] p [= <-]; done).
  exists waiting; split; [exact waiting_reachable|]; split; [exact St|]; split; [reflexivity|].
  destruct (mailbox_no_deadlock [0; 0] 2 waiting 0 _ ltac:(discriminate) ltac:(cbn; lia) ltac:(cbn; lia) waiting_reachable St eq_refl)
    as [E|[[(msg & to & E) _]|[_ E]]]; [discriminate E|discriminate E|exact E].
Defined.
