(* ===== verification/Arena.v ===== *)
(** * The memory allocator of the core: core/mem

    The headers of the arenas live in a memory that has one map per field
    ([Memory]); a pointer is an address and NULL is 0, so that two pointers to
    the same header alias.  A heap is described by the list of its blocks in
    address order and the list of its free blocks in the order of the free
    chain; [repr] relates the two descriptions, and every operation of
    malloc.c and free.c is shown to keep it.  [size_t] and pointers have 32
    bits; the header of a block takes 16 bytes.  The semaphore of the
    allocator is not part of the state: no operation is interrupted. *)

From stdpp Require Import functions.
From S2P Require Import Prelude.

(** ** Headers: malloc.h *)

Definition MALLOC_FREE : Z := 0.
Definition MALLOC_HEAD : Z := 1.
Definition MALLOC_CORE : Z := 2.
Definition MALLOC_MODULE : Z := 3.

Definition ARENA_TYPE_USED : Z := 0.
Definition ARENA_TYPE_FREE : Z := 1.
Definition ARENA_TYPE_HEAD : Z := 2.

Definition HEAP_MAIN : Z := 0.
Definition HEAP_LOWMEM : Z := 1.

(** The fields of the headers; those of an address that holds no header are
    whatever the memory contains.
    [src/core/mem/malloc.h:46-73 struct free_arena_header] *)
Record memory := Memory {
  tag : Z -> Z;
  attrs : Z -> Z;
  next : Z -> Z;
  prev : Z -> Z;
  next_free : Z -> Z;
  prev_free : Z -> Z
}.

Definition set_tag (m : memory) (p v : Z) : memory :=
  Memory (<[p := v]> (tag m)) (attrs m) (next m) (prev m) (next_free m) (prev_free m).
Definition set_attrs (m : memory) (p v : Z) : memory :=
  Memory (tag m) (<[p := v]> (attrs m)) (next m) (prev m) (next_free m) (prev_free m).
Definition set_next (m : memory) (p v : Z) : memory :=
  Memory (tag m) (attrs m) (<[p := v]> (next m)) (prev m) (next_free m) (prev_free m).
Definition set_prev (m : memory) (p v : Z) : memory :=
  Memory (tag m) (attrs m) (next m) (<[p := v]> (prev m)) (next_free m) (prev_free m).
Definition set_next_free (m : memory) (p v : Z) : memory :=
  Memory (tag m) (attrs m) (next m) (prev m) (<[p := v]> (next_free m)) (prev_free m).
Definition set_prev_free (m : memory) (p v : Z) : memory :=
  Memory (tag m) (attrs m) (next m) (prev m) (next_free m) (<[p := v]> (prev_free m)).

(** [sizeof(struct arena_header)] and [sizeof(struct free_arena_header)]. *)
Definition sizeof_arena_header : Z := 16.

(** [src/core/mem/malloc.h:59-62 ARENA_PADDING] *)
Definition ARENA_PADDING : Z := 2 * sizeof_arena_header - (sizeof_arena_header + 4 + 4).
Definition sizeof_free_arena_header : Z := sizeof_arena_header + 4 + 4 + 4 * ARENA_PADDING.

(** [src/core/mem/malloc.h:75-75 ARENA_SIZE_MASK] *)
Definition ARENA_SIZE_MASK : Z := u32 (Z.lnot (sizeof_arena_header - 1)).
Definition ARENA_HEAP_MASK : Z := 12.
Definition ARENA_HEAP_POS : Z := 2.
Definition ARENA_TYPE_MASK : Z := 3.

(** [src/core/mem/malloc.h:84-84 ARENA_SIZE_GET] *)
Definition ARENA_SIZE_GET (attrs : Z) : Z := Z.land attrs ARENA_SIZE_MASK.

(** [src/core/mem/malloc.h:85-85 ARENA_HEAP_GET] *)
Definition ARENA_HEAP_GET (attrs : Z) : Z :=
  Z.shiftr (Z.land attrs ARENA_HEAP_MASK) ARENA_HEAP_POS.

(** [src/core/mem/malloc.h:86-86 ARENA_TYPE_GET] *)
Definition ARENA_TYPE_GET (attrs : Z) : Z := Z.land attrs ARENA_TYPE_MASK.

(** [src/core/mem/malloc.h:88-89 ARENA_SIZE_SET] *)
Definition ARENA_SIZE_SET (attrs size : Z) : Z :=
  Z.lor (Z.land size ARENA_SIZE_MASK) (Z.land attrs (u32 (Z.lnot ARENA_SIZE_MASK))).

(** [src/core/mem/malloc.h:90-92 ARENA_HEAP_SET] *)
Definition ARENA_HEAP_SET (attrs heap : Z) : Z :=
  Z.lor (Z.land (Z.shiftl heap ARENA_HEAP_POS) ARENA_HEAP_MASK)
    (Z.land attrs (u32 (Z.lnot ARENA_HEAP_MASK))).

(** [src/core/mem/malloc.h:93-95 ARENA_TYPE_SET] *)
Definition ARENA_TYPE_SET (attrs type : Z) : Z :=
  Z.lor (Z.land attrs (u32 (Z.lnot ARENA_TYPE_MASK))) (Z.land type ARENA_TYPE_MASK).

Section Arena.

(** The address of the array [__core_malloc_head], which the linker chooses. *)
Variable core_malloc_head : Z.

(** [&__core_malloc_head[heap]]. *)
Definition head (heap : Z) : Z := core_malloc_head + heap * sizeof_free_arena_header.

(** ** malloc.c *)

(** The pointer to the payload and the memory.
    [src/core/mem/malloc.c:20-68 __malloc_from_block] *)
Definition malloc_from_block (m : memory) (fp size tg : Z) : Z * memory :=
  let heap := ARENA_HEAP_GET (attrs m fp) in
  let fsize := ARENA_SIZE_GET (attrs m fp) in
  let m :=
    if u32 (size + 2 * sizeof_arena_header) <=? fsize then
      let nfp := u32 (fp + size) in
      let na := next m fp in
      let m := set_attrs m nfp (ARENA_TYPE_SET (attrs m nfp) ARENA_TYPE_FREE) in
      let m := set_attrs m nfp (ARENA_HEAP_SET (attrs m nfp) heap) in
      let m := set_attrs m nfp (ARENA_SIZE_SET (attrs m nfp) (u32 (fsize - size))) in
      let m := set_tag m nfp MALLOC_FREE in
      let m := set_attrs m fp (ARENA_TYPE_SET (attrs m fp) ARENA_TYPE_USED) in
      let m := set_attrs m fp (ARENA_SIZE_SET (attrs m fp) size) in
      let m := set_tag m fp tg in
      let m := set_prev m nfp fp in
      let m := set_next m nfp na in
      let m := set_prev m na nfp in
      let m := set_next m fp nfp in
      let m := set_next_free m nfp (next_free m fp) in
      let m := set_prev_free m nfp (prev_free m fp) in
      let m := set_prev_free m (next_free m fp) nfp in
      set_next_free m (prev_free m fp) nfp
    else
      let m := set_attrs m fp (ARENA_TYPE_SET (attrs m fp) ARENA_TYPE_USED) in
      let m := set_tag m fp tg in
      let m := set_prev_free m (next_free m fp) (prev_free m fp) in
      set_next_free m (prev_free m fp) (next_free m fp) in
  (u32 (fp + sizeof_arena_header), m).

(** "Add the obligatory arena header, and round up". *)
Definition arena_round (size : Z) : Z :=
  Z.land (u32 (size + 2 * sizeof_arena_header - 1)) ARENA_SIZE_MASK.

(** The walk along the free chain; [None] when the fuel is exhausted.
    [src/core/mem/malloc.c:80-86 bios_malloc] *)
Fixpoint malloc_loop (fuel : nat) (m : memory) (hd fp size tg : Z) : option (Z * memory) :=
  match fuel with
  | O => None
  | S fuel =>
      if fp =? hd then Some (0, m)
      else if size <=? ARENA_SIZE_GET (attrs m fp) then Some (malloc_from_block m fp size tg)
      else malloc_loop fuel m hd (next_free m fp) size tg
  end.

(** [src/core/mem/malloc.c:70-90 bios_malloc] *)
Definition bios_malloc (fuel : nat) (m : memory) (size heap tg : Z) : option (Z * memory) :=
  if size =? 0 then Some (0, m)
  else malloc_loop fuel m (head heap) (next_free m (head heap)) (arena_round size) tg.

(** [src/core/mem/malloc.c:107-110 malloc] *)
Definition malloc (fuel : nat) (m : memory) (size : Z) : option (Z * memory) :=
  bios_malloc fuel m size HEAP_MAIN MALLOC_CORE.

(** The value of [errno] is not part of the state.
    [src/core/mem/malloc.c:112-120 lmalloc] *)
Definition lmalloc (fuel : nat) (m : memory) (size : Z) : option (Z * memory) :=
  bios_malloc fuel m size HEAP_LOWMEM MALLOC_CORE.

(** [src/core/mem/malloc.c:122-125 pmapi_lmalloc] *)
Definition pmapi_lmalloc (fuel : nat) (m : memory) (size : Z) : option (Z * memory) :=
  bios_malloc fuel m size HEAP_LOWMEM MALLOC_MODULE.

(** ** free.c *)

(** The second half of [__free_block]: [ah] is merged with its successor
    [nah] when that is free and contiguous.
    [src/core/mem/free.c:48-64 __free_block] *)
Definition merge_next (m : memory) (ah nah : Z) : memory :=
  if (ARENA_TYPE_GET (attrs m nah) =? ARENA_TYPE_FREE) &&
     (u32 (ah + ARENA_SIZE_GET (attrs m ah)) =? nah)
  then
    let m := set_attrs m ah (ARENA_SIZE_SET (attrs m ah)
               (u32 (ARENA_SIZE_GET (attrs m ah) + ARENA_SIZE_GET (attrs m nah)))) in
    let m := set_prev_free m (next_free m nah) (prev_free m nah) in
    let m := set_next_free m (prev_free m nah) (next_free m nah) in
    let m := set_next m ah (next m nah) in
    set_prev m (next m nah) ah
  else m.

(** The block that contains the block freed, and the memory.
    [src/core/mem/free.c:14-68 __free_block] *)
Definition free_block (m : memory) (ah : Z) : Z * memory :=
  let hd := head (ARENA_HEAP_GET (attrs m ah)) in
  let pah := prev m ah in
  let nah := next m ah in
  let '(ah, m) :=
    if (ARENA_TYPE_GET (attrs m pah) =? ARENA_TYPE_FREE) &&
       (u32 (pah + ARENA_SIZE_GET (attrs m pah)) =? ah)
    then
      let m := set_attrs m pah (ARENA_SIZE_SET (attrs m pah)
                 (u32 (ARENA_SIZE_GET (attrs m pah) + ARENA_SIZE_GET (attrs m ah)))) in
      let m := set_next m pah nah in
      let m := set_prev m nah pah in
      (pah, m)
    else
      let m := set_attrs m ah (ARENA_TYPE_SET (attrs m ah) ARENA_TYPE_FREE) in
      let m := set_tag m ah MALLOC_FREE in
      let m := set_next_free m ah (next_free m hd) in
      let m := set_prev_free m ah hd in
      let m := set_next_free m hd ah in
      let m := set_prev_free m (next_free m ah) ah in
      (ah, m) in
  (ah, merge_next m ah nah).

(** [src/core/mem/free.c:70-86 bios_free] *)
Definition bios_free (m : memory) (ptr : Z) : memory :=
  snd (free_block m (u32 (ptr - sizeof_arena_header))).

(** [src/core/mem/free.c:88-100 free] *)
Definition free (m : memory) (ptr : Z) : memory :=
  if ptr =? 0 then m else bios_free m ptr.

(** The search for the successor of the block injected: [None] is fuel
    exhausted, [Some None] an overlap.
    [src/core/mem/free.c:121-137 __inject_free_block] *)
Fixpoint inject_loop (fuel : nat) (m : memory) (hd nah ah a_end : Z) : option (option Z) :=
  match fuel with
  | O => None
  | S fuel =>
      if nah =? hd then Some (Some nah)
      else
        let n_end := u32 (nah + ARENA_SIZE_GET (attrs m nah)) in
        if a_end <=? nah then Some (Some nah)
        else if n_end <=? ah then inject_loop fuel m hd (next m nah) ah a_end
        else Some None
  end.

(** [src/core/mem/free.c:107-148 __inject_free_block] *)
Definition inject_free_block (fuel : nat) (m : memory) (ah : Z) : option memory :=
  let hd := head (ARENA_HEAP_GET (attrs m ah)) in
  let a_end := u32 (ah + ARENA_SIZE_GET (attrs m ah)) in
  let* r := inject_loop fuel m hd (next m hd) ah a_end in
  match r with
  | None => Some m
  | Some nah =>
      let m := set_next m ah nah in
      let m := set_prev m ah (prev m nah) in
      let m := set_prev m nah ah in
      let m := set_next m (prev m ah) ah in
      Some (snd (free_block m ah))
  end.

(** One heap of [__free_tagged].
    [src/core/mem/free.c:162-166 __free_tagged] *)
Fixpoint free_tagged_loop (fuel : nat) (m : memory) (hd fp tg : Z) : option memory :=
  match fuel with
  | O => None
  | S fuel =>
      if fp =? hd then Some m
      else
        let '(fp, m) :=
          if (ARENA_TYPE_GET (attrs m fp) =? ARENA_TYPE_USED) && (tag m fp =? tg)
          then free_block m fp else (fp, m) in
        free_tagged_loop fuel m hd (next m fp) tg
  end.

(** [src/core/mem/free.c:153-171 __free_tagged] *)
Definition free_tagged (fuel : nat) (m : memory) (tg : Z) : option memory :=
  let* m := free_tagged_loop fuel m (head HEAP_MAIN) (next m (head HEAP_MAIN)) tg in
  free_tagged_loop fuel m (head HEAP_LOWMEM) (next m (head HEAP_LOWMEM)) tg.

(** [src/core/mem/free.c:173-178 comboot_cleanup_lowmem] *)
Definition comboot_cleanup_lowmem (fuel : nat) (m : memory) : option memory :=
  free_tagged fuel m MALLOC_MODULE.

(** ** realloc: malloc.c *)

(** "Merge in subsequent free block".
    [src/core/mem/malloc.c:173-179 bios_realloc] *)
Definition realloc_absorb (m : memory) (ah nah : Z) : memory :=
  let m := set_next m ah (next m nah) in
  let m := set_prev m (next m ah) ah in
  let m := set_prev_free m (next_free m nah) (prev_free m nah) in
  let m := set_next_free m (prev_free m nah) (next_free m nah) in
  set_attrs m ah (ARENA_SIZE_SET (attrs m ah)
    (u32 (ARENA_SIZE_GET (attrs m ah) + ARENA_SIZE_GET (attrs m nah)))).

(** The residual block cut off the end of a block reallocated in place.
    [src/core/mem/malloc.c:185-223 bios_realloc] *)
Definition realloc_residual (m : memory) (hd ah oldsize newsize xsize : Z) : memory :=
  if u32 (newsize + 2 * sizeof_arena_header) <=? xsize then
    let nah := u32 (ah + newsize) in
    let m := set_attrs m nah (ARENA_TYPE_SET (attrs m nah) ARENA_TYPE_FREE) in
    let m := set_attrs m nah (ARENA_SIZE_SET (attrs m nah) (u32 (xsize - newsize))) in
    let m := set_attrs m ah (ARENA_SIZE_SET (attrs m ah) newsize) in
    let m := set_attrs m nah (ARENA_HEAP_SET (attrs m nah) (ARENA_HEAP_GET (attrs m ah))) in
    let m := set_next m nah (next m ah) in
    let m := set_next m ah nah in
    let m := set_prev m (next m nah) nah in
    let m := set_prev m nah ah in
    if oldsize <? newsize then
      let m := set_prev_free m nah (prev_free m hd) in
      let m := set_next_free m nah hd in
      let m := set_prev_free m hd nah in
      set_next_free m (prev_free m nah) nah
    else
      let m := set_next_free m nah (next_free m hd) in
      let m := set_prev_free m nah hd in
      let m := set_next_free m hd nah in
      set_prev_free m (next_free m nah) nah
  else m.

(** Copying and filling the bytes of the payloads, which are apart from the headers. *)
Definition memcpy (data : Z -> Z) (dst src n : Z) : Z -> Z :=
  fun q => if (dst <=? q) && (q <? dst + n) then data (src + (q - dst)) else data q.

Definition memset (data : Z -> Z) (dst c n : Z) : Z -> Z :=
  fun q => if (dst <=? q) && (q <? dst + n) then c else data q.

(** The pointer, the headers and the payloads.
    [src/core/mem/malloc.c:127-237 bios_realloc] *)
Definition bios_realloc (fuel : nat) (m : memory) (data : Z -> Z) (ptr size : Z)
  : option (Z * memory * (Z -> Z)) :=
  if ptr =? 0 then let* (p, m) := malloc fuel m size in Some (p, m, data)
  else if size =? 0 then Some (0, free m ptr, data)
  else
    let ah := u32 (ptr - sizeof_arena_header) in
    let hd := head (ARENA_HEAP_GET (attrs m ah)) in
    let oldsize := ARENA_SIZE_GET (attrs m ah) in
    let newsize := arena_round size in
    if (newsize <=? oldsize) && (Z.shiftr oldsize 2 <=? newsize) &&
       (u32 (oldsize - newsize) <? 4096)
    then Some (ptr, m, data)
    else
      let nah := next m ah in
      let '(xsize, m) :=
        if (nah =? u32 (ah + ARENA_SIZE_GET (attrs m ah))) &&
           (ARENA_TYPE_GET (attrs m nah) =? ARENA_TYPE_FREE) &&
           (newsize <=? u32 (ARENA_SIZE_GET (attrs m nah) + oldsize))
        then
          let m := realloc_absorb m ah nah in
          (ARENA_SIZE_GET (attrs m ah), m)
        else (oldsize, m) in
      if newsize <=? xsize then Some (ptr, realloc_residual m hd ah oldsize newsize xsize, data)
      else
        let* (newptr, m) := malloc fuel m size in
        if newptr =? 0 then Some (0, m, data)
        else
          let data := memcpy data newptr ptr (Z.min size (u32 (oldsize - sizeof_arena_header))) in
          Some (newptr, free m ptr, data).

(** [src/core/mem/malloc.c:244-253 zalloc] *)
Definition zalloc (fuel : nat) (m : memory) (data : Z -> Z) (size : Z)
  : option (Z * memory * (Z -> Z)) :=
  let* (ptr, m) := malloc fuel m size in
  Some (ptr, m, if ptr =? 0 then data else memset data ptr 0 size).

(** ** init.c *)

Definition E820_MEM_MAX : Z := 4293918720.
Definition SMT_FREE : Z := 1.

(** The callback of the memory scan: the memory and [__com32.cs_memsize].
    [src/core/mem/init.c:16-49 scan_highmem_area] *)
Definition scan_highmem_area (fuel : nat) (st : memory * Z) (start len type : Z)
  : option (memory * Z) :=
  let '(m, cs_memsize) := st in
  if (start <? 1048576) || (E820_MEM_MAX <? start) || negb (type =? SMT_FREE) then Some st
  else
    let '(start, len) :=
      if start <? cs_memsize then (cs_memsize, u32 (len - u32 (cs_memsize - start)))
      else (start, len) in
    let len := if u32 (E820_MEM_MAX - start) <? len then u32 (E820_MEM_MAX - start) else len in
    let* m :=
      (if 2 * sizeof_arena_header <=? len then
         let m := set_attrs m start (Z.lor ARENA_TYPE_USED (Z.shiftl HEAP_MAIN ARENA_HEAP_POS)) in
         let m := set_attrs m start (ARENA_SIZE_SET (attrs m start) len) in
         inject_free_block fuel m start
       else Some m) in
    Some (m, u32 (start + len)).

Fixpoint scan_areas (fuel : nat) (st : memory * Z) (areas : list (Z * Z * Z))
  : option (memory * Z) :=
  match areas with
  | [] => Some st
  | (start, len, type) :: areas =>
      let* st := scan_highmem_area fuel st start len type in
      scan_areas fuel st areas
  end.

(** One turn of the loop over the head nodes.
    [src/core/mem/init.c:81-86 mem_init] *)
Definition init_head (m : memory) (i : Z) : memory :=
  let fp := head i in
  let m := set_prev_free m fp fp in
  let m := set_next_free m fp fp in
  let m := set_prev m fp fp in
  let m := set_next m fp fp in
  let m := set_attrs m fp (Z.lor ARENA_TYPE_HEAD (Z.shiftl i ARENA_HEAP_POS)) in
  set_tag m fp MALLOC_HEAD.

(** [bios_free_mem] is the word the BIOS keeps at that address, [areas] what
    the firmware's memory scan reports.
    [src/core/mem/init.c:73-104 mem_init] *)
Definition mem_init (fuel : nat) (m : memory) (lowmem_heap bios_free_mem free_high_memory : Z)
    (areas : list (Z * Z * Z)) : option (memory * Z) :=
  let m := init_head (init_head m 0) 1 in
  let fp := lowmem_heap in
  let m := set_attrs m fp (Z.lor ARENA_TYPE_USED (Z.shiftl HEAP_LOWMEM ARENA_HEAP_POS)) in
  let m := set_attrs m fp (ARENA_SIZE_SET (attrs m fp) (u32 (Z.shiftl bios_free_mem 10 - fp))) in
  let* m := inject_free_block fuel m fp in
  scan_areas fuel (m, free_high_memory) areas.

(** ** The attributes word *)

(** Size in units of 16 bytes, heap and type, as one word. *)
Definition mk_attrs (size heap type : Z) : Z := size + 4 * heap + type.

Lemma testbit_16 a r i : 0 <= r < 16 -> 0 <= i ->
  Z.testbit (16 * a + r) i = if i <? 4 then Z.testbit r i else Z.testbit a (i - 4).
Proof.
  intros Hr Hi.
  replace (16 * a + r) with (Z.lor (Z.shiftl a 4) r)
    by (rewrite shiftl_lor_add by (change (2 ^ 4) with 16; lia); change (2 ^ 4) with 16; lia).
  rewrite Z.lor_spec, Z.shiftl_spec by lia.
  destruct (Z.ltb_spec i 4).
  - now rewrite Z.testbit_neg_r by lia.
  - rewrite <- (Z.mod_small r (2 ^ 4)) by (change (2 ^ 4) with 16; lia).
    now rewrite Z.mod_pow2_bits_high, orb_false_r by lia.
Qed.

Lemma nibble_bound f x y : (forall b1 b2, f b1 b2 = true -> b1 || b2 = true) ->
  0 <= x < 16 -> 0 <= y < 16 ->
  forall z, (forall i, 0 <= i -> Z.testbit z i = f (Z.testbit x i) (Z.testbit y i)) -> 0 <= z ->
  0 <= z < 16.
Proof.
  intros Hf Hx Hy z Hz Hz0; split; auto.
  destruct (Z.eq_dec z 0) as [->|]; [lia|].
  destruct (Z.lt_ge_cases (Z.log2 z) 4) as [|Hl].
  { apply Z.log2_lt_pow2 in H; change (2 ^ 4) with 16 in H; lia. }
  assert (Hb : forall r, 0 <= r < 16 -> Z.testbit r (Z.log2 z) = false).
  { intros r Hr; rewrite <- (Z.mod_small r (2 ^ 4)) by (change (2 ^ 4) with 16; lia).
    apply Z.mod_pow2_bits_high; lia. }
  pose proof (Z.bit_log2 z ltac:(lia)) as Hl2.
  rewrite Hz in Hl2 by lia; apply Hf in Hl2; now rewrite !Hb in Hl2 by auto.
Qed.

Lemma land_nibble r s : 0 <= r < 16 -> 0 <= s < 16 -> 0 <= Z.land r s < 16.
Proof.
  intros Hr Hs; apply (nibble_bound andb r s); auto; [intros [] []; auto|intros; apply Z.land_spec|].
  apply Z.land_nonneg; lia.
Qed.

Lemma land_16 a r b s : 0 <= r < 16 -> 0 <= s < 16 ->
  Z.land (16 * a + r) (16 * b + s) = 16 * Z.land a b + Z.land r s.
Proof.
  intros Hr Hs; pose proof (land_nibble r s Hr Hs); apply Z.bits_inj'; intros i Hi.
  rewrite Z.land_spec, !testbit_16 by auto; destruct (i <? 4); now rewrite Z.land_spec.
Qed.

Lemma lor_16 a r b s : 0 <= r < 16 -> 0 <= s < 16 ->
  Z.lor (16 * a + r) (16 * b + s) = 16 * Z.lor a b + Z.lor r s.
Proof.
  intros Hr Hs; assert (Hb : 0 <= Z.lor r s < 16).
  { apply (nibble_bound orb r s); auto; [intros; apply Z.lor_spec|].
    apply Z.lor_nonneg; lia. }
  apply Z.bits_inj'; intros i Hi.
  rewrite Z.lor_spec, !testbit_16 by auto; destruct (i <? 4); now rewrite Z.lor_spec.
Qed.

Definition units : Z := 268435455.

Lemma land_units k : 0 <= k <= units -> Z.land k units = k.
Proof.
  intros; change units with (Z.ones 28); rewrite Z.land_ones by lia.
  apply Z.mod_small; change (2 ^ 28) with (units + 1); lia.
Qed.

(** Every word is made of a number of units, a heap and a type. *)
Lemma attrs_split a : exists k h t, a = 16 * k + (4 * h + t) /\ 0 <= h < 4 /\ 0 <= t < 4.
Proof.
  exists (a / 16), (a / 4 mod 4), (a mod 4).
  split; [|split]; Z.to_euclidean_division_equations; lia.
Qed.

(** Decides an equation on the heap and the type by enumeration. *)
Ltac small4 h :=
  let E := fresh in
  assert (h = 0 \/ h = 1 \/ h = 2 \/ h = 3) as E by lia; destruct E as [-> | [-> | [-> | -> ] ] ].

Lemma type_get_nibble k h t : 0 <= h < 4 -> 0 <= t < 4 ->
  ARENA_TYPE_GET (16 * k + (4 * h + t)) = t.
Proof.
  intros Hh Ht; unfold ARENA_TYPE_GET; change ARENA_TYPE_MASK with (16 * 0 + 3).
  rewrite land_16, Z.land_0_r by lia.
  small4 h; small4 t; reflexivity.
Qed.

Lemma heap_get_nibble k h t : 0 <= h < 4 -> 0 <= t < 4 ->
  ARENA_HEAP_GET (16 * k + (4 * h + t)) = h.
Proof.
  intros Hh Ht; unfold ARENA_HEAP_GET; change ARENA_HEAP_MASK with (16 * 0 + 12).
  rewrite land_16, Z.land_0_r by lia.
  small4 h; small4 t; reflexivity.
Qed.

Lemma size_get_nibble k h t : 0 <= h < 4 -> 0 <= t < 4 ->
  ARENA_SIZE_GET (16 * k + (4 * h + t)) = 16 * Z.land k units.
Proof.
  intros Hh Ht; unfold ARENA_SIZE_GET; change ARENA_SIZE_MASK with (16 * units + 0).
  rewrite land_16, Z.land_0_r by lia; lia.
Qed.

Lemma type_set_nibble k h t t' : 0 <= h < 4 -> 0 <= t < 4 -> 0 <= t' < 4 ->
  ARENA_TYPE_SET (16 * k + (4 * h + t)) t' = 16 * Z.land k units + (4 * h + t').
Proof.
  intros Hh Ht Ht'; unfold ARENA_TYPE_SET.
  change (u32 (Z.lnot ARENA_TYPE_MASK)) with (16 * units + 12).
  change ARENA_TYPE_MASK with (16 * 0 + 3); change t' with (16 * 0 + t') at 1.
  rewrite !land_16, lor_16, Z.land_0_r, Z.lor_0_r
    by (try apply land_nibble; lia).
  f_equal; small4 h; small4 t; small4 t'; reflexivity.
Qed.

Lemma heap_set_nibble k h t h' : 0 <= h < 4 -> 0 <= t < 4 -> 0 <= h' < 4 ->
  ARENA_HEAP_SET (16 * k + (4 * h + t)) h' = 16 * Z.land k units + (4 * h' + t).
Proof.
  intros Hh Ht Hh'; unfold ARENA_HEAP_SET.
  change (u32 (Z.lnot ARENA_HEAP_MASK)) with (16 * units + 3).
  replace (Z.shiftl h' ARENA_HEAP_POS) with (16 * 0 + 4 * h')
    by (unfold ARENA_HEAP_POS; rewrite Z.shiftl_mul_pow2 by lia; change (2 ^ 2) with 4; lia).
  change ARENA_HEAP_MASK with (16 * 0 + 12).
  rewrite !land_16, lor_16, Z.land_0_r, Z.lor_0_l
    by (try apply land_nibble; lia).
  f_equal; small4 h; small4 t; small4 h'; reflexivity.
Qed.

Lemma size_set_nibble k h t j : 0 <= h < 4 -> 0 <= t < 4 ->
  ARENA_SIZE_SET (16 * k + (4 * h + t)) (16 * j) = 16 * Z.land j units + (4 * h + t).
Proof.
  intros Hh Ht; unfold ARENA_SIZE_SET.
  change (u32 (Z.lnot ARENA_SIZE_MASK)) with (16 * 0 + 15).
  change ARENA_SIZE_MASK with (16 * units + 0); replace (16 * j) with (16 * j + 0) by lia.
  rewrite !land_16, lor_16, !Z.land_0_r, Z.lor_0_r
    by (try apply land_nibble; lia).
  f_equal; small4 h; small4 t; reflexivity.
Qed.

(** A block size: a multiple of the header size that fits an address. *)
Definition size_ok (s : Z) : Prop := (16 | s) /\ 0 <= s < 4294967296.

(** The accessors on well-formed words. *)
Lemma attrs_get s h t : size_ok s -> 0 <= h < 4 -> 0 <= t < 4 ->
  ARENA_SIZE_GET (mk_attrs s h t) = s /\ ARENA_HEAP_GET (mk_attrs s h t) = h /\
  ARENA_TYPE_GET (mk_attrs s h t) = t.
Proof.
  intros [[k ->] Hs] Hh Ht; unfold mk_attrs.
  replace (k * 16 + 4 * h + t) with (16 * k + (4 * h + t)) by lia.
  rewrite size_get_nibble, heap_get_nibble, type_get_nibble, land_units by (auto; unfold units; lia).
  lia.
Qed.

Lemma attrs_set_size s h t s' : size_ok s' -> 0 <= h < 4 -> 0 <= t < 4 -> (16 | s) ->
  ARENA_SIZE_SET (mk_attrs s h t) s' = mk_attrs s' h t.
Proof.
  intros [[k ->] Hs] Hh Ht [j ->]; unfold mk_attrs.
  replace (j * 16 + 4 * h + t) with (16 * j + (4 * h + t)) by lia; rewrite (Z.mul_comm k).
  rewrite size_set_nibble, land_units by (auto; unfold units; lia); lia.
Qed.

Lemma attrs_set_type s h t t' : size_ok s -> 0 <= h < 4 -> 0 <= t < 4 -> 0 <= t' < 4 ->
  ARENA_TYPE_SET (mk_attrs s h t) t' = mk_attrs s h t'.
Proof.
  intros [[k ->] Hs] Hh Ht Ht'; unfold mk_attrs.
  replace (k * 16 + 4 * h + t) with (16 * k + (4 * h + t)) by lia.
  rewrite type_set_nibble, land_units by (auto; unfold units; lia); lia.
Qed.

(** Setting the three fields makes the word, whatever was there before. *)
Lemma attrs_fresh a s h t : size_ok s -> 0 <= h < 4 -> 0 <= t < 4 ->
  ARENA_SIZE_SET (ARENA_HEAP_SET (ARENA_TYPE_SET a t) h) s = mk_attrs s h t /\
  ARENA_HEAP_SET (ARENA_SIZE_SET (ARENA_TYPE_SET a t) s) h = mk_attrs s h t.
Proof.
  intros [[k ->] Hs] Hh Ht; destruct (attrs_split a) as (j & h0 & t0 & -> & Hh0 & Ht0).
  assert (Hk : Z.land k units = k) by (apply land_units; unfold units; lia).
  rewrite type_set_nibble, (Z.mul_comm k) by auto; unfold mk_attrs.
  rewrite heap_set_nibble, !size_set_nibble, heap_set_nibble, !Hk by auto; lia.
Qed.

(** ** Doubly linked chains *)

(** From [a], the elements of [l] in order and then [z]; a ring has [z = a]. *)
Fixpoint chain (nx pv : Z -> Z) (a : Z) (l : list Z) (z : Z) : Prop :=
  match l with
  | [] => nx a = z /\ pv z = a
  | b :: l => nx a = b /\ pv b = a /\ chain nx pv b l z
  end.

(** The neighbours of the gap between two lists. *)
Definition before (a : Z) (l : list Z) : Z := List.last l a.
Definition after (l : list Z) (z : Z) : Z := hd z l.

Lemma before_cons a b l : before a (b :: l) = before b l.
Proof.
  unfold before; revert a b; induction l as [|c l IH]; intros a b; auto.
  transitivity (List.last l c); [apply (IH a c)|symmetry; apply (IH b c)].
Qed.

Lemma before_in a l : before a l ∈ a :: l.
Proof.
  revert a; induction l as [|b l IH]; intros a; [left|].
  rewrite before_cons; right; apply IH.
Qed.

Lemma after_in l z : after l z ∈ l ++ [z].
Proof. destruct l; simpl; left. Qed.

Lemma chain_ext nx pv nx' pv' l : forall a z,
  chain nx pv a l z ->
  (forall q, q ∈ a :: l -> nx' q = nx q) -> (forall q, q ∈ l ++ [z] -> pv' q = pv q) ->
  chain nx' pv' a l z.
Proof.
  induction l as [|b l IH]; simpl; intros a z H Hn Hp.
  - rewrite Hn, Hp by set_solver; auto.
  - destruct H as (H1 & H2 & H3); rewrite Hn, Hp by set_solver.
    repeat split; auto; apply IH; auto; intros; [apply Hn|apply Hp]; set_solver.
Qed.

Lemma chain_app nx pv l1 : forall a x l2 z,
  chain nx pv a (l1 ++ x :: l2) z <-> chain nx pv a l1 x /\ chain nx pv x l2 z.
Proof.
  induction l1 as [|b l1 IH]; simpl; intros a x l2 z; [tauto|]. rewrite IH; tauto.
Qed.

Lemma chain_last nx pv l : forall a z, chain nx pv a l z ->
  nx (before a l) = z /\ pv z = before a l.
Proof.
  induction l as [|b l IH]; cbn [chain]; intros a z H; [auto|].
  rewrite before_cons; apply IH; tauto.
Qed.

Lemma chain_first nx pv l a z : chain nx pv a l z -> nx a = after l z /\ pv (after l z) = a.
Proof. destruct l; simpl; intuition. Qed.

(** The neighbours of an element. *)
Lemma chain_at nx pv a l1 x l2 z : chain nx pv a (l1 ++ x :: l2) z ->
  pv x = before a l1 /\ nx x = after l2 z /\ nx (before a l1) = x /\ pv (after l2 z) = x.
Proof.
  rewrite chain_app; intros [H1 H2].
  apply chain_last in H1 as [? ?]; apply chain_first in H2 as [? ?]; auto.
Qed.

(** Two chains that meet, and back. *)
Lemma chain_join nx pv l1 l2 a z :
  chain nx pv a (l1 ++ l2) z <-> chain nx pv a l1 (after l2 z) /\ chain nx pv (before a l1) l2 z.
Proof.
  revert a; induction l1 as [|b l1 IH]; cbn [chain app]; intros a.
  - split; [|intros [_ H]; exact H]; intros H; split; [eapply chain_first; eauto|exact H].
  - rewrite IH, before_cons; tauto.
Qed.

(** The last link, or the first one, of a chain may be redirected. *)
Lemma relink_last nx pv nx' pv' l : forall a z x,
  chain nx pv a l z -> NoDup (a :: l) ->
  (forall q, q ∈ a :: l -> q <> before a l -> nx' q = nx q) ->
  (forall q, q ∈ l -> pv' q = pv q) ->
  nx' (before a l) = x -> pv' x = before a l -> chain nx' pv' a l x.
Proof.
  induction l as [|b l IH]; cbn [chain]; intros a z x H Hd Hn Hp Hx1 Hx2; [auto|].
  rewrite before_cons in *; destruct H as (H1 & H2 & H3).
  apply NoDup_cons in Hd as [Ha Hd]; pose proof (before_in b l) as Hb.
  assert (a <> before b l) by (intros E; rewrite E in Ha; auto).
  rewrite Hn, Hp by (auto; left); repeat split; auto.
  apply (IH b z); auto; intros; [apply Hn; [right|]|apply Hp; right]; auto.
Qed.

Lemma relink_first nx pv nx' pv' l a z y :
  chain nx pv a l z -> NoDup (l ++ [z]) ->
  (forall q, q ∈ l -> nx' q = nx q) ->
  (forall q, q ∈ l ++ [z] -> q <> after l z -> pv' q = pv q) ->
  nx' y = after l z -> pv' (after l z) = y -> chain nx' pv' y l z.
Proof.
  destruct l as [|b l]; simpl; intros H Hd Hn Hp Hy1 Hy2; auto.
  destruct H as (_ & _ & H); apply NoDup_cons in Hd as [Hb Hd]; repeat split; auto.
  apply (chain_ext nx pv); auto; intros; apply Hp; set_solver.
Qed.

Lemma NoDup_ring (h : Z) l1 l2 : NoDup (h :: l1 ++ l2) ->
  NoDup (h :: l1) /\ NoDup (l2 ++ [h]) /\
  forall q, (q ∈ l1 -> q ∉ l2 ++ [h]) /\ (q ∈ h :: l1 -> q ∉ l2).
Proof.
  intros [? (? & ? & ?)%NoDup_app]%NoDup_cons; repeat split.
  - apply NoDup_cons; split; [set_solver|auto].
  - apply NoDup_app; repeat split; auto using NoDup_singleton; set_solver.
  - set_solver.
  - set_solver.
Qed.

(** The three ways the allocator changes a ring at one place: the hypotheses
    say which links the new memory has and that the others are unchanged. *)
Section Ring.
Variables nx pv nx' pv' : Z -> Z.
Variable h : Z.
Variables l1 l2 : list Z.

(** [x] takes the place between the two lists. *)
Lemma ring_link x :
  chain nx pv h l1 (nx (before h l1)) -> chain nx pv (pv (after l2 h)) l2 h ->
  NoDup (h :: l1 ++ x :: l2) ->
  nx' (before h l1) = x -> nx' x = after l2 h -> pv' x = before h l1 -> pv' (after l2 h) = x ->
  (forall q, q ∈ h :: l1 ++ l2 -> q <> before h l1 -> nx' q = nx q) ->
  (forall q, q ∈ h :: l1 ++ l2 -> q <> after l2 h -> pv' q = pv q) ->
  chain nx' pv' h (l1 ++ x :: l2) h.
Proof.
  intros H1 H2 Hd E1 E2 E3 E4 Hn Hp; rewrite chain_app.
  apply NoDup_ring in Hd as (Hd1 & Hd2 & Hd3).
  pose proof (before_in h l1); pose proof (after_in l2 h); split.
  - eapply relink_last; eauto; intros q Hq; intros; [apply Hn|apply Hp]; set_solver.
  - eapply relink_first; eauto; [apply NoDup_cons in Hd2; tauto| |].
    + intros q Hq; apply Hn; [set_solver|]; intros ->.
      apply (proj2 (Hd3 (before h l1))); set_solver.
    + intros q Hq; apply Hp; set_solver.
Qed.

Lemma ring_insert x :
  chain nx pv h (l1 ++ l2) h -> NoDup (h :: l1 ++ l2) -> x ∉ h :: l1 ++ l2 ->
  nx' (before h l1) = x -> nx' x = after l2 h -> pv' x = before h l1 -> pv' (after l2 h) = x ->
  (forall q, q ∈ h :: l1 ++ l2 -> q <> before h l1 -> nx' q = nx q) ->
  (forall q, q ∈ h :: l1 ++ l2 -> q <> after l2 h -> pv' q = pv q) ->
  chain nx' pv' h (l1 ++ x :: l2) h.
Proof.
  intros [H1 H2]%chain_join Hd Hx; apply ring_link.
  - rewrite (proj1 (chain_last _ _ _ _ _ H1)); exact H1.
  - rewrite (proj2 (chain_first _ _ _ _ _ H2)); exact H2.
  - change (NoDup ((h :: l1) ++ x :: l2)); rewrite <- Permutation_middle.
    apply NoDup_cons; auto.
Qed.

(** [y] takes the place of [x]. *)
Lemma ring_replace x y :
  chain nx pv h (l1 ++ x :: l2) h -> NoDup (h :: l1 ++ x :: l2) -> y ∉ h :: l1 ++ x :: l2 ->
  nx' (before h l1) = y -> nx' y = after l2 h -> pv' y = before h l1 -> pv' (after l2 h) = y ->
  (forall q, q ∈ h :: l1 ++ l2 -> q <> before h l1 -> nx' q = nx q) ->
  (forall q, q ∈ h :: l1 ++ l2 -> q <> after l2 h -> pv' q = pv q) ->
  chain nx' pv' h (l1 ++ y :: l2) h.
Proof.
  intros [H1 H2]%chain_app Hd Hx; apply ring_link.
  - rewrite (proj1 (chain_last _ _ _ _ _ H1)); exact H1.
  - rewrite (proj2 (chain_first _ _ _ _ _ H2)); exact H2.
  - change (NoDup ((h :: l1) ++ y :: l2)); rewrite <- Permutation_middle.
    apply NoDup_cons; split; [set_solver|].
    change (NoDup ((h :: l1) ++ x :: l2)) in Hd; rewrite <- Permutation_middle in Hd.
    apply NoDup_cons in Hd; tauto.
Qed.

(** [x] leaves. *)
Lemma ring_remove x :
  chain nx pv h (l1 ++ x :: l2) h -> NoDup (h :: l1 ++ x :: l2) ->
  nx' (before h l1) = after l2 h -> pv' (after l2 h) = before h l1 ->
  (forall q, q ∈ h :: l1 ++ l2 -> q <> before h l1 -> nx' q = nx q) ->
  (forall q, q ∈ h :: l1 ++ l2 -> q <> after l2 h -> pv' q = pv q) ->
  chain nx' pv' h (l1 ++ l2) h.
Proof.
  intros [H1 H2]%chain_app Hd E1 E2 Hn Hp.
  apply NoDup_ring in Hd as (Hd1 & Hd2 & Hd3); rewrite chain_join.
  pose proof (before_in h l1); pose proof (after_in l2 h); split.
  - eapply relink_last; eauto; intros q Hq; intros; [apply Hn|apply Hp]; set_solver.
  - eapply relink_first; eauto; [apply NoDup_cons in Hd2; tauto| |].
    + intros q Hq; apply Hn; [set_solver|]; intros ->.
      apply (proj2 (Hd3 (before h l1))); set_solver.
    + intros q Hq; apply Hp; set_solver.
Qed.
End Ring.

(** ** Heaps as lists of blocks *)

(** A block: its address, its size with the header, and the tag of its owner,
    [None] when it is free. *)
Record block := Block { b_addr : Z; b_size : Z; b_owner : option Z }.

Definition b_end (b : block) : Z := b_addr b + b_size b.

Definition b_type (b : block) : Z :=
  match b_owner b with None => ARENA_TYPE_FREE | Some _ => ARENA_TYPE_USED end.

(** The blocks lie in order, without overlap, between the two bounds. *)
Fixpoint ordered (lo : Z) (bs : list block) (hi : Z) : Prop :=
  match bs with
  | [] => lo <= hi
  | b :: bs => lo <= b_addr b /\ ordered (b_end b) bs hi
  end.

(** A free block followed at once by a free block should have been merged. *)
Fixpoint coalesced (bs : list block) : Prop :=
  match bs with
  | b :: (c :: _) as bs =>
      ~ (b_owner b = None /\ b_owner c = None /\ b_end b = b_addr c) /\ coalesced bs
  | _ => True
  end.

Definition block_ok (b : block) : Prop := (16 | b_size b) /\ 32 <= b_size b.

Definition block_at (m : memory) (heap : Z) (b : block) : Prop :=
  attrs m (b_addr b) = mk_attrs (b_size b) heap (b_type b) /\
  forall t, b_owner b = Some t -> tag m (b_addr b) = t.

Definition outside (p : Z) (b : block) : Prop := p < b_addr b \/ b_end b <= p.

Definition addrs (bs : list block) : list Z := b_addr <$> bs.
Definition free_addrs (bs : list block) : list Z :=
  b_addr <$> filter (fun b => b_owner b = None) bs.

(** The lowest address a block may have and the last one it may end at. *)
Definition bottom : Z := 32.
Definition top : Z := 4294967295.

(** The memory holds the blocks [bs] of a heap, chained in order. *)
Record blocks_at (m : memory) (heap : Z) (bs : list block) : Prop := {
  r_ordered : ordered bottom bs top;
  r_ok : Forall block_ok bs;
  r_blocks : Forall (block_at m heap) bs;
  r_out : Forall (outside (head heap)) bs;
  r_head : attrs m (head heap) = mk_attrs 0 heap ARENA_TYPE_HEAD;
  r_all : chain (next m) (prev m) (head heap) (addrs bs) (head heap)
}.

(** And its free chain is [fl]. *)
Record repr0 (m : memory) (heap : Z) (bs : list block) (fl : list Z) : Prop := {
  r_arena : blocks_at m heap bs;
  r_free : chain (next_free m) (prev_free m) (head heap) fl (head heap);
  r_fl : fl ≡ₚ free_addrs bs
}.

(** The invariant of a heap. *)
Definition repr (m : memory) (heap : Z) (bs : list block) (fl : list Z) : Prop :=
  repr0 m heap bs fl /\ coalesced bs.

Lemma ordered_app lo l1 b l2 hi :
  ordered lo (l1 ++ b :: l2) hi <-> ordered lo l1 (b_addr b) /\ ordered (b_end b) l2 hi.
Proof. revert lo; induction l1 as [|c l1 IH]; simpl; intros lo; [tauto|]. rewrite IH; tauto. Qed.

Lemma ordered_bounds lo l hi : ordered lo l hi -> Forall block_ok l ->
  lo <= hi /\ forall b, b ∈ l -> lo <= b_addr b /\ b_end b <= hi.
Proof.
  revert lo; induction l as [|b l IH]; simpl; intros lo H Hok.
  - split; auto; intros b Hb; set_solver.
  - apply Forall_cons in Hok as [[_ Hb] Hok]; destruct H as [H1 H2].
    destruct (IH _ H2 Hok) as [H3 H4]; unfold b_end in *; split; [lia|].
    intros c [->|Hc]%elem_of_cons; [lia|]; apply H4 in Hc; lia.
Qed.

(** Everything apart from the block in the middle lies outside of it. *)
Lemma ordered_outside lo l1 b l2 hi : ordered lo (l1 ++ b :: l2) hi ->
  Forall block_ok (l1 ++ b :: l2) ->
  lo <= b_addr b /\ b_end b <= hi /\ forall c, c ∈ l1 ++ l2 -> outside (b_addr c) b /\ outside (b_addr b) c.
Proof.
  intros [H1 H2]%ordered_app [Ho1 [Hb Ho2]%Forall_cons]%Forall_app.
  destruct (ordered_bounds _ _ _ H1 Ho1) as [H3 H4].
  destruct (ordered_bounds _ _ _ H2 Ho2) as [H5 H6].
  rewrite Forall_forall in Ho1, Ho2; split; [auto|split; [auto|]].
  intros c [Hc|Hc]%elem_of_app; [pose proof (Ho1 _ Hc)|pose proof (Ho2 _ Hc)];
    [apply H4 in Hc|apply H6 in Hc]; unfold outside, b_end, block_ok in *; lia.
Qed.

Lemma ordered_nodup lo l hi : ordered lo l hi -> Forall block_ok l -> NoDup (addrs l).
Proof.
  revert lo; induction l as [|b l IH]; simpl; intros lo H Hok; [constructor|].
  apply Forall_cons in Hok as [[_ Hb] Hok]; destruct H as [H1 H2].
  apply NoDup_cons; split; [|now apply (IH (b_end b))].
  intros (c & E & Hc)%list_elem_of_fmap; apply (ordered_bounds _ _ _ H2 Hok) in Hc.
  unfold b_end in *; lia.
Qed.

Lemma free_addrs_app l1 l2 : free_addrs (l1 ++ l2) = free_addrs l1 ++ free_addrs l2.
Proof. unfold free_addrs; now rewrite filter_app, fmap_app. Qed.

Lemma free_addrs_cons b l : free_addrs (b :: l) =
  match b_owner b with None => b_addr b :: free_addrs l | Some _ => free_addrs l end.
Proof. unfold free_addrs; rewrite filter_cons; case_decide as E; destruct (b_owner b); done. Qed.

Lemma free_addrs_in a bs : a ∈ free_addrs bs ->
  exists l1 b l2, bs = l1 ++ b :: l2 /\ b_addr b = a /\ b_owner b = None.
Proof.
  intros (b & -> & [Hb Hin]%list_elem_of_filter)%list_elem_of_fmap.
  apply list_elem_of_split in Hin as (l1 & l2 & ->); now exists l1, b, l2.
Qed.

Lemma addrs_app l1 l2 : addrs (l1 ++ l2) = addrs l1 ++ addrs l2.
Proof. apply fmap_app. Qed.

Lemma addrs_cons b l : addrs (b :: l) = b_addr b :: addrs l.
Proof. reflexivity. Qed.

Lemma free_addrs_sub l : free_addrs l ⊆ addrs l.
Proof.
  intros a (l1 & b & l2 & -> & <- & _)%free_addrs_in; rewrite addrs_app; set_solver.
Qed.

Lemma fl_perm f1 f2 a l1 b l2 : f1 ++ a :: f2 ≡ₚ free_addrs (l1 ++ b :: l2) ->
  b_owner b = None -> b_addr b = a -> f1 ++ f2 ≡ₚ free_addrs (l1 ++ l2).
Proof.
  intros H Ho Ha; rewrite free_addrs_app, free_addrs_cons, Ho, Ha in H.
  rewrite <- !Permutation_middle in H; apply Permutation_cons_inv in H.
  now rewrite free_addrs_app.
Qed.

Section Repr.
Variables (m : memory) (heap : Z) (bs : list block).
Hypothesis R : blocks_at m heap bs.

Lemma addrs_nodup : NoDup (head heap :: addrs bs).
Proof.
  destruct R; apply NoDup_cons; split; [|eapply ordered_nodup; eauto].
  intros (b & E & Hb)%list_elem_of_fmap; rewrite Forall_forall in r_out0, r_ok0.
  pose proof (r_out0 _ Hb); pose proof (r_ok0 _ Hb); unfold outside, b_end, block_ok in *; lia.
Qed.

(** An address strictly inside a block is no header. *)
Lemma inside_fresh l1 b l2 q : bs = l1 ++ b :: l2 -> b_addr b < q < b_end b ->
  q ∉ head heap :: addrs bs.
Proof.
  intros E Hq; destruct R; subst bs; rewrite elem_of_cons; intros [->|H].
  - apply Forall_app in r_out0 as (_ & [Ho _]%Forall_cons); unfold outside in Ho; lia.
  - rewrite addrs_app, elem_of_app in H; simpl in H; rewrite elem_of_cons in H.
    destruct (ordered_outside _ _ _ _ _ r_ordered0 r_ok0) as (_ & _ & Ho).
    assert (Hc : q = b_addr b \/ q ∈ addrs (l1 ++ l2)) by (rewrite addrs_app, elem_of_app; tauto).
    destruct Hc as [|(c & -> & Hc)%list_elem_of_fmap]; [lia|].
    apply Ho in Hc; unfold outside in Hc; lia.
Qed.

Lemma fl_nodup fl : fl ≡ₚ free_addrs bs -> NoDup (head heap :: fl).
Proof.
  intros Hfl; pose proof addrs_nodup as [H1 H2]%NoDup_cons.
  apply NoDup_cons; rewrite Hfl; split.
  - intros H; apply free_addrs_sub in H; auto.
  - unfold free_addrs, addrs in *; eapply sublist_NoDup; [exact H2|].
    apply fmap_sublist, sublist_filter.
Qed.
End Repr.

(** The bytes of a heap. *)
Definition region (bs : list block) (q : Z) : Prop :=
  Exists (fun b => b_addr b <= q < b_end b) bs.

(** Nothing changes outside of the heap and its head node. *)
Definition same_at (m m' : memory) (q : Z) : Prop :=
  tag m' q = tag m q /\ attrs m' q = attrs m q /\ next m' q = next m q /\
  prev m' q = prev m q /\ next_free m' q = next_free m q /\ prev_free m' q = prev_free m q.

Definition frame (m m' : memory) (heap : Z) (bs : list block) : Prop :=
  forall q, q <> head heap -> ~ region bs q -> same_at m m' q.

Lemma region_app l1 l2 q : region (l1 ++ l2) q <-> region l1 q \/ region l2 q.
Proof. apply Exists_app. Qed.

Lemma region_cons b l q : region (b :: l) q <-> b_addr b <= q < b_end b \/ region l q.
Proof. apply Exists_cons. Qed.

Lemma region_nil q : region [] q <-> False.
Proof. apply Exists_nil. Qed.

Lemma set_attrs_same m p v q : q <> p -> same_at m (set_attrs m p v) q.
Proof. intros H; unfold same_at; cbn; rewrite fn_lookup_insert_ne by congruence; auto 10. Qed.

Lemma frame_refl m heap bs : frame m m heap bs.
Proof. unfold frame, same_at; auto 10. Qed.

Lemma frame_trans m1 m2 m3 heap bs bs' : frame m1 m2 heap bs -> frame m2 m3 heap bs' ->
  (forall q, region bs' q -> region bs q) -> frame m1 m3 heap bs.
Proof.
  intros H1 H2 H q Hq Hr; specialize (H1 q Hq Hr); specialize (H2 q Hq (fun h => Hr (H q h))).
  unfold same_at in *; intuition congruence.
Qed.

Lemma frame_fresh m heap bs q : blocks_at m heap bs -> q <> head heap -> ~ region bs q ->
  q ∉ head heap :: addrs bs.
Proof.
  intros R Hq Hr; rewrite elem_of_cons; intros [?|(b & -> & Hb)%list_elem_of_fmap]; auto.
  apply Hr; apply Exists_exists; exists b; split; auto.
  pose proof (r_ok _ _ _ R) as Ho; rewrite Forall_forall in Ho; apply Ho in Hb.
  unfold block_ok, b_end in *; lia.
Qed.

Lemma fl_addrs fl bs a : fl ≡ₚ free_addrs bs -> a ∈ fl -> a ∈ addrs bs.
Proof. intros ->; apply free_addrs_sub. Qed.

Lemma fl_fresh fl bs h q : fl ≡ₚ free_addrs bs -> q ∉ h :: addrs bs -> q ∉ h :: fl.
Proof.
  intros Hfl Hq; rewrite elem_of_cons; intros [->|H]; [apply Hq; left|].
  apply (fl_addrs _ _ _ Hfl) in H; apply Hq; now right.
Qed.

(** Blocks are told apart by their addresses. *)
Lemma addr_inj m heap l1 b l2 c : blocks_at m heap (l1 ++ b :: l2) ->
  c ∈ l1 ++ b :: l2 -> b_addr c = b_addr b -> c = b.
Proof.
  intros R Hc E; pose proof (addrs_nodup _ _ _ R) as [_ Hd]%NoDup_cons.
  rewrite addrs_app, addrs_cons in Hd; apply NoDup_app in Hd as (_ & Hd1 & [Hd2 _]%NoDup_cons).
  rewrite elem_of_app, elem_of_cons in Hc; destruct Hc as [Hc|[Hc|Hc]]; auto; exfalso.
  - apply (Hd1 (b_addr b)); [|left]; rewrite <- E; now apply list_elem_of_fmap_2.
  - apply Hd2; rewrite <- E; now apply list_elem_of_fmap_2.
Qed.

Lemma block_once m heap l1 b l2 : blocks_at m heap (l1 ++ b :: l2) -> b ∉ l1 ++ l2.
Proof.
  intros R Hb; pose proof (addrs_nodup _ _ _ R) as [_ Hd]%NoDup_cons.
  rewrite addrs_app, addrs_cons in Hd; apply NoDup_app in Hd as (_ & Hd1 & [Hd2 _]%NoDup_cons).
  apply elem_of_app in Hb as [Hb|Hb]; [apply (Hd1 (b_addr b)); [|left]|apply Hd2];
    now apply list_elem_of_fmap_2.
Qed.

(** ** The four changes of the block chain *)

Lemma block_at_ext m m' heap b :
  block_at m heap b -> attrs m' (b_addr b) = attrs m (b_addr b) ->
  tag m' (b_addr b) = tag m (b_addr b) -> block_at m' heap b.
Proof. unfold block_at; intros [H1 H2] -> ->; auto. Qed.

Lemma blocks_ext m m' heap l : Forall (block_at m heap) l ->
  (forall q, q ∈ addrs l -> attrs m' q = attrs m q /\ tag m' q = tag m q) ->
  Forall (block_at m' heap) l.
Proof.
  intros H He; rewrite Forall_forall in *; intros b Hb.
  destruct (He (b_addr b)); [now apply list_elem_of_fmap_2|].
  eapply block_at_ext; eauto.
Qed.

Lemma before_snoc h l x : before h (l ++ [x]) = x.
Proof. unfold before; apply last_last. Qed.

(** The block [b] is given another owner, or none. *)
Lemma retype_blocks m m' heap l1 b l2 o :
  blocks_at m heap (l1 ++ b :: l2) ->
  attrs m' (b_addr b) = mk_attrs (b_size b) heap (b_type (Block (b_addr b) (b_size b) o)) ->
  (forall t, o = Some t -> tag m' (b_addr b) = t) ->
  (forall q, q <> b_addr b -> attrs m' q = attrs m q /\ tag m' q = tag m q) ->
  next m' = next m -> prev m' = prev m ->
  blocks_at m' heap (l1 ++ Block (b_addr b) (b_size b) o :: l2).
Proof.
  intros R Ha Ht He Hn Hp; pose proof (addrs_nodup _ _ _ R) as Hd; destruct R.
  rewrite addrs_app in *; simpl in *; change (b_addr <$> l2) with (addrs l2) in *.
  apply NoDup_cons in Hd as [Hh (_ & Hd1 & Hd2)%NoDup_app].
  apply NoDup_cons in Hd2 as [Hd2 _].
  apply Forall_app in r_ok0 as [? [? ?]%Forall_cons].
  apply Forall_app in r_blocks0 as [Hb1 [Hb Hb2]%Forall_cons].
  apply Forall_app in r_out0 as [? [? ?]%Forall_cons].
  constructor.
  - revert r_ordered0; rewrite !ordered_app; auto.
  - apply Forall_app; split; [auto|apply Forall_cons; auto].
  - apply Forall_app; split; [|apply Forall_cons; split].
    + apply (blocks_ext m); auto; intros q Hq; apply He; intros ->; set_solver.
    + split; auto.
    + apply (blocks_ext m); auto; intros q Hq; apply He; intros ->; set_solver.
  - apply Forall_app; split; [auto|apply Forall_cons; auto].
  - rewrite (proj1 (He _ ltac:(intros E; apply Hh; rewrite E; set_solver))); auto.
  - rewrite Hn, Hp, addrs_app; exact r_all0.
Qed.

(** Some consecutive blocks are replaced by others. *)
Lemma splice_blocks m m' heap l1 mid mid' l2 :
  blocks_at m heap (l1 ++ mid ++ l2) ->
  ordered bottom (l1 ++ mid' ++ l2) top -> Forall block_ok mid' -> Forall (block_at m' heap) mid' ->
  Forall (outside (head heap)) mid' ->
  (forall q, q ∈ head heap :: addrs (l1 ++ l2) -> attrs m' q = attrs m q /\ tag m' q = tag m q) ->
  chain (next m') (prev m') (head heap) (addrs (l1 ++ mid' ++ l2)) (head heap) ->
  blocks_at m' heap (l1 ++ mid' ++ l2).
Proof.
  intros R Hord Hok Hat Hout He Hc; destruct R; rewrite !Forall_app in *.
  destruct r_ok0 as (? & ? & ?), r_blocks0 as (? & ? & ?), r_out0 as (? & ? & ?).
  rewrite addrs_app in He.
  constructor; rewrite ?Forall_app; auto.
  - repeat split; auto; apply (blocks_ext m); auto; intros q Hq; apply He; set_solver.
  - rewrite (proj1 (He (head heap) ltac:(left))); auto.
Qed.

(** Two contiguous blocks become one, which belongs to the owner of the first. *)
Lemma merge_blocks m m' heap l1 b c l2 :
  blocks_at m heap (l1 ++ b :: c :: l2) -> b_end b = b_addr c ->
  attrs m' (b_addr b) = mk_attrs (b_size b + b_size c) heap (b_type b) ->
  (forall q, q <> b_addr b -> attrs m' q = attrs m q) -> tag m' = tag m ->
  next m' = <[b_addr b := after (addrs l2) (head heap)]> (next m) ->
  prev m' = <[after (addrs l2) (head heap) := b_addr b]> (prev m) ->
  blocks_at m' heap (l1 ++ Block (b_addr b) (b_size b + b_size c) (b_owner b) :: l2).
Proof.
  intros R Hadj Ha He Ht Hn Hp.
  apply (splice_blocks m m' heap l1 [b; c] [_] l2); auto.
  - apply r_ordered in R; simpl; revert R; rewrite !ordered_app; unfold b_end in *; simpl.
    unfold b_end; intros (? & ? & ?); split; auto. rewrite Hadj, Z.add_assoc in *; auto.
    replace (b_addr b + b_size b + b_size c) with (b_addr c + b_size c) by lia; auto.
  - apply r_ok in R; rewrite Forall_app, !Forall_cons in R; destruct R as (_ & H1 & H2 & _).
    rewrite Forall_singleton; unfold block_ok in *; simpl; split; [apply Z.divide_add_r; tauto|lia].
  - rewrite Forall_singleton; split; simpl; [exact Ha|]; intros t Ho; rewrite Ht.
    apply r_blocks in R; rewrite Forall_app, !Forall_cons in R.
    destruct R as (_ & [_ H1] & _); auto.
  - apply r_out in R; rewrite Forall_app, !Forall_cons in R; destruct R as (_ & H1 & H2 & _).
    rewrite Forall_singleton; unfold outside, b_end in *; simpl; lia.
  - intros q Hq; rewrite Ht; split; [apply He; intros ->|auto].
    pose proof (addrs_nodup _ _ _ R) as Hd; rewrite addrs_app in *; simpl in Hd.
    apply NoDup_cons in Hd as [Hh (_ & Hd1 & Hd2)%NoDup_app].
    apply NoDup_cons in Hd2 as [Hd2 _]; unfold addrs in *; set_solver.
  - pose proof (addrs_nodup _ _ _ R) as Hd; apply r_all in R.
    rewrite !addrs_app in *; simpl in *; change (b_addr <$> l2) with (addrs l2) in *.
    rewrite (cons_middle (b_addr b)), app_assoc in *.
    eapply ring_remove; [exact R|exact Hd| | | |]; rewrite ?before_snoc, ?Hn, ?Hp;
      intros; rewrite ?fn_lookup_insert, ?fn_lookup_insert_ne; auto.
Qed.

(** A block is cut in two. *)
Lemma split_blocks m m' heap l1 b l2 n o1 o2 :
  blocks_at m heap (l1 ++ b :: l2) -> (16 | n) -> 32 <= n -> n + 32 <= b_size b ->
  let y := b_addr b + n in
  let c1 := Block (b_addr b) n o1 in
  let c2 := Block y (b_size b - n) o2 in
  block_at m' heap c1 -> block_at m' heap c2 ->
  (forall q, q <> b_addr b -> q <> y -> attrs m' q = attrs m q /\ tag m' q = tag m q) ->
  next m' (b_addr b) = y -> next m' y = after (addrs l2) (head heap) ->
  prev m' y = b_addr b -> prev m' (after (addrs l2) (head heap)) = y ->
  (forall q, q <> b_addr b -> q <> y -> next m' q = next m q) ->
  (forall q, q <> y -> q <> after (addrs l2) (head heap) -> prev m' q = prev m q) ->
  blocks_at m' heap (l1 ++ c1 :: c2 :: l2).
Proof.
  intros R Hn Hn1 Hn2 y c1 c2 H1 H2 He En1 En2 Ep1 Ep2 Hnx Hpv.
  assert (Hy : y ∉ head heap :: addrs (l1 ++ b :: l2))
    by (apply (inside_fresh _ _ _ R l1 b l2); auto; unfold y, b_end; lia).
  pose proof (addrs_nodup _ _ _ R) as Hd; rewrite addrs_app in Hy, Hd; simpl in Hy, Hd.
  change (b_addr <$> l2) with (addrs l2) in *.
  apply (splice_blocks m m' heap l1 [b] [c1; c2] l2); auto.
  - apply r_ordered in R; simpl; revert R; rewrite !ordered_app; unfold b_end in *; simpl.
    unfold b_end, y; simpl; intros (? & ?); repeat split; auto; [lia|].
    now replace (y + (b_size b - n)) with (b_addr b + b_size b) by (unfold y; lia).
  - apply r_ok in R; rewrite Forall_app, !Forall_cons in R; destruct R as (_ & [H3 _] & _).
    rewrite !Forall_cons, Forall_nil; unfold block_ok; simpl; repeat split; auto;
      [apply Z.divide_sub_r; auto|lia].
  - apply r_out in R; rewrite Forall_app, !Forall_cons in R; destruct R as (_ & H3 & _).
    rewrite !Forall_cons, Forall_nil; unfold outside, b_end, y in *; simpl; lia.
  - intros q Hq; apply He; intros ->; rewrite addrs_app in Hq; [|set_solver].
    apply NoDup_cons in Hd as [Hh (_ & Hd1 & Hd2)%NoDup_app].
    apply NoDup_cons in Hd2 as [Hd2 _]; set_solver.
  - apply r_all in R; rewrite !addrs_app in *; simpl in *.
    change (b_addr <$> l2) with (addrs l2) in *.
    rewrite (cons_middle (b_addr b)), app_assoc in *.
    eapply ring_insert; [exact R|exact Hd|exact Hy| | | | | |]; rewrite ?before_snoc; auto;
      intros q Hq Hq'; [apply Hnx|apply Hpv]; auto; intros ->; set_solver.
Qed.

(** What the memory says of a block of the heap. *)
Lemma block_facts m heap l1 b l2 : 0 <= heap < 4 -> blocks_at m heap (l1 ++ b :: l2) ->
  bottom <= b_addr b /\ b_end b <= top /\ block_ok b /\ size_ok (b_size b) /\
  attrs m (b_addr b) = mk_attrs (b_size b) heap (b_type b) /\
  ARENA_SIZE_GET (attrs m (b_addr b)) = b_size b /\
  ARENA_HEAP_GET (attrs m (b_addr b)) = heap /\
  ARENA_TYPE_GET (attrs m (b_addr b)) = b_type b.
Proof.
  intros Hh R; destruct R.
  destruct (ordered_outside _ _ _ _ _ r_ordered0 r_ok0) as (H1 & H2 & _).
  apply Forall_app in r_ok0 as [_ [Hok _]%Forall_cons].
  apply Forall_app in r_blocks0 as [_ [[Hat _] _]%Forall_cons].
  assert (Hs : size_ok (b_size b)) by (destruct Hok; split; [auto|unfold b_end, bottom, top in *; lia]).
  assert (Ht : 0 <= b_type b < 4) by (unfold b_type; destruct (b_owner b); done).
  pose proof (attrs_get _ _ _ Hs Hh Ht); rewrite Hat; auto 10.
Qed.

Lemma type_ranges : 0 <= ARENA_TYPE_USED < 4 /\ 0 <= ARENA_TYPE_FREE < 4 /\ 0 <= ARENA_TYPE_HEAD < 4.
Proof. unfold ARENA_TYPE_USED, ARENA_TYPE_FREE, ARENA_TYPE_HEAD; lia. Qed.

Lemma b_type_range b : 0 <= b_type b < 4.
Proof. pose proof type_ranges; unfold b_type; destruct (b_owner b); tauto. Qed.

Hint Resolve b_type_range : core.
Hint Extern 1 (0 <= ARENA_TYPE_USED < 4) => apply type_ranges : core.
Hint Extern 1 (0 <= ARENA_TYPE_FREE < 4) => apply type_ranges : core.
Hint Extern 1 (0 <= ARENA_TYPE_HEAD < 4) => apply type_ranges : core.

(** Reads back functional updates. *)
Ltac fsimp :=
  repeat match goal with
  | |- context [(<[?a := ?v]> ?f) ?a] => rewrite (fn_lookup_insert f a v)
  | |- context [(<[?a := ?v]> ?f) ?b] =>
      rewrite (fn_lookup_insert_ne f a b v) by first [congruence | assumption | lia]
  end.

(** Something that is on neither side of a gap is not next to it. *)
Lemma not_adjacent h l1 l2 (y : Z) : y ∉ h :: l1 ++ l2 -> y <> before h l1 /\ y <> after l2 h.
Proof.
  intros Hy; pose proof (before_in h l1); pose proof (after_in l2 h); split; intros ->; set_solver.
Qed.

Lemma ring_adjacent h l1 l2 (x : Z) : NoDup (h :: l1 ++ x :: l2) ->
  x <> before h l1 /\ x <> after l2 h.
Proof.
  intros Hd; apply not_adjacent; change (NoDup ((h :: l1) ++ x :: l2)) in Hd.
  rewrite <- Permutation_middle in Hd; now apply NoDup_cons in Hd as [? _].
Qed.

(** An address off a ring is none of the nodes around an element. *)
Lemma fresh_gap h l1 l2 (x q : Z) : q ∉ h :: l1 ++ x :: l2 ->
  q <> h /\ q <> x /\ q <> before h l1 /\ q <> after l2 h.
Proof.
  intros Hq; destruct (not_adjacent h l1 l2 q); [set_solver|]; repeat split; auto; set_solver.
Qed.

(** The header of a byte outside of the heap is none of those around a block,
    nor around an element of the free chain. *)
Lemma frame_gap m heap l1 b l2 f1 x f2 q : blocks_at m heap (l1 ++ b :: l2) ->
  f1 ++ x :: f2 ≡ₚ free_addrs (l1 ++ b :: l2) ->
  q <> head heap -> ~ region (l1 ++ b :: l2) q ->
  (q <> head heap /\ q <> b_addr b /\ q <> before (head heap) (addrs l1) /\
   q <> after (addrs l2) (head heap)) /\
  q <> x /\ q <> before (head heap) f1 /\ q <> after f2 (head heap).
Proof.
  intros R Hfl Hq Hr; pose proof (frame_fresh _ _ _ _ R Hq Hr) as H1.
  pose proof (fl_fresh _ _ _ _ Hfl H1) as H2; rewrite addrs_app, addrs_cons in H1.
  split; [now apply fresh_gap|now apply fresh_gap in H2 as (_ & ?)].
Qed.

Ltac mem_cbn :=
  cbn [b_addr b_size b_owner attrs tag next prev next_free prev_free
       set_attrs set_tag set_next set_prev set_next_free set_prev_free].

Lemma arena_round_spec size : 0 <= size -> size + 31 < 4294967296 ->
  (16 | arena_round size) /\ size + 16 <= arena_round size < size + 32.
Proof.
  intros H1 H2; unfold arena_round, sizeof_arena_header.
  rewrite u32_small by lia; replace (size + 2 * 16 - 1) with (16 * ((size + 31) / 16) + (size + 31) mod 16)
    by (Z.to_euclidean_division_equations; lia).
  change ARENA_SIZE_MASK with (16 * units + 0).
  rewrite land_16 by (Z.to_euclidean_division_equations; lia).
  rewrite land_units by (unfold units; Z.to_euclidean_division_equations; lia).
  rewrite Z.land_0_r; split; [exists ((size + 31) / 16); lia|Z.to_euclidean_division_equations; lia].
Qed.

(** The blocks an allocation of [need] bytes leaves in place of [b]. *)
Definition carve (b : block) (need tg : Z) : list block :=
  if need + 32 <=? b_size b
  then [Block (b_addr b) need (Some tg); Block (b_addr b + need) (b_size b - need) None]
  else [Block (b_addr b) (b_size b) (Some tg)].

(** Closes a frame goal once the updated headers are known to be others. *)
Ltac frame_tac := unfold same_at; mem_cbn; repeat split; fsimp; reflexivity.

Lemma carve_region b need tg q : 0 <= need <= b_size b ->
  region (carve b need tg) q <-> b_addr b <= q < b_end b.
Proof.
  intros Hn; unfold carve; destruct (_ <=? _); rewrite !region_cons; unfold region;
    rewrite Exists_nil; unfold b_end; simpl; lia.
Qed.

Lemma malloc_from_block_repr m heap l1 b l2 f1 f2 need tg :
  0 <= heap < 4 -> repr0 m heap (l1 ++ b :: l2) (f1 ++ b_addr b :: f2) ->
  b_owner b = None -> (16 | need) -> 32 <= need <= b_size b ->
  exists m' fl', malloc_from_block m (b_addr b) need tg = (b_addr b + 16, m') /\
    repr0 m' heap (l1 ++ carve b need tg ++ l2) fl' /\ frame m m' heap (l1 ++ b :: l2).
Proof.
  intros Hh [RA Hf Hfl] Ho Hn16 Hn; pose proof RA as R.
  destruct (block_facts _ _ _ _ _ Hh R) as (Hb1 & Hb2 & [Hb3 Hb3'] & Hb4 & Hb5 & Hb6 & Hb7 & Hb8).
  pose proof (fl_nodup _ _ _ R _ Hfl) as Hfd.
  pose proof (r_all _ _ _ R) as Hc; rewrite addrs_app in Hc; simpl in Hc.
  apply chain_at in Hc as (_ & Hc & _); change (b_addr <$> l2) with (addrs l2) in Hc.
  pose proof (chain_at _ _ _ _ _ _ _ Hf) as (Hf1 & Hf2 & _).
  unfold bottom in Hb1; unfold b_end, top in Hb2.
  unfold malloc_from_block, carve; rewrite Hb6, Hb7, Hb5.
  unfold sizeof_arena_header; rewrite !(u32_small (need + _)), !(u32_small (b_addr b + _)),
    (u32_small (b_size b - need)) by lia.
  change (2 * 16) with 32; destruct (Z.leb_spec (need + 32) (b_size b)).
  - set (y := b_addr b + need).
    assert (Hy : y ∉ head heap :: addrs (l1 ++ b :: l2))
      by (apply (inside_fresh _ _ _ R l1 b l2); auto; unfold y, b_end; lia).
    assert (Hyf : y ∉ head heap :: f1 ++ b_addr b :: f2).
    { intros [->|Hi]%elem_of_cons; [set_solver|]. apply (fl_addrs _ _ _ Hfl) in Hi; set_solver. }
    assert (Hyb : y <> b_addr b) by (unfold y; lia).
    destruct (not_adjacent (head heap) (addrs l1 ++ [b_addr b]) (addrs l2) y) as [_ Hya];
      [rewrite addrs_app, addrs_cons in Hy; set_solver|].
    destruct (not_adjacent (head heap) f1 f2 y) as [Hyf1 Hyf2]; [set_solver|].
    assert (Hsn : size_ok need) by (split; [auto|lia]).
    assert (Hsr : size_ok (b_size b - need)) by (split; [apply Z.divide_sub_r; auto|lia]).
    eexists _, (f1 ++ y :: f2); split; [reflexivity|]; split; [split|].
    + apply (split_blocks m _ heap l1 b l2 need (Some tg) None R); auto; try lia;
        fold y; mem_cbn.
      1: split; mem_cbn; [|intros t [= <-]; fsimp; auto].
      1: simpl b_addr; fsimp; rewrite Hb5, attrs_set_type, attrs_set_size; auto; apply Hb4.
      1: split; mem_cbn; [|discriminate]; simpl b_addr; fsimp; apply attrs_fresh; auto.
      all: rewrite ?Hc; intros; fsimp; auto.
    + mem_cbn; destruct (ring_adjacent _ _ _ _ Hfd) as [Hne1 Hne2].
      assert (Hq : forall q, q ∈ head heap :: f1 ++ f2 -> q <> y) by (intros ? ? ->; set_solver).
      fsimp; rewrite Hf2, Hf1; fsimp.
      eapply ring_replace; [exact Hf|exact Hfd|exact Hyf|..]; fsimp; auto;
        intros q Hin Hqn; apply Hq in Hin; fsimp; auto.
    + rewrite <- Permutation_middle, (fl_perm _ _ _ _ _ _ Hfl Ho eq_refl).
      change (l1 ++ [?x; ?y] ++ l2) with (l1 ++ x :: y :: l2).
      rewrite !free_addrs_app, !free_addrs_cons; mem_cbn; apply Permutation_middle.
    + intros q Hq Hr; destruct (frame_gap _ _ _ _ _ _ _ _ _ RA Hfl Hq Hr) as [(? & ? & ? & ?) (? & ? & ?)].
      assert (q <> y).
      { intros ->; apply Hr; rewrite region_app, region_cons; right; left; unfold y, b_end; lia. }
      destruct (ring_adjacent _ _ _ _ Hfd) as [Hne1 Hne2]; mem_cbn; fsimp.
      rewrite Hc, Hf2; fsimp; rewrite Hf1; frame_tac.
  - eexists _, (f1 ++ f2); split; [reflexivity|]; split; [split|].
    + apply (retype_blocks m _ heap l1 b l2 (Some tg) R); mem_cbn; fsimp; auto.
      * rewrite attrs_set_type; auto.
      * intros t [= <-]; fsimp; auto.
      * intros; fsimp; auto.
    + mem_cbn; destruct (ring_adjacent _ _ _ _ Hfd) as [Hne1 Hne2].
      rewrite Hf2; fsimp; rewrite Hf1.
      eapply ring_remove; [exact Hf|exact Hfd|..]; intros; fsimp; auto.
    + rewrite (fl_perm _ _ _ _ _ _ Hfl Ho eq_refl).
      change (l1 ++ [?x] ++ l2) with (l1 ++ x :: l2).
      now rewrite !free_addrs_app, !free_addrs_cons.
    + intros q Hq Hr; destruct (frame_gap _ _ _ _ _ _ _ _ _ RA Hfl Hq Hr) as [(? & ? & ? & ?) (? & ? & ?)].
      destruct (ring_adjacent _ _ _ _ Hfd) as [Hne1 Hne2]; mem_cbn; fsimp.
      rewrite Hf2; fsimp; rewrite Hf1; frame_tac.
Qed.

(** ** Coalescing *)

Lemma coalesced_app l1 b l2 :
  coalesced (l1 ++ b :: l2) <-> coalesced (l1 ++ [b]) /\ coalesced (b :: l2).
Proof.
  induction l1 as [|c [|d l1] IH]; [simpl; tauto|simpl; tauto|].
  change ((c :: d :: l1) ++ b :: l2) with (c :: d :: (l1 ++ b :: l2)).
  change ((c :: d :: l1) ++ [b]) with (c :: d :: (l1 ++ [b])).
  cbn [app] in IH; cbn [coalesced] in *; tauto.
Qed.

(** What follows a block only sees its end, what precedes it its address. *)
Lemma coalesced_head b c l2 : coalesced (b :: l2) ->
  (b_owner c = None -> b_owner b = None /\ b_end b = b_end c) -> coalesced (c :: l2).
Proof.
  destruct l2 as [|d l2]; auto; cbn [coalesced]; intros [H1 H2] H; split; auto.
  intros (Hc & Hd & He); destruct (H Hc) as [Hb Hbe]; apply H1; rewrite Hbe; auto.
Qed.

Lemma coalesced_last l1 b c : coalesced (l1 ++ [b]) ->
  (b_owner c = None -> b_owner b = None /\ b_addr b = b_addr c) -> coalesced (l1 ++ [c]).
Proof.
  intros H Hc; induction l1 as [|d [|e l1] IH]; auto.
  - simpl in *; destruct H as [H _]; split; auto; intros (H1 & H2 & H3).
    destruct (Hc H2) as [Hb Ha]; apply H; rewrite Ha; auto.
  - destruct H as [H1 H2]; split; [exact H1|exact (IH H2)].
Qed.

Lemma coalesced_carve l1 b l2 need tg : coalesced (l1 ++ b :: l2) -> b_owner b = None ->
  coalesced (l1 ++ carve b need tg ++ l2).
Proof.
  intros [H1 H2]%coalesced_app Ho; unfold carve; destruct (_ <=? _);
    cbn [app]; apply coalesced_app; split.
  - apply (coalesced_last _ b); auto; discriminate.
  - cbn [coalesced]; split; [intros (? & _); discriminate|].
    apply (coalesced_head b); auto; intros _; unfold b_end; simpl; split; auto; lia.
  - apply (coalesced_last _ b); auto; discriminate.
  - apply (coalesced_head b); auto; discriminate.
Qed.

(** ** Allocation *)

Lemma malloc_loop_spec m heap bs need tg : 0 <= heap < 4 -> forall f2 f1 fuel,
  repr0 m heap bs (f1 ++ f2) -> (length f2 < fuel)%nat ->
  (exists l1 b l2 g g', bs = l1 ++ b :: l2 /\ f2 = g ++ b_addr b :: g' /\ b_owner b = None /\
     need <= b_size b /\
     malloc_loop fuel m (head heap) (after f2 (head heap)) need tg =
       Some (malloc_from_block m (b_addr b) need tg)) \/
  (malloc_loop fuel m (head heap) (after f2 (head heap)) need tg = Some (0, m) /\
   forall b, b ∈ bs -> b_owner b = None -> b_addr b ∈ f2 -> b_size b < need).
Proof.
  intros Hh; induction f2 as [|a f2 IH]; intros f1 [|fuel] R Hf; try (simpl in Hf; lia);
    cbn [malloc_loop].
  - change (after [] (head heap)) with (head heap); right; rewrite Z.eqb_refl; split; [auto|intros; set_solver].
  - change (after (a :: f2) (head heap)) with a.
    destruct R as [RA Rf Rp]; pose proof (fl_nodup _ _ _ RA _ Rp) as Hd.
    assert (Ha : a <> head heap) by (intros ->; apply NoDup_cons in Hd; set_solver).
    assert (Hin : a ∈ free_addrs bs) by (rewrite <- Rp; set_solver).
    apply free_addrs_in in Hin as (l1 & b & l2 & E & Hb & Ho).
    pose proof RA as RA'; rewrite E in RA'.
    destruct (block_facts _ _ _ _ _ Hh RA') as (_ & _ & _ & _ & _ & Hs & _ & _).
    rewrite Hb in Hs; rewrite (proj2 (Z.eqb_neq _ _) Ha), Hs.
    destruct (Z.leb_spec need (b_size b)).
    + left; exists l1, b, l2, [], f2; rewrite <- Hb; auto.
    + pose proof (chain_at _ _ _ _ _ _ _ Rf) as (_ & -> & _).
      destruct (IH (f1 ++ [a]) fuel) as [(k1 & c & k2 & g & g' & H1 & H2 & H3 & H4 & H5)|[H1 H2]].
      * constructor; rewrite <- ?app_assoc; auto.
      * simpl in Hf; lia.
      * left; exists k1, c, k2, (a :: g), g'; repeat split; auto; now rewrite H2.
      * right; split; auto; intros c Hc Hco [Hca|Hca]%elem_of_cons; auto.
        rewrite (addr_inj _ _ _ _ _ c RA') by congruence; lia.
Qed.

(** What an allocation does to the blocks, and that it does nothing else. *)
Lemma malloc_spec fuel m heap bs fl size tg :
  0 <= heap < 4 -> repr m heap bs fl -> 0 < size -> size + 31 < 4294967296 ->
  (length fl < fuel)%nat ->
  exists p m' bs' fl', bios_malloc fuel m size heap tg = Some (p, m') /\ repr m' heap bs' fl' /\
    frame m m' heap bs /\ (forall q, region bs' q <-> region bs q) /\
    ((p = 0 /\ m' = m /\ bs' = bs /\
      forall b, b ∈ bs -> b_owner b = None -> b_size b < arena_round size) \/
     exists l1 b l2, bs = l1 ++ b :: l2 /\ b_owner b = None /\ arena_round size <= b_size b /\
       p = b_addr b + 16 /\ bs' = l1 ++ carve b (arena_round size) tg ++ l2).
Proof.
  intros Hh [R Hco] Hs1 Hs2 Hf; destruct (arena_round_spec size) as [Hr1 Hr2]; [lia|lia|].
  unfold bios_malloc; rewrite (proj2 (Z.eqb_neq size 0)) by lia.
  pose proof (r_free _ _ _ _ R) as Hfr; apply chain_first in Hfr as [-> _].
  destruct (malloc_loop_spec m heap bs (arena_round size) tg Hh fl [] fuel R Hf)
    as [(l1 & b & l2 & g & g' & -> & -> & Ho & Hn & ->)|[-> Hno]].
  - assert (Hn' : 32 <= arena_round size <= b_size b) by (destruct Hr1; lia).
    destruct (malloc_from_block_repr m heap l1 b l2 g g' _ tg Hh R Ho Hr1 Hn') as (m' & fl' & -> & R' & Hfr).
    eexists _, m', _, fl'; split; [reflexivity|]; split; [split; [exact R'|]|].
    { now apply coalesced_carve. }
    split; [exact Hfr|split]; [|right; now exists l1, b, l2].
    intros q; rewrite !region_app, carve_region, region_cons by lia; tauto.
  - exists 0, m, bs, fl; split; [auto|]; split; [split; auto|].
    split; [apply frame_refl|split; [tauto|]]; left; repeat split; auto; intros b Hb Hbo; apply Hno; auto.
    rewrite (r_fl _ _ _ _ R); unfold free_addrs; apply list_elem_of_fmap_2.
    now apply list_elem_of_filter.
Qed.

(** A request so large that adding the header wraps is granted from the
    first free block, whatever its size. *)
Theorem bios_malloc_wraps fuel m heap bs a fl size tg :
  0 <= heap < 4 -> repr m heap bs (a :: fl) ->
  4294967265 <= size < 4294967296 -> (0 < fuel)%nat ->
  exists m', bios_malloc fuel m size heap tg = Some (a + 16, m').
Proof.
  intros Hh [[RA Rf Rp] _] Hs Hf; pose proof (fl_nodup _ _ _ RA _ Rp) as Hd.
  assert (Ha : a <> head heap) by (intros ->; apply NoDup_cons in Hd; set_solver).
  assert (Hin : a ∈ free_addrs bs) by (rewrite <- Rp; set_solver).
  apply free_addrs_in in Hin as (l1 & b & l2 & E & Hb & Ho); subst bs.
  destruct (block_facts _ _ _ _ _ Hh RA) as (Hb1 & Hb2 & [Hb3 Hb4] & _ & _ & Hsz & _ & _).
  apply chain_first in Rf as [Rf _]; simpl in Rf.
  unfold bios_malloc; rewrite (proj2 (Z.eqb_neq size 0)), Rf by lia.
  destruct fuel as [|fuel]; [lia|]; cbn [malloc_loop].
  rewrite (proj2 (Z.eqb_neq _ _) Ha), <- Hb, Hsz.
  assert (Hr : arena_round size <= 16).
  { unfold arena_round, sizeof_arena_header.
    replace (u32 (size + 2 * 16 - 1)) with (size + 31 - 4294967296) by ulia.
    assert (He : forall k : nat, (k < 32)%nat -> Z.land (Z.of_nat k) ARENA_SIZE_MASK <= 16).
    { intros k Hk; do 32 (destruct k as [|k]; [vm_compute; discriminate|]); lia. }
    specialize (He (Z.to_nat (size + 31 - 4294967296))); rewrite Z2Nat.id in He by lia.
    apply He; lia. }
  rewrite (proj2 (Z.leb_le _ _)) by lia; unfold malloc_from_block.
  eexists; do 2 f_equal; unfold sizeof_arena_header, bottom, b_end, top in *.
  rewrite u32_small; lia.
Qed.

(** ** Release *)

Definition is_free (b : block) : bool := bool_decide (b_owner b = None).

(** [b] absorbs its successor when that is free and contiguous. *)
Definition join_next (b : block) (l2 : list block) : list block :=
  match l2 with
  | c :: l2' =>
      if is_free c && (b_end b =? b_addr c)
      then Block (b_addr b) (b_size b + b_size c) (b_owner b) :: l2'
      else b :: l2
  | [] => [b]
  end.

(** [b] becomes free and joins a free and contiguous predecessor: the blocks
    before it and itself. *)
Definition absorb (l1 : list block) (b : block) : list block * block :=
  match last l1 with
  | Some c =>
      if is_free c && (b_end c =? b_addr b)
      then (removelast l1, Block (b_addr c) (b_size c + b_size b) None)
      else (l1, Block (b_addr b) (b_size b) None)
  | None => (l1, Block (b_addr b) (b_size b) None)
  end.

(** The blocks once [b], between [l1] and [l2], is released. *)
Definition release (l1 : list block) (b : block) (l2 : list block) : list block :=
  (absorb l1 b).1 ++ join_next (absorb l1 b).2 l2.

(** The type word tells the free blocks apart, the head included. *)
Lemma type_free_spec m heap l1 c l2 : 0 <= heap < 4 -> blocks_at m heap (l1 ++ c :: l2) ->
  (ARENA_TYPE_GET (attrs m (b_addr c)) =? ARENA_TYPE_FREE) = is_free c.
Proof.
  intros Hh R; destruct (block_facts _ _ _ _ _ Hh R) as (_ & _ & _ & _ & _ & _ & _ & ->).
  unfold b_type, is_free; destruct (b_owner c); reflexivity.
Qed.

Lemma type_free_head m heap bs : 0 <= heap < 4 -> blocks_at m heap bs ->
  (ARENA_TYPE_GET (attrs m (head heap)) =? ARENA_TYPE_FREE) = false.
Proof.
  intros Hh R; rewrite (r_head _ _ _ R).
  assert (Hs : size_ok 0) by (split; [apply Z.divide_0_r|lia]).
  now destruct (attrs_get 0 heap ARENA_TYPE_HEAD Hs Hh ltac:(auto)) as (_ & _ & ->).
Qed.

Lemma merge_next_repr m heap l1 b l2 fl : 0 <= heap < 4 -> repr0 m heap (l1 ++ b :: l2) fl ->
  exists fl', repr0 (merge_next m (b_addr b) (after (addrs l2) (head heap))) heap
                (l1 ++ join_next b l2) fl' /\
    frame m (merge_next m (b_addr b) (after (addrs l2) (head heap))) heap (l1 ++ b :: l2).
Proof.
  intros Hh R; pose proof R as [RA Rf Rp].
  destruct (block_facts _ _ _ _ _ Hh RA) as (Hb1 & Hb2 & [Hb3 Hb4] & _ & Hb5 & Hb6 & _ & _).
  unfold merge_next; rewrite Hb6; destruct l2 as [|c l2]; simpl after.
  { rewrite (type_free_head _ _ _ Hh RA); exists fl; auto using frame_refl. }
  assert (RC := RA); rewrite (cons_middle b), app_assoc in RC.
  destruct (block_facts _ _ _ _ _ Hh RC) as (Hc1 & Hc2 & [Hc3 Hc4] & _ & Hc5 & Hc6 & _ & _).
  rewrite (type_free_spec _ _ _ _ _ Hh RC), Hc6, Hb5; cbn [join_next].
  unfold b_end, top, bottom in *; rewrite u32_small by lia.
  destruct (is_free c && (b_addr b + b_size b =? b_addr c)) eqn:E; [|exists fl; auto using frame_refl].
  unfold is_free in E; bools.
  assert (Hin : b_addr c ∈ fl).
  { rewrite Rp, free_addrs_app, elem_of_app; right; rewrite !free_addrs_cons, H.
    destruct (b_owner b); set_solver. }
  apply list_elem_of_split in Hin as (f1 & f2 & ->).
  pose proof (fl_nodup _ _ _ RA _ Rp) as Hfd.
  pose proof (chain_at _ _ _ _ _ _ _ Rf) as (Hf1 & Hf2 & _).
  destruct (ring_adjacent _ _ _ _ Hfd) as [Hne1 Hne2].
  pose proof (r_all _ _ _ RC) as Hc; rewrite addrs_app, addrs_cons in Hc.
  apply chain_at in Hc as (_ & Hc & _); pose proof (addrs_nodup _ _ _ RC) as Hcd.
  rewrite addrs_app, addrs_cons in Hcd; destruct (ring_adjacent _ _ _ _ Hcd) as [Hme1 Hme2].
  exists (f1 ++ f2); mem_cbn; fsimp; rewrite Hf1, Hf2, Hc; fsimp; rewrite ?Hf1, ?Hf2, ?Hc.
  split; [split|].
  - apply (merge_blocks m _ heap l1 b c l2 RA); mem_cbn; auto; try (intros; fsimp; auto; fail).
    fsimp; rewrite u32_small by lia; apply attrs_set_size; auto.
    split; [apply Z.divide_add_r; auto|lia].
  - mem_cbn; eapply ring_remove; [exact Rf|exact Hfd|..]; intros; fsimp; auto.
  - rewrite (cons_middle b), app_assoc in Rp; rewrite (fl_perm _ _ _ _ _ _ Rp H eq_refl).
    rewrite <- app_assoc, !free_addrs_app, !free_addrs_cons; mem_cbn.
    destruct (b_owner b); reflexivity.
  - intros q Hq Hr; rewrite (cons_middle b), app_assoc in Hr, Rp.
    destruct (frame_gap _ _ _ _ _ _ _ _ _ RC Rp Hq Hr) as [(? & ? & ? & ?) (? & ? & ?)].
    assert (q <> b_addr b).
    { intros ->; apply Hr; rewrite !region_app, region_cons; left; right; left.
      unfold b_end; lia. }
    frame_tac.
Qed.

(** A used block becomes free and enters the free chain at its head. *)
Lemma mark_free_repr m0 heap l1 b l2 fl t : 0 <= heap < 4 ->
  repr0 m0 heap (l1 ++ b :: l2) fl -> b_owner b = Some t ->
  let ah := b_addr b in
  let hd := head heap in
  let m := set_attrs m0 ah (ARENA_TYPE_SET (attrs m0 ah) ARENA_TYPE_FREE) in
  let m := set_tag m ah MALLOC_FREE in
  let m := set_next_free m ah (next_free m hd) in
  let m := set_prev_free m ah hd in
  let m := set_next_free m hd ah in
  let m' := set_prev_free m (next_free m ah) ah in
  repr0 m' heap (l1 ++ Block (b_addr b) (b_size b) None :: l2) (ah :: fl) /\
  frame m0 m' heap (l1 ++ b :: l2).
Proof.
  intros Hh [RA Rf Rp] Ho; cbv zeta.
  destruct (block_facts _ _ _ _ _ Hh RA) as (Hb1 & Hb2 & [Hb3 Hb4] & Hb5 & Hb6 & _).
  pose proof (fl_nodup _ _ _ RA _ Rp) as Hfd; pose proof (addrs_nodup _ _ _ RA) as Hd.
  rewrite addrs_app, addrs_cons in Hd.
  assert (Hh' : (b_addr b) <> (head heap)) by (intros E; apply NoDup_cons in Hd; rewrite E in Hd; set_solver).
  assert (Hnf : (b_addr b) ∉ (head heap) :: fl).
  { rewrite elem_of_cons, Rp, free_addrs_app, free_addrs_cons, Ho, elem_of_app.
    apply NoDup_cons in Hd as [_ (_ & Hd1 & [Hd2 _]%NoDup_cons)%NoDup_app].
    intros [?|[H|H]]; [auto| |]; apply free_addrs_sub in H; [|auto].
    apply (Hd1 _ H); left. }
  destruct (not_adjacent (head heap) [] fl (b_addr b) Hnf) as [_ Hna].
  pose proof (proj1 (chain_first _ _ _ _ _ Rf)) as Hf1.
  mem_cbn; fsimp; rewrite Hf1; split; [split|].
  - apply (retype_blocks m0 _ heap l1 b l2 None RA); mem_cbn; auto.
    + fsimp; rewrite Hb6, attrs_set_type; auto.
    + discriminate.
    + intros; fsimp; auto.
  - mem_cbn; apply (ring_insert (next_free m0) (prev_free m0) _ _ (head heap) [] fl (b_addr b)); auto;
      change (before (head heap) []) with (head heap); intros; fsimp; auto.
    + assert (q <> (b_addr b)) by (intros ->; auto); fsimp; auto.
    + assert (q <> (b_addr b)) by (intros ->; auto); fsimp; auto.
  - rewrite Rp, !free_addrs_app, !free_addrs_cons, Ho; apply Permutation_middle.
  - intros q Hq Hr; pose proof (frame_fresh _ _ _ _ RA Hq Hr) as H1.
    pose proof (fl_fresh _ _ _ _ Rp H1) as H2; rewrite addrs_app, addrs_cons in H1.
    apply fresh_gap in H1 as (? & ? & _); destruct (not_adjacent (head heap) [] fl q H2) as [_ ?].
    frame_tac.
Qed.

(** A used block is absorbed by its free predecessor. *)
Lemma merge_prev_repr m0 heap l1 c b l2 fl t : 0 <= heap < 4 ->
  repr0 m0 heap (l1 ++ c :: b :: l2) fl -> b_owner b = Some t -> b_owner c = None ->
  b_end c = b_addr b ->
  let pah := b_addr c in
  let nah := after (addrs l2) (head heap) in
  let m := set_attrs m0 pah (ARENA_SIZE_SET (attrs m0 pah)
             (u32 (ARENA_SIZE_GET (attrs m0 pah) + ARENA_SIZE_GET (attrs m0 (b_addr b))))) in
  let m := set_next m pah nah in
  let m' := set_prev m nah pah in
  repr0 m' heap (l1 ++ Block (b_addr c) (b_size c + b_size b) None :: l2) fl /\
  frame m0 m' heap (l1 ++ c :: b :: l2).
Proof.
  intros Hh [RA Rf Rp] Ho Hc Hadj; cbv zeta.
  destruct (block_facts _ _ _ _ _ Hh RA) as (Hc1 & Hc2 & [Hc3 Hc4] & _ & Hc5 & Hc6 & _).
  assert (RB := RA); rewrite (cons_middle c), app_assoc in RB.
  destruct (block_facts _ _ _ _ _ Hh RB) as (Hb1 & Hb2 & [Hb3 Hb4] & _ & _ & Hb6 & _).
  rewrite Hb6, Hc6, Hc5; unfold b_end, top, bottom in *.
  mem_cbn; split; [split; mem_cbn; auto|].
  - rewrite <- Hc; apply (merge_blocks m0 _ heap l1 c b l2 RA); mem_cbn; auto;
      try (intros; fsimp; auto; fail).
    fsimp; rewrite u32_small by lia; apply attrs_set_size; auto.
    split; [apply Z.divide_add_r; auto|lia].
  - rewrite Rp, !free_addrs_app, !free_addrs_cons, Hc, Ho; reflexivity.
  - intros q Hq Hr; rewrite (cons_middle c), app_assoc in Hr.
    pose proof (frame_fresh _ _ _ _ RB Hq Hr) as H1; rewrite addrs_app, addrs_cons in H1.
    apply fresh_gap in H1 as (? & ? & ? & ?).
    assert (q <> b_addr c).
    { intros ->; apply Hr; rewrite !region_app, region_cons; left; right; left.
      unfold b_end; lia. }
    frame_tac.
Qed.

Lemma join_next_head b l2 : exists a k2, join_next b l2 = a :: k2 /\
  b_addr a = b_addr b /\ b_owner a = b_owner b /\
  (b_end a = b_end b /\ k2 = l2 \/ exists c, l2 = c :: k2 /\ b_owner c = None /\
     b_end b = b_addr c /\ b_end a = b_addr c + b_size c).
Proof.
  destruct l2 as [|c l2]; cbn [join_next]; [exists b, []; auto 10|].
  destruct (is_free c && (b_end b =? b_addr c)) eqn:E; [|exists b, (c :: l2); auto 10].
  unfold is_free in E; bools; eexists _, l2; split; [reflexivity|]; repeat split; auto.
  right; exists c; repeat split; auto; unfold b_end in *; simpl; lia.
Qed.

Lemma free_block_repr m heap l1 b l2 fl t : 0 <= heap < 4 ->
  repr0 m heap (l1 ++ b :: l2) fl -> b_owner b = Some t ->
  exists m' fl', free_block m (b_addr b) = (b_addr (absorb l1 b).2, m') /\
    repr0 m' heap (release l1 b l2) fl' /\ frame m m' heap (l1 ++ b :: l2).
Proof.
  intros Hh R Ho; pose proof R as [RA _ _].
  destruct (block_facts _ _ _ _ _ Hh RA) as (Hb1 & Hb2 & [Hb3 Hb4] & _ & _ & Hb6 & Hb7 & _).
  pose proof (r_all _ _ _ RA) as Hc; rewrite addrs_app, addrs_cons in Hc.
  apply chain_at in Hc as (Hp & Hn & _).
  destruct (mark_free_repr _ _ l1 _ _ _ _ Hh R Ho) as [RM FM]; cbv zeta in RM, FM.
  destruct (merge_next_repr _ heap l1 _ l2 _ Hh RM) as (flm & RM' & FM').
  assert (Hreg : forall q, region (l1 ++ Block (b_addr b) (b_size b) None :: l2) q ->
    region (l1 ++ b :: l2) q) by (intros q; rewrite !region_app, !region_cons; auto).
  unfold free_block; rewrite Hb7, Hp, Hn; unfold release, absorb.
  destruct l1 as [|c l1 _] using rev_ind; [|rewrite last_snoc].
  - change (before (head heap) (addrs [])) with (head heap).
    rewrite (type_free_head _ _ _ Hh RA); cbn [andb].
    eexists _, flm; split; [reflexivity|split; [exact RM'|eapply frame_trans; eauto]].
  - rewrite addrs_app, addrs_cons; change (addrs []) with (@nil Z); rewrite before_snoc.
    rewrite <- app_assoc in R; cbn [app] in R; pose proof R as [RC _ _].
    destruct (block_facts _ _ _ _ _ Hh RC) as (Hc1 & Hc2 & [Hc3 Hc4] & _ & _ & Hc6 & _ & _).
    rewrite (type_free_spec _ _ _ _ _ Hh RC), Hc6; unfold bottom, top, b_end in *.
    rewrite u32_small by lia.
    destruct (is_free c && (b_addr c + b_size c =? b_addr b)) eqn:E.
    + unfold is_free in E; bools; rewrite removelast_last.
      destruct (merge_prev_repr _ _ _ _ _ _ _ _ Hh R Ho ltac:(assumption) ltac:(assumption)) as [R1 F1].
      cbv zeta in R1, F1; rewrite Hc6, Hb6 in R1, F1.
      destruct (merge_next_repr _ heap l1 _ l2 _ Hh R1) as (fl' & R' & F').
      eexists _, fl'; split; [rewrite Hb6; reflexivity|split; [exact R'|]].
      rewrite <- app_assoc; eapply frame_trans; [exact F1|exact F'|].
      intros q; rewrite !region_app, !region_cons; unfold b_end; simpl; intuition lia.
    + eexists _, flm; split; [reflexivity|split; [exact RM'|eapply frame_trans; eauto]].
Qed.

Lemma coalesced_join l1 b l2 : coalesced (l1 ++ [b]) -> coalesced l2 -> b_owner b = None ->
  coalesced (l1 ++ join_next b l2).
Proof.
  intros H1 H2 Ho; destruct l2 as [|c l2]; cbn [join_next]; auto.
  destruct (is_free c && (b_end b =? b_addr c)) eqn:E; unfold is_free in E.
  - bools; apply coalesced_app; split; [apply (coalesced_last _ b); auto|].
    apply (coalesced_head c); auto; unfold b_end in *; simpl; split; auto; lia.
  - apply coalesced_app; split; auto; cbn [coalesced]; split; auto.
    intros (_ & Hc & He); rewrite Hc, He, Z.eqb_refl in E; discriminate.
Qed.

Lemma coalesced_tail b l : coalesced (b :: l) -> coalesced l.
Proof. destruct l; simpl; tauto. Qed.

Lemma absorb_spec l1 b : exists k, l1 = (absorb l1 b).1 ++ k /\ b_owner (absorb l1 b).2 = None /\
  b_end (absorb l1 b).2 = b_end b /\
  (k = [] /\ b_addr (absorb l1 b).2 = b_addr b \/
   exists c, k = [c] /\ b_owner c = None /\ b_addr (absorb l1 b).2 = b_addr c /\ b_end c = b_addr b).
Proof.
  unfold absorb; destruct l1 as [|c l1 _] using rev_ind; [exists []; auto 10|rewrite last_snoc].
  destruct (_ && _) eqn:E; [|exists []; rewrite app_nil_r; auto 10].
  unfold is_free in E; bools; exists [c]; rewrite removelast_last; simpl.
  unfold b_end in *; simpl; split; [auto|split; [auto|split; [lia|]]]; right; now exists c.
Qed.

Lemma coalesced_absorb l1 b : coalesced l1 -> coalesced ((absorb l1 b).1 ++ [(absorb l1 b).2]).
Proof.
  unfold absorb; destruct l1 as [|c l1 _] using rev_ind; [done|rewrite last_snoc; intros H].
  destruct (_ && _) eqn:E; unfold is_free in E; bools; cbn [fst snd].
  - rewrite removelast_last; apply (coalesced_last _ c); auto.
  - rewrite <- app_assoc; apply coalesced_app; split; auto; simpl; tauto.
  - rewrite <- app_assoc; apply coalesced_app; split; auto; simpl; tauto.
Qed.

Lemma coalesced_release l1 b l2 : coalesced (l1 ++ b :: l2) -> coalesced (release l1 b l2).
Proof.
  intros [H1 H2]%coalesced_app; apply coalesced_tail in H2.
  assert (H1' : coalesced l1).
  { clear H2; induction l1 as [|c [|d l1] IH]; simpl; auto.
    destruct H1 as [H1 H3]; split; [exact H1|apply (IH H3)]. }
  destruct (absorb_spec l1 b) as (k & _ & Ho & _).
  apply coalesced_join; auto using coalesced_absorb.
Qed.

(** The blocks in use are those of before but the one released. *)
Lemma release_used l1 b l2 c t : b_owner c = Some t ->
  c ∈ release l1 b l2 <-> c ∈ l1 ++ l2.
Proof.
  intros Hc; unfold release; destruct (absorb_spec l1 b) as (k & E & Ho & _ & Hk).
  destruct (join_next_head (absorb l1 b).2 l2) as (a & k2 & -> & _ & Hao & Ha).
  rewrite E at 2; rewrite !elem_of_app, elem_of_cons.
  assert (Hca : c <> a) by congruence.
  assert (Hk' : c ∉ k) by (destruct Hk as [[-> _]|(d & -> & Hd & _)]; [set_solver|];
    intros ->%list_elem_of_singleton; congruence).
  destruct Ha as [[_ ->]|(d & -> & Hd & _)]; [tauto|rewrite elem_of_cons].
  assert (c <> d) by congruence; tauto.
Qed.

Lemma release_region l1 b l2 q : block_ok b -> Forall block_ok (l1 ++ l2) ->
  region (release l1 b l2) q <-> region (l1 ++ b :: l2) q.
Proof.
  intros Hb Hok; unfold release; destruct (absorb_spec l1 b) as (k & E & _ & He & Hk).
  destruct (join_next_head (absorb l1 b).2 l2) as (a & k2 & -> & Haa & _ & Ha).
  rewrite E in Hok; rewrite E at 2; rewrite !region_app, !region_cons, !Forall_app in *.
  unfold block_ok, b_end in *.
  destruct Hk as [[-> Hx]|(c & -> & _ & Hx & Hc)]; rewrite ?region_cons, ?region_nil;
    rewrite Haa, Hx in *; destruct Ha as [[Hy ->]|(d & -> & _ & Hy & Hd)];
    rewrite ?Forall_cons, ?region_cons in *; unfold b_end in *; intuition lia.
Qed.

Lemma release_length l1 b l2 : (length (release l1 b l2) <= S (length l1 + length l2))%nat.
Proof.
  unfold release; destruct (absorb_spec l1 b) as (k & Ek & _).
  apply (f_equal length) in Ek; rewrite length_app in Ek.
  destruct (join_next_head (absorb l1 b).2 l2) as (a & k2 & -> & _ & _ & Ha).
  rewrite length_app; cbn [length].
  destruct Ha as [[_ ->]|(d & -> & _)]; cbn [length]; lia.
Qed.

Definition total (bs : list block) : Z := foldr (fun b z => b_size b + z) 0 bs.

Lemma total_app l1 l2 : total (l1 ++ l2) = total l1 + total l2.
Proof. induction l1; simpl; unfold total in *; simpl; lia. Qed.

Lemma release_total l1 b l2 : total (release l1 b l2) = total (l1 ++ b :: l2).
Proof.
  unfold release; destruct (absorb_spec l1 b) as (k & E & _ & He & Hk).
  destruct (join_next_head (absorb l1 b).2 l2) as (a & k2 & -> & Haa & _ & Ha).
  rewrite E at 2; rewrite !total_app; unfold b_end in *.
  change (total (a :: k2)) with (b_size a + total k2).
  change (total (b :: l2)) with (b_size b + total l2).
  destruct Hk as [[-> H]|(c & -> & _ & H & H')]; simpl;
    destruct Ha as [[H1 ->]|(d & -> & _ & H1 & H2)]; simpl; lia.
Qed.

(** What a release does to the blocks, and that it does nothing else. *)
Lemma free_spec m heap l1 b l2 fl t :
  0 <= heap < 4 -> repr m heap (l1 ++ b :: l2) fl -> b_owner b = Some t ->
  exists bs' fl', repr (free m (b_addr b + 16)) heap bs' fl' /\
    total bs' = total (l1 ++ b :: l2) /\
    frame m (free m (b_addr b + 16)) heap (l1 ++ b :: l2) /\
    (forall q, region bs' q <-> region (l1 ++ b :: l2) q) /\
    forall c t', b_owner c = Some t' -> c ∈ bs' <-> c ∈ l1 ++ l2.
Proof.
  intros Hh [R Hco] Ho.
  destruct (block_facts _ _ _ _ _ Hh (r_arena _ _ _ _ R)) as (Hb1 & Hb2 & [_ Hb4] & _).
  unfold bottom, top, b_end in *; unfold free; rewrite (proj2 (Z.eqb_neq _ 0)) by lia.
  unfold bios_free, sizeof_arena_header; rewrite u32_small by lia.
  replace (b_addr b + 16 - 16) with (b_addr b) by lia.
  destruct (free_block_repr _ _ _ _ _ _ _ Hh R Ho) as (m' & fl' & -> & R' & F').
  exists (release l1 b l2), fl'; split; [split; [exact R'|now apply coalesced_release]|].
  split; [apply release_total|split; [exact F'|split; [|intros; eapply release_used; eauto]]].
  pose proof (r_ok _ _ _ (r_arena _ _ _ _ R)) as Hok; rewrite Forall_app, Forall_cons in Hok.
  intros q; apply release_region; [tauto|apply Forall_app; tauto].
Qed.

(** ** Injection of a new block *)

(** A block in use appears between two neighbours. *)
Lemma insert_block_repr m0 heap l1 l2 fl a s : 0 <= heap < 4 ->
  repr0 m0 heap (l1 ++ l2) fl -> let b := Block a s (Some (tag m0 a)) in
  block_ok b -> outside (head heap) b -> ordered bottom (l1 ++ b :: l2) top ->
  attrs m0 a = mk_attrs s heap ARENA_TYPE_USED ->
  let nah := after (addrs l2) (head heap) in
  let m := set_next m0 a nah in
  let m := set_prev m a (prev m nah) in
  let m := set_prev m nah a in
  let m' := set_next m (prev m a) a in
  repr0 m' heap (l1 ++ b :: l2) fl /\ frame m0 m' heap (l1 ++ b :: l2).
Proof.
  intros Hh [RA Rf Rp] b Hok Hout Hord Ha; cbv zeta.
  assert (Hnew : a ∉ head heap :: addrs (l1 ++ l2)).
  { pose proof (r_ok _ _ _ RA) as Hoks; rewrite Forall_app in Hoks.
    destruct (ordered_outside _ _ _ _ _ Hord) as (_ & _ & Ho);
      [rewrite Forall_app, Forall_cons; tauto|].
    unfold outside, b_end, block_ok in *; simpl in *; rewrite elem_of_cons.
    intros [->|(c & E & Hc)%list_elem_of_fmap]; [lia|].
    apply Ho in Hc; lia. }
  pose proof (addrs_nodup _ _ _ RA) as Hd; pose proof (r_all _ _ _ RA) as Hc.
  rewrite addrs_app in *; destruct (not_adjacent _ _ _ _ Hnew) as [Hn1 Hn2].
  pose proof Hc as [Hc1 Hc2]%chain_join; apply chain_first in Hc2 as [_ Hc2].
  mem_cbn; fsimp; rewrite Hc2; fsimp; split; [split; auto|].
  apply (splice_blocks m0 _ heap l1 [] [b] l2); mem_cbn; auto.
  - apply Forall_singleton; split; [exact Ha|intros t [= <-]; reflexivity].
  - mem_cbn; rewrite addrs_app; cbn [app]; rewrite addrs_cons.
    eapply ring_insert; [exact Hc|exact Hd|exact Hnew|..]; cbn [b b_addr]; fsimp; auto;
      intros q Hq Hq'; assert (q <> a) by (intros ->; auto); fsimp; auto.
  - rewrite Rp, !free_addrs_app, free_addrs_cons; reflexivity.
  - intros q Hq Hr; rewrite region_app, region_cons in Hr.
    assert (Hr' : ~ region (l1 ++ l2) q) by (rewrite region_app; tauto).
    pose proof (frame_fresh _ _ _ _ RA Hq Hr') as H1; rewrite addrs_app in H1.
    apply not_adjacent in H1 as [? ?].
    assert (q <> a).
    { intros ->; apply Hr; right; left; unfold b_end, block_ok in *; simpl in *; lia. }
    frame_tac.
Qed.

(** The walk stops at the first block beyond the new one, unless one overlaps. *)
Lemma inject_loop_spec m heap a a_end : 0 <= heap < 4 -> a <= a_end ->
  forall l2 l1 fuel, blocks_at m heap (l1 ++ l2) -> (length l2 < fuel)%nat ->
  exists k1 k2, l2 = k1 ++ k2 /\ (forall b, b ∈ k1 -> b_end b <= a) /\
    (inject_loop fuel m (head heap) (after (addrs l2) (head heap)) a a_end =
       Some (Some (after (addrs k2) (head heap))) /\
       (forall b, hd_error k2 = Some b -> a_end <= b_addr b) \/
     inject_loop fuel m (head heap) (after (addrs l2) (head heap)) a a_end = Some None /\
       exists b, hd_error k2 = Some b /\ b_addr b < a_end /\ a < b_end b).
Proof.
  intros Hh Haa; induction l2 as [|b l2 IH]; intros l1 [|fuel] R Hf; try (simpl in Hf; lia);
    cbn [inject_loop].
  { exists [], []; simpl; rewrite Z.eqb_refl; split; [auto|split; [set_solver|]]; left; split; auto.
    discriminate. }
  destruct (block_facts _ _ _ _ _ Hh R) as (Hb1 & Hb2 & _ & _ & _ & Hb6 & _).
  pose proof (r_all _ _ _ R) as Hc; pose proof (addrs_nodup _ _ _ R) as Hd.
  rewrite addrs_app, addrs_cons in Hc, Hd; apply chain_at in Hc as (_ & Hn & _).
  rewrite addrs_cons; change (after (b_addr b :: addrs l2) (head heap)) with (b_addr b).
  assert (Hne : b_addr b <> head heap)
    by (intros E; apply NoDup_cons in Hd; rewrite E in Hd; set_solver).
  rewrite (proj2 (Z.eqb_neq _ _) Hne), Hb6, Hn; unfold bottom, top, b_end in *.
  rewrite u32_small by (pose proof (r_ok _ _ _ R) as Ho; apply Forall_app in Ho as [_ [[_ ?] _]%Forall_cons]; lia).
  destruct (Z.leb_spec a_end (b_addr b)).
  { exists [], (b :: l2); split; [auto|split; [set_solver|]]; left; split; [reflexivity|].
    intros c [= <-]; auto. }
  destruct (Z.leb_spec (b_addr b + b_size b) a).
  - destruct (IH (l1 ++ [b]) fuel) as (k1 & k2 & -> & Hk1 & Hk2);
      [now rewrite <- app_assoc|simpl in Hf; lia|].
    exists (b :: k1), k2; split; [auto|split; [|exact Hk2]].
    intros c [->|Hc]%elem_of_cons; auto.
  - exists [], (b :: l2); split; [auto|split; [set_solver|]]; right; split; [reflexivity|].
    exists b; auto.
Qed.

Lemma ordered_between lo l1 b l2 hi : ordered lo (l1 ++ l2) hi -> block_ok b ->
  Forall block_ok (l1 ++ l2) -> lo <= b_addr b -> b_end b <= hi ->
  (forall c, c ∈ l1 -> b_end c <= b_addr b) ->
  (forall c, hd_error l2 = Some c -> b_end b <= b_addr c) ->
  ordered lo (l1 ++ b :: l2) hi.
Proof.
  revert lo; induction l1 as [|d l1 IH]; simpl; intros lo H Hb Hok Hlo Hhi H1 H2.
  - split; auto; destruct l2 as [|c l2]; simpl in *; auto; split; [auto|tauto].
  - apply Forall_cons in Hok as [Hd Hok]; destruct H as [H3 H4]; split; auto.
    apply IH; auto; [apply H1; left|intros; apply H1; now right].
Qed.

(** What an injection does to the blocks, and that it does nothing else. *)
Lemma inject_spec fuel m heap bs fl a s :
  0 <= heap < 4 -> repr m heap bs fl -> (length bs < fuel)%nat ->
  let b := Block a s (Some (tag m a)) in
  block_ok b -> bottom <= a -> a + s <= top -> outside (head heap) b ->
  attrs m a = mk_attrs s heap ARENA_TYPE_USED ->
  (exists l1 l2 m' fl', bs = l1 ++ l2 /\ inject_free_block fuel m a = Some m' /\
     repr m' heap (release l1 b l2) fl' /\ frame m m' heap (l1 ++ b :: l2)) \/
  inject_free_block fuel m a = Some m /\ exists c, c ∈ bs /\ b_addr c < a + s /\ a < b_end c.
Proof.
  intros Hh [R Hco] Hf b Hok Ha1 Ha2 Hout Hat; pose proof R as [RA Rf Rp].
  assert (Hs : size_ok s) by (destruct Hok as [? ?]; simpl in *; split; [auto|unfold bottom, top in *; lia]).
  destruct (attrs_get s heap ARENA_TYPE_USED Hs Hh ltac:(auto)) as (G1 & G2 & _).
  unfold inject_free_block; rewrite Hat, G1, G2; unfold bottom, top in Ha1, Ha2.
  destruct Hok as [Hok1 Hok2]; simpl in Hok1, Hok2; rewrite u32_small by lia.
  rewrite (proj1 (chain_first _ _ _ _ _ (r_all _ _ _ RA))).
  destruct (inject_loop_spec m heap a (a + s) Hh ltac:(lia) bs [] fuel RA Hf)
    as (k1 & k2 & -> & Hk1 & [[-> Hk2]|[-> (c & Hc & Hc1 & Hc2)]]).
  - left; exists k1, k2; pose proof (r_ok _ _ _ RA) as Hoks.
    assert (Hord : ordered bottom (k1 ++ b :: k2) top).
    { apply ordered_between; auto; [exact (r_ordered _ _ _ RA)|split; auto]. }
    pose proof (insert_block_repr m heap k1 k2 fl a s Hh R ltac:(split; auto) Hout Hord Hat) as [R' F'].
    cbv zeta in R', F'; destruct (free_block_repr _ _ _ _ _ _ _ Hh R' eq_refl) as (m' & fl' & E & R'' & F'').
    exists m', fl'; split; [auto|]; split; [cbv zeta; cbn [b_addr] in E; now rewrite E|].
    split; [split; [exact R''|]|eapply frame_trans; eauto].
    apply coalesced_release; clear - Hco; apply coalesced_app; split.
    + apply (coalesced_last _ (Block 0 0 (Some 0))); [|discriminate].
      induction k1 as [|d [|e k1] IH]; [exact I|simpl; split; [intros (_ & ? & _); discriminate|exact I]|].
      destruct Hco as [H1 H2]; split; [exact H1|apply (IH H2)].
    + destruct k2 as [|c k2]; [exact I|]; split; [intros (? & _); discriminate|].
      now apply coalesced_app in Hco.
  - right; split; [reflexivity|]; exists c; split; auto.
    destruct k2; [discriminate|injection Hc as ->]; set_solver.
Qed.

(** ** The two heaps *)

Lemma head_inj h h' : head h = head h' -> h = h'.
Proof. unfold head, sizeof_free_arena_header, ARENA_PADDING, sizeof_arena_header; lia. Qed.

(** A heap only depends on the headers of its nodes. *)
Lemma repr_ext m m' heap bs fl : repr m heap bs fl ->
  (forall q, q ∈ head heap :: addrs bs -> same_at m m' q) -> repr m' heap bs fl.
Proof.
  intros [[RA Rf Rp] Hco] Hs; split; auto; split; auto.
  - destruct RA; constructor; auto.
    + apply (blocks_ext m); auto; intros q Hq; destruct (Hs q) as (? & ? & _); [now right|auto].
    + destruct (Hs (head heap)) as (_ & -> & _); [left|auto].
    + apply (chain_ext (next m) (prev m)); auto; intros q Hq; apply Hs; auto.
      rewrite elem_of_app, list_elem_of_singleton in Hq; rewrite elem_of_cons; tauto.
  - apply (chain_ext (next_free m) (prev_free m)); auto; intros q Hq; apply Hs.
    + rewrite elem_of_cons in *; destruct Hq; auto; right; eapply fl_addrs; eauto.
    + rewrite elem_of_app, list_elem_of_singleton in Hq; rewrite elem_of_cons; destruct Hq; auto.
      right; eapply fl_addrs; eauto.
Qed.

Lemma addrs_region m heap bs q : blocks_at m heap bs -> q ∈ addrs bs -> region bs q.
Proof.
  intros R (b & -> & Hb)%list_elem_of_fmap; apply Exists_exists; exists b; split; auto.
  pose proof (r_ok _ _ _ R) as Ho; rewrite Forall_forall in Ho; apply Ho in Hb.
  unfold block_ok, b_end in *; lia.
Qed.

(** What happens to one heap does not disturb another. *)
Lemma frame_repr m m' heap bs heap' bs' fl' :
  repr m heap' bs' fl' -> frame m m' heap bs -> heap <> heap' ->
  ~ region bs (head heap') -> ~ region bs' (head heap) ->
  (forall q, region bs' q -> ~ region bs q) -> repr m' heap' bs' fl'.
Proof.
  intros R F Hne Ho1 Ho2 Hd; apply (repr_ext m); auto.
  intros q [->|Hq]%elem_of_cons; apply F; auto.
  - intros E; apply head_inj in E; auto.
  - intros ->; apply Ho2; eapply addrs_region; eauto; apply R.
  - apply Hd; eapply addrs_region; eauto; apply R.
Qed.

Lemma free_tagged_loop_spec heap tg : 0 <= heap < 4 -> forall n k2 k1 fuel m fl,
  (length k2 <= n)%nat -> repr m heap (k1 ++ k2) fl -> (length k2 < fuel)%nat ->
  (forall c, c ∈ k1 -> b_owner c <> Some tg) ->
  exists m' bs' fl',
    free_tagged_loop fuel m (head heap) (after (addrs k2) (head heap)) tg = Some m' /\
    repr m' heap bs' fl' /\ frame m m' heap (k1 ++ k2) /\
    (forall q, region bs' q <-> region (k1 ++ k2) q) /\
    forall c t, b_owner c = Some t -> c ∈ bs' <-> c ∈ k1 ++ k2 /\ t <> tg.
Proof.
  intros Hh; induction n as [n IH] using lt_wf_ind; intros k2 k1 [|fuel] m fl Hlen R Hf Hk1; [lia|].
  cbn [free_tagged_loop]; destruct k2 as [|b k2].
  { simpl; rewrite Z.eqb_refl; exists m, k1, fl; rewrite app_nil_r in *.
    split; [auto|split; [exact R|split; [apply frame_refl|split; [tauto|]]]].
    intros c t Hc; split; [intros Hi; split; [auto|]|tauto].
    intros ->; exact (Hk1 c Hi Hc). }
  pose proof (r_arena _ _ _ _ (proj1 R)) as RA; pose proof (r_all _ _ _ RA) as Hc.
  destruct (block_facts _ _ _ _ _ Hh RA) as (_ & _ & Hok & _ & _ & _ & _ & Ht).
  rewrite addrs_app, addrs_cons in Hc; apply chain_at in Hc as (_ & Hn & _).
  rewrite addrs_cons; change (after (b_addr b :: addrs k2) (head heap)) with (b_addr b).
  assert (Hne : b_addr b <> head heap).
  { pose proof (addrs_nodup _ _ _ RA) as Hd; rewrite addrs_app, addrs_cons in Hd.
    intros E; apply NoDup_cons in Hd; rewrite E in Hd; set_solver. }
  rewrite (proj2 (Z.eqb_neq _ _) Hne), Ht; simpl in Hlen, Hf.
  destruct ((b_type b =? ARENA_TYPE_USED) && (tag m (b_addr b) =? tg)) eqn:E.
  - assert (Ho : b_owner b = Some tg).
    { bools; unfold b_type in H; destruct (b_owner b) as [t|] eqn:Hbo; [|discriminate].
      pose proof (r_blocks _ _ _ RA) as Hat; rewrite Forall_app, Forall_cons in Hat.
      destruct Hat as (_ & [_ Hat] & _); rewrite <- H0; f_equal; symmetry; now apply Hat. }
    destruct (free_block_repr _ _ _ _ _ _ _ Hh (proj1 R) Ho) as (m1 & fl1 & -> & R1 & F1).
    pose proof (coalesced_release _ _ _ (proj2 R)) as Hco1.
    pose proof (r_ok _ _ _ RA) as Hoks; rewrite Forall_app, Forall_cons in Hoks.
    pose proof (fun q => release_region k1 b k2 q Hok ltac:(rewrite Forall_app; tauto)) as Hreg.
    pose proof (fun c t h => release_used k1 b k2 c t h) as Hused.
    unfold release in *; destruct (absorb_spec k1 b) as (k & Ek & Hao & _ & _).
    destruct (join_next_head (absorb k1 b).2 k2) as (a & k2' & Ej & Haa & Hao' & Ha).
    rewrite Ej in *; rewrite cons_middle, app_assoc in R1, Hco1.
    pose proof (r_all _ _ _ (r_arena _ _ _ _ R1)) as Hc1.
    rewrite <- app_assoc in Hc1; cbn [app] in Hc1; rewrite addrs_app, addrs_cons in Hc1.
    apply chain_at in Hc1 as (_ & Hn1 & _); rewrite <- Haa, Hn1.
    assert (Hl : (length k2' <= length k2)%nat) by (destruct Ha as [[_ ->]|(? & -> & _)]; simpl; lia).
    destruct (IH (length k2') ltac:(lia) k2' ((absorb k1 b).1 ++ [a]) fuel m1 fl1)
      as (m' & bs' & fl' & H1 & H2 & H3 & H4 & H5); auto; [split; auto|lia| |].
    { intros c [Hc|Hc]%elem_of_app; [apply Hk1; rewrite Ek; set_solver|].
      apply list_elem_of_singleton in Hc as ->; congruence. }
    exists m', bs', fl'; rewrite <- app_assoc in *; cbn [app] in *.
    split; [exact H1|split; [exact H2|split; [|split]]].
    + eapply frame_trans; [exact F1|exact H3|]; intros q; rewrite <- Hreg; auto.
    + intros q; rewrite H4, Hreg; tauto.
    + intros c t Hct; rewrite (H5 c t Hct), (Hused c t Hct), !elem_of_app, elem_of_cons.
      split; [tauto|]; intros [[|[->|]] ?]; auto; congruence.
  - rewrite Hn; destruct (IH (length k2) ltac:(lia) k2 (k1 ++ [b]) fuel m fl)
      as (m' & bs' & fl' & H1 & H2 & H3 & H4 & H5); rewrite <- ?app_assoc; auto; [lia| |].
    { intros c [Hc|Hc]%elem_of_app; [now apply Hk1|].
      apply list_elem_of_singleton in Hc as ->; intros Ho.
      pose proof (r_blocks _ _ _ RA) as Hat; rewrite Forall_app, Forall_cons in Hat.
      destruct Hat as (_ & [_ Hat] & _); rewrite (Hat _ Ho), Z.eqb_refl in E.
      unfold b_type in E; rewrite Ho in E; discriminate. }
    rewrite <- app_assoc in *; exists m', bs', fl'; auto 10.
Qed.

(** Two heaps that share no byte and do not hold each other's head node. *)
Definition separate (h : Z) (bs : list block) (h' : Z) (bs' : list block) : Prop :=
  (forall q, region bs q -> ~ region bs' q) /\ ~ region bs (head h') /\ ~ region bs' (head h).

(** Releasing everything that belongs to a tag ends, and leaves in both heaps
    exactly the blocks in use of the other owners; the heaps stay well formed. *)
Theorem free_tagged_correct fuel m bs0 fl0 bs1 fl1 tg :
  repr m HEAP_MAIN bs0 fl0 -> repr m HEAP_LOWMEM bs1 fl1 ->
  separate HEAP_MAIN bs0 HEAP_LOWMEM bs1 ->
  (length bs0 < fuel)%nat -> (length bs1 < fuel)%nat ->
  exists m' bs0' fl0' bs1' fl1', free_tagged fuel m tg = Some m' /\
    repr m' HEAP_MAIN bs0' fl0' /\ repr m' HEAP_LOWMEM bs1' fl1' /\
    forall c t, b_owner c = Some t ->
      (c ∈ bs0' <-> c ∈ bs0 /\ t <> tg) /\ (c ∈ bs1' <-> c ∈ bs1 /\ t <> tg).
Proof.
  intros R0 R1 (S1 & S2 & S3) Hf0 Hf1; unfold free_tagged, HEAP_MAIN, HEAP_LOWMEM in *.
  rewrite (proj1 (chain_first _ _ _ _ _ (r_all _ _ _ (r_arena _ _ _ _ (proj1 R0))))).
  destruct (free_tagged_loop_spec 0 tg ltac:(lia) (length bs0) bs0 [] fuel m fl0)
    as (m0 & bs0' & fl0' & -> & R0' & F0 & G0 & U0); auto; [set_solver|]; cbn [app] in *.
  assert (R1' : repr m0 1 bs1 fl1).
  { apply (frame_repr m m0 0 bs0); auto; intros q H1 H2; eapply S1; eauto. }
  rewrite (proj1 (chain_first _ _ _ _ _ (r_all _ _ _ (r_arena _ _ _ _ (proj1 R1'))))).
  destruct (free_tagged_loop_spec 1 tg ltac:(lia) (length bs1) bs1 [] fuel m0 fl1)
    as (m1 & bs1' & fl1' & -> & R1'' & F1 & _ & U1); auto; [set_solver|]; cbn [app] in *.
  exists m1, bs0', fl0', bs1', fl1'; split; [auto|split; [|split; auto]].
  apply (frame_repr m0 m1 1 bs1); auto; [now rewrite G0|].
  intros q H1 H2; apply G0 in H1; eapply S1; eauto.
Qed.

(** ** Reallocation *)

(** What follows the block cannot be merged with it. *)
Definition no_free_after (b : block) (l2 : list block) : Prop :=
  match l2 with c :: _ => ~ (b_owner c = None /\ b_end b = b_addr c) | [] => True end.

Lemma coalesced_cut l1 b l2 n t : coalesced (l1 ++ b :: l2) -> b_owner b = Some t ->
  no_free_after b l2 -> coalesced (l1 ++ carve b n t ++ l2).
Proof.
  intros [H1 H2]%coalesced_app Ho Hn; pose proof (coalesced_tail _ _ H2) as H3.
  unfold carve; destruct (_ <=? _); cbn [app]; apply coalesced_app; split.
  - apply (coalesced_last _ b); auto; discriminate.
  - cbn [coalesced]; split; [intros (? & _); discriminate|].
    destruct l2 as [|c l2]; [exact I|]; split; auto; intros (_ & Hc & He); apply Hn; split; auto.
    rewrite <- He; unfold b_end; simpl; lia.
  - apply (coalesced_last _ b); auto; discriminate.
  - apply (coalesced_head b); auto; discriminate.
Qed.

(** The end of a block in use is cut off and enters the free chain, first or last. *)
Lemma residual_repr m heap l1 b l2 fl t oldsize n : 0 <= heap < 4 ->
  repr0 m heap (l1 ++ b :: l2) fl -> b_owner b = Some t -> (16 | n) -> 32 <= n <= b_size b ->
  exists fl', repr0 (realloc_residual m (head heap) (b_addr b) oldsize n (b_size b)) heap
                (l1 ++ carve b n t ++ l2) fl'.
Proof.
  intros Hh [RA Rf Rp] Ho Hn16 Hn.
  destruct (block_facts _ _ _ _ _ Hh RA) as (Hb1 & Hb2 & [Hb3 Hb3'] & Hb4 & Hb5 & Hb6 & Hb7 & Hb8).
  pose proof (fl_nodup _ _ _ RA _ Rp) as Hfd.
  pose proof (r_all _ _ _ RA) as Hc; rewrite addrs_app, addrs_cons in Hc.
  apply chain_at in Hc as (_ & Hc & _).
  unfold bottom in Hb1; unfold b_end, top in Hb2; unfold realloc_residual, carve, sizeof_arena_header.
  rewrite !(u32_small (n + _)), (u32_small (b_addr b + n)), (u32_small (b_size b - n)) by lia.
  change (2 * 16) with 32; destruct (Z.leb_spec (n + 32) (b_size b)) as [Hle|Hle].
  2:{ exists fl; destruct b as [a s o]; simpl in *; subst o; split; auto. }
  set (y := b_addr b + n).
  assert (Hy : y ∉ head heap :: addrs (l1 ++ b :: l2))
    by (apply (inside_fresh _ _ _ RA l1 b l2); auto; unfold y, b_end; lia).
  assert (Hyf : y ∉ head heap :: fl) by (eapply fl_fresh; eauto).
  assert (Hyb : y <> b_addr b) by (unfold y; lia).
  assert (Hyh : y <> head heap) by (intros E; apply Hyf; rewrite E; left).
  destruct (fresh_gap (head heap) (addrs l1) (addrs l2) (b_addr b) y) as (_ & _ & _ & Hya);
    [now rewrite addrs_app, addrs_cons in Hy|].
  assert (Hsn : size_ok n) by (split; [auto|lia]).
  assert (Hsr : size_ok (b_size b - n)) by (split; [apply Z.divide_sub_r; auto|lia]).
  assert (Hat : ARENA_TYPE_USED = b_type b) by (unfold b_type; now rewrite Ho).
  assert (Hblocks : forall m', tag m' = tag m ->
    next m' = <[b_addr b := y]> (<[y := after (addrs l2) (head heap)]> (next m)) ->
    prev m' = <[y := b_addr b]> (<[after (addrs l2) (head heap) := y]> (prev m)) ->
    attrs m' y = mk_attrs (b_size b - n) heap ARENA_TYPE_FREE ->
    attrs m' (b_addr b) = mk_attrs n heap (b_type b) ->
    (forall q, q <> b_addr b -> q <> y -> attrs m' q = attrs m q) ->
    blocks_at m' heap (l1 ++ Block (b_addr b) n (Some t) :: Block y (b_size b - n) None :: l2)).
  { intros m' E1 E2 E3 E4 E5 E6; apply (split_blocks m m' heap l1 b l2 n (Some t) None RA); auto;
      try lia; fold y; rewrite ?E1, ?E2, ?E3; intros; fsimp; auto.
    - split; mem_cbn; [rewrite E5, <- Hat; reflexivity|intros t' [= <-]; rewrite E1].
      pose proof (r_blocks _ _ _ RA) as Hbl; rewrite Forall_app, Forall_cons in Hbl.
      destruct Hbl as (_ & [_ Hbl] & _); auto.
    - split; mem_cbn; [exact E4|discriminate]. }
  assert (Hperm : forall f1 f2, f1 ++ f2 = fl -> f1 ++ y :: f2 ≡ₚ
    free_addrs (l1 ++ Block (b_addr b) n (Some t) :: Block y (b_size b - n) None :: l2)).
  { intros f1 f2 E; rewrite <- Permutation_middle, E, Rp, !free_addrs_app, !free_addrs_cons, Ho.
    apply Permutation_middle. }
  pose proof (chain_first _ _ _ _ _ Rf) as [Hf1 _]; pose proof (chain_last _ _ _ _ _ Rf) as [_ Hf2].
  destruct (not_adjacent (head heap) [] fl y Hyf) as [_ Hna].
  destruct (not_adjacent (head heap) fl [] y ltac:(now rewrite app_nil_r)) as [Hnb _].
  change ([?u; ?v] ++ l2) with (u :: v :: l2); fold y.
  assert (Hq : forall q, q ∈ head heap :: fl -> q <> y) by (intros q Hq ->; auto).
  destruct (oldsize <? n).
  - exists (fl ++ [y]); split; [|mem_cbn|apply Hperm, app_nil_r].
    + mem_cbn; fsimp; rewrite Hc; apply Hblocks; mem_cbn; auto; fsimp; auto.
      * rewrite Hb5, attrs_set_size, (proj1 (proj2 (attrs_get n heap (b_type b) Hsn Hh (b_type_range b)))); auto.
        apply attrs_fresh; auto.
      * rewrite Hb5; apply attrs_set_size; auto.
      * intros; fsimp; auto.
    + fsimp; rewrite Hf2; rewrite <- (app_nil_r fl) in Rf, Hfd, Hyf, Hq.
      eapply (ring_insert _ _ _ _ _ fl [] y); [exact Rf|exact Hfd|exact Hyf|..];
        change (after [] (head heap)) with (head heap); fsimp; auto;
        intros q Hin Hqn; apply Hq in Hin; fsimp; auto.
  - exists (y :: fl); split; [|mem_cbn|apply (Hperm [] fl eq_refl)].
    + mem_cbn; fsimp; rewrite Hc; apply Hblocks; mem_cbn; auto; fsimp; auto.
      * rewrite Hb5, attrs_set_size, (proj1 (proj2 (attrs_get n heap (b_type b) Hsn Hh (b_type_range b)))); auto.
        apply attrs_fresh; auto.
      * rewrite Hb5; apply attrs_set_size; auto.
      * intros; fsimp; auto.
    + fsimp; rewrite Hf1; fsimp.
      eapply (ring_insert _ _ _ _ _ [] fl y); [exact Rf|exact Hfd|exact Hyf|..];
        change (before (head heap) []) with (head heap); fsimp; auto;
        intros q Hin Hqn; apply Hq in Hin; fsimp; auto.
Qed.

Lemma carve_first b n t : n <= b_size b ->
  exists c, c ∈ carve b n t /\ b_owner c = Some t /\ b_addr c = b_addr b /\ n <= b_size c.
Proof.
  intros Hn; unfold carve; destruct (_ <=? _); eexists; (split; [left|]); simpl; auto with lia.
Qed.

Lemma realloc_in_place m heap l1 b l2 fl t oldsize n : 0 <= heap < 4 ->
  repr m heap (l1 ++ b :: l2) fl -> no_free_after b l2 -> b_owner b = Some t ->
  (16 | n) -> 32 <= n <= b_size b ->
  exists bs' fl' c,
    repr (realloc_residual m (head heap) (b_addr b) oldsize n (b_size b)) heap bs' fl' /\
    (forall d, d ∈ l1 ++ l2 -> d ∈ bs') /\
    c ∈ bs' /\ b_owner c = Some t /\ b_addr c = b_addr b /\ n <= b_size c.
Proof.
  intros Hh [R Hco] Hnf Ho Hn16 Hn.
  destruct (residual_repr _ _ _ _ _ _ _ oldsize n Hh R Ho Hn16 Hn) as (fl' & R').
  destruct (carve_first b n t) as (c & Hc1 & Hc); [lia|].
  exists (l1 ++ carve b n t ++ l2), fl', c; split; [split; [exact R'|now apply coalesced_cut]|].
  split; [intros d; rewrite !elem_of_app; tauto|split; [rewrite !elem_of_app; auto|exact Hc]].
Qed.

(** [realloc] merges in another order than [__free_block]. *)
Lemma realloc_absorb_merge m ah nah : ah <> nah ->
  (ARENA_TYPE_GET (attrs m nah) =? ARENA_TYPE_FREE) = true ->
  u32 (ah + ARENA_SIZE_GET (attrs m ah)) = nah ->
  realloc_absorb m ah nah = merge_next m ah nah.
Proof.
  intros Hne H1 H2; unfold merge_next, realloc_absorb; rewrite H1, H2, Z.eqb_refl; cbn [andb].
  mem_cbn; fsimp; reflexivity.
Qed.

(** The test of [bios_realloc] for a successor that makes the block large enough. *)
Lemma realloc_merge m heap l1 b l2 fl t n : 0 <= heap < 4 ->
  repr m heap (l1 ++ b :: l2) fl -> b_owner b = Some t ->
  let ah := b_addr b in
  let nah := after (addrs l2) (head heap) in
  (nah =? u32 (ah + b_size b)) && (ARENA_TYPE_GET (attrs m nah) =? ARENA_TYPE_FREE) &&
    (n <=? u32 (ARENA_SIZE_GET (attrs m nah) + b_size b)) = true ->
  exists b' l2' fl', repr (realloc_absorb m ah nah) heap (l1 ++ b' :: l2') fl' /\
    no_free_after b' l2' /\ b_owner b' = Some t /\ b_addr b' = b_addr b /\ n <= b_size b' /\
    ARENA_SIZE_GET (attrs (realloc_absorb m ah nah) ah) = b_size b' /\
    (forall d t', b_owner d = Some t' -> d ∈ l1 ++ l2 -> d ∈ l1 ++ l2').
Proof.
  intros Hh [R Hco] Ho; cbv zeta; pose proof (r_arena _ _ _ _ R) as RA.
  destruct (block_facts _ _ _ _ _ Hh RA) as (Hb1 & Hb2 & [_ Hb4] & _ & Hb5 & Hb6 & _).
  destruct (merge_next_repr _ _ _ _ _ _ Hh R) as (fl' & R' & _).
  destruct l2 as [|c l2]; simpl after.
  { rewrite (type_free_head _ _ _ Hh RA), andb_false_r; discriminate. }
  assert (RC := RA); rewrite (cons_middle b), app_assoc in RC.
  destruct (block_facts _ _ _ _ _ Hh RC) as (Hc1 & Hc2 & [_ Hc4] & _ & _ & Hc6 & _).
  rewrite (type_free_spec _ _ _ _ _ Hh RC), Hc6; unfold bottom, top, b_end in *.
  rewrite (u32_small (b_addr b + _)) by lia; intros E; simpl after in R'.
  apply andb_true_iff in E as [[E1 E2]%andb_true_iff E3]; apply Z.eqb_eq in E1; apply Z.leb_le in E3.
  rewrite u32_small in E3 by lia.
  rewrite realloc_absorb_merge;
    [|lia|now rewrite (type_free_spec _ _ _ _ _ Hh RC)|rewrite Hb6, E1; apply u32_small; lia].
  cbn [join_next] in R'; unfold b_end in R'; rewrite E2, <- E1, Z.eqb_refl in R'; cbn [andb] in R'.
  eexists _, l2, fl'; split; [split; [exact R'|]|split; [|split; [exact Ho|split; [reflexivity|split; [|split]]]]].
  - apply coalesced_app in Hco as [Hco1 Hco2]; apply coalesced_tail in Hco2.
    apply coalesced_app; split; [apply (coalesced_last _ b); auto; simpl; congruence|].
    apply (coalesced_head c); auto; simpl; congruence.
  - apply coalesced_app in Hco as [_ Hco2]; apply coalesced_tail in Hco2.
    unfold is_free in E2; bools; destruct l2 as [|d l2]; [exact I|]; simpl; intros [Hd1 Hd2].
    destruct Hco2 as [Hco2 _]; apply Hco2; unfold b_end in *; simpl in *; repeat split; auto; lia.
  - simpl; lia.
  - destruct (block_facts _ _ _ _ _ Hh (r_arena _ _ _ _ R')) as (_ & _ & _ & _ & _ & H & _); exact H.
  - unfold is_free in E2; bools; intros d t' Hd; rewrite !elem_of_app, elem_of_cons.
    intros [?|[->|?]]; auto; congruence.
Qed.

(** A new block is carved out of [c] and the old one released. *)
Lemma move_block m m' l1 b l2 k1 c k2 fl' t n tg :
  blocks_at m 0 (l1 ++ b :: l2) -> b_owner b = Some t ->
  l1 ++ b :: l2 = k1 ++ c :: k2 -> b_owner c = None -> n <= b_size c ->
  repr m' 0 (k1 ++ carve c n tg ++ k2) fl' ->
  exists bs' fl2 c', repr (free m' (b_addr b + 16)) 0 bs' fl2 /\
    (forall d t', b_owner d = Some t' -> d ∈ l1 ++ l2 -> d ∈ bs') /\
    c' ∈ bs' /\ b_owner c' = Some tg /\ b_addr c' = b_addr c /\ n <= b_size c'.
Proof.
  intros RA Ho E Hco Hcn R'; assert (Hh : 0 <= 0 < 4) by lia.
  destruct (carve_first c n tg Hcn) as (c' & Hc1 & Hc2 & Hc3 & Hc4).
  assert (Hold : forall d t', b_owner d = Some t' -> d ∈ l1 ++ b :: l2 -> d ∈ k1 ++ carve c n tg ++ k2).
  { intros d t' Hd; rewrite E, !elem_of_app, elem_of_cons; intros [?|[->|?]]; auto; congruence. }
  assert (Hb : b ∈ l1 ++ b :: l2) by (rewrite elem_of_app, elem_of_cons; auto).
  pose proof (Hold b t Ho Hb) as Hbin.
  assert (Hcb' : c' <> b).
  { intros ->; pose proof RA as RC; rewrite E in RC, Hb.
    apply (addr_inj _ _ _ _ _ _ RC) in Hb; congruence. }
  apply list_elem_of_split in Hbin as (q1 & q2 & Eq); rewrite Eq in R', Hold.
  destruct (free_spec m' 0 q1 b q2 fl' t Hh R' Ho) as (bs' & fl2 & R2 & _ & _ & _ & Hu).
  exists bs', fl2, c'; split; [exact R2|split; [|split; [|auto]]].
  - intros d t' Hd Hdi; rewrite (Hu d t' Hd); specialize (Hold d t' Hd).
    assert (d <> b) by (intros ->; exact (block_once _ _ _ _ _ RA Hdi)).
    assert (Hdb : d ∈ q1 ++ b :: q2) by (apply Hold; rewrite elem_of_app, elem_of_cons in *; tauto).
    rewrite elem_of_app, elem_of_cons in *; tauto.
  - rewrite (Hu c' tg Hc2).
    assert (Hci : c' ∈ q1 ++ b :: q2) by (rewrite <- Eq, !elem_of_app; auto).
    rewrite elem_of_app, elem_of_cons in *; tauto.
Qed.

Lemma memcpy_read data dst src n i : 0 <= i < n -> memcpy data dst src n (dst + i) = data (src + i).
Proof.
  intros Hi; unfold memcpy; zdec; simpl; f_equal; lia.
Qed.

(** Growing or shrinking a block of the main heap keeps the heap well formed
    and the other blocks in use; the answer is either NULL, and the old block is
    still there, or a block in use that can hold the new size and starts with the
    bytes of the old one. *)
Theorem realloc_correct fuel m data l1 b l2 fl t size :
  repr m HEAP_MAIN (l1 ++ b :: l2) fl -> b_owner b = Some t ->
  0 < size -> size + 31 < 4294967296 -> (length fl < fuel)%nat ->
  exists p m' data' bs' fl',
    bios_realloc fuel m data (b_addr b + 16) size = Some (p, m', data') /\
    repr m' HEAP_MAIN bs' fl' /\
    (forall d t', b_owner d = Some t' -> d ∈ l1 ++ l2 -> d ∈ bs') /\
    (p = 0 /\ data' = data /\ b ∈ bs' \/
     exists c t', c ∈ bs' /\ b_owner c = Some t' /\ p = b_addr c + 16 /\ size + 16 <= b_size c /\
       forall i, 0 <= i < Z.min size (b_size b - 16) -> data' (p + i) = data (b_addr b + 16 + i)).
Proof.
  intros R Ho Hs1 Hs2 Hf; unfold HEAP_MAIN in *; assert (Hh : 0 <= 0 < 4) by lia.
  destruct (arena_round_spec size) as [Hr1 Hr2]; [lia|lia|].
  pose proof (r_arena _ _ _ _ (proj1 R)) as RA.
  destruct (block_facts _ _ _ _ _ Hh RA) as (Hb1 & Hb2 & [Hb3 Hb4] & _ & Hb5 & Hb6 & Hb7 & _).
  pose proof (r_all _ _ _ RA) as Hc; rewrite addrs_app, addrs_cons in Hc.
  apply chain_at in Hc as (_ & Hc & _); unfold bottom, top, b_end in Hb1, Hb2.
  unfold bios_realloc; rewrite (proj2 (Z.eqb_neq (b_addr b + 16) 0)), (proj2 (Z.eqb_neq size 0)) by lia.
  cbv zeta; change sizeof_arena_header with 16; replace (b_addr b + 16 - 16) with (b_addr b) by lia.
  rewrite (u32_small (b_addr b)) by lia; rewrite Hb6, Hb7, Hc; set (n := arena_round size) in *.
  assert (Hn32 : 32 <= n) by (destruct Hr1; lia).
  destruct ((n <=? b_size b) && _ && _) eqn:E1.
  { exists (b_addr b + 16), m, data, (l1 ++ b :: l2), fl; split; [auto|split; [exact R|split]].
    - intros d t' _; rewrite !elem_of_app, elem_of_cons; tauto.
    - right; exists b, t; rewrite elem_of_app, elem_of_cons; bools; repeat split; auto; lia. }
  destruct ((_ =? _) && _ && _) eqn:E2.
  - destruct (realloc_merge _ _ _ _ _ _ _ _ Hh R Ho E2) as
      (b' & l2' & fl' & R' & Hnf & Ho' & Ha' & Hn' & Hx & Hu); rewrite <- Ha' in *.

    rewrite Hx, (proj2 (Z.leb_le _ _)) by lia.
    destruct (realloc_in_place _ _ _ _ _ _ _ (b_size b) n Hh R' Hnf Ho' Hr1 ltac:(lia)) as
      (bs' & fl2 & c & Rc & Hd & Hc1 & Hc2 & Hc3 & Hc4).
    eexists _, _, data, bs', fl2; split; [reflexivity|split; [exact Rc|split]].
    + intros d t' Hdo Hdi; apply Hd; eapply Hu; eauto.
    + right; exists c, t; repeat split; auto; lia.
  - destruct (Z.leb_spec n (b_size b)) as [Hle|Hlt].
    + assert (Hnf : no_free_after b l2).
      { destruct l2 as [|c l2]; [exact I|]; intros [Hco He]; simpl after in E2.
        assert (RC := RA); rewrite (cons_middle b), app_assoc in RC.
        destruct (block_facts _ _ _ _ _ Hh RC) as (Hc1 & Hc2 & [_ Hc4] & _ & _ & Hc6 & _).
        rewrite (type_free_spec _ _ _ _ _ Hh RC), Hc6 in E2; unfold is_free, b_end, top in *.
        rewrite Hco, !u32_small, <- He, Z.eqb_refl in E2 by lia; cbn in E2.
        apply Z.leb_gt in E2; lia. }
      destruct (realloc_in_place _ _ _ _ _ _ _ (b_size b) n Hh R Hnf Ho Hr1 ltac:(lia)) as
        (bs' & fl2 & c & Rc & Hd & Hc1 & Hc2 & Hc3 & Hc4).
      eexists _, _, data, bs', fl2; split; [reflexivity|split; [exact Rc|split]].
      * intros d t' Hdo Hdi; now apply Hd.
      * right; exists c, t; repeat split; auto; try lia.
    + unfold malloc, HEAP_MAIN.
      destruct (malloc_spec fuel m 0 _ fl size MALLOC_CORE Hh R Hs1 Hs2 Hf) as
        (p & m' & bs' & fl' & -> & R' & _ & _ & [(-> & -> & -> & _)|(k1 & c & k2 & E & Hco & Hcn & -> & ->)]).
      * exists 0, m, data, (l1 ++ b :: l2), fl; split; [auto|split; [exact R|split]].
        -- intros d t' _; rewrite !elem_of_app, elem_of_cons; tauto.
        -- left; rewrite elem_of_app, elem_of_cons; auto.
      * destruct (move_block m m' l1 b l2 k1 c k2 fl' t n MALLOC_CORE RA Ho E Hco Hcn R') as
          (bs' & fl2 & c' & R2 & Hu & Hc1 & Hc2 & Hc3 & Hc4).
        destruct (block_facts _ _ _ _ _ Hh (eq_ind _ _ RA _ E)) as (Hcb & _); unfold bottom in Hcb.
        rewrite (proj2 (Z.eqb_neq (b_addr c + 16) 0)) by lia.
        eexists _, _, _, bs', fl2; split; [reflexivity|split; [exact R2|split; [exact Hu|]]].
        right; exists c', MALLOC_CORE; split; [auto|split; [auto|split; [lia|split; [lia|]]]].
        intros i Hi; rewrite u32_small by lia; apply memcpy_read; lia.
Qed.
(** ** The contract of the allocator *)

Lemma carve_total b n t : total (carve b n t) = b_size b.
Proof. unfold carve; destruct (_ <=? _); unfold total; simpl; lia. Qed.

(** C28: [bios_malloc] of a size from 1 to 2^32 - 32 bytes ([bios_malloc_wraps]
    is what happens above), on one of the four heaps that is well formed,
    returns and keeps the heap well formed and the blocks in use as they were.
    Either no free block can hold the request with its header and nothing
    changes, or the answer is the payload of a new block in use, carved from a
    free one, that is large enough; no byte of the heap is lost. *)
Theorem bios_malloc_correct fuel m heap bs fl size tg :
  0 <= heap < 4 -> repr m heap bs fl -> 0 < size -> size + 31 < 4294967296 ->
  (length fl < fuel)%nat ->
  exists p m' bs' fl', bios_malloc fuel m size heap tg = Some (p, m') /\ repr m' heap bs' fl' /\
    total bs' = total bs /\
    (forall d t, b_owner d = Some t -> d ∈ bs -> d ∈ bs') /\
    (p = 0 /\ m' = m /\ (forall b, b ∈ bs -> b_owner b = None -> b_size b < arena_round size) \/
     exists c f, c ∈ bs' /\ b_owner c = Some tg /\ p = b_addr c + 16 /\ size + 16 <= b_size c /\
       f ∈ bs /\ b_owner f = None /\ b_addr f = b_addr c /\ b_size c <= b_size f).
Proof.
  intros Hh R Hs1 Hs2 Hf; destruct (arena_round_spec size) as [_ Hr]; [lia|lia|].
  destruct (malloc_spec _ _ _ _ _ _ tg Hh R Hs1 Hs2 Hf) as
    (p & m' & bs' & fl' & E & R' & _ & _ & [(-> & -> & -> & Hno)|(l1 & b & l2 & -> & Ho & Hn & -> & ->)]).
  - exists 0, m, bs, fl; repeat split; auto; apply R.
  - eexists _, m', _, fl'; split; [exact E|split; [exact R'|split; [|split]]].
    + rewrite !total_app, carve_total; unfold total; simpl; lia.
    + intros d t Hd; rewrite !elem_of_app, elem_of_cons; intros [?|[->|?]]; auto; congruence.
    + right; exists (Block (b_addr b) (if arena_round size + 32 <=? b_size b then arena_round size
        else b_size b) (Some tg)), b; rewrite !elem_of_app, elem_of_cons; unfold carve.
      destruct (_ <=? _); simpl; repeat split; auto; try lia; right; left; left.
Qed.

(** C29: releasing the pointer of a block in use keeps the heap well formed, with
    its free neighbours merged: the blocks in use are the others, untouched, and
    no byte of the heap is lost. *)
Theorem free_correct m heap l1 b l2 fl t :
  0 <= heap < 4 -> repr m heap (l1 ++ b :: l2) fl -> b_owner b = Some t ->
  exists bs' fl', repr (free m (b_addr b + 16)) heap bs' fl' /\
    total bs' = total (l1 ++ b :: l2) /\
    forall c t', b_owner c = Some t' -> c ∈ bs' <-> c ∈ l1 ++ l2.
Proof.
  intros Hh R Ho; destruct (free_spec _ _ _ _ _ _ _ Hh R Ho) as (bs' & fl' & H1 & H2 & _ & _ & H3).
  now exists bs', fl'.
Qed.

(** A block given to the allocator is added, merged with its free
    neighbours, when it overlaps no block of the heap; otherwise it is refused
    and nothing changes. *)
Theorem inject_correct fuel m heap bs fl a s :
  0 <= heap < 4 -> repr m heap bs fl -> (length bs < fuel)%nat ->
  let b := Block a s (Some (tag m a)) in
  block_ok b -> bottom <= a -> a + s <= top -> outside (head heap) b ->
  attrs m a = mk_attrs s heap ARENA_TYPE_USED ->
  (exists m' bs' fl', inject_free_block fuel m a = Some m' /\ repr m' heap bs' fl' /\
     total bs' = total bs + s /\
     forall c t, b_owner c = Some t -> c ∈ bs' <-> c ∈ bs) \/
  inject_free_block fuel m a = Some m /\ exists c, c ∈ bs /\ b_addr c < a + s /\ a < b_end c.
Proof.
  intros Hh R Hf b Hok Ha1 Ha2 Hout Hat.
  destruct (inject_spec _ _ _ _ _ _ _ Hh R Hf Hok Ha1 Ha2 Hout Hat) as
    [(l1 & l2 & m' & fl' & -> & E & R' & _)|H]; [left|right; exact H].
  exists m', (release l1 b l2), fl'; split; [exact E|split; [exact R'|split]].
  - rewrite release_total, !total_app; unfold total; simpl; lia.
  - intros c t Hc; exact (release_used l1 b l2 c t Hc).
Qed.

(** ** Initialisation *)

Lemma init_head_repr m i : 0 <= i < 4 -> repr (init_head m i) i [] [].
Proof.
  intros Hi; split; [|exact I]; split; [|split; mem_cbn; unfold init_head; mem_cbn; fsimp; auto|reflexivity].
  constructor; unfold init_head; mem_cbn; fsimp; auto.
  - unfold bottom, top; simpl; lia.
  - unfold mk_attrs; small4 i; reflexivity.
  - simpl; fsimp; auto.
Qed.

Lemma init_head_other m i heap bs fl : repr m heap bs fl -> i <> heap -> ~ region bs (head i) ->
  repr (init_head m i) heap bs fl.
Proof.
  intros R Hi Hr; apply (repr_ext m); auto.
  intros q Hq; assert (q <> head i); [|unfold init_head; frame_tac].
  intros ->; apply elem_of_cons in Hq as [E|Hq]; [apply head_inj in E; auto|].
  apply Hr; eapply addrs_region; eauto; apply R.
Qed.

(** A header prepared for injection: the attributes of a block in use. *)
Lemma prepare_attrs heap s : 0 <= heap < 2 -> 0 <= s < 4294967296 ->
  ARENA_SIZE_SET (Z.lor ARENA_TYPE_USED (Z.shiftl heap ARENA_HEAP_POS)) s =
  mk_attrs (16 * (s / 16)) heap ARENA_TYPE_USED.
Proof.
  intros Hh Hs; replace (Z.lor ARENA_TYPE_USED (Z.shiftl heap ARENA_HEAP_POS)) with (16 * 0 + (4 * heap + 0))
    by (assert (heap = 0 \/ heap = 1) as [-> | ->] by lia; reflexivity).
  unfold ARENA_SIZE_SET; replace s with (16 * (s / 16) + s mod 16) at 1
    by (Z.to_euclidean_division_equations; lia).
  change (u32 (Z.lnot ARENA_SIZE_MASK)) with (16 * 0 + 15).
  change ARENA_SIZE_MASK with (16 * units + 0).
  pose proof (Z.mod_pos_bound s 16 ltac:(lia)).
  rewrite !land_16, lor_16, !Z.land_0_r, Z.lor_0_r by (try apply land_nibble; lia).
  rewrite land_units by (unfold units; Z.to_euclidean_division_equations; lia).
  replace (Z.lor 0 (Z.land (4 * heap + 0) 15)) with (4 * heap + 0)
    by (assert (heap = 0 \/ heap = 1) as [-> | ->] by lia; reflexivity).
  unfold mk_attrs, ARENA_TYPE_USED; lia.
Qed.

(** A block prepared and injected where the heap has nothing. *)
Lemma prepare_inject fuel m heap bs fl a s : 0 <= heap < 2 -> repr m heap bs fl ->
  (length bs < fuel)%nat -> 32 <= s -> bottom <= a -> a + s <= top ->
  (forall q, a <= q < a + s -> ~ region bs q) ->
  (forall q, a <= q < a + s -> q <> head 0 /\ q <> head 1) ->
  let m1 := set_attrs m a (Z.lor ARENA_TYPE_USED (Z.shiftl heap ARENA_HEAP_POS)) in
  let m1 := set_attrs m1 a (ARENA_SIZE_SET (attrs m1 a) s) in
  exists m' bs' fl', inject_free_block fuel m1 a = Some m' /\ repr m' heap bs' fl' /\
    (length bs' <= S (length bs))%nat /\
    (bs = [] -> bs' = [Block a (16 * (s / 16)) None]) /\
    (forall q, region bs' q -> region bs q \/ a <= q < a + s) /\
    frame m m' heap (Block a s None :: bs).
Proof.
  intros Hh R Hf Hs Ha1 Ha2 Hfree Hhd; cbv zeta.
  set (m2 := set_attrs (set_attrs m a _) a _); set (s' := 16 * (s / 16)).
  assert (Hs' : 32 <= s' <= s /\ (16 | s'))
    by (unfold s'; split; [Z.to_euclidean_division_equations; lia|exists (s / 16); lia]).
  assert (Hsame : forall q, q <> a -> same_at m m2 q) by (intros q Hq; unfold m2; frame_tac).
  assert (Hha : head heap <> a).
  { intros E; destruct (Hhd a ltac:(lia)); assert (heap = 0 \/ heap = 1) as [-> | ->] by lia; auto. }
  assert (R2 : repr m2 heap bs fl).
  { apply (repr_ext m); auto; intros q [->|Hq]%elem_of_cons; apply Hsame; auto.
    intros ->; apply (Hfree a ltac:(lia)); eapply addrs_region; eauto; apply R. }
  assert (Hat : attrs m2 a = mk_attrs s' heap ARENA_TYPE_USED).
  { unfold m2; mem_cbn; fsimp; apply prepare_attrs; auto; unfold bottom, top in *; lia. }
  destruct (inject_spec fuel m2 heap bs fl a s' ltac:(lia) R2 Hf) as
    [(l1 & l2 & m' & fl' & -> & E & R' & F)|(_ & c & Hc & Hc1 & Hc2)]; auto.
  - split; [tauto|simpl; lia].
  - lia.
  - unfold outside, b_end; simpl.
    destruct (Z.lt_ge_cases (head heap) a); [now left|].
    destruct (Z.lt_ge_cases (head heap) (a + s)); [|right; lia].
    destruct (Hhd (head heap) ltac:(lia)); assert (heap = 0 \/ heap = 1) as [-> | ->] by lia; congruence.
  - exists m', (release l1 (Block a s' (Some (tag m2 a))) l2), fl'.
    pose proof (r_ok _ _ _ (r_arena _ _ _ _ (proj1 R))) as Hok.
    pose proof (fun q => release_region l1 (Block a s' (Some (tag m2 a))) l2 q
      ltac:(split; simpl; tauto) Hok) as Hreg.
    split; [exact E|split; [exact R'|split; [|split; [|split]]]].
    + rewrite length_app; apply release_length.
    + intros [-> ->]%app_nil; reflexivity.
    + intros q; rewrite Hreg, !region_app, region_cons; unfold b_end; simpl; intuition lia.
    + intros q Hq Hr; rewrite region_cons in Hr; unfold b_end in Hr; simpl in Hr.
      assert (H1 : same_at m m2 q) by (apply Hsame; intros ->; apply Hr; left; lia).
      assert (H2 : same_at m2 m' q).
      { apply F; auto; rewrite region_app, region_cons in *; unfold b_end; simpl; intuition lia. }
      unfold same_at in *; intuition congruence.
  - exfalso; apply (Hfree (Z.max a (b_addr c)) ltac:(pose proof (r_ok _ _ _ (r_arena _ _ _ _ (proj1 R))) as Ho;
      rewrite Forall_forall in Ho; apply Ho in Hc; unfold block_ok in Hc; lia)).
    apply Exists_exists; exists c; split; auto.
    pose proof (r_ok _ _ _ (r_arena _ _ _ _ (proj1 R))) as Ho; rewrite Forall_forall in Ho.
    apply Ho in Hc; unfold block_ok, b_end in *; lia.
Qed.

(** The areas the firmware reports lie below 4 GB, in ascending order and
    apart from each other; the free ones above 1 MB end above [lo]. *)
Fixpoint areas_ok (from lo : Z) (areas : list (Z * Z * Z)) : Prop :=
  match areas with
  | [] => True
  | (start, len, type) :: areas =>
      from <= start /\ 0 <= len /\ start + len < 4294967296 /\
      (1048576 <= start <= E820_MEM_MAX -> type = SMT_FREE -> lo <= start + len) /\
      areas_ok (start + len) lo areas
  end.

(** The state while memory is scanned: the main heap lies between 1 MB and
    [cs_memsize], the low heap below. *)
Definition scanned (m : memory) (cs_memsize : Z) (bs0 bs1 : list block) : Prop :=
  (exists fl, repr m HEAP_MAIN bs0 fl) /\ (exists fl, repr m HEAP_LOWMEM bs1 fl) /\
  (forall q, region bs0 q -> 1048576 <= q < cs_memsize) /\
  (forall q, region bs1 q -> q < 1048576).

Section Scan.
Hypothesis head_main_low : head HEAP_MAIN < 1048576.
Hypothesis head_lowmem_low : head HEAP_LOWMEM < 1048576.

Lemma scan_area_correct fuel m cs bs0 bs1 start len type from lo : 0 <= from ->
  scanned m cs bs0 bs1 -> (length bs0 < fuel)%nat -> ~ region bs1 (head HEAP_MAIN) ->
  cs <= Z.max from lo -> 0 <= cs <= E820_MEM_MAX -> 1048576 <= lo ->
  areas_ok from lo [(start, len, type)] ->
  exists m' cs' bs0', scan_highmem_area fuel (m, cs) start len type = Some (m', cs') /\
    scanned m' cs' bs0' bs1 /\ (length bs0' <= S (length bs0))%nat /\
    cs' <= Z.max (start + len) lo /\ 0 <= cs' <= E820_MEM_MAX.
Proof.
  intros Hfrom ([fl0 R0] & [fl1 R1] & H0 & H1) Hf Hhm Hcs1 Hcs2 Hlo (Ha1 & Ha2 & Ha3 & Ha4 & _).
  pose proof head_main_low as Hh0; pose proof head_lowmem_low as Hh1.
  unfold scan_highmem_area, E820_MEM_MAX in *.
  destruct ((start <? 1048576) || (4293918720 <? start) || negb (type =? SMT_FREE)) eqn:E.
  { exists m, cs, bs0; split; [auto|]; split; [|lia]. split; eauto. }
  bools; specialize (Ha4 ltac:(lia) ltac:(auto)).
  set (start' := Z.max start cs); set (stop := start + len) in *.
  assert (Hst : (if start <? cs then (cs, u32 (len - u32 (cs - start))) else (start, len)) =
    (start', stop - start')).
  { unfold start', stop; destruct (Z.ltb_spec start cs); rewrite ?(u32_small (cs - start)), ?u32_small by lia;
      f_equal; lia. }
  rewrite Hst; rewrite u32_small by (unfold start'; lia).
  set (len' := Z.min (stop - start') (4293918720 - start')).
  assert (Hl : (if 4293918720 - start' <? stop - start' then 4293918720 - start' else stop - start') = len')
    by (unfold len'; destruct (Z.ltb_spec (4293918720 - start') (stop - start')); lia).
  rewrite Hl; assert (Hle : 0 <= len' /\ start' + len' <= stop /\ start' + len' <= 4293918720 /\
    1048576 <= start' /\ cs <= start') by (unfold len', start'; lia).
  rewrite u32_small by lia; unfold sizeof_arena_header.
  destruct (Z.leb_spec (2 * 16) len') as [Hb|Hb].
  - destruct (prepare_inject fuel m HEAP_MAIN bs0 fl0 start' len' ltac:(unfold HEAP_MAIN; lia) R0 Hf)
      as (m' & bs' & fl' & E & R' & Hlen & _ & Hreg & F); unfold bottom, top, HEAP_MAIN, HEAP_LOWMEM in *;
      try lia.
    { intros q Hq Hr; apply H0 in Hr; lia. }
    rewrite E; exists m', (start' + len'), bs'; split; [auto|]; split; [|lia].
    split; [eauto|split; [exists fl1|split; [|auto]]].
    + apply (frame_repr m m' 0 (Block start' len' None :: bs0)); auto.
      * rewrite region_cons; unfold b_end; mem_cbn; intros [?|Hr]; [|apply H0 in Hr]; unfold HEAP_LOWMEM in *; lia.
      * intros q Hr; apply H1 in Hr; rewrite region_cons; unfold b_end; mem_cbn.
        intros [?|Hr']; [lia|apply H0 in Hr'; lia].
    + intros q [Hr|Hr]%Hreg; [apply H0 in Hr|]; lia.
  - exists m, (start' + len'), bs0; split; [auto|]; split; [|lia].
    split; [eauto|split; [eauto|split; [|auto]]]; intros q Hr; apply H0 in Hr; lia.
Qed.

Lemma scan_areas_correct fuel bs1 lo : 1048576 <= lo -> ~ region bs1 (head HEAP_MAIN) ->
  forall areas m cs bs0 from, 0 <= from -> scanned m cs bs0 bs1 ->
  (length bs0 + length areas < fuel)%nat ->
  cs <= Z.max from lo -> 0 <= cs <= E820_MEM_MAX -> areas_ok from lo areas ->
  exists m' cs' bs0', scan_areas fuel (m, cs) areas = Some (m', cs') /\ scanned m' cs' bs0' bs1.
Proof.
  intros Hlo Hhm; induction areas as [|[[start len] type] areas IH]; cbn [scan_areas length];
    intros m cs bs0 from Hfrom Hs Hf Hc1 Hc2 Ha; [eauto|].
  destruct Ha as (Ha1 & Ha2 & Ha3 & Ha4 & Ha5).
  destruct (scan_area_correct fuel m cs bs0 bs1 start len type from lo) as
    (m1 & cs1 & bs1' & -> & Hs1 & Hl & Hc3 & Hc4); auto; [lia|simpl; auto|].
  apply (IH m1 cs1 bs1' (start + len)); auto; lia.
Qed.

(** The allocator starts well formed: after [mem_init] the low heap is the
    one free block from [__lowmem_heap] to the top of the BIOS's low memory, and
    the main heap lies between 1 MB and the top of the memory scanned. *)
Theorem mem_init_correct fuel m lowmem_heap bios_free_mem free_high_memory areas :
  bottom <= lowmem_heap -> lowmem_heap + 32 <= 1024 * bios_free_mem <= 1048576 ->
  (forall i, 0 <= i < 2 -> outside (head i) (Block lowmem_heap (1024 * bios_free_mem - lowmem_heap) None)) ->
  1048576 <= free_high_memory <= E820_MEM_MAX -> areas_ok 0 free_high_memory areas ->
  (length areas < fuel)%nat ->
  exists m' cs bs0,
    mem_init fuel m lowmem_heap bios_free_mem free_high_memory areas = Some (m', cs) /\
    scanned m' cs bs0
      [Block lowmem_heap (16 * ((1024 * bios_free_mem - lowmem_heap) / 16)) None].
Proof.
  intros Hl1 Hl2 Hout Hf Hareas Hfuel; unfold mem_init; rewrite (Z.shiftl_mul_pow2 bios_free_mem) by lia.
  change (2 ^ 10) with 1024; rewrite (Z.mul_comm bios_free_mem), u32_small by (unfold bottom in *; lia).
  set (m1 := init_head (init_head m 0) 1); set (s := 1024 * bios_free_mem - lowmem_heap).
  assert (R0 : repr m1 HEAP_MAIN [] []).
  { apply init_head_other; [apply init_head_repr; unfold HEAP_MAIN; lia|done|].
    rewrite region_nil; tauto. }
  assert (R1 : repr m1 HEAP_LOWMEM [] []) by (apply init_head_repr; unfold HEAP_LOWMEM; lia).
  destruct (prepare_inject fuel m1 HEAP_LOWMEM [] [] lowmem_heap s) as
    (m2 & bs & fl & E & R2 & _ & Hbs & _ & F); auto; try (unfold HEAP_LOWMEM, s, bottom, top in *; simpl; lia).
  { intros q _; rewrite region_nil; tauto. }
  { intros q Hq; pose proof (Hout 0 ltac:(lia)) as Hh0; pose proof (Hout 1 ltac:(lia)) as Hh1.
    unfold outside, b_end in *; simpl in *; unfold s in Hq; lia. }
  cbv zeta in E; rewrite E; specialize (Hbs eq_refl); subst bs.
  assert (R0' : repr m2 HEAP_MAIN [] []).
  { apply (frame_repr m1 m2 HEAP_LOWMEM [Block lowmem_heap s None]); auto; try discriminate.
    - rewrite region_cons, region_nil; pose proof (Hout 0 ltac:(lia)) as Hh0.
      unfold outside, b_end, HEAP_MAIN in *; simpl in *; unfold s; lia.
    - rewrite region_nil; tauto.
    - intros q; rewrite region_nil; tauto. }
  assert (Hreg : forall q, region [Block lowmem_heap (16 * (s / 16)) None] q -> lowmem_heap <= q < lowmem_heap + s).
  { intros q; rewrite region_cons, region_nil; unfold b_end; simpl.
    Z.to_euclidean_division_equations; lia. }
  apply (scan_areas_correct fuel _ free_high_memory) with (bs0 := []) (from := 0); auto; try lia.
  - intros Hr; apply Hreg in Hr; pose proof (Hout 0 ltac:(lia)) as Hh0.
    unfold outside, b_end, HEAP_MAIN in *; simpl in *; unfold s in Hr; lia.
  - split; [eauto|split; [eauto|split]]; intros q; [rewrite region_nil; tauto|].
    intros Hr; apply Hreg in Hr; unfold s in Hr; lia.
Qed.
End Scan.

End Arena.

(** ** A concrete heap *)

(** Two blocks were allocated from a memory of 16 MB and the first was released. *)
Definition demo_init : option (memory * Z) :=
  mem_init 4096 10 (Memory (fun _ => 7) (fun _ => 7) (fun _ => 7) (fun _ => 7) (fun _ => 7) (fun _ => 7))
    65536 640 1114112 [(0, 655360, 1); (1048576, 15728640, 1)].

Definition demo_ops : option memory :=
  let* (m, _) := demo_init in
  let* (p, m) := malloc 4096 10 m 100 in
  let* (_, m) := malloc 4096 10 m 100 in
  Some (free 4096 m p).

Definition demo : memory :=
  default (Memory (fun _ => 0) (fun _ => 0) (fun _ => 0) (fun _ => 0) (fun _ => 0) (fun _ => 0)) demo_ops.

Definition demo_used : block := Block 1114240 128 (Some 2).
Definition demo_rest : block := Block 1114368 15662848 None.
Definition demo_blocks : list block := [Block 1114112 128 None; demo_used; demo_rest].
Definition demo_low : list block := [Block 65536 589824 None].

(** Checks a property of each block of a concrete list. *)
Ltac each := repeat (apply Forall_cons; split); try (apply Forall_nil; exact I).

Lemma demo_repr : repr 4096 demo HEAP_MAIN demo_blocks [1114112; 1114368].
Proof.
  split; [|vm_compute; intuition discriminate].
  constructor; [|repeat split; vm_compute; reflexivity|reflexivity].
  constructor.
  - vm_compute; intuition discriminate.
  - each; (split; [apply Z.mod_divide; [discriminate|reflexivity]|vm_compute; discriminate]).
  - each; (split; [vm_compute; reflexivity|intros t [= <-] || discriminate]; vm_compute; reflexivity).
  - each; left; vm_compute; reflexivity.
  - vm_compute; reflexivity.
  - repeat split; vm_compute; reflexivity.
Qed.

Theorem bios_malloc_correct_witness : exists p m' bs' fl',
  bios_malloc 4096 3 demo 1000 HEAP_MAIN MALLOC_CORE = Some (p, m') /\
  repr 4096 m' HEAP_MAIN bs' fl' /\ total bs' = total demo_blocks /\
  (forall d t, b_owner d = Some t -> d ∈ demo_blocks -> d ∈ bs') /\
  (p = 0 /\ m' = demo /\
   (forall b, b ∈ demo_blocks -> b_owner b = None -> b_size b < arena_round 1000) \/
   exists c f, c ∈ bs' /\ b_owner c = Some MALLOC_CORE /\ p = b_addr c + 16 /\ 1000 + 16 <= b_size c /\
     f ∈ demo_blocks /\ b_owner f = None /\ b_addr f = b_addr c /\ b_size c <= b_size f).
Proof.
  apply (bios_malloc_correct 4096 3 demo HEAP_MAIN demo_blocks [1114112; 1114368] 1000 MALLOC_CORE);
    [unfold HEAP_MAIN; lia|exact demo_repr|lia|lia|simpl; lia].
Defined.

Theorem bios_malloc_wraps_witness :
  exists m', bios_malloc 4096 1 demo 4294967280 HEAP_MAIN MALLOC_CORE = Some (1114112 + 16, m').
Proof.
  apply (bios_malloc_wraps 4096 1 demo HEAP_MAIN demo_blocks 1114112 [1114368]);
    [unfold HEAP_MAIN; lia|exact demo_repr|lia|lia].
Defined.

Theorem free_correct_witness : exists bs' fl',
  repr 4096 (free 4096 demo (1114240 + 16)) HEAP_MAIN bs' fl' /\
  total bs' = total demo_blocks /\
  forall c t', b_owner c = Some t' -> c ∈ bs' <-> c ∈ [Block 1114112 128 None; demo_rest].
Proof.
  apply (free_correct 4096 demo HEAP_MAIN [Block 1114112 128 None] demo_used [demo_rest]
           [1114112; 1114368] 2);
    [unfold HEAP_MAIN; lia|exact demo_repr|reflexivity].
Defined.

(** A megabyte above the heap, prepared for injection. *)
Definition demo_more : memory := set_attrs demo 16777216 (mk_attrs 1048576 HEAP_MAIN ARENA_TYPE_USED).

Lemma demo_more_repr : repr 4096 demo_more HEAP_MAIN demo_blocks [1114112; 1114368].
Proof.
  apply (repr_ext 4096 demo); [exact demo_repr|].
  intros q Hq; assert (q <> 16777216); [|now apply set_attrs_same].
  intros ->; change (16777216 ∈ [4096; 1114112; 1114240; 1114368]) in Hq.
  rewrite !elem_of_cons, elem_of_nil in Hq; lia.
Qed.

Theorem inject_correct_witness :
  (exists m' bs' fl', inject_free_block 4096 4 demo_more 16777216 = Some m' /\
     repr 4096 m' HEAP_MAIN bs' fl' /\ total bs' = total demo_blocks + 1048576 /\
     forall c t, b_owner c = Some t -> c ∈ bs' <-> c ∈ demo_blocks) \/
  inject_free_block 4096 4 demo_more 16777216 = Some demo_more /\
    exists c, c ∈ demo_blocks /\ b_addr c < 16777216 + 1048576 /\ 16777216 < b_end c.
Proof.
  apply (inject_correct 4096 4 demo_more HEAP_MAIN demo_blocks [1114112; 1114368] 16777216 1048576);
    [unfold HEAP_MAIN; lia|exact demo_more_repr|simpl; lia| | | |left; reflexivity|reflexivity];
    try (vm_compute; discriminate).
  split; [apply Z.mod_divide; [discriminate|reflexivity]|vm_compute; discriminate].
Defined.

Theorem realloc_correct_witness : exists p m' data' bs' fl',
  bios_realloc 4096 3 demo u8 (1114240 + 16) 5000 = Some (p, m', data') /\
  repr 4096 m' HEAP_MAIN bs' fl' /\
  (forall d t', b_owner d = Some t' -> d ∈ [Block 1114112 128 None; demo_rest] -> d ∈ bs') /\
  (p = 0 /\ data' = u8 /\ demo_used ∈ bs' \/
   exists c t', c ∈ bs' /\ b_owner c = Some t' /\ p = b_addr c + 16 /\ 5000 + 16 <= b_size c /\
     forall i, 0 <= i < Z.min 5000 (128 - 16) -> data' (p + i) = u8 (1114240 + 16 + i)).
Proof.
  apply (realloc_correct 4096 3 demo u8 [Block 1114112 128 None] demo_used [demo_rest]
           [1114112; 1114368] 2);
    [exact demo_repr|reflexivity|lia|lia|simpl; lia].
Defined.

Lemma demo_low_repr : repr 4096 demo HEAP_LOWMEM demo_low [65536].
Proof.
  split; [|exact I]; constructor; [|repeat split; vm_compute; reflexivity|reflexivity].
  constructor.
  - vm_compute; intuition discriminate.
  - each; (split; [apply Z.mod_divide; [discriminate|reflexivity]|vm_compute; discriminate]).
  - each; (split; [vm_compute; reflexivity|discriminate]).
  - each; left; vm_compute; reflexivity.
  - vm_compute; reflexivity.
  - repeat split; vm_compute; reflexivity.
Qed.

Theorem free_tagged_correct_witness : exists m' bs0' fl0' bs1' fl1',
  free_tagged 4096 4 demo 2 = Some m' /\
  repr 4096 m' HEAP_MAIN bs0' fl0' /\ repr 4096 m' HEAP_LOWMEM bs1' fl1' /\
  forall c t, b_owner c = Some t ->
    (c ∈ bs0' <-> c ∈ demo_blocks /\ t <> 2) /\ (c ∈ bs1' <-> c ∈ demo_low /\ t <> 2).
Proof.
  apply (free_tagged_correct 4096 4 demo demo_blocks [1114112; 1114368] demo_low [65536]);
    [exact demo_repr|exact demo_low_repr| |simpl; lia|simpl; lia].
  unfold separate, region, demo_blocks, demo_low, demo_used, demo_rest, b_end; split; [|split].
  - intros q Hq; rewrite !Exists_cons, !Exists_nil in *; simpl in *; lia.
  - rewrite !Exists_cons, !Exists_nil; vm_compute; intuition congruence.
  - rewrite !Exists_cons, !Exists_nil; vm_compute; intuition congruence.
Defined.

Theorem mem_init_correct_witness : exists m' cs bs0,
  mem_init 4096 10 demo 65536 640 1114112 [(0, 655360, 1); (1048576, 15728640, 1)] = Some (m', cs) /\
  scanned 4096 m' cs bs0 [Block 65536 (16 * ((1024 * 640 - 65536) / 16)) None].
Proof.
  apply mem_init_correct; try reflexivity; try (vm_compute; intuition discriminate).
  - intros i Hi; left; unfold head, sizeof_free_arena_header, ARENA_PADDING, sizeof_arena_header.
    simpl; lia.
  - simpl; lia.
Defined.
