(* ===== verification/Printf.v ===== *)
(** * Formatted output: com32/lib/vsnprintf.c

    The engine of the printf family, with [int], [long], [size_t] and pointers of 32 bits
    and [long long] and [uintmax_t] of 64.  The output state [out] is the
    buffer, the pointer [q] into it and the count [o] of characters produced,
    as the code keeps them: [o] wraps around at 2^32.  [None] is a store outside the
    buffer, a reading past a string, or undefined behaviour of the call (a missing
    argument, one of the wrong kind, an [int] that overflows). *)

From S2P Require Import Prelude.

Definition FL_ZERO : Z := 1.
Definition FL_MINUS : Z := 2.
Definition FL_PLUS : Z := 4.
Definition FL_TICK : Z := 8.
Definition FL_SPACE : Z := 16.
Definition FL_HASH : Z := 32.
Definition FL_SIGNED : Z := 64.
Definition FL_UPPER : Z := 128.

(** The flag is set in the word of flags.
    [src/com32/lib/vsnprintf.c:15-24 enum flags] *)
Definition has (flags fl : Z) : bool := negb (Z.land flags fl =? 0).

(** [src/com32/lib/vsnprintf.c:27-40 enum ranks] *)
Definition rank_char : Z := -2.
Definition rank_short : Z := -1.
Definition rank_int : Z := 0.
Definition rank_long : Z := 1.
Definition rank_longlong : Z := 2.

(** Two's complement of the given width. *)
Definition signed (bits v : Z) : Z := (v + 2 ^ (bits - 1)) mod 2 ^ bits - 2 ^ (bits - 1).

(** ** Output *)

(** [q] is the distance of the pointer from the begin of the buffer. *)
Record out := Out { o_buf : list Z; o_q : nat; o_o : Z }.

Definition put (buf : list Z) (q : nat) (x : Z) : option (list Z) :=
  if (q <? length buf)%nat then Some (<[q := x]> buf) else None.

(** [src/com32/lib/vsnprintf.c:42-42 EMIT] *)
Definition EMIT (n : nat) (x : Z) (s : out) : option out :=
  if o_o s <? Z.of_nat n
  then let* buf := put (o_buf s) (o_q s) x in Some (Out buf (S (o_q s)) (u32 (o_o s + 1)))
  else Some (Out (o_buf s) (o_q s) (u32 (o_o s + 1))).

(** What the formatting code asks of its output: to take one more character.
    The buffer of the C code is one instance, a text another. *)
Class Emitter (T : Type) := emit : Z -> T -> option T.

Definition buffer_emitter (n : nat) : Emitter out := EMIT n.

(** A loop of [k] turns that emits the same character. *)
Fixpoint emit_pad {T} `{Emitter T} (k : nat) (x : Z) (s : T) : option T :=
  match k with
  | O => Some s
  | S k => let* s := emit x s in emit_pad k x s
  end.

Fixpoint emit_all {T} `{Emitter T} (l : list Z) (s : T) : option T :=
  match l with
  | [] => Some s
  | x :: l => let* s := emit x s in emit_all l s
  end.

(** ** Integers *)

Definition lcdigits : list Z := [48; 49; 50; 51; 52; 53; 54; 55; 56; 57; 97; 98; 99; 100; 101; 102].
Definition ucdigits : list Z := [48; 49; 50; 51; 52; 53; 54; 55; 56; 57; 65; 66; 67; 68; 69; 70].

(** [src/com32/lib/vsnprintf.c:67-72 format_int] *)
Fixpoint count_digits (fuel : nat) (tmpval base : Z) : nat :=
  match fuel with
  | O => O
  | S fuel => if tmpval =? 0 then O else S (count_digits fuel (tmpval / base) base)
  end.

(** The generation of the number from right to left, [ndigits] characters of it
    left to do before [qq] and [oo].
    [src/com32/lib/vsnprintf.c:141-157 format_int] *)
Fixpoint gen_digits (fuel : nat) (n : nat) (digits : list Z) (base : Z) (tickskip ndigits b4tick : Z)
    (val : Z) (qq : nat) (oo : Z) (buf : list Z) : option (list Z) :=
  match fuel with
  | O => None
  | S fuel =>
      if ndigits <=? 0 then Some buf
      else
        let tick := b4tick =? 0 in
        let qq1 := if tick then (qq - 1)%nat else qq in
        let oo1 := if tick then u32 (oo - 1) else oo in
        let ndigits := if tick then ndigits - 1 else ndigits in
        let* buf := (if tick && (oo1 <? Z.of_nat n) then put buf qq1 95 else Some buf) in
        let b4tick := if tick then tickskip - 1 else b4tick - 1 in
        let qq2 := (qq1 - 1)%nat in
        let oo2 := u32 (oo1 - 1) in
        let* buf := (if oo2 <? Z.of_nat n
                     then put buf qq2 (nth (Z.to_nat (val mod base)) digits 0) else Some buf) in
        gen_digits fuel n digits base tickskip (ndigits - 1) b4tick (val / base) qq2 oo2 buf
  end.

(** The layout of a number: the magnitude, whether it is negative, the number
    of digits, of digits and tick marks, the distance between marks, and the number of
    characters without padding.
    [src/com32/lib/vsnprintf.c:61-104 format_int] *)
Definition int_layout (val flags base prec : Z) : Z * bool * Z * Z * Z * Z :=
  let minus := has flags FL_SIGNED && (signed 64 val <? 0) in
  let val := if minus then u64 (- signed 64 val) else val in
  let ndigits := Z.of_nat (count_digits 64 val base) in
  let prec := if has flags FL_HASH && (base =? 8)
              then if prec <? ndigits + 1 then ndigits + 1 else prec else prec in
  let ndigits := if ndigits <? prec then prec else if val =? 0 then 1 else ndigits in
  let tickskip := if has flags FL_TICK then if base =? 16 then 4 else 3 else ndigits in
  let plain := ndigits in
  let ndigits := ndigits + (ndigits - 1) / tickskip in
  let nchars := ndigits in
  let nchars := if minus || has flags (FL_PLUS + FL_SPACE) then nchars + 1 else nchars in
  let nchars := if has flags FL_HASH && (base =? 16) then nchars + 2 else nchars in
  (val, minus, plain, ndigits, tickskip, nchars).

(** The numbers of characters are of type [int]: they must not overflow.
    [src/com32/lib/vsnprintf.c:93-104 format_int] *)
Definition int_fits (val flags base prec : Z) : bool :=
  let '(_, _, _, _, _, nchars) := int_layout val flags base prec in nchars <=? 2147483647.

(** [src/com32/lib/vsnprintf.c:114-125 format_int] *)
Definition nondigits (minus : bool) (flags base : Z) : list Z :=
  (if minus then [45] else if has flags FL_PLUS then [43] else if has flags FL_SPACE then [32] else []) ++
  (if has flags FL_HASH && (base =? 16) then [48; if has flags FL_UPPER then 88 else 120] else []).

(** The early padding, the zero padding and the late padding.
    [src/com32/lib/vsnprintf.c:106-133 format_int] *)
Definition paddings (flags width ndigits nchars : Z) : nat * nat * nat :=
  let early := if negb (has flags (FL_MINUS + FL_ZERO)) && (nchars <? width)
               then Z.to_nat (width - nchars) else O in
  let width := width - Z.of_nat early in
  let zeros := if (Z.land flags (FL_MINUS + FL_ZERO) =? FL_ZERO) && (ndigits <? width)
               then Z.to_nat (width - nchars) else O in
  let width := width - Z.of_nat zeros in
  let late := if has flags FL_MINUS then Z.to_nat (width - nchars) else O in
  (early, zeros, late).

(** Returns the output state; the count of characters is in [o_o].
    [src/com32/lib/vsnprintf.c:44-166 format_int] *)
Definition format_int (q : nat) (n : nat) (val flags base width prec : Z) (buf : list Z)
  : option out :=
  let digits := if has flags FL_UPPER then ucdigits else lcdigits in
  if negb (int_fits val flags base prec) then None else
  let '(val, minus, _, ndigits, tickskip, nchars) := int_layout val flags base prec in
  let '(early, zeros, late) := paddings flags width ndigits nchars in
  let _ := buffer_emitter n in
  let* s := emit_pad early 32 (Out buf q 0) in
  let* s := emit_all (nondigits minus flags base) s in
  let* s := emit_pad zeros 48 s in
  let q := (o_q s + Z.to_nat ndigits)%nat in
  let o := u32 (o_o s + ndigits) in
  let* buf := gen_digits (S (Z.to_nat ndigits)) n digits base tickskip ndigits tickskip val q o
                (o_buf s) in
  emit_pad late 32 (Out buf q o).

(** What [vsnprintf] asks of its output: the value, the flags, the base, the
    width and the precision make an integer; [count] is the variable [o]. *)
Class Sink (T : Type) := {
  sink_emitter :: Emitter T;
  print_int : Z -> Z -> Z -> Z -> Z -> T -> option T;
  count : T -> Z
}.

(** The buffer of [n] bytes.
    [src/com32/lib/vsnprintf.c:371-376 vsnprintf] *)
Definition buffer_sink (n : nat) : Sink out := {|
  sink_emitter := buffer_emitter n;
  print_int val flags base width prec o :=
    let* r := format_int (o_q o) (if o_o o <? Z.of_nat n then (n - Z.to_nat (o_o o))%nat else O)
                val flags base width prec (o_buf o) in
    Some (Out (o_buf r) (o_q o + Z.to_nat (o_o r)) (u32 (o_o o + o_o r)));
  count := o_o
|}.

(** ** The format *)

(** A variadic argument: a number (or a pointer), or a string, NULL being [None]. *)
Inductive arg := ArgNum (z : Z) | ArgStr (s : option (list Z)).

(** [src/com32/lib/vsnprintf.c:182-188 vsnprintf] *)
Inductive pstate := st_normal | st_flags | st_width | st_prec | st_modifiers.

(** The local variables of [vsnprintf]; [p_stores] lists what [%n] stores, by rank,
    pointer and value.
    [src/com32/lib/vsnprintf.c:170-191 vsnprintf] *)
Record printf (T : Type) := Printf {
  p_out : T;
  p_args : list arg;
  p_state : pstate;
  p_flags : Z;
  p_rank : Z;
  p_width : Z;
  p_prec : Z;
  p_stores : list (Z * Z * Z)
}.

Arguments Printf {T}.
Arguments p_out {T}.
Arguments p_args {T}.
Arguments p_state {T}.
Arguments p_flags {T}.
Arguments p_rank {T}.
Arguments p_width {T}.
Arguments p_prec {T}.
Arguments p_stores {T}.

Section Format.
Context {T : Type} `{Sink T}.

Definition with_state (st : pstate) (s : printf T) : printf T :=
  Printf (p_out s) (p_args s) st (p_flags s) (p_rank s) (p_width s) (p_prec s) (p_stores s).
Definition with_out (o : T) (s : printf T) : printf T :=
  Printf o (p_args s) (p_state s) (p_flags s) (p_rank s) (p_width s) (p_prec s) (p_stores s).
Definition with_flag (fl : Z) (s : printf T) : printf T :=
  Printf (p_out s) (p_args s) (p_state s) (Z.lor (p_flags s) fl) (p_rank s) (p_width s) (p_prec s)
    (p_stores s).
Definition with_rank (r : Z) (s : printf T) : printf T :=
  Printf (p_out s) (p_args s) (p_state s) (p_flags s) r (p_width s) (p_prec s) (p_stores s).
Definition with_width (w : Z) (s : printf T) : printf T :=
  Printf (p_out s) (p_args s) (p_state s) (p_flags s) (p_rank s) w (p_prec s) (p_stores s).
Definition with_prec (v : Z) (s : printf T) : printf T :=
  Printf (p_out s) (p_args s) (p_state s) (p_flags s) (p_rank s) (p_width s) v (p_stores s).

(** [va_arg] of a number and of a string. *)
Definition va_num (s : printf T) : option (Z * printf T) :=
  match p_args s with
  | ArgNum z :: args =>
      Some (z, Printf (p_out s) args (p_state s) (p_flags s) (p_rank s) (p_width s) (p_prec s) (p_stores s))
  | _ => None
  end.

Definition va_str (s : printf T) : option (option (list Z) * printf T) :=
  match p_args s with
  | ArgStr z :: args =>
      Some (z, Printf (p_out s) args (p_state s) (p_flags s) (p_rank s) (p_width s) (p_prec s) (p_stores s))
  | _ => None
  end.

(** The digits of a width or a precision; overflow of [int] is undefined.  After the -1 that an
    argument leaves, the digits give a precision below -1. *)
Definition add_digit (v ch : Z) : option Z :=
  let v := v * 10 + (ch - 48) in
  if (-2147483648 <=? v) && (v <=? 2147483647) then Some v else None.

Definition is_digit (ch : Z) : bool := (48 <=? ch) && (ch <=? 57).

(** The value of a signed conversion, of the rank's width.
    [src/com32/lib/vsnprintf.c:309-332 vsnprintf] *)
Definition signed_value (rank v : Z) : Z :=
  u64 (if rank =? rank_char then signed 8 v
       else if rank =? rank_short then signed 16 v
       else if rank =? rank_int then signed 32 v
       else if rank =? rank_long then signed 32 v else signed 64 v).

(** [src/com32/lib/vsnprintf.c:349-368 vsnprintf] *)
Definition unsigned_value (rank v : Z) : Z :=
  if rank =? rank_char then u8 v
  else if rank =? rank_short then u16 v
  else if rank =? rank_int then u32 v
  else if rank =? rank_long then u32 v else u64 v.

(** The label [is_integer]. *)
Definition print_integer (val base : Z) (s : printf T) : option (printf T) :=
  let* o := print_int val (p_flags s) base (p_width s) (p_prec s) (p_out s) in
  Some (with_out o s).

Definition null_text : list Z := [40; 110; 117; 108; 108; 41].

(** A negative length, from a precision below -1, takes the loop past the string.
    [src/com32/lib/vsnprintf.c:389-415 vsnprintf] *)
Definition print_string (sarg : list Z) (s : printf T) : option (printf T) :=
  let slen := s32 (Z.of_nat (length sarg)) in
  let slen := if negb (p_prec s =? -1) && (p_prec s <? slen) then p_prec s else slen in
  if slen <? 0 then None else
  let pads := Z.to_nat (p_width s - slen) in
  let* o := (if has (p_flags s) FL_MINUS then Some (p_out s)
             else emit_pad pads (if has (p_flags s) FL_ZERO then 48 else 32) (p_out s)) in
  let* o := emit_all (take (Z.to_nat slen) sarg) o in
  let* o := (if has (p_flags s) FL_MINUS then emit_pad pads 32 o else Some o) in
  Some (with_out o s).

(** [%n]: the count, truncated to the width of the rank.
    [src/com32/lib/vsnprintf.c:417-437 vsnprintf] *)
Definition print_count (s : printf T) : option (printf T) :=
  let* (p, s) := va_num s in
  let v := count (p_out s) in
  let v := if p_rank s =? rank_char then signed 8 v
           else if p_rank s =? rank_short then signed 16 v
           else if p_rank s =? rank_longlong then signed 64 v else signed 32 v in
  Some (Printf (p_out s) (p_args s) (p_state s) (p_flags s) (p_rank s) (p_width s) (p_prec s)
          ((p_rank s, p, v) :: p_stores s)).

(** The conversions, the state being normal again and the rank canonical.
    [src/com32/lib/vsnprintf.c:286-443 vsnprintf] *)
Definition convert (ch : Z) (s : printf T) : option (printf T) :=
  let s := with_state st_normal s in
  let s := with_rank (if p_rank s <? rank_char then rank_char
                      else if rank_longlong <? p_rank s then rank_longlong else p_rank s) s in
  if (ch =? 80) || (ch =? 112) then                          (* P, p *)
    let s := if ch =? 80 then with_flag FL_UPPER s else s in
    let s := with_flag FL_HASH (with_prec 8 s) in
    let* (v, s) := va_num s in print_integer (u32 v) 16 s
  else if (ch =? 100) || (ch =? 105) then                    (* d, i *)
    let s := with_flag FL_SIGNED s in
    let* (v, s) := va_num s in print_integer (signed_value (p_rank s) v) 10 s
  else if ch =? 111 then                                     (* o *)
    let* (v, s) := va_num s in print_integer (unsigned_value (p_rank s) v) 8 s
  else if ch =? 117 then                                     (* u *)
    let* (v, s) := va_num s in print_integer (unsigned_value (p_rank s) v) 10 s
  else if (ch =? 88) || (ch =? 120) then                     (* X, x *)
    let s := if ch =? 88 then with_flag FL_UPPER s else s in
    let* (v, s) := va_num s in print_integer (unsigned_value (p_rank s) v) 16 s
  else if ch =? 99 then                                      (* c *)
    let* (v, s) := va_num s in print_string [u8 v] s
  else if ch =? 115 then                                     (* s *)
    let* (v, s) := va_str s in print_string (default null_text v) s
  else if ch =? 110 then print_count s                       (* n *)
  else let* o := emit ch (p_out s) in Some (with_out o s).

(** [src/com32/lib/vsnprintf.c:264-289 vsnprintf] *)
Definition do_modifiers (ch : Z) (s : printf T) : option (printf T) :=
  if ch =? 104 then Some (with_rank (p_rank s - 1) s)        (* h *)
  else if ch =? 108 then Some (with_rank (p_rank s + 1) s)   (* l *)
  else if ch =? 106 then Some (with_rank rank_longlong s)    (* j *)
  else if ch =? 122 then Some (with_rank rank_long s)        (* z *)
  else if ch =? 116 then Some (with_rank rank_long s)        (* t *)
  else if (ch =? 76) || (ch =? 113) then Some (with_rank (p_rank s + 2) s)   (* L, q *)
  else convert ch s.

(** [src/com32/lib/vsnprintf.c:251-262 vsnprintf] *)
Definition do_prec (ch : Z) (s : printf T) : option (printf T) :=
  if is_digit ch then let* v := add_digit (p_prec s) ch in Some (with_prec v s)
  else if ch =? 42 then
    let* (v, s) := va_num s in
    let v := signed 32 v in
    Some (with_prec (if v <? 0 then -1 else v) s)
  else do_modifiers ch (with_state st_modifiers s).

(** [src/com32/lib/vsnprintf.c:233-249 vsnprintf] *)
Definition do_width (ch : Z) (s : printf T) : option (printf T) :=
  if is_digit ch then let* v := add_digit (p_width s) ch in Some (with_width v s)
  else if ch =? 42 then
    let* (v, s) := va_num s in
    let v := signed 32 v in
    if v =? -2147483648 then None
    else Some (if v <? 0 then with_flag FL_MINUS (with_width (- v) s) else with_width v s)
  else if ch =? 46 then Some (with_state st_prec (with_prec 0 s))
  else do_modifiers ch (with_state st_modifiers s).

(** [src/com32/lib/vsnprintf.c:206-231 vsnprintf] *)
Definition do_flags (ch : Z) (s : printf T) : option (printf T) :=
  if ch =? 45 then Some (with_flag FL_MINUS s)
  else if ch =? 43 then Some (with_flag FL_PLUS s)
  else if ch =? 39 then Some (with_flag FL_TICK s)
  else if ch =? 32 then Some (with_flag FL_SPACE s)
  else if ch =? 35 then Some (with_flag FL_HASH s)
  else if ch =? 48 then Some (with_flag FL_ZERO s)
  else do_width ch (with_state st_width s).

(** One character of the format; a state that processes "this character
    again" calls the state it goes to.
    [src/com32/lib/vsnprintf.c:192-204 vsnprintf] *)
Definition printf_step (ch : Z) (s : printf T) : option (printf T) :=
  match p_state s with
  | st_normal =>
      if ch =? 37 then Some (Printf (p_out s) (p_args s) st_flags 0 rank_int 0 (-1) (p_stores s))
      else let* o := emit ch (p_out s) in Some (with_out o s)
  | st_flags => do_flags ch s
  | st_width => do_width ch s
  | st_prec => do_prec ch s
  | st_modifiers => do_modifiers ch s
  end.

Fixpoint printf_loop (format : list Z) (s : printf T) : option (printf T) :=
  match format with
  | [] => Some s
  | ch :: format => let* s := printf_step ch s in printf_loop format s
  end.

End Format.

(** The answer, an [int], the buffer and the values stored by [%n]; the
    format comes without its NUL.
    [src/com32/lib/vsnprintf.c:168-454 vsnprintf] *)
Definition vsnprintf (buffer : list Z) (n : nat) (format : list Z) (args : list arg)
  : option (Z * list Z * list (Z * Z * Z)) :=
  let _ := buffer_sink n in
  let* s := printf_loop format (Printf (Out buffer 0 0) args st_normal 0 rank_int 0 (-1) []) in
  let o := p_out s in
  let* buf := (if o_o o <? Z.of_nat n then put (o_buf o) (o_q o) 0
               else if (0 <? n)%nat then put (o_buf o) (n - 1) 0 else Some (o_buf o)) in
  Some (s32 (o_o o), buf, p_stores s).

Example vsnprintf_ex : vsnprintf (replicate 20 7) 20 [37; 43; 48; 53; 100; 124; 37; 35; 120] [ArgNum 42; ArgNum 255]
  = Some (10, [43; 48; 48; 52; 50; 124; 48; 120; 102; 102; 0] ++ replicate 9 7, []).
Proof. reflexivity. Qed.

(** ** The text of a number *)

(** [d] digits with a mark whenever [b4tick] has counted down, left to right. *)
Fixpoint number_text (d : nat) (digits : list Z) (base tickskip b4tick val : Z) : list Z :=
  match d with
  | O => []
  | S d =>
      let digit := nth (Z.to_nat (val mod base)) digits 0 in
      if b4tick =? 0
      then number_text d digits base tickskip (tickskip - 1) (val / base) ++ [digit; 95]
      else number_text d digits base tickskip (b4tick - 1) (val / base) ++ [digit]
  end.

(** Everything [format_int] produces. *)
Definition format_int_text (val flags base width prec : Z) : list Z :=
  let digits := if has flags FL_UPPER then ucdigits else lcdigits in
  let '(val, minus, plain, ndigits, tickskip, nchars) := int_layout val flags base prec in
  let '(early, zeros, late) := paddings flags width ndigits nchars in
  replicate early 32 ++ nondigits minus flags base ++ replicate zeros 48 ++
  number_text (Z.to_nat plain) digits base tickskip tickskip val ++ replicate late 32.

(** The text [e] grows by [l], if it stays shorter than 2^32 characters. *)
Definition grow (e l : list Z) : option (list Z) :=
  if Z.of_nat (length e) + Z.of_nat (length l) <? 4294967296 then Some (e ++ l) else None.

(** The output as a text. *)
Definition text_sink : Sink (list Z) := {|
  sink_emitter := fun x e => grow e [x];
  print_int val flags base width prec e :=
    if int_fits val flags base prec then grow e (format_int_text val flags base width prec) else None;
  count e := Z.of_nat (length e)
|}.

(** What a call is to produce, when it is defined and its text has fewer than 2^32
    characters. *)
Definition format_text (format : list Z) (args : list arg) : option (list Z * list (Z * Z * Z)) :=
  let _ := text_sink in
  let* s := printf_loop format (Printf [] args st_normal 0 rank_int 0 (-1) []) in
  Some (p_out s, p_stores s).

(** ** The buffer shows the beginning of the text *)

(** Blocks that do not overlap may be written in either order. *)
Lemma blit_swap q1 l1 q2 l2 b : (q1 + length l1 <= q2)%nat ->
  blit q1 l1 (blit q2 l2 b) = blit q2 l2 (blit q1 l1 b).
Proof.
  intros Hq; apply list_eq; intros i; destruct (decide (i < length b)%nat).
  - rewrite !blit_lookup by (rewrite ?length_blit; lia); repeat case_decide; auto; lia.
  - now rewrite !lookup_ge_None_2 by (rewrite !length_blit; lia).
Qed.

Lemma put_in buf q x : (q < length buf)%nat -> put buf q x = Some (blit q [x] buf).
Proof. intros Hq; unfold put; now rewrite (proj2 (Nat.ltb_lt _ _) Hq). Qed.

Record shows (q n : nat) (b e : list Z) (s : out) : Prop := {
  sh_len : Z.of_nat (length e) < 4294967296;
  sh_count : o_o s = Z.of_nat (length e);
  sh_buf : o_buf s = blit q (take n e) b;
  sh_ptr : (length e < n -> o_q s = q + length e)%nat
}.

Lemma shows_nil q n b : shows q n b [] (Out b q 0).
Proof. constructor; simpl; auto; [lia|rewrite take_nil; auto]. Qed.

Section Shows.
Variables (q n : nat) (b : list Z).
Hypothesis room : (0 < n -> q + n <= length b)%nat.

Lemma emit_shows x e s : shows q n b e s -> Z.of_nat (length e) + 1 < 4294967296 ->
  exists s', EMIT n x s = Some s' /\ shows q n b (e ++ [x]) s'.
Proof.
  intros [Hl Hc Hb Hp] Hmax; unfold EMIT; rewrite Hc, u32_small by lia.
  destruct (Z.ltb_spec (Z.of_nat (length e)) (Z.of_nat n)).
  - rewrite Hb, Hp, put_in by (rewrite ?length_blit; lia); eexists; split; [reflexivity|].
    constructor; simpl; rewrite ?length_app; simpl; try lia.
    rewrite !take_ge by (rewrite ?length_app; simpl; lia); now rewrite blit_app.
  - eexists; split; [reflexivity|]; constructor; simpl; rewrite ?length_app; simpl; try lia.
    now rewrite take_app_le by lia.
Qed.

Lemma emit_all_shows l : forall e s, shows q n b e s -> Z.of_nat (length e + length l) < 4294967296 ->
  exists s', @emit_all _ (buffer_emitter n) l s = Some s' /\ shows q n b (e ++ l) s'.
Proof.
  induction l as [|x l IH]; intros e s Hs Hl; cbn [emit_all length] in *; [rewrite app_nil_r; eauto|].
  destruct (emit_shows x e s Hs) as (s1 & E1 & H1); [lia|].
  change (@emit _ (buffer_emitter n) x s) with (EMIT n x s); rewrite E1.
  destruct (IH _ _ H1) as (s2 & E2 & H2); [rewrite length_app; cbn; lia|].
  exists s2; rewrite <- app_assoc in H2; auto.
Qed.

Lemma emit_pad_shows k x : forall e s, shows q n b e s -> Z.of_nat (length e + k) < 4294967296 ->
  exists s', @emit_pad _ (buffer_emitter n) k x s = Some s' /\ shows q n b (e ++ replicate k x) s'.
Proof.
  intros e s Hs Hk; destruct (emit_all_shows (replicate k x) e s Hs) as (s' & E & H'); [now rewrite length_replicate|].
  exists s'; split; [|exact H']; rewrite <- E; clear; revert s.
  induction k; intros s; cbn [emit_pad emit_all replicate]; auto.
  destruct (emit x s); auto.
Qed.
End Shows.

(** ** Generating digits from right to left *)

Lemma number_text_length d digits base skip : forall b4 val, 0 < skip -> 0 <= b4 < skip \/ b4 = skip ->
  Z.of_nat (length (number_text d digits base skip b4 val)) =
    Z.of_nat d + (if Z.of_nat d <=? b4 then 0 else 1 + (Z.of_nat d - b4 - 1) / skip).
Proof.
  induction d as [|d IH]; intros b4 val Hs Hb; cbn [number_text].
  - zdec; reflexivity.
  - destruct (Z.eqb_spec b4 0) as [->|Hb0]; rewrite length_app, Nat2Z.inj_add, IH by lia; simpl length.
    + zdec; replace (Z.of_nat (S d) - 0 - 1) with (Z.of_nat d) by lia.
      destruct (Z.leb_spec (Z.of_nat d) (skip - 1)); [rewrite Z.div_small by lia; lia|].
      replace (Z.of_nat d - (skip - 1) - 1) with (Z.of_nat d + -1 * skip) by lia.
      rewrite Z.div_add by lia; lia.
    + destruct (Z.leb_spec (Z.of_nat d) (b4 - 1)); zdec; [lia|].
      replace (Z.of_nat (S d) - b4 - 1) with (Z.of_nat d - (b4 - 1) - 1) by lia; lia.
Qed.

Lemma blit_app_rev q l1 l2 b : blit q (l1 ++ l2) b = blit q l1 (blit (q + length l1) l2 b).
Proof. rewrite blit_app; symmetry; apply blit_swap; lia. Qed.

Lemma blit_pair q x y b : blit q [x] (blit (S q) [y] b) = blit q [x; y] b.
Proof. change [x; y] with ([x] ++ [y]); rewrite blit_app_rev, Nat.add_1_r; reflexivity. Qed.

Lemma gen_digits_text n digits base skip d : forall fuel b4 val q0 (o0 : nat) buf,
  0 < skip -> 0 <= b4 <= skip -> let t := number_text d digits base skip b4 val in
  (length t < fuel)%nat -> (0 < n - o0 -> q0 + (n - o0) <= length buf)%nat ->
  Z.of_nat (o0 + length t) < 4294967296 ->
  gen_digits fuel n digits base skip (Z.of_nat (length t)) b4 val (q0 + length t) (Z.of_nat (o0 + length t)) buf =
    Some (blit q0 (take (n - o0) t) buf).
Proof.
  induction d as [|d IH]; intros [|fuel] b4 val q0 o0 buf Hs Hb t Hf Hroom Hmax; try lia.
  { subst t; simpl; now rewrite take_nil. }
  subst t; cbn [number_text gen_digits] in *.
  set (digit := nth (Z.to_nat (val mod base)) digits 0) in *.
  destruct (Z.eqb_spec b4 0) as [->|Hb0].
  - pose proof (IH fuel (skip - 1) (val / base) q0 o0) as IHt; cbv zeta in IHt.
    set (t := number_text d digits base skip (skip - 1) (val / base)) in *.
    rewrite length_app in *; cbn [length] in *.
    rewrite (proj2 (Z.leb_gt (Z.of_nat (length t + 2)) 0)) by lia; cbn [andb].
    replace (q0 + (length t + 2) - 1 - 1)%nat with (q0 + length t)%nat by lia.
    rewrite (u32_small (Z.of_nat (o0 + (length t + 2)) - 1)) by lia.
    replace (Z.of_nat (o0 + (length t + 2)) - 1) with (Z.of_nat (S (o0 + length t))) by lia.
    rewrite (u32_small (Z.of_nat (S (o0 + length t)) - 1)) by lia.
    replace (Z.of_nat (S (o0 + length t)) - 1) with (Z.of_nat (o0 + length t)) by lia.
    replace (q0 + (length t + 2) - 1)%nat with (S (q0 + length t))%nat by lia.
    replace (Z.of_nat (length t + 2) - 1 - 1) with (Z.of_nat (length t)) by lia.
    destruct (Z.ltb_spec (Z.of_nat (S (o0 + length t))) (Z.of_nat n)); [rewrite put_in by lia|];
      (destruct (Z.ltb_spec (Z.of_nat (o0 + length t)) (Z.of_nat n)); [rewrite put_in by (rewrite ?length_blit; lia)|]);
      try lia; rewrite IHt by (rewrite ?length_blit; lia); f_equal.
    + rewrite !take_ge by (rewrite ?length_app; simpl; lia); now rewrite blit_pair, blit_app_rev.
    + replace (n - o0)%nat with (length t + 1)%nat by lia.
      now rewrite take_app_add, (take_ge t), blit_app_rev by lia.
    + now rewrite take_app_le by lia.
  - pose proof (IH fuel (b4 - 1) (val / base) q0 o0) as IHt; cbv zeta in IHt.
    set (t := number_text d digits base skip (b4 - 1) (val / base)) in *.
    rewrite length_app in *; cbn [length] in *.
    rewrite (proj2 (Z.leb_gt (Z.of_nat (length t + 1)) 0)) by lia; cbn [andb].
    replace (q0 + (length t + 1) - 1)%nat with (q0 + length t)%nat by lia.
    rewrite (u32_small (Z.of_nat (o0 + (length t + 1)) - 1)) by lia.
    replace (Z.of_nat (o0 + (length t + 1)) - 1) with (Z.of_nat (o0 + length t)) by lia.
    replace (Z.of_nat (length t + 1) - 1) with (Z.of_nat (length t)) by lia.
    destruct (Z.ltb_spec (Z.of_nat (o0 + length t)) (Z.of_nat n)); [rewrite put_in by lia|];
      rewrite IHt by (rewrite ?length_blit; lia); f_equal.
    + rewrite !take_ge by (rewrite ?length_app; simpl; lia); now rewrite blit_app_rev.
    + now rewrite take_app_le by lia.
Qed.

(** The layout always has a digit, and room for the marks it announces. *)
Lemma int_layout_spec val flags base prec val' minus plain ndigits skip nchars :
  int_layout val flags base prec = (val', minus, plain, ndigits, skip, nchars) ->
  0 < plain /\ 0 < skip /\
  Z.of_nat (length (number_text (Z.to_nat plain)
    (if has flags FL_UPPER then ucdigits else lcdigits) base skip skip val')) = ndigits.
Proof.
  unfold int_layout; set (nd := Z.of_nat _); intros [= <- <- Hplain Hnd Hskip _].
  assert (Hnd0 : 0 <= nd) by (unfold nd; lia).
  set (v := if _ && _ then _ else val) in *.
  assert (Hv : v <> 0 -> 0 < nd).
  { intros Hv; unfold nd; cbn [count_digits]; destruct (Z.eqb_spec v 0); [easy|lia]. }
  set (pr := if _ && _ then _ else prec) in *.
  assert (Hp : 0 < plain).
  { subst plain; destruct (Z.ltb_spec nd pr); [lia|]; destruct (Z.eqb_spec v 0); [lia|auto]. }
  rewrite Hplain in Hnd, Hskip.
  assert (Hs : 0 < skip).
  { rewrite <- Hskip; destruct (has flags FL_TICK); [destruct (base =? 16); lia|exact Hp]. }
  split; [auto|split; [auto|]]; rewrite Hskip in Hnd.
  rewrite number_text_length by lia; rewrite Z2Nat.id by lia; subst ndigits.
  destruct (Z.leb_spec plain skip); [rewrite Z.div_small by lia; lia|].
  replace (plain - 1) with (plain - skip - 1 + 1 * skip) by lia; rewrite Z.div_add by lia; lia.
Qed.

(** [format_int] shows its text. *)
Lemma format_int_shows q n val flags base width prec b :
  (0 < n -> q + n <= length b)%nat -> int_fits val flags base prec = true ->
  Z.of_nat (length (format_int_text val flags base width prec)) < 4294967296 ->
  exists s, format_int q n val flags base width prec b = Some s /\
    o_o s = Z.of_nat (length (format_int_text val flags base width prec)) /\
    o_buf s = blit q (take n (format_int_text val flags base width prec)) b.
Proof.
  intros Hroom Hfits; unfold format_int, format_int_text; rewrite Hfits; cbn [negb].
  destruct (int_layout val flags base prec) as [[[[[v minus] plain] ndigits] skip] nchars] eqn:El.
  destruct (paddings flags width ndigits nchars) as [[early zeros] late].
  apply int_layout_spec in El as (Hp & Hs & Hl).
  set (digits := if has flags FL_UPPER then ucdigits else lcdigits) in *.
  set (t := number_text (Z.to_nat plain) digits base skip skip v) in *.
  rewrite !length_app, !length_replicate; intros Hmax.
  destruct (emit_pad_shows q n b Hroom early 32 [] _ (shows_nil q n b)) as (s1 & -> & H1); [cbn; lia|].
  destruct (emit_all_shows q n b Hroom (nondigits minus flags base) _ _ H1) as (s2 & -> & H2);
    [rewrite length_app, length_replicate; cbn; lia|].
  destruct (emit_pad_shows q n b Hroom zeros 48 _ _ H2) as (s3 & -> & H3);
    [rewrite !length_app, length_replicate; cbn; lia|]; destruct H3 as [_ Hc Hb Hq].
  set (e := (([] ++ replicate early 32) ++ nondigits minus flags base) ++ replicate zeros 48) in *.
  assert (He : length e = (early + length (nondigits minus flags base) + zeros)%nat)
    by (unfold e; rewrite !length_app, !length_replicate; cbn; lia).
  pose proof (gen_digits_text n digits base skip (Z.to_nat plain) (S (Z.to_nat ndigits)) skip v
    (o_q s3) (length e) (o_buf s3) Hs ltac:(lia)) as Hg; cbv zeta in Hg; fold t in Hg.
  rewrite Hc, <- Hl, !Nat2Z.id, u32_small in * by lia; rewrite <- Nat2Z.inj_add.
  assert (Hroom3 : (0 < n - length e)%nat -> (o_q s3 + (n - length e) <= length (o_buf s3))%nat).
  { intros Hlt; rewrite Hb, length_blit, Hq by lia; lia. }
  rewrite Hg by lia.
  set (s4 := Out (blit (o_q s3) (take (n - length e) t) (o_buf s3)) (o_q s3 + length t) (Z.of_nat (length e + length t))).
  assert (H4 : shows q n b (e ++ t) s4).
  { unfold s4; constructor; cbn [o_o o_buf o_q]; rewrite ?length_app; [lia|lia| |].
    2:{ intros Hlt; rewrite Hq by lia; lia. }
    rewrite Hb.
    destruct (Nat.lt_ge_cases (length e) n) as [Hlt|Hge].
    - rewrite Hq by lia; rewrite (take_ge e n) by lia; rewrite <- blit_app; f_equal.
      rewrite take_app, (take_ge e n) by lia; reflexivity.
    - replace (n - length e)%nat with O by lia; rewrite take_0; simpl.
      now rewrite take_app_le by lia. }
  destruct (emit_pad_shows q n b Hroom late 32 _ _ H4) as (s5 & E5 & [_ H5c H5b _]); [rewrite length_app; lia|].
  exists s5; split; [exact E5|].
  assert (Et : replicate early 32 ++ nondigits minus flags base ++ replicate zeros 48 ++ t ++ replicate late 32
    = (e ++ t) ++ replicate late 32) by (unfold e; now rewrite <- !app_assoc).
  rewrite Et; split; [rewrite H5c; f_equal; rewrite <- Et, !length_app, !length_replicate; lia|exact H5b].
Qed.

(** ** Runs *)

Lemma grow_some e l : Z.of_nat (length e) + Z.of_nat (length l) < 4294967296 -> grow e l = Some (e ++ l).
Proof. intros H; unfold grow; now rewrite (proj2 (Z.ltb_lt _ _)). Qed.

Lemma printf_loop_app {T} `{Sink T} f1 f2 : forall s,
  printf_loop (f1 ++ f2) s = let* s := printf_loop f1 s in printf_loop f2 s.
Proof.
  induction f1 as [|ch f1 IH]; intros s; cbn [app printf_loop]; [done|].
  destruct (printf_step ch s); cbn [mbind option_bind]; [apply IH|done].
Qed.

(** ** The format against two outputs *)

(** Wherever the second computation has a result, the first has one in relation to it. *)
Inductive follows {A B} (R : A -> B -> Prop) : option A -> option B -> Prop :=
  | follows_some a b : R a b -> follows R (Some a) (Some b)
  | follows_none r : follows R r None.

Lemma follows_bind {A B A' B'} (R : A -> B -> Prop) (R' : A' -> B' -> Prop) r r' k k' :
  follows R r r' -> (forall a b, R a b -> follows R' (k a) (k' b)) -> follows R' (mbind k r) (mbind k' r').
Proof. intros [a b H|r0] Hk; cbn; [now apply Hk|constructor]. Qed.

Section Simulation.
Context {T1 T2 : Type} `{S1 : Sink T1} `{S2 : Sink T2}.
Variable R : T1 -> T2 -> Prop.
Hypothesis emit_sim : forall x a b, R a b -> follows R (emit x a) (emit x b).
Hypothesis int_sim : forall val flags base width prec a b, R a b ->
  follows R (print_int val flags base width prec a) (print_int val flags base width prec b).
Hypothesis count_sim : forall a b, R a b -> count a = count b.

(** The two runs only differ by their output. *)
Definition same (s : printf T1) (s' : printf T2) : Prop :=
  R (p_out s) (p_out s') /\
  (p_args s, p_state s, p_flags s, p_rank s, p_width s, p_prec s, p_stores s) =
  (p_args s', p_state s', p_flags s', p_rank s', p_width s', p_prec s', p_stores s').

Definition both : option (printf T1) -> option (printf T2) -> Prop := follows same.

Lemma emit_all_sim l : forall a b, R a b -> follows R (emit_all l a) (emit_all l b).
Proof.
  induction l as [|x l IH]; intros a b H; cbn [emit_all]; [now constructor|].
  eapply follows_bind; [now apply emit_sim|exact IH].
Qed.

Lemma emit_pad_sim k x : forall a b, R a b -> follows R (emit_pad k x a) (emit_pad k x b).
Proof.
  induction k as [|k IH]; intros a b H; cbn [emit_pad]; [now constructor|].
  eapply follows_bind; [now apply emit_sim|exact IH].
Qed.

(** Splits the states into their components. *)
Ltac open_same :=
  intros [? ? ? ? ? ? ? ?] [? ? ? ? ? ? ? ?] [? E]; cbn in *; injection E as <- <- <- <- <- <- <-.

(** States that agree but for the output, and whose outputs are in relation. *)
Ltac close_same := constructor; split; auto.

Lemma with_out_sim s s' a b : same s s' -> R a b -> same (with_out a s) (with_out b s').
Proof. revert s s'; open_same; intros; split; auto. Qed.

Lemma out_sim s s' r r' : same s s' -> follows R r r' ->
  both (let* o := r in Some (with_out o s)) (let* o := r' in Some (with_out o s')).
Proof. intros Hs Hr; eapply follows_bind; [exact Hr|intros; constructor; now apply with_out_sim]. Qed.

Lemma num_sim (k : Z -> printf T1 -> option (printf T1)) (k' : Z -> printf T2 -> option (printf T2)) s s' :
  same s s' -> (forall v r r', same r r' -> both (k v r) (k' v r')) ->
  both (let* (v, r) := va_num s in k v r) (let* (v, r) := va_num s' in k' v r).
Proof.
  revert s s'; open_same; intros Hk; unfold va_num; cbn.
  destruct p_args0 as [|[z|z] args]; try constructor; apply Hk; split; auto.
Qed.

Lemma integer_sim val base s s' : same s s' -> both (print_integer val base s) (print_integer val base s').
Proof.
  intros Hs; pose proof Hs as [H E]; injection E as _ _ Ef _ Ew Ep _; unfold print_integer; rewrite Ef, Ew, Ep.
  now apply out_sim, int_sim.
Qed.

Lemma string_sim l s s' : same s s' -> both (print_string l s) (print_string l s').
Proof.
  intros Hs; pose proof Hs as [H E]; injection E as _ _ Ef _ Ew Ep _; unfold print_string; rewrite Ef, Ew, Ep.
  destruct (_ <? 0); [constructor|].
  eapply follows_bind with (R := R).
  { destruct (has _ FL_MINUS); [now constructor|now apply emit_pad_sim]. }
  intros a b Hab; eapply follows_bind; [apply emit_all_sim, Hab|intros a1 b1 H1].
  apply out_sim; [exact Hs|destruct (has _ FL_MINUS); [now apply emit_pad_sim|now constructor]].
Qed.

Lemma convert_sim ch s s' : same s s' -> both (convert ch s) (convert ch s').
Proof.
  intros Hs; unfold convert.
  assert (Hst : forall r r', same r r' -> same (with_state st_normal r) (with_state st_normal r'))
    by (open_same; split; auto).
  assert (Hrk : forall f r r', same r r' -> same (with_rank (f (p_rank r)) r) (with_rank (f (p_rank r')) r'))
    by (intros f; open_same; split; auto).
  assert (Hfl : forall fl r r', same r r' -> same (with_flag fl r) (with_flag fl r'))
    by (intros fl; open_same; split; auto).
  assert (Hpr : forall v r r', same r r' -> same (with_prec v r) (with_prec v r'))
    by (intros v; open_same; split; auto).
  apply Hst in Hs; set (s1 := with_state st_normal s) in *; set (s1' := with_state st_normal s') in *.
  apply (Hrk (fun k => if k <? rank_char then rank_char else if rank_longlong <? k then rank_longlong else k)) in Hs.
  cbv beta in Hs; set (s2 := with_rank _ s1) in *; set (s2' := with_rank _ s1') in *.
  assert (Hv : forall (f : Z -> Z -> Z) base r r', same r r' ->
    both (let* (v, r) := va_num r in print_integer (f (p_rank r) v) base r)
         (let* (v, r) := va_num r' in print_integer (f (p_rank r) v) base r)).
  { intros f base r r' Hr; apply (num_sim (fun v r => print_integer (f (p_rank r) v) base r)
      (fun v r => print_integer (f (p_rank r) v) base r)); auto.
    intros v q q' Hq; destruct Hq as [Hq1 Hq2]; injection Hq2 as Ha Hb Hc Hd He Hf Hg.
    rewrite Hd; apply integer_sim; split; congruence. }
  destruct ((ch =? 80) || (ch =? 112)).
  { apply (Hv (fun _ v => u32 v)); apply Hfl, Hpr; destruct (ch =? 80); auto. }
  destruct ((ch =? 100) || (ch =? 105)); [apply (Hv signed_value); auto|].
  destruct (ch =? 111); [apply (Hv unsigned_value); auto|].
  destruct (ch =? 117); [apply (Hv unsigned_value); auto|].
  destruct ((ch =? 88) || (ch =? 120)); [apply (Hv unsigned_value); destruct (ch =? 88); auto|].
  destruct (ch =? 99).
  { apply (num_sim (fun v r => print_string [u8 v] r) (fun v r => print_string [u8 v] r)); auto.
    intros; now apply string_sim. }
  destruct (ch =? 115).
  { clearbody s2 s2'; revert s2 s2' Hs; open_same; unfold va_str; cbn -[print_string].
    destruct p_args0 as [|[z|z] args]; try constructor; apply string_sim; split; auto. }
  destruct (ch =? 110).
  { clearbody s2 s2'; revert s2 s2' Hs; open_same; unfold print_count, va_num; cbn.
    destruct p_args0 as [|[z|z] args]; try constructor; split; cbn; auto.
    now rewrite (count_sim _ _ H). }
  apply out_sim; [exact Hs|apply emit_sim, Hs].
Qed.

Lemma modifiers_sim ch s s' : same s s' -> both (do_modifiers ch s) (do_modifiers ch s').
Proof.
  intros Hs; unfold do_modifiers.
  repeat (destruct (_ =? _); [destruct s, s', Hs as [? E]; injection E as <- <- <- <- <- <- <-; close_same|]).
  destruct (_ || _); [|now apply convert_sim].
  destruct s, s', Hs as [? E]; injection E as <- <- <- <- <- <- <-; close_same.
Qed.

Lemma prec_sim ch s s' : same s s' -> both (do_prec ch s) (do_prec ch s').
Proof.
  intros Hs; unfold do_prec; destruct (is_digit ch).
  { revert s s' Hs; open_same; destruct (add_digit _ _); [close_same|constructor]. }
  destruct (ch =? 42).
  { apply (num_sim (fun v r => Some (with_prec (if signed 32 v <? 0 then -1 else signed 32 v) r))
      (fun v r => Some (with_prec (if signed 32 v <? 0 then -1 else signed 32 v) r))); auto.
    intros v; open_same; close_same. }
  apply modifiers_sim; revert s s' Hs; open_same; split; auto.
Qed.

Lemma width_sim ch s s' : same s s' -> both (do_width ch s) (do_width ch s').
Proof.
  intros Hs; unfold do_width; destruct (is_digit ch).
  { revert s s' Hs; open_same; destruct (add_digit _ _); [close_same|constructor]. }
  destruct (ch =? 42).
  { apply (num_sim
      (fun v r => if signed 32 v =? -2147483648 then None
         else Some (if signed 32 v <? 0 then with_flag FL_MINUS (with_width (- signed 32 v) r)
                    else with_width (signed 32 v) r))
      (fun v r => if signed 32 v =? -2147483648 then None
         else Some (if signed 32 v <? 0 then with_flag FL_MINUS (with_width (- signed 32 v) r)
                    else with_width (signed 32 v) r))); auto.
    intros v; open_same; destruct (_ =? _); [constructor|].
    constructor; destruct (_ <? _); split; auto. }
  destruct (ch =? 46); [|apply modifiers_sim; revert s s' Hs; open_same; split; auto].
  revert s s' Hs; open_same; close_same.
Qed.

Lemma flags_sim ch s s' : same s s' -> both (do_flags ch s) (do_flags ch s').
Proof.
  intros Hs; unfold do_flags.
  repeat (destruct (_ =? _); [destruct s, s', Hs as [? E]; injection E as <- <- <- <- <- <- <-; close_same|]).
  apply width_sim; revert s s' Hs; open_same; split; auto.
Qed.

Lemma step_sim ch s s' : same s s' -> both (printf_step ch s) (printf_step ch s').
Proof.
  intros Hs; unfold printf_step; replace (p_state s') with (p_state s) by (destruct Hs; congruence).
  destruct (p_state s); auto using flags_sim, width_sim, prec_sim, modifiers_sim.
  destruct (ch =? 37); [revert s s' Hs; open_same; close_same|].
  apply out_sim; [exact Hs|apply emit_sim, Hs].
Qed.

Lemma loop_sim format : forall s s', same s s' -> both (printf_loop format s) (printf_loop format s').
Proof.
  induction format as [|ch format IH]; intros s s' Hs; cbn [printf_loop]; [now constructor|].
  eapply follows_bind; [now apply step_sim|exact IH].
Qed.
End Simulation.

(** ** The buffer follows the text *)

Section Buffer.
Variables (n : nat) (buf : list Z).
Hypothesis room : (n <= length buf)%nat.
Notation R := (fun (o : out) (e : list Z) => shows 0 n buf e o).

Lemma buffer_emit x a e : shows 0 n buf e a ->
  follows R (@emit _ (@sink_emitter _ (buffer_sink n)) x a) (@emit _ (@sink_emitter _ text_sink) x e).
Proof.
  intros H; cbn; unfold emit, grow; cbn [length]; destruct (Z.ltb_spec (Z.of_nat (length e) + Z.of_nat 1) 4294967296); [|constructor].
  destruct (emit_shows 0 n buf ltac:(lia) x e a H ltac:(lia)) as (a' & E & H').
  change (follows R (EMIT n x a) (Some (e ++ [x]))); rewrite E; now constructor.
Qed.

Lemma buffer_int val flags base width prec a e : shows 0 n buf e a ->
  follows R (@print_int _ (buffer_sink n) val flags base width prec a) (@print_int _ text_sink val flags base width prec e).
Proof.
  intros [Hl Hc Hb Hp]; cbn [print_int buffer_sink text_sink].
  destruct (int_fits val flags base prec) eqn:Ef; [|constructor].
  unfold grow; set (t := format_int_text val flags base width prec).
  destruct (Z.ltb_spec (Z.of_nat (length e) + Z.of_nat (length t)) 4294967296) as [Hmax|]; [|constructor].
  set (k := if o_o a <? Z.of_nat n then (n - Z.to_nat (o_o a))%nat else O).
  assert (Hk : k = (n - length e)%nat) by (unfold k; rewrite Hc, Nat2Z.id; destruct (Z.ltb_spec (Z.of_nat (length e)) (Z.of_nat n)); lia).
  destruct (format_int_shows (o_q a) k val flags base width prec (o_buf a)) as (r & -> & Hr1 & Hr2);
    [intros Hk0; rewrite Hb, length_blit, Hp by lia; lia|exact Ef|fold t; lia|].
  fold t in Hr1, Hr2; cbn [mbind option_bind]; constructor; rewrite Hr1, Hc, u32_small, Nat2Z.id by lia.
  constructor; cbn [o_o o_buf o_q]; rewrite ?length_app; [lia|lia| |intros Hlt; rewrite Hp by lia; lia].
  rewrite Hr2, Hb, Hk; destruct (Nat.lt_ge_cases (length e) n) as [Hlt|Hge].
  - rewrite Hp by lia; rewrite (take_ge e n), <- blit_app by lia; f_equal.
    rewrite take_app, (take_ge e n) by lia; reflexivity.
  - replace (n - length e)%nat with O by lia; rewrite take_0; cbn [blit].
    now rewrite take_app_le by lia.
Qed.
End Buffer.

(** C32: whenever a call of [vsnprintf] is defined and what it produces has fewer than 2^32
    characters, that is a text that depends on the format and the arguments alone
    ([format_text]): whatever the buffer, of at least the [n] bytes it is said to have, the answer is the length of the text as an
    [int], the first [n] - 1 characters are stored and a NUL right after them, and nothing
    is written beyond the [n] bytes; [%n] stores the same counts.  Not defined are calls with missing or wrong arguments,
    with numbers that overflow an [int] (a width, a precision, the length of one number),
    and with a precision below -1, which the digits after a negative argument give
    (vsnprintf.c:404: the loop runs past the string).  With 2^32 characters the count wraps around, and what follows
    is stored beyond the buffer (vsnprintf.c:42). *)
Theorem vsnprintf_correct buf n format args text stores : (n <= length buf)%nat ->
  format_text format args = Some (text, stores) ->
  vsnprintf buf n format args =
    Some (s32 (Z.of_nat (length text)), if (n =? 0)%nat then buf else blit 0 (take (n - 1) text ++ [0]) buf, stores).
Proof.
  intros Hn; unfold vsnprintf, format_text.
  pose proof (@loop_sim _ _ (buffer_sink n) text_sink (fun o e => shows 0 n buf e o)
    (buffer_emit n buf Hn) (buffer_int n buf Hn) ltac:(intros a e [_ Hc _ _]; exact Hc) format
    (Printf (Out buf 0 0) args st_normal 0 rank_int 0 (-1) [])
    (Printf [] args st_normal 0 rank_int 0 (-1) []) ltac:(split; [apply shows_nil|reflexivity])) as Hsim.
  destruct Hsim as [s s' [[Hl Hc Hb Hp] E]|]; [|discriminate]; cbn zeta; cbn [mbind option_bind]; intros [= <- <-].
  replace (p_stores s) with (p_stores s') by congruence; rewrite Hc.
  destruct (Z.ltb_spec (Z.of_nat (length (p_out s'))) (Z.of_nat n)) as [Hlt|Hge].
  - rewrite Hb, Hp, put_in by (rewrite ?length_blit; lia).
    rewrite (proj2 (Nat.eqb_neq n 0)), !take_ge, blit_app by lia; reflexivity.
  - destruct (Nat.eqb_spec n 0) as [->|Hn0]; [now rewrite Hb, take_0|].
    rewrite (proj2 (Nat.ltb_lt 0 n)), Hb, put_in by (rewrite ?length_blit; lia); cbn [mbind option_bind].
    do 3 f_equal; rewrite blit_app, length_take.
    replace (0 + (n - 1) `min` length (p_out s'))%nat with (n - 1)%nat by lia.
    replace n with (S (n - 1)) at 2 by lia.
    destruct (lookup_lt_is_Some_2 (p_out s') (n - 1)) as [x Hx]; [lia|].
    rewrite (take_S_r _ _ x Hx), blit_app, length_take; cbn [blit].
    replace (0 + (n - 1) `min` length (p_out s'))%nat with (n - 1)%nat by lia.
    now rewrite list_insert_insert_eq.
Qed.

Theorem vsnprintf_correct_witness :
  vsnprintf (replicate 8 7) 6 [37; 43; 48; 53; 100; 124; 37; 35; 120] [ArgNum 42; ArgNum 255] =
    Some (10, [43; 48; 48; 52; 50; 0; 7; 7], []).
Proof.
  exact (vsnprintf_correct (replicate 8 7) 6 [37; 43; 48; 53; 100; 124; 37; 35; 120] [ArgNum 42; ArgNum 255]
    [43; 48; 48; 52; 50; 124; 48; 120; 102; 102] [] ltac:(cbn; lia) eq_refl).
Defined.

(** A precision of -1 as an argument, with a digit behind it: the call is not defined. *)
Example negative_precision : vsnprintf (replicate 8 7) 6 [37; 46; 42; 53; 115] [ArgNum (-1); ArgStr (Some [97])] = None.
Proof. reflexivity. Qed.

(** At its greatest value the count wraps around to 0, and the next character is stored
    where the pointer stands, behind a buffer that is full. *)
Lemma count_wraps n buf q x y : (0 < n)%nat -> Z.of_nat n < 4294967296 -> (length buf <= q)%nat ->
  (let* s := EMIT n x (Out buf q 4294967295) in EMIT n y s) = None.
Proof.
  intros Hn Hn2 Hq; unfold EMIT; cbn [o_o]; rewrite (proj2 (Z.ltb_ge _ _)) by lia; cbn [mbind option_bind o_o o_buf o_q].
  change (u32 (4294967295 + 1)) with 0; rewrite (proj2 (Z.ltb_lt _ _)) by lia; unfold put.
  now rewrite (proj2 (Nat.ltb_ge _ _)).
Qed.
