(* ===== verification/Ctype.v ===== *)
(** * Character classes: com32/include/ctype.h and com32/lib/ctypes.c

    The table of the ISO 8859-1 classes, written as its runs, and the
    predicates and conversions that read it. *)

From S2P Require Import Prelude.

(** [src/com32/include/ctype.h:26-35 __ctype_upper] *)
Inductive ctype_class := Upper | Lower | Digit | Xdigit | Space | Print | Punct | Cntrl.

Definition mask (k : ctype_class) : Z :=
  match k with
  | Upper => 1 | Lower => 2 | Digit => 4 | Xdigit => 8
  | Space => 16 | Print => 32 | Punct => 64 | Cntrl => 128
  end.

Definition run (n : nat) (ks : list ctype_class) : list Z :=
  replicate n (foldr Z.lor 0 (mask <$> ks)).

(** The entries of EOF and of the characters 0 to 127.
    [src/com32/lib/ctypes.c:10-147 __ctypes] *)
Definition ctypes_ascii : list Z :=
  run 1 [] ++ run 8 [Cntrl] ++ run 6 [Cntrl; Space] ++ run 18 [Cntrl] ++
  run 1 [Print; Space] ++ run 15 [Print; Punct] ++ run 10 [Print; Digit; Xdigit] ++
  run 7 [Print; Punct] ++ run 6 [Print; Upper; Xdigit] ++ run 20 [Print; Upper] ++
  run 6 [Print; Punct] ++ run 6 [Print; Lower; Xdigit] ++ run 20 [Print; Lower] ++
  run 4 [Print; Punct] ++ run 1 [Cntrl].

(** The entries of the characters 128 to 255.
    [src/com32/lib/ctypes.c:149-284 __ctypes] *)
Definition ctypes_latin1 : list Z :=
  run 32 [Cntrl] ++ run 1 [Print; Space] ++ run 31 [Print; Punct] ++ run 23 [Print; Upper] ++
  run 1 [Print; Punct] ++ run 7 [Print; Upper] ++ run 24 [Print; Lower] ++
  run 1 [Print; Punct] ++ run 8 [Print; Lower].

Definition ctypes : list Z := ctypes_ascii ++ ctypes_latin1.

(** [c] is in one of the classes [ks]: [__ctypes[c + 1] & (...)]. *)
Definition in_class (ks : list ctype_class) (c : Z) : bool :=
  negb (Z.land (nth (Z.to_nat (c + 1)) ctypes 0) (foldr Z.lor 0 (mask <$> ks)) =? 0).

(** [src/com32/include/ctype.h:39-42 isalnum] *)
Definition isalnum := in_class [Upper; Lower; Digit].

(** [src/com32/include/ctype.h:44-47 isalpha] *)
Definition isalpha := in_class [Upper; Lower].

(** [src/com32/include/ctype.h:58-61 iscntrl] *)
Definition iscntrl := in_class [Cntrl].

(** [src/com32/include/ctype.h:63-66 isdigit] *)
Definition isdigit (c : Z) : bool := u32 (c - 48) <=? 9.

(** [src/com32/include/ctype.h:68-72 isgraph] *)
Definition isgraph := in_class [Upper; Lower; Digit; Punct].

(** [src/com32/include/ctype.h:74-78 islower] *)
Definition islower := in_class [Lower].

(** [src/com32/include/ctype.h:80-83 isprint] *)
Definition isprint := in_class [Print].

(** [src/com32/include/ctype.h:85-88 ispunct] *)
Definition ispunct := in_class [Punct].

(** [src/com32/include/ctype.h:90-93 isspace] *)
Definition isspace := in_class [Space].

(** [src/com32/include/ctype.h:95-98 isupper] *)
Definition isupper := in_class [Upper].

(** [src/com32/include/ctype.h:100-103 isxdigit] *)
Definition isxdigit := in_class [Xdigit].

(** [src/com32/include/ctype.h:109-112 toupper] *)
Definition toupper (c : Z) : Z := if islower c then Z.land c (Z.lnot 32) else c.

(** [src/com32/include/ctype.h:114-117 tolower] *)
Definition tolower (c : Z) : Z := if isupper c then Z.lor c 32 else c.

(** ** Facts about every byte, by evaluation of the table *)

Lemma byte_forall (P : Z -> bool) :
  forallb P (seqZ 0 256) = true -> forall c, is_byte c -> P c = true.
Proof.
  intros H c Hc; rewrite forallb_forall in H; apply H.
  apply list_elem_of_In, elem_of_seqZ; unfold is_byte in Hc; lia.
Qed.

(** The relations the header states between the classes. *)
Definition classes_ok (c : Z) : bool :=
  eqb (iscntrl c) (negb (isprint c)) && eqb (isalpha c) (isupper c || islower c) &&
  eqb (isgraph c) (ispunct c || isalpha c || isdigit c) &&
  eqb (isalnum c) (isalpha c || isdigit c) &&
  implb (isxdigit c) (isalnum c) && negb (isupper c && islower c) &&
  eqb (isprint c && negb (isgraph c)) ((c =? 32) || (c =? 160)).

(** The class table has an entry per byte and satisfies the relations the
    header documents: control is not printing, alphabetic is upper or lower
    case, graphic is punctuation, alphabetic or digit, and the only printing
    non-graphic characters are the two spaces. *)
Theorem ctype_classes : length ctypes = 257%nat /\ forall c, is_byte c -> classes_ok c = true.
Proof. split; [reflexivity|apply byte_forall; vm_compute; reflexivity]. Qed.

(** Upper-casing is idempotent except on the two lower-case characters that
    have no upper case in ISO 8859-1, which it maps to other characters. *)
Lemma toupper_bytes c :
  is_byte c ->
  (is_byte (toupper c)) /\
  (toupper (toupper c) = toupper c \/ c = 255) /\
  (c <> 223 -> c <> 255 -> isupper c = false -> tolower (toupper c) = c) /\
  (toupper c = 0 -> c = 0).
Proof.
  intros Hc.
  assert (H := byte_forall (fun c =>
    (0 <=? toupper c) && (toupper c <? 256) &&
    ((toupper (toupper c) =? toupper c) || (c =? 255)) &&
    ((c =? 223) || (c =? 255) || isupper c || (tolower (toupper c) =? c)) &&
    (negb (toupper c =? 0) || (c =? 0))) eq_refl c Hc); simpl in H.
  repeat match goal with H : _ && _ = true |- _ => apply andb_true_iff in H as [? ?] end.
  unfold is_byte; repeat split; intros; bools; auto; try congruence; try lia.
Qed.
