(* ===== verification/NumParse.v ===== *)
(** * Reading numbers: com32/lib/strntoumax.c and its callers

    A pointer into a string is the list of the bytes from it on; reading past
    the end of the list is [None].  [uintmax_t] has 64 bits, [size_t] and [long]
    32.  The last section reads back what [format_int] of Printf.v writes. *)

From S2P Require Import Prelude.
From S2P Require Import Ctype.
From S2P Require Import Printf.

(** [src/com32/lib/strntoumax.c:11-22 digitval] *)
Definition digitval (ch : Z) : Z :=
  if (48 <=? ch) && (ch <=? 57) then ch - 48
  else if (65 <=? ch) && (ch <=? 90) then ch - 65 + 10
  else if (97 <=? ch) && (ch <=? 122) then ch - 97 + 10
  else -1.

(** [src/com32/lib/strntoumax.c:30-33 strntoumax] *)
Fixpoint skip_spaces (n : Z) (s : list Z) : option (Z * list Z) :=
  if n =? 0 then Some (n, s)
  else
    match s with
    | [] => None
    | ch :: s' => if isspace ch then skip_spaces (n - 1) s' else Some (n, s)
    end.

(** [src/com32/lib/strntoumax.c:64-68 strntoumax] *)
Fixpoint take_digits (base v n : Z) (s : list Z) : option (Z * list Z) :=
  if n =? 0 then Some (v, s)
  else
    match s with
    | [] => None
    | ch :: s' =>
        let d := digitval ch in
        if (0 <=? d) && (d <? base) then take_digits base (u64 (v * base + d)) (n - 1) s'
        else Some (v, s)
    end.

(** [n] allows reading the character [s] points at: it is [ch]. *)
Definition at_char (n : Z) (s : list Z) (ch : Z) : option bool :=
  if n =? 0 then Some false
  else match s with [] => None | c :: _ => Some (c =? ch) end.

(** "0x" or "0X" ahead.
    [src/com32/lib/strntoumax.c:45-46 strntoumax] *)
Definition hex_prefix (n : Z) (s : list Z) : option bool :=
  if n <? 2 then Some false
  else
    match s with
    | [] => None
    | c0 :: s =>
        if c0 =? 48
        then match s with [] => None | c1 :: _ => Some ((c1 =? 120) || (c1 =? 88)) end
        else Some false
    end.

(** The base and its prefix.
    [src/com32/lib/strntoumax.c:44-62 strntoumax] *)
Definition read_base (base n : Z) (s : list Z) : option (Z * Z * list Z) :=
  if base =? 0 then
    let* hex := hex_prefix n s in
    if hex then Some (16, n - 2, drop 2 s)
    else
      let* zero := at_char n s 48 in
      if zero then Some (8, n - 1, drop 1 s) else Some (10, n, s)
  else if base =? 16 then
    let* hex := hex_prefix n s in
    if hex then Some (base, n - 2, drop 2 s) else Some (base, n, s)
  else Some (base, n, s).

(** The value and the pointer stored in [endptr].  After a plus sign [n] stays
    what it was.
    [src/com32/lib/strntoumax.c:24-73 strntoumax] *)
Definition strntoumax (nptr : list Z) (base n : Z) : option (Z * list Z) :=
  let* (n, s) := skip_spaces n nptr in
  let* m := at_char n s 45 in
  let* p := at_char n s 43 in
  let '(minus, n, s) :=
    if m then (true, n - 1, drop 1 s)
    else if p then (false, n, drop 1 s) else (false, n, s) in
  let* (base, n, s) := read_base base n s in
  let* (v, s) := take_digits base 0 n s in
  Some (if minus then u64 (- v) else v, s).

(** [~(size_t) 0]. *)
Definition SIZE_MAX : Z := 4294967295.

(** The family strtol, strtoul, strtoll, strtoull, strtoimax, strtoumax: [cast]
    is the conversion to the type of the result.
    [src/com32/lib/strtox.c:10-13 NAME] *)
Definition strtox (cast : Z -> Z) (nptr : list Z) (base : Z) : option (Z * list Z) :=
  let* (v, s) := strntoumax nptr base SIZE_MAX in Some (cast v, s).

(** [src/com32/lib/strtol.c:1-3 strtol] *)
Definition strtol := strtox (signed 32).

(** [src/com32/lib/strtoul.c:1-3 strtoul] *)
Definition strtoul := strtox u32.

(** [src/com32/lib/strtoumax.c:1-3 strtoumax] *)
Definition strtoumax := strtox u64.

(** [src/com32/lib/strntoimax.c:10-13 strntoimax] *)
Definition strntoimax (nptr : list Z) (base n : Z) : option (Z * list Z) :=
  let* (v, s) := strntoumax nptr base n in Some (signed 64 v, s).

(** The family atoi, atol, atoll.
    [src/com32/lib/atox.c:11-14 NAME] *)
Definition atox (cast : Z -> Z) (nptr : list Z) : option Z :=
  let* (v, _) := strntoumax nptr 10 SIZE_MAX in Some (cast v).

(** [src/com32/lib/atoi.c:1-3 atoi] *)
Definition atoi := atox (signed 32).

(** [src/com32/lib/suffix_number.c:39-72 suffix_number] *)
Definition suffix_number (str : list Z) : option Z :=
  let* (v, ep) := strtox u64 str 0 in
  match ep with
  | [] => None
  | ch :: _ =>
      let k := Z.lor ch 32 in
      let shift :=
        if k =? 107 then 10
        else if k =? 109 then 20
        else if k =? 103 then 30
        else if k =? 116 then 40
        else if k =? 112 then 50
        else if k =? 101 then 60 else 0 in
      Some (u64 (Z.shiftl v shift))
  end.

(** ** Digits *)

(** The [d] last digits of [val], left to right. *)
Fixpoint digits_of (base : Z) (d : nat) (val : Z) : list Z :=
  match d with
  | O => []
  | S d => digits_of base d (val / base) ++ [nth (Z.to_nat (val mod base)) lcdigits 0]
  end.

Lemma number_text_plain base skip d : forall b4 val, Z.of_nat d <= b4 ->
  number_text d lcdigits base skip b4 val = digits_of base d val.
Proof.
  induction d as [|d IH]; intros b4 val Hb; cbn [number_text digits_of]; auto.
  rewrite (proj2 (Z.eqb_neq b4 0)), IH by lia; auto.
Qed.

Lemma digits_of_head base d : 1 < base -> forall val, 0 <= val ->
  digits_of base (S d) val =
    nth (Z.to_nat (val / base ^ Z.of_nat d mod base)) lcdigits 0 :: digits_of base d val.
Proof.
  intros Hb; induction d as [|d IH]; intros val Hv; [simpl; now rewrite Z.div_1_r|].
  cbn [digits_of] in *; rewrite IH by (apply Z.div_pos; lia); cbn [app].
  replace (val / base / base ^ Z.of_nat d) with (val / base ^ Z.of_nat (S d)); [reflexivity|].
  rewrite Z.div_div by (try apply Z.pow_pos_nonneg; lia); f_equal.
  rewrite Nat2Z.inj_succ, Z.pow_succ_r by lia; lia.
Qed.

Lemma digits_of_length base d : forall val, length (digits_of base d val) = d.
Proof. induction d; intros; simpl; rewrite ?length_app, ?IHd; simpl; lia. Qed.

Lemma digitval_lc k : 0 <= k < 16 -> digitval (nth (Z.to_nat k) lcdigits 0) = k.
Proof.
  intros Hk; rewrite <- (Z2Nat.id k) at 2 by lia; generalize (Z2Nat.inj_lt k 16); intros Hl.
  assert (H : (Z.to_nat k < 16)%nat) by (apply Hl; lia); revert H; generalize (Z.to_nat k); intros j Hj.
  do 16 (destruct j as [|j]; [reflexivity|]); lia.
Qed.

(** Reading the digits of a value gives the value. *)
Lemma take_digits_of base d : 1 < base <= 16 -> forall val v n c rest,
  0 <= val -> 0 <= v -> v * base ^ Z.of_nat d + val mod base ^ Z.of_nat d < 2 ^ 64 ->
  Z.of_nat d < n -> ~ (0 <= digitval c < base) ->
  take_digits base v n (digits_of base d val ++ c :: rest) =
    Some (v * base ^ Z.of_nat d + val mod base ^ Z.of_nat d, c :: rest).
Proof.
  intros Hb; induction d as [|d IH]; intros val v n c rest Hv Hv0 Hm Hn Hc.
  - simpl; rewrite (proj2 (Z.eqb_neq n 0)) by lia; change (base ^ Z.of_nat 0) with 1 in *.
    rewrite Z.mod_1_r in *.
    destruct ((0 <=? digitval c) && (digitval c <? base)) eqn:E; [bools; lia|].
    do 2 f_equal; lia.
  - rewrite digits_of_head by lia; cbn [app take_digits]; rewrite (proj2 (Z.eqb_neq n 0)) by lia.
    assert (Hp : 0 < base ^ Z.of_nat d) by (apply Z.pow_pos_nonneg; lia).
    rewrite Nat2Z.inj_succ in Hm, Hn |- *; rewrite Z.pow_succ_r in Hm |- * by lia.
    set (p := base ^ Z.of_nat d) in *.
    rewrite (Z.mul_comm base p), Z.rem_mul_r in Hm |- * by lia.
    pose proof (Z.mod_pos_bound val p Hp); pose proof (Z.mod_pos_bound (val / p) base ltac:(lia)).
    rewrite digitval_lc by lia; set (a := val / p mod base) in *.
    rewrite (proj2 (Z.leb_le 0 a)), (proj2 (Z.ltb_lt a base)) by lia; cbn [andb].
    assert (E64 : u64 (v * base + a) = v * base + a) by (apply Z.mod_small; nia).
    rewrite E64, IH by (auto; nia); do 2 f_equal; lia.
Qed.

(** ** Round trip *)

Lemma count_digits_spec base : 1 < base -> forall fuel val, 0 <= val < base ^ Z.of_nat fuel ->
  let d := count_digits fuel val base in
  val < base ^ Z.of_nat d /\ (0 < val -> (0 < d)%nat /\ base ^ Z.of_nat (d - 1) <= val).
Proof.
  intros Hb; induction fuel as [|fuel IH]; intros val Hv; cbn [count_digits]; cbv zeta.
  - change (base ^ Z.of_nat 0) with 1 in *; simpl; lia.
  - rewrite Nat2Z.inj_succ, Z.pow_succ_r in Hv by lia.
    destruct (Z.eqb_spec val 0) as [->|H0]; [simpl; lia|].
    pose proof (Z.div_mod val base) as Hdm; pose proof (Z.mod_pos_bound val base) as Hmb.
    destruct (IH (val / base)) as [H1 H2]; [split; [apply Z.div_pos; lia|apply Z.div_lt_upper_bound; lia]|].
    set (d := count_digits fuel (val / base) base) in *.
    split; [rewrite Nat2Z.inj_succ, Z.pow_succ_r by lia; nia|].
    intros _; split; [lia|]; replace (S d - 1)%nat with d by lia.
    destruct (Z.eq_dec (val / base) 0) as [E|E].
    + assert (d = 0%nat) as -> by (unfold d; rewrite E; now destruct fuel). simpl; lia.
    + assert (0 < val / base) by (assert (0 <= val / base) by (apply Z.div_pos; lia); lia).
      destruct (H2 ltac:(lia)) as [H3 H4]; replace d with (S (d - 1)) by lia.
      rewrite Nat2Z.inj_succ, Z.pow_succ_r by lia; nia.
Qed.

(** A number printed with the prefix of its base. *)
Definition hash_flags (sgn : bool) : Z := if sgn then FL_HASH + FL_SIGNED else FL_HASH.

Lemma hash_paddings sgn ndigits nchars : 0 <= nchars ->
  paddings (hash_flags sgn) 0 ndigits nchars = (O, O, O).
Proof.
  intros Hc; unfold paddings.
  replace (has (hash_flags sgn) (FL_MINUS + FL_ZERO)) with false by (now destruct sgn).
  replace (has (hash_flags sgn) FL_MINUS) with false by (now destruct sgn).
  replace (Z.land (hash_flags sgn) (FL_MINUS + FL_ZERO) =? FL_ZERO) with false by (now destruct sgn).
  rewrite (proj2 (Z.ltb_ge nchars 0)) by lia; reflexivity.
Qed.

Lemma hash_text sgn val base : base = 8 \/ base = 10 \/ base = 16 -> 0 <= val < 2 ^ 64 ->
  let minus := sgn && (signed 64 val <? 0) in
  let v := if minus then u64 (- signed 64 val) else val in
  let d := count_digits 64 v base in
  format_int_text val (hash_flags sgn) base 0 (-1) =
    (if minus then [45] else []) ++ (if base =? 16 then [48; 120] else []) ++
    digits_of base (if base =? 8 then S d else if v =? 0 then 1%nat else d) v.
Proof.
  intros Hb Hv; cbv zeta; unfold format_int_text, int_layout.
  set (minus := sgn && (signed 64 val <? 0)); set (v := if minus then u64 (- signed 64 val) else val).
  set (d := count_digits 64 v base); cbn match.
  replace (has (hash_flags sgn) FL_SIGNED && (signed 64 val <? 0)) with minus by (now destruct sgn).
  fold v; fold d.
  replace (has (hash_flags sgn) FL_UPPER) with false by (now destruct sgn).
  replace (has (hash_flags sgn) FL_TICK) with false by (now destruct sgn).
  replace (has (hash_flags sgn) FL_HASH) with true by (now destruct sgn).
  replace (has (hash_flags sgn) (FL_PLUS + FL_SPACE)) with false by (now destruct sgn).
  set (k := if base =? 8 then S d else if v =? 0 then 1%nat else d).
  assert (Hk : (if Z.of_nat d <? (if true && (base =? 8)
                    then if -1 <? Z.of_nat d + 1 then Z.of_nat d + 1 else -1 else -1)
                then if true && (base =? 8)
                     then if -1 <? Z.of_nat d + 1 then Z.of_nat d + 1 else -1 else -1
                else if v =? 0 then 1 else Z.of_nat d) = Z.of_nat k).
  { unfold k; destruct (base =? 8); cbn [andb].
    - rewrite (proj2 (Z.ltb_lt (-1) _)), (proj2 (Z.ltb_lt _ (_ + 1))) by lia; lia.
    - rewrite (proj2 (Z.ltb_ge _ (-1))) by lia; destruct (v =? 0); auto. }
  rewrite Hk.
  assert (Hk0 : (0 < k)%nat).
  { unfold k; destruct (base =? 8); [lia|]; destruct (Z.eqb_spec v 0); [lia|].
    unfold d; cbn [count_digits]; destruct (Z.eqb_spec v 0); lia. }
  rewrite Z.div_small, Z.add_0_r by lia.
  rewrite hash_paddings by (repeat case_match; lia).
  unfold nondigits.
  replace (has (hash_flags sgn) FL_HASH) with true by (now destruct sgn).
  replace (has (hash_flags sgn) FL_UPPER) with false by (now destruct sgn).
  replace (has (hash_flags sgn) FL_PLUS) with false by (now destruct sgn).
  replace (has (hash_flags sgn) FL_SPACE) with false by (now destruct sgn).
  cbn [replicate andb app]; rewrite app_nil_r, Nat2Z.id, number_text_plain by lia.
  now rewrite <- app_assoc.
Qed.

Lemma lc_char k : 0 <= k < 16 -> let x := nth (Z.to_nat k) lcdigits 0 in
  isspace x = false /\ x <> 45 /\ x <> 43 /\ x <> 120 /\ x <> 88 /\ (x = 48 <-> k = 0).
Proof.
  intros Hk; assert (Hj : exists j : nat, (j < 16)%nat /\ k = Z.of_nat j) by (exists (Z.to_nat k); lia).
  destruct Hj as (j & Hj & ->); rewrite Nat2Z.id.
  do 16 (destruct j as [|j]; [cbn; repeat split; try discriminate; try lia; reflexivity|]); lia.
Qed.

(** The prefix and the digits of a number, in the base they announce. *)
Lemma read_number base v c rest n : base = 8 \/ base = 10 \/ base = 16 -> 0 <= v < 2 ^ 64 ->
  ~ (0 <= digitval c < 16) -> c <> 120 -> c <> 88 ->
  let d := count_digits 64 v base in
  let body := (if base =? 16 then [48; 120] else []) ++
    digits_of base (if base =? 8 then S d else if v =? 0 then 1%nat else d) v in
  Z.of_nat (length body) < n ->
  (exists x s, body = x :: s /\ isspace x = false /\ x <> 45 /\ x <> 43) /\
  (let* (b, n, s) := read_base 0 n (body ++ c :: rest) in take_digits b 0 n s) = Some (v, c :: rest).
Proof.
  intros Hb Hv Hc Hc1 Hc2 d; assert (Hb' : 1 < base <= 16) by lia.
  destruct (count_digits_spec base ltac:(lia) 64 v) as [Hd1 Hd2].
  { split; [lia|]; apply Z.lt_le_trans with (2 ^ 64); [lia|].
    change (Z.of_nat 64) with 64; apply Z.pow_le_mono_l; lia. }
  fold d in Hd1, Hd2; assert (Hmod : v mod base ^ Z.of_nat d = v) by (apply Z.mod_small; lia).
  assert (Hread : forall m, Z.of_nat d < m -> take_digits base 0 m (digits_of base d v ++ c :: rest) = Some (v, c :: rest)).
  { intros m Hm; rewrite take_digits_of by (rewrite ?Hmod; lia); now rewrite Hmod. }
  unfold read_base; rewrite Z.eqb_refl.
  destruct Hb as [->|[->| ->]]; cbn [Z.eqb Pos.eqb]; cbv zeta; rewrite ?length_app, ?digits_of_length; intros Hn.
  - rewrite digits_of_head by lia; rewrite Z.div_small, Z.mod_0_l by lia; cbn [app].
    split; [exists 48, (digits_of 8 d v); split; [reflexivity|split; [reflexivity|lia]]|].
    unfold hex_prefix; rewrite (proj2 (Z.ltb_ge n 2)) by lia; cbn [app].
    change (nth (Z.to_nat 0) lcdigits 0 =? 48) with true; cbv iota.
    assert (Hx : exists y s, digits_of 8 d v ++ c :: rest = y :: s /\ y <> 120 /\ y <> 88).
    { destruct d as [|d']; [exists c, rest; auto|]; rewrite digits_of_head by lia.
      pose proof (Z.mod_pos_bound (v / 8 ^ Z.of_nat d') 8 ltac:(lia)).
      destruct (lc_char (v / 8 ^ Z.of_nat d' mod 8)) as (_ & _ & _ & ? & ? & _); [lia|].
      eexists _, _; split; [reflexivity|auto]. }
    destruct Hx as (y & s & Ey & Hy1 & Hy2); rewrite Ey.
    rewrite (proj2 (Z.eqb_neq y 120)), (proj2 (Z.eqb_neq y 88)) by auto; cbn [orb].
    unfold at_char; rewrite (proj2 (Z.eqb_neq n 0)) by lia.
    change (nth (Z.to_nat 0) lcdigits 0 =? 48) with true; cbv iota; cbn [drop]; rewrite <- Ey.
    apply Hread; lia.
  - destruct (Z.eqb_spec v 0) as [Hv0|Hv0].
    + rewrite Hv0; split; [exists 48, []; split; [reflexivity|split; [reflexivity|lia]]|].
      cbn [digits_of app]; change (nth (Z.to_nat (0 mod 10)) lcdigits 0) with 48.
      unfold hex_prefix; rewrite (proj2 (Z.ltb_ge n 2)) by lia; cbn [app Z.eqb Pos.eqb].
      rewrite (proj2 (Z.eqb_neq c 120)), (proj2 (Z.eqb_neq c 88)) by auto; cbn [orb].
      unfold at_char; rewrite (proj2 (Z.eqb_neq n 0)) by lia; cbn [Z.eqb Pos.eqb drop take_digits].
      rewrite (proj2 (Z.eqb_neq (n - 1) 0)) by lia.
      destruct ((0 <=? digitval c) && (digitval c <? 8)) eqn:E; [bools; lia|auto].
    + destruct (Hd2 ltac:(lia)) as [Hd3 Hd4]; destruct d as [|d'] eqn:Ed; [lia|].
      replace (S d' - 1)%nat with d' in Hd4 by lia.
      assert (Hp : 0 < 10 ^ Z.of_nat d') by (apply Z.pow_pos_nonneg; lia).
      assert (Hq : 1 <= v / 10 ^ Z.of_nat d' < 10).
      { split; [apply Z.div_le_lower_bound; lia|apply Z.div_lt_upper_bound; [lia|]].
        rewrite Nat2Z.inj_succ, Z.pow_succ_r in Hd1 by lia; lia. }
      rewrite digits_of_head in Hread |- * by lia; rewrite Z.mod_small in Hread |- * by lia.
      destruct (lc_char (v / 10 ^ Z.of_nat d')) as (Hx1 & Hx2 & Hx3 & _ & _ & Hx4); [lia|].
      set (x := nth _ lcdigits 0) in *; cbn [app] in *.
      assert (Hx : x <> 48) by (intros E; apply Hx4 in E; lia).
      split; [eexists _, _; split; [reflexivity|auto]|].
      unfold hex_prefix; destruct (Z.ltb_spec n 2); [lia|].
      rewrite (proj2 (Z.eqb_neq x 48)) by auto.
      unfold at_char; rewrite (proj2 (Z.eqb_neq n 0)) by lia; rewrite (proj2 (Z.eqb_neq x 48)) by auto.
      apply Hread; lia.
  - assert (Hk : forall m, Z.of_nat (if v =? 0 then 1%nat else d) < m ->
      take_digits 16 0 m (digits_of 16 (if v =? 0 then 1%nat else d) v ++ c :: rest) = Some (v, c :: rest)).
    { intros m Hm.
      destruct (Z.eqb_spec v 0) as [->|]; [|apply Hread; lia].
      rewrite take_digits_of by (try (change (0 mod 16 ^ Z.of_nat 1) with 0); lia); auto. }
    cbn [length app] in *; split; [eexists _, _; split; [reflexivity|split; [reflexivity|lia]]|].
    unfold hex_prefix; rewrite (proj2 (Z.ltb_ge n 2)) by lia; cbn [Z.eqb Pos.eqb orb drop].
    apply Hk; lia.
Qed.

(** C36: what [printf] writes with the prefix of its base, [strntoumax] reads back
    when asked to find the base out, stopping at the character after it; a
    negative number comes back as its two's complement. *)
Theorem number_roundtrip sgn val base c rest n :
  base = 8 \/ base = 10 \/ base = 16 -> 0 <= val < 2 ^ 64 ->
  ~ (0 <= digitval c < 16) -> c <> 120 -> c <> 88 ->
  Z.of_nat (length (format_int_text val (hash_flags sgn) base 0 (-1))) < n ->
  strntoumax (format_int_text val (hash_flags sgn) base 0 (-1) ++ c :: rest) 0 n = Some (val, c :: rest).
Proof.
  intros Hb Hv Hc Hc1 Hc2; rewrite hash_text by auto.
  set (minus := sgn && (signed 64 val <? 0)); set (v := if minus then u64 (- signed 64 val) else val).
  assert (Hv' : 0 <= v < 2 ^ 64) by (unfold v; destruct minus; [apply Z.mod_pos_bound; lia|auto]).
  assert (Hback : (if minus then u64 (- v) else v) = val).
  { unfold v; destruct minus; auto; unfold u64, signed; change 18446744073709551616 with (2 ^ 64).
    Z.to_euclidean_division_equations; lia. }
  pose proof (fun m => read_number base v c rest m Hb Hv' Hc Hc1 Hc2) as Hr; cbv zeta in Hr.
  set (body := (if base =? 16 then _ else _) ++ _) in *.
  unfold strntoumax; destruct minus; cbn [app length]; intros Hn.
  - destruct (Hr (n - 1) ltac:(lia)) as [_ Hread].
    cbn [skip_spaces]; rewrite (proj2 (Z.eqb_neq n 0)) by lia.
    change (isspace 45) with false; cbv iota; unfold at_char; rewrite (proj2 (Z.eqb_neq n 0)) by lia.
    cbn [Z.eqb Pos.eqb]; cbv beta iota; cbn [drop]; rewrite drop_0.
    revert Hread; destruct (read_base 0 (n - 1) (body ++ c :: rest)) as [[[b m] s]|]; [|discriminate].
    intros ->; now rewrite Hback.
  - destruct (Hr n Hn) as [(x & s & E & Hx1 & Hx2 & Hx3) Hread].
    rewrite E in Hread |- *; cbn [app skip_spaces] in *; rewrite (proj2 (Z.eqb_neq n 0)) by lia.
    rewrite Hx1; unfold at_char; rewrite (proj2 (Z.eqb_neq n 0)) by lia.
    rewrite (proj2 (Z.eqb_neq x 45)), (proj2 (Z.eqb_neq x 43)) by auto; cbv beta iota.
    revert Hread; destruct (read_base 0 n (x :: s ++ c :: rest)) as [[[b m] s']|]; [|discriminate].
    intros ->; now rewrite Hback.
Qed.

Theorem number_roundtrip_witness :
  strntoumax (format_int_text 18446744073709551574 (hash_flags true) 16 0 (-1) ++ 44 :: [97]) 0 30 =
  Some (18446744073709551574, 44 :: [97]).
Proof.
  apply number_roundtrip; [auto|lia|vm_compute; intuition|discriminate|discriminate|].
  vm_compute; reflexivity.
Defined.
