(* ===== verification/Sort.v ===== *)
(** * Sorting: com32/lib/qsort.c

    [qsort] is a comb sort: passes with a decreasing gap and, from gap 1 on,
    bubble passes until nothing is swapped.  The array is a list of elements
    and the comparison function any function to [int]; [None] is an access
    outside the array or fuel exhausted.  [size_t] has 32 bits, so that the
    computation of the gap may wrap. *)

From Stdlib Require Import Sorting.Sorted.
From S2P Require Import Prelude.

(** [src/com32/lib/qsort.c:12-21 newgap] *)
Definition newgap (gap : Z) : Z :=
  let gap := u32 (gap * 10) / 13 in
  let gap := if (gap =? 9) || (gap =? 10) then 11 else gap in
  if gap <? 1 then 1 else gap.

Section Sort.
Context {A : Type}.
Variable compar : A -> A -> Z.

(** The passes of the inner loop from [i] on, [k] of them left.
    [src/com32/lib/qsort.c:37-44 qsort] *)
Fixpoint comb_pass (k i gap : nat) (l : list A) (swapped : bool) : option (list A * bool) :=
  match k with
  | O => Some (l, swapped)
  | S k =>
      let* x := l !! i in
      let* y := l !! (i + gap)%nat in
      if 0 <? compar x y
      then comb_pass k (S i) gap (<[(i + gap)%nat := x]> (<[i := y]> l)) true
      else comb_pass k (S i) gap l swapped
  end.

(** [src/com32/lib/qsort.c:33-45 qsort] *)
Fixpoint comb_loop (fuel : nat) (gap : Z) (l : list A) : option (list A) :=
  match fuel with
  | O => None
  | S fuel =>
      let gap := newgap gap in
      let* (l, swapped) := comb_pass (length l - Z.to_nat gap) 0 (Z.to_nat gap) l false in
      if (1 <? gap) || swapped then comb_loop fuel gap l else Some l
  end.

(** The number of turns is bounded by the gaps and the inversions. *)
Definition qsort_fuel (n : nat) : nat := S (n + n * n).

(** [src/com32/lib/qsort.c:23-46 qsort] *)
Definition qsort (l : list A) : option (list A) :=
  match l with
  | [] => Some []
  | _ => comb_loop (qsort_fuel (length l)) (Z.of_nat (length l)) l
  end.

(** ** Order and inversions *)

Definition leb (x y : A) : bool := negb (0 <? compar x y).

(** The elements of [l] that ought to precede [x]. *)
Definition below (x : A) (l : list A) : nat := length (List.filter (fun y => negb (leb x y)) l).

Fixpoint inversions (l : list A) : nat :=
  match l with
  | [] => O
  | x :: l => (below x l + inversions l)%nat
  end.

Lemma below_perm x l l' : l ≡ₚ l' -> below x l = below x l'.
Proof. unfold below; induction 1; simpl; repeat destruct (leb _ _); simpl; lia. Qed.

Lemma below_bound x l : (below x l <= length l)%nat.
Proof. unfold below; induction l; simpl; [lia|]; destruct (leb _ _); simpl; lia. Qed.

Lemma inversions_bound l : (inversions l <= length l * length l)%nat.
Proof. induction l as [|x l IH]; simpl; [lia|]. pose proof (below_bound x l); lia. Qed.

(** Swapping two neighbours that are out of order removes one inversion. *)
Lemma inversions_swap l1 x y l2 : leb x y = false -> leb y x = true ->
  (inversions (l1 ++ y :: x :: l2) < inversions (l1 ++ x :: y :: l2))%nat.
Proof.
  intros Hxy Hyx; induction l1 as [|z l1 IH]; simpl.
  - unfold below; simpl; rewrite Hxy, Hyx; simpl; lia.
  - rewrite (below_perm z (l1 ++ y :: x :: l2) (l1 ++ x :: y :: l2)); [lia|].
    apply Permutation_app_head, perm_swap.
Qed.

(** ** The gap *)

Lemma newgap_bounds g : 1 <= g < 4294967296 -> 1 <= newgap g <= g /\ (1 < g -> newgap g < g).
Proof.
  intros Hg; destruct (Z.le_gt_cases g 11) as [Hs|Hs].
  - assert (g = 1 \/ g = 2 \/ g = 3 \/ g = 4 \/ g = 5 \/ g = 6 \/ g = 7 \/ g = 8 \/ g = 9 \/ g = 10 \/ g = 11)
      as Hc by lia; decompose [or] Hc; subst g; vm_compute; intuition (reflexivity || discriminate).
  - unfold newgap.
    assert (H1 : 0 <= u32 (g * 10) <= g * 10) by (split; [apply u32_range|apply Z.mod_le; lia]).
    assert (H2 : 0 <= u32 (g * 10) / 13 /\ 13 * (u32 (g * 10) / 13) <= g * 10)
      by (Z.to_euclidean_division_equations; lia).
    destruct ((_ =? 9) || (_ =? 10)); [simpl; lia|].
    destruct (Z.ltb_spec (u32 (g * 10) / 13) 1); lia.
Qed.

(** ** The passes *)

Lemma comb_pass_perm k : forall i gap l s, (0 < gap)%nat -> (i + k + gap <= length l)%nat ->
  exists l' s', comb_pass k i gap l s = Some (l', s') /\ l' ≡ₚ l.
Proof.
  induction k as [|k IH]; intros i gap l s Hg Hl; cbn [comb_pass]; [eauto|].
  destruct (lookup_lt_is_Some_2 l i) as [x Hx]; [lia|].
  destruct (lookup_lt_is_Some_2 l (i + gap)) as [y Hy]; [lia|].
  rewrite Hx, Hy; destruct (0 <? compar x y); [|apply IH; lia].
  destruct (IH (S i) gap (<[(i + gap)%nat := x]> (<[i := y]> l)) true) as (l' & s' & E & P); auto;
    [rewrite !length_insert; lia|].
  exists l', s'; split; [exact E|]; rewrite P; now apply Permutation_insert_swap.
Qed.

Hypothesis total : forall x y, leb x y = false -> leb y x = true.

Lemma split_two (l : list A) i x y : l !! i = Some x -> l !! (i + 1)%nat = Some y ->
  exists l1 l2, l = l1 ++ x :: y :: l2 /\ length l1 = i.
Proof.
  intros Hx Hy; exists (take i l), (drop (S (S i)) l).
  rewrite Nat.add_1_r in Hy; pose proof (lookup_lt_Some _ _ _ Hx).
  rewrite <- (drop_S _ y), <- (drop_S _ x), take_drop, length_take by auto; split; [auto|lia].
Qed.

(** A pass with gap 1 either finds every pair in order or removes inversions. *)
Lemma bubble_pass k : forall i l s l' s', comb_pass k i 1 l s = Some (l', s') ->
  (inversions l' <= inversions l)%nat /\
  (s' = true -> s = true \/ inversions l' < inversions l)%nat /\
  (s' = false -> l' = l /\ s = false /\
     forall j x y, (i <= j < i + k)%nat -> l !! j = Some x -> l !! S j = Some y -> leb x y = true).
Proof.
  induction k as [|k IH]; cbn [comb_pass]; intros i l s l' s' E.
  - injection E as -> ->; split; [auto|]; split; auto; intros ->; repeat split; auto; lia.
  - destruct (l !! i) as [x|] eqn:Hx; [|discriminate].
    destruct (l !! (i + 1)%nat) as [y|] eqn:Hy; [|discriminate].
    destruct (0 <? compar x y) eqn:Hc.
    + destruct (split_two _ _ _ _ Hx Hy) as (l1 & l2 & -> & Hl1).
      assert (Hxy : leb x y = false) by (unfold leb; now rewrite Hc).
      pose proof (inversions_swap l1 x y l2 Hxy (total _ _ Hxy)) as Hinv.
      replace (<[(i + 1)%nat := x]> (<[i := y]> (l1 ++ x :: y :: l2))) with (l1 ++ y :: x :: l2) in E.
      2:{ rewrite <- Hl1, insert_app_r_alt, Nat.sub_diag by lia; cbn.
          rewrite insert_app_r_alt by lia.
          now replace (length l1 + 1 - length l1)%nat with 1%nat by lia. }
      apply IH in E as (H1 & H2 & H3); split; [lia|split; [intros; right; lia|]].
      intros Hs; destruct (H3 Hs) as (_ & ? & _); discriminate.
    + apply IH in E as (H1 & H2 & H3); split; [auto|split; [auto|]].
      intros Hs; destruct (H3 Hs) as (-> & -> & H4); repeat split; auto.
      intros j a b Hj Ha Hb; destruct (decide (j = i)) as [->|]; [|apply (H4 j); auto; lia].
      rewrite <- Nat.add_1_r in Hb; rewrite Hx in Ha; rewrite Hy in Hb.
      injection Ha as <-; injection Hb as <-; unfold leb; now rewrite Hc.
Qed.

Lemma adjacent_sorted l :
  (forall j x y, l !! j = Some x -> l !! S j = Some y -> leb x y = true) -> Sorted (fun x y => leb x y) l.
Proof.
  induction l as [|x l IH]; intros H; constructor.
  - apply IH; intros j; apply (H (S j)).
  - destruct l as [|y l]; constructor; now rewrite (H O x y).
Qed.

(** With gap 1 every turn but the last removes an inversion. *)
Lemma bubble_loop fuel : forall l, (0 < length l)%nat -> (inversions l < fuel)%nat ->
  exists l', comb_loop fuel 1 l = Some l' /\ l' ≡ₚ l /\ Sorted (fun x y => leb x y) l'.
Proof.
  induction fuel as [|fuel IH]; intros l Hl Hf; [lia|]; cbn [comb_loop].
  change (newgap 1) with 1; change (Z.to_nat 1) with 1%nat.
  destruct (comb_pass_perm (length l - 1) 0 1 l false) as (l' & s' & E & P); [lia|lia|].
  rewrite E; apply bubble_pass in E as (H1 & H2 & H3); destruct s'; cbn.
  - destruct (H2 eq_refl) as [|Hlt]; [discriminate|].
    destruct (IH l') as (l'' & E' & P' & Hs); [rewrite P; lia|lia|].
    exists l''; split; [exact E'|split; [now rewrite P'|exact Hs]].
  - destruct (H3 eq_refl) as (-> & _ & H4); exists l; split; [auto|split; [auto|]].
    apply adjacent_sorted; intros j x y Hx Hy; apply (H4 j); auto.
    apply lookup_lt_Some in Hy; lia.
Qed.

Lemma comb_loop_correct fuel : forall gap l, 1 <= gap < 4294967296 ->
  gap <= Z.of_nat (length l) -> (Z.to_nat gap + length l * length l < fuel)%nat ->
  exists l', comb_loop fuel gap l = Some l' /\ l' ≡ₚ l /\ Sorted (fun x y => leb x y) l'.
Proof.
  induction fuel as [|fuel IH]; intros gap l Hg Hl Hf; [lia|].
  destruct (newgap_bounds gap Hg) as [H1 H2]; pose proof (inversions_bound l).
  destruct (Z.eq_dec (newgap gap) 1) as [E1|E1].
  - replace (comb_loop (S fuel) gap l) with (comb_loop (S fuel) 1 l)
      by (cbn [comb_loop]; now rewrite E1).
    apply bubble_loop; lia.
  - cbn [comb_loop].
    destruct (comb_pass_perm (length l - Z.to_nat (newgap gap)) 0 (Z.to_nat (newgap gap)) l false)
      as (l' & s' & -> & P); [lia|lia|].
    rewrite (proj2 (Z.ltb_lt 1 (newgap gap))) by lia; cbn [orb].
    destruct (IH (newgap gap) l') as (l'' & E' & P' & Hs); [lia|rewrite P; lia|rewrite P; lia|].
    exists l''; split; [exact E'|split; [now rewrite P'|exact Hs]].
Qed.

(** C35: [qsort] terminates, whatever the array, and sorts it: the result is a
    permutation of the array in which no element is greater than the next, if
    of any two elements one is not greater than the other. *)
Theorem qsort_correct l : Z.of_nat (length l) < 4294967296 ->
  exists l', qsort l = Some l' /\ l' ≡ₚ l /\
    forall j x y, l' !! j = Some x -> l' !! S j = Some y -> compar x y <= 0.
Proof.
  intros Hn; destruct l as [|a l]; [exists []; repeat split; auto; discriminate|].
  unfold qsort, qsort_fuel; set (l0 := a :: l) in *.
  assert (0 < length l0)%nat by (unfold l0; simpl; lia).
  destruct (comb_loop_correct (S (length l0 + length l0 * length l0)) (Z.of_nat (length l0)) l0)
    as (l' & E & P & Hs); [lia|lia|lia|].
  exists l'; split; [exact E|split; [exact P|]]; clear - Hs.
  induction Hs as [|x l Hs IH Hhd]; intros j y z Hy Hz; [discriminate|].
  destruct j as [|j]; [|now apply (IH j)].
  injection Hy as <-; destruct l as [|w l]; [discriminate|]; injection Hz as <-.
  inversion Hhd; subst; unfold leb in *; destruct (Z.ltb_spec 0 (compar x w)); [done|lia].
Qed.
End Sort.

(** [strcmp]-like comparison of integers. *)
Definition cmp_int (x y : Z) : Z := x - y.

Theorem qsort_correct_witness : exists l', qsort cmp_int [5; 2; 9; 2; 7; 1; 8; 3; 4; 6; 0; 11; 10] = Some l' /\
  l' ≡ₚ [5; 2; 9; 2; 7; 1; 8; 3; 4; 6; 0; 11; 10] /\
  forall j x y, l' !! j = Some x -> l' !! S j = Some y -> cmp_int x y <= 0.
Proof.
  apply qsort_correct; [|reflexivity].
  intros x y; unfold leb, cmp_int; destruct (Z.ltb_spec 0 (x - y)), (Z.ltb_spec 0 (y - x)); simpl; auto; lia.
Defined.
