(* ===== verification/Adv.v ===== *)
(** * The auxiliary data vector (ADV)

    A vector is a buffer of items: a tag byte, a length byte and the data, up to
    the tag [ADV_END] or the end of the buffer.  [Boot] models the routines of
    the boot loader (com32/elflink/ldlinux/setadv.c and getadv.c), [Installer]
    those of libinstaller/setadv.c, which keep two checksummed copies.
    [items] is the abstract view: the list of (tag, data) pairs. *)

From S2P Require Import Prelude.

Definition ADV_END : Z := 0.

Inductive adv_errno := ADV_OK | ADV_EINVAL | ADV_ENOSPC.

(** [(unsigned)tag - 1 > 254] *)
Definition bad_tag (tag : Z) : bool := 254 <? u32 (tag - 1).

(** The bytes of an item. *)
Definition enc_item (it : Z * list Z) : list Z := it.1 :: Z.of_nat (length it.2) :: it.2.

Definition enc_items (its : list (Z * list Z)) : list Z := mjoin (enc_item <$> its).

Module Boot.
(** The loop of [syslinux_getadv]; [fuel] bounds the number of items.
    [src/com32/elflink/ldlinux/getadv.c:47-65 syslinux_getadv] *)
Fixpoint getadv_loop (fuel : nat) (tag : Z) (p : list Z) : option (list Z) :=
  match fuel, p with
  | S fuel, ptag :: plen :: rest =>
      if ptag =? ADV_END then None
      else if Z.of_nat (length rest) <? plen then None
      else if ptag =? tag then Some (take (Z.to_nat plen) rest)
      else getadv_loop fuel tag (drop (Z.to_nat plen) rest)
  | _, _ => None
  end.

(** The data of the item found; its length is the size returned.
    [src/com32/elflink/ldlinux/getadv.c:39-68 syslinux_getadv] *)
Definition syslinux_getadv (adv : list Z) (tag : Z) : option (list Z) :=
  getadv_loop (length adv) tag adv.

(** The loop that deletes the tag and finds the place to write in: [pre] are
    the bytes before [p], the [left] bytes from [p] on are the list [p], of which
    [rleft] are still to be read.
    [src/com32/elflink/ldlinux/setadv.c:67-92 syslinux_setadv] *)
Fixpoint setadv_seek (fuel : nat) (tag : Z) (pre p : list Z) (rleft : nat)
  : list Z * list Z :=
  match fuel, p with
  | S fuel, ptag :: plen0 :: _ =>
      if (rleft <? 2)%nat then (pre, p)
      else
        let plen := Z.to_nat (plen0 + 2) in
        if ptag =? ADV_END then (pre, p)
        else if ptag =? tag then
          if (rleft <=? plen)%nat then (pre, p)
          else setadv_seek fuel tag pre
                 (take (rleft - plen) (drop plen p) ++ drop (rleft - plen) p) (rleft - plen)
        else if (rleft <? plen)%nat then (pre, p)
        else setadv_seek fuel tag (pre ++ take plen p) (drop plen p) (rleft - plen)
  | _, _ => (pre, p)
  end.

(** Storing the item and zeroing what follows; [None] when it does not fit.
    [src/com32/elflink/ldlinux/setadv.c:97-110 syslinux_setadv] *)
Definition setadv_put (tag : Z) (data pre p : list Z) : option (list Z) :=
  if (0 <? length data)%nat then
    if (length p <? length data + 2)%nat then None
    else Some (pre ++ enc_item (tag, data) ++ replicate (length p - (length data + 2)) 0)
  else Some (pre ++ replicate (length p) 0).

(** The return value, [errno] and the vector afterwards.
    [src/com32/elflink/ldlinux/setadv.c:48-116 syslinux_setadv] *)
Definition syslinux_setadv (adv : list Z) (tag : Z) (data : list Z)
  : Z * adv_errno * list Z :=
  if bad_tag tag then (-1, ADV_EINVAL, adv)
  else if (255 <? length data)%nat then (-1, ADV_ENOSPC, adv)
  else
    let (pre, p) := setadv_seek (length adv) tag [] adv (length adv) in
    match setadv_put tag data pre p with
    | None => (-1, ADV_ENOSPC, adv)
    | Some adv' => (0, ADV_OK, adv')
    end.
End Boot.

Module Installer.
(** [src/libinstaller/setadv.h:5-6 ADV_SIZE] *)
Definition ADV_SIZE : nat := 512.
Definition ADV_LEN : nat := ADV_SIZE - 3 * 4.

Definition ADV_MAGIC1 : Z := 0x5a2d2fa5.
Definition ADV_MAGIC2 : Z := 0xa3041767.
Definition ADV_MAGIC3 : Z := 0xdd28bf64.

(** [src/libinstaller/setadv.c:41-57 cleanup_adv] *)
Definition cleanup_adv (advbuf : list Z) : list Z :=
  let advbuf := set_32 advbuf 0 ADV_MAGIC1 in
  let csum := u32 (ADV_MAGIC2 - sum_words advbuf 8 ((ADV_SIZE - 12) / 4)) in
  let advbuf := set_32 advbuf 4 csum in
  let advbuf := set_32 advbuf (ADV_SIZE - 4) ADV_MAGIC3 in
  blit ADV_SIZE (take ADV_SIZE advbuf) advbuf.

(** The deletion loop of the installer: [left] is the number of bytes from [p]
    on, and does not shrink when an item is deleted.  [None]: out of fuel.
    [src/libinstaller/setadv.c:79-102 syslinux_setadv] *)
Fixpoint inst_setadv_seek (fuel : nat) (tag : Z) (pre p : list Z) : option (list Z * list Z) :=
  match fuel with
  | O => None
  | S fuel =>
      match p with
      | ptag :: plen0 :: _ =>
          let plen := Z.to_nat (plen0 + 2) in
          if ptag =? ADV_END then Some (pre, p)
          else if ptag =? tag then
            if (length p <=? plen)%nat then Some (pre, p)
            else inst_setadv_seek fuel tag pre (drop plen p ++ drop (length p - plen) p)
          else if (length p <? plen)%nat then Some (pre, p)
          else inst_setadv_seek fuel tag (pre ++ take plen p) (drop plen p)
      | _ => Some (pre, p)
      end
  end.

(** [None]: the deletion loop does not end within [fuel] turns.
    [src/libinstaller/setadv.c:59-127 syslinux_setadv] *)
Definition inst_syslinux_setadv (fuel : nat) (syslinux_adv : list Z) (tag : Z) (data : list Z)
  : option (Z * adv_errno * list Z) :=
  if bad_tag tag then Some (-1, ADV_EINVAL, syslinux_adv)
  else if (255 <? length data)%nat then Some (-1, ADV_ENOSPC, syslinux_adv)
  else
    let* (pre, p) := inst_setadv_seek fuel tag [] (slice 8 ADV_LEN syslinux_adv) in
    match Boot.setadv_put tag data pre p with
    | None => Some (-1, ADV_ENOSPC, syslinux_adv)
    | Some advtmp => Some (0, ADV_OK, cleanup_adv (blit 8 advtmp syslinux_adv))
    end.

(** [src/libinstaller/setadv.c:129-134 syslinux_reset_adv] *)
Definition syslinux_reset_adv (advbuf : list Z) : list Z :=
  cleanup_adv (blit 8 (replicate ADV_LEN 0) advbuf).

(** [src/libinstaller/setadv.c:136-150 adv_consistent] *)
Definition adv_consistent (p : list Z) : bool :=
  if negb (get_32 p 0 =? ADV_MAGIC1) || negb (get_32 p (ADV_SIZE - 4) =? ADV_MAGIC3) then false
  else sum_words p 4 ((ADV_SIZE - 8) / 4) =? ADV_MAGIC2.

(** [src/libinstaller/setadv.c:156-168 syslinux_validate_adv] *)
Definition syslinux_validate_adv (advbuf : list Z) : Z * list Z :=
  if adv_consistent advbuf then (0, blit ADV_SIZE (take ADV_SIZE advbuf) advbuf)
  else if adv_consistent (drop ADV_SIZE advbuf)
  then (0, blit 0 (slice ADV_SIZE ADV_SIZE advbuf) advbuf)
  else (-1, syslinux_reset_adv advbuf).
End Installer.

(** ** The abstract view *)

(** The items of a vector, as both loops read them. *)
Fixpoint items_fuel (fuel : nat) (p : list Z) : list (Z * list Z) :=
  match fuel, p with
  | S fuel, ptag :: plen :: rest =>
      if (ptag =? ADV_END) || (Z.of_nat (length rest) <? plen) then []
      else (ptag, take (Z.to_nat plen) rest) :: items_fuel fuel (drop (Z.to_nat plen) rest)
  | _, _ => []
  end.

Definition items (p : list Z) : list (Z * list Z) := items_fuel (length p) p.

(** The specification: a finite sequence of tagged values. *)
Definition spec_get (tag : Z) (its : list (Z * list Z)) : option (list Z) :=
  snd <$> (list_find (fun it => it.1 = tag) its ≫= fun r => Some r.2).

Definition spec_set (tag : Z) (data : list Z) (its : list (Z * list Z)) : list (Z * list Z) :=
  filter (fun it => it.1 <> tag) its ++ (if decide (data = []) then [] else [(tag, data)]).

(** ** Lemmas *)

Lemma items_fuel_enough fuel : forall p, (length p <= fuel)%nat -> items_fuel fuel p = items p.
Proof.
  assert (H : forall n f p, (length p <= n)%nat -> (length p <= f)%nat ->
    items_fuel n p = items_fuel f p).
  { induction n as [|n IH]; intros f p Hn Hf; destruct p as [|t [|l p]]; try (simpl in *; lia);
      destruct f as [|f]; try (simpl in *; lia); auto; simpl.
    destruct (_ || _); auto; f_equal; apply IH; rewrite length_drop; simpl in *; lia. }
  intros p Hp; now apply H.
Qed.

Lemma items_fuel_S fuel ptag plen rest :
  items_fuel (S fuel) (ptag :: plen :: rest) =
    if (ptag =? ADV_END) || (Z.of_nat (length rest) <? plen) then []
    else (ptag, take (Z.to_nat plen) rest) :: items_fuel fuel (drop (Z.to_nat plen) rest).
Proof. reflexivity. Qed.

Lemma items_cons ptag plen rest :
  items (ptag :: plen :: rest) =
    if (ptag =? ADV_END) || (Z.of_nat (length rest) <? plen) then []
    else (ptag, take (Z.to_nat plen) rest) :: items (drop (Z.to_nat plen) rest).
Proof.
  unfold items at 1; cbn [length]; rewrite items_fuel_S.
  destruct (_ || _); auto; f_equal; apply items_fuel_enough; rewrite length_drop; lia.
Qed.

Lemma items_short p : (length p < 2)%nat -> items p = [].
Proof. destruct p as [|a [|b p]]; simpl; auto; lia. Qed.

Lemma items_zeros n : items (replicate n 0) = [].
Proof. destruct n as [|[|n]]; auto. Qed.

(** An item that fits in its length byte. *)
Definition item_ok (it : Z * list Z) : Prop := it.1 <> ADV_END /\ (length it.2 <= 255)%nat.

Lemma length_enc_item it : length (enc_item it) = (length it.2 + 2)%nat.
Proof. simpl; lia. Qed.

Lemma items_enc_item it rest : item_ok it -> items (enc_item it ++ rest) = it :: items rest.
Proof.
  destruct it as [t d]; intros [Ht Hd]; unfold enc_item; simpl app.
  rewrite items_cons, length_app, Nat2Z.id, take_app_length, drop_app_length.
  simpl in Ht; zdec; reflexivity.
Qed.

Lemma items_enc its rest : Forall item_ok its -> items (enc_items its ++ rest) = its ++ items rest.
Proof.
  induction 1 as [|it its Hit _ IH]; auto.
  change (enc_items (it :: its)) with (enc_item it ++ enc_items its).
  now rewrite <- app_assoc, items_enc_item, IH by auto.
Qed.

Lemma items_ok_fuel fuel p :
  Forall is_byte p -> (length p <= fuel)%nat -> Forall item_ok (items_fuel fuel p).
Proof.
  revert p; induction fuel as [|fuel IH]; intros [|t [|l p]] Hb Hf; simpl; auto.
  destruct (_ || _) eqn:E; auto; bools.
  inversion Hb as [|? ? _ Hb1]; inversion Hb1 as [|? ? Hl Hb2]; subst.
  constructor; [split; simpl; auto; rewrite length_take; unfold is_byte in Hl; lia|].
  apply IH; [now apply Forall_drop|rewrite length_drop; simpl in Hf; lia].
Qed.

Lemma items_ok p : Forall is_byte p -> Forall item_ok (items p).
Proof. intros; now apply items_ok_fuel. Qed.

(** *** The reader *)

Lemma getadv_items_fuel fuel tag : forall p, (length p <= fuel)%nat ->
  Boot.getadv_loop fuel tag p = spec_get tag (items p).
Proof.
  induction fuel as [|fuel IH]; intros [|t [|l p]] Hf; auto; [simpl in Hf; lia|].
  rewrite items_cons; cbn [Boot.getadv_loop].
  destruct (t =? ADV_END); auto; simpl orb.
  destruct (Z.of_nat (length p) <? l) eqn:E; auto; bools.
  unfold spec_get; simpl list_find; destruct (t =? tag) eqn:Et; bools.
  - rewrite decide_True by auto; reflexivity.
  - rewrite decide_False by auto.
    rewrite IH by (rewrite length_drop; simpl in Hf; lia).
    unfold spec_get; simpl; now destruct (list_find _ _) as [[? ?]|].
Qed.

(** *** The writer *)

(** The other items of [q], re-encoded. *)
Definition kept (tag : Z) (q : list Z) : list Z :=
  enc_items (filter (fun it => it.1 <> tag) (items q)).

Lemma kept_cons tag t l q :
  t <> ADV_END -> 0 <= l <= Z.of_nat (length q) ->
  kept tag (t :: l :: q) =
    (if t =? tag then [] else t :: l :: take (Z.to_nat l) q) ++ kept tag (drop (Z.to_nat l) q).
Proof.
  intros Ht Hl; unfold kept; rewrite items_cons; zdec; cbn [orb].
  rewrite filter_cons; simpl; destruct (t =? tag) eqn:E; bools.
  - rewrite decide_False by auto; reflexivity.
  - rewrite decide_True by auto; unfold enc_items, enc_item; simpl.
    rewrite length_take; do 2 f_equal; lia.
Qed.

(** The seek loop entered with the bytes [q] to read and the stale bytes [z]
    after them: the other items are kept, the place to write in follows them. *)
Lemma setadv_seek_spec fuel tag : forall pre q z,
  (length q <= fuel)%nat -> Forall is_byte q ->
  exists p', Boot.setadv_seek fuel tag pre (q ++ z) (length q) = (pre ++ kept tag q, p') /\
    (length p' + length (kept tag q) = length (q ++ z))%nat.
Proof.
  induction fuel as [|fuel IH]; intros pre q z Hf Hb.
  { destruct q; [|simpl in Hf; lia]; exists z; cbn; now rewrite app_nil_r. }
  assert (Hstop : kept tag q = [] -> exists p', (pre, q ++ z) = (pre ++ kept tag q, p') /\
    (length p' + length (kept tag q) = length (q ++ z))%nat)
    by (intros ->; exists (q ++ z); cbn; rewrite app_nil_r; auto).
  destruct q as [|t [|l q]].
  { destruct z as [|? [|? ?]]; now apply Hstop. }
  { destruct z; now apply Hstop. }
  inversion Hb as [|? ? _ Hb1]; inversion Hb1 as [|? ? Hl Hb2]; subst; unfold is_byte in Hl.
  cbn [Boot.setadv_seek app length]; rewrite (proj2 (Nat.ltb_ge _ 2)) by lia.
  destruct (t =? ADV_END) eqn:Et; [apply Hstop; unfold kept; rewrite items_cons, Et; done|]; bools.
  destruct (Z.le_gt_cases l (Z.of_nat (length q))) as [Hle|Hgt].
  2: { rewrite (proj2 (Nat.leb_le _ _)), (proj2 (Nat.ltb_lt _ _)) by lia.
       destruct (t =? tag); apply Hstop; unfold kept; rewrite items_cons; zdec; simpl; now rewrite ?orb_true_r. }
  replace (Z.to_nat (l + 2)) with (S (S (Z.to_nat l))) by lia.
  rewrite kept_cons in Hstop |- * by (auto; lia).
  destruct (t =? tag) eqn:E.
  - destruct (Nat.leb_spec (S (S (length q))) (S (S (Z.to_nat l)))).
    { apply Hstop; rewrite drop_ge by lia; reflexivity. }
    destruct (IH pre (drop (Z.to_nat l) q) (drop (length q - Z.to_nat l) (t :: l :: q ++ z)))
      as (p' & Hseek & Hlen); [rewrite length_drop; simpl in Hf; lia|now apply Forall_drop|].
    exists p'; rewrite length_drop in Hseek; cbn [drop app].
    replace (S (S (length q)) - S (S (Z.to_nat l)))%nat with (length q - Z.to_nat l)%nat by lia.
    rewrite drop_app_le, take_app_le, take_ge by (rewrite ?length_drop; lia).
    split; [exact Hseek|]; rewrite Hlen, !length_app, !length_drop; cbn [length].
    rewrite length_app; lia.
  - rewrite (proj2 (Nat.ltb_ge _ _)) by lia.
    destruct (IH (pre ++ t :: l :: take (Z.to_nat l) q) (drop (Z.to_nat l) q) z)
      as (p' & Hseek & Hlen); [rewrite length_drop; simpl in Hf; lia|now apply Forall_drop|].
    exists p'; rewrite length_drop in Hseek; cbn [take drop].
    replace (S (S (length q)) - S (S (Z.to_nat l)))%nat with (length q - Z.to_nat l)%nat by lia.
    rewrite drop_app_le, take_app_le by lia; split; [now rewrite Hseek, <- app_assoc|].
    rewrite length_app, length_drop in Hlen; cbn [length app].
    rewrite !length_app, length_take; lia.
Qed.

Lemma setadv_put_items tag data pre p adv' :
  bad_tag tag = false -> 0 <= tag -> (length data <= 255)%nat ->
  (exists its, Forall item_ok its /\ pre = enc_items its) ->
  Boot.setadv_put tag data pre p = Some adv' ->
  length adv' = (length pre + length p)%nat /\
  items adv' = items pre ++ if decide (data = []) then [] else [(tag, data)].
Proof.
  intros Ht Htag Hd (its & Hits & ->) H; unfold Boot.setadv_put, bad_tag in *.
  assert (Hpre : items (enc_items its) = its)
    by (rewrite <- (app_nil_r (enc_items its)), items_enc by auto; apply app_nil_r).
  destruct (Nat.ltb_spec 0 (length data)).
  - destruct (Nat.ltb_spec (length p) (length data + 2)); [discriminate|].
    apply (inj Some) in H as <-.
    rewrite !length_app, length_replicate, length_enc_item; cbn [snd]; split; [lia|].
    rewrite items_enc, items_enc_item, items_zeros, Hpre by
      (auto; split; auto; cbn [fst]; intros ->; discriminate).
    rewrite decide_False; [auto|]; intros ->; simpl in *; lia.
  - apply (inj Some) in H as <-; rewrite length_app, length_replicate, items_enc, items_zeros, Hpre by auto.
    rewrite decide_True; [auto|]; destruct data; auto; simpl in *; lia.
Qed.

(** ** Properties of the boot loader's vector *)

(** Reading a tag answers the data of the first item of that tag of the
    abstract list. *)
Theorem getadv_refines adv tag : Boot.syslinux_getadv adv tag = spec_get tag (items adv).
Proof. now apply getadv_items_fuel. Qed.

Lemma kept_items tag adv : Forall is_byte adv ->
  items (kept tag adv) = filter (fun it => it.1 <> tag) (items adv) /\
  exists its, Forall item_ok its /\ kept tag adv = enc_items its.
Proof.
  intros Hb; unfold kept.
  assert (Hok : Forall item_ok (filter (fun it => it.1 <> tag) (items adv)))
    by (apply Forall_forall; intros it Hit; apply list_elem_of_filter in Hit as [_ Hit];
        revert it Hit; apply Forall_forall, items_ok, Hb).
  split; [|eauto].
  rewrite <- (app_nil_r (enc_items _)), items_enc by auto; apply app_nil_r.
Qed.

(** C38: setting a tag to at most 255 bytes replaces every item of that tag of the
    abstract list by the new one at the end (by nothing for empty data) and
    keeps the others in order; when the new item does not fit after them the
    answer is ENOSPC and the vector is unchanged. *)
Theorem setadv_refines adv tag data :
  Forall is_byte adv -> 1 <= tag <= 255 -> (length data <= 255)%nat ->
  exists rv e adv', Boot.syslinux_setadv adv tag data = (rv, e, adv') /\
    length adv' = length adv /\
    (rv = 0 /\ e = ADV_OK /\ items adv' = spec_set tag data (items adv) \/
     rv = -1 /\ e = ADV_ENOSPC /\ adv' = adv /\ data <> [] /\
     (length adv < length (enc_items (spec_set tag data (items adv))))%nat).
Proof.
  intros Hb Ht Hd; unfold Boot.syslinux_setadv.
  assert (Hbt : bad_tag tag = false) by (unfold bad_tag; apply Z.ltb_ge; ulia).
  rewrite Hbt, (proj2 (Nat.ltb_ge _ _)) by lia.
  destruct (setadv_seek_spec (length adv) tag [] adv []) as (p' & Hs & Hlen); auto.
  rewrite app_nil_r in Hs, Hlen; rewrite Hs; simpl app.
  destruct (kept_items tag adv Hb) as [Hk Hits].
  destruct (Boot.setadv_put tag data (kept tag adv) p') as [adv'|] eqn:E.
  - apply setadv_put_items in E as [Hl Hi]; auto; [|lia].
    exists 0, ADV_OK, adv'; split; [done|]; split; [lia|left].
    now rewrite Hi, Hk.
  - exists (-1), ADV_ENOSPC, adv; do 2 (split; [done|]); right; do 3 (split; [done|]).
    unfold Boot.setadv_put in E; destruct (Nat.ltb_spec 0 (length data)); [|discriminate].
    destruct (Nat.ltb_spec (length p') (length data + 2)); [|discriminate].
    assert (Hne : data <> []) by (intros ->; simpl in *; lia); split; auto.
    unfold spec_set; rewrite decide_False by auto.
    assert (Happ : forall a it, length (enc_items (a ++ [it])) =
      (length (enc_items a) + length (enc_item it))%nat).
    { intros a it; unfold enc_items; rewrite fmap_app, join_app, length_app; simpl.
      now rewrite app_nil_r. }
    rewrite Happ, length_enc_item; unfold kept in Hlen; cbn [snd]; lia.
Qed.

Definition demo_adv : list Z := [1; 1; 65; 2; 1; 66; 0; 0].
Definition demo_data : list Z := [67; 68].

Theorem setadv_refines_witness :
  exists rv e adv', Boot.syslinux_setadv demo_adv 1 demo_data = (rv, e, adv') /\
    length adv' = length demo_adv /\
    (rv = 0 /\ e = ADV_OK /\ items adv' = spec_set 1 demo_data (items demo_adv) \/
     rv = -1 /\ e = ADV_ENOSPC /\ adv' = demo_adv /\ demo_data <> [] /\
     (length demo_adv < length (enc_items (spec_set 1 demo_data (items demo_adv))))%nat).
Proof.
  apply setadv_refines; [repeat constructor; lia|lia|simpl; lia].
Defined.

Lemma spec_get_set tag tag' data its :
  spec_get tag' (spec_set tag data its) =
    if decide (tag' = tag) then (if decide (data = []) then None else Some data)
    else spec_get tag' its.
Proof.
  unfold spec_set; induction its as [|it its IH]; simpl.
  - repeat case_decide; subst; unfold spec_get; simpl; rewrite ?decide_True, ?decide_False by auto; auto.
  - rewrite filter_cons; destruct (decide (it.1 <> tag)) as [Hn|Hn].
    + simpl; unfold spec_get in *; simpl.
      destruct (decide (it.1 = tag')) as [Heq|Hne]; simpl.
      * rewrite (decide_False (P := tag' = tag)) by congruence; reflexivity.
      * destruct (list_find _ (filter _ its ++ _)) as [[? ?]|], (list_find _ its) as [[? ?]|]; auto.
    + rewrite IH; apply dec_stable in Hn.
      destruct (decide (tag' = tag)); [done|].
      unfold spec_get; simpl; rewrite (decide_False (P := it.1 = tag')) by congruence.
      now destruct (list_find _ its) as [[? ?]|].
Qed.

(** After a successful set the tag reads as the new data (as absent when the
    data is empty), and every other tag reads as before. *)
Theorem adv_set_get adv tag data tag' adv' :
  Forall is_byte adv -> 1 <= tag <= 255 -> (length data <= 255)%nat ->
  Boot.syslinux_setadv adv tag data = (0, ADV_OK, adv') ->
  Boot.syslinux_getadv adv' tag' =
    if decide (tag' = tag) then (if decide (data = []) then None else Some data)
    else Boot.syslinux_getadv adv tag'.
Proof.
  intros Hb Ht Hd H.
  destruct (setadv_refines adv tag data) as (rv & e & a & E & _ & Hc); auto.
  rewrite H in E; injection E as <- <- <-.
  destruct Hc as [(_ & _ & Hi)|(? & _)]; [|discriminate].
  unfold Boot.syslinux_getadv; rewrite !getadv_items_fuel, Hi by auto; apply spec_get_set.
Qed.

Theorem adv_set_get_witness :
  exists adv', Boot.syslinux_setadv demo_adv 1 demo_data = (0, ADV_OK, adv') /\
    Boot.syslinux_getadv adv' 2 =
      if decide (2 = 1) then (if decide (demo_data = []) then None else Some demo_data)
      else Boot.syslinux_getadv demo_adv 2.
Proof.
  eexists; split; [vm_compute; reflexivity|].
  apply (adv_set_get demo_adv 1 demo_data 2);
    [repeat constructor; lia|lia|simpl; lia|vm_compute; reflexivity].
Defined.

(** ** Properties of the installer's vector *)

Module InstallerFacts.
Import Installer.

Lemma get_32_take n m i : (i + 4 <= n)%nat -> get_32 (take n m) i = get_32 m i.
Proof. intros; unfold get_32, get_16, byte_at; now rewrite !lookup_take_lt by lia. Qed.

Lemma adv_consistent_ext m1 m2 :
  (forall k, (k + 4 <= ADV_SIZE)%nat -> get_32 m1 k = get_32 m2 k) ->
  adv_consistent m1 = adv_consistent m2.
Proof.
  intros H; unfold adv_consistent; rewrite !H by (unfold ADV_SIZE; lia).
  rewrite (sum_words_ext _ m1 m2); auto.
  intros k _ Hk; apply H; revert Hk; unfold ADV_SIZE.
  change ((512 - 8) / 4)%nat with 126%nat; lia.
Qed.

Lemma adv_consistent_take m : adv_consistent (take ADV_SIZE m) = adv_consistent m.
Proof. apply adv_consistent_ext; intros; now apply get_32_take. Qed.

(** Both halves of a buffer are one and the same consistent vector. *)
Definition twin (advbuf : list Z) : Prop :=
  length advbuf = (2 * ADV_SIZE)%nat /\ take ADV_SIZE advbuf = drop ADV_SIZE advbuf /\
  adv_consistent advbuf = true.

(** Overwriting the second half with a copy of the first. *)
Lemma blit_second_half m :
  length m = (2 * ADV_SIZE)%nat ->
  take ADV_SIZE (blit ADV_SIZE (take ADV_SIZE m) m) = take ADV_SIZE m /\
  drop ADV_SIZE (blit ADV_SIZE (take ADV_SIZE m) m) = take ADV_SIZE m.
Proof.
  intros Hl; unfold ADV_SIZE in *; split; apply list_eq; intros i.
  - destruct (decide (i < 512)%nat); [|now rewrite !lookup_take_ge by lia].
    rewrite !lookup_take_lt, blit_lookup, decide_False by lia; auto.
  - rewrite lookup_drop; destruct (decide (i < 512)%nat).
    + rewrite blit_lookup, length_take, decide_True by lia.
      f_equal; lia.
    + rewrite !lookup_ge_None_2; auto; rewrite ?length_take, ?length_blit; lia.
Qed.

Lemma twin_copy m :
  length m = (2 * ADV_SIZE)%nat -> adv_consistent m = true ->
  twin (blit ADV_SIZE (take ADV_SIZE m) m).
Proof.
  intros Hl Hc; destruct (blit_second_half m Hl) as [H1 H2].
  split; [now rewrite length_blit|]; split; [congruence|].
  now rewrite <- adv_consistent_take, H1, adv_consistent_take.
Qed.

Lemma cleanup_twin advbuf : length advbuf = (2 * ADV_SIZE)%nat -> twin (cleanup_adv advbuf).
Proof.
  intros Hl; apply twin_copy; [now rewrite !length_set_32|].
  unfold ADV_SIZE in Hl; unfold adv_consistent, ADV_SIZE.
  change ((512 - 8) / 4)%nat with 126%nat; change ((512 - 12) / 4)%nat with 125%nat.
  change (512 - 4)%nat with 508%nat.
  set (b1 := set_32 advbuf 0 ADV_MAGIC1).
  set (csum := u32 (ADV_MAGIC2 - sum_words b1 8 125)).
  rewrite get_set_32 by (unfold b1; rewrite !length_set_32; lia).
  rewrite !get_set_32_ne by lia; unfold b1 at 1; rewrite get_set_32 by lia.
  change (u32 ADV_MAGIC1 =? ADV_MAGIC1) with true; change (u32 ADV_MAGIC3 =? ADV_MAGIC3) with true.
  cbn [negb orb]; apply Z.eqb_eq.
  change (sum_words (set_32 (set_32 b1 4 csum) 508 ADV_MAGIC3) 4 126) with
    (u32 (get_32 (set_32 (set_32 b1 4 csum) 508 ADV_MAGIC3) 4 +
          sum_words (set_32 (set_32 b1 4 csum) 508 ADV_MAGIC3) 8 125)).
  rewrite (sum_words_ext _ _ b1) by (intros; rewrite !get_set_32_ne; auto; lia).
  rewrite get_set_32_ne, get_set_32 by (unfold b1; rewrite ?length_set_32; lia).
  unfold csum, ADV_MAGIC2; ulia.
Qed.

(** After validation the buffer holds two equal consistent copies, whatever
    was in it; the answer is 0 exactly when one of the copies was consistent,
    and the first consistent copy is the one that is kept. *)
Theorem validate_adv_twin advbuf :
  length advbuf = (2 * ADV_SIZE)%nat ->
  twin (syslinux_validate_adv advbuf).2 /\
  ((syslinux_validate_adv advbuf).1 = 0 <->
     adv_consistent advbuf = true \/ adv_consistent (drop ADV_SIZE advbuf) = true) /\
  (adv_consistent advbuf = true ->
     take ADV_SIZE (syslinux_validate_adv advbuf).2 = take ADV_SIZE advbuf) /\
  (adv_consistent advbuf = false -> adv_consistent (drop ADV_SIZE advbuf) = true ->
     take ADV_SIZE (syslinux_validate_adv advbuf).2 = drop ADV_SIZE advbuf).
Proof.
  intros Hl; unfold syslinux_validate_adv.
  destruct (adv_consistent advbuf) eqn:E1; cbn [fst snd].
  { destruct (blit_second_half advbuf Hl) as [H1 _].
    split; [now apply twin_copy|]; split; [tauto|]; split; [auto|discriminate]. }
  destruct (adv_consistent (drop ADV_SIZE advbuf)) eqn:E2; cbn [fst snd].
  - assert (Hs : slice ADV_SIZE ADV_SIZE advbuf = drop ADV_SIZE advbuf)
      by (unfold slice; apply take_ge; rewrite length_drop; unfold ADV_SIZE in *; lia).
    rewrite Hs; assert (Hb : blit 0 (drop ADV_SIZE advbuf) advbuf = drop ADV_SIZE advbuf ++ drop ADV_SIZE advbuf).
    { apply list_eq; intros i; unfold ADV_SIZE in *; destruct (decide (i < 1024)%nat).
      - rewrite blit_lookup, length_drop by lia; destruct (decide _).
        + rewrite lookup_app_l by (rewrite length_drop; lia); f_equal; lia.
        + rewrite lookup_app_r, lookup_drop, length_drop by (rewrite length_drop; lia); f_equal; lia.
      - rewrite !lookup_ge_None_2; auto; rewrite ?length_blit, ?length_app, ?length_drop; lia. }
    assert (Hd : length (drop ADV_SIZE advbuf) = ADV_SIZE)
      by (rewrite length_drop, Hl; reflexivity).
    rewrite Hb; assert (Ht : take ADV_SIZE (drop ADV_SIZE advbuf ++ drop ADV_SIZE advbuf) = drop ADV_SIZE advbuf)
      by (now apply take_app_length').
    split; [|split; [tauto|split; [discriminate|auto]]].
    split; [rewrite length_app, Hd; reflexivity|]; split.
    + rewrite Ht; symmetry; now apply drop_app_length'.
    + now rewrite <- adv_consistent_take, Ht.
  - split; [apply cleanup_twin; now rewrite length_blit|].
    split; [split; [discriminate|intros [?|?]; discriminate]|]; split; discriminate.
Qed.

Theorem validate_adv_twin_witness :
  let buf := replicate 1024 7 in
  twin (syslinux_validate_adv buf).2 /\
  ((syslinux_validate_adv buf).1 = 0 <->
     adv_consistent buf = true \/ adv_consistent (drop ADV_SIZE buf) = true) /\
  (adv_consistent buf = true ->
     take ADV_SIZE (syslinux_validate_adv buf).2 = take ADV_SIZE buf) /\
  (adv_consistent buf = false -> adv_consistent (drop ADV_SIZE buf) = true ->
     take ADV_SIZE (syslinux_validate_adv buf).2 = drop ADV_SIZE buf).
Proof. intros buf; apply validate_adv_twin; reflexivity. Defined.

(** C39: the installer's deletion loop does not end on a vector filled with empty
    items of the deleted tag: deleting one shifts the same bytes into place and
    the number of bytes left to read does not shrink. *)
Theorem installer_setadv_diverges fuel magic data :
  length magic = 8%nat -> (length data <= 255)%nat ->
  inst_syslinux_setadv fuel (magic ++ mjoin (replicate 250 [9; 0]) ++ replicate 516 0) 9 data = None.
Proof.
  intros Hm Hd; unfold inst_syslinux_setadv.
  change (bad_tag 9) with false; rewrite (proj2 (Nat.ltb_ge _ _)) by lia; cbv iota.
  unfold slice; rewrite drop_app_length' by auto.
  replace (take ADV_LEN _) with (mjoin (replicate 250 [9; 0])) by reflexivity.
  assert (H : forall fuel, inst_setadv_seek fuel 9 [] (mjoin (replicate 250 [9; 0])) = None)
    by (induction fuel0; [reflexivity|exact IHfuel0]).
  now rewrite H.
Qed.

Theorem installer_setadv_diverges_witness :
  inst_syslinux_setadv 1000 (replicate 8 0 ++ mjoin (replicate 250 [9; 0]) ++ replicate 516 0) 9 [] = None.
Proof. apply installer_setadv_diverges; [reflexivity|simpl; lia]. Defined.
End InstallerFacts.
