(* ===== verification/Dhcp.v ===== *)
(** * DHCP options: com32/lib/dhcppack.c and com32/lib/dhcpunpack.c

    An option array is a function from the option number to its length (negative
    when the option is absent) and data pointer ([None] is NULL).  Fields are
    lists of bytes; a packet is a buffer written at offsets, so that writes
    past a field land in what follows it. *)

From S2P Require Import Prelude.

(** ** Data *)

Definition ENOMEM : Z := 12.
Definition EINVAL : Z := 22.
Definition ENOSPC : Z := 28.

(** [src/com32/include/dhcp.h:6-9 struct dhcp_option] *)
Record dhcp_option := Opt { o_data : option (list Z); o_len : Z }.

Definition options := Z -> dhcp_option.

Definition set_opt (o : options) (i : Z) (v : dhcp_option) : options :=
  fun j => if j =? i then v else o j.

Definition set_len (o : options) (i len : Z) : options :=
  set_opt o i (Opt (o_data (o i)) len).

(** The bytes an option holds, when it is present. *)
Definition value (v : dhcp_option) : option (list Z) :=
  if o_len v <? 0 then None
  else Some (take (Z.to_nat (o_len v)) (default [] (o_data v))).

(** Offsets of the fields of a packet.
    [src/com32/include/dhcp.h:11-27 struct dhcp_packet] *)
Inductive packet_field := P_sname | P_file | P_magic | P_options.

Definition field_offset (f : packet_field) : nat :=
  match f with P_sname => 44 | P_file => 108 | P_magic => 236 | P_options => 240 end.

Definition sizeof_dhcp_packet : Z := 244.

(** [DHCP_VENDOR_MAGIC] in network byte order. *)
Definition vendor_magic : list Z := [0x63; 0x82; 0x53; 0x63].

(** ** Packing *)

(** The room an option of length [len] takes.
    [src/com32/lib/dhcppack.c:34-38 dhcp_pack_field_zero] *)
Definition packed_len (len : Z) : Z :=
  if len <=? 255 then len + 2 else len + 2 * ((len + 254) / 255).

(** The loop that stores an option in pieces of at most 255 bytes; [fuel] is
    any bound on the number of pieces.
    [src/com32/lib/dhcppack.c:48-58 dhcp_pack_field_zero] *)
Fixpoint put_option (fuel : nat) (i : Z) (d : list Z) : list Z :=
  match fuel with
  | O => []
  | S fuel =>
      let plen := Nat.min 255 (length d) in
      i :: Z.of_nat plen :: take plen d ++
      match drop plen d with
      | [] => []
      | d' => put_option fuel i d'
      end
  end.

Record pack_state := Pack { ps_out : list Z; ps_spc : Z; ps_err : Z; ps_opt : options }.

(** One turn of the loop over the options.
    [src/com32/lib/dhcppack.c:30-61 dhcp_pack_field_zero] *)
Definition pack_option (st : pack_state) (i : Z) : pack_state :=
  let v := ps_opt st i in
  if o_len v <? 0 then st
  else
    let xlen := packed_len (o_len v) in
    if ps_spc st <=? xlen then Pack (ps_out st) (ps_spc st) (ps_err st + 1) (ps_opt st)
    else
      let d := take (Z.to_nat (o_len v)) (default [] (o_data v)) in
      Pack (ps_out st ++ put_option (S (length d)) i d) (ps_spc st - xlen) (ps_err st)
        (set_len (ps_opt st) i (-1)).

(** The return value, the bytes stored from the start of the field on, the
    number of active bytes and the options left.
    [src/com32/lib/dhcppack.c:17-68 dhcp_pack_field_zero] *)
Definition dhcp_pack_field_zero (len : Z) (opt : options) : Z * list Z * Z * options :=
  if len =? 0 then (ENOSPC, [], len, opt)
  else
    let st := foldl pack_option (Pack [] len 0 opt) (seqZ 1 254) in
    let active := ps_out st ++ [255] in
    (ps_err st, active ++ replicate (Z.to_nat (ps_spc st)) 0,
     Z.of_nat (length active), ps_opt st).

(** [src/com32/lib/dhcppack.c:77-84 dhcp_pack_field] *)
Definition dhcp_pack_field (len : Z) (opt : options) : Z * list Z * Z :=
  let '(err, bs, len', _) := dhcp_pack_field_zero len opt in (err, bs, len').

(** Filling one of the two fixed fields: with options when it is overloaded,
    otherwise with the zero-padded option of its own.
    [src/com32/lib/dhcppack.c:147-163 dhcp_pack_packet] *)
Definition pack_fixed (overloaded : bool) (off : nat) (size : Z) (own : dhcp_option)
    (err : Z) (pkt : list Z) (ox : options) : Z * list Z * options :=
  if overloaded then
    let '(err, bs, _, ox) := dhcp_pack_field_zero size ox in (err, blit off bs pkt, ox)
  else
    let pkt := blit off (replicate (Z.to_nat size) 0) pkt in
    if 0 <? o_len own
    then (err, blit off (take (Z.to_nat (o_len own)) (default [] (o_data own))) pkt, ox)
    else (err, pkt, ox).

(** The return value, the packet and its length.
    [src/com32/lib/dhcppack.c:91-166 dhcp_pack_packet] *)
Definition dhcp_pack_packet (pkt : list Z) (len : Z) (opt : options) : Z * list Z * Z :=
  if len <? sizeof_dhcp_packet then (ENOSPC, pkt, len)
  else
    let pkt := blit (field_offset P_magic) vendor_magic pkt in
    let over_file := 128 <? o_len (opt 67) in
    let over_sname := 64 <? o_len (opt 66) in
    let ox := if over_file then opt else set_len opt 67 (-1) in
    let ox := if over_sname then ox else set_len ox 66 (-1) in
    let ox := set_len ox 52 (-1) in
    let '(head, ox) :=
      if o_len (ox 53) =? 1
      then ([53; 1; nth 0 (default [] (o_data (ox 53))) 0], set_len ox 53 (-1))
      else ([], ox) in
    let overload := (if over_file then 1 else 0) + (if over_sname then 2 else 0) in
    let head := head ++ (if overload =? 0 then [] else [52; 1; overload]) in
    let spc := len - 240 - Z.of_nat (length head) in
    let q := (field_offset P_options + length head)%nat in
    let '(err, bs, spc, ox) := dhcp_pack_field_zero spc ox in
    let pkt := blit q bs (blit (field_offset P_options) head pkt) in
    let '(err, pkt, ox) := pack_fixed over_file (field_offset P_file) 128 (opt 67) err pkt ox in
    let '(err, pkt, ox) := pack_fixed over_sname (field_offset P_sname) 64 (opt 66) err pkt ox in
    (err, pkt, spc + Z.of_nat q).

(** ** Unpacking *)

(** The loop over the bytes of a field, of which [fuel] is a bound.  When
    [realloc] fails the data pointer is lost and the loop goes on with the
    bytes of the option; bytes of a fresh block that were never written are
    shown as 0.
    [src/com32/lib/dhcpunpack.c:21-52 dhcp_unpack_field] *)
Fixpoint unpack_loop (fuel : nat) (p : list Z) (opt : options) (err : Z) (m : Mem.t)
  : Z * options * Mem.t :=
  match fuel with
  | O => (err, opt, m)
  | S fuel =>
      match p with
      | op :: (x :: rest) as p1 =>
          if op =? 0 then unpack_loop fuel p1 opt err m
          else if op =? 255 then (err, opt, m)
          else if Z.of_nat (length rest) <? x then (err, opt, m)
          else
            let opt := if o_len (opt op) <? 0 then set_len opt op 0 else opt in
            if x =? 0 then unpack_loop fuel rest opt err m
            else
              let (ok, m) := Mem.malloc m in
              if ok then
                let old := resize (Z.to_nat (o_len (opt op))) 0 (default [] (o_data (opt op))) in
                let chunk := take (Z.to_nat x) rest in
                unpack_loop fuel (drop (Z.to_nat x) rest)
                  (set_opt opt op (Opt (Some (old ++ chunk ++ [0])) (o_len (opt op) + x))) err m
              else unpack_loop fuel rest (set_opt opt op (Opt None (o_len (opt op)))) ENOMEM m
      | _ => (err, opt, m)
      end
  end.

(** [src/com32/lib/dhcpunpack.c:15-53 dhcp_unpack_field] *)
Definition dhcp_unpack_field (field : list Z) (opt : options) (m : Mem.t)
  : Z * options * Mem.t :=
  unpack_loop (length field) field opt 0 m.

(** The length of the string in a fixed field. *)
Fixpoint field_strnlen (s : list Z) : Z :=
  match s with
  | [] => 0
  | c :: s => if c =? 0 then 0 else 1 + field_strnlen s
  end.

Definition absent : dhcp_option := Opt None (-1).

(** A fixed field that is not overloaded: its string becomes option [i], whose
    bytes the code copies from [from].
    [src/com32/lib/dhcpunpack.c:87-98 dhcp_unpack_packet] *)
Definition unpack_fixed (i : Z) (field from : list Z) (opt : options) (err : Z) (m : Mem.t)
  : Z * options * Mem.t :=
  let len := field_strnlen field in
  let opt := set_len opt i len in
  if len =? 0 then (err, opt, m)
  else
    let (ok, m) := Mem.malloc m in
    if ok then (err, set_opt opt i (Opt (Some (take (Z.to_nat len) from ++ [0])) len), m)
    else (Z.lor err ENOMEM, set_opt opt i (Opt None len), m).

(** [src/com32/lib/dhcpunpack.c:59-116 dhcp_unpack_packet] *)
Definition dhcp_unpack_packet (pkt : list Z) (len : Z) (opt : options) (m : Mem.t)
  : Z * options * Mem.t :=
  if (len <? 240) || bool_decide (slice (field_offset P_magic) 4 pkt <> vendor_magic)
  then (EINVAL, opt, m)
  else
    let opt := fun i => if (0 <=? i) && (i <? 256) then absent else opt i in
    let '(err, opt, m) :=
      dhcp_unpack_field (slice (field_offset P_options) (Z.to_nat (len - 240)) pkt) opt m in
    let (overload, opt) :=
      if o_len (opt 52) =? 1
      then (nth 0 (default [] (o_data (opt 52))) 0, set_opt opt 52 absent)
      else (0, opt) in
    let file := slice (field_offset P_file) 128 pkt in
    let sname := slice (field_offset P_sname) 64 pkt in
    let '(err, opt, m) :=
      if Z.testbit overload 0 then
        let '(e, opt, m) := dhcp_unpack_field file opt m in (Z.lor err e, opt, m)
      else unpack_fixed 67 file file opt err m in
    if Z.testbit overload 1 then
      let '(e, opt, m) := dhcp_unpack_field sname opt m in (Z.lor err e, opt, m)
    else unpack_fixed 66 sname file opt err m.

(** ** Lemmas *)

Lemma packed_len_step len : 255 < len -> packed_len len = 257 + packed_len (len - 255).
Proof.
  intros H; unfold packed_len; replace (len <=? 255) with false by lia.
  split_if; ulia.
Qed.

Lemma put_option_len fuel i : forall d, (length d < fuel)%nat ->
  Z.of_nat (length (put_option fuel i d)) = packed_len (Z.of_nat (length d)).
Proof.
  induction fuel as [|fuel IH]; intros d Hd; [lia|]; cbn [put_option length].
  rewrite length_app, length_take.
  destruct (drop (Nat.min 255 (length d)) d) as [|b d'] eqn:E.
  - apply (f_equal length) in E; rewrite length_drop in E; cbn [length] in *.
    unfold packed_len; replace (Z.of_nat (length d) <=? 255) with true by lia; lia.
  - assert (El := f_equal length E); rewrite length_drop in El; cbn [length] in El.
    rewrite packed_len_step by lia; rewrite Nat2Z.inj_succ, Nat2Z.inj_succ, Nat2Z.inj_add, IH by (cbn [length]; lia).
    replace (Z.of_nat (length (b :: d'))) with (Z.of_nat (length d) - 255) by (cbn [length]; lia).
    lia.
Qed.

(** The buffer of a present option is as long as its length says. *)
Definition data_ok (v : dhcp_option) : Prop :=
  o_len v <= Z.of_nat (length (default [] (o_data v))).

(** An option array entry that holds exactly the bytes [d], or is absent. *)
Definition holds (v : dhcp_option) (d : option (list Z)) : Prop :=
  match d with
  | None => o_len v < 0
  | Some d => o_len v = Z.of_nat (length d) /\ take (length d) (default [] (o_data v)) = d
  end.

Lemma holds_value v d : holds v d -> value v = d.
Proof.
  destruct d as [d|]; unfold value; simpl.
  - intros [-> Hd]. zdec. now rewrite Nat2Z.id, Hd.
  - intros H; now zdec.
Qed.

Lemma value_holds v : data_ok v -> holds v (value v).
Proof.
  unfold data_ok, value; intros Hd; destruct (Z.ltb_spec (o_len v) 0); cbn [holds]; [done|].
  rewrite length_take; replace (Nat.min _ _) with (Z.to_nat (o_len v)) by lia; split; [lia|done].
Qed.

Lemma set_opt_eq o i v : set_opt o i v i = v.
Proof. unfold set_opt; now rewrite Z.eqb_refl. Qed.

Lemma set_opt_ne o i j v : j <> i -> set_opt o i v j = o j.
Proof. unfold set_opt; intros H; now apply Z.eqb_neq in H as ->. Qed.

(** Reading one piece of an option: its bytes are appended. *)
Lemma unpack_piece fuel i c rest opt err m pre :
  1 <= i < 255 -> holds (opt i) pre -> Mem.reliable m ->
  exists opt' m',
    unpack_loop (S fuel) (i :: Z.of_nat (length c) :: c ++ rest) opt err m =
      unpack_loop fuel rest opt' err m' /\
    holds (opt' i) (Some (default [] pre ++ c)) /\
    (forall j, j <> i -> opt' j = opt j) /\ Mem.reliable m'.
Proof.
  intros Hi Hh Hm; cbn [unpack_loop].
  replace (i =? 0) with false by lia; replace (i =? 255) with false by lia.
  rewrite length_app; zdec.
  set (opt1 := if o_len (opt i) <? 0 then set_len opt i 0 else opt).
  assert (H1 : holds (opt1 i) (Some (default [] pre)) /\ forall j, j <> i -> opt1 j = opt j).
  { unfold opt1, set_len; destruct pre as [d|]; simpl in Hh.
    - destruct Hh as [Hl Hd]; rewrite Hl; zdec; simpl; auto.
    - zdec; rewrite set_opt_eq; simpl; split; auto using set_opt_ne. }
  destruct H1 as [[Hl Hd] Hj]; clearbody opt1.
  destruct c as [|b c]; [exists opt1, m; simpl; now rewrite app_nil_r|].
  replace (Z.of_nat (length (b :: c)) =? 0) with false by (simpl; lia).
  destruct (Mem.malloc m) as [ok m1] eqn:Em.
  apply Mem.malloc_reliable in Em as [-> Hm1]; auto.
  rewrite Nat2Z.id, drop_app_length, take_app_length, Hl, Nat2Z.id.
  eexists _, m1; split; [reflexivity|]; rewrite set_opt_eq; split; [|split; auto].
  - cbn [holds o_data o_len from_option id]; rewrite length_app, Nat2Z.inj_add; split; [lia|].
    assert (Hr : resize (length (default [] pre)) 0 (default [] (o_data (opt1 i))) = default [] pre).
    { assert (Hlen := f_equal length Hd); rewrite length_take in Hlen.
      rewrite resize_le by lia. exact Hd. }
    rewrite Hr, app_assoc, <- length_app; apply take_app_length.
  - intros j Hne; rewrite set_opt_ne by auto; auto.
Qed.

(** Reading all the pieces of an option. *)
Lemma unpack_put k i rest : forall d fuel opt err m pre,
  1 <= i < 255 -> (length d < k)%nat -> holds (opt i) pre -> Mem.reliable m ->
  (length (put_option k i d ++ rest) <= fuel)%nat ->
  exists fuel' opt' m',
    unpack_loop fuel (put_option k i d ++ rest) opt err m = unpack_loop fuel' rest opt' err m' /\
    (length rest <= fuel')%nat /\ holds (opt' i) (Some (default [] pre ++ d)) /\
    (forall j, j <> i -> opt' j = opt j) /\ Mem.reliable m'.
Proof.
  induction k as [|k IH]; intros d fuel opt err m pre Hi Hk Hh Hm Hf; [lia|].
  assert (Hmin : Nat.min 255 (length d) = length (take (Nat.min 255 (length d)) d))
    by (rewrite length_take; lia).
  set (c := take (Nat.min 255 (length d)) d) in *.
  destruct fuel as [|fuel]; [simpl in Hf; lia|].
  set (tl := match drop (Nat.min 255 (length d)) d with [] => [] | d' => put_option k i d' end).
  assert (Ep : put_option (S k) i d ++ rest = i :: Z.of_nat (length c) :: c ++ tl ++ rest)
    by (unfold tl; cbn [put_option]; rewrite <- Hmin; simpl; now rewrite app_assoc).
  rewrite Ep in *.
  destruct (unpack_piece fuel i c (tl ++ rest) opt err m pre) as (opt1 & m1 & -> & Hh1 & Hj1 & Hm1); auto.
  assert (Hd : d = c ++ drop (Nat.min 255 (length d)) d) by (symmetry; apply take_drop).
  unfold tl in *; destruct (drop (Nat.min 255 (length d)) d) as [|b d'] eqn:E.
  - exists fuel, opt1, m1; simpl in *; rewrite Hd, app_nil_r; repeat split; auto; try apply Hh1.
    rewrite length_app in Hf; lia.
  - apply (f_equal length) in E; rewrite length_drop in E; cbn [length] in E.
    destruct (IH (b :: d') fuel opt1 err m1 (Some (default [] pre ++ c)))
      as (fuel' & opt2 & m2 & -> & Hf2 & Hh2 & Hj2 & Hm2); auto.
    { cbn [length] in *; lia. }
    { cbn [length] in Hf; rewrite length_app in Hf; lia. }
    exists fuel', opt2, m2; repeat split; auto.
    + simpl default in Hh2; rewrite <- app_assoc, <- Hd in Hh2; apply Hh2.
    + simpl default in Hh2; rewrite <- app_assoc, <- Hd in Hh2; apply Hh2.
    + intros j Hne; rewrite Hj2; auto.
Qed.

(** One turn of the packing loop: the option is skipped, or stored whole. *)
Lemma pack_option_spec st i :
  0 < ps_spc st -> data_ok (ps_opt st i) ->
  exists enc, ps_out (pack_option st i) = ps_out st ++ enc /\
    0 < ps_spc (pack_option st i) /\
    Z.of_nat (length enc) + ps_spc (pack_option st i) = ps_spc st /\
    (forall j, j <> i -> ps_opt (pack_option st i) j = ps_opt st j) /\
    (enc = [] /\ ps_opt (pack_option st i) i = ps_opt st i \/
     exists d, enc = put_option (S (length d)) i d /\ value (ps_opt st i) = Some d /\
       o_len (ps_opt (pack_option st i) i) < 0).
Proof.
  intros Hs Hd; unfold pack_option.
  destruct (o_len (ps_opt st i) <? 0) eqn:E; bools.
  { exists []; rewrite app_nil_r; split; [done|]; simpl; auto 10 with words. }
  destruct (ps_spc st <=? packed_len (o_len (ps_opt st i))) eqn:E2; bools; simpl.
  { exists []; rewrite app_nil_r; split; [done|]; simpl; auto 10 with words. }
  set (d := take (Z.to_nat (o_len (ps_opt st i))) (default [] (o_data (ps_opt st i)))).
  assert (Hlen : Z.of_nat (length d) = o_len (ps_opt st i))
    by (unfold d, data_ok in *; rewrite length_take; lia).
  exists (put_option (S (length d)) i d).
  rewrite put_option_len, Hlen by lia.
  split; [done|]; split; [lia|]; split; [lia|]; split; [intros; now apply set_opt_ne|].
  right; exists d; split; [done|]; split; [|unfold set_len; rewrite set_opt_eq; simpl; lia].
  unfold value; now zdec.
Qed.

(** What is in the entry [v] after unpacking, when the option was [b] before it was
    packed and [a] after. *)
Definition unpacked (v b a : dhcp_option) : option (list Z) :=
  match value b with
  | Some d => if o_len a <? 0 then Some (default [] (value v) ++ d) else value v
  | None => value v
  end.

Lemma unpacked_same v b : unpacked v b b = value v.
Proof. unfold unpacked, value at 1; destruct (o_len b <? 0); done. Qed.

(** The bytes [enc] carry the options [l] of [before] that [after] lacks. *)
Definition carries (l : list Z) (enc : list Z) (before after : options) : Prop :=
  forall rest fuel opt err m, (forall i, i ∈ l -> data_ok (opt i)) -> Mem.reliable m ->
    (length (enc ++ rest) <= fuel)%nat ->
    exists fuel' opt' m',
      unpack_loop fuel (enc ++ rest) opt err m = unpack_loop fuel' rest opt' err m' /\
      (length rest <= fuel')%nat /\
      (forall i, i ∈ l ->
         holds (opt' i) (unpacked (opt i) (before i) (after i))) /\
      (forall j, j ∉ l -> opt' j = opt j) /\ Mem.reliable m'.

Lemma pack_option_carries st i enc st' :
  1 <= i < 255 -> st' = pack_option st i ->
  (enc = [] /\ ps_opt st' i = ps_opt st i \/
   exists d, enc = put_option (S (length d)) i d /\ value (ps_opt st i) = Some d /\
     o_len (ps_opt st' i) < 0) ->
  carries [i] enc (ps_opt st) (ps_opt st').
Proof.
  intros Hi -> Hcase rest fuel opt err m Habs Hm Hf.
  assert (Hpre : holds (opt i) (value (opt i))) by (apply value_holds, Habs; set_solver).
  destruct Hcase as [[-> He]|(d & -> & Hv & Hlt)].
  - exists fuel, opt, m; repeat split; auto.
    intros j Hj; apply list_elem_of_singleton in Hj as ->; rewrite He, unpacked_same; exact Hpre.
  - destruct (unpack_put (S (length d)) i rest d fuel opt err m (value (opt i)))
      as (fuel' & opt' & m' & -> & Hf' & Hh & Hj & Hm'); auto.
    exists fuel', opt', m'; repeat split; auto.
    + intros j Hj'; apply list_elem_of_singleton in Hj' as ->. unfold unpacked; zdec; now rewrite Hv.
    + intros j Hj'; apply Hj; set_solver.
Qed.

Lemma carries_cons i l enc1 enc2 o1 o2 o3 :
  i ∉ l -> carries [i] enc1 o1 o2 -> carries l enc2 o2 o3 ->
  (forall j, j <> i -> o2 j = o1 j) -> (forall j, j ∉ l -> o3 j = o2 j) ->
  carries (i :: l) (enc1 ++ enc2) o1 o3.
Proof.
  intros Hi H1 H2 Hj1 Hj2 rest fuel opt err m Habs Hm Hf; rewrite <- app_assoc in *.
  destruct (H1 (enc2 ++ rest) fuel opt err m) as (f1 & opt1 & m1 & -> & Hf1 & Hh1 & Ho1 & Hm1); auto.
  { intros; apply Habs; set_solver. }
  destruct (H2 rest f1 opt1 err m1) as (f2 & opt2 & m2 & -> & Hf2 & Hh2 & Ho2 & Hm2); auto.
  { intros j Hj; rewrite Ho1 by set_solver; apply Habs; set_solver. }
  exists f2, opt2, m2; repeat split; auto.
  - intros j Hj; apply elem_of_cons in Hj as [->|Hj].
    + rewrite Ho2, Hj2 by auto; apply Hh1; set_solver.
    + rewrite <- Hj1, <- (Ho1 j) by (try (intros ->; auto); set_solver); auto.
  - intros j Hj; rewrite Ho2, Ho1 by set_solver; auto.
Qed.

Lemma pack_fold l : forall st,
  NoDup l -> (forall i, i ∈ l -> 1 <= i < 255 /\ data_ok (ps_opt st i)) -> 0 < ps_spc st ->
  let st' := foldl pack_option st l in
  exists enc, ps_out st' = ps_out st ++ enc /\ 0 < ps_spc st' /\
    Z.of_nat (length enc) + ps_spc st' = ps_spc st /\
    (forall j, j ∉ l -> ps_opt st' j = ps_opt st j) /\
    carries l enc (ps_opt st) (ps_opt st').
Proof.
  induction l as [|i l IH]; intros st Hnd Hok Hs; simpl.
  - exists []; rewrite app_nil_r; repeat split; auto.
    intros rest fuel opt err m _ Hm Hf; exists fuel, opt, m; repeat split; auto; set_solver.
  - apply NoDup_cons in Hnd as [Hi Hnd].
    destruct (Hok i) as [Hr Hd]; [set_solver|].
    destruct (pack_option_spec st i) as (e1 & Ho1 & Hs1 & Hl1 & Hj1 & Hc); auto.
    destruct (IH (pack_option st i)) as (e2 & Ho2 & Hs2 & Hl2 & Hj2 & Hc2); auto.
    { intros j Hj; rewrite Hj1 by set_solver; apply Hok; set_solver. }
    exists (e1 ++ e2); rewrite Ho2, Ho1, app_assoc; split; [done|]; split; [done|].
    rewrite length_app; split; [lia|]; split.
    + intros j Hj; rewrite Hj2, Hj1 by set_solver; auto.
    + apply carries_cons with (o2 := ps_opt (pack_option st i)); auto.
      eapply pack_option_carries; eauto.
Qed.

Lemma option_numbers i : i ∈ seqZ 1 254 <-> 1 <= i < 255.
Proof. rewrite elem_of_seqZ; lia. Qed.

(** What [dhcp_pack_field_zero] stores, its size included. *)
Lemma pack_field_spec len opt :
  0 < len -> (forall i, 1 <= i < 255 -> data_ok (opt i)) ->
  exists enc pad err left,
    dhcp_pack_field_zero len opt =
      (err, enc ++ [255] ++ replicate (S pad) 0, Z.of_nat (length (enc ++ [255])), left) /\
    Z.of_nat (length enc + S pad) = len /\ carries (seqZ 1 254) enc opt left /\
    forall j, ~ 1 <= j < 255 -> left j = opt j.
Proof.
  intros Hl Hok; unfold dhcp_pack_field_zero; zdec.
  destruct (pack_fold (seqZ 1 254) (Pack [] len 0 opt)) as (enc & Ho & Hs & Hlen & Hj & Hc);
    cbn [ps_out ps_spc ps_opt] in *; auto.
  { apply NoDup_seqZ. }
  { intros i Hi; apply option_numbers in Hi; auto. }
  set (st := foldl pack_option (Pack [] len 0 opt) (seqZ 1 254)) in *; clearbody st.
  exists enc, (pred (Z.to_nat (ps_spc st))), (ps_err st), (ps_opt st).
  rewrite Ho. replace (S (pred (Z.to_nat (ps_spc st)))) with (Z.to_nat (ps_spc st)) by lia.
  rewrite <- app_assoc; repeat split; auto; [lia|].
  intros j Hj'; apply Hj; now rewrite option_numbers.
Qed.

(** ** Properties *)

(** C37: unpacking the field the packer filled appends, to whatever the array it
    unpacks into holds already (nothing, in an array of absent or of all-zero
    entries), exactly the options the packer reports as stored, byte for byte, long
    options split over several pieces included, and leaves the other entries as they
    were.  An option was stored when it was present and its length is negative
    afterwards (it is set to -1, although the packer's comment says zeroed out).
    The conditions: a field of at least one byte, buffers as long as the lengths of
    their options say, and memory that is granted when the unpacker asks for it.  Of
    what the packer writes, the unpacker is given the length of the field. *)
Theorem dhcp_field_roundtrip len opt opt0 m err bs active left :
  0 < len -> (forall i, 1 <= i < 255 -> data_ok (opt i)) -> (forall i, 1 <= i < 255 -> data_ok (opt0 i)) ->
  Mem.reliable m -> dhcp_pack_field_zero len opt = (err, bs, active, left) ->
  exists opt' m',
    dhcp_unpack_field (take (Z.to_nat len) bs) opt0 m = (0, opt', m') /\
    forall i, 1 <= i < 255 ->
      value (opt' i) = if (0 <=? o_len (opt i)) && (o_len (left i) <? 0)
                       then Some (default [] (value (opt0 i)) ++ default [] (value (opt i)))
                       else value (opt0 i).
Proof.
  intros Hl Hok Hok0 Hm Hp.
  destruct (pack_field_spec len opt) as (enc & pad & err' & left' & E & Hlen & Hc & _); auto.
  rewrite E in Hp; injection Hp as <- <- <- <-.
  replace (enc ++ 255 :: 0 :: replicate pad 0) with ((enc ++ [255] ++ replicate pad 0) ++ [0])
    by (rewrite <- !app_assoc; simpl; now rewrite <- replicate_cons_app).
  replace (Z.to_nat len) with (length (enc ++ [255] ++ replicate pad 0))
    by (rewrite !length_app, length_replicate; simpl; lia).
  rewrite take_app_length.
  destruct (Hc ([255] ++ replicate pad 0) (length (enc ++ [255] ++ replicate pad 0))
    opt0 0 m) as (fuel & opt' & m' & Hu & Hf & Hh & _); auto.
  { intros i Hi; apply Hok0, option_numbers, Hi. }
  exists opt', m'; split.
  - unfold dhcp_unpack_field; rewrite Hu.
    destruct fuel; [simpl in Hf; lia|]; now destruct pad.
  - intros i Hi; rewrite (holds_value _ _ (Hh i (proj2 (option_numbers i) Hi))).
    unfold unpacked; destruct (value (opt i)) as [d|] eqn:Ev; unfold value in Ev;
      destruct (Z.ltb_spec (o_len (opt i)) 0); try discriminate; zdec; cbn [andb default]; done.
Qed.

Definition demo_options : options :=
  set_opt (set_opt (fun _ => absent) 12 (Opt (Some [104; 105]) 2))
    60 (Opt (Some (replicate 300 65)) 300).

Lemma demo_options_ok i : data_ok (demo_options i).
Proof.
  unfold demo_options, set_opt; destruct (i =? 60); [done|]; destruct (i =? 12); done.
Qed.

Theorem dhcp_field_roundtrip_witness :
  exists err bs active left opt' m',
    dhcp_pack_field_zero 320 demo_options = (err, bs, active, left) /\
    dhcp_unpack_field (take (Z.to_nat 320) bs) (fun _ => Opt None 0) Mem.always = (0, opt', m') /\
    forall i, 1 <= i < 255 ->
      value (opt' i) = if (0 <=? o_len (demo_options i)) && (o_len (left i) <? 0)
                       then Some (default [] (value (demo_options i))) else Some [].
Proof.
  destruct (dhcp_pack_field_zero 320 demo_options) as [[[err bs] active] left] eqn:E.
  destruct (dhcp_field_roundtrip 320 demo_options (fun _ => Opt None 0) Mem.always err bs active left)
    as (opt' & m' & H); [lia|intros; apply demo_options_ok|done|auto|exact E|].
  exists err, bs, active, left, opt', m'; split; [reflexivity|exact H].
Defined.

(** The packer stores one byte more than the field holds: the zero padding
    after the end marker is as long as the room before it was. *)
Theorem dhcp_pack_field_overruns len opt err bs active left :
  0 < len -> (forall i, 1 <= i < 255 -> data_ok (opt i)) ->
  dhcp_pack_field_zero len opt = (err, bs, active, left) ->
  Z.of_nat (length bs) = len + 1 /\ bs !! Z.to_nat len = Some 0.
Proof.
  intros Hl Hok Hp.
  destruct (pack_field_spec len opt) as (enc & pad & err' & left' & E & Hlen & _); auto.
  rewrite E in Hp; injection Hp as <- <- <- <-.
  change (0 :: replicate pad 0) with (replicate (S pad) 0).
  split; [rewrite length_app; simpl; rewrite length_replicate; lia|].
  rewrite lookup_app_r by lia.
  replace (Z.to_nat len - length enc)%nat with (S pad) by lia.
  change (255 :: replicate (S pad) 0) with ([255] ++ replicate (S pad) 0).
  rewrite lookup_app_r by (simpl; lia); apply lookup_replicate; simpl; lia.
Qed.

Theorem dhcp_pack_field_overruns_witness :
  exists err bs active left,
    dhcp_pack_field_zero 320 demo_options = (err, bs, active, left) /\
    Z.of_nat (length bs) = 320 + 1 /\ bs !! Z.to_nat 320 = Some 0.
Proof.
  destruct (dhcp_pack_field_zero 320 demo_options) as [[[err bs] active] left] eqn:E.
  exists err, bs, active, left; split; [reflexivity|].
  apply (dhcp_pack_field_overruns 320 demo_options err bs active left);
    [lia|intros; apply demo_options_ok|exact E].
Defined.

(** ** Packets *)

Definition all_ok (o : options) : Prop := forall i, data_ok (o i).

Lemma set_len_ok o i len : all_ok o -> len <= 0 -> all_ok (set_len o i len).
Proof.
  intros H Hl j; unfold set_len, set_opt; destruct (j =? i); auto.
  unfold data_ok; simpl; lia.
Qed.

Lemma pack_left_ok len opt : all_ok opt -> all_ok (dhcp_pack_field_zero len opt).2.
Proof.
  intros H; unfold dhcp_pack_field_zero; destruct (len =? 0); auto; cbn [snd].
  generalize (seqZ 1 254) as l; intros l.
  assert (Hst : all_ok (ps_opt (Pack [] len 0 opt))) by auto.
  revert Hst; generalize (Pack [] len 0 opt) as st.
  induction l as [|i l IH]; simpl; auto; intros st Hst.
  apply IH; unfold pack_option; repeat case_match; auto.
  now apply set_len_ok.
Qed.

(** Filling an overloaded field writes a zero just after it. *)
Lemma pack_fixed_overrun off size own err pkt ox err' pkt' ox' :
  pack_fixed true off size own err pkt ox = (err', pkt', ox') -> 0 < size -> all_ok ox ->
  (off + Z.to_nat size < length pkt)%nat ->
  length pkt' = length pkt /\ pkt' !! (off + Z.to_nat size)%nat = Some 0.
Proof.
  unfold pack_fixed; intros H Hs Hok Hlen.
  destruct (dhcp_pack_field_zero size ox) as [[[e bs] act] left] eqn:E.
  injection H as <- <- <-; rewrite length_blit; split; auto.
  destruct (dhcp_pack_field_overruns size ox e bs act left) as [Hl Hz]; auto.
  rewrite blit_lookup, decide_True by lia.
  now replace (off + Z.to_nat size - off)%nat with (Z.to_nat size) by lia.
Qed.

(** Filling a fixed field touches that field and at most the byte after it. *)
Lemma pack_fixed_frame over off size own err pkt ox err' pkt' ox' j :
  pack_fixed over off size own err pkt ox = (err', pkt', ox') -> 0 < size -> all_ok ox ->
  (over = false -> o_len own <= size) -> (off + Z.to_nat size < j < length pkt)%nat ->
  length pkt' = length pkt /\ pkt' !! j = pkt !! j.
Proof.
  unfold pack_fixed; intros H Hs Hok Hown Hj; destruct over.
  - destruct (dhcp_pack_field_zero size ox) as [[[e bs] act] left] eqn:E.
    injection H as <- <- <-; rewrite length_blit; split; auto.
    destruct (dhcp_pack_field_overruns size ox e bs act left) as [Hl Hz]; auto.
    now rewrite blit_lookup, decide_False by lia.
  - specialize (Hown eq_refl).
    assert (Hpad : length (replicate (Z.to_nat size) 0) = Z.to_nat size) by apply length_replicate.
    destruct (0 <? o_len own); injection H as <- <- <-; rewrite ?length_blit; split; auto.
    + rewrite !blit_lookup, !decide_False; rewrite ?length_blit, ?length_take; auto; lia.
    + now rewrite blit_lookup, decide_False by lia.
Qed.

(** A packet packed with a file name option longer than 128 bytes (the case
    that overloads the file field) is refused by the unpacker: filling the file
    field overwrites the first byte of the magic number that follows it. *)
Theorem dhcp_overloaded_file_refused pkt len opt opt0 m err p l :
  sizeof_dhcp_packet <= len <= Z.of_nat (length pkt) -> all_ok opt -> 128 < o_len (opt 67) ->
  dhcp_pack_packet pkt len opt = (err, p, l) ->
  (dhcp_unpack_packet p l opt0 m).1.1 = EINVAL.
Proof.
  unfold sizeof_dhcp_packet; intros Hlen Hok H67 H; unfold dhcp_pack_packet in H.
  rewrite (proj2 (Z.ltb_ge len sizeof_dhcp_packet)) in H by (unfold sizeof_dhcp_packet; lia).
  rewrite (proj2 (Z.ltb_lt 128 (o_len (opt 67)))) in H by lia.
  set (ox := set_len (if 64 <? o_len (opt 66) then opt else set_len opt 66 (-1)) 52 (-1)) in H.
  assert (Hox : all_ok ox)
    by (unfold ox; destruct (64 <? _); repeat apply set_len_ok; auto; lia).
  destruct (if o_len (ox 53) =? 1 then _ else _) as [head ox1] eqn:E1.
  assert (Hox1 : all_ok ox1)
    by (destruct (o_len (ox 53) =? 1); injection E1 as <- <-; auto; apply set_len_ok; auto; lia).
  set (head' := head ++ _) in H.
  pose proof (pack_left_ok (len - 240 - Z.of_nat (length head')) ox1 Hox1) as Hox2.
  destruct (dhcp_pack_field_zero (len - 240 - Z.of_nat (length head')) ox1)
    as [[[err1 bs] spc] ox2]; cbn [snd] in Hox2.
  set (pkt1 := blit (field_offset P_options + length head') bs _) in H.
  assert (Hp1 : length pkt1 = length pkt) by (unfold pkt1; now rewrite !length_blit).
  pose proof (pack_left_ok 128 ox2 Hox2) as Hox3.
  destruct (pack_fixed true (field_offset P_file) 128 (opt 67) err1 pkt1 ox2)
    as [[err2 pkt2] ox3] eqn:E2.
  assert (Hox3' : all_ok ox3).
  { unfold pack_fixed in E2; destruct (dhcp_pack_field_zero 128 ox2) as [[[? ?] ?] ?];
      injection E2 as <- <- <-; exact Hox3. }
  apply pack_fixed_overrun in E2 as [Hl2 Hz2]; auto; try (simpl; lia).
  destruct (pack_fixed _ _ 64 _ _ _ _) as [[err3 pkt3] ox4] eqn:E3.
  apply pack_fixed_frame with (j := 236%nat) in E3 as [Hl3 Hj3]; auto; try (simpl; lia).
  injection H as <- <- <-; unfold dhcp_unpack_packet.
    rewrite (bool_decide_eq_true_2 (slice _ _ _ <> _)), orb_true_r; auto.
    intros Heq; apply (f_equal (fun x => x !! O)) in Heq; revert Heq.
    change (field_offset P_file + Z.to_nat 128)%nat with 236%nat in Hz2.
    unfold slice; rewrite lookup_take_lt, lookup_drop by lia.
    change (field_offset P_magic + 0)%nat with 236%nat; rewrite Hj3, Hz2; discriminate.
Qed.

(** An option array with a file name of 130 bytes, and a buffer to pack it in. *)
Definition long_file_options : options :=
  set_opt (fun _ => absent) 67 (Opt (Some (replicate 130 65)) 130).

Theorem dhcp_overloaded_file_refused_witness :
  exists err p l, dhcp_pack_packet (replicate 600 0) 600 long_file_options = (err, p, l) /\
    (dhcp_unpack_packet p l (fun _ => absent) Mem.always).1.1 = EINVAL.
Proof.
  destruct (dhcp_pack_packet (replicate 600 0) 600 long_file_options) as [[err p] l] eqn:E.
  exists err, p, l; split; [reflexivity|].
  apply (dhcp_overloaded_file_refused (replicate 600 0) 600 long_file_options _ _ err p l).
  - split; [discriminate|reflexivity || discriminate].
  - intros i; unfold long_file_options, set_opt; destruct (i =? 67); done.
  - reflexivity.
  - exact E.
Defined.


(** A server name "srv" and a file name "boot.img", packed and unpacked. *)
Definition named_options : options :=
  set_opt (set_opt (fun _ => absent) 66 (Opt (Some [115; 114; 118]) 3))
    67 (Opt (Some [98; 111; 111; 116; 46; 105; 109; 103]) 8).

(** Unpacking a packet copies the server name out of the file field: the
    packet packed with server name "srv" and file name "boot.img" is unpacked
    with server name "boo". *)
Theorem dhcp_sname_copied_from_file :
  let '(_, p, l) := dhcp_pack_packet (replicate 300 0) 300 named_options in
  let '(err, opt, _) := dhcp_unpack_packet p l (fun _ => absent) Mem.always in
  err = 0 /\ value (opt 66) = Some [98; 111; 111] /\
  value (named_options 66) = Some [115; 114; 118] /\
  value (opt 67) = value (named_options 67).
Proof. vm_compute; repeat split. Qed.
