(* ===== verification/Base64.v ===== *)
(** * Base64: com32/libutil/base64.c and com32/libutil/unbase64.c

    [genbase64] encodes a buffer with the two last characters of the alphabet
    and the padding given by [flags]; [unbase64] decodes the text up to its NUL
    into a bounded buffer.  Text and buffers are lists of bytes. *)

From S2P Require Import Prelude.

(** ** Encoder *)

(** The options of base64.h: bits 0-7 and 8-15 are characters 62 and 63. *)
Definition BASE64_PAD : Z := 0x10000.
Definition BASE64_MIME : Z := 43 + Z.shiftl 47 8.
Definition BASE64_SAFE : Z := 45 + Z.shiftl 95 8.
Definition BASE64_CRYPT : Z := 46 + Z.shiftl 47 8.

Definition alphabet : list Z :=
  seqZ 65 26 ++ seqZ 97 26 ++ seqZ 48 10.

(** The table [charz] after its two last entries have been set.
    [src/com32/libutil/base64.c:14-24 genbase64] *)
Definition charz (flags : Z) : list Z :=
  alphabet ++ [u8 flags; u8 (Z.shiftr flags 8)].

(** The four characters of one group: [bv] is shifted left at each step.
    [src/com32/libutil/base64.c:41-44 genbase64] *)
Fixpoint emit (n : nat) (flags bv : Z) : list Z :=
  match n with
  | O => []
  | S n =>
      nth (Z.to_nat (Z.land (Z.shiftr bv 18) 0x3f)) (charz flags) 0
        :: emit n flags (u32 (Z.shiftl bv 6))
  end.

Definition group (flags b0 b1 b2 : Z) : list Z :=
  emit 4 flags (Z.lor (Z.lor (Z.shiftl b0 16) (Z.shiftl b1 8)) b2).

(** The characters written for a group of which [missing] bytes do not exist:
    the last ones become padding or are dropped.
    [src/com32/libutil/base64.c:47-64 genbase64] *)
Definition finish (flags : Z) (missing : nat) (g : list Z) : list Z :=
  take (4 - missing) g ++
  (if Z.land flags BASE64_PAD =? 0 then [] else replicate missing 61).

(** The characters before the terminating NUL; their number is the return value.
    [src/com32/libutil/base64.c:12-69 genbase64] *)
Fixpoint genbase64 (input : list Z) (flags : Z) : list Z :=
  match input with
  | [] => []
  | [b0] => finish flags 2 (group flags b0 0 0)
  | [b0; b1] => finish flags 1 (group flags b0 b1 0)
  | b0 :: b1 :: b2 :: rest => group flags b0 b1 b2 ++ genbase64 rest flags
  end.

(** ** Decoder *)

(** [base64tbl]: -1 for a character that is skipped.
    [src/com32/libutil/unbase64.c:49-58 unbase64] *)
Definition base64tbl (c : Z) : Z :=
  if (c =? 46) || (c =? 45) then 62
  else if c =? 95 then 63
  else if (65 <=? c) && (c <=? 90) then c - 65
  else if (97 <=? c) && (c <=? 122) then c - 97 + 26
  else if (48 <=? c) && (c <=? 57) then c - 48 + 52
  else if c =? 43 then 62
  else if c =? 47 then 63
  else -1.

(** The loop: the bits read so far and their number, the room left in the
    buffer; the bytes stored and the number of bytes decoded.
    [src/com32/libutil/unbase64.c:60-73 unbase64] *)
Fixpoint unbase64_loop (bits nbits : Z) (room : nat) (txt : list Z) : list Z * Z :=
  match txt with
  | [] => ([], 0)
  | c :: txt =>
      if c =? 0 then ([], 0)
      else
        let v := base64tbl c in
        if 0 <=? v then
          let bits := u32 (u32 (Z.shiftl bits 6) + v) in
          let nbits := nbits + 6 in
          if 8 <=? nbits then
            let (out, n) := unbase64_loop bits (nbits - 8) (pred room) txt in
            match room with
            | O => (out, n + 1)
            | S _ => (u8 (Z.shiftr bits (nbits - 8)) :: out, n + 1)
            end
          else unbase64_loop bits nbits room txt
        else unbase64_loop bits nbits room txt
  end.

(** [src/com32/libutil/unbase64.c:40-76 unbase64] *)
Definition unbase64 (bufsiz : nat) (txt : list Z) : list Z * Z :=
  unbase64_loop 0 0 bufsiz txt.

(** ** The encoder against the decoder *)

(** [flags] selects an alphabet that the decoder reads, whatever the padding. *)
Definition readable (flags : Z) : Prop :=
  base64tbl (u8 flags) = 62 /\ base64tbl (u8 (Z.shiftr flags 8)) = 63.

Lemma alphabet_read :
  Forall (fun i => base64tbl (nth (Z.to_nat i) alphabet 0) = i /\
                   nth (Z.to_nat i) alphabet 0 <> 0) (seqZ 0 62).
Proof. by vm_compute; repeat constructor. Qed.

Lemma charz_read flags i :
  readable flags -> 0 <= i < 64 ->
  base64tbl (nth (Z.to_nat i) (charz flags) 0) = i /\ nth (Z.to_nat i) (charz flags) 0 <> 0.
Proof.
  intros [H62 H63] Hi; unfold charz.
  assert (Hlen : length alphabet = 62%nat) by reflexivity.
  destruct (decide (i < 62)) as [Hlt|Hge].
  - rewrite app_nth1 by lia.
    pose proof (proj1 (Forall_forall _ _) alphabet_read i) as H; apply H.
    apply elem_of_seqZ; lia.
  - rewrite app_nth2 by lia.
    assert (i = 62 \/ i = 63) as [-> | ->] by lia; simpl; rewrite ?H62, ?H63; split; auto;
      intros E; rewrite E in *; discriminate.
Qed.

(** The character of a sextet. *)
Definition chr (flags i : Z) : Z := nth (Z.to_nat i) (charz flags) 0.

(** The sextets of a group, as the encoder extracts them. *)
Definition sextets (b0 b1 b2 : Z) : list Z :=
  [b0 / 4; (b0 mod 4) * 16 + b1 / 16; (b1 mod 16) * 4 + b2 / 64; b2 mod 64].

Lemma group_sextets flags b0 b1 b2 :
  is_byte b0 -> is_byte b1 -> is_byte b2 ->
  group flags b0 b1 b2 = chr flags <$> sextets b0 b1 b2.
Proof.
  intros H0 H1 H2; unfold group, sextets, chr.
  replace (Z.lor (Z.lor (Z.shiftl b0 16) (Z.shiftl b1 8)) b2) with (b0 * 65536 + b1 * 256 + b2).
  - unfold emit; rewrite ?Z.shiftl_mul_pow2, ?Z.shiftr_div_pow2 by lia.
    change 0x3f with (Z.ones 6); rewrite !Z.land_ones by lia.
    change (2 ^ 6) with 64; change (2 ^ 18) with 262144.
    cbn [fmap list_fmap].
    repeat (apply (f_equal2 cons); [do 2 f_equal; ulia|]); reflexivity.
  - rewrite <- Z.lor_assoc.
    rewrite (shiftl_lor_add b1 b2 8) by (change (2 ^ 8) with 256; ulia).
    rewrite (shiftl_lor_add b0 _ 16) by (change (2 ^ 8) with 256; change (2 ^ 16) with 65536; ulia). lia.
Qed.

(** Decoding the character of the sextet [v] in the state [(bits, nbits)]. *)
Lemma unbase64_chr flags bits nbits room v txt :
  readable flags -> 0 <= v < 64 ->
  unbase64_loop bits nbits room (chr flags v :: txt) =
    let bits' := u32 (bits * 64 + v) in
    if 8 <=? nbits + 6 then
      let (out, n) := unbase64_loop bits' (nbits + 6 - 8) (pred room) txt in
      match room with
      | O => (out, n + 1)
      | S _ => (u8 (Z.shiftr bits' (nbits + 6 - 8)) :: out, n + 1)
      end
    else unbase64_loop bits' (nbits + 6) room txt.
Proof.
  intros Hf Hv; destruct (charz_read flags v Hf Hv) as [Hc Hz]; unfold chr; cbn [unbase64_loop].
  apply Z.eqb_neq in Hz; rewrite Hz, Hc, Z.shiftl_mul_pow2 by lia.
  replace (0 <=? v) with true by lia; change (2 ^ 6) with 64.
  now replace (u32 (u32 (bits * 64) + v)) with (u32 (bits * 64 + v)) by ulia.
Qed.

(** The two bytes a decoder holding [v0] then [v1], [v2], [v3] stores. *)
Lemma unbase64_two flags bits room v0 v1 txt :
  readable flags -> 0 <= v0 < 64 -> 0 <= v1 < 64 ->
  exists bits', bits' mod 16 = v1 mod 16 /\
  unbase64_loop bits 0 (S room) (chr flags v0 :: chr flags v1 :: txt) =
    let (out, n) := unbase64_loop bits' 4 room txt in (v0 * 4 + v1 / 16 :: out, n + 1).
Proof.
  intros Hf H0 H1; exists (u32 (u32 (bits * 64 + v0) * 64 + v1)); split; [ulia|].
  rewrite unbase64_chr by auto; change (8 <=? 0 + 6) with false; cbv iota zeta.
  rewrite unbase64_chr by auto; change (8 <=? 0 + 6 + 6) with true; cbv iota zeta.
  change (0 + 6 + 6 - 8) with 4; cbn [pred]; destruct unbase64_loop; do 2 f_equal.
  rewrite Z.shiftr_div_pow2 by lia; change (2 ^ 4) with 16; ulia.
Qed.

Lemma unbase64_third flags bits room v1 v2 txt :
  readable flags -> 0 <= v1 < 64 -> 0 <= v2 < 64 -> bits mod 16 = v1 mod 16 ->
  exists bits', bits' mod 4 = v2 mod 4 /\
  unbase64_loop bits 4 (S room) (chr flags v2 :: txt) =
    let (out, n) := unbase64_loop bits' 2 room txt in ((v1 mod 16) * 16 + v2 / 4 :: out, n + 1).
Proof.
  intros Hf H1 H2 Hb; exists (u32 (bits * 64 + v2)); split; [ulia|].
  rewrite unbase64_chr by auto; change (8 <=? 4 + 6) with true; cbv iota zeta.
  change (4 + 6 - 8) with 2; cbn [pred]; destruct unbase64_loop; do 2 f_equal.
  rewrite Z.shiftr_div_pow2 by lia; change (2 ^ 2) with 4; ulia.
Qed.

Lemma unbase64_fourth flags bits room v2 v3 txt :
  readable flags -> 0 <= v2 < 64 -> 0 <= v3 < 64 -> bits mod 4 = v2 mod 4 ->
  exists bits',
  unbase64_loop bits 2 (S room) (chr flags v3 :: txt) =
    let (out, n) := unbase64_loop bits' 0 room txt in ((v2 mod 4) * 64 + v3 :: out, n + 1).
Proof.
  intros Hf H2 H3 Hb; exists (u32 (bits * 64 + v3)).
  rewrite unbase64_chr by auto; change (8 <=? 2 + 6) with true; cbv iota zeta.
  change (2 + 6 - 8) with 0; cbn [pred]; destruct unbase64_loop; do 2 f_equal. rewrite Z.shiftr_0_r; ulia.
Qed.

(** Padding is not decoded. *)
Lemma unbase64_pad bits nbits room n : unbase64_loop bits nbits room (replicate n 61) = ([], 0).
Proof. induction n; auto. Qed.

Lemma finish_tail flags missing : exists n,
  (if Z.land flags BASE64_PAD =? 0 then [] else replicate missing 61) = replicate n 61.
Proof. destruct (_ =? 0); [exists O|]; eauto. Qed.

Lemma genbase64_decode flags : readable flags -> forall input room bits,
  Forall is_byte input -> (length input <= room)%nat ->
  unbase64_loop bits 0 room (genbase64 input flags) = (input, Z.of_nat (length input)).
Proof.
  intros Hf; fix IH 1; intros [|b0 [|b1 [|b2 rest]]] room bits Hb Hr; [done|..];
    repeat match goal with H : Forall _ (_ :: _) |- _ => inversion_clear H end;
    repeat (destruct room as [|room]; [simpl in Hr; lia|]); cbn [genbase64].
  - destruct (finish_tail flags 2) as [n Hn]; unfold finish; rewrite Hn, group_sextets by (auto; ulia).
    cbn [sextets fmap list_fmap take Nat.sub app].
    destruct (unbase64_two flags bits room (b0 / 4) (b0 mod 4 * 16 + 0 / 16) (replicate n 61))
      as (bits1 & _ & ->); auto; try ulia.
    rewrite unbase64_pad; do 2 f_equal; ulia.
  - destruct (finish_tail flags 1) as [n Hn]; unfold finish; rewrite Hn, group_sextets by (auto; ulia).
    cbn [sextets fmap list_fmap take Nat.sub app].
    edestruct unbase64_two as (bits1 & E1 & ->); auto; try ulia.
    edestruct unbase64_third as (bits2 & E2 & ->); [exact Hf| | |exact E1|]; try ulia.
    rewrite unbase64_pad; repeat f_equal; ulia.
  - rewrite group_sextets by auto; cbn [sextets fmap list_fmap app].
    edestruct unbase64_two as (bits1 & E1 & ->); auto; try ulia.
    edestruct unbase64_third as (bits2 & E2 & ->); [exact Hf| | |exact E1|]; try ulia.
    edestruct unbase64_fourth as (bits3 & ->); [exact Hf| | |exact E2|]; try ulia.
    rewrite IH by (auto; simpl in Hr; lia).
    f_equal; [repeat f_equal; ulia|simpl length; lia].
Qed.

(** Decoding what the encoder wrote gives back the buffer and its length,
    for every alphabet the decoder reads, padded or not. *)
Theorem base64_roundtrip flags input bufsiz :
  readable flags -> Forall is_byte input -> (length input <= bufsiz)%nat ->
  unbase64 bufsiz (genbase64 input flags) = (input, Z.of_nat (length input)).
Proof. intros; now apply (genbase64_decode flags). Qed.

Theorem base64_roundtrip_witness :
  unbase64 10 (genbase64 [1; 2; 3; 250; 255] (Z.lor BASE64_SAFE BASE64_PAD)) = ([1; 2; 3; 250; 255], 5).
Proof.
  refine (base64_roundtrip _ [1; 2; 3; 250; 255] 10 _ _ _);
    [split; reflexivity|repeat constructor; lia|simpl; lia].
Defined.

Lemma unbase64_loop_truncates txt : forall bits nbits room room',
  (room <= room')%nat ->
  unbase64_loop bits nbits room txt =
    (take room (unbase64_loop bits nbits room' txt).1, (unbase64_loop bits nbits room' txt).2).
Proof.
  induction txt as [|c txt IH]; intros bits nbits room room' Hr; simpl; [now rewrite take_nil|].
  destruct (c =? 0); simpl; [now rewrite take_nil|].
  destruct (0 <=? base64tbl c); auto.
  destruct (8 <=? nbits + 6); auto.
  rewrite (IH _ _ (pred room) (pred room')) by lia.
  destruct (unbase64_loop _ _ (pred room') txt) as [out n]; simpl.
  destruct room, room'; simpl in *; try lia; now rewrite ?take_0.
Qed.

(** A buffer too small for the text receives the first bytes of what a
    larger one would, and the return value is still the full length. *)
Theorem unbase64_truncates txt bufsiz bufsiz' :
  (bufsiz <= bufsiz')%nat ->
  unbase64 bufsiz txt = (take bufsiz (unbase64 bufsiz' txt).1, (unbase64 bufsiz' txt).2).
Proof. apply unbase64_loop_truncates. Qed.

Theorem unbase64_truncates_witness :
  unbase64 1 [65; 81; 73; 61] =
    (take 1 (unbase64 2 [65; 81; 73; 61]).1, (unbase64 2 [65; 81; 73; 61]).2).
Proof. apply unbase64_truncates; lia. Defined.
