(* ===== verification/Hash.v ===== *)
(** * Hash functions over messages that come in pieces

    What the hashes of com32/libutil have in common: a compression function applied to
    the blocks of a message, the padding, and the lemmas about a buffer that holds the
    bytes which do not fill a block yet.  Shared by [Md5], [Sha1] and [Sha2]. *)

From S2P Require Import Prelude.

Open Scope word_scope.

(** ** Reading and writing within bounds *)

(** What memcpy reads, and where it writes: [None] outside of the object. *)
Definition peek (mem : list Z) (off n : nat) : option (list Z) :=
  if (off + n <=? length mem)%nat then Some (slice off n mem) else None.
Definition poke (mem : list Z) (off : nat) (src : list Z) : option (list Z) :=
  if (off + length src <=? length mem)%nat then Some (blit off src mem) else None.

Lemma peek_ok mem off n : (off + n <= length mem)%nat -> peek mem off n = Some (slice off n mem).
Proof. intros H; unfold peek; now rewrite (proj2 (Nat.leb_le _ _)). Qed.

Lemma poke_ok mem off src : (off + length src <= length mem)%nat -> poke mem off src = Some (blit off src mem).
Proof. intros H; unfold poke; now rewrite (proj2 (Nat.leb_le _ _)). Qed.

Lemma blit_split off src mem :
  (off + length src <= length mem)%nat -> blit off src mem = take off mem ++ src ++ drop (off + length src) mem.
Proof.
  intros H; apply list_eq; intros j.
  destruct (decide (j < length mem)%nat) as [Hj|Hj].
  - rewrite blit_lookup by done; destruct (decide (j < off)%nat).
    + rewrite lookup_app_l by (rewrite length_take; lia); rewrite lookup_take_lt by lia.
      now rewrite decide_False by lia.
    + rewrite lookup_app_r by (rewrite length_take; lia); rewrite length_take, Nat.min_l by lia.
      destruct (decide (j < off + length src)%nat).
      * rewrite lookup_app_l by lia; now rewrite decide_True by lia.
      * rewrite lookup_app_r, lookup_drop, decide_False by lia; f_equal; lia.
  - rewrite !lookup_ge_None_2; [done| |rewrite length_blit; lia].
    rewrite !length_app, length_take, length_drop; lia.
Qed.

Lemma take_blit_app off src mem :
  (off + length src <= length mem)%nat -> take (off + length src) (blit off src mem) = take off mem ++ src.
Proof.
  intros H; rewrite blit_split, app_assoc by done; apply take_app_length'; rewrite length_app, length_take; lia.
Qed.

Lemma take_blit2 off l1 l2 mem :
  (off + length l1 + length l2 <= length mem)%nat ->
  take (off + length l1 + length l2) (blit off l1 (blit (off + length l1) l2 mem)) = take off mem ++ l1 ++ l2.
Proof.
  intros H; set (m2 := blit (off + length l1) l2 mem).
  assert (Hl : length m2 = length mem) by apply length_blit.
  assert (E2 : take (off + length l1 + length l2) m2 = take (off + length l1) mem ++ l2) by (apply take_blit_app; lia).
  rewrite blit_split by lia.
  assert (E : take (off + length l1 + length l2) m2 = take off mem ++ drop off (take (off + length l1) mem) ++ l2).
  { rewrite E2, app_assoc; f_equal; rewrite <- (take_drop off (take _ mem)) at 1; rewrite take_take, Nat.min_l by lia; done. }
  assert (Eo : take off m2 = take off mem).
  { replace (take off m2) with (take off (take (off + length l1 + length l2) m2)) by (rewrite take_take; f_equal; lia).
    rewrite E, take_app_le by (rewrite length_take; lia); rewrite take_take; f_equal; lia. }
  assert (Ed : take (length l2) (drop (off + length l1) m2) = l2).
  { replace (length l2) with (off + length l1 + length l2 - (off + length l1))%nat at 1 by lia.
    rewrite <- skipn_firstn_comm, E2, drop_app_le by (rewrite length_take; lia); rewrite drop_ge by (rewrite length_take; lia); done. }
  rewrite Eo, app_assoc, take_app_ge by (rewrite length_app, length_take; lia); rewrite length_app, length_take, Nat.min_l by lia.
  rewrite <- app_assoc; do 2 f_equal; rewrite <- Ed at 2; f_equal; lia.
Qed.

(** ** Blocks *)

Section blocks.
Context {St : Type} (B : nat) (compress : St -> list Z -> St).
Hypothesis block_pos : (0 < B)%nat.

(** [n] blocks from the begin of a message. *)
Fixpoint absorb (n : nat) (s : St) (m : list Z) : St :=
  match n with
  | O => s
  | S n => absorb n (compress s (take B m)) (drop B m)
  end.

(** All whole blocks of a message, and what is left. *)
Definition digest (s : St) (m : list Z) : St := absorb (length m / B) s m.
Definition left_over (m : list Z) : list Z := drop (length m / B * B) m.

Lemma absorb_more n1 n2 : forall s m, absorb (n1 + n2) s m = absorb n2 (absorb n1 s m) (drop (n1 * B) m).
Proof.
  induction n1 as [|n1 IH]; intros s m; cbn [absorb Nat.add Nat.mul]; [now rewrite drop_0|].
  now rewrite IH, drop_drop.
Qed.

Lemma absorb_prefix n : forall s m d, (n * B <= length m)%nat -> absorb n s (m ++ d) = absorb n s m.
Proof.
  induction n as [|n IH]; intros s m d H; cbn [absorb]; [done|].
  rewrite take_app_le, drop_app_le by lia; apply IH; rewrite length_drop; lia.
Qed.

Lemma whole_blocks_le (m : list Z) : (length m / B * B <= length m)%nat.
Proof. rewrite Nat.mul_comm; apply Nat.Div0.mul_div_le. Qed.

Lemma left_over_length (m : list Z) : length (left_over m) = (length m mod B)%nat.
Proof. unfold left_over; rewrite length_drop; pose proof (Nat.div_mod (length m) B); lia. Qed.

Lemma left_over_lt (m : list Z) : (length (left_over m) < B)%nat.
Proof. rewrite left_over_length; apply Nat.mod_upper_bound; lia. Qed.

Lemma blocks_app (m d : list Z) :
  (length (m ++ d) / B = length m / B + length (left_over m ++ d) / B)%nat.
Proof.
  rewrite !length_app, left_over_length.
  replace (length m + length d)%nat with (length m / B * B + (length m mod B + length d))%nat
    by (pose proof (Nat.div_mod (length m) B); lia).
  rewrite Nat.div_add_l; lia.
Qed.

(** A message that goes on: from the state and the bytes left, the rest is enough. *)
Lemma digest_app s m d : digest s (m ++ d) = digest (digest s m) (left_over m ++ d).
Proof.
  unfold digest at 1; rewrite blocks_app, absorb_more, absorb_prefix by apply whole_blocks_le.
  unfold digest, left_over; now rewrite drop_app_le by apply whole_blocks_le.
Qed.

Lemma left_over_app m d : left_over (m ++ d) = left_over (left_over m ++ d).
Proof.
  unfold left_over at 1; rewrite blocks_app, Nat.mul_add_distr_r, <- drop_drop.
  rewrite drop_app_le by apply whole_blocks_le; reflexivity.
Qed.

Lemma digest_short s m : (length m < B)%nat -> digest s m = s /\ left_over m = m.
Proof. intros H; unfold digest, left_over; rewrite Nat.div_small by done; split; [done|apply drop_0]. Qed.

Lemma digest_block s b d : length b = B -> digest s (b ++ d) = digest (compress s b) d /\ left_over (b ++ d) = left_over d.
Proof.
  intros H.
  assert (E : (length b / B = 1)%nat) by (rewrite H; apply Nat.div_same; lia).
  assert (El : left_over b = []) by (unfold left_over; rewrite E; apply drop_ge; lia).
  rewrite digest_app, left_over_app, El; split; [|done].
  unfold digest at 2; rewrite E; cbn [absorb]; now rewrite take_ge by lia.
Qed.

Lemma digest_step s m : (B <= length m)%nat ->
  digest s m = digest (compress s (take B m)) (drop B m) /\ left_over m = left_over (drop B m).
Proof.
  intros H; destruct (digest_block s (take B m) (drop B m)) as [E1 E2]; [rewrite length_take; lia|].
  rewrite take_drop in E1, E2; auto.
Qed.

Lemma left_over_app_whole m d : (length m mod B = 0)%nat -> left_over (m ++ d) = left_over d.
Proof.
  intros H; rewrite left_over_app; f_equal.
  destruct (left_over m) eqn:E; [done|]; pose proof (left_over_length m) as Hl; rewrite E, H in Hl; discriminate.
Qed.

(** The buffer is filled up with the first bytes of [d], and is then a block. *)
Lemma refill s m d buf r :
  length buf = B -> r = length (left_over m) -> take r buf = left_over m -> (B - r <= length d)%nat ->
  let buf' := blit r (take (B - r) d) buf in
  length buf' = B /\
  digest s (m ++ d) = digest (compress (digest s m) buf') (drop (B - r) d) /\
  left_over (m ++ d) = left_over (drop (B - r) d).
Proof.
  intros Hb -> Ht Hd buf'; pose proof (left_over_lt m) as Hlt.
  assert (E : buf' = left_over m ++ take (B - length (left_over m)) d).
  { unfold buf'; rewrite blit_split by (rewrite length_take; lia); rewrite Ht, length_take, drop_ge by lia.
    now rewrite app_nil_r. }
  split; [unfold buf'; now rewrite length_blit|].
  destruct (digest_block (digest s m) buf' (drop (B - length (left_over m)) d)) as [E1 E2];
    [unfold buf'; now rewrite length_blit|].
  rewrite digest_app, left_over_app, <- E1, <- E2, E, <- app_assoc, take_drop; auto.
Qed.

(** Less than a block: the bytes are appended to those in the buffer. *)
Lemma append s m d buf r :
  length buf = B -> r = length (left_over m) -> take r buf = left_over m -> (r + length d < B)%nat ->
  digest s (m ++ d) = digest s m /\
  take (length (left_over (m ++ d))) (blit r d buf) = left_over (m ++ d) /\ left_over (m ++ d) = left_over m ++ d.
Proof.
  intros Hb -> Ht Hd; rewrite digest_app, left_over_app.
  destruct (digest_short (digest s m) (left_over m ++ d)) as [-> ->]; [rewrite length_app; lia|].
  split; [done|split; [|done]]; rewrite length_app, take_blit_app by lia; now rewrite Ht.
Qed.
End blocks.

(** ** Padding *)

(** A bit that is set, zeros up to a whole number of blocks together with [len], the
    bytes of the length. *)
Definition padding (B : nat) (n : nat) (len : list Z) : list Z :=
  128 :: replicate (Z.to_nat ((- Z.of_nat (n + 1 + length len)) mod Z.of_nat B)) 0 ++ len.

Lemma padded_whole B m len : (0 < B)%nat -> (length (m ++ padding B (length m) len) mod B = 0)%nat.
Proof.
  intros HB; unfold padding; rewrite length_app; cbn [length]; rewrite length_app, length_replicate.
  apply Nat2Z.inj; rewrite Nat2Z.inj_mod; set (n := Z.of_nat (length m + 1 + length len)).
  pose proof (Z.mod_pos_bound (- n) (Z.of_nat B) ltac:(lia)).
  replace (Z.of_nat (length m + S (Z.to_nat (- n mod Z.of_nat B) + length len))) with (n + - n mod Z.of_nat B)
    by (subst n; lia).
  rewrite Zplus_mod_idemp_r, Z.add_opp_diag_r; now rewrite Z.mod_0_l by lia.
Qed.

(** ** The count of bits in two words *)

Definition low_bits (n : Z) : Z := u32 (8 * n).
Definition high_bits (n : Z) : Z := u32 (8 * n / 4294967296).

Lemma bits_added n len :
  0 <= n -> 0 <= len < 4294967296 ->
  let c := low_bits n ⊞ u32 (Z.shiftl len 3) in
  c = low_bits (n + len) /\
  (if c <? u32 (Z.shiftl len 3) then high_bits n ⊞ 1 else high_bits n) ⊞ Z.shiftr len 29 = high_bits (n + len).
Proof.
  intros Hn Hl c; subst c; rewrite Z.shiftl_mul_pow2, Z.shiftr_div_pow2 by lia.
  change (2 ^ 3) with 8; change (2 ^ 29) with 536870912; unfold low_bits, high_bits, u32.
  split; [Z.div_mod_to_equations; lia|].
  destruct (Z.ltb_spec (((8 * n) mod 4294967296 + (len * 8) mod 4294967296) mod 4294967296) ((len * 8) mod 4294967296));
    Z.div_mod_to_equations; lia.
Qed.

Lemma bits_index n : 0 <= n -> Z.land (Z.shiftr (low_bits n) 3) 63 = n mod 64.
Proof.
  intros Hn; change 63 with (Z.ones 6); rewrite Z.land_ones, Z.shiftr_div_pow2 by lia.
  change (2 ^ 6) with 64; change (2 ^ 3) with 8; unfold low_bits, u32; Z.div_mod_to_equations; lia.
Qed.

Lemma low_bits_range n : 0 <= low_bits n < 4294967296.
Proof. apply u32_range. Qed.

(** The same compression on another representation of the state. *)
Lemma digest_map {S1 S2 : Type} B (c1 : S1 -> list Z -> S1) (c2 : S2 -> list Z -> S2) (f : S1 -> S2) s m :
  (forall s b, f (c1 s b) = c2 (f s) b) -> f (digest B c1 s m) = digest B c2 (f s) m.
Proof.
  intros Hc; unfold digest; generalize (length m / B)%nat; intros n; revert s m.
  induction n as [|n IH]; intros s m; cbn [absorb]; [done|]; now rewrite IH, Hc.
Qed.

(** The same, of compressions that agree on bytes only. *)
Lemma digest_map_bytes {S1 S2 : Type} B (c1 : S1 -> list Z -> S1) (c2 : S2 -> list Z -> S2) (f : S1 -> S2) s m :
  Forall is_byte m -> (forall s b, Forall is_byte b -> f (c1 s b) = c2 (f s) b) -> f (digest B c1 s m) = digest B c2 (f s) m.
Proof.
  intros Hm Hc; unfold digest; generalize (length m / B)%nat; intros n; revert s m Hm.
  induction n as [|n IH]; intros s m Hm; cbn [absorb]; [done|].
  rewrite IH, Hc by auto using Forall_take, Forall_drop; done.
Qed.

(** ** Schedules of words *)

Section schedule.
Context (w : nat -> list Z -> Z).

(** Each word is computed from those before it. *)
Fixpoint word_schedule (n : nat) : list Z :=
  match n with
  | O => []
  | S n => let ws := word_schedule n in ws ++ [w n ws]
  end.

Lemma length_word_schedule n : length (word_schedule n) = n.
Proof. induction n as [|n IH]; [done|]; cbn [word_schedule]; rewrite length_app, IH; cbn; lia. Qed.

Lemma word_schedule_nth n k : (k < n)%nat -> nth k (word_schedule n) 0 = w k (word_schedule k).
Proof.
  induction n as [|n IH]; intros Hk; [lia|]; cbn [word_schedule].
  destruct (decide (k = n)) as [->|Hne].
  - rewrite app_nth2; rewrite length_word_schedule; [|lia]; now rewrite Nat.sub_diag.
  - rewrite app_nth1 by (rewrite length_word_schedule; lia); apply IH; lia.
Qed.

Lemma word_schedule_prefix n m k : (k < n)%nat -> (n <= m)%nat -> nth k (word_schedule n) 0 = nth k (word_schedule m) 0.
Proof. intros Hk Hn; rewrite !word_schedule_nth by lia; done. Qed.
End schedule.

(** ** Big-endian words *)

Definition be_32 (mem : list Z) (off : nat) : Z :=
  byte_at mem off * 16777216 + byte_at mem (off + 1) * 65536 + byte_at mem (off + 2) * 256 + byte_at mem (off + 3).

(** The bytes of a word the other way round: ntohl, and SWAP of sha256crypt.c. *)
Definition swap_32 (v : Z) : Z :=
  u8 v * 16777216 + u8 (Z.shiftr v 8) * 65536 + u8 (Z.shiftr v 16) * 256 + u8 (Z.shiftr v 24).

Lemma swap_get_32 mem off : Forall is_byte mem -> swap_32 (get_32 mem off) = be_32 mem off.
Proof.
  intros H; unfold swap_32, be_32, get_32, get_16; replace (off + 2 + 1)%nat with (off + 3)%nat by lia.
  rewrite !Z.shiftr_div_pow2 by lia.
  pose proof (byte_range mem off H); pose proof (byte_range mem (off + 1) H);
    pose proof (byte_range mem (off + 2) H); pose proof (byte_range mem (off + 3) H).
  unfold u8; change (2 ^ 8) with 256; change (2 ^ 16) with 65536; change (2 ^ 24) with 16777216.
  Z.div_mod_to_equations; lia.
Qed.

(** The bytes of a word, the highest first. *)
Definition be_bytes_32 (v : Z) : list Z := [u8 (Z.shiftr v 24); u8 (Z.shiftr v 16); u8 (Z.shiftr v 8); u8 v].

(** Rotation of a word of 32 bits. *)
Definition rotl_32 (x n : Z) : Z := Z.lor (u32 (Z.shiftl x n)) (Z.shiftr x (32 - n)).

Lemma drop_blit off src mem n :
  (off + length src <= length mem)%nat -> (off + length src <= n)%nat -> drop n (blit off src mem) = drop n mem.
Proof.
  intros H Hn; apply list_eq; intros j; rewrite !lookup_drop.
  destruct (decide (n + j < length mem)%nat).
  - rewrite blit_lookup, decide_False by lia; done.
  - rewrite !lookup_ge_None_2; [done|lia|rewrite length_blit; lia].
Qed.
