(* ===== verification/Md5.v ===== *)
(** * MD5: com32/libutil/md5.c

    The message digest in pieces, against the algorithm of RFC 1321 on the whole
    message: its constants are computed here from the sines they come from. *)

From S2P Require Import Prelude Hash.

Open Scope word_scope.

(** ** The code *)

(** The words of the state, and the variables a, b, c, d of a transformation. *)
Record regs := Regs { Ra_ : Z; Rb_ : Z; Rc_ : Z; Rd_ : Z }.
Variant reg := Ra | Rb | Rc | Rd.

Definition get (r : reg) (v : regs) : Z :=
  match r with Ra => Ra_ v | Rb => Rb_ v | Rc => Rc_ v | Rd => Rd_ v end.
Definition set (r : reg) (z : Z) (v : regs) : regs :=
  match r with
  | Ra => Regs z (Rb_ v) (Rc_ v) (Rd_ v) | Rb => Regs (Ra_ v) z (Rc_ v) (Rd_ v)
  | Rc => Regs (Ra_ v) (Rb_ v) z (Rd_ v) | Rd => Regs (Ra_ v) (Rb_ v) (Rc_ v) z
  end.

(** [src/com32/libutil/include/md5.h:38-42 MD5_CTX] *)
Record MD5_CTX := Ctx { state : regs; count0 : Z; count1 : Z; buffer : list Z }.

(** The complement of a word. *)
Definition not32 (x : Z) : Z := 4294967295 - x.

(** [src/com32/libutil/md5.c:45-45 F] *)
Definition F (x y z : Z) : Z := Z.lor (Z.land x y) (Z.land (not32 x) z).

(** [src/com32/libutil/md5.c:46-46 G] *)
Definition G (x y z : Z) : Z := Z.lor (Z.land x z) (Z.land y (not32 z)).

(** [src/com32/libutil/md5.c:47-47 H] *)
Definition H (x y z : Z) : Z := Z.lxor (Z.lxor x y) z.

(** [src/com32/libutil/md5.c:48-48 I] *)
Definition I (x y z : Z) : Z := Z.lxor y (Z.lor x (not32 z)).

(** [src/com32/libutil/md5.c:51-51 ROTATE_LEFT] *)
Definition ROTATE_LEFT (x n : Z) : Z := Z.lor (u32 (Z.shiftl x n)) (Z.shiftr x (32 - n)).

(** The four functions. *)
Variant fn := fF | fG | fH | fI.
Definition eval_fn (f : fn) : Z -> Z -> Z -> Z := match f with fF => F | fG => G | fH => H | fI => I end.

(** A line of a transformation: the function of its round, the variables in the place of
    a, b, c and d, the word, the shift and the constant. *)
Record line := Line { l_fun : fn; l_a : reg; l_b : reg; l_c : reg; l_d : reg; l_x : nat; l_s : Z; l_ac : Z }.
Definition FF := Line fF.
Definition GG := Line fG.
Definition HH := Line fH.
Definition II := Line fI.

(** The three statements of the macros.
    [src/com32/libutil/md5.c:57-76 FF, GG, HH, II] *)
Definition run_line (x : nat -> Z) (v : regs) (l : line) : regs :=
  let a := get (l_a l) v ⊞ (eval_fn (l_fun l) (get (l_b l) v) (get (l_c l) v) (get (l_d l) v) ⊞ x (l_x l) ⊞ l_ac l) in
  let a := ROTATE_LEFT a (l_s l) in
  set (l_a l) (a ⊞ get (l_b l) v) v.

Notation S11 := 7. Notation S12 := 12. Notation S13 := 17. Notation S14 := 22.
Notation S21 := 5. Notation S22 := 9. Notation S23 := 14. Notation S24 := 20.
Notation S31 := 4. Notation S32 := 11. Notation S33 := 16. Notation S34 := 23.
Notation S41 := 6. Notation S42 := 10. Notation S43 := 15. Notation S44 := 21.

(** [src/com32/libutil/md5.c:178-264 MD5Transform] *)
Definition rounds : list line := [
   FF Ra Rb Rc Rd 0 S11 0xd76aa478; FF Rd Ra Rb Rc 1 S12 0xe8c7b756;
   FF Rc Rd Ra Rb 2 S13 0x242070db; FF Rb Rc Rd Ra 3 S14 0xc1bdceee;
   FF Ra Rb Rc Rd 4 S11 0xf57c0faf; FF Rd Ra Rb Rc 5 S12 0x4787c62a;
   FF Rc Rd Ra Rb 6 S13 0xa8304613; FF Rb Rc Rd Ra 7 S14 0xfd469501;
   FF Ra Rb Rc Rd 8 S11 0x698098d8; FF Rd Ra Rb Rc 9 S12 0x8b44f7af;
   FF Rc Rd Ra Rb 10 S13 0xffff5bb1; FF Rb Rc Rd Ra 11 S14 0x895cd7be;
   FF Ra Rb Rc Rd 12 S11 0x6b901122; FF Rd Ra Rb Rc 13 S12 0xfd987193;
   FF Rc Rd Ra Rb 14 S13 0xa679438e; FF Rb Rc Rd Ra 15 S14 0x49b40821;
   GG Ra Rb Rc Rd 1 S21 0xf61e2562; GG Rd Ra Rb Rc 6 S22 0xc040b340;
   GG Rc Rd Ra Rb 11 S23 0x265e5a51; GG Rb Rc Rd Ra 0 S24 0xe9b6c7aa;
   GG Ra Rb Rc Rd 5 S21 0xd62f105d; GG Rd Ra Rb Rc 10 S22 0x2441453;
   GG Rc Rd Ra Rb 15 S23 0xd8a1e681; GG Rb Rc Rd Ra 4 S24 0xe7d3fbc8;
   GG Ra Rb Rc Rd 9 S21 0x21e1cde6; GG Rd Ra Rb Rc 14 S22 0xc33707d6;
   GG Rc Rd Ra Rb 3 S23 0xf4d50d87; GG Rb Rc Rd Ra 8 S24 0x455a14ed;
   GG Ra Rb Rc Rd 13 S21 0xa9e3e905; GG Rd Ra Rb Rc 2 S22 0xfcefa3f8;
   GG Rc Rd Ra Rb 7 S23 0x676f02d9; GG Rb Rc Rd Ra 12 S24 0x8d2a4c8a;
   HH Ra Rb Rc Rd 5 S31 0xfffa3942; HH Rd Ra Rb Rc 8 S32 0x8771f681;
   HH Rc Rd Ra Rb 11 S33 0x6d9d6122; HH Rb Rc Rd Ra 14 S34 0xfde5380c;
   HH Ra Rb Rc Rd 1 S31 0xa4beea44; HH Rd Ra Rb Rc 4 S32 0x4bdecfa9;
   HH Rc Rd Ra Rb 7 S33 0xf6bb4b60; HH Rb Rc Rd Ra 10 S34 0xbebfbc70;
   HH Ra Rb Rc Rd 13 S31 0x289b7ec6; HH Rd Ra Rb Rc 0 S32 0xeaa127fa;
   HH Rc Rd Ra Rb 3 S33 0xd4ef3085; HH Rb Rc Rd Ra 6 S34 0x4881d05;
   HH Ra Rb Rc Rd 9 S31 0xd9d4d039; HH Rd Ra Rb Rc 12 S32 0xe6db99e5;
   HH Rc Rd Ra Rb 15 S33 0x1fa27cf8; HH Rb Rc Rd Ra 2 S34 0xc4ac5665;
   II Ra Rb Rc Rd 0 S41 0xf4292244; II Rd Ra Rb Rc 7 S42 0x432aff97;
   II Rc Rd Ra Rb 14 S43 0xab9423a7; II Rb Rc Rd Ra 5 S44 0xfc93a039;
   II Ra Rb Rc Rd 12 S41 0x655b59c3; II Rd Ra Rb Rc 3 S42 0x8f0ccc92;
   II Rc Rd Ra Rb 10 S43 0xffeff47d; II Rb Rc Rd Ra 1 S44 0x85845dd1;
   II Ra Rb Rc Rd 8 S41 0x6fa87e4f; II Rd Ra Rb Rc 15 S42 0xfe2ce6e0;
   II Rc Rd Ra Rb 6 S43 0xa3014314; II Rb Rc Rd Ra 13 S44 0x4e0811a1;
   II Ra Rb Rc Rd 4 S41 0xf7537e82; II Rd Ra Rb Rc 11 S42 0xbd3af235;
   II Rc Rd Ra Rb 2 S43 0x2ad7d2bb; II Rb Rc Rd Ra 9 S44 0xeb86d391
].

(** [src/com32/libutil/md5.c:266-269 MD5Transform] *)
Definition add_regs (state v : regs) : regs :=
  Regs (Ra_ state ⊞ Ra_ v) (Rb_ state ⊞ Rb_ v) (Rc_ state ⊞ Rc_ v) (Rd_ state ⊞ Rd_ v).

(** [src/com32/libutil/md5.c:170-273 MD5Transform] *)
Definition MD5Transform (state : regs) (block : list Z) : regs :=
  add_regs state (fold_left (run_line (fun k => get_32 block (4 * k))) rounds state).

(** What is in the buffer of a new context is arbitrary.
    [src/com32/libutil/md5.c:80-89 MD5Init] *)
Definition MD5Init (buffer : list Z) : MD5_CTX :=
  Ctx (Regs 0x67452301 0xefcdab89 0x98badcfe 0x10325476) 0 0 buffer.

(** The blocks that lie in the input as a whole.
    [src/com32/libutil/md5.c:118-119 MD5Update] *)
Fixpoint update_blocks (fuel : nat) (state : regs) (input : list Z) (i : Z) : option (regs * Z) :=
  if u32 (i + 63) <? Z.of_nat (length input) then
    match fuel with
    | O => None
    | S fuel =>
        let* block := peek input (Z.to_nat i) 64 in
        update_blocks fuel (MD5Transform state block) input (i ⊞ 64)
    end
  else Some (state, i).

(** [input]: the [inputLen] bytes that are there.
    [src/com32/libutil/md5.c:97-128 MD5Update] *)
Definition MD5Update (context : MD5_CTX) (input : list Z) : option MD5_CTX :=
  let inputLen := Z.of_nat (length input) in
  let idx := Z.land (Z.shiftr (count0 context) 3) 0x3F in
  let count0 := count0 context ⊞ u32 (Z.shiftl inputLen 3) in
  let count1 := if count0 <? u32 (Z.shiftl inputLen 3) then count1 context ⊞ 1 else count1 context in
  let count1 := count1 ⊞ Z.shiftr inputLen 29 in
  let partLen := 64 - idx in
  let* (state, buffer, i, idx) :=
    if partLen <=? inputLen then
      let* src := peek input 0 (Z.to_nat partLen) in
      let* buffer := poke (buffer context) (Z.to_nat idx) src in
      let* (state, i) := update_blocks (length input) (MD5Transform (state context) buffer) input partLen in
      Some (state, buffer, i, 0)
    else Some (state context, buffer context, 0, idx) in
  let* src := peek input (Z.to_nat i) (Z.to_nat (inputLen - i)) in
  let* buffer := poke buffer (Z.to_nat idx) src in
  Some (Ctx state count0 count1 buffer).

(** [src/com32/libutil/md5.c:38-42 PADDING] *)
Definition PADDING : list Z := 0x80 :: replicate 63 0.

(** [src/com32/libutil/md5.c:134-149 MD5Pad] *)
Definition MD5Pad (context : MD5_CTX) : option MD5_CTX :=
  let bits := bytes_32 (count0 context) ++ bytes_32 (count1 context) in
  let idx := Z.land (Z.shiftr (count0 context) 3) 0x3f in
  let padLen := if idx <? 56 then 56 - idx else 120 - idx in
  let* src := peek PADDING 0 (Z.to_nat padLen) in
  let* context := MD5Update context src in
  MD5Update context bits.

(** The digest; the context is cleared.
    [src/com32/libutil/md5.c:156-166 MD5Final] *)
Definition MD5Final (context : MD5_CTX) : option (list Z * MD5_CTX) :=
  let* context := MD5Pad context in
  let v := state context in
  Some (bytes_32 (Ra_ v) ++ bytes_32 (Rb_ v) ++ bytes_32 (Rc_ v) ++ bytes_32 (Rd_ v),
        Ctx (Regs 0 0 0 0) 0 0 (replicate 64 0)).

(** Init, the pieces one after the other, Final. *)
Fixpoint updates (context : MD5_CTX) (pieces : list (list Z)) : option MD5_CTX :=
  match pieces with
  | [] => Some context
  | p :: pieces => let* context := MD5Update context p in updates context pieces
  end.
Definition md5_pieces (buffer : list Z) (pieces : list (list Z)) : option (list Z) :=
  let* context := updates (MD5Init buffer) pieces in
  let* (digest, _) := MD5Final context in Some digest.

(** ** The algorithm of RFC 1321 *)

(** The sine of an integer, in units of 2^-200: the first 150 terms of its series. *)
Fixpoint sine_terms (terms : nat) (k n term : Z) : Z :=
  match terms with
  | O => 0
  | S terms => term + sine_terms terms (k + 1) n (- (term * n * n / ((2 * k + 2) * (2 * k + 3))))
  end.
Definition sine (n : Z) : Z := sine_terms 150 0 n (n * 2 ^ 200).

(** The table T: the integer part of 4294967296 times the sine of [i] + 1. *)
Definition T (i : nat) : Z := Z.shiftr (Z.abs (sine (Z.of_nat i + 1))) 168.

Definition order (i : nat) : nat :=
  match (i / 16)%nat with 0%nat => i | 1%nat => (5 * i + 1) mod 16 | 2%nat => (3 * i + 5) mod 16 | _ => (7 * i) mod 16 end.
Definition shift (i : nat) : Z :=
  nth (i mod 4) match (i / 16)%nat with
    0%nat => [7; 12; 17; 22] | 1%nat => [5; 9; 14; 20] | 2%nat => [4; 11; 16; 23] | _ => [6; 10; 15; 21] end 0.
Definition round_fun (i : nat) : fn :=
  match (i / 16)%nat with 0%nat => fF | 1%nat => fG | 2%nat => fH | _ => fI end.

Definition md5_step (x : nat -> Z) (s : Z * Z * Z * Z) (i : nat) : Z * Z * Z * Z :=
  let '(a, b, c, d) := s in
  (d, b ⊞ ROTATE_LEFT (u32 (a + eval_fn (round_fun i) b c d + x (order i) + T i)) (shift i), b, c).

Definition add_state (s t : Z * Z * Z * Z) : Z * Z * Z * Z :=
  let '(a, b, c, d) := s in let '(a', b', c', d') := t in (a ⊞ a', b ⊞ b', c ⊞ c', d ⊞ d').

Definition md5_compress (s : Z * Z * Z * Z) (block : list Z) : Z * Z * Z * Z :=
  add_state s (fold_left (md5_step (fun k => get_32 block (4 * k))) (seq 0 64) s).

Definition md5_iv : Z * Z * Z * Z := (0x67452301, 0xefcdab89, 0x98badcfe, 0x10325476).

Definition md5 (m : list Z) : list Z :=
  let n := Z.of_nat (length m) in
  let '(a, b, c, d) :=
    digest 64 md5_compress md5_iv (m ++ padding 64 (length m) (bytes_32 (low_bits n) ++ bytes_32 (high_bits n))) in
  bytes_32 a ++ bytes_32 b ++ bytes_32 c ++ bytes_32 d.

(** The vectors of the RFC, through the code in one piece and in two, and by the
    definition. *)
Definition abc_digest : list Z :=
  [0x90; 0x01; 0x50; 0x98; 0x3c; 0xd2; 0x4f; 0xb0; 0xd6; 0x96; 0x3f; 0x7d; 0x28; 0xe1; 0x7f; 0x72].
Example md5_abc :
  md5 [97; 98; 99] = abc_digest /\ md5_pieces (replicate 64 7) [[97; 98; 99]] = Some abc_digest /\
  md5_pieces (replicate 64 7) [[97]; []; [98; 99]] = Some abc_digest.
Proof. split; [|split]; vm_compute; reflexivity. Qed.

(** ** The transformation *)

(** What the lines call a, b, c and d goes round. *)
Definition place (i : nat) : reg * reg * reg * reg :=
  match (i mod 4)%nat with
  | 0%nat => (Ra, Rb, Rc, Rd) | 1%nat => (Rd, Ra, Rb, Rc) | 2%nat => (Rc, Rd, Ra, Rb) | _ => (Rb, Rc, Rd, Ra)
  end.
Definition view (i : nat) (v : regs) : Z * Z * Z * Z :=
  let '(a, b, c, d) := place i in (get a v, get b v, get c v, get d v).
Definition line_of (i : nat) : line :=
  let '(a, b, c, d) := place i in Line (round_fun i) a b c d (order i) (shift i) (T i).

(** All 64 lines are those of the definition, the constants those of the sines. *)
Lemma md5_rounds_are : rounds = map line_of (seq 0 64).
Proof. vm_compute; reflexivity. Qed.

Lemma md5_add_words a f x t : a ⊞ (f ⊞ x ⊞ t) = u32 (a + f + x + t).
Proof. unfold u32; rewrite Zplus_mod_idemp_l, Zplus_mod_idemp_r; f_equal; lia. Qed.

Lemma md5_line_step x v i : view (S i) (run_line x v (line_of i)) = md5_step x (view i v) i.
Proof.
  assert (Hi : (i mod 4 = 0 /\ S i mod 4 = 1 \/ i mod 4 = 1 /\ S i mod 4 = 2 \/
                i mod 4 = 2 /\ S i mod 4 = 3 \/ i mod 4 = 3 /\ S i mod 4 = 0)%nat).
  { pose proof (Nat.div_mod i 4); pose proof (Nat.div_mod (S i) 4).
    pose proof (Nat.mod_upper_bound i 4); pose proof (Nat.mod_upper_bound (S i) 4); lia. }
  unfold view, line_of, place, md5_step; destruct Hi as [[E1 E2]|[[E1 E2]|[[E1 E2]|[E1 E2]]]]; rewrite E1, E2;
    unfold run_line; cbn [get set l_fun l_a l_b l_c l_d l_x l_s l_ac Ra_ Rb_ Rc_ Rd_];
    rewrite md5_add_words, (Z.add_comm (ROTATE_LEFT _ _)); reflexivity.
Qed.

Lemma md5_lines_steps x v n :
  view n (fold_left (run_line x) (map line_of (seq 0 n)) v) = fold_left (md5_step x) (seq 0 n) (view 0 v).
Proof.
  induction n as [|n IH]; [done|].
  rewrite seq_S, map_app, !fold_left_app; cbn [map fold_left Nat.add]; now rewrite md5_line_step, IH.
Qed.

Lemma md5_view_64 v : view 64 v = view 0 v.
Proof. reflexivity. Qed.

Lemma md5_view_sum s v : view 0 (add_regs s v) = add_state (view 0 s) (view 0 v).
Proof. reflexivity. Qed.

Lemma md5_transform_is_compress s b : view 0 (MD5Transform s b) = md5_compress (view 0 s) b.
Proof.
  unfold MD5Transform, md5_compress; rewrite <- (md5_lines_steps (fun k => get_32 b (4 * k)) s 64), md5_view_64, md5_rounds_are.
  apply md5_view_sum.
Qed.

(** ** Pieces *)

Definition iv : regs := Regs 0x67452301 0xefcdab89 0x98badcfe 0x10325476.

(** A context that has been given the message [m]. *)
Record holds (m : list Z) (ctx : MD5_CTX) : Prop := {
  holds_state : state ctx = digest 64 MD5Transform iv m;
  holds_count0 : count0 ctx = low_bits (Z.of_nat (length m));
  holds_count1 : count1 ctx = high_bits (Z.of_nat (length m));
  holds_buffer : length (buffer ctx) = 64%nat;
  holds_left : take (length (left_over 64 m)) (buffer ctx) = left_over 64 m
}.

Lemma md5_init_holds buffer : length buffer = 64%nat -> holds [] (MD5Init buffer).
Proof. intros H; split; try reflexivity; exact H. Qed.

Lemma md5_update_blocks_spec input : forall fuel state i,
  0 <= i <= Z.of_nat (length input) -> Z.of_nat (length input) <= 4294967232 -> (Z.to_nat (Z.of_nat (length input) - i) <= fuel)%nat ->
  exists j, update_blocks fuel state input i = Some (digest 64 MD5Transform state (drop (Z.to_nat i) input), j) /\
    0 <= j <= Z.of_nat (length input) /\ drop (Z.to_nat j) input = left_over 64 (drop (Z.to_nat i) input).
Proof.
  induction fuel as [|fuel IH]; intros state i Hi Hlen Hfuel; cbn [update_blocks]; rewrite (u32_small (i + 63)) by lia;
    destruct (Z.ltb_spec (i + 63) (Z.of_nat (length input))) as [Hlt|Hge]; try lia.
  - destruct (digest_short 64 MD5Transform state (drop (Z.to_nat i) input)) as [-> E]; [rewrite length_drop; lia|]; eauto.
  - rewrite peek_ok, (u32_small (i + 64)) by lia.
    destruct (IH (MD5Transform state (slice (Z.to_nat i) 64 input)) (i + 64) ltac:(lia) Hlen ltac:(lia)) as (j & -> & Hj & E).
    assert (Hl : (64 <= length (drop (Z.to_nat i) input))%nat) by (rewrite length_drop; lia).
    destruct (digest_step 64 MD5Transform ltac:(lia) state _ Hl) as [-> ->]; rewrite drop_drop.
    replace (Z.to_nat i + 64)%nat with (Z.to_nat (i + 64)) by lia; eauto.
  - destruct (digest_short 64 MD5Transform state (drop (Z.to_nat i) input)) as [-> E]; [rewrite length_drop; lia|]; eauto.
Qed.

Lemma md5_update_holds m ctx d :
  holds m ctx -> Z.of_nat (length d) <= 4294967232 -> exists ctx', MD5Update ctx d = Some ctx' /\ holds (m ++ d) ctx'.
Proof.
  intros [Hs H0 H1 Hb Hl] Hd; unfold MD5Update; rewrite H0, H1.
  destruct (bits_added (Z.of_nat (length m)) (Z.of_nat (length d)) ltac:(lia) ltac:(lia)) as [E0 E1].
  rewrite bits_index by lia; set (r := length (left_over 64 m)) in *.
  assert (Er : Z.of_nat (length m) mod 64 = Z.of_nat r) by (unfold r; rewrite left_over_length, Nat2Z.inj_mod by lia; reflexivity).
  assert (Hr : (r < 64)%nat) by (apply left_over_lt; lia).
  rewrite Er, E1, E0, <- Nat2Z.inj_add, <- length_app; destruct (Z.leb_spec (64 - Z.of_nat r) (Z.of_nat (length d))) as [Hle|Hgt].
  - replace (Z.to_nat (64 - Z.of_nat r)) with (64 - r)%nat by lia.
    rewrite peek_ok by lia; rewrite Nat2Z.id; unfold slice; rewrite drop_0.
    rewrite poke_ok by (rewrite length_take; lia).
    destruct (refill 64 MD5Transform ltac:(lia) iv m d (buffer ctx) r Hb eq_refl Hl ltac:(lia)) as (Hb' & Ed & El).
    set (buf := blit r (take (64 - r) d) (buffer ctx)) in *.
    destruct (md5_update_blocks_spec d (length d) (MD5Transform (state ctx) buf) (64 - Z.of_nat r) ltac:(lia) Hd ltac:(lia))
      as (j & -> & Hj & Ej); cbn [mbind option_bind].
    replace (Z.to_nat (64 - Z.of_nat r)) with (64 - r)%nat in * by lia; rewrite <- El in Ej.
    assert (Es : slice (Z.to_nat j) (Z.to_nat (Z.of_nat (length d) - j)) d = left_over 64 (m ++ d)).
    { unfold slice; rewrite Ej; apply take_ge; rewrite <- Ej, length_drop; lia. }
    rewrite peek_ok, Es by lia; pose proof (left_over_lt 64 ltac:(lia) (m ++ d)) as Hlt.
    rewrite poke_ok by (rewrite Hb'; lia); eexists; split; [reflexivity|].
    split; cbn [state count0 count1 buffer]; auto; [now rewrite Ed, Hs|now rewrite length_blit|].
    change (Z.to_nat 0) with 0%nat; apply (take_blit_app 0); rewrite Hb'; lia.
  - rewrite peek_ok by lia; change (Z.to_nat 0) with 0%nat.
    rewrite Z.sub_0_r, !Nat2Z.id; unfold slice; rewrite drop_0, take_ge by lia.
    rewrite poke_ok by lia; eexists; split; [reflexivity|].
    destruct (append 64 MD5Transform ltac:(lia) iv m d (buffer ctx) r Hb eq_refl Hl ltac:(lia)) as (Ed & El & _).
    split; cbn [state count0 count1 buffer]; auto; [now rewrite Ed|now rewrite length_blit].
Qed.

Lemma md5_updates_hold pieces : forall m ctx,
  holds m ctx -> Forall (fun p => Z.of_nat (length p) <= 4294967232) pieces ->
  exists ctx', updates ctx pieces = Some ctx' /\ holds (m ++ concat pieces) ctx'.
Proof.
  induction pieces as [|p pieces IH]; intros m ctx Hh Hp; cbn [updates concat]; [rewrite app_nil_r; eauto|].
  inversion_clear Hp as [|? ? Hp1 Hp2]; destruct (md5_update_holds m ctx p Hh Hp1) as (ctx1 & -> & H1).
  rewrite app_assoc; cbn [mbind option_bind]; auto.
Qed.

(** The padding of the code is the padding of the definition. *)
Lemma md5_pad_is_padding n len :
  length len = 8%nat ->
  let idx := Z.of_nat n mod 64 in
  let padLen := if idx <? 56 then 56 - idx else 120 - idx in
  0 < padLen <= 64 /\ take (Z.to_nat padLen) PADDING ++ len = padding 64 n len.
Proof.
  intros Hl idx padLen; pose proof (Z.mod_pos_bound (Z.of_nat n) 64 ltac:(lia)) as Hr.
  assert (Hp : 0 < padLen <= 64) by (unfold padLen, idx; destruct (Z.ltb_spec (Z.of_nat n mod 64) 56); lia).
  split; [done|]; unfold PADDING, padding.
  replace (Z.to_nat padLen) with (S (Z.to_nat (padLen - 1))) by lia; cbn [take app].
  rewrite take_replicate, Nat.min_l by lia; do 4 f_equal.
  replace (Z.of_nat (n + 1 + length len)) with (Z.of_nat n + 9) by lia; change (Z.of_nat 64) with 64.
  unfold padLen, idx; destruct (Z.ltb_spec (Z.of_nat n mod 64) 56); Z.div_mod_to_equations; lia.
Qed.

Lemma md5_of_state m :
  let n := Z.of_nat (length m) in
  let v := digest 64 MD5Transform iv (m ++ padding 64 (length m) (bytes_32 (low_bits n) ++ bytes_32 (high_bits n))) in
  md5 m = bytes_32 (Ra_ v) ++ bytes_32 (Rb_ v) ++ bytes_32 (Rc_ v) ++ bytes_32 (Rd_ v).
Proof.
  intros n v; unfold md5; fold n; change md5_iv with (view 0 iv).
  rewrite <- (digest_map 64 MD5Transform md5_compress (view 0)) by exact md5_transform_is_compress; reflexivity.
Qed.

Lemma md5_final_spec m ctx : holds m ctx ->
  exists ctx', MD5Final ctx = Some (md5 m, ctx') /\ length (buffer ctx') = 64%nat.
Proof.
  intros Hh; pose proof Hh as [Hs H0 H1 Hb Hl]; unfold MD5Final, MD5Pad; rewrite H0, H1, bits_index by lia.
  set (len := bytes_32 _ ++ bytes_32 _).
  destruct (md5_pad_is_padding (length m) len eq_refl) as [Hp Epad]; set (padLen := if _ <? _ then _ else _) in *.
  rewrite peek_ok by (cbn; lia); unfold slice; rewrite drop_0; cbn [mbind option_bind].
  destruct (md5_update_holds m ctx (take (Z.to_nat padLen) PADDING) Hh) as (ctx1 & -> & Hh1); [rewrite length_take; cbn; lia|].
  cbn [mbind option_bind].
  destruct (md5_update_holds _ ctx1 len Hh1) as (ctx2 & -> & Hh2); [cbn; lia|]; cbn [mbind option_bind].
  rewrite <- app_assoc, Epad in Hh2; exists (Ctx (Regs 0 0 0 0) 0 0 (replicate 64 0)); split; [|reflexivity]; do 2 f_equal; rewrite (holds_state _ _ Hh2); symmetry; apply md5_of_state.
Qed.

(** The digest of a message that comes in pieces, of any sizes below 2^32 - 63, is
    the MD5 of the whole message as RFC 1321 defines it: padding, the order of the
    words, the shifts and the constants from the sines. *)
Theorem md5_correct buffer pieces :
  length buffer = 64%nat -> Forall (fun p => Z.of_nat (length p) <= 4294967232) pieces ->
  md5_pieces buffer pieces = Some (md5 (concat pieces)).
Proof.
  intros Hb Hp; unfold md5_pieces.
  destruct (md5_updates_hold pieces [] (MD5Init buffer) (md5_init_holds buffer Hb) Hp) as (ctx & -> & Hh).
  destruct (md5_final_spec _ ctx Hh) as (ctx' & -> & _); reflexivity.
Qed.

Lemma md5_correct_witness : md5_pieces (replicate 64 7) [[97]; []; [98; 99]] = Some abc_digest.
Proof.
  rewrite (md5_correct (replicate 64 7) [[97]; []; [98; 99]]); [exact (f_equal Some (proj1 md5_abc))|reflexivity|].
  repeat constructor; vm_compute; discriminate.
Defined.
