(* ===== verification/Sha1.v ===== *)
(** * SHA-1: com32/libutil/sha1hash.c

    The digest of a message in pieces, against FIPS 180-1 on the whole message.  The
    transformation expands its block in place, the caller's too. *)

From S2P Require Import Prelude Hash.

Open Scope word_scope.

(** ** The code *)

(** The words of the state, and the variables a to e of a transformation. *)
Record regs := Regs { r_a : Z; r_b : Z; r_c : Z; r_d : Z; r_e : Z }.
Variant reg := Ra | Rb | Rc | Rd | Re.

Definition get (r : reg) (v : regs) : Z :=
  match r with Ra => r_a v | Rb => r_b v | Rc => r_c v | Rd => r_d v | Re => r_e v end.
Definition set (r : reg) (n : Z) (v : regs) : regs :=
  match r with
  | Ra => Regs n (r_b v) (r_c v) (r_d v) (r_e v) | Rb => Regs (r_a v) n (r_c v) (r_d v) (r_e v)
  | Rc => Regs (r_a v) (r_b v) n (r_d v) (r_e v) | Rd => Regs (r_a v) (r_b v) (r_c v) n (r_e v)
  | Re => Regs (r_a v) (r_b v) (r_c v) (r_d v) n
  end.

(** [src/com32/libutil/include/sha1.h:6-10 SHA1_CTX] *)
Record SHA1_CTX := Ctx { state : regs; count0 : Z; count1 : Z; buffer : list Z }.

(** [src/com32/libutil/sha1hash.c:87-87 rol] *)
Definition rol (value bits : Z) : Z := Z.lor (u32 (Z.shiftl value bits)) (Z.shiftr value (32 - bits)).

Definition word (l : list Z) (i : nat) : Z := nth i l 0.

(** The word a line adds, and the block after it.
    [src/com32/libutil/sha1hash.c:91-91 blk0] *)
Definition blk0 (i : nat) (l : list Z) : Z * list Z :=
  let v := swap_32 (word l i) in (v, <[i := v]> l).

(** [src/com32/libutil/sha1hash.c:92-93 blk] *)
Definition blk (i : nat) (l : list Z) : Z * list Z :=
  let at_ (k : nat) := word l (k mod 16) in
  let v := rol (Z.lxor (Z.lxor (Z.lxor (at_ (i + 13)%nat) (at_ (i + 8)%nat)) (at_ (i + 2)%nat)) (at_ i)) 1 in
  (v, <[(i mod 16)%nat := v]> l).

(** The five kinds of lines, the variables in the place of v, w, x, y and z, and the
    number. *)
Variant kind := K0 | K1 | K2 | K3 | K4.
Record line := Line { l_kind : kind; l_v : reg; l_w : reg; l_x : reg; l_y : reg; l_z : reg; l_i : nat }.
Definition R0 := Line K0.
Definition R1 := Line K1.
Definition R2 := Line K2.
Definition R3 := Line K3.
Definition R4 := Line K4.

(** The function of w, x and y, the word and the constant of a line.
    [src/com32/libutil/sha1hash.c:96-100 R0, R1, R2, R3, R4] *)
Definition mix (k : kind) (w x y : Z) : Z :=
  match k with
  | K0 | K1 => Z.lxor (Z.land w (Z.lxor x y)) y
  | K2 | K4 => Z.lxor (Z.lxor w x) y
  | K3 => Z.lor (Z.land (Z.lor w x) y) (Z.land w x)
  end.
Definition line_word (k : kind) (i : nat) (l : list Z) : Z * list Z :=
  match k with K0 => blk0 i l | _ => blk i l end.
Definition line_const (k : kind) : Z :=
  match k with K0 | K1 => 0x5A827999 | K2 => 0x6ED9EBA1 | K3 => 0x8F1BBCDC | K4 => 0xCA62C1D6 end.

(** [src/com32/libutil/sha1hash.c:96-100 R0, R1, R2, R3, R4] *)
Definition run_line (s : regs * list Z) (n : line) : regs * list Z :=
  let (r, l) := s in
  let (b, l) := line_word (l_kind n) (l_i n) l in
  let z := get (l_z n) r ⊞ (mix (l_kind n) (get (l_w n) r) (get (l_x n) r) (get (l_y n) r) ⊞ b
             ⊞ line_const (l_kind n) ⊞ rol (get (l_v n) r) 5) in
  let r := set (l_z n) z r in
  (set (l_w n) (rol (get (l_w n) r) 30) r, l).

(** [src/com32/libutil/sha1hash.c:137-216 SHA1Transform] *)
Definition rounds : list line := [
   R0 Ra Rb Rc Rd Re 0; R0 Re Ra Rb Rc Rd 1; R0 Rd Re Ra Rb Rc 2; R0 Rc Rd Re Ra Rb 3;
   R0 Rb Rc Rd Re Ra 4; R0 Ra Rb Rc Rd Re 5; R0 Re Ra Rb Rc Rd 6; R0 Rd Re Ra Rb Rc 7;
   R0 Rc Rd Re Ra Rb 8; R0 Rb Rc Rd Re Ra 9; R0 Ra Rb Rc Rd Re 10; R0 Re Ra Rb Rc Rd 11;
   R0 Rd Re Ra Rb Rc 12; R0 Rc Rd Re Ra Rb 13; R0 Rb Rc Rd Re Ra 14; R0 Ra Rb Rc Rd Re 15;
   R1 Re Ra Rb Rc Rd 16; R1 Rd Re Ra Rb Rc 17; R1 Rc Rd Re Ra Rb 18; R1 Rb Rc Rd Re Ra 19;
   R2 Ra Rb Rc Rd Re 20; R2 Re Ra Rb Rc Rd 21; R2 Rd Re Ra Rb Rc 22; R2 Rc Rd Re Ra Rb 23;
   R2 Rb Rc Rd Re Ra 24; R2 Ra Rb Rc Rd Re 25; R2 Re Ra Rb Rc Rd 26; R2 Rd Re Ra Rb Rc 27;
   R2 Rc Rd Re Ra Rb 28; R2 Rb Rc Rd Re Ra 29; R2 Ra Rb Rc Rd Re 30; R2 Re Ra Rb Rc Rd 31;
   R2 Rd Re Ra Rb Rc 32; R2 Rc Rd Re Ra Rb 33; R2 Rb Rc Rd Re Ra 34; R2 Ra Rb Rc Rd Re 35;
   R2 Re Ra Rb Rc Rd 36; R2 Rd Re Ra Rb Rc 37; R2 Rc Rd Re Ra Rb 38; R2 Rb Rc Rd Re Ra 39;
   R3 Ra Rb Rc Rd Re 40; R3 Re Ra Rb Rc Rd 41; R3 Rd Re Ra Rb Rc 42; R3 Rc Rd Re Ra Rb 43;
   R3 Rb Rc Rd Re Ra 44; R3 Ra Rb Rc Rd Re 45; R3 Re Ra Rb Rc Rd 46; R3 Rd Re Ra Rb Rc 47;
   R3 Rc Rd Re Ra Rb 48; R3 Rb Rc Rd Re Ra 49; R3 Ra Rb Rc Rd Re 50; R3 Re Ra Rb Rc Rd 51;
   R3 Rd Re Ra Rb Rc 52; R3 Rc Rd Re Ra Rb 53; R3 Rb Rc Rd Re Ra 54; R3 Ra Rb Rc Rd Re 55;
   R3 Re Ra Rb Rc Rd 56; R3 Rd Re Ra Rb Rc 57; R3 Rc Rd Re Ra Rb 58; R3 Rb Rc Rd Re Ra 59;
   R4 Ra Rb Rc Rd Re 60; R4 Re Ra Rb Rc Rd 61; R4 Rd Re Ra Rb Rc 62; R4 Rc Rd Re Ra Rb 63;
   R4 Rb Rc Rd Re Ra 64; R4 Ra Rb Rc Rd Re 65; R4 Re Ra Rb Rc Rd 66; R4 Rd Re Ra Rb Rc 67;
   R4 Rc Rd Re Ra Rb 68; R4 Rb Rc Rd Re Ra 69; R4 Ra Rb Rc Rd Re 70; R4 Re Ra Rb Rc Rd 71;
   R4 Rd Re Ra Rb Rc 72; R4 Rc Rd Re Ra Rb 73; R4 Rb Rc Rd Re Ra 74; R4 Ra Rb Rc Rd Re 75;
   R4 Re Ra Rb Rc Rd 76; R4 Rd Re Ra Rb Rc 77; R4 Rc Rd Re Ra Rb 78; R4 Rb Rc Rd Re Ra 79
].

(** [src/com32/libutil/sha1hash.c:218-222 SHA1Transform] *)
Definition add_regs (s v : regs) : regs :=
  Regs (r_a s ⊞ r_a v) (r_b s ⊞ r_b v) (r_c s ⊞ r_c v) (r_d s ⊞ r_d v) (r_e s ⊞ r_e v).

(** The state, and the block: it is the caller's bytes, taken for 16 words, that are
    expanded.
    [src/com32/libutil/sha1hash.c:115-225 SHA1Transform] *)
Definition SHA1Transform (state : regs) (buffer : list Z) : regs * list Z :=
  let l := map (fun k => get_32 buffer (4 * k)) (seq 0 16) in
  let (v, l) := fold_left run_line rounds (state, l) in
  (add_regs state v, concat (map bytes_32 l)).

(** [src/com32/libutil/sha1hash.c:229-238 SHA1Init] *)
Definition SHA1Init (buffer : list Z) : SHA1_CTX :=
  Ctx (Regs 0x67452301 0xEFCDAB89 0x98BADCFE 0x10325476 0xC3D2E1F0) 0 0 buffer.

(** [src/com32/libutil/sha1hash.c:256-258 SHA1Update] *)
Fixpoint update_blocks (fuel : nat) (state : regs) (data : list Z) (i : Z) : option (regs * list Z * Z) :=
  if u32 (i + 63) <? Z.of_nat (length data) then
    match fuel with
    | O => None
    | S fuel =>
        let* block := peek data (Z.to_nat i) 64 in
        let (state, block) := SHA1Transform state block in
        let* data := poke data (Z.to_nat i) block in
        update_blocks fuel state data (i ⊞ 64)
    end
  else Some (state, data, i).

(** The context, and the caller's data.
    [src/com32/libutil/sha1hash.c:242-267 SHA1Update] *)
Definition SHA1Update (context : SHA1_CTX) (data : list Z) : option (SHA1_CTX * list Z) :=
  let len := Z.of_nat (length data) in
  let j := Z.land (Z.shiftr (count0 context) 3) 63 in
  let count0 := count0 context ⊞ u32 (Z.shiftl len 3) in
  let count1 := if count0 <? u32 (Z.shiftl len 3) then count1 context ⊞ 1 else count1 context in
  let count1 := count1 ⊞ Z.shiftr len 29 in
  let* (state, buffer, data, i, j) :=
    if 63 <? j ⊞ len then
      let i := 64 - j in
      let* src := peek data 0 (Z.to_nat i) in
      let* buffer := poke (buffer context) (Z.to_nat j) src in
      let (state, buffer) := SHA1Transform (state context) buffer in
      let* (state, data, i) := update_blocks (length data) state data i in
      Some (state, buffer, data, i, 0)
    else Some (state context, buffer context, data, 0, j) in
  let* src := peek data (Z.to_nat i) (Z.to_nat (len - i)) in
  let* buffer := poke buffer (Z.to_nat j) src in
  Some (Ctx state count0 count1 buffer, data).

(** The zeros of the padding, one by one.
    [src/com32/libutil/sha1hash.c:281-283 SHA1Final] *)
Fixpoint pad_loop (fuel : nat) (context : SHA1_CTX) : option SHA1_CTX :=
  if negb (Z.land (count0 context) 504 =? 448) then
    match fuel with
    | O => None
    | S fuel => let* (context, _) := SHA1Update context [0] in pad_loop fuel context
    end
  else Some context.

(** The digest; the context is cleared.
    [src/com32/libutil/sha1hash.c:271-299 SHA1Final] *)
Definition SHA1Final (context : SHA1_CTX) : option (list Z * SHA1_CTX) :=
  let finalcount := be_bytes_32 (count1 context) ++ be_bytes_32 (count0 context) in
  let* (context, _) := SHA1Update context [0x80] in
  let* context := pad_loop 64 context in
  let* (context, _) := SHA1Update context finalcount in
  let v := state context in
  Some (be_bytes_32 (r_a v) ++ be_bytes_32 (r_b v) ++ be_bytes_32 (r_c v) ++ be_bytes_32 (r_d v) ++ be_bytes_32 (r_e v),
        Ctx (Regs 0 0 0 0 0) 0 0 (replicate 64 0)).

(** Init, the pieces one after the other, Final. *)
Fixpoint updates (context : SHA1_CTX) (pieces : list (list Z)) : option SHA1_CTX :=
  match pieces with
  | [] => Some context
  | p :: pieces => let* (context, _) := SHA1Update context p in updates context pieces
  end.
Definition sha1_pieces (buffer : list Z) (pieces : list (list Z)) : option (list Z) :=
  let* context := updates (SHA1Init buffer) pieces in
  let* (digest, _) := SHA1Final context in Some digest.

(** ** The algorithm of FIPS 180-1 *)

(** The message schedule: the words of the block, then each from four before it. *)
Definition sha1_word (block : list Z) (t : nat) (ws : list Z) : Z :=
  let w k := nth k ws 0 in
  if (t <? 16)%nat then be_32 block (4 * t)
  else rotl_32 (Z.lxor (Z.lxor (Z.lxor (w (t - 3)%nat) (w (t - 8)%nat)) (w (t - 14)%nat)) (w (t - 16)%nat)) 1.

(** Choice, parity and majority. *)
Definition sha1_f (t : nat) (b c d : Z) : Z :=
  match (t / 20)%nat with
  | 0%nat => Z.lor (Z.land b c) (Z.ldiff d b)
  | 2%nat => Z.lor (Z.lor (Z.land b c) (Z.land b d)) (Z.land c d)
  | _ => Z.lxor (Z.lxor b c) d
  end.

(** 2^30 times the square roots of 2, 3, 5 and 10. *)
Definition sha1_K (t : nat) : Z :=
  Z.sqrt (nth (t / 20)%nat [2; 3; 5; 10] 0 * 2 ^ 60).

Definition sha1_step (ws : list Z) (s : Z * Z * Z * Z * Z) (t : nat) : Z * Z * Z * Z * Z :=
  let '(a, b, c, d, e) := s in
  (u32 (rotl_32 a 5 + sha1_f t b c d + e + sha1_K t + nth t ws 0), a, rotl_32 b 30, c, d).

Definition add_state (s t : Z * Z * Z * Z * Z) : Z * Z * Z * Z * Z :=
  let '(a, b, c, d, e) := s in let '(a', b', c', d', e') := t in (a ⊞ a', b ⊞ b', c ⊞ c', d ⊞ d', e ⊞ e').

Definition sha1_compress (s : Z * Z * Z * Z * Z) (block : list Z) : Z * Z * Z * Z * Z :=
  add_state s (fold_left (sha1_step (word_schedule (sha1_word block) 80)) (seq 0 80) s).

Definition sha1_iv : Z * Z * Z * Z * Z := (0x67452301, 0xEFCDAB89, 0x98BADCFE, 0x10325476, 0xC3D2E1F0).

Definition sha1 (m : list Z) : list Z :=
  let n := Z.of_nat (length m) in
  let '(a, b, c, d, e) :=
    digest 64 sha1_compress sha1_iv (m ++ padding 64 (length m) (be_bytes_32 (high_bits n) ++ be_bytes_32 (low_bits n))) in
  be_bytes_32 a ++ be_bytes_32 b ++ be_bytes_32 c ++ be_bytes_32 d ++ be_bytes_32 e.

(** A vector of the standard, through the code and by the definition. *)
Definition abc_digest : list Z :=
  [0xa9; 0x99; 0x3e; 0x36; 0x47; 0x06; 0x81; 0x6a; 0xba; 0x3e; 0x25; 0x71; 0x78; 0x50; 0xc2; 0x6c; 0x9c; 0xd0; 0xd8; 0x9d].
Example sha1_abc :
  sha1 [97; 98; 99] = abc_digest /\ sha1_pieces (replicate 64 7) [[97; 98; 99]] = Some abc_digest /\
  sha1_pieces (replicate 64 7) [[97]; []; [98; 99]] = Some abc_digest.
Proof. split; [|split]; vm_compute; reflexivity. Qed.

(** A whole block of the caller's data does not survive its digest. *)
Example sha1_data_overwritten :
  let data := replicate 128 97 in
  match SHA1Update (SHA1Init (replicate 64 0)) data with
  | Some (_, data') => take 64 data' = take 64 data /\ drop 64 data' <> drop 64 data
  | None => False
  end.
Proof. vm_compute; split; [reflexivity|discriminate]. Qed.

(** ** The transformation *)

(** What the lines call v, w, x, y and z goes round. *)
Definition place (i : nat) : reg * reg * reg * reg * reg :=
  match (i mod 5)%nat with
  | 0%nat => (Ra, Rb, Rc, Rd, Re) | 1%nat => (Re, Ra, Rb, Rc, Rd) | 2%nat => (Rd, Re, Ra, Rb, Rc)
  | 3%nat => (Rc, Rd, Re, Ra, Rb) | _ => (Rb, Rc, Rd, Re, Ra)
  end.
Definition view (i : nat) (v : regs) : Z * Z * Z * Z * Z :=
  let '(a, b, c, d, e) := place i in (get a v, get b v, get c v, get d v, get e v).
Definition kind_of (i : nat) : kind :=
  if (i <? 16)%nat then K0 else match (i / 20)%nat with 0%nat => K1 | 1%nat => K2 | 2%nat => K3 | _ => K4 end.
Definition line_of (i : nat) : line :=
  let '(a, b, c, d, e) := place i in Line (kind_of i) a b c d e i.

Lemma sha1_rounds_are : rounds = map line_of (seq 0 80).
Proof. vm_compute; reflexivity. Qed.

(** The constants are the square roots. *)
Lemma sha1_const_is t : (t < 80)%nat -> line_const (kind_of t) = sha1_K t.
Proof.
  intros Ht; assert (H : forallb (fun t => line_const (kind_of t) =? sha1_K t) (seq 0 80) = true) by (vm_compute; reflexivity).
  apply Z.eqb_eq; apply (proj1 (forallb_forall _ _) H), in_seq; lia.
Qed.

Lemma sha1_choose_bits w x y : Z.lxor (Z.land w (Z.lxor x y)) y = Z.lor (Z.land w x) (Z.ldiff y w).
Proof.
  apply Z.bits_inj'; intros n Hn; rewrite Z.lxor_spec, Z.land_spec, Z.lxor_spec, Z.lor_spec, Z.land_spec, Z.ldiff_spec.
  now destruct (Z.testbit w n), (Z.testbit x n), (Z.testbit y n).
Qed.

Lemma sha1_majority_bits w x y : Z.lor (Z.land (Z.lor w x) y) (Z.land w x) = Z.lor (Z.lor (Z.land w x) (Z.land w y)) (Z.land x y).
Proof.
  apply Z.bits_inj'; intros n Hn; rewrite !Z.lor_spec, !Z.land_spec, Z.lor_spec.
  now destruct (Z.testbit w n), (Z.testbit x n), (Z.testbit y n).
Qed.

Lemma sha1_mix_is t w x y : (t < 80)%nat -> mix (kind_of t) w x y = sha1_f t w x y.
Proof.
  intros Ht; unfold kind_of, sha1_f; destruct (Nat.ltb_spec t 16).
  - rewrite Nat.div_small by lia; apply sha1_choose_bits.
  - assert (Hq : (t / 20 < 4)%nat) by (apply Nat.Div0.div_lt_upper_bound; lia).
    destruct (t / 20)%nat as [|[|[|[|q]]]]; [apply sha1_choose_bits|reflexivity|apply sha1_majority_bits|reflexivity|lia].
Qed.

(** The block after [t] lines: the last 16 words of the schedule, and what is not
    expanded yet. *)
Record expanded (block : list Z) (t : nat) (l : list Z) : Prop := {
  ex_len : length l = 16%nat;
  ex_done : forall j, (j < t)%nat -> (t <= j + 16)%nat -> word l (j mod 16) = nth j (word_schedule (sha1_word block) 80) 0;
  ex_raw : forall k, (t <= k < 16)%nat -> word l k = get_32 block (4 * k)
}.

Lemma sha1_word_insert l k v j : (k < length l)%nat -> word (<[k := v]> l) j = if decide (j = k) then v else word l j.
Proof.
  intros Hk; unfold word; rewrite !nth_lookup; destruct (decide (j = k)) as [->|Hne].
  - now rewrite list_lookup_insert_eq.
  - now rewrite list_lookup_insert_ne.
Qed.

Lemma sha1_expand_next block t l : (t < 80)%nat -> Forall is_byte block -> expanded block t l ->
  exists l', line_word (kind_of t) t l = (nth t (word_schedule (sha1_word block) 80) 0, l') /\ expanded block (S t) l'.
Proof.
  intros Ht Hb [Hl Hd Hr]; set (W := word_schedule (sha1_word block) 80) in *.
  assert (Hsmall : forall j, (j mod 16 < 16)%nat) by (intros; apply Nat.mod_upper_bound; lia).
  assert (Hnext : line_word (kind_of t) t l = (nth t W 0, <[(t mod 16)%nat := nth t W 0]> l)).
  { unfold W at 1 2; rewrite word_schedule_nth by lia; set (ws := word_schedule (sha1_word block) t); unfold kind_of, sha1_word; destruct (Nat.ltb_spec t 16) as [H16|H16].
    - cbn [line_word]; unfold blk0; rewrite Hr, swap_get_32 by (done || lia); now rewrite Nat.mod_small by lia.
    - assert (Hat : forall k, (0 < k <= 16)%nat -> nth (t - k) ws 0 = word l ((t + (16 - k)) mod 16)).
      { intros k Hk; unfold ws; rewrite (word_schedule_prefix _ t 80) by lia; fold W; rewrite <- (Hd (t - k)%nat) by lia.
        f_equal; replace (t + (16 - k))%nat with (t - k + 1 * 16)%nat by lia; now rewrite Nat.Div0.mod_add. }
      rewrite (Hat 3%nat), (Hat 8%nat), (Hat 14%nat), (Hat 16%nat) by lia; rewrite Nat.add_0_r.
      assert (Eline : line_word match (t / 20)%nat with 0%nat => K1 | 1%nat => K2 | 2%nat => K3 | _ => K4 end t l = blk t l)
        by (destruct (t / 20)%nat as [|[|[|q]]]; reflexivity).
      rewrite Eline; reflexivity. }
  exists (<[(t mod 16)%nat := nth t W 0]> l); split; [exact Hnext|]; split.
  - now rewrite length_insert.
  - intros j Hj Hjt; rewrite sha1_word_insert by (rewrite Hl; auto); destruct (decide (j mod 16 = t mod 16)%nat) as [E|E].
    + assert (j = t) as -> by (pose proof (Nat.div_mod j 16); pose proof (Nat.div_mod t 16); lia); done.
    + destruct (decide (j = t)) as [->|]; [done|]; apply Hd; lia.
  - intros k Hk; rewrite sha1_word_insert by (rewrite Hl; auto); rewrite Nat.mod_small, decide_False by lia; apply Hr; lia.
Qed.

Lemma sha1_add_words z f x k r : z ⊞ (f ⊞ x ⊞ k ⊞ r) = u32 (r + f + z + k + x).
Proof.
  unfold u32; rewrite Zplus_mod_idemp_r, (Zplus_mod_idemp_l (f + x)).
  rewrite (Z.add_comm _ r), Z.add_assoc, Zplus_mod_idemp_r; f_equal; lia.
Qed.

Lemma sha1_line_step block t v l : (t < 80)%nat -> Forall is_byte block -> expanded block t l ->
  exists v' l', run_line (v, l) (line_of t) = (v', l') /\ expanded block (S t) l' /\
    view (S t) v' = sha1_step (word_schedule (sha1_word block) 80) (view t v) t.
Proof.
  intros Ht Hb Hl; destruct (sha1_expand_next block t l Ht Hb Hl) as (l' & E & Hl'); set (W := word_schedule _ 80) in *.
  assert (Hi : (t mod 5 = 0 /\ S t mod 5 = 1 \/ t mod 5 = 1 /\ S t mod 5 = 2 \/ t mod 5 = 2 /\ S t mod 5 = 3 \/
                t mod 5 = 3 /\ S t mod 5 = 4 \/ t mod 5 = 4 /\ S t mod 5 = 0)%nat).
  { pose proof (Nat.div_mod t 5); pose proof (Nat.div_mod (S t) 5).
    pose proof (Nat.mod_upper_bound t 5); pose proof (Nat.mod_upper_bound (S t) 5); lia. }
  unfold view, line_of, place, sha1_step, run_line; destruct Hi as [[E1 E2]|[[E1 E2]|[[E1 E2]|[[E1 E2]|[E1 E2]]]]]; rewrite E1, E2;
    cbn [l_kind l_v l_w l_x l_y l_z l_i]; rewrite E; do 2 eexists; (split; [reflexivity|split; [exact Hl'|]]);
    cbn [get set r_a r_b r_c r_d r_e]; rewrite sha1_add_words, sha1_mix_is, sha1_const_is by done; reflexivity.
Qed.

Lemma sha1_lines_steps block v l n : (n <= 80)%nat -> Forall is_byte block -> expanded block 0 l ->
  exists v' l', fold_left run_line (map line_of (seq 0 n)) (v, l) = (v', l') /\ expanded block n l' /\
    view n v' = fold_left (sha1_step (word_schedule (sha1_word block) 80)) (seq 0 n) (view 0 v).
Proof.
  intros Hn Hb Hl; induction n as [|n IH]; [do 2 eexists; done|].
  destruct (IH ltac:(lia)) as (v1 & l1 & E & Hl1 & Ev); clear IH.
  rewrite seq_S, map_app, !fold_left_app, E, <- Ev; cbn [map fold_left Nat.add]; apply sha1_line_step; auto; lia.
Qed.

Lemma sha1_view_80 v : view 80 v = view 0 v.
Proof. reflexivity. Qed.

Lemma sha1_view_sum s v : view 0 (add_regs s v) = add_state (view 0 s) (view 0 v).
Proof. reflexivity. Qed.

Lemma sha1_length_words (l : list Z) : length (concat (map bytes_32 l)) = (4 * length l)%nat.
Proof. induction l as [|v l IH]; [done|]; cbn [map concat length]; rewrite length_app, IH; cbn; lia. Qed.

Lemma sha1_transform_is_compress s b : Forall is_byte b ->
  exists s' b', SHA1Transform s b = (s', b') /\ length b' = 64%nat /\ view 0 s' = sha1_compress (view 0 s) b.
Proof.
  intros Hb; unfold SHA1Transform, sha1_compress; rewrite sha1_rounds_are.
  destruct (sha1_lines_steps b s (map (fun k => get_32 b (4 * k)) (seq 0 16)) 80 ltac:(lia) Hb) as (v & l & E & [Hl _ _] & Ev).
  { split; [reflexivity|intros; lia|]; intros k Hk; unfold word.
    rewrite nth_lookup, list_lookup_fmap, lookup_seq_lt by lia; reflexivity. }
  rewrite E, <- Ev, sha1_view_80; do 2 eexists; split; [reflexivity|]; split; [|apply sha1_view_sum].
  now rewrite sha1_length_words, Hl.
Qed.

(** ** Pieces *)

Definition iv : regs := Regs 0x67452301 0xEFCDAB89 0x98BADCFE 0x10325476 0xC3D2E1F0.
Definition transform (s : regs) (b : list Z) : regs := (SHA1Transform s b).1.

Lemma sha1_SHA1Transform_eq s b : Forall is_byte b -> exists b', SHA1Transform s b = (transform s b, b') /\ length b' = 64%nat.
Proof. intros Hb; destruct (sha1_transform_is_compress s b Hb) as (s' & b' & E & Hl & _); unfold transform; rewrite E; eauto. Qed.

(** A context that has been given the message [m]. *)
Record holds (m : list Z) (ctx : SHA1_CTX) : Prop := {
  holds_bytes : Forall is_byte m;
  holds_state : state ctx = digest 64 transform iv m;
  holds_count0 : count0 ctx = low_bits (Z.of_nat (length m));
  holds_count1 : count1 ctx = high_bits (Z.of_nat (length m));
  holds_buffer : length (buffer ctx) = 64%nat;
  holds_left : take (length (left_over 64 m)) (buffer ctx) = left_over 64 m
}.

Lemma sha1_init_holds buffer : length buffer = 64%nat -> holds [] (SHA1Init buffer).
Proof. intros H; split; try reflexivity; [constructor|exact H]. Qed.

Lemma sha1_update_blocks_spec : forall fuel state data i,
  Forall is_byte (drop (Z.to_nat i) data) -> 0 <= i <= Z.of_nat (length data) -> Z.of_nat (length data) <= 4294967232 ->
  (Z.to_nat (Z.of_nat (length data) - i) <= fuel)%nat ->
  exists data' j, update_blocks fuel state data i = Some (digest 64 transform state (drop (Z.to_nat i) data), data', j) /\
    0 <= j <= Z.of_nat (length data) /\ length data' = length data /\
    drop (Z.to_nat j) data' = left_over 64 (drop (Z.to_nat i) data).
Proof.
  induction fuel as [|fuel IH]; intros state data i Hb Hi Hlen Hfuel; cbn [update_blocks]; rewrite (u32_small (i + 63)) by lia;
    destruct (Z.ltb_spec (i + 63) (Z.of_nat (length data))) as [Hlt|Hge]; try lia.
  - destruct (digest_short 64 transform state (drop (Z.to_nat i) data)) as [-> E]; [rewrite length_drop; lia|]; eauto 6.
  - rewrite peek_ok, (u32_small (i + 64)) by lia; cbn [mbind option_bind].
    assert (Hbb : Forall is_byte (slice (Z.to_nat i) 64 data)) by (apply Forall_take; done).
    destruct (sha1_SHA1Transform_eq state _ Hbb) as (b' & -> & Hb'); rewrite poke_ok by lia; cbn [mbind option_bind].
    assert (Ed : drop (Z.to_nat (i + 64)) (blit (Z.to_nat i) b' data) = drop 64 (drop (Z.to_nat i) data)).
    { rewrite drop_blit, drop_drop by lia; f_equal; lia. }
    destruct (IH (transform state (slice (Z.to_nat i) 64 data)) (blit (Z.to_nat i) b' data) (i + 64))
      as (data' & j & -> & Hj & Hl & E); rewrite ?length_blit in *; try lia; [rewrite Ed; now apply Forall_drop|].
    assert (Hlong : (64 <= length (drop (Z.to_nat i) data))%nat) by (rewrite length_drop; lia).
    destruct (digest_step 64 transform ltac:(lia) state _ Hlong) as [-> ->]; rewrite <- Ed; eauto 6.
  - destruct (digest_short 64 transform state (drop (Z.to_nat i) data)) as [-> E]; [rewrite length_drop; lia|]; eauto 6.
Qed.

Lemma sha1_update_holds m ctx d :
  holds m ctx -> Forall is_byte d -> Z.of_nat (length d) <= 4294967232 ->
  exists ctx' d', SHA1Update ctx d = Some (ctx', d') /\ holds (m ++ d) ctx'.
Proof.
  intros [Hm Hs H0 H1 Hb Hl] Hbd Hd; unfold SHA1Update; rewrite H0, H1.
  assert (Hmd : Forall is_byte (m ++ d)) by (apply Forall_app; done).
  destruct (bits_added (Z.of_nat (length m)) (Z.of_nat (length d)) ltac:(lia) ltac:(lia)) as [E0 E1].
  rewrite bits_index by lia; set (r := length (left_over 64 m)) in *.
  assert (Er : Z.of_nat (length m) mod 64 = Z.of_nat r) by (unfold r; rewrite left_over_length, Nat2Z.inj_mod by lia; reflexivity).
  assert (Hr : (r < 64)%nat) by (apply left_over_lt; lia).
  rewrite Er, E1, E0, <- (Nat2Z.inj_add (length m)), <- length_app, (u32_small (Z.of_nat r + _)) by lia.
  destruct (Z.ltb_spec 63 (Z.of_nat r + Z.of_nat (length d))) as [Hle|Hgt].
  - replace (Z.to_nat (64 - Z.of_nat r)) with (64 - r)%nat by lia.
    rewrite peek_ok by lia; rewrite Nat2Z.id; unfold slice; rewrite drop_0; cbn [mbind option_bind].
    rewrite poke_ok by (rewrite length_take; lia); cbn [mbind option_bind].
    destruct (refill 64 transform ltac:(lia) iv m d (buffer ctx) r Hb eq_refl Hl ltac:(lia)) as (Hb' & Ed & El).
    set (buf := blit r (take (64 - r) d) (buffer ctx)) in *.
    assert (Hbuf : Forall is_byte buf).
    { unfold buf; rewrite blit_split by (rewrite length_take; lia); rewrite Hl, length_take, drop_ge, app_nil_r by lia.
      apply Forall_app; split; [now apply Forall_drop|now apply Forall_take]. }
    destruct (sha1_SHA1Transform_eq (state ctx) buf Hbuf) as (buf' & -> & Hbuf'); cbn [mbind option_bind].
    destruct (sha1_update_blocks_spec (length d) (transform (state ctx) buf) d (64 - Z.of_nat r)) as (d' & j & -> & Hj & Hl' & Ej);
      [now apply Forall_drop|lia..|]; cbn [mbind option_bind].
    replace (Z.to_nat (64 - Z.of_nat r)) with (64 - r)%nat in * by lia; rewrite <- El in Ej.
    assert (Es : slice (Z.to_nat j) (Z.to_nat (Z.of_nat (length d) - j)) d' = left_over 64 (m ++ d)).
    { unfold slice; rewrite Ej; apply take_ge; rewrite <- Ej, length_drop; lia. }
    rewrite peek_ok, Es by lia; cbn [mbind option_bind]; pose proof (left_over_lt 64 ltac:(lia) (m ++ d)) as Hlt.
    rewrite poke_ok by lia; do 2 eexists; split; [reflexivity|].
    split; cbn [state count0 count1 buffer]; auto; [now rewrite Ed, Hs|now rewrite length_blit|].
    change (Z.to_nat 0) with 0%nat; apply (take_blit_app 0); lia.
  - cbn [mbind option_bind]; rewrite peek_ok by lia; change (Z.to_nat 0) with 0%nat.
    rewrite Z.sub_0_r, !Nat2Z.id; unfold slice; rewrite drop_0, take_ge by lia; cbn [mbind option_bind].
    rewrite poke_ok by lia; do 2 eexists; split; [reflexivity|].
    destruct (append 64 transform ltac:(lia) iv m d (buffer ctx) r Hb eq_refl Hl ltac:(lia)) as (Ed & El & _).
    split; cbn [state count0 count1 buffer]; auto; [now rewrite Ed|now rewrite length_blit].
Qed.

(** The caller keeps as many bytes as there were. *)
Lemma sha1_update_blocks_length : forall fuel state data i s' data' j,
  update_blocks fuel state data i = Some (s', data', j) -> length data' = length data.
Proof.
  induction fuel as [|fuel IH]; intros state data i s' data' j; cbn [update_blocks]; destruct (_ <? _); try congruence.
  destruct (peek data (Z.to_nat i) 64) as [block|]; cbn [mbind option_bind]; [|done].
  destruct (SHA1Transform state block) as [s b]; destruct (poke data (Z.to_nat i) b) as [d1|] eqn:E; cbn [mbind option_bind]; [|done].
  intros H; apply IH in H; rewrite H; unfold poke in E; destruct (_ <=? _)%nat; [|done]; injection E as <-; apply length_blit.
Qed.

Lemma sha1_update_length ctx d ctx' d' : SHA1Update ctx d = Some (ctx', d') -> length d' = length d.
Proof.
  unfold SHA1Update; cbv zeta; set (j := Z.land (Z.shiftr (count0 ctx) 3) 63).
  destruct (63 <? _).
  - destruct (peek d 0 _) as [src|]; cbn [mbind option_bind]; [|done].
    destruct (poke (buffer ctx) _ src) as [b|]; cbn [mbind option_bind]; [|done].
    destruct (SHA1Transform (state ctx) b) as [s b'].
    destruct (update_blocks _ _ _ _) as [[[s' d1] i]|] eqn:E; cbn [mbind option_bind]; [|done].
    destruct (peek d1 _ _); cbn [mbind option_bind]; [|done]; destruct (poke _ _ _); cbn [mbind option_bind]; [|done].
    intros [= _ <-]; now apply sha1_update_blocks_length in E.
  - cbn [mbind option_bind]; destruct (peek d _ _); cbn [mbind option_bind]; [|done]; destruct (poke _ _ _); cbn [mbind option_bind]; [|done].
    now intros [= _ <-].
Qed.

Lemma sha1_updates_hold pieces : forall m ctx,
  holds m ctx -> Forall (fun p => Forall is_byte p /\ Z.of_nat (length p) <= 4294967232) pieces ->
  exists ctx', updates ctx pieces = Some ctx' /\ holds (m ++ concat pieces) ctx'.
Proof.
  induction pieces as [|p pieces IH]; intros m ctx Hh Hp; cbn [updates concat]; [rewrite app_nil_r; eauto|].
  inversion_clear Hp as [|? ? [Hb Hl] Hp2]; destruct (sha1_update_holds m ctx p Hh Hb Hl) as (ctx1 & p' & -> & H1).
  rewrite app_assoc; cbn [mbind option_bind]; auto.
Qed.

Lemma sha1_count_place n : 0 <= n -> Z.land (low_bits n) 504 = 8 * (n mod 64).
Proof.
  intros Hn; rewrite <- bits_index by done; set (c := low_bits n).
  assert (E : c = Z.shiftl (Z.shiftr c 3) 3).
  { rewrite Z.shiftl_mul_pow2, Z.shiftr_div_pow2 by lia; unfold c, low_bits, u32; change (2 ^ 3) with 8; Z.div_mod_to_equations; lia. }
  rewrite E at 1; change 504 with (Z.shiftl 63 3); rewrite <- Z.shiftl_land, Z.shiftl_mul_pow2 by lia; lia.
Qed.

(** The loop ends when 8 bytes are missing. *)
Lemma sha1_pad_loop_spec : forall fuel m ctx,
  holds m ctx -> let z := Z.to_nat ((56 - Z.of_nat (length m)) mod 64) in (z <= fuel)%nat ->
  exists ctx', pad_loop fuel ctx = Some ctx' /\ holds (m ++ replicate z 0) ctx'.
Proof.
  induction fuel as [|fuel IH]; intros m ctx Hh z Hz; cbn [pad_loop]; rewrite (holds_count0 _ _ Hh), sha1_count_place by lia;
    destruct (Z.eqb_spec (8 * (Z.of_nat (length m) mod 64)) 448) as [E|E]; cbn [negb].
  1, 3: assert (z = 0)%nat as -> by (unfold z; Z.div_mod_to_equations; lia); cbn [replicate]; rewrite app_nil_r; eauto.
  - exfalso; unfold z in Hz; Z.div_mod_to_equations; lia.
  - destruct (sha1_update_holds m ctx [0] Hh) as (ctx1 & d & -> & H1); [repeat constructor; unfold is_byte; lia|cbn; lia|].
    cbn [mbind option_bind].
    assert (Ez : z = S (Z.to_nat ((56 - Z.of_nat (length (m ++ [0]))) mod 64)))
      by (unfold z; rewrite length_app; cbn [length]; Z.div_mod_to_equations; lia).
    destruct (IH _ ctx1 H1 ltac:(lia)) as (ctx2 & -> & H2); rewrite Ez; rewrite <- app_assoc in H2; eauto.
Qed.

Lemma sha1_pad_is_padding n len :
  length len = 8%nat -> 128 :: replicate (Z.to_nat ((56 - Z.of_nat (n + 1)) mod 64)) 0 ++ len = padding 64 n len.
Proof.
  intros Hl; unfold padding; rewrite Hl; do 4 f_equal; change (Z.of_nat 64) with 64; Z.div_mod_to_equations; lia.
Qed.

Lemma sha1_of_state m :
  let n := Z.of_nat (length m) in
  let p := m ++ padding 64 (length m) (be_bytes_32 (high_bits n) ++ be_bytes_32 (low_bits n)) in
  let v := digest 64 transform iv p in
  Forall is_byte p ->
  sha1 m = be_bytes_32 (r_a v) ++ be_bytes_32 (r_b v) ++ be_bytes_32 (r_c v) ++ be_bytes_32 (r_d v) ++ be_bytes_32 (r_e v).
Proof.
  intros n p v Hp; unfold sha1; fold n; change sha1_iv with (view 0 iv); fold p.
  rewrite <- (digest_map_bytes 64 transform sha1_compress (view 0) iv p Hp); [reflexivity|].
  intros s b Hb; unfold transform; destruct (sha1_transform_is_compress s b Hb) as (s' & b' & -> & _ & E); exact E.
Qed.

Lemma sha1_be_bytes_ok v : Forall is_byte (be_bytes_32 v).
Proof. repeat constructor; apply u8_byte. Qed.

Lemma sha1_final_spec m ctx : holds m ctx -> exists ctx', SHA1Final ctx = Some (sha1 m, ctx').
Proof.
  intros Hh; unfold SHA1Final; rewrite (holds_count0 _ _ Hh), (holds_count1 _ _ Hh); set (len := be_bytes_32 _ ++ be_bytes_32 _).
  assert (Hlen : Forall is_byte len) by (apply Forall_app; split; apply sha1_be_bytes_ok).
  destruct (sha1_update_holds m ctx [0x80] Hh) as (ctx1 & d1 & -> & H1); [repeat constructor; unfold is_byte; lia|cbn; lia|].
  cbn [mbind option_bind].
  destruct (sha1_pad_loop_spec 64 _ ctx1 H1) as (ctx2 & -> & H2); [Z.div_mod_to_equations; lia|]; cbn [mbind option_bind].
  destruct (sha1_update_holds _ ctx2 len H2 Hlen) as (ctx3 & d3 & -> & H3); [cbn; lia|]; cbn [mbind option_bind].
  rewrite length_app in H3; cbn [length] in H3; rewrite <- !app_assoc in H3; cbn [app] in H3.
  rewrite sha1_pad_is_padding in H3 by reflexivity.
  eexists; do 2 f_equal; rewrite (holds_state _ _ H3); symmetry; apply sha1_of_state, (holds_bytes _ _ H3).
Qed.

(** The digest of a message that comes in pieces is the SHA-1 of the whole message
    as FIPS 180-1 defines it, although the code expands a block in the place of its
    sixteen words, and the caller's data with it. *)
Theorem sha1_correct buffer pieces :
  length buffer = 64%nat -> Forall (fun p => Forall is_byte p /\ Z.of_nat (length p) <= 4294967232) pieces ->
  sha1_pieces buffer pieces = Some (sha1 (concat pieces)).
Proof.
  intros Hb Hp; unfold sha1_pieces.
  destruct (sha1_updates_hold pieces [] (SHA1Init buffer) (sha1_init_holds buffer Hb) Hp) as (ctx & -> & Hh).
  destruct (sha1_final_spec _ ctx Hh) as (ctx' & ->); reflexivity.
Qed.

Lemma sha1_correct_witness : sha1_pieces (replicate 64 7) [[97]; []; [98; 99]] = Some abc_digest.
Proof.
  rewrite (sha1_correct (replicate 64 7) [[97]; []; [98; 99]]); [exact (f_equal Some (proj1 sha1_abc))|reflexivity|].
  repeat constructor; unfold is_byte; cbn; lia.
Defined.
