(* ===== verification/Sha2.v ===== *)
(** * SHA-256 and SHA-512: com32/libutil/sha256crypt.c and sha512crypt.c

    The two files have the same functions with other numbers: here they are one, over a
    record of the numbers.  The digest of a message in pieces, through a buffer of two
    blocks, against FIPS 180-2 on the whole message; the tables of constants against
    the roots of primes they come from. *)

From S2P Require Import Prelude Hash.

(** ** The code *)

(** The numbers of a file: the logarithm of the bytes of a block, the table [K], the
    values of [sha256_init_ctx], and those in the macros [S0], [S1], [R0] and [R1]. *)
Record sha2 := Sha2 {
  lg : Z; K : list Z; H_init : list Z;
  nS0 : Z * Z * Z; nS1 : Z * Z * Z; nR0 : Z * Z * Z; nR1 : Z * Z * Z
}.

(** [src/com32/libutil/sha256crypt.c:42-59 K] *)
Definition K256 : list Z := concat [
  [0x428a2f98; 0x71374491; 0xb5c0fbcf; 0xe9b5dba5];
  [0x3956c25b; 0x59f111f1; 0x923f82a4; 0xab1c5ed5];
  [0xd807aa98; 0x12835b01; 0x243185be; 0x550c7dc3];
  [0x72be5d74; 0x80deb1fe; 0x9bdc06a7; 0xc19bf174];
  [0xe49b69c1; 0xefbe4786; 0x0fc19dc6; 0x240ca1cc];
  [0x2de92c6f; 0x4a7484aa; 0x5cb0a9dc; 0x76f988da];
  [0x983e5152; 0xa831c66d; 0xb00327c8; 0xbf597fc7];
  [0xc6e00bf3; 0xd5a79147; 0x06ca6351; 0x14292967];
  [0x27b70a85; 0x2e1b2138; 0x4d2c6dfc; 0x53380d13];
  [0x650a7354; 0x766a0abb; 0x81c2c92e; 0x92722c85];
  [0xa2bfe8a1; 0xa81a664b; 0xc24b8b70; 0xc76c51a3];
  [0xd192e819; 0xd6990624; 0xf40e3585; 0x106aa070];
  [0x19a4c116; 0x1e376c08; 0x2748774c; 0x34b0bcb5];
  [0x391c0cb3; 0x4ed8aa4a; 0x5b9cca4f; 0x682e6ff3];
  [0x748f82ee; 0x78a5636f; 0x84c87814; 0x8cc70208];
  [0x90befffa; 0xa4506ceb; 0xbef9a3f7; 0xc67178f2]
].

(** [src/com32/libutil/sha512crypt.c:49-90 K] *)
Definition K512 : list Z := [
  0x428a2f98d728ae22; 0x7137449123ef65cd; 0xb5c0fbcfec4d3b2f; 0xe9b5dba58189dbbc; 0x3956c25bf348b538;
  0x59f111f1b605d019; 0x923f82a4af194f9b; 0xab1c5ed5da6d8118; 0xd807aa98a3030242; 0x12835b0145706fbe;
  0x243185be4ee4b28c; 0x550c7dc3d5ffb4e2; 0x72be5d74f27b896f; 0x80deb1fe3b1696b1; 0x9bdc06a725c71235;
  0xc19bf174cf692694; 0xe49b69c19ef14ad2; 0xefbe4786384f25e3; 0x0fc19dc68b8cd5b5; 0x240ca1cc77ac9c65;
  0x2de92c6f592b0275; 0x4a7484aa6ea6e483; 0x5cb0a9dcbd41fbd4; 0x76f988da831153b5; 0x983e5152ee66dfab;
  0xa831c66d2db43210; 0xb00327c898fb213f; 0xbf597fc7beef0ee4; 0xc6e00bf33da88fc2; 0xd5a79147930aa725;
  0x06ca6351e003826f; 0x142929670a0e6e70; 0x27b70a8546d22ffc; 0x2e1b21385c26c926; 0x4d2c6dfc5ac42aed;
  0x53380d139d95b3df; 0x650a73548baf63de; 0x766a0abb3c77b2a8; 0x81c2c92e47edaee6; 0x92722c851482353b;
  0xa2bfe8a14cf10364; 0xa81a664bbc423001; 0xc24b8b70d0f89791; 0xc76c51a30654be30; 0xd192e819d6ef5218;
  0xd69906245565a910; 0xf40e35855771202a; 0x106aa07032bbd1b8; 0x19a4c116b8d2d0c8; 0x1e376c085141ab53;
  0x2748774cdf8eeb99; 0x34b0bcb5e19b48a8; 0x391c0cb3c5c95a63; 0x4ed8aa4ae3418acb; 0x5b9cca4f7763e373;
  0x682e6ff3d6b2b8a3; 0x748f82ee5defb2fc; 0x78a5636f43172f60; 0x84c87814a1f0ab72; 0x8cc702081a6439ec;
  0x90befffa23631e28; 0xa4506cebde82bde9; 0xbef9a3f7b2c67915; 0xc67178f2e372532b; 0xca273eceea26619c;
  0xd186b8c721c0c207; 0xeada7dd6cde0eb1e; 0xf57d4f7fee6ed178; 0x06f067aa72176fba; 0x0a637dc5a2c898a6;
  0x113f9804bef90dae; 0x1b710b35131c471b; 0x28db77f523047d84; 0x32caab7b40c72493; 0x3c9ebe0a15c9bebc;
  0x431d67c49c100d4c; 0x4cc5d4becb3e42b6; 0x597f299cfc657e2a; 0x5fcb6fab3ad6faec; 0x6c44198c4a475817
].

(** [src/com32/libutil/sha256crypt.c:94-108 sha256_process_block] *)
Definition sha256 : sha2 :=
  Sha2 6 K256
    [0x6a09e667; 0xbb67ae85; 0x3c6ef372; 0xa54ff53a; 0x510e527f; 0x9b05688c; 0x1f83d9ab; 0x5be0cd19]
    (2, 13, 22) (6, 11, 25) (7, 18, 3) (17, 19, 10).

(** [src/com32/libutil/sha512crypt.c:125-139 sha512_process_block] *)
Definition sha512 : sha2 :=
  Sha2 7 K512
    [0x6a09e667f3bcc908; 0xbb67ae8584caa73b; 0x3c6ef372fe94f82b; 0xa54ff53a5f1d36f1;
     0x510e527fade682d1; 0x9b05688c2b3e6c1f; 0x1f83d9abfb41bd6b; 0x5be0cd19137e2179]
    (28, 34, 39) (14, 18, 41) (1, 8, 7) (19, 61, 6).

Definition words8 : Type := Z * Z * Z * Z * Z * Z * Z * Z.

Section sha2.
Context (p : sha2).

(** The bytes of a block and of a word, the bits of a word. *)
Notation B := (2 ^ lg p).
Notation word_bytes := (B / 16).
Notation word_bits := (B / 2).
Definition uW (z : Z) : Z := z mod 2 ^ word_bits.
Notation "a ⊕ b" := (uW (a + b)) (at level 50, left associativity).

(** [src/com32/libutil/sha256crypt.c:22-28 struct sha256_ctx] *)
Record ctx := Ctx { H : words8; total0 : Z; total1 : Z; buflen : Z; buffer : list Z }.

(** A word is read, and stored, with its bytes turned round.
    [src/com32/libutil/sha256crypt.c:30-35 SWAP] *)
Definition be_value (bs : list Z) : Z := fold_left (fun v b => v * 256 + b) bs 0.

(** [src/com32/libutil/sha256crypt.c:203-205 sha256_finish_ctx] *)
Definition be_bytes (v : Z) : list Z :=
  map (fun k => v / 256 ^ Z.of_nat k mod 256) (rev (seq 0 (Z.to_nat word_bytes))).

(** [src/com32/libutil/sha256crypt.c:108-108 CYCLIC] *)
Definition CYCLIC (w s : Z) : Z := Z.lor (Z.shiftr w s) (uW (Z.shiftl w (word_bits - s))).

(** [src/com32/libutil/sha256crypt.c:97-97 Ch] *)
Definition Ch (x y z : Z) : Z := Z.lxor (Z.land x y) (Z.land (uW (Z.lnot x)) z).

(** [src/com32/libutil/sha256crypt.c:98-98 Maj] *)
Definition Maj (x y z : Z) : Z := Z.lxor (Z.lxor (Z.land x y) (Z.land x z)) (Z.land y z).

(** [src/com32/libutil/sha256crypt.c:99-100 S0, S1] *)
Definition sum3 (n : Z * Z * Z) (x : Z) : Z :=
  let '(i, j, k) := n in Z.lxor (Z.lxor (CYCLIC x i) (CYCLIC x j)) (CYCLIC x k).

(** [src/com32/libutil/sha256crypt.c:101-102 R0, R1] *)
Definition sum2 (n : Z * Z * Z) (x : Z) : Z :=
  let '(i, j, k) := n in Z.lxor (Z.lxor (CYCLIC x i) (CYCLIC x j)) (Z.shiftr x k).

(** One word more of the array [W], which is filled from its begin.
    [src/com32/libutil/sha256crypt.c:115-116 sha256_process_block] *)
Definition next_W (W : list Z) (t : nat) : list Z :=
  let w k := nth (t - k) W 0 in
  W ++ [sum2 (nR1 p) (w 2%nat) ⊕ w 7%nat ⊕ sum2 (nR0 p) (w 15%nat) ⊕ w 16%nat].

(** [src/com32/libutil/sha256crypt.c:110-116 sha256_process_block] *)
Definition fill_W (block : list Z) : list Z :=
  let load t := be_value (slice (t * Z.to_nat word_bytes) (Z.to_nat word_bytes) block) in
  fold_left next_W (seq 16 (length (K p) - 16)) (map load (seq 0 16)).

(** [src/com32/libutil/sha256crypt.c:120-130 sha256_process_block] *)
Definition step (W : list Z) (s : words8) (t : nat) : words8 :=
  let '(a, b, c, d, e, f, g, h) := s in
  let T1 := h ⊕ sum3 (nS1 p) e ⊕ Ch e f g ⊕ nth t (K p) 0 ⊕ nth t W 0 in
  let T2 := sum3 (nS0 p) a ⊕ Maj a b c in
  (T1 ⊕ T2, a, b, c, d ⊕ T1, e, f, g).

(** [src/com32/libutil/sha256crypt.c:133-140 sha256_process_block] *)
Definition add_words (s t : words8) : words8 :=
  let '(a, b, c, d, e, f, g, h) := s in let '(a', b', c', d', e', f', g', h') := t in
  (a' ⊕ a, b' ⊕ b, c' ⊕ c, d' ⊕ d, e' ⊕ e, f' ⊕ f, g' ⊕ g, h' ⊕ h).

(** [src/com32/libutil/sha256crypt.c:87-145 sha256_process_block] *)
Definition block_step (s : words8) (block : list Z) : words8 :=
  add_words s (fold_left (step (fill_W block)) (seq 0 (length (K p))) s).

(** The loop over the words; [data] is what is left of the buffer.
    [src/com32/libutil/sha256crypt.c:87-145 sha256_process_block] *)
Fixpoint blocks_loop (fuel : nat) (nwords : Z) (data : list Z) (s : words8) : option words8 :=
  if 0 <? nwords then
    match fuel with
    | O => None
    | S fuel =>
        let* block := peek data 0 (Z.to_nat B) in
        blocks_loop fuel (u32 (nwords - 16)) (drop (Z.to_nat B) data) (block_step s block)
    end
  else Some s.

(** [src/com32/libutil/sha256crypt.c:63-156 sha256_process_block] *)
Definition process_block (data : list Z) (len : Z) (c : ctx) : option ctx :=
  let nwords := len / word_bytes in
  let total0 := total0 c ⊕ len in
  let total1 := if total0 <? len then total1 c ⊕ 1 else total1 c in
  let* s := blocks_loop (Z.to_nat len) nwords data (H c) in
  Some (Ctx s total0 total1 (buflen c) (buffer c)).

Definition words_of (l : list Z) : words8 :=
  let h k := nth k l 0 in
  (h 0%nat, h 1%nat, h 2%nat, h 3%nat, h 4%nat, h 5%nat, h 6%nat, h 7%nat).

(** What is in a new buffer is arbitrary.
    [src/com32/libutil/sha256crypt.c:160-173 sha256_init_ctx] *)
Definition init_ctx (buffer : list Z) : ctx := Ctx (words_of (H_init p)) 0 0 0 buffer.

Definition set_buffer (c : ctx) (n : Z) (buffer : list Z) : ctx := Ctx (H c) (total0 c) (total1 c) n buffer.

(** [src/com32/libutil/sha256crypt.c:38-39 fillbuf] *)
Definition fillbuf : list Z := 0x80 :: replicate (Z.to_nat B - 1) 0.

(** The bytes of the digest, and the context.
    [src/com32/libutil/sha256crypt.c:180-208 sha256_finish_ctx] *)
Definition finish_ctx (c : ctx) : option (list Z * ctx) :=
  let bytes := buflen c in
  let t0 := total0 c ⊕ bytes in
  let t1 := if t0 <? bytes then total1 c ⊕ 1 else total1 c in
  let lenpos := B - 2 * word_bytes in
  let pad := if lenpos <=? bytes then B + lenpos - bytes else lenpos - bytes in
  let* src := peek fillbuf 0 (Z.to_nat pad) in
  let* b := poke (buffer c) (Z.to_nat bytes) src in
  let* b := poke b (Z.to_nat (bytes + pad + word_bytes)) (be_bytes (uW (Z.shiftl t0 3))) in
  let* b := poke b (Z.to_nat (bytes + pad)) (be_bytes (Z.lor (uW (Z.shiftl t1 3)) (Z.shiftr t0 (word_bits - 3)))) in
  let* c := process_block b (bytes + pad + 2 * word_bytes) (Ctx (H c) t0 t1 (buflen c) b) in
  let '(h0, h1, h2, h3, h4, h5, h6, h7) := H c in
  Some (concat (map be_bytes [h0; h1; h2; h3; h4; h5; h6; h7]), c).

(** The whole blocks of a buffer whose bytes end at [top]; the rest is moved to its begin.
    [src/com32/libutil/sha256crypt.c:223-229 sha256_process_bytes] *)
Definition spill (top : Z) (c : ctx) : option ctx :=
  let* c := process_block (buffer c) (Z.land (buflen c) (Z.lnot (B - 1))) c in
  let n := Z.land (buflen c) (B - 1) in
  let* src := peek (buffer c) (Z.to_nat (Z.land top (Z.lnot (B - 1)))) (Z.to_nat n) in
  let* b := poke (buffer c) 0 src in
  Some (set_buffer c n b).

(** What there is in the buffer is filled up first.
    [src/com32/libutil/sha256crypt.c:215-234 sha256_process_bytes] *)
Definition fill_buffer (data : list Z) (c : ctx) : option (list Z * ctx) :=
  if negb (buflen c =? 0) then
    let len := Z.of_nat (length data) in
    let left := buflen c in
    let add := if len <? 2 * B - left then len else 2 * B - left in
    let* src := peek data 0 (Z.to_nat add) in
    let* b := poke (buffer c) (Z.to_nat left) src in
    let c := set_buffer c (left + add) b in
    let* c := if B <? buflen c then spill (left + add) c else Some c in
    Some (drop (Z.to_nat add) data, c)
  else Some (data, c).

(** The loop over blocks that are copied to the buffer first.
    [src/com32/libutil/sha256crypt.c:244-248 sha256_process_bytes] *)
Fixpoint copy_loop (fuel : nat) (data : list Z) (c : ctx) : option (list Z * ctx) :=
  if B <? Z.of_nat (length data) then
    match fuel with
    | O => None
    | S fuel =>
        let* src := peek data 0 (Z.to_nat B) in
        let* b := poke (buffer c) 0 src in
        let* c := process_block b B (set_buffer c (buflen c) b) in
        copy_loop fuel (drop (Z.to_nat B) data) c
    end
  else Some (data, c).

(** [src/com32/libutil/sha256crypt.c:237-254 sha256_process_bytes] *)
Definition whole_blocks (unaligned : bool) (data : list Z) (c : ctx) : option (list Z * ctx) :=
  let len := Z.of_nat (length data) in
  if B <=? len then
    if unaligned then copy_loop (length data) data c
    else
      let n := Z.land len (Z.lnot (B - 1)) in
      let* c := process_block data n c in
      Some (drop (Z.to_nat n) data, c)
  else Some (data, c).

(** [src/com32/libutil/sha256crypt.c:257-268 sha256_process_bytes] *)
Definition keep_rest (data : list Z) (c : ctx) : option ctx :=
  let len := Z.of_nat (length data) in
  if 0 <? len then
    let left := buflen c in
    let* b := poke (buffer c) (Z.to_nat left) data in
    let left := left + len in
    let c := set_buffer c (buflen c) b in
    if B <=? left then
      let* c := process_block (buffer c) B c in
      let left := left - B in
      let* src := peek (buffer c) (Z.to_nat B) (Z.to_nat left) in
      let* b := poke (buffer c) 0 src in
      Some (set_buffer c left b)
    else Some (set_buffer c left (buffer c))
  else Some c.

(** [place]: the address of the data, which [UNALIGNED_P] asks for once the buffer is
    filled.
    [src/com32/libutil/sha256crypt.c:210-269 sha256_process_bytes] *)
Definition process_bytes (place : Z) (data : list Z) (c : ctx) : option ctx :=
  let* (rest, c) := fill_buffer data c in
  let place := place + Z.of_nat (length data - length rest) in
  let* (rest, c) := whole_blocks (negb (place mod word_bytes =? 0)) rest c in
  keep_rest rest c.

(** The pieces of a message, each with its address. *)
Fixpoint process_pieces (pieces : list (Z * list Z)) (c : ctx) : option ctx :=
  match pieces with
  | [] => Some c
  | (a, d) :: pieces => let* c := process_bytes a d c in process_pieces pieces c
  end.
Definition sum_pieces (buffer : list Z) (pieces : list (Z * list Z)) : option (list Z) :=
  let* c := process_pieces pieces (init_ctx buffer) in
  let* (sum, _) := finish_ctx c in Some sum.

(** ** The algorithm of FIPS 180-2 *)

(** The constants are the fractions of the cube roots of the first primes, the first
    state those of the square roots of the first eight. *)
Definition first_primes : list Z :=
  filter (fun n : Z => forallb (fun d => (n <=? d) || negb (n mod d =? 0)) (seqZ 2 19)) (seqZ 2 408).
Fixpoint cube_root (bits : nat) (n r : Z) : Z :=
  match bits with
  | O => r
  | S k => let r' := r + 2 ^ Z.of_nat k in cube_root k n (if r' * r' * r' <=? n then r' else r)
  end.
Definition sha2_K (t : nat) : Z :=
  uW (cube_root (Z.to_nat word_bits + 4) (nth t first_primes 0 * 2 ^ (3 * word_bits)) 0).
Definition sha2_iv : words8 := words_of (map (fun q => uW (Z.sqrt (q * 2 ^ (2 * word_bits)))) (take 8 first_primes)).

Definition sha2_word (block : list Z) (t : nat) (W : list Z) : Z :=
  let w k := nth (t - k) W 0 in
  if (t <? 16)%nat then be_value (slice (t * Z.to_nat word_bytes) (Z.to_nat word_bytes) block)
  else uW (sum2 (nR1 p) (w 2%nat) + w 7%nat + sum2 (nR0 p) (w 15%nat) + w 16%nat).

Definition sha2_step (W : list Z) (s : words8) (t : nat) : words8 :=
  let '(a, b, c, d, e, f, g, h) := s in
  let T1 := h + sum3 (nS1 p) e + Ch e f g + sha2_K t + nth t W 0 in
  let T2 := sum3 (nS0 p) a + Maj a b c in
  (uW (T1 + T2), a, b, c, uW (d + T1), e, f, g).

Definition sha2_compress (s : words8) (block : list Z) : words8 :=
  let n := length (K p) in
  add_words s (fold_left (sha2_step (word_schedule (sha2_word block) n)) (seq 0 n) s).

Definition sha2_hash (m : list Z) : list Z :=
  let bits := 8 * Z.of_nat (length m) in
  let len := be_bytes (uW (bits / 2 ^ word_bits)) ++ be_bytes (uW bits) in
  let '(h0, h1, h2, h3, h4, h5, h6, h7) :=
    digest (Z.to_nat B) sha2_compress sha2_iv (m ++ padding (Z.to_nat B) (length m) len) in
  concat (map be_bytes [h0; h1; h2; h3; h4; h5; h6; h7]).
End sha2.

(** Vectors of the sources, through the code and by the definition. *)
Definition abc_256 : list Z :=
  [0xba; 0x78; 0x16; 0xbf; 0x8f; 0x01; 0xcf; 0xea; 0x41; 0x41; 0x40; 0xde; 0x5d; 0xae; 0x22; 0x23;
   0xb0; 0x03; 0x61; 0xa3; 0x96; 0x17; 0x7a; 0x9c; 0xb4; 0x10; 0xff; 0x61; 0xf2; 0x00; 0x15; 0xad].
Example sha256_abc :
  sha2_hash sha256 [97; 98; 99] = abc_256 /\
  sum_pieces sha256 (replicate 128 7) [(1, [97]); (4, [98; 99])] = Some abc_256.
Proof. split; vm_compute; reflexivity. Qed.

Definition abc_512 : list Z :=
  [0xdd; 0xaf; 0x35; 0xa1; 0x93; 0x61; 0x7a; 0xba; 0xcc; 0x41; 0x73; 0x49; 0xae; 0x20; 0x41; 0x31;
   0x12; 0xe6; 0xfa; 0x4e; 0x89; 0xa9; 0x7e; 0xa2; 0x0a; 0x9e; 0xee; 0xe6; 0x4b; 0x55; 0xd3; 0x9a;
   0x21; 0x92; 0x99; 0x2a; 0x27; 0x4f; 0xc1; 0xa8; 0x36; 0xba; 0x3c; 0x23; 0xa3; 0xfe; 0xeb; 0xbd;
   0x45; 0x4d; 0x44; 0x23; 0x64; 0x3c; 0xe8; 0x0e; 0x2a; 0x9a; 0xc9; 0x4f; 0xa5; 0x4c; 0xa4; 0x9f].
Example sha512_abc :
  sha2_hash sha512 [97; 98; 99] = abc_512 /\
  sum_pieces sha512 (replicate 256 7) [(1, [97]); (4, [98; 99])] = Some abc_512.
Proof. split; vm_compute; reflexivity. Qed.

(** ** The transformation *)

(** The numbers are those of the standard. *)
Record standard (p : sha2) : Prop := {
  std_lg : lg p = 6 \/ lg p = 7;
  std_rounds : (16 <= length (K p))%nat;
  std_K : forall t, (t < length (K p))%nat -> nth t (K p) 0 = sha2_K p t;
  std_iv : words_of (H_init p) = sha2_iv p
}.

Lemma sha2_table_is p : forallb (fun t => nth t (K p) 0 =? sha2_K p t) (seq 0 (length (K p))) = true ->
  forall t, (t < length (K p))%nat -> nth t (K p) 0 = sha2_K p t.
Proof. intros E t Ht; apply Z.eqb_eq; apply (proj1 (forallb_forall _ _) E), in_seq; lia. Qed.

(** All constants of the two files are the roots of the primes. *)
Lemma sha256_standard : standard sha256.
Proof. split; [now left|cbn; lia|apply sha2_table_is; vm_compute; reflexivity|vm_compute; reflexivity]. Qed.
Lemma sha512_standard : standard sha512.
Proof. split; [now right|cbn; lia|apply sha2_table_is; vm_compute; reflexivity|vm_compute; reflexivity]. Qed.

Section correct.
Context (p : sha2) (Hp : standard p).
Notation B := (2 ^ lg p).
Notation word_bytes := (B / 16).
Notation word_bits := (B / 2).
Notation b := (Z.to_nat B).
Notation iv := (words_of (H_init p)).
Notation uW := (uW p).

Lemma sha2_sizes : (B = 64 /\ word_bytes = 4 /\ word_bits = 32) \/ (B = 128 /\ word_bytes = 8 /\ word_bits = 64).
Proof. destruct (std_lg p Hp) as [->| ->]; [left|right]; repeat split; reflexivity. Qed.

Lemma sha2_block_pos : (0 < b)%nat.
Proof. destruct sha2_sizes as [[-> _]|[-> _]]; lia. Qed.

Lemma sha2_uW_l x y : uW (uW x + y) = uW (x + y).
Proof. apply Zplus_mod_idemp_l. Qed.
Lemma sha2_uW_r x y : uW (x + uW y) = uW (x + y).
Proof. apply Zplus_mod_idemp_r. Qed.

Lemma sha2_uW_sum4 x y z t : uW (uW (uW (x + y) + z) + t) = uW (x + y + z + t).
Proof. now rewrite (sha2_uW_l (x + y)), sha2_uW_l. Qed.
Lemma sha2_uW_sum5 x y z t u : uW (uW (uW (uW (x + y) + z) + t) + u) = uW (x + y + z + t + u).
Proof. now rewrite (sha2_uW_sum4 x y z t), sha2_uW_l. Qed.

Lemma sha2_load_schedule block k : (k <= 16)%nat ->
  word_schedule (sha2_word p block) k =
  map (fun t => be_value (slice (t * Z.to_nat word_bytes) (Z.to_nat word_bytes) block)) (seq 0 k).
Proof.
  induction k as [|k IH]; intros Hk; [done|]; rewrite seq_S, map_app; cbn [word_schedule map Nat.add].
  rewrite IH by lia; unfold sha2_word at 1; now rewrite (proj2 (Nat.ltb_lt _ _)) by lia.
Qed.

Lemma sha2_next_schedule block n : (16 <= n)%nat ->
  next_W p (word_schedule (sha2_word p block) n) n = word_schedule (sha2_word p block) (S n).
Proof.
  intros Hn; cbn [word_schedule]; unfold next_W; do 2 f_equal; unfold sha2_word at 5.
  rewrite (proj2 (Nat.ltb_ge _ _)) by done; apply sha2_uW_sum4.
Qed.

Lemma sha2_fill_W_is block : fill_W p block = word_schedule (sha2_word p block) (length (K p)).
Proof.
  unfold fill_W; rewrite <- sha2_load_schedule by done.
  assert (E : forall k, fold_left (next_W p) (seq 16 k) (word_schedule (sha2_word p block) 16) = word_schedule (sha2_word p block) (16 + k)).
  { induction k as [|k IH]; [done|]; rewrite seq_S, fold_left_app, IH; cbn [fold_left].
    rewrite sha2_next_schedule by lia; f_equal; lia. }
  rewrite E; f_equal; pose proof (std_rounds p Hp); lia.
Qed.

Lemma sha2_step_is W s t : (t < length (K p))%nat -> step p W s t = sha2_step p W s t.
Proof.
  intros Ht; unfold step, sha2_step; destruct s as [[[[[[[x a] c] d] e] f] g] h]; rewrite std_K by done.
  cbv zeta; now rewrite (sha2_uW_sum5 h), sha2_uW_l, !sha2_uW_r.
Qed.

Lemma sha2_steps_are W s n : (n <= length (K p))%nat -> fold_left (step p W) (seq 0 n) s = fold_left (sha2_step p W) (seq 0 n) s.
Proof.
  induction n as [|n IH]; intros Hn; [done|]; rewrite seq_S, !fold_left_app, IH by lia; cbn [fold_left Nat.add].
  apply sha2_step_is; lia.
Qed.

Lemma sha2_block_step_is s block : block_step p s block = sha2_compress p s block.
Proof. unfold block_step, sha2_compress; now rewrite sha2_fill_W_is, sha2_steps_are. Qed.

(** ** Blocks *)

Notation hash := (digest b (block_step p)).

Lemma sha2_blocks_loop_spec k : forall fuel data s,
  (k <= fuel)%nat -> (k * b <= length data)%nat -> 16 * Z.of_nat k < 4294967296 ->
  blocks_loop p fuel (16 * Z.of_nat k) data s = Some (absorb b (block_step p) k s data).
Proof.
  induction k as [|k IH]; intros fuel data s Hf Hd Hk; cbn [absorb].
  - destruct fuel; reflexivity.
  - destruct fuel as [|fuel]; [lia|]; cbn [blocks_loop]; rewrite (proj2 (Z.ltb_lt _ _)) by lia.
    rewrite peek_ok by lia; cbn [mbind option_bind]; unfold slice; rewrite drop_0.
    replace (16 * Z.of_nat (S k) - 16) with (16 * Z.of_nat k) by lia; rewrite u32_small by lia.
    apply IH; [lia|rewrite length_drop; lia|lia].
Qed.

(** A context that has absorbed [done], whole blocks. *)
Record absorbed (done : list Z) (c : ctx) : Prop := {
  ab_whole : (length done mod b = 0)%nat;
  ab_H : H c = hash iv done;
  ab_total0 : total0 c = uW (Z.of_nat (length done));
  ab_total1 : total1 c = uW (Z.of_nat (length done) / 2 ^ word_bits);
  ab_buffer : length (buffer c) = (2 * b)%nat
}.

(** The count in two words. *)
Lemma sha2_total_added n len :
  0 <= n -> 0 <= len < 4294967296 ->
  let t := uW (uW n + len) in
  t = uW (n + len) /\
  (if t <? len then uW (uW (n / 2 ^ word_bits) + 1) else uW (n / 2 ^ word_bits)) = uW ((n + len) / 2 ^ word_bits).
Proof.
  intros Hn Hl t; subst t; rewrite !sha2_uW_l; split; [done|]; unfold Sha2.uW; destruct sha2_sizes as [(_ & _ & ->)|(_ & _ & ->)].
  - change (2 ^ 32) with 4294967296; destruct (Z.ltb_spec ((n + len) mod 4294967296) len); f_equal; Z.div_mod_to_equations; lia.
  - change (2 ^ 64) with 18446744073709551616; destruct (Z.ltb_spec ((n + len) mod 18446744073709551616) len); f_equal; Z.div_mod_to_equations; lia.
Qed.

Lemma sha2_absorb_whole done data k :
  (length done mod b = 0)%nat -> (k * b <= length data)%nat ->
  absorb b (block_step p) k (hash iv done) data = hash iv (done ++ take (k * b) data).
Proof.
  pose proof sha2_block_pos as Hb; intros Hw Hd; rewrite digest_app by done.
  assert (E : left_over b done = []) by (apply nil_length_inv; rewrite left_over_length; auto); rewrite E; cbn [app].
  unfold digest at 2; rewrite length_take, Nat.min_l, Nat.div_mul by lia.
  rewrite <- (take_drop (k * b) data) at 1; rewrite absorb_prefix; [done|done|rewrite length_take; lia].
Qed.

Lemma sha2_process_block_absorbed done c data k :
  absorbed done c -> (k * b <= length data)%nat -> Z.of_nat (k * b) < 4294967296 ->
  exists c', process_block p data (Z.of_nat (k * b)) c = Some c' /\
    absorbed (done ++ take (k * b) data) c' /\ buffer c' = buffer c /\ buflen c' = buflen c.
Proof.
  pose proof sha2_block_pos as Hb; intros [Hw Hh H0 H1 Hbuf] Hd Hk; unfold process_block; rewrite H0, H1.
  destruct (sha2_total_added (Z.of_nat (length done)) (Z.of_nat (k * b)) ltac:(lia) ltac:(lia)) as [E0 E1]; rewrite E1, E0.
  assert (En : Z.of_nat (k * b) / word_bytes = 16 * Z.of_nat k).
  { symmetry; destruct sha2_sizes as [(-> & -> & _)|(-> & -> & _)]; apply Z.div_unique_exact; lia. }
  rewrite En, (sha2_blocks_loop_spec k) by (destruct sha2_sizes as [(E & _)|(E & _)]; rewrite E in *; lia).
  cbn [mbind option_bind]; eexists; split; [reflexivity|]; split; [|done].
  assert (El : length (done ++ take (k * b) data) = (length done + k * b)%nat) by (rewrite length_app, length_take; lia).
  split; cbn [H total0 total1 buffer buflen]; rewrite ?El, ?Nat2Z.inj_add; auto.
  - now rewrite Nat.Div0.mod_add.
  - rewrite Hh; now apply sha2_absorb_whole.
Qed.

(** ** Pieces *)

(** A context that has been given [m]: what is not absorbed is in the buffer, at most
    one block. *)
Definition holds (m : list Z) (c : ctx) : Prop :=
  exists done rest, m = done ++ rest /\ absorbed done c /\ buflen c = Z.of_nat (length rest) /\
    (length rest <= b)%nat /\ take (length rest) (buffer c) = rest.

Lemma sha2_init_holds buffer : length buffer = (2 * b)%nat -> holds [] (init_ctx p buffer).
Proof.
  pose proof sha2_block_pos; intros Hb; exists [], []; split; [done|]; split; [|cbn; auto with lia].
  assert (E : forall x, 0 = uW (0 / x)) by (intros x; now destruct x).
  split; [now apply Nat.Div0.mod_0_l|symmetry; apply digest_short; cbn; lia|exact (E 1)|exact (E (2 ^ word_bits))|exact Hb].
Qed.

Lemma sha2_absorbed_buffer done c n buf : absorbed done c -> length buf = (2 * b)%nat -> absorbed done (set_buffer c n buf).
Proof. intros [Hw Hh H0 H1 Hb] Hl; split; auto. Qed.

Lemma sha2_low_part x : 0 <= x -> Z.land x (B - 1) = x mod B.
Proof.
  intros Hx; pose proof (std_lg p Hp); replace (B - 1) with (Z.ones (lg p)) by (rewrite Z.ones_equiv; lia).
  apply Z.land_ones; lia.
Qed.

Lemma sha2_high_part x : 0 <= x -> Z.land x (Z.lnot (B - 1)) = Z.of_nat (Z.to_nat (x / B) * b).
Proof.
  intros Hx; pose proof (std_lg p Hp); replace (B - 1) with (Z.ones (lg p)) by (rewrite Z.ones_equiv; lia).
  rewrite <- Z.ldiff_land, Z.ldiff_ones_r, Z.shiftl_mul_pow2, Z.shiftr_div_pow2 by lia.
  assert (0 < B) by (destruct sha2_sizes as [(-> & _)|(-> & _)]; lia); pose proof (Z.div_pos x B); lia.
Qed.

(** A number of bytes in whole blocks and a rest. *)
Lemma sha2_blocks_of n : let k := Z.to_nat (Z.of_nat n / B) in (k * b + n mod b = n)%nat /\ (n mod b < b)%nat /\ (k * b <= n)%nat.
Proof.
  pose proof sha2_block_pos as Hb; intros k; unfold k; replace B with (Z.of_nat b) by lia; rewrite <- Nat2Z.inj_div, !Nat2Z.id.
  pose proof (Nat.div_mod n b); pose proof (Nat.mod_upper_bound n b); lia.
Qed.

Lemma sha2_two_blocks_small : Z.of_nat (2 * b) < 4294967296.
Proof. destruct sha2_sizes as [(-> & _)|(-> & _)]; lia. Qed.

(** What is in the buffer beyond a block is absorbed, the rest is moved to its begin. *)
Lemma sha2_spill_holds done c all :
  absorbed done c -> buflen c = Z.of_nat (length all) -> (b < length all <= 2 * b)%nat -> take (length all) (buffer c) = all ->
  exists c', spill p (Z.of_nat (length all)) c = Some c' /\
    holds (done ++ all) c' /\ buflen c' = Z.of_nat (length all mod b).
Proof.
  pose proof sha2_block_pos as Hb; pose proof sha2_two_blocks_small as Hsmall; intros Ha Hlen Hall Hpre; pose proof (ab_buffer _ _ Ha) as Hbl; unfold spill.
  destruct (sha2_blocks_of (length all)) as (Hk & Hm & Hkn); rewrite Hlen, sha2_high_part by lia; set (k := Z.to_nat (Z.of_nat (length all) / B)) in *.
  destruct (sha2_process_block_absorbed done c (buffer c) k Ha ltac:(lia) ltac:(lia)) as (c1 & -> & Ha1 & Hb1 & Hl1); cbn [mbind option_bind].
  rewrite Hb1, Hl1, Hlen, sha2_low_part by lia.
  replace (Z.of_nat (length all) mod B) with (Z.of_nat (length all mod b)) by (rewrite Nat2Z.inj_mod; f_equal; lia).
  rewrite !Nat2Z.id, peek_ok by lia; cbn [mbind option_bind]; unfold slice; set (tl := take _ (drop _ (buffer c))).
  assert (Htl : tl = drop (k * b) all).
  { unfold tl; rewrite <- Hpre at 2; rewrite skipn_firstn_comm; f_equal; lia. }
  assert (Hltl : length tl = (length all mod b)%nat) by (rewrite Htl, length_drop; lia).
  rewrite poke_ok by lia; cbn [mbind option_bind]; eexists; split; [reflexivity|]; split; [|reflexivity].
  exists (done ++ take (k * b) all), tl; split; [|split; [|split; [|split]]].
  - rewrite <- !app_assoc; f_equal; rewrite Htl, take_drop; reflexivity.
  - apply sha2_absorbed_buffer; [|now rewrite length_blit].
    rewrite <- Hpre, take_take, Nat.min_l by lia; exact Ha1.
  - cbn [buflen set_buffer]; now rewrite Hltl.
  - lia.
  - apply (take_blit_app 0); lia.
Qed.

Lemma sha2_fill_buffer_holds m c d :
  holds m c -> Z.of_nat (length d) < 4294967296 ->
  exists d1 d2 c', d = d1 ++ d2 /\ fill_buffer p d c = Some (d2, c') /\ holds (m ++ d1) c' /\ (d2 = [] \/ buflen c' = 0).
Proof.
  pose proof sha2_block_pos as Hb; intros Hh Hd; unfold fill_buffer; destruct (Z.eqb_spec (buflen c) 0) as [E0|E0]; cbn [negb].
  { exists [], d, c; rewrite app_nil_r; auto. }
  destruct Hh as (done & rest & -> & Ha & Hlen & Hle & Hrest); pose proof (ab_buffer _ _ Ha) as Hbuf.
  set (add := if _ <? _ then _ else _); set (n := Z.to_nat add).
  assert (Hadd : add = Z.of_nat n /\ (n <= length d)%nat /\ (length rest + n <= 2 * b)%nat /\
    (n = length d \/ length rest + n = 2 * b)%nat).
  { unfold n, add; rewrite Hlen; destruct (Z.ltb_spec (Z.of_nat (length d)) (2 * B - Z.of_nat (length rest))); lia. }
  clearbody n; destruct Hadd as (-> & Hn & Hfit & Hend); rewrite peek_ok by lia; unfold slice; rewrite drop_0, Hlen, !Nat2Z.id.
  cbn [mbind option_bind]; rewrite poke_ok by (rewrite length_take; lia); cbn [mbind option_bind].
  set (buf := blit _ _ _); set (all := rest ++ take n d).
  assert (Hall : length all = (length rest + n)%nat) by (unfold all; rewrite length_app, length_take; lia).
  assert (Hbl : length buf = (2 * b)%nat) by (unfold buf; now rewrite length_blit).
  assert (Hpre : take (length all) buf = all).
  { unfold all; rewrite length_app; unfold buf; rewrite take_blit_app by (rewrite length_take; lia); now rewrite Hrest. }
  rewrite <- Nat2Z.inj_add, <- Hall; set (c1 := set_buffer c _ buf).
  assert (Ha' : absorbed done c1) by now apply sha2_absorbed_buffer.
  assert (Eall : (done ++ rest) ++ take n d = done ++ all) by now rewrite <- app_assoc.
  exists (take n d), (drop n d); change (buflen c1) with (Z.of_nat (length all)).
  destruct (Z.ltb_spec B (Z.of_nat (length all))) as [Hbig|Hlow].
  - destruct (sha2_spill_holds done c1 all Ha' eq_refl ltac:(lia) Hpre) as (c2 & E & Hh2 & Hl2).
    rewrite E; cbn [mbind option_bind]; exists c2; rewrite take_drop, Eall.
    split; [done|split; [done|split; [done|]]].
    destruct Hend as [->|Hend]; [left; now rewrite drop_all|right]; rewrite Hl2, Hall, Hend; now rewrite Nat.Div0.mod_mul.
  - cbn [mbind option_bind]; exists c1; rewrite take_drop, Eall; split; [done|split; [done|split]].
    + exists done, all; split; [done|split; [done|split; [done|split; [lia|exact Hpre]]]].
    + destruct Hend as [->|Hend]; [left; now rewrite drop_all|lia].
Qed.

(** With nothing in the buffer, whole blocks are absorbed. *)
Lemma sha2_copy_loop_holds : forall fuel d done c,
  absorbed done c -> buflen c = 0 -> (length d <= fuel)%nat ->
  exists d1 d2 c', d = d1 ++ d2 /\ copy_loop p fuel d c = Some (d2, c') /\ absorbed (done ++ d1) c' /\ buflen c' = 0 /\
    (length d2 <= b)%nat.
Proof.
  pose proof sha2_block_pos as Hb; pose proof sha2_two_blocks_small as Hsmall; induction fuel as [|fuel IH]; intros d done c Ha H0 Hf; cbn [copy_loop];
    destruct (Z.ltb_spec B (Z.of_nat (length d))) as [Hlt|Hge]; try lia.
  - exists [], d, c; rewrite app_nil_r; split; [done|split; [done|split; [done|split; [done|lia]]]].
  - pose proof (ab_buffer _ _ Ha) as Hbuf; rewrite peek_ok by lia; unfold slice; rewrite drop_0; cbn [mbind option_bind].
    rewrite poke_ok by (rewrite length_take; lia); cbn [mbind option_bind]; set (buf := blit _ _ _).
    assert (Hbl : length buf = (2 * b)%nat) by (unfold buf; now rewrite length_blit).
    destruct (sha2_process_block_absorbed done (set_buffer c (buflen c) buf) buf 1) as (c1 & E & Ha1 & Hb1 & Hl1);
      [now apply sha2_absorbed_buffer|lia|lia|].
    replace (Z.of_nat (1 * b)) with B in E by lia; rewrite E; cbn [mbind option_bind].
    assert (Et : take (1 * b) buf = take b d).
    { rewrite Nat.mul_1_l; transitivity (take (0 + length (take b d)) buf);
        [f_equal; rewrite length_take; lia|apply (take_blit_app 0); rewrite length_take; lia]. }
    rewrite Et in Ha1.
    destruct (IH (drop b d) _ c1 Ha1) as (d1 & d2 & c' & Ed & E2 & Ha2 & H2 & Hl2);
      [now rewrite Hl1|rewrite length_drop; lia|].
    exists (take b d ++ d1), d2, c'; rewrite <- app_assoc, <- Ed, take_drop, E2; rewrite <- app_assoc in Ha2; auto.
  - exists [], d, c; rewrite app_nil_r; split; [done|split; [done|split; [done|split; [done|lia]]]].
Qed.

Lemma sha2_holds_empty m c : holds m c -> buflen c = 0 -> absorbed m c.
Proof.
  intros (done & rest & -> & Ha & Hl & _ & _) H0; destruct rest; [now rewrite app_nil_r|cbn in Hl; lia].
Qed.

Lemma sha2_empty_holds m c : absorbed m c -> buflen c = 0 -> holds m c.
Proof. intros Ha H0; exists m, []; rewrite app_nil_r; split; [done|split; [done|split; [done|split; [cbn; lia|done]]]]. Qed.

Lemma sha2_whole_blocks_holds u m c d :
  holds m c -> Z.of_nat (length d) < 4294967296 -> (d = [] \/ buflen c = 0) ->
  exists d1 d2 c', d = d1 ++ d2 /\ whole_blocks p u d c = Some (d2, c') /\ holds (m ++ d1) c' /\
    (d2 = [] \/ buflen c' = 0) /\ (length d2 <= b)%nat.
Proof.
  pose proof sha2_block_pos as Hb; intros Hh Hd H0; unfold whole_blocks; destruct (Z.leb_spec B (Z.of_nat (length d))) as [Hle|Hgt].
  - destruct H0 as [->|H0]; [cbn in Hle; lia|]; pose proof (sha2_holds_empty m c Hh H0) as Ha; destruct u.
    + destruct (sha2_copy_loop_holds (length d) d m c Ha H0 ltac:(lia)) as (d1 & d2 & c' & Ed & -> & Ha1 & H1 & Hl).
      exists d1, d2, c'; split; [done|split; [done|split; [now apply sha2_empty_holds|auto]]].
    + rewrite sha2_high_part by lia; destruct (sha2_blocks_of (length d)) as (Hk & Hm & Hkn); set (k := Z.to_nat (Z.of_nat (length d) / B)) in *.
      destruct (sha2_process_block_absorbed m c d k Ha ltac:(lia) ltac:(lia)) as (c1 & -> & Ha1 & _ & Hl1); cbn [mbind option_bind].
      exists (take (k * b) d), (drop (k * b) d), c1; rewrite Nat2Z.id, take_drop.
      split; [done|split; [done|split; [apply sha2_empty_holds; [done|now rewrite Hl1]|]]].
      split; [right; now rewrite Hl1|rewrite length_drop; lia].
  - exists [], d, c; rewrite app_nil_r; split; [done|split; [done|split; [done|split; [done|lia]]]].
Qed.

Lemma sha2_keep_rest_holds m c d :
  holds m c -> (d = [] \/ buflen c = 0) -> (length d <= b)%nat ->
  exists c', keep_rest p d c = Some c' /\ holds (m ++ d) c'.
Proof.
  pose proof sha2_block_pos as Hb; pose proof sha2_two_blocks_small as Hsmall; intros Hh H0 Hd; unfold keep_rest.
  destruct (Z.ltb_spec 0 (Z.of_nat (length d))) as [Hlt|Hge].
  2: { destruct d; [|cbn in Hge; lia]; rewrite app_nil_r; eauto. }
  destruct H0 as [->|H0]; [cbn in Hlt; lia|]; pose proof (sha2_holds_empty m c Hh H0) as Ha; pose proof (ab_buffer _ _ Ha) as Hbuf.
  rewrite H0, Z.add_0_l; change (Z.to_nat 0) with 0%nat; rewrite poke_ok by lia; cbn [mbind option_bind]; set (buf := blit 0 d _).
  assert (Hbl : length buf = (2 * b)%nat) by (unfold buf; now rewrite length_blit).
  assert (Et : take (length d) buf = d) by (apply (take_blit_app 0); lia).
  assert (Ha' : forall n, absorbed m (set_buffer c n buf)) by (intros; now apply sha2_absorbed_buffer).
  cbn [buffer set_buffer]; destruct (Z.leb_spec B (Z.of_nat (length d))) as [Hfull|Hpart].
  - destruct (sha2_process_block_absorbed m _ buf 1 (Ha' 0) ltac:(lia) ltac:(lia)) as (c1 & E & Ha1 & Hb1 & Hl1).
    replace (Z.of_nat (1 * b)) with B in E by lia; rewrite E; cbn [mbind option_bind].
    replace (Z.of_nat (length d) - B) with 0 by lia; change (Z.to_nat 0) with 0%nat; rewrite Hb1; cbn [buffer set_buffer].
    rewrite peek_ok by lia; cbn [mbind option_bind]; rewrite poke_ok by (unfold slice; rewrite length_take; lia); cbn [mbind option_bind].
    eexists; split; [reflexivity|]; apply sha2_empty_holds; [|done]; apply sha2_absorbed_buffer; [|now rewrite length_blit].
    replace (1 * b)%nat with (length d) in Ha1 by lia; now rewrite Et in Ha1.
  - eexists; split; [reflexivity|]; exists m, d; split; [done|split; [apply sha2_absorbed_buffer; auto|split; [done|split; [lia|exact Et]]]].
Qed.

Lemma sha2_process_bytes_holds a m c d :
  holds m c -> Z.of_nat (length d) < 4294967296 -> exists c', process_bytes p a d c = Some c' /\ holds (m ++ d) c'.
Proof.
  intros Hh Hd; unfold process_bytes.
  destruct (sha2_fill_buffer_holds m c d Hh Hd) as (d1 & d2 & c1 & -> & -> & H1 & E1); cbn [mbind option_bind].
  rewrite length_app in Hd; set (u := negb _); destruct (sha2_whole_blocks_holds u _ c1 d2 H1 ltac:(lia) E1) as (d3 & d4 & c2 & -> & -> & H2 & E2 & Hl);
    cbn [mbind option_bind].
  destruct (sha2_keep_rest_holds _ c2 d4 H2 E2 Hl) as (c3 & -> & H3); rewrite !app_assoc; eauto.
Qed.

Lemma sha2_process_pieces_hold pieces : forall m c,
  holds m c -> Forall (fun q => Z.of_nat (length q.2) < 4294967296) pieces ->
  exists c', process_pieces p pieces c = Some c' /\ holds (m ++ concat (map snd pieces)) c'.
Proof.
  induction pieces as [|[a d] pieces IH]; intros m c Hh Hl; cbn [process_pieces map concat]; [rewrite app_nil_r; eauto|].
  inversion_clear Hl as [|? ? Hd Hl']; destruct (sha2_process_bytes_holds a m c d Hh Hd) as (c1 & -> & H1); cbn [mbind option_bind snd].
  rewrite app_assoc; auto.
Qed.

(** ** The end *)

Lemma sha2_length_be v : length (be_bytes p v) = Z.to_nat word_bytes.
Proof. unfold be_bytes; now rewrite length_map, length_rev, length_seq. Qed.

(** The count of bits, from the count of bytes in two words. *)
Lemma sha2_bit_count n : 0 <= n ->
  uW (Z.shiftl (uW n) 3) = uW (8 * n) /\
  Z.lor (uW (Z.shiftl (uW (n / 2 ^ word_bits)) 3)) (Z.shiftr (uW n) (word_bits - 3)) = uW (8 * n / 2 ^ word_bits).
Proof.
  intros Hn; rewrite Z.shiftl_mul_pow2 by lia; unfold Sha2.uW; split.
  { rewrite Zmult_mod_idemp_l; f_equal; lia. }
  rewrite Z.shiftl_mul_pow2, Z.shiftr_div_pow2 by (lia || destruct sha2_sizes as [(_ & _ & ->)|(_ & _ & ->)]; lia).
  assert (E : forall M, 0 < M -> (n / (8 * M)) mod (8 * M) * 2 ^ 3 mod (8 * M) = (n / (8 * M)) mod M * 2 ^ 3).
  { intros M HM; set (q := n / (8 * M)); change (2 ^ 3) with 8; rewrite Z.mul_comm, Z.mul_mod_distr_l, (Z.mul_comm (q mod M)) by lia.
    f_equal; symmetry; apply Znumtheory.Zmod_div_mod; [lia..|exists 8; lia]. }
  destruct sha2_sizes as [(_ & _ & ->)|(_ & _ & ->)].
  - change (2 ^ 32) with (8 * 536870912); rewrite E by lia; change (2 ^ (32 - 3)) with 536870912.
    rewrite lor_add by (try lia; change (2 ^ 3) with 8; Z.div_mod_to_equations; lia); change (2 ^ 3) with 8.
    Z.div_mod_to_equations; lia.
  - change (2 ^ 64) with (8 * 2305843009213693952); rewrite E by lia; change (2 ^ (64 - 3)) with 2305843009213693952.
    rewrite lor_add by (try lia; change (2 ^ 3) with 8; Z.div_mod_to_equations; lia); change (2 ^ 3) with 8.
    Z.div_mod_to_equations; lia.
Qed.

Lemma sha2_hash_of_state m len :
  let v := hash iv (m ++ padding b (length m) len) in
  len = be_bytes p (uW (8 * Z.of_nat (length m) / 2 ^ word_bits)) ++ be_bytes p (uW (8 * Z.of_nat (length m))) ->
  sha2_hash p m = (let '(h0, h1, h2, h3, h4, h5, h6, h7) := v in concat (map (be_bytes p) [h0; h1; h2; h3; h4; h5; h6; h7])).
Proof.
  intros v ->; unfold sha2_hash, v; rewrite <- (std_iv p Hp).
  now rewrite (digest_map b (block_step p) (sha2_compress p) (fun s => s) _ _ sha2_block_step_is).
Qed.

(** The padding of the code is that of the standard. *)
Lemma sha2_pad_is_padding n rest len :
  (n mod b = rest mod b)%nat -> (rest <= b)%nat -> length len = (2 * Z.to_nat word_bytes)%nat ->
  let lenpos := B - 2 * word_bytes in
  let pad := if lenpos <=? Z.of_nat rest then B + lenpos - Z.of_nat rest else lenpos - Z.of_nat rest in
  0 < pad <= B /\ take (Z.to_nat pad) (fillbuf p) ++ len = padding b n len /\
  exists k, (rest + Z.to_nat pad + length len = k * b)%nat /\ (k <= 2)%nat.
Proof.
  intros Hn Hr Hl lenpos pad.
  assert (Hz : Z.of_nat (n mod b) = Z.of_nat (rest mod b)) by now rewrite Hn.
  rewrite !Nat2Z.inj_mod in Hz.
  assert (Hp0 : 0 < pad <= B /\
    (- Z.of_nat (n + 1 + length len)) mod B = pad - 1 /\ exists k, (rest + Z.to_nat pad + length len = k * b)%nat /\ (k <= 2)%nat).
  { rewrite Hl; unfold pad; destruct (Z.leb_spec lenpos (Z.of_nat rest)) as [Hge|Hlt]; unfold lenpos in *; clear pad lenpos;
      destruct sha2_sizes as [(EB & Ew & _)|(EB & Ew & _)]; rewrite EB, Ew in *;
      (split; [lia|]; split;
        [rewrite Z2Nat.id in Hz by lia; Z.div_mod_to_equations; lia|]); [exists 2%nat|exists 2%nat|exists 1%nat|exists 1%nat]; lia. }
  destruct Hp0 as (Hp0 & Ez & Hk); split; [done|]; split; [|exact Hk].
  unfold fillbuf, padding; replace (Z.to_nat pad) with (S (Z.to_nat (pad - 1))) by lia; cbn [take app].
  rewrite take_replicate, Nat.min_l by lia; do 4 f_equal; rewrite <- Ez; do 2 f_equal; lia.
Qed.

Lemma sha2_finish_spec m c : holds m c -> exists c', finish_ctx p c = Some (sha2_hash p m, c') /\ length (buffer c') = (2 * b)%nat.
Proof.
  pose proof sha2_block_pos as Hb; pose proof sha2_two_blocks_small as Hsmall.
  intros (done & rest & -> & Ha & Hlen & Hle & Hrest); pose proof Ha as [Hw Hh H0 H1 Hbuf].
  unfold finish_ctx; rewrite H0, H1, Hlen.
  destruct (sha2_total_added (Z.of_nat (length done)) (Z.of_nat (length rest)) ltac:(lia) ltac:(lia)) as [-> ->].
  rewrite <- Nat2Z.inj_add, <- length_app; set (m := done ++ rest).
  destruct (sha2_bit_count (Z.of_nat (length m)) ltac:(lia)) as [E1 E2]; rewrite E1, E2.
  set (hi := be_bytes p (uW (8 * Z.of_nat (length m) / _))); set (lo := be_bytes p (uW (8 * Z.of_nat (length m)))).
  assert (Hhi : length hi = Z.to_nat word_bytes) by apply sha2_length_be; assert (Hlo : length lo = Z.to_nat word_bytes) by apply sha2_length_be.
  assert (Hll : length (hi ++ lo) = (2 * Z.to_nat word_bytes)%nat) by (rewrite length_app; lia).
  assert (Hm : (length m mod b = length rest mod b)%nat).
  { unfold m; rewrite length_app, <- Nat.Div0.add_mod_idemp_l, Hw; done. }
  destruct (sha2_pad_is_padding (length m) (length rest) (hi ++ lo) Hm Hle Hll) as (Hpad & Epad & k & Hk & Hk2).
  set (pad := if _ <=? _ then _ else _) in *.
  assert (Hw0 : 0 < word_bytes) by (destruct sha2_sizes as [(_ & -> & _)|(_ & -> & _)]; lia).
  assert (Hfill : length (fillbuf p) = b) by (unfold fillbuf; cbn [length]; rewrite length_replicate; lia).
  rewrite peek_ok by lia; unfold slice; rewrite drop_0; cbn [mbind option_bind]; set (pads := take (Z.to_nat pad) (fillbuf p)) in *.
  assert (Hps : length pads = Z.to_nat pad) by (unfold pads; rewrite length_take; lia).
  assert (Hfit : (k * b <= 2 * b)%nat) by (apply Nat.mul_le_mono_r; done).
  rewrite poke_ok by lia; cbn [mbind option_bind]; set (b1 := blit _ pads _).
  assert (Hb1 : length b1 = (2 * b)%nat) by (unfold b1; now rewrite length_blit).
  replace (Z.to_nat (Z.of_nat (length rest) + pad + word_bytes)) with (length rest + length pads + length hi)%nat by lia.
  rewrite poke_ok by lia; cbn [mbind option_bind]; set (b2 := blit _ lo b1).
  assert (Hb2 : length b2 = (2 * b)%nat) by (unfold b2; now rewrite length_blit).
  replace (Z.to_nat (Z.of_nat (length rest) + pad)) with (length rest + length pads)%nat by lia.
  rewrite poke_ok by lia; cbn [mbind option_bind]; set (b3 := blit _ hi b2).
  assert (Hb3 : length b3 = (2 * b)%nat) by (unfold b3; now rewrite length_blit).
  assert (Epre : take (k * b) b3 = rest ++ padding b (length m) (hi ++ lo)).
  { replace (k * b)%nat with (length rest + length pads + length hi + length lo)%nat by lia.
    unfold b3, b2; rewrite take_blit2 by lia; unfold b1; rewrite Nat2Z.id, take_blit_app by lia.
    now rewrite Hrest, <- Epad, <- app_assoc. }
  replace (Z.of_nat (length rest) + pad + 2 * word_bytes) with (Z.of_nat (k * b)) by lia.
  assert (Ha3 : exists c1, process_block p b3 (Z.of_nat (k * b)) (Ctx (H c) (uW (Z.of_nat (length m)))
      (uW (Z.of_nat (length m) / 2 ^ word_bits)) (Z.of_nat (length rest)) b3) = Some c1 /\ buffer c1 = b3 /\
      H c1 = hash iv (m ++ padding b (length m) (hi ++ lo))).
  { unfold process_block; cbn [H].
    assert (En : Z.of_nat (k * b) / word_bytes = 16 * Z.of_nat k).
    { symmetry; destruct sha2_sizes as [(-> & -> & _)|(-> & -> & _)]; apply Z.div_unique_exact; lia. }
    rewrite En, (sha2_blocks_loop_spec k) by (destruct sha2_sizes as [(E & _)|(E & _)]; rewrite E in *; lia).
    cbn [mbind option_bind]; eexists; split; [reflexivity|split; [reflexivity|]]; cbn [H].
    rewrite Hh, sha2_absorb_whole, Epre by (done || lia); unfold m; now rewrite <- app_assoc. }
  destruct Ha3 as (c1 & -> & Eb1 & Ec1); cbn [mbind option_bind]; rewrite (sha2_hash_of_state m (hi ++ lo) eq_refl), <- Ec1.
  destruct (H c1) as [[[[[[[h0 h1] h2] h3] h4] h5] h6] h7]; rewrite <- Eb1 in Hb3; eauto.
Qed.

Lemma sha2_pieces_correct buffer pieces :
  length buffer = (2 * b)%nat -> Forall (fun q => Z.of_nat (length q.2) < 4294967296) pieces ->
  sum_pieces p buffer pieces = Some (sha2_hash p (concat (map snd pieces))).
Proof.
  intros Hb Hl; unfold sum_pieces.
  destruct (sha2_process_pieces_hold pieces [] (init_ctx p buffer) (sha2_init_holds buffer Hb) Hl) as (c & -> & Hh); cbn [mbind option_bind].
  destruct (sha2_finish_spec _ c Hh) as (c' & -> & _); reflexivity.
Qed.
End correct.

(** C34: the digests of messages that come in pieces, at addresses aligned or not, are
    SHA-256 and SHA-512 of the whole message as FIPS 180-2 defines them, with the
    constants from the roots of the primes: through the buffer of two blocks, which may
    keep a whole block back, and a count of bytes that takes in what is in the buffer
    only at the end. *)
Theorem sha2_correct p buffer pieces :
  p = sha256 \/ p = sha512 -> length buffer = (2 * Z.to_nat (2 ^ lg p))%nat ->
  Forall (fun q => Z.of_nat (length q.2) < 4294967296) pieces ->
  sum_pieces p buffer pieces = Some (sha2_hash p (concat (map snd pieces))).
Proof. intros [->| ->]; apply sha2_pieces_correct; [exact sha256_standard|exact sha512_standard]. Qed.

Lemma sha2_correct_witness : sum_pieces sha256 (replicate 128 7) [(1, [97]); (4, [98; 99])] = Some abc_256.
Proof.
  rewrite (sha2_correct sha256 (replicate 128 7) [(1, [97]); (4, [98; 99])]);
    [exact (f_equal Some (proj1 sha256_abc))|now left|reflexivity|repeat constructor; cbn; lia].
Defined.
