(* ===== verification/CString.v ===== *)
(** * The C library's strings: com32/lib/str*.c and com32/lib/mem*.c

    Memory is one buffer of bytes and a pointer an offset into it, so that
    source and destination may overlap.  [None] is an access outside the buffer.
    A loop that reads a pointer forward is a recursion on the bytes from it on;
    a loop that writes has a fuel that bounds its number of turns, and the
    wrapper gives it the size of the memory: every turn moves a pointer that
    must stay inside, so that it is never exhausted first. *)

From S2P Require Import Prelude.
From S2P Require Import Ctype.

Definition load (mem : list Z) (p : nat) : option Z := mem !! p.

Definition store (mem : list Z) (p : nat) (v : Z) : option (list Z) :=
  if (p <? length mem)%nat then Some (<[p := u8 v]> mem) else None.

(** ** Reading *)

Fixpoint strlen_loop (s : list Z) : option nat :=
  match s with
  | [] => None
  | ch :: s => if ch =? 0 then Some O else S <$> strlen_loop s
  end.

(** [src/com32/lib/strlen.c:7-13 strlen] *)
Definition strlen (mem : list Z) (s : nat) : option nat := strlen_loop (drop s mem).

Fixpoint strnlen_loop (n : nat) (s : list Z) : option nat :=
  match n, s with
  | O, _ => Some O
  | S _, [] => None
  | S n, ch :: s => if ch =? 0 then Some O else S <$> strnlen_loop n s
  end.

(** [src/com32/lib/strnlen.c:7-13 strnlen] *)
Definition strnlen (mem : list Z) (s n : nat) : option nat := strnlen_loop n (drop s mem).

(** The comparison loops: [key] is the identity or [toupper], [n] the bound.
    [src/com32/lib/strncmp.c:7-21 strncmp] *)
Fixpoint strncmp_loop (key : Z -> Z) (n : nat) (c1 c2 : list Z) : option Z :=
  match n with
  | O => Some 0
  | S n =>
      match c1, c2 with
      | ch :: c1, ch2 :: c2 =>
          let d := key ch - key ch2 in
          if negb (d =? 0) || (ch =? 0) then Some d
          else
            match n with O => Some d | S _ => strncmp_loop key n c1 c2 end
      | _, _ => None
      end
  end.

(** The loop without a bound.
    [src/com32/lib/strcmp.c:7-21 strcmp] *)
Fixpoint strcmp_loop (key : Z -> Z) (c1 c2 : list Z) : option Z :=
  match c1, c2 with
  | ch :: c1, ch2 :: c2 =>
      let d := key ch - key ch2 in
      if negb (d =? 0) || (ch =? 0) then Some d else strcmp_loop key c1 c2
  | _, _ => None
  end.

(** [src/com32/lib/strcmp.c:7-21 strcmp] *)
Definition strcmp (mem : list Z) (s1 s2 : nat) : option Z :=
  strcmp_loop id (drop s1 mem) (drop s2 mem).

(** [src/com32/lib/strncmp.c:7-21 strncmp] *)
Definition strncmp (mem : list Z) (s1 s2 n : nat) : option Z :=
  strncmp_loop id n (drop s1 mem) (drop s2 mem).

(** [src/com32/lib/strcasecmp.c:8-24 strcasecmp] *)
Definition strcasecmp (mem : list Z) (s1 s2 : nat) : option Z :=
  strcmp_loop toupper (drop s1 mem) (drop s2 mem).

(** [src/com32/lib/strncasecmp.c:8-24 strncasecmp] *)
Definition strncasecmp (mem : list Z) (s1 s2 n : nat) : option Z :=
  strncmp_loop toupper n (drop s1 mem) (drop s2 mem).

Fixpoint memcmp_loop (n : nat) (c1 c2 : list Z) : option Z :=
  match n with
  | O => Some 0
  | S n =>
      match c1, c2 with
      | a :: c1, b :: c2 => if negb (a - b =? 0) then Some (a - b) else memcmp_loop n c1 c2
      | _, _ => None
      end
  end.

(** [src/com32/lib/memcmp.c:7-19 memcmp] *)
Definition memcmp (mem : list Z) (s1 s2 n : nat) : option Z :=
  memcmp_loop n (drop s1 mem) (drop s2 mem).

(** The pointer is not advanced: the answer is the offset found, if any.
    [src/com32/lib/memchr.c:8-18 memchr] *)
Fixpoint memchr (mem : list Z) (s : nat) (c : Z) (n : nat) : option (option nat) :=
  match n with
  | O => Some None
  | S n =>
      let* ch := load mem s in
      if ch =? u8 c then Some (Some s) else memchr mem s c n
  end.

Fixpoint strchr_loop (c : Z) (p : nat) (s : list Z) : option (option nat) :=
  match s with
  | [] => None
  | ch :: s =>
      if ch =? u8 c then Some (Some p)
      else if ch =? 0 then Some None else strchr_loop c (S p) s
  end.

(** [src/com32/lib/strchr.c:7-16 strchr] *)
Definition strchr (mem : list Z) (s : nat) (c : Z) : option (option nat) :=
  strchr_loop c s (drop s mem).

Fixpoint strrchr_loop (c : Z) (p : nat) (found : option nat) (s : list Z)
  : option (option nat) :=
  match s with
  | [] => None
  | ch :: s =>
      if ch =? 0 then Some found
      else strrchr_loop c (S p) (if ch =? u8 c then Some p else found) s
  end.

(** [src/com32/lib/strrchr.c:7-18 strrchr] *)
Definition strrchr (mem : list Z) (s : nat) (c : Z) : option (option nat) :=
  strrchr_loop c s None (drop s mem).

(** ** Spans: the bitmap of strspn.c, with 32-bit words *)

Definition LONG_BIT : Z := 32.

(** [src/com32/lib/strspn.c:14-17 set_bit] *)
Definition set_bit (bitmap : list Z) (bit : Z) : list Z :=
  alter (fun w => Z.lor w (u32 (Z.shiftl 1 (bit mod LONG_BIT))))
    (Z.to_nat (bit / LONG_BIT)) bitmap.

(** [src/com32/lib/strspn.c:19-22 test_bit] *)
Definition test_bit (bitmap : list Z) (bit : Z) : bool :=
  Z.land (Z.shiftr (nth (Z.to_nat (bit / LONG_BIT)) bitmap 0) (bit mod LONG_BIT)) 1 =? 1.

(** The characters of the map added to the bitmap.
    [src/com32/lib/strspn.c:31-32 strxspn] *)
Fixpoint add_map (bitmap : list Z) (map : list Z) : option (list Z) :=
  match map with
  | [] => None
  | ch :: map => if ch =? 0 then Some bitmap else add_map (set_bit bitmap ch) map
  end.

(** [src/com32/lib/strspn.c:38-42 strxspn] *)
Fixpoint span_loop (bitmap : list Z) (parity : bool) (s : list Z) : option nat :=
  match s with
  | [] => None
  | ch :: s =>
      if xorb (test_bit bitmap ch) parity then S <$> span_loop bitmap parity s else Some O
  end.

(** [src/com32/lib/strspn.c:24-43 strxspn] *)
Definition strxspn (mem : list Z) (s map : nat) (parity : bool) : option nat :=
  let* matchmap := add_map (replicate 8 0) (drop map mem) in
  let matchmap := if parity then set_bit matchmap 0 else matchmap in
  span_loop matchmap parity (drop s mem).

(** [src/com32/lib/strspn.c:45-48 strspn] *)
Definition strspn (mem : list Z) (s accept : nat) : option nat := strxspn mem s accept false.

(** [src/com32/lib/strspn.c:50-53 strcspn] *)
Definition strcspn (mem : list Z) (s reject : nat) : option nat := strxspn mem s reject true.

(** [src/com32/lib/strspn.c:55-60 strpbrk] *)
Definition strpbrk (mem : list Z) (s accept : nat) : option (option nat) :=
  let* n := strxspn mem s accept true in
  let* ch := load mem (s + n) in
  Some (if ch =? 0 then None else Some (s + n)%nat).

(** The token, the new value of the string pointer and the memory; a NULL
    pointer is [None].
    [src/com32/lib/strsep.c:7-21 strsep] *)
Definition strsep (mem : list Z) (stringp : option nat) (delim : nat)
  : option (option nat * option nat * list Z) :=
  match stringp with
  | None => Some (None, None, mem)
  | Some s =>
      let* e := strpbrk mem s delim in
      match e with
      | None => Some (Some s, None, mem)
      | Some e => let* mem := store mem e 0 in Some (Some s, Some (S e), mem)
      end
  end.

(** [holder] is the static variable of [strtok].
    [src/com32/lib/strtok.c:7-15 strtok] *)
Definition strtok (mem : list Z) (holder s : option nat) (delim : nat)
  : option (option nat * option nat * list Z) :=
  strsep mem (match s with Some _ => s | None => holder end) delim.

(** ** Searching *)

(** The loop of the "not so naive" search, [j] the offset tried.
    [src/com32/lib/memmem.c:33-43 memmem] *)
Fixpoint memmem_loop (fuel : nat) (y x : list Z) (n m k l j : nat) : option nat :=
  match fuel with
  | O => None
  | S fuel =>
      if (n - m <? j)%nat then None
      else if negb (nth 1 x 0 =? nth (j + 1) y 0) then memmem_loop fuel y x n m k l (j + k)
      else if bool_decide (take (m - 2) (drop 2 x) = take (m - 2) (drop (j + 2) y)) &&
              (nth 0 x 0 =? nth j y 0)
      then Some j
      else memmem_loop fuel y x n m k l (j + l)
  end.

(** The loop for a needle of one byte.
    [src/com32/lib/memmem.c:44-50 memmem] *)
Fixpoint memmem_byte (c : Z) (y : list Z) (j : nat) : option nat :=
  match y with
  | [] => None
  | b :: y => if b =? c then Some j else memmem_byte c y (S j)
  end.

(** The offset of the needle [x] in the haystack [y].
    [src/com32/lib/memmem.c:14-53 memmem] *)
Definition memmem (y x : list Z) : option nat :=
  let n := length y in
  let m := length x in
  if (n <? m)%nat || (m =? 0)%nat || (n =? 0)%nat then None
  else
    match x with
    | [c] => memmem_byte c y 0
    | _ =>
        let '(k, l) := if nth 0 x 0 =? nth 1 x 0 then (2, 1)%nat else (1, 2)%nat in
        memmem_loop (S n) y x n m k l 0
    end.

(** ** Writing *)

(** [src/com32/lib/strcpy.c:9-20 strcpy] *)
Fixpoint strcpy_loop (fuel : nat) (mem : list Z) (q p : nat) : option (list Z) :=
  match fuel with
  | O => None
  | S fuel =>
      let* ch := load mem p in
      let* mem := store mem q ch in
      if ch =? 0 then Some mem else strcpy_loop fuel mem (S q) (S p)
  end.

(** [src/com32/lib/strcpy.c:9-20 strcpy] *)
Definition strcpy (mem : list Z) (dst src : nat) : option (list Z) :=
  strcpy_loop (S (length mem)) mem dst src.

(** The memory and the pointer to the terminating NUL.
    [src/com32/lib/stpcpy.c:9-23 stpcpy] *)
Fixpoint stpcpy_loop (fuel : nat) (mem : list Z) (q p : nat) : option (nat * list Z) :=
  match fuel with
  | O => None
  | S fuel =>
      let* ch := load mem p in
      let* mem := store mem q ch in
      if ch =? 0 then Some (q, mem) else stpcpy_loop fuel mem (S q) (S p)
  end.

(** [src/com32/lib/strncpy.c:9-22 strncpy] *)
Fixpoint strncpy (mem : list Z) (q p n : nat) : option (list Z) :=
  match n with
  | O => Some mem
  | S n =>
      let* ch := load mem p in
      let* mem := store mem q ch in
      if ch =? 0 then Some mem else strncpy mem (S q) (S p) n
  end.

(** [src/com32/lib/stpncpy.c:9-23 stpncpy] *)
Fixpoint stpncpy (mem : list Z) (q p n : nat) : option (nat * list Z) :=
  match n with
  | O => Some (q, mem)
  | S n =>
      let* ch := load mem p in
      let* mem := store mem q ch in
      if ch =? 0 then Some (q, mem) else stpncpy mem (S q) (S p) n
  end.

(** The copy loop of [strlcpy] and [strlcat]: where [q] ends, the number of
    bytes and the memory before the terminating NUL is stored.
    [src/com32/lib/strlcpy.c:15-20 strlcpy] *)
Fixpoint strl_loop (fuel : nat) (mem : list Z) (q p bytes size : nat)
  : option (nat * nat * list Z) :=
  match fuel with
  | O => None
  | S fuel =>
      let* ch := load mem p in
      if ch =? 0 then Some (q, bytes, mem)
      else if (bytes <? size)%nat then
        let* mem := store mem q ch in strl_loop fuel mem (S q) (S p) (S bytes) size
      else strl_loop fuel mem q (S p) (S bytes) size
  end.

(** [src/com32/lib/strlcpy.c:8-24 strlcpy] *)
Definition strlcpy (mem : list Z) (dst src size : nat) : option (nat * list Z) :=
  let* (q, bytes, mem) := strl_loop (S (length mem)) mem dst src 0 size in
  let* mem := store mem q 0 in
  Some (bytes, mem).

(** The loop that finds the end of the destination.
    [src/com32/lib/strlcat.c:15-18 strlcat] *)
Fixpoint strlcat_skip (s : list Z) (q bytes size : nat) : option (nat * nat) :=
  if (size <=? bytes)%nat then Some (q, bytes)
  else
    match s with
    | [] => None
    | ch :: s => if ch =? 0 then Some (q, bytes) else strlcat_skip s (S q) (S bytes) size
    end.

(** [src/com32/lib/strlcat.c:8-29 strlcat] *)
Definition strlcat (mem : list Z) (dst src size : nat) : option (nat * list Z) :=
  let* (q, bytes) := strlcat_skip (drop dst mem) dst 0 size in
  let* (q, bytes, mem) := strl_loop (S (length mem)) mem q src bytes size in
  let* mem := store mem q 0 in
  Some (bytes, mem).

(** [src/com32/lib/strcat.c:7-11 strcat] *)
Definition strcat (mem : list Z) (dst src : nat) : option (list Z) :=
  let* e := strchr mem dst 0 in
  let* e := e in
  strcpy mem e src.

(** [src/com32/lib/strncat.c:7-11 strncat] *)
Definition strncat (mem : list Z) (dst src n : nat) : option (list Z) :=
  let* e := strchr mem dst 0 in
  let* e := e in
  strncpy mem e src n.

(** [src/com32/lib/memswap.c:10-24 memswap] *)
Fixpoint memswap (mem : list Z) (p q n : nat) : option (list Z) :=
  match n with
  | O => Some mem
  | S n =>
      let* tmp := load mem p in
      let* ch := load mem q in
      let* mem := store mem p ch in
      let* mem := store mem q tmp in
      memswap mem (S p) (S q) n
  end.

(** The pointer after the character found, if it is found.
    [src/com32/lib/memccpy.c:10-23 memccpy] *)
Fixpoint memccpy (mem : list Z) (q p : nat) (c : Z) (n : nat) : option (option nat * list Z) :=
  match n with
  | O => Some (None, mem)
  | S n =>
      let* ch := load mem p in
      let* mem := store mem q ch in
      if ch =? u8 c then Some (Some (S q), mem) else memccpy mem (S q) (S p) c n
  end.

(** The pointer moves before the character is tested.
    [src/com32/lib/chrreplace.c:4-10 chrreplace] *)
Fixpoint chrreplace_loop (fuel : nat) (mem : list Z) (source : nat) (old new : Z)
  : option (list Z) :=
  match fuel with
  | O => None
  | S fuel =>
      let* ch := load mem source in
      if ch =? 0 then Some mem
      else
        let* ch := load mem (S source) in
        let* mem := (if ch =? u8 old then store mem (S source) new else Some mem) in
        chrreplace_loop fuel mem (S source) old new
  end.

(** [src/com32/lib/chrreplace.c:4-10 chrreplace] *)
Definition chrreplace (mem : list Z) (source : nat) (old new : Z) : option (list Z) :=
  chrreplace_loop (S (length mem)) mem source old new.

(** ** Strings in memory *)

(** The string [s] lies at [p] with its terminating NUL. *)
Fixpoint str_at (mem : list Z) (p : nat) (s : list Z) : Prop :=
  match s with
  | [] => mem !! p = Some 0
  | c :: s => mem !! p = Some c /\ c <> 0 /\ is_byte c /\ str_at mem (S p) s
  end.

Lemma str_at_insert mem p s q v :
  str_at mem p s -> (q < p \/ p + length s < q)%nat -> str_at (<[q := v]> mem) p s.
Proof.
  revert p; induction s as [|c s IH]; simpl; intros p H Hq.
  - rewrite list_lookup_insert_ne by lia; auto.
  - destruct H as (H1 & H2 & H3 & H4); repeat split; try apply H3; auto.
    + rewrite list_lookup_insert_ne by lia; auto.
    + apply IH; auto; lia.
Qed.

(** The bytes from [p] on, as the reading loops see them. *)
Lemma str_at_drop mem p s :
  str_at mem p s -> exists rest, drop p mem = s ++ 0 :: rest /\ Forall is_byte s /\ 0 ∉ s.
Proof.
  revert p; induction s as [|c s IH]; simpl; intros p H.
  - exists (drop (S p) mem); rewrite (drop_S _ 0) by auto; repeat split; auto; set_solver.
  - destruct H as (H1 & H2 & H3 & H4); destruct (IH _ H4) as (rest & Hr & Hb & Hz).
    exists rest; rewrite (drop_S _ c), Hr by auto; repeat split; auto; set_solver.
Qed.

Lemma store_in mem p v :
  (p < length mem)%nat -> is_byte v -> store mem p v = Some (<[p := v]> mem).
Proof.
  intros Hp Hv; unfold store; rewrite (proj2 (Nat.ltb_lt _ _) Hp).
  now rewrite u8_small.
Qed.

(** *** Comparison *)

(** The lexicographic order on byte strings. *)
Fixpoint lex_lt (a b : list Z) : Prop :=
  match a, b with
  | _, [] => False
  | [], _ :: _ => True
  | x :: a, y :: b => x < y \/ x = y /\ lex_lt a b
  end.

Lemma strcmp_loop_spec a : forall b r1 r2,
  Forall is_byte a -> Forall is_byte b -> 0 ∉ a -> 0 ∉ b ->
  exists d, strcmp_loop id (a ++ 0 :: r1) (b ++ 0 :: r2) = Some d /\
    (d = 0 <-> a = b) /\ (d < 0 <-> lex_lt a b).
Proof.
  unfold id; induction a as [|x a IH]; intros [|y b] r1 r2 Ha Hb Hza Hzb; simpl.
  - exists 0; intuition lia.
  - apply Forall_cons in Hb as [Hy _]; unfold is_byte in Hy.
    assert (y <> 0) by set_solver.
    exists (0 - y); zdec; simpl; intuition (lia || discriminate).
  - assert (x <> 0) by set_solver; apply Forall_cons in Ha as [Hx _]; unfold is_byte in Hx.
    exists (x - 0); zdec; simpl; intuition (lia || discriminate).
  - apply Forall_cons in Ha as [Hx Ha]; apply Forall_cons in Hb as [Hy Hb].
    assert (x <> 0) by set_solver; unfold is_byte in *.
    destruct (decide (x = y)) as [->|Hne].
    + rewrite Z.sub_diag; zdec; simpl.
      destruct (IH b r1 r2) as (d & Hd & H1 & H2); auto; [set_solver|set_solver|].
      exists d; split; [exact Hd|]; split; [|intuition lia].
      rewrite H1; split; congruence.
    + exists (x - y); zdec; simpl; split; auto; split; [|intuition lia].
      split; [lia|congruence].
Qed.

(** [strcmp] answers 0 exactly on equal strings and a negative number exactly
    when the first is lexicographically smaller as unsigned bytes. *)
Theorem strcmp_correct mem s1 s2 a b :
  str_at mem s1 a -> str_at mem s2 b ->
  exists d, strcmp mem s1 s2 = Some d /\ (d = 0 <-> a = b) /\ (d < 0 <-> lex_lt a b).
Proof.
  intros H1 H2; apply str_at_drop in H1 as (r1 & E1 & B1 & Z1).
  apply str_at_drop in H2 as (r2 & E2 & B2 & Z2).
  unfold strcmp; rewrite E1, E2; now apply strcmp_loop_spec.
Qed.

(** Two strings at 0 and 4 of a small memory. *)
Definition demo_mem : list Z := [97; 98; 99; 0; 97; 200; 0; 0; 0; 0].

Theorem strcmp_correct_witness :
  exists d, strcmp demo_mem 0 4 = Some d /\
    (d = 0 <-> [97; 98; 99] = [97; 200]) /\ (d < 0 <-> lex_lt [97; 98; 99] [97; 200]).
Proof. apply strcmp_correct; simpl; unfold is_byte; intuition lia. Defined.

(** *** Bounded copy *)

Lemma strl_loop_spec s : forall fuel mem q p bytes size,
  str_at mem p s -> (length s < fuel)%nat ->
  (q + length s < p \/ p + length s < q)%nat -> (q + length s < length mem)%nat ->
  strl_loop fuel mem q p bytes size =
    Some ((q + Nat.min (length s) (size - bytes))%nat, (bytes + length s)%nat,
          blit q (take (size - bytes) s) mem).
Proof.
  induction s as [|c s IH]; intros [|fuel] mem q p bytes size Hs Hf Hd Hl; try (simpl in Hf; lia);
    simpl in Hs; cbn [strl_loop]; unfold load.
  - rewrite Hs, take_nil; simpl; do 3 f_equal; lia.
  - destruct Hs as (-> & Hc & Hb & Hs); cbn [length] in *.
    apply Z.eqb_neq in Hc; rewrite Hc.
    destruct (Nat.ltb_spec bytes size).
    + rewrite store_in, IH by (rewrite ?length_insert; auto using str_at_insert with lia;
        try apply str_at_insert; auto; lia).
      replace (size - bytes)%nat with (S (size - S bytes)) by lia; cbn [take blit].
      do 3 f_equal; lia.
    + rewrite IH by (auto; lia).
      replace (size - bytes)%nat with O by lia; replace (size - S bytes)%nat with O by lia.
      rewrite !take_0; do 3 f_equal; lia.
Qed.

(** [strlcpy] returns the length of the source and stores its first [size]
    bytes followed by a NUL: when the source does not fit that is [size] + 1
    bytes, one more than the destination has. *)
Theorem strlcpy_correct mem dst src size s :
  str_at mem src s ->
  (dst + length s < src \/ src + length s < dst)%nat -> (dst + length s < length mem)%nat ->
  strlcpy mem dst src size = Some (length s, blit dst (take size s ++ [0]) mem).
Proof.
  intros Hs Hd Hl; unfold strlcpy.
  rewrite strl_loop_spec with (s := s) by (auto; lia); rewrite Nat.sub_0_r.
  rewrite store_in by (rewrite ?length_blit; unfold is_byte; lia).
  do 2 f_equal; rewrite Nat.min_comm, <- length_take.
  generalize (take size s) as l; intros l; clear; revert dst mem.
  induction l as [|c l IH]; intros dst mem; simpl; [now rewrite Nat.add_0_r|].
  now rewrite <- IH, Nat.add_succ_r.
Qed.

Theorem strlcpy_correct_witness :
  strlcpy demo_mem 5 0 2 = Some (3%nat, blit 5 (take 2 [97; 98; 99] ++ [0]) demo_mem) /\
  byte_at (blit 5 (take 2 [97; 98; 99] ++ [0]) (replicate 10 7)) 7 = 0.
Proof.
  split; [|reflexivity].
  apply strlcpy_correct with (s := [97; 98; 99]); simpl; unfold is_byte; intuition lia.
Defined.

(** *** Spans *)

Definition bitmap_ok (b : list Z) : Prop := length b = 8%nat.

Lemma test_bit_testbit b i : test_bit b i = Z.testbit (nth (Z.to_nat (i / 32)) b 0) (i mod 32).
Proof.
  unfold test_bit, LONG_BIT; change 1 with (Z.ones 1) at 1; rewrite Z.land_ones by lia.
  change (2 ^ 1) with 2; rewrite <- Z.bit0_mod, Z.shiftr_spec, Z.add_0_l by lia.
  now destruct (Z.testbit _ _).
Qed.

Lemma nth_alter (f : Z -> Z) k j (b : list Z) :
  (k < length b)%nat -> nth j (alter f k b) 0 = if decide (j = k) then f (nth j b 0) else nth j b 0.
Proof.
  revert j b; induction k as [|k IH]; intros j [|x b] Hk; simpl in *; try lia; destruct j; auto.
  change (nth j (alter f k b) 0 = if decide (S j = S k) then f (nth j b 0) else nth j b 0).
  rewrite IH by lia; repeat case_decide; auto; lia.
Qed.

Lemma test_set_bit b i j :
  bitmap_ok b -> is_byte i -> is_byte j -> test_bit (set_bit b i) j = (i =? j) || test_bit b j.
Proof.
  unfold bitmap_ok, is_byte; intros Hb Hi Hj; rewrite !test_bit_testbit; unfold set_bit, LONG_BIT.
  pose proof (Z.div_mod i 32); pose proof (Z.div_mod j 32).
  pose proof (Z.mod_pos_bound i 32); pose proof (Z.mod_pos_bound j 32).
  rewrite nth_alter by (rewrite Hb; apply Nat2Z.inj_lt; rewrite Z2Nat.id by ulia; ulia).
  destruct (decide (Z.to_nat (j / 32) = Z.to_nat (i / 32))) as [E|E].
  - rewrite Z.lor_spec, Z.shiftl_1_l, orb_comm; f_equal.
    assert (0 < 2 ^ (i mod 32) < 4294967296)
      by (change 4294967296 with (2 ^ 32); split; [lia|apply Z.pow_lt_mono_r; lia]).
    rewrite u32_small, Z.pow2_bits_eqb by lia.
    destruct (Z.eqb_spec (i mod 32) (j mod 32)); zdec; auto; symmetry; apply Z.eqb_neq; congruence.
  - destruct (Z.eqb_spec i j) as [->|]; auto; congruence.
Qed.

Lemma set_bit_ok b i : bitmap_ok b -> bitmap_ok (set_bit b i).
Proof. unfold bitmap_ok, set_bit; now rewrite length_alter. Qed.

Lemma add_map_spec set : forall b rest, bitmap_ok b -> Forall is_byte set -> 0 ∉ set ->
  exists b', add_map b (set ++ 0 :: rest) = Some b' /\ bitmap_ok b' /\
    forall j, is_byte j -> test_bit b' j = bool_decide (j ∈ set) || test_bit b j.
Proof.
  induction set as [|c set IH]; intros b rest Hb Hs Hz; simpl.
  - exists b; repeat split; auto.
  - apply Forall_cons in Hs as [Hc Hs]; apply not_elem_of_cons in Hz as [Hc0 Hz].
    zdec; destruct (IH (set_bit b c) rest) as (b' & -> & Hb' & Ht); auto using set_bit_ok.
    exists b'; repeat split; auto; intros j Hj; rewrite Ht, test_set_bit, orb_assoc by auto.
    f_equal; destruct (Z.eqb_spec c j) as [->|Hne]; repeat case_bool_decide; set_solver.
Qed.

(** The length of the longest prefix whose characters satisfy [P]. *)
Fixpoint span (P : Z -> bool) (s : list Z) : nat :=
  match s with
  | [] => O
  | c :: s => if P c then S (span P s) else O
  end.

Lemma span_loop_spec b parity P s : forall rest,
  xorb (test_bit b 0) parity = false -> Forall is_byte s ->
  (forall c, c ∈ s -> xorb (test_bit b c) parity = P c) ->
  span_loop b parity (s ++ 0 :: rest) = Some (span P s).
Proof.
  induction s as [|c s IH]; intros rest H0 Hs HP; simpl; [now rewrite H0|].
  apply Forall_cons in Hs as [Hc Hs]; rewrite HP by set_solver.
  destruct (P c); auto; rewrite IH; auto; intros; apply HP; set_solver.
Qed.

(** [strspn] and [strcspn] measure the longest prefix made of characters
    inside (outside) the given set: the bitmap they build has exactly the bits of
    the set, and the terminating NUL always ends the span. *)
Theorem strxspn_correct mem s map str set :
  str_at mem s str -> str_at mem map set ->
  strspn mem s map = Some (span (fun c => bool_decide (c ∈ set)) str) /\
  strcspn mem s map = Some (span (fun c => negb (bool_decide (c ∈ set))) str).
Proof.
  intros H1 H2; apply str_at_drop in H1 as (r1 & E1 & B1 & Z1).
  apply str_at_drop in H2 as (r2 & E2 & B2 & Z2).
  unfold strspn, strcspn, strxspn; rewrite E1, E2.
  destruct (add_map_spec set (replicate 8 0) r2) as (b & -> & Hb & Ht); auto; [reflexivity|].
  assert (H0 : is_byte 0) by (unfold is_byte; lia).
  assert (He : forall c, is_byte c -> test_bit (replicate 8 0) c = false).
  { intros c Hc; rewrite test_bit_testbit.
    replace (nth _ _ 0) with 0 by (symmetry; generalize (Z.to_nat (c / 32)) as k; intros k;
      do 9 (destruct k as [|k]; [reflexivity|]); reflexivity). apply Z.testbit_0_l. }
  split; apply span_loop_spec; auto.
  - rewrite Ht, He by auto; now rewrite bool_decide_eq_false_2.
  - intros c Hc; assert (is_byte c) by (now apply (proj1 (Forall_forall _ _) B1)).
    rewrite Ht, He, orb_false_r, xorb_false_r by auto; reflexivity.
  - rewrite test_set_bit by auto; reflexivity.
  - intros c Hc; assert (is_byte c) by (now apply (proj1 (Forall_forall _ _) B1)).
    rewrite test_set_bit, Ht, He, orb_false_r, xorb_true_r by auto.
    destruct (Z.eqb_spec 0 c) as [<-|]; [tauto|reflexivity].
Qed.

Theorem strxspn_correct_witness :
  strspn demo_mem 0 4 = Some (span (fun c => bool_decide (c ∈ [97; 200])) [97; 98; 99]) /\
  strcspn demo_mem 0 4 = Some (span (fun c => negb (bool_decide (c ∈ [97; 200]))) [97; 98; 99]).
Proof. apply strxspn_correct; simpl; unfold is_byte; intuition lia. Defined.

(** *** Search *)

(** The needle [x] occurs in [y] at [j]. *)
Definition occurs (x y : list Z) (j : nat) : Prop := take (length x) (drop j y) = x.

Lemma occurs_two x0 x1 x' y j :
  occurs (x0 :: x1 :: x') y j <->
  (j + length (x0 :: x1 :: x') <= length y)%nat /\ nth j y 0 = x0 /\ nth (j + 1) y 0 = x1 /\
  take (length x') (drop (j + 2) y) = x'.
Proof.
  unfold occurs; destruct (drop j y) as [|a [|b r]] eqn:E.
  - assert (length y <= j)%nat by (apply (f_equal length) in E; rewrite length_drop in E; simpl in E; lia).
    simpl; split; [discriminate|intros (? & _); lia].
  - apply (f_equal length) in E; rewrite length_drop in E; simpl in *.
    split; [discriminate|intros (? & _); lia].
  - assert (Hj : (j < length y)%nat)
      by (apply (f_equal length) in E; rewrite length_drop in E; simpl in E; lia).
    assert (Hy : y = take j y ++ a :: b :: r) by (now rewrite <- E, take_drop).
    assert (Hlt : length (take j y) = j) by (rewrite length_take; lia).
    assert (Ha : nth j y 0 = a) by (rewrite Hy, app_nth2, Hlt, Nat.sub_diag by lia; reflexivity).
    assert (Hb : nth (j + 1) y 0 = b)
      by (rewrite Hy, app_nth2, Hlt by lia; replace (j + 1 - j)%nat with 1%nat by lia; reflexivity).
    assert (Hr : drop (j + 2) y = r) by (rewrite <- drop_drop, E; reflexivity).
    assert (Hlr : length y = (j + 2 + length r)%nat)
      by (apply (f_equal length) in E; rewrite length_drop in E; simpl in E; lia).
    rewrite Ha, Hb, Hr, Hlr; simpl; split.
    + intros [= -> -> H]; repeat split; auto.
      apply (f_equal length) in H; rewrite length_take in H; lia.
    + intros (_ & -> & -> & ->); reflexivity.
Qed.

Lemma memmem_loop_spec x0 x1 x' y k l fuel : forall j,
  (k, l) = (if x0 =? x1 then (2, 1)%nat else (1, 2)%nat) ->
  (length (x0 :: x1 :: x') <= length y)%nat -> (length y < j + fuel)%nat ->
  (forall i, (i < j)%nat -> ~ occurs (x0 :: x1 :: x') y i) ->
  match memmem_loop fuel y (x0 :: x1 :: x') (length y) (length (x0 :: x1 :: x')) k l j with
  | Some r => occurs (x0 :: x1 :: x') y r /\ forall i, (i < r)%nat -> ~ occurs (x0 :: x1 :: x') y i
  | None => forall i, ~ occurs (x0 :: x1 :: x') y i
  end.
Proof.
  induction fuel as [|fuel IH]; intros j Hkl Hm Hf Hno.
  { intros i Ho; destruct (decide (i < j)%nat); [eapply Hno; eauto|].
    apply occurs_two in Ho as (? & _); simpl in *; lia. }
  cbn [memmem_loop]; set (x := x0 :: x1 :: x') in *.
  destruct (Nat.ltb_spec (length y - length x) j).
  { intros i Ho; destruct (decide (i < j)%nat); [eapply Hno; eauto|].
    apply occurs_two in Ho as (? & _); subst x; cbn [length] in *; lia. }
  assert (Hstep : forall d, (0 < d)%nat -> ~ occurs x y j -> (d = 2%nat -> ~ occurs x y (S j)) -> (d <= 2)%nat ->
    forall i, (i < j + d)%nat -> ~ occurs x y i).
  { intros d Hd0 Hj1 Hj2 Hd i Hi; destruct (decide (i < j)%nat); auto.
    destruct (decide (i = j)) as [->|]; auto. replace i with (S j) by lia; apply Hj2; lia. }
  assert (Hj1 : occurs x y (S j) -> nth (j + 1) y 0 = x0)
    by (intros Ho; apply occurs_two in Ho as (_ & H1 & _); now rewrite Nat.add_1_r).
  change (nth 1 x 0) with x1; change (nth 0 x 0) with x0; change (drop 2 x) with x'.
  change (length x - 2)%nat with (length x' - 0)%nat; rewrite Nat.sub_0_r.
  destruct (Z.eqb_spec x1 (nth (j + 1) y 0)) as [E1|E1]; cbn [negb].
  - rewrite (take_ge x') by lia.
    destruct (bool_decide (x' = take (length x') (drop (j + 2) y)) && (x0 =? nth j y 0)) eqn:E.
    { bools; split; auto; apply occurs_two; fold x; repeat split; auto; lia. }
    apply IH; auto; [destruct (Z.eqb_spec x0 x1); injection Hkl as -> ->; lia|].
    apply Hstep; try (destruct (Z.eqb_spec x0 x1); injection Hkl as -> ->; lia).
    + intros Ho; apply occurs_two in Ho as (_ & H1 & _ & H2).
      rewrite H2, bool_decide_eq_true_2, H1, Z.eqb_refl in E by auto; discriminate.
    + intros -> Ho; apply Hj1 in Ho; destruct (Z.eqb_spec x0 x1); [discriminate|congruence].
  - apply IH; auto; [destruct (Z.eqb_spec x0 x1); injection Hkl as -> ->; lia|].
    apply Hstep; try (destruct (Z.eqb_spec x0 x1); injection Hkl as -> ->; lia).
    + intros Ho; apply occurs_two in Ho as (_ & _ & H1 & _); congruence.
    + intros -> Ho; apply Hj1 in Ho; destruct (Z.eqb_spec x0 x1); [congruence|discriminate].
Qed.

Lemma memmem_byte_spec c y : forall j y0, y = drop j y0 ->
  (forall i, (i < j)%nat -> ~ occurs [c] y0 i) ->
  match memmem_byte c y j with
  | Some r => occurs [c] y0 r /\ forall i, (i < r)%nat -> ~ occurs [c] y0 i
  | None => forall i, ~ occurs [c] y0 i
  end.
Proof.
  induction y as [|b y IH]; intros j y0 Ey Hno; simpl.
  - intros i Ho; destruct (decide (i < j)%nat); [eapply Hno; eauto|].
    unfold occurs in Ho; rewrite drop_ge in Ho; [discriminate|].
    apply (f_equal length) in Ey; rewrite length_drop in Ey; simpl in Ey; lia.
  - destruct (Z.eqb_spec b c) as [->|Hne].
    + split; auto; unfold occurs; rewrite <- Ey; reflexivity.
    + apply IH.
      * change (S j) with (1 + j)%nat; rewrite Nat.add_comm, <- drop_drop, <- Ey; reflexivity.
      * intros i Hi Ho; destruct (decide (i = j)) as [->|]; [|eapply Hno; eauto; lia].
        unfold occurs in Ho; rewrite <- Ey in Ho; simpl in Ho; congruence.
Qed.

(** [memmem] answers the first offset at which a non-empty needle occurs in
    the haystack, and NULL exactly when there is none: the shifts of the "not so
    naive" search never skip an occurrence. *)
Theorem memmem_first y x :
  x <> [] ->
  match memmem y x with
  | Some r => occurs x y r /\ forall i, (i < r)%nat -> ~ occurs x y i
  | None => forall i, ~ occurs x y i
  end.
Proof.
  intros Hx; unfold memmem.
  destruct ((_ <? _)%nat || _ || _) eqn:E.
  - intros i Ho; unfold occurs in Ho; apply (f_equal length) in Ho.
    rewrite length_take, length_drop in Ho.
    assert (0 < length x)%nat by (destruct x; [done|simpl; lia]).
    rewrite !orb_true_iff, Nat.ltb_lt, !Nat.eqb_eq in E; lia.
  - destruct x as [|c [|x1 x']]; [done|apply memmem_byte_spec; [reflexivity|intros; lia]|].
    destruct (if nth 0 _ 0 =? nth 1 _ 0 then _ else _) as [k l] eqn:Ek.
    apply memmem_loop_spec; [exact (eq_sym Ek)| |lia|intros; lia].
    apply orb_false_iff in E as [E _]; apply orb_false_iff in E as [E _].
    apply Nat.ltb_ge in E; exact E.
Qed.

Theorem memmem_first_witness :
  match memmem [97; 97; 98; 97; 98; 99] [97; 98; 99] with
  | Some r => occurs [97; 98; 99] [97; 97; 98; 97; 98; 99] r /\
      forall i, (i < r)%nat -> ~ occurs [97; 98; 99] [97; 97; 98; 97; 98; 99] i
  | None => forall i, ~ occurs [97; 98; 99] [97; 97; 98; 97; 98; 99] i
  end.
Proof. apply memmem_first; discriminate. Defined.

(** [memchr] only ever looks at the first byte: its pointer is not advanced,
    so it answers the start of the area or NULL, whatever follows. *)
Theorem memchr_first_byte_only mem s c n ch :
  load mem s = Some ch -> (0 < n)%nat ->
  memchr mem s c n = Some (if ch =? u8 c then Some s else None).
Proof.
  intros H Hn; induction n as [|n IH]; [lia|]; cbn [memchr]; rewrite H.
  destruct (ch =? u8 c) eqn:E; auto.
  destruct n as [|n]; [reflexivity|apply IH; lia].
Qed.

Theorem memchr_first_byte_only_witness :
  load demo_mem 0 = Some 97 /\ memchr demo_mem 0 98 4 = Some (if 97 =? u8 98 then Some O else None).
Proof. split; [reflexivity|apply memchr_first_byte_only; [reflexivity|lia]]. Defined.
