(* ===== verification/Passwd.v ===== *)
(** * Passwords of the menus: com32/menu/passwd.c

    A password that was typed is compared with one that is stored in the clear or as one
    of four hashes: crypt_md5 (com32/libutil/crypt-md5.c), sha256_crypt and sha512_crypt
    (com32/libutil/sha256crypt.c and sha512crypt.c, which are one here, as in [Sha2]),
    and SHA-1 in base 64. *)

From S2P Require Import Prelude CString NumParse Printf Base64 Hash Md5 Sha1 Sha2.

(** ** Strings *)

(** A pointer into a string is the list of the bytes from there to the end of its
    object, with the NUL in it. *)
Definition cstr (s : list Z) : list Z := s ++ [0].

Notation dollar := 36.

(** [./0-9A-Za-z], the digits of the hashes.
    [src/com32/libutil/crypt-md5.c:39-40 _crypt_to64] *)
Definition itoa64 : list Z :=
  [46; 47; 48; 49; 50; 51; 52; 53; 54; 55; 56; 57] ++ seqZ 65 26 ++ seqZ 97 26.

(** The digits of [v], the lowest first.
    [src/com32/libutil/crypt-md5.c:37-47 _crypt_to64] *)
Fixpoint _crypt_to64 (v : Z) (n : nat) : list Z :=
  match n with
  | O => []
  | S n => nth (Z.to_nat (Z.land v 0x3f)) itoa64 0 :: _crypt_to64 (Z.shiftr v 6) n
  end.

(** Three bytes in a word. *)
Definition word24 (b2 b1 b0 : Z) : Z := Z.lor (Z.lor (Z.shiftl b2 16) (Z.shiftl b1 8)) b0.

(** ** MD5 *)

(** ["$1$"]. *)
Definition magic : list Z := [dollar; 49; dollar].

(** [src/com32/libutil/crypt-md5.c:72-72 crypt_md5] *)
Fixpoint salt_length (n : nat) (sp : list Z) : option nat :=
  match n with
  | O => Some O
  | S n =>
      match sp with
      | [] => None
      | ch :: sp => if (ch =? 0) || (ch =? dollar) then Some O else S <$> salt_length n sp
      end
  end.

(** As many bytes of [final] as the password has.
    [src/com32/libutil/crypt-md5.c:91-92 crypt_md5] *)
Fixpoint md5_stretch (fuel : nat) (pl : Z) (final : list Z) (ctx : MD5_CTX) : option MD5_CTX :=
  if 0 <? pl then
    match fuel with
    | O => None
    | S fuel =>
        let* ctx := MD5Update ctx (take (Z.to_nat (if 16 <? pl then 16 else pl)) final) in
        md5_stretch fuel (pl - 16) final ctx
    end
  else Some ctx.

(** A byte for each bit of the length: [final], which is zero now, or the password.
    [src/com32/libutil/crypt-md5.c:98-102 crypt_md5] *)
Fixpoint md5_length_bits (fuel : nat) (i : Z) (pw final : list Z) (ctx : MD5_CTX) : option MD5_CTX :=
  if i =? 0 then Some ctx
  else
    match fuel with
    | O => None
    | S fuel =>
        let* ctx := MD5Update ctx (take 1 (if Z.odd i then final else pw)) in
        md5_length_bits fuel (Z.shiftr i 1) pw final ctx
    end.

(** [src/com32/libutil/crypt-md5.c:122-141 crypt_md5] *)
Fixpoint md5_rounds (n : nat) (i : Z) (pw sp final : list Z) (ctx1 : MD5_CTX) : option (list Z) :=
  match n with
  | O => Some final
  | S n =>
      let ctx1 := MD5Init (Md5.buffer ctx1) in
      let* ctx1 := MD5Update ctx1 (if Z.odd i then pw else final) in
      let* ctx1 := if i mod 3 =? 0 then Some ctx1 else MD5Update ctx1 sp in
      let* ctx1 := if i mod 7 =? 0 then Some ctx1 else MD5Update ctx1 pw in
      let* ctx1 := MD5Update ctx1 (if Z.odd i then final else pw) in
      let* (final, ctx1) := MD5Final ctx1 in
      md5_rounds n (i + 1) pw sp final ctx1
  end.

(** The 22 digits.
    [src/com32/libutil/crypt-md5.c:143-155 crypt_md5] *)
Definition md5_digits (final : list Z) : list Z :=
  let f := byte_at final in
  _crypt_to64 (word24 (f 0%nat) (f 6%nat) (f 12%nat)) 4 ++ _crypt_to64 (word24 (f 1%nat) (f 7%nat) (f 13%nat)) 4 ++
  _crypt_to64 (word24 (f 2%nat) (f 8%nat) (f 14%nat)) 4 ++ _crypt_to64 (word24 (f 3%nat) (f 9%nat) (f 15%nat)) 4 ++
  _crypt_to64 (word24 (f 4%nat) (f 10%nat) (f 5%nat)) 4 ++ _crypt_to64 (f 11%nat) 2.

(** [junk], [junk1]: what is in the buffers of the contexts on the stack.
    [src/com32/libutil/crypt-md5.c:49-161 crypt_md5] *)
Definition crypt_md5 (junk junk1 : list Z) (pw salt : list Z) : option (list Z) :=
  let* pwlen := strlen_loop pw in
  let* d := strncmp_loop id 3 salt (cstr magic) in
  let sp := if d =? 0 then drop 3 salt else salt in
  let* sl := salt_length 8 sp in
  let pw := take pwlen pw in
  let sp := take sl sp in
  let ctx := MD5Init junk in
  let* ctx := MD5Update ctx pw in
  let* ctx := MD5Update ctx magic in
  let* ctx := MD5Update ctx sp in
  let ctx1 := MD5Init junk1 in
  let* ctx1 := MD5Update ctx1 pw in
  let* ctx1 := MD5Update ctx1 sp in
  let* ctx1 := MD5Update ctx1 pw in
  let* (final, ctx1) := MD5Final ctx1 in
  let* ctx := md5_stretch pwlen (Z.of_nat pwlen) final ctx in
  let* ctx := md5_length_bits pwlen (Z.of_nat pwlen) pw (replicate 16 0) ctx in
  let* (final, _) := MD5Final ctx in
  let* final := md5_rounds 1000 0 pw sp final ctx1 in
  Some (cstr (magic ++ sp ++ [dollar] ++ md5_digits final)).

(** ** SHA-256 and SHA-512 *)

(** What is different in the two files: the hash, its length, the prefix, the order of
    the bytes in the digits ([None] is a zero) and the number of digits. *)
Record crypt := Crypt {
  c_hash : sha2; c_len : nat; c_prefix : list Z;
  c_order : list (option nat * option nat * nat * nat); c_digits : Z
}.

(** [src/com32/libutil/sha256crypt.c:484-494 sha256_crypt_r] *)
Definition crypt256 : crypt :=
  Crypt sha256 32 [dollar; 53; dollar]
    [(Some 0, Some 10, 20, 4); (Some 21, Some 1, 11, 4); (Some 12, Some 22, 2, 4); (Some 3, Some 13, 23, 4);
     (Some 24, Some 4, 14, 4); (Some 15, Some 25, 5, 4); (Some 6, Some 16, 26, 4); (Some 27, Some 7, 17, 4);
     (Some 18, Some 28, 8, 4); (Some 9, Some 19, 29, 4); (None, Some 31, 30, 3)]%nat 43.

(** [src/com32/libutil/sha512crypt.c:519-540 sha512_crypt_r] *)
Definition crypt512 : crypt :=
  Crypt sha512 64 [dollar; 54; dollar]
    [(Some 0, Some 21, 42, 4); (Some 22, Some 43, 1, 4); (Some 44, Some 2, 23, 4); (Some 3, Some 24, 45, 4);
     (Some 25, Some 46, 4, 4); (Some 47, Some 5, 26, 4); (Some 6, Some 27, 48, 4); (Some 28, Some 49, 7, 4);
     (Some 50, Some 8, 29, 4); (Some 9, Some 30, 51, 4); (Some 31, Some 52, 10, 4); (Some 53, Some 11, 32, 4);
     (Some 12, Some 33, 54, 4); (Some 34, Some 55, 13, 4); (Some 56, Some 14, 35, 4); (Some 15, Some 36, 57, 4);
     (Some 37, Some 58, 16, 4); (Some 59, Some 17, 38, 4); (Some 18, Some 39, 60, 4); (Some 40, Some 61, 19, 4);
     (Some 62, Some 20, 41, 4); (None, None, 63, 2)]%nat 86.

(** ["rounds="].
    [src/com32/libutil/sha256crypt.c:276-276 sha256_rounds_prefix] *)
Definition rounds_prefix : list Z := [114; 111; 117; 110; 100; 115; 61].

(** Where the data are, and what is in the buffers of the contexts. *)
Record places := Places { at_key : Z; at_salt : Z; at_alt : Z; at_p : Z; at_s : Z; junk_ctx : list Z; junk_alt : list Z }.

Section sha_crypt.
Context (c : crypt) (at_ : places).
Notation h := (c_hash c).
Notation process a := (process_bytes h (a at_)).

(** The same piece again and again.
    [src/com32/libutil/sha256crypt.c:395-396 sha256_crypt_r] *)
Fixpoint repeat_piece (n : nat) (a : Z) (data : list Z) (x : ctx) : option ctx :=
  match n with
  | O => Some x
  | S n => let* x := process_bytes h a data x in repeat_piece n a data x
  end.

(** [src/com32/libutil/sha256crypt.c:376-378 sha256_crypt_r] *)
Fixpoint sha_stretch (fuel : nat) (cnt : nat) (alt_result : list Z) (x : ctx) : option ctx :=
  if (c_len c <? cnt)%nat then
    match fuel with
    | O => None
    | S fuel => let* x := process at_alt alt_result x in sha_stretch fuel (cnt - c_len c) alt_result x
    end
  else process at_alt (take cnt alt_result) x.

(** [src/com32/libutil/sha256crypt.c:382-386 sha256_crypt_r] *)
Fixpoint sha_length_bits (fuel : nat) (cnt : Z) (key alt_result : list Z) (x : ctx) : option ctx :=
  if cnt =? 0 then Some x
  else
    match fuel with
    | O => None
    | S fuel =>
        let* x := if Z.odd cnt then process at_alt alt_result x else process at_key key x in
        sha_length_bits fuel (Z.shiftr cnt 1) key alt_result x
    end.

(** [cnt] bytes of a digest that is repeated.
    [src/com32/libutil/sha256crypt.c:402-405 sha256_crypt_r] *)
Fixpoint byte_sequence (fuel : nat) (cnt : nat) (temp_result : list Z) : option (list Z) :=
  if (c_len c <=? cnt)%nat then
    match fuel with
    | O => None
    | S fuel => let* r := byte_sequence fuel (cnt - c_len c) temp_result in Some (temp_result ++ r)
    end
  else Some (take cnt temp_result).

(** [src/com32/libutil/sha256crypt.c:425-451 sha256_crypt_r] *)
Fixpoint sha_rounds (n : nat) (cnt : Z) (p_bytes s_bytes alt_result : list Z) (x : ctx) : option (list Z) :=
  match n with
  | O => Some alt_result
  | S n =>
      let x := init_ctx h (Sha2.buffer x) in
      let* x := if Z.odd cnt then process at_p p_bytes x else process at_alt alt_result x in
      let* x := if cnt mod 3 =? 0 then Some x else process at_s s_bytes x in
      let* x := if cnt mod 7 =? 0 then Some x else process at_p p_bytes x in
      let* x := if Z.odd cnt then process at_alt alt_result x else process at_p p_bytes x in
      let* (alt_result, x) := finish_ctx h x in
      sha_rounds n (cnt + 1) p_bytes s_bytes alt_result x
  end.

(** From the key and the salt to the last digest.
    [src/com32/libutil/sha256crypt.c:347-451 sha256_crypt_r] *)
Definition sha_digest (key salt : list Z) (rounds : Z) : option (list Z) :=
  let key_len := length key in
  let x := init_ctx h (junk_ctx at_) in
  let* x := process at_key key x in
  let* x := process at_salt salt x in
  let y := init_ctx h (junk_alt at_) in
  let* y := process at_key key y in
  let* y := process at_salt salt y in
  let* y := process at_key key y in
  let* (alt_result, y) := finish_ctx h y in
  let* x := sha_stretch key_len key_len alt_result x in
  let* x := sha_length_bits key_len (Z.of_nat key_len) key alt_result x in
  let* (alt_result, x) := finish_ctx h x in
  let* y := repeat_piece key_len (at_key at_) key (init_ctx h (Sha2.buffer y)) in
  let* (temp_result, y) := finish_ctx h y in
  let* p_bytes := byte_sequence key_len key_len temp_result in
  let* y := repeat_piece (Z.to_nat (16 + byte_at alt_result 0)) (at_salt at_) salt (init_ctx h (Sha2.buffer y)) in
  let* (temp_result, y) := finish_ctx h y in
  let* s_bytes := byte_sequence (length salt) (length salt) temp_result in
  sha_rounds (Z.to_nat rounds) 0 p_bytes s_bytes alt_result x.

(** The buffer that is written: its string so far, and the room left in it. *)
Definition room : Type := list Z * Z.

(** [src/com32/libutil/sha256crypt.c:465-466 sha256_crypt_r] *)
Definition copy_text (text : list Z) (r : room) : room :=
  let (out, buflen) := r in
  let n := Z.min (Z.max 0 buflen) (Z.of_nat (length text)) in
  (out ++ take (Z.to_nat n) text, buflen - n).

(** [src/com32/libutil/sha256crypt.c:472-482 b64_from_24bit] *)
Fixpoint b64_from_24bit (n : nat) (w : Z) (r : room) : room :=
  match n with
  | O => r
  | S n =>
      let (out, buflen) := r in
      if 0 <? buflen then b64_from_24bit n (Z.shiftr w 6) (out ++ [nth (Z.to_nat (Z.land w 0x3f)) itoa64 0], buflen - 1)
      else r
  end.

(** [src/com32/libutil/sha256crypt.c:484-494 sha256_crypt_r] *)
Definition put_digits (alt_result : list Z) (r : room) : room :=
  let f o := match o with Some i => byte_at alt_result i | None => 0 end in
  fold_left (fun r '(b2, b1, b0, n) => b64_from_24bit n (word24 (f b2) (f b1) (byte_at alt_result b0)) r) (c_order c) r.

(** The text of the rounds, as [snprintf] writes it ([Printf.vsnprintf_correct]).
    [src/com32/libutil/sha256crypt.c:458-463 sha256_crypt_r] *)
Definition put_rounds (rounds : Z) (r : room) : option room :=
  let (out, buflen) := r in
  let* (text, _) := format_text [37; 115; 37; 122; 117; dollar] [ArgStr (Some rounds_prefix); ArgNum rounds] in
  let n := Z.of_nat (length text) in
  Some (out ++ take (Z.to_nat (if n <? buflen then n else Z.max 0 buflen - 1)) text, buflen - n).

(** The prefix of the salt is skipped, the number of rounds read: the salt, the rounds
    and whether they were given.
    [src/com32/libutil/sha256crypt.c:314-328 sha256_crypt_r] *)
Definition read_salt (salt : list Z) : option (list Z * Z * bool) :=
  let* d := strncmp_loop id 3 (cstr (c_prefix c)) salt in
  let salt := if d =? 0 then drop 3 salt else salt in
  let* d := strncmp_loop id 7 salt (cstr rounds_prefix) in
  if d =? 0 then
    let* (srounds, endp) := strtoul (drop 7 salt) 10 in
    let* ch := endp !! 0%nat in
    if ch =? dollar then Some (drop 1 endp, Z.max 1000 (Z.min srounds 999999999), true)
    else Some (salt, 5000, false)
  else Some (salt, 5000, false).

(** The string, or NULL when there is no room.  What is cleared at the end is local.
    [src/com32/libutil/sha256crypt.c:291-518 sha256_crypt_r] *)
Definition sha_crypt_r (key salt : list Z) (buflen : Z) : option (option (list Z)) :=
  let* (salt, rounds, rounds_custom) := read_salt salt in
  let* n := strcspn (salt ++ cstr [dollar]) 0 (length salt) in
  let salt_len := Nat.min n 16 in
  let* key_len := strlen_loop key in
  let salt := take salt_len salt in
  let* alt_result := sha_digest (take key_len key) salt rounds in
  let r := (take (Z.to_nat (Z.max 0 buflen)) (c_prefix c), buflen - 3) in
  let* r := if rounds_custom : bool then put_rounds rounds r else Some r in
  let (out, buflen) := copy_text salt r in
  let r := if 0 <? buflen then (out ++ [dollar], buflen - 1) else (out, buflen) in
  let (out, buflen) := put_digits alt_result r in
  Some (if buflen <=? 0 then None else Some (cstr out)).

(** [buflen]: the size of the static buffer, which grows; [granted]: whether realloc
    finds memory.
    [src/com32/libutil/sha256crypt.c:522-544 sha256_crypt] *)
Definition sha_crypt (granted : bool) (buflen : Z) (key salt : list Z) : option (option (list Z) * Z) :=
  let* n := strlen_loop salt in
  let needed := s32 (3 + 8 + 9 + 1 + Z.of_nat n + 1 + c_digits c + 1) in
  if buflen <? needed then
    if granted then let* s := sha_crypt_r key salt needed in Some (s, needed)
    else Some (None, buflen)
  else let* s := sha_crypt_r key salt buflen in Some (s, buflen).
End sha_crypt.

(** ** The comparison *)

(** The crypted string is what is stored, up to its end or a dollar.
    [src/com32/menu/passwd.c:52-55 passwd_compare_md5] *)
Definition compare_crypted (crypted passwd : list Z) : option bool :=
  let* len := strlen_loop crypted in
  let* d := strncmp_loop id len crypted passwd in
  if d =? 0 then
    let* ch := passwd !! len in
    Some ((ch =? 0) || (ch =? dollar))
  else Some false.

(** [src/com32/menu/passwd.c:49-56 passwd_compare_md5] *)
Definition passwd_compare_md5 (junk junk1 : list Z) (passwd entry : list Z) : option bool :=
  let* crypted := crypt_md5 junk junk1 entry (drop 3 passwd) in
  compare_crypted crypted passwd.

(** The length of NULL is asked for when there is no memory.
    [src/com32/menu/passwd.c:58-65 passwd_compare_sha256] *)
Definition passwd_compare_sha (c : crypt) (at_ : places) (granted : bool) (buflen : Z) (passwd entry : list Z) : option (bool * Z) :=
  let* (crypted, buflen) := sha_crypt c at_ granted buflen entry (drop 3 passwd) in
  let* crypted := crypted in
  let* r := compare_crypted crypted passwd in
  Some (r, buflen).

(** The answer, and both strings: their bytes go through [SHA1Update].
    [src/com32/menu/passwd.c:20-47 passwd_compare_sha1] *)
Definition passwd_compare_sha1 (junk : list Z) (passwd entry : list Z) : option (bool * list Z * list Z) :=
  let* q := strchr_loop dollar 0 (drop 3 passwd) in
  let* (ctx, passwd, p) :=
    match q with
    | Some n =>
        let* (ctx, data) := SHA1Update (SHA1Init junk) (take n (drop 3 passwd)) in
        Some (ctx, blit 3 data passwd, (3 + n + 1)%nat)
    | None => Some (SHA1Init junk, passwd, 3%nat)
    end in
  let* len := strlen_loop entry in
  let* (ctx, data) := SHA1Update ctx (take len entry) in
  let* (sha1, _) := SHA1Final ctx in
  let (bytes, _) := unbase64 20 (drop p passwd) in
  let pwdsha1 := bytes ++ replicate (20 - length bytes) 0 in
  let* d := memcmp_loop 20 sha1 pwdsha1 in
  Some (d =? 0, passwd, blit 0 data entry).

(** The two static buffers, what realloc answers, and what is on the stack. *)
Record surroundings := Around {
  len256 : Z; len512 : Z; granted256 : bool; granted512 : bool;
  places256 : places; places512 : places; junk_a : list Z; junk_b : list Z
}.

(** [src/com32/menu/passwd.c:76-96 passwd_compare] *)
Definition passwd_compare (w : surroundings) (passwd entry : list Z) : option bool :=
  let* c0 := passwd !! 0%nat in
  let* crypted :=
    if negb (c0 =? dollar) then Some false
    else
      let* c1 := passwd !! 1%nat in
      if c1 =? 0 then Some false
      else let* c2 := passwd !! 2%nat in Some (c2 =? dollar) in
  if crypted : bool then
    let* c1 := passwd !! 1%nat in
    if c1 =? 49 then passwd_compare_md5 (junk_a w) (junk_b w) passwd entry
    else if c1 =? 52 then let* (r, _, _) := passwd_compare_sha1 (junk_a w) passwd entry in Some r
    else if c1 =? 53 then let* (r, _) := passwd_compare_sha crypt256 (places256 w) (granted256 w) (len256 w) passwd entry in Some r
    else if c1 =? 54 then let* (r, _) := passwd_compare_sha crypt512 (places512 w) (granted512 w) (len512 w) passwd entry in Some r
    else Some false
  else let* d := strcmp_loop id entry passwd in Some (d =? 0).

(** ** Vectors *)

Definition any_places (n : nat) : places := Places 0 1 4 8 2 (replicate n 7) (replicate n 9).
Definition any_around : surroundings := Around 0 0 true true (any_places 128) (any_places 256) (replicate 64 7) (replicate 64 9).

