(* ===== verification/CryptProof.v ===== *)
(** * The hashes of passwords: what crypt_md5, sha256_crypt and sha512_crypt compute

    The digests of [Passwd] against functions of the password, the salt and the rounds
    that know nothing of buffers, contexts and addresses, and the strings that are made
    of them. *)

From S2P Require Import Prelude CString NumParse Printf Base64 Hash Md5 Sha1 Sha2 Passwd.

(** ** What the hashes are *)

(** The first [n] bytes of a string that is repeated. *)
Definition cycled (d : list Z) (n : nat) : list Z := take n (concat (replicate n d)).

(** One of two strings for each bit of a number, the lowest first. *)
Fixpoint bit_pieces (one zero : list Z) (p : positive) : list Z :=
  match p with
  | xH => one
  | xO p => zero ++ bit_pieces one zero p
  | xI p => one ++ bit_pieces one zero p
  end.
Definition bits_of (one zero : list Z) (i : Z) : list Z :=
  match i with Zpos p => bit_pieces one zero p | _ => [] end.

(** A round: what is hashed goes by whether its number is odd, and divisible by 3 and 7. *)
Definition stir (hash : list Z -> list Z) (p s prev : list Z) (i : nat) : list Z :=
  let n := Z.of_nat i in
  hash ((if Z.odd n then p else prev) ++ (if n mod 3 =? 0 then [] else s) ++ (if n mod 7 =? 0 then [] else p) ++
        (if Z.odd n then prev else p)).

Definition md5_crypt_hash (pw s : list Z) : list Z :=
  let alt := md5 (pw ++ s ++ pw) in
  fold_left (stir md5 pw s) (seq 0 1000)
    (md5 (pw ++ magic ++ s ++ cycled alt (length pw) ++ bits_of [0] (take 1 pw) (Z.of_nat (length pw)))).

Definition sha_crypt_hash (c : crypt) (key s : list Z) (rounds : Z) : list Z :=
  let hash := sha2_hash (c_hash c) in
  let alt := hash (key ++ s ++ key) in
  let mixed := hash (key ++ s ++ cycled alt (length key) ++ bits_of alt key (Z.of_nat (length key))) in
  let p := cycled (hash (concat (replicate (length key) key))) (length key) in
  let q := cycled (hash (concat (replicate (Z.to_nat (16 + byte_at mixed 0)) s))) (length s) in
  fold_left (stir hash p q) (seq 0 (Z.to_nat rounds)) mixed.

(** The texts that are stored. *)
Definition md5_text (pw s : list Z) : list Z := magic ++ s ++ [dollar] ++ md5_digits (md5_crypt_hash pw s).

Definition sha_digits (c : crypt) (alt_result : list Z) : list Z :=
  let f o := match o with Some i => byte_at alt_result i | None => 0 end in
  concat (map (fun '(b2, b1, b0, n) => _crypt_to64 (word24 (f b2) (f b1) (byte_at alt_result b0)) n) (c_order c)).
Definition decimal (n : Z) : list Z := digits_of 10 (count_digits 64 n 10) n.
Definition rounds_text (rounds : option Z) : list Z :=
  match rounds with Some n => rounds_prefix ++ decimal n ++ [dollar] | None => [] end.
Definition sha_text (c : crypt) (rounds : option Z) (pw s : list Z) : list Z :=
  c_prefix c ++ rounds_text rounds ++ s ++ [dollar] ++ sha_digits c (sha_crypt_hash c pw s (default 5000 rounds)).

(** ** Repeated strings *)

Lemma take_repeated (d : list Z) m k k' : (0 < length d)%nat -> (m <= k <= k')%nat ->
  take m (concat (replicate k' d)) = take m (concat (replicate k d)).
Proof.
  intros Hd Hk; replace k' with (k + (k' - k))%nat by lia; rewrite replicate_add, concat_app.
  apply take_app_le; rewrite length_concat, fmap_replicate, sum_list_replicate; nia.
Qed.

Lemma cycled_long d n : (0 < length d < n)%nat -> cycled d n = d ++ cycled d (n - length d).
Proof.
  intros H; unfold cycled; destruct n as [|n]; [lia|]; cbn [replicate concat].
  rewrite take_app_ge by lia; f_equal; apply take_repeated; lia.
Qed.

Lemma cycled_full d n : (0 < length d <= n)%nat -> cycled d n = d ++ cycled d (n - length d).
Proof.
  intros H; destruct (decide (n = length d)) as [->|]; [|apply cycled_long; lia].
  rewrite Nat.sub_diag, app_nil_r; unfold cycled; destruct (length d) as [|k] eqn:E; [lia|]; cbn [replicate concat].
  rewrite take_app_le by lia; apply take_ge; lia.
Qed.

Lemma cycled_short d n : (n <= length d)%nat -> cycled d n = take n d.
Proof.
  intros H; unfold cycled; destruct n as [|n]; [done|]; cbn [replicate concat]; apply take_app_le; lia.
Qed.

Lemma length_cycled d n : (0 < length d)%nat -> length (cycled d n) = n.
Proof.
  intros Hd; unfold cycled; rewrite length_take, length_concat, fmap_replicate, sum_list_replicate; nia.
Qed.

(** The bits of a number, one shift at a time. *)
Lemma bits_step one zero i : 0 < i ->
  bits_of one zero i = (if Z.odd i then one else zero) ++ bits_of one zero (Z.shiftr i 1) /\ 0 <= Z.shiftr i 1 < i.
Proof.
  intros Hi; split; [|rewrite Z.shiftr_div_pow2 by lia; change (2 ^ 1) with 2; Z.div_mod_to_equations; lia].
  destruct i as [|[p|p|]|p]; try lia; cbn; rewrite ?app_nil_r; reflexivity.
Qed.

(** ** The MD5 of crypt_md5 *)

Lemma length_md5 m : length (md5 m) = 16%nat.
Proof. unfold md5; destruct (digest _ _ _ _) as [[[a b] c] d]; reflexivity. Qed.

Notation md5_bound := (fun d : list Z => Z.of_nat (length d) <= 4294967232).

(** One update in the goal: its context is replaced by one that holds the longer message. *)
Ltac md5_feed H :=
  match goal with |- context [MD5Update ?x ?d] =>
    let x' := fresh "x" in let E := fresh "E" in let H' := fresh "H" in
    destruct (md5_update_holds _ x d H) as (x' & E & H'); [|rewrite E; clear E H; rename H' into H; cbn [mbind option_bind]]
  end.

Lemma md5_stretch_holds final : length final = 16%nat -> forall fuel pl m x,
  Md5.holds m x -> (Z.to_nat pl <= fuel)%nat ->
  exists x', md5_stretch fuel pl final x = Some x' /\ Md5.holds (m ++ cycled final (Z.to_nat pl)) x'.
Proof.
  intros Hf; induction fuel as [|fuel IH]; intros pl m x Hx Hpl; cbn [md5_stretch]; destruct (Z.ltb_spec 0 pl) as [Hlt|Hge]; try lia.
  - exists x; replace (Z.to_nat pl) with 0%nat by lia; now rewrite app_nil_r.
  - md5_feed Hx; [rewrite length_take; lia|].
    destruct (IH (pl - 16) _ _ Hx ltac:(lia)) as (x' & -> & Hx'); exists x'; split; [done|].
    replace (cycled final (Z.to_nat pl)) with (take (Z.to_nat (if 16 <? pl then 16 else pl)) final ++ cycled final (Z.to_nat (pl - 16)));
      [now rewrite app_assoc|].
    destruct (Z.ltb_spec 16 pl) as [Hl|Hl].
    + rewrite (cycled_long _ (Z.to_nat pl)), take_ge by lia; do 2 f_equal; lia.
    + rewrite (cycled_short _ (Z.to_nat pl)) by lia; replace (Z.to_nat (pl - 16)) with 0%nat by lia; apply app_nil_r.
  - exists x; replace (Z.to_nat pl) with 0%nat by lia; now rewrite app_nil_r.
Qed.

Lemma md5_length_bits_holds pw final : forall fuel i m x,
  Md5.holds m x -> 0 <= i <= Z.of_nat fuel ->
  exists x', md5_length_bits fuel i pw final x = Some x' /\ Md5.holds (m ++ bits_of (take 1 final) (take 1 pw) i) x'.
Proof.
  induction fuel as [|fuel IH]; intros i m x Hx Hi; cbn [md5_length_bits]; destruct (Z.eqb_spec i 0) as [->|Hne]; try lia.
  1, 2: exists x; cbn; now rewrite app_nil_r.
  destruct (bits_step (take 1 final) (take 1 pw) i ltac:(lia)) as [-> Hs]; rewrite app_assoc.
  md5_feed Hx; [rewrite length_take; lia|].
  replace (take 1 (if Z.odd i then final else pw)) with (if Z.odd i then take 1 final else take 1 pw) in Hx by now destruct (Z.odd i).
  apply IH; [done|lia].
Qed.

Lemma md5_rounds_hold pw sp : md5_bound pw -> md5_bound sp -> forall n i final x,
  length (Md5.buffer x) = 64%nat -> length final = 16%nat ->
  md5_rounds n (Z.of_nat i) pw sp final x = Some (fold_left (stir md5 pw sp) (seq i n) final).
Proof.
  intros Hp Hs; induction n as [|n IH]; intros i final x Hb Hf; [done|]; cbn [md5_rounds seq fold_left].
  pose proof (md5_init_holds (Md5.buffer x) Hb) as Hx; set (k := Z.of_nat i) in *.
  md5_feed Hx; [destruct (Z.odd k); auto; lia|]; rewrite app_nil_l in Hx.
  assert (H3 : exists y, (if k mod 3 =? 0 then Some x0 else MD5Update x0 sp) = Some y /\
    Md5.holds ((if Z.odd k then pw else final) ++ (if k mod 3 =? 0 then [] else sp)) y).
  { destruct (k mod 3 =? 0); [exists x0; now rewrite app_nil_r|apply md5_update_holds; auto]. }
  destruct H3 as (y & -> & Hy); cbn [mbind option_bind].
  assert (H7 : exists z, (if k mod 7 =? 0 then Some y else MD5Update y pw) = Some z /\
    Md5.holds (((if Z.odd k then pw else final) ++ (if k mod 3 =? 0 then [] else sp)) ++ (if k mod 7 =? 0 then [] else pw)) z).
  { destruct (k mod 7 =? 0); [exists y; now rewrite app_nil_r|apply md5_update_holds; auto]. }
  destruct H7 as (z & -> & Hz); cbn [mbind option_bind].
  md5_feed Hz; [destruct (Z.odd k); auto; lia|].
  destruct (md5_final_spec _ _ Hz) as (w & -> & Hw); cbn [mbind option_bind].
  replace (k + 1) with (Z.of_nat (S i)) by lia; rewrite IH by (auto using length_md5).
  unfold stir at 3; fold k; rewrite <- !app_assoc; reflexivity.
Qed.

Lemma strlen_of s r : 0 ∉ s -> strlen_loop (s ++ 0 :: r) = Some (length s).
Proof.
  induction s as [|x s IH]; intros H; [done|]; cbn [app strlen_loop length].
  rewrite (proj2 (Z.eqb_neq x 0)) by set_solver; rewrite IH by set_solver; reflexivity.
Qed.

(** A call with the salt [s]: [salt] may have the magic string in front and goes on as
    it likes behind [s]. *)
Lemma crypt_md5_step junk junk1 pw r salt d s :
  length junk = 64%nat -> length junk1 = 64%nat -> 0 ∉ pw -> Z.of_nat (length pw) <= 4294967232 ->
  strncmp_loop id 3 salt (cstr magic) = Some d ->
  let sp := if d =? 0 then drop 3 salt else salt in
  salt_length 8 sp = Some (length s) -> take (length s) sp = s -> (length s <= 8)%nat ->
  crypt_md5 junk junk1 (pw ++ 0 :: r) salt = Some (cstr (md5_text pw s)).
Proof.
  intros Hj Hj1 H0 Hl Hd sp Hsl Hs Hs8; unfold crypt_md5; rewrite strlen_of by done; cbn [mbind option_bind].
  rewrite Hd; cbn [mbind option_bind]; fold sp; rewrite Hsl; cbn [mbind option_bind]; rewrite Hs, take_app_length.
  pose proof (md5_init_holds junk Hj) as Hx; pose proof (md5_init_holds junk1 Hj1) as Hy.
  md5_feed Hx; [done|]; md5_feed Hx; [cbn; lia|]; md5_feed Hx; [lia|].
  md5_feed Hy; [done|]; md5_feed Hy; [lia|]; md5_feed Hy; [done|]; rewrite !app_nil_l in *.
  destruct (md5_final_spec _ _ Hy) as (u0 & -> & Hyb); cbn [mbind option_bind].
  destruct (md5_stretch_holds (md5 ((pw ++ s) ++ pw)) (length_md5 _) (length pw) (Z.of_nat (length pw)) _ _ Hx ltac:(lia))
    as (u1 & -> & Hx1); cbn [mbind option_bind]; rewrite Nat2Z.id in Hx1.
  destruct (md5_length_bits_holds pw (replicate 16 0) (length pw) (Z.of_nat (length pw)) _ _ Hx1 ltac:(lia))
    as (u2 & -> & Hx2); cbn [mbind option_bind].
  destruct (md5_final_spec _ _ Hx2) as (u3 & -> & _); cbn [mbind option_bind].
  change 0 with (Z.of_nat 0) at 1; rewrite md5_rounds_hold by (rewrite ?length_md5; auto; lia); cbn [mbind option_bind].
  unfold md5_text, md5_crypt_hash; rewrite <- !app_assoc; reflexivity.
Qed.

(** ** The digests of sha256_crypt and sha512_crypt *)

Definition digit_count (o : list (option nat * option nat * nat * nat)) : nat := sum_list_with (fun '(_, _, _, n) => n) o.

(** What the proofs need to know of the two records. *)
Record crypt_ok (c : crypt) : Prop := {
  ok_standard : standard (c_hash c);
  ok_len : forall m, length (sha2_hash (c_hash c) m) = c_len c;
  ok_len_pos : (0 < c_len c)%nat;
  ok_prefix : exists x, c_prefix c = [dollar; x; dollar] /\ x <> 0;
  ok_digits : c_digits c = Z.of_nat (digit_count (c_order c)) /\ (2 <= digit_count (c_order c))%nat
}.

Lemma length_hash p k m :
  Z.to_nat (2 ^ lg p / 16) = k -> length (sha2_hash p m) = (8 * k)%nat.
Proof.
  intros Hk; unfold sha2_hash; destruct (digest _ _ _ _) as [[[[[[[h0 h1] h2] h3] h4] h5] h6] h7].
  cbn [map concat]; rewrite !length_app, !sha2_length_be, Hk; cbn [length]; lia.
Qed.

Lemma crypt256_ok : crypt_ok crypt256.
Proof.
  split; [exact sha256_standard|intros m; now apply (length_hash _ 4)|cbn; lia|now exists 53|split; [reflexivity|vm_compute; lia]].
Qed.
Lemma crypt512_ok : crypt_ok crypt512.
Proof.
  split; [exact sha512_standard|intros m; now apply (length_hash _ 8)|cbn; lia|now exists 54|split; [reflexivity|vm_compute; lia]].
Qed.

Section sha_proofs.
Context (c : crypt) (Hc : crypt_ok c) (at_ : places).
Notation p := (c_hash c).
Notation H0 := (ok_standard c Hc).
Notation hash := (sha2_hash p).
Notation holds := (Sha2.holds p).
Notation small d := (Z.of_nat (length d) < 4294967296).
Notation block := (2 * Z.to_nat (2 ^ lg p))%nat.

Ltac sha_feed H :=
  match goal with |- context [process_bytes _ ?a ?d ?x] =>
    let x' := fresh "x" in let E := fresh "E" in let H' := fresh "H" in
    destruct (sha2_process_bytes_holds _ H0 a _ x d H) as (x' & E & H'); [|rewrite E; clear E H; rename H' into H; cbn [mbind option_bind]]
  end.

Lemma process_ok a m x d : holds m x -> small d -> exists x', process_bytes p a d x = Some x' /\ holds (m ++ d) x'.
Proof. apply sha2_process_bytes_holds, H0. Qed.

Lemma repeat_piece_holds a d : small d -> forall n m x,
  holds m x -> exists x', repeat_piece c n a d x = Some x' /\ holds (m ++ concat (replicate n d)) x'.
Proof.
  intros Hd; induction n as [|n IH]; intros m x Hx; cbn [repeat_piece replicate concat]; [exists x; now rewrite app_nil_r|].
  sha_feed Hx; [done|]; rewrite app_assoc; auto.
Qed.

Lemma sha_stretch_holds alt : length alt = c_len c -> small alt -> forall fuel n m x,
  holds m x -> (n <= fuel)%nat ->
  exists x', sha_stretch c at_ fuel n alt x = Some x' /\ holds (m ++ cycled alt n) x'.
Proof.
  pose proof (ok_len_pos c Hc) as Hpos; intros Hl Hs; induction fuel as [|fuel IH]; intros n m x Hx Hn; cbn [sha_stretch];
    destruct (Nat.ltb_spec (c_len c) n) as [Hlt|Hge]; try lia.
  - rewrite cycled_short by lia; apply process_ok; [done|rewrite length_take; lia].
  - sha_feed Hx; [done|]; rewrite (cycled_long _ n), Hl, app_assoc by lia; apply IH; [done|lia].
  - rewrite cycled_short by lia; apply process_ok; [done|rewrite length_take; lia].
Qed.

Lemma sha_length_bits_holds key alt : small key -> small alt -> forall fuel i m x,
  holds m x -> 0 <= i <= Z.of_nat fuel ->
  exists x', sha_length_bits c at_ fuel i key alt x = Some x' /\ holds (m ++ bits_of alt key i) x'.
Proof.
  intros Hk Ha; induction fuel as [|fuel IH]; intros i m x Hx Hi; cbn [sha_length_bits]; destruct (Z.eqb_spec i 0) as [->|Hne]; try lia.
  1, 2: exists x; cbn; now rewrite app_nil_r.
  destruct (bits_step alt key i ltac:(lia)) as [-> Hs]; rewrite app_assoc.
  destruct (Z.odd i); (sha_feed Hx; [done|]); apply IH; auto; lia.
Qed.

Lemma byte_sequence_is d : length d = c_len c -> forall fuel n, (n <= fuel)%nat -> byte_sequence c fuel n d = Some (cycled d n).
Proof.
  pose proof (ok_len_pos c Hc) as Hpos; intros Hd; induction fuel as [|fuel IH]; intros n Hn; cbn [byte_sequence];
    destruct (Nat.leb_spec (c_len c) n) as [Hle|Hgt]; try lia.
  - now rewrite cycled_short by lia.
  - rewrite IH by lia; cbn [mbind option_bind]; now rewrite (cycled_full d n), Hd by lia.
  - now rewrite cycled_short by lia.
Qed.

Lemma sha_rounds_hold pb sb : small pb -> small sb -> forall n i alt x,
  length (Sha2.buffer x) = block -> small alt ->
  sha_rounds c at_ n (Z.of_nat i) pb sb alt x = Some (fold_left (stir hash pb sb) (seq i n) alt).
Proof.
  intros Hp Hs; induction n as [|n IH]; intros i alt x Hb Ha; [done|]; cbn [sha_rounds seq fold_left].
  pose proof (sha2_init_holds _ H0 (Sha2.buffer x) Hb) as Hx; set (k := Z.of_nat i) in *.
  assert (H1 : exists y, (if Z.odd k then process_bytes p (at_p at_) pb (init_ctx p (Sha2.buffer x))
      else process_bytes p (at_alt at_) alt (init_ctx p (Sha2.buffer x))) = Some y /\ holds (if Z.odd k then pb else alt) y)
    by (destruct (Z.odd k); apply (process_ok _ [] _ _ Hx); done).
  destruct H1 as (y & -> & Hy); cbn [mbind option_bind].
  assert (H3 : exists z, (if k mod 3 =? 0 then Some y else process_bytes p (at_s at_) sb y) = Some z /\
    holds ((if Z.odd k then pb else alt) ++ (if k mod 3 =? 0 then [] else sb)) z).
  { destruct (k mod 3 =? 0); [exists y; now rewrite app_nil_r|now apply process_ok]. }
  destruct H3 as (z & -> & Hz); cbn [mbind option_bind].
  assert (H7 : exists u, (if k mod 7 =? 0 then Some z else process_bytes p (at_p at_) pb z) = Some u /\
    holds (((if Z.odd k then pb else alt) ++ (if k mod 3 =? 0 then [] else sb)) ++ (if k mod 7 =? 0 then [] else pb)) u).
  { destruct (k mod 7 =? 0); [exists z; now rewrite app_nil_r|now apply process_ok]. }
  destruct H7 as (u & -> & Hu); cbn [mbind option_bind].
  assert (H9 : exists v, (if Z.odd k then process_bytes p (at_alt at_) alt u else process_bytes p (at_p at_) pb u) = Some v /\
    holds ((((if Z.odd k then pb else alt) ++ (if k mod 3 =? 0 then [] else sb)) ++ (if k mod 7 =? 0 then [] else pb)) ++
           (if Z.odd k then alt else pb)) v) by (destruct (Z.odd k); now apply process_ok).
  destruct H9 as (v & -> & Hv); cbn [mbind option_bind].
  destruct (sha2_finish_spec _ H0 _ _ Hv) as (w & -> & Hw); cbn [mbind option_bind].
  replace (k + 1) with (Z.of_nat (S i)) by lia.
  rewrite IH by (auto; rewrite (length_hash p (Z.to_nat (2 ^ lg p / 16))) by done;
    destruct (std_lg _ H0) as [->| ->]; vm_compute; reflexivity).
  unfold stir at 3; fold k; rewrite <- !app_assoc; reflexivity.
Qed.

Lemma small_hash m : small (hash m).
Proof. rewrite (length_hash p (Z.to_nat (2 ^ lg p / 16))) by done; destruct (std_lg _ H0) as [->| ->]; vm_compute; reflexivity. Qed.

Lemma sha_digest_is key s rounds :
  length (junk_ctx at_) = block -> length (junk_alt at_) = block -> small key -> small s ->
  sha_digest c at_ key s rounds = Some (sha_crypt_hash c key s rounds).
Proof.
  pose proof (ok_len_pos c Hc) as Hpos; intros Hj1 Hj2 Hk Hs; unfold sha_digest.
  pose proof (sha2_init_holds _ H0 _ Hj1) as Hx; pose proof (sha2_init_holds _ H0 _ Hj2) as Hy.
  sha_feed Hx; [done|]; sha_feed Hx; [done|]; sha_feed Hy; [done|]; sha_feed Hy; [done|]; sha_feed Hy; [done|]; rewrite !app_nil_l in *.
  destruct (sha2_finish_spec _ H0 _ _ Hy) as (y0 & -> & Hy0); cbn [mbind option_bind].
  set (alt := hash ((key ++ s) ++ key)); assert (Hal : length alt = c_len c) by apply (ok_len c Hc).
  destruct (sha_stretch_holds alt Hal (small_hash _) (length key) (length key) _ _ Hx ltac:(lia)) as (u1 & -> & Hx1); cbn [mbind option_bind].
  destruct (sha_length_bits_holds key alt Hk (small_hash _) (length key) (Z.of_nat (length key)) _ _ Hx1 ltac:(lia))
    as (u2 & -> & Hx2); cbn [mbind option_bind].
  destruct (sha2_finish_spec _ H0 _ _ Hx2) as (u3 & -> & Hu3); cbn [mbind option_bind]; set (mixed := hash (_ ++ _)).
  destruct (repeat_piece_holds (at_key at_) key Hk (length key) [] _ (sha2_init_holds _ H0 _ Hy0)) as (y1 & -> & Hy1); cbn [mbind option_bind].
  destruct (sha2_finish_spec _ H0 _ _ Hy1) as (y2 & -> & Hy2); cbn [mbind option_bind].
  rewrite byte_sequence_is by (apply (ok_len c Hc) || lia); cbn [mbind option_bind].
  destruct (repeat_piece_holds (at_salt at_) s Hs (Z.to_nat (16 + byte_at mixed 0)) [] _ (sha2_init_holds _ H0 _ Hy2)) as (y3 & -> & Hy3);
    cbn [mbind option_bind].
  destruct (sha2_finish_spec _ H0 _ _ Hy3) as (y4 & -> & Hy4); cbn [mbind option_bind].
  rewrite byte_sequence_is by (apply (ok_len c Hc) || lia); cbn [mbind option_bind].
  change 0 with (Z.of_nat 0) at 1; rewrite sha_rounds_hold;
    [|rewrite length_cycled; [done|rewrite (ok_len c Hc); lia]|rewrite length_cycled; [done|rewrite (ok_len c Hc); lia]|done|apply small_hash].
  unfold sha_crypt_hash; fold alt; rewrite !app_nil_l; unfold mixed, alt; rewrite <- !app_assoc; reflexivity.
Qed.

(** ** The text *)

Lemma b64_from_24bit_is n : forall w out buflen, Z.of_nat n <= buflen ->
  b64_from_24bit n w (out, buflen) = (out ++ _crypt_to64 w n, buflen - Z.of_nat n).
Proof.
  induction n as [|n IH]; intros w out buflen Hl; cbn [b64_from_24bit _crypt_to64].
  - rewrite app_nil_r; f_equal; lia.
  - rewrite (proj2 (Z.ltb_lt _ _)), IH, <- app_assoc by lia; cbn [app]; f_equal; lia.
Qed.

Lemma put_digits_is alt out buflen : Z.of_nat (digit_count (c_order c)) <= buflen ->
  put_digits c alt (out, buflen) = (out ++ sha_digits c alt, buflen - Z.of_nat (digit_count (c_order c))).
Proof.
  unfold put_digits, sha_digits, digit_count; set (f := fun o : option nat => match o with Some i => byte_at alt i | None => 0 end).
  generalize (c_order c); intros o; revert out buflen; induction o as [|[[[b2 b1] b0] n] o IH]; intros out buflen Hl.
  - cbn; rewrite app_nil_r; f_equal; lia.
  - cbn [fold_left map concat sum_list_with] in *; rewrite b64_from_24bit_is, IH by lia; rewrite <- app_assoc; f_equal; lia.
Qed.

Lemma plain_number n : 0 < n < 2 ^ 64 -> format_int_text n 0 10 0 (-1) = decimal n.
Proof.
  intros Hn; unfold format_int_text, int_layout, decimal; set (d := count_digits 64 n 10).
  assert (Hd : (0 < d)%nat) by (unfold d; cbn [count_digits]; rewrite (proj2 (Z.eqb_neq n 0)) by lia; lia).
  change (has 0 FL_SIGNED) with false; change (has 0 FL_UPPER) with false; change (has 0 FL_HASH) with false;
    change (has 0 FL_TICK) with false; change (has 0 (FL_PLUS + FL_SPACE)) with false; cbn [andb orb].
  fold d; rewrite !(proj2 (Z.ltb_ge (Z.of_nat d) (-1))), !(proj2 (Z.eqb_neq n 0)) by lia.
  replace (Z.of_nat d + (Z.of_nat d - 1) / Z.of_nat d) with (Z.of_nat d) by (rewrite Z.div_small by lia; lia).
  unfold paddings; change (has 0 (FL_MINUS + FL_ZERO)) with false; change (has 0 FL_MINUS) with false; cbn [negb andb].
  rewrite (proj2 (Z.ltb_ge (Z.of_nat d) 0)) by lia; cbn [replicate app].
  change (nondigits false 0 10) with (@nil Z); change (Z.land 0 (FL_MINUS + FL_ZERO) =? FL_ZERO) with false; cbn [andb replicate app].
  now rewrite app_nil_r, Nat2Z.id, number_text_plain by lia.
Qed.

Lemma count_digits_le base : forall fuel val, (count_digits fuel val base <= fuel)%nat.
Proof. induction fuel as [|fuel IH]; intros val; cbn [count_digits]; [lia|]; destruct (val =? 0); [lia|]; specialize (IH (val / base)); lia. Qed.

Lemma plain_fits n : 0 < n < 2 ^ 64 -> int_fits n 0 10 (-1) = true.
Proof.
  intros Hn; unfold int_fits, int_layout; set (d := count_digits 64 n 10).
  assert (Hd : (d <= 64)%nat) by apply count_digits_le.
  assert (Hp : (0 < d)%nat) by (unfold d; cbn [count_digits]; rewrite (proj2 (Z.eqb_neq n 0)) by lia; lia).
  change (has 0 FL_SIGNED) with false; change (has 0 FL_HASH) with false;
    change (has 0 FL_TICK) with false; change (has 0 (FL_PLUS + FL_SPACE)) with false; cbn [andb orb].
  fold d; rewrite !(proj2 (Z.ltb_ge (Z.of_nat d) (-1))), !(proj2 (Z.eqb_neq n 0)) by lia.
  rewrite Z.div_small by lia; apply Z.leb_le; lia.
Qed.

Lemma rounds_format n : 0 < u32 n <= 999999999 ->
  format_text [37; 115; 37; 122; 117; 36] [ArgStr (Some rounds_prefix); ArgNum n] =
  Some (rounds_prefix ++ decimal (u32 n) ++ [36], []).
Proof.
  intros Hn; pose proof (plain_fits (u32 n) ltac:(lia)) as Hf; pose proof (plain_number (u32 n) ltac:(lia)) as Hd.
  assert (Hl : (length (decimal (u32 n)) <= 64)%nat) by (unfold decimal; rewrite digits_of_length; apply count_digits_le).
  set (st := fun e args => @Printf (list Z) e args st_normal 0 rank_long 0 (-1) []).
  set (s0 := @Printf (list Z) [] [ArgStr (Some rounds_prefix); ArgNum n] st_normal 0 rank_int 0 (-1) []).
  set (s1 := @Printf (list Z) rounds_prefix [ArgNum n] st_normal 0 rank_int 0 (-1) []).
  assert (E1 : @printf_loop _ text_sink [37; 115] s0 = Some s1) by reflexivity.
  assert (E2 : @printf_loop _ text_sink [37; 122; 117] s1 = Some (st (rounds_prefix ++ decimal (u32 n)) [])).
  { change (@printf_loop _ text_sink [37; 122; 117] s1) with
      (let* s := @print_integer _ text_sink (u32 n) 10 (st rounds_prefix []) in Some s).
    unfold print_integer, st; cbn [p_flags p_width p_prec p_out print_int text_sink].
    rewrite Hf, Hd, grow_some by (cbn [length rounds_prefix]; lia); reflexivity. }
  assert (E3 : @printf_loop _ text_sink [36] (st (rounds_prefix ++ decimal (u32 n)) []) = Some (st (rounds_prefix ++ decimal (u32 n) ++ [36]) [])).
  { change (@printf_loop _ text_sink [36] (st (rounds_prefix ++ decimal (u32 n)) [])) with
      (let* s := (let* o := grow (rounds_prefix ++ decimal (u32 n)) [36] in Some (st o [])) in Some s).
    rewrite grow_some by (rewrite length_app; cbn [length rounds_prefix]; lia); now rewrite <- app_assoc. }
  unfold format_text; change [37; 115; 37; 122; 117; 36] with ([37; 115] ++ [37; 122; 117] ++ [36]).
  rewrite printf_loop_app; fold s0; rewrite E1; cbn [mbind option_bind]; rewrite printf_loop_app, E2; cbn [mbind option_bind]; now rewrite E3.
Qed.

Lemma put_rounds_is n out buflen : 0 < n <= 999999999 -> Z.of_nat (length (rounds_text (Some n))) < buflen ->
  put_rounds n (out, buflen) = Some (out ++ rounds_text (Some n), buflen - Z.of_nat (length (rounds_text (Some n)))).
Proof.
  intros Hn Hl; unfold put_rounds; rewrite rounds_format, u32_small by (rewrite ?u32_small by lia; lia); cbn [mbind option_bind].
  fold (rounds_text (Some n)); rewrite (proj2 (Z.ltb_lt _ _)), Nat2Z.id, take_ge by lia; reflexivity.
Qed.

Lemma copy_text_is s out buflen : Z.of_nat (length s) <= buflen -> copy_text s (out, buflen) = (out ++ s, buflen - Z.of_nat (length s)).
Proof. intros Hl; unfold copy_text; rewrite Z.max_r, Z.min_r, Nat2Z.id, take_ge by lia; reflexivity. Qed.

(** A call whose salt is read as [s] and [rounds]. *)
Lemma sha_crypt_r_step key r salt buflen sal k s rounds :
  length (junk_ctx at_) = block -> length (junk_alt at_) = block -> 0 ∉ key -> small key ->
  read_salt c salt = Some (sal, default 5000 rounds, match rounds with Some _ => true | None => false end) ->
  match rounds with Some n => 1000 <= n <= 999999999 | None => True end ->
  strcspn (sal ++ cstr [dollar]) 0 (length sal) = Some k -> take (Nat.min k 16) sal = s -> (length s <= 16)%nat ->
  3 + Z.of_nat (length (rounds_text rounds)) + Z.of_nat (length s) + 1 + c_digits c + 1 <= buflen ->
  sha_crypt_r c at_ (key ++ 0 :: r) salt buflen = Some (Some (cstr (sha_text c rounds key s))).
Proof.
  intros Hj1 Hj2 Hk0 Hk Hr Hn Hsp Hs Hs16 Hroom; unfold sha_crypt_r; rewrite Hr; cbn [mbind option_bind].
  rewrite Hsp; cbn [mbind option_bind]; rewrite strlen_of by done; cbn [mbind option_bind].
  rewrite take_app_length, Hs, sha_digest_is by (done || lia); cbn [mbind option_bind].
  destruct (ok_prefix c Hc) as (x & Hpre & _); destruct (ok_digits c Hc) as [Hd Hd2]; rewrite Hd in Hroom.
  rewrite take_ge by (rewrite Hpre; cbn [length]; lia).
  assert (Er : (if match rounds with Some _ => true | None => false end
      then put_rounds (default 5000 rounds) (c_prefix c, buflen - 3) else Some (c_prefix c, buflen - 3)) =
    Some (c_prefix c ++ rounds_text rounds, buflen - 3 - Z.of_nat (length (rounds_text rounds)))).
  { destruct rounds as [n|]; [apply put_rounds_is; lia|]; cbn; rewrite app_nil_r; do 2 f_equal; lia. }
  rewrite Er; cbn [mbind option_bind]; rewrite copy_text_is, (proj2 (Z.ltb_lt _ _)), put_digits_is, (proj2 (Z.leb_gt _ _)) by lia.
  unfold sha_text; now rewrite <- !app_assoc.
Qed.
End sha_proofs.
