(* ===== verification/PasswdProof.v ===== *)
(** * The comparison of passwords: menu/passwd.c on every kind of stored password

    How a stored string is taken apart, the five kinds of it, and when [passwd_compare]
    accepts a password. *)

From S2P Require Import Prelude CString NumParse Printf Base64 Hash Md5 Sha1 Sha2 Passwd CryptProof.

(** ** What is stored *)

(** Comparisons with a string that is known. *)
Lemma strncmp_prefix a : 0 ∉ a -> a <> [] -> forall b r r', Forall (.≠ 0) b ->
  exists d, strncmp_loop id (length a) (a ++ r) (b ++ 0 :: r') = Some d /\ (d = 0 <-> take (length a) b = a).
Proof.
  induction a as [|x a IH]; intros H0 Hne b r r' Hb; [done|]; cbn [app length strncmp_loop]; unfold id.
  assert (Hx : x <> 0) by set_solver.
  destruct b as [|y b]; cbn [app take].
  - rewrite (proj2 (Z.eqb_neq (x - 0) 0)) by lia; cbn [negb orb]; exists (x - 0); split; [done|split; [lia|done]].
  - destruct (Z.eqb_spec (x - y) 0) as [E|E]; cbn [negb orb].
    + assert (y = x) as -> by lia; rewrite (proj2 (Z.eqb_neq x 0)) by done.
      destruct a as [|z a]; cbn [length].
      * exists (x - x); split; [done|split; [done|lia]].
      * apply Forall_cons in Hb as [_ Hb].
        destruct (IH ltac:(set_solver) ltac:(done) b r r' Hb) as (d & Ed & Hd); exists d; split; [exact Ed|].
        rewrite Hd; cbn [length]; split; congruence.
    + exists (x - y); split; [done|split; [lia|intros [= H _]; lia]].
Qed.

Lemma strncmp_swap n : forall a b, option_map (fun d => bool_decide (d = 0)) (strncmp_loop id n a b) = 
  option_map (fun d => bool_decide (d = 0)) (strncmp_loop id n b a).
Proof.
  induction n as [|n IH]; intros [|x a] [|y b]; cbn [strncmp_loop]; unfold id; auto.
  destruct (Z.eqb_spec (x - y) 0) as [E|E], (Z.eqb_spec (y - x) 0) as [E'|E']; try lia; cbn [negb orb option_map].
  - assert (x = y) as -> by lia; destruct (y =? 0); [reflexivity|]; destruct n; [reflexivity|apply IH].
  - do 2 f_equal; rewrite !bool_decide_eq_false_2 by lia; done.
Qed.

Lemma strncmp_prefix_r a b r r' : 0 ∉ a -> a <> [] -> Forall (.≠ 0) b ->
  exists d, strncmp_loop id (length a) (b ++ 0 :: r') (a ++ r) = Some d /\ (d = 0 <-> take (length a) b = a).
Proof.
  intros H0 Hne Hb; destruct (strncmp_prefix a H0 Hne b r r' Hb) as (d & Ed & Hd).
  pose proof (strncmp_swap (length a) (a ++ r) (b ++ 0 :: r')) as E; rewrite Ed in E; cbn [option_map] in E.
  destruct (strncmp_loop _ _ (b ++ _) _) as [d'|]; cbn [option_map] in E; [|done]; exists d'; split; [done|].
  rewrite <- Hd, <- (bool_decide_eq_true (d = 0)), <- (bool_decide_eq_true (d' = 0)); injection E as ->; done.
Qed.

Lemma not_zero l : 0 ∉ l -> Forall (.≠ 0) l.
Proof. intros H; apply Forall_forall; intros x Hx ->; apply H; done. Qed.

(** What follows the digits in a stored string: nothing, or a dollar and anything. *)
Definition tail_ok (tail : list Z) : Prop := match tail with [] => True | ch :: _ => ch = dollar end.

Lemma compare_spec a dig dig' tail r :
  0 ∉ a -> a <> [] -> 0 ∉ dig -> 0 ∉ dig' -> 0 ∉ tail -> tail_ok tail -> length dig = length dig' ->
  compare_crypted (cstr (a ++ dig)) ((a ++ dig' ++ tail) ++ 0 :: r) = Some (bool_decide (dig = dig')).
Proof.
  intros Ha Hne Hd Hd' Ht Hok Hl; unfold compare_crypted, cstr; rewrite strlen_of by set_solver; cbn [mbind option_bind].
  destruct (strncmp_prefix (a ++ dig) ltac:(set_solver) ltac:(destruct a; done) (a ++ dig' ++ tail) [0] r) as (d & -> & E);
    [apply not_zero; set_solver|]; cbn [mbind option_bind].
  assert (Et : take (length (a ++ dig)) (a ++ dig' ++ tail) = a ++ dig').
  { rewrite app_assoc; apply take_app_length'; rewrite !length_app; lia. }
  rewrite Et in E; destruct (Z.eqb_spec d 0) as [Hz|Hz].
  - apply E, app_inv_head in Hz; subst dig'; rewrite bool_decide_eq_true_2 by done.
    rewrite app_assoc, <- app_assoc, lookup_app_r, Nat.sub_diag by lia.
    destruct tail as [|ch tail]; cbn; [done|]; cbn in Hok; subst ch; reflexivity.
  - rewrite bool_decide_eq_false_2; [done|]; intros ->; tauto.
Qed.

(** A salt up to its dollar. *)
Lemma salt_length_is s t : forall n, 0 ∉ s -> dollar ∉ s -> (length s <= n)%nat -> salt_length n (s ++ dollar :: t) = Some (length s).
Proof.
  induction s as [|x s IH]; intros n H0 Hd Hn; destruct n as [|n]; cbn [length] in *; try lia; cbn [app salt_length]; try done.
  rewrite (proj2 (Z.eqb_neq x 0)), (proj2 (Z.eqb_neq x dollar)), IH by (set_solver || lia); reflexivity.
Qed.

(** A salt is not taken for one with the prefix in front. *)
Lemma no_prefix s dig tail x : (2 <= length dig)%nat -> dollar ∉ s -> dollar ∉ dig ->
  take 3 (s ++ dollar :: dig ++ tail) <> [dollar; x; dollar].
Proof.
  intros Hl Hs Hd E; destruct s as [|y s]; [|injection E as -> _; set_solver].
  destruct dig as [|d0 [|d1 dig]]; cbn [length] in Hl; try lia; cbn in E; injection E as _ ->; set_solver.
Qed.

Definition digit_ok (x : Z) : Prop := x <> 0 /\ x <> dollar /\ is_byte x.

Lemma itoa64_ok i : (i < 64)%nat -> digit_ok (nth i itoa64 0).
Proof.
  intros Hi; assert (H : Forall digit_ok itoa64) by (unfold digit_ok, is_byte; vm_compute itoa64; repeat constructor; lia).
  apply (proj1 (Forall_nth _ _ _) H); exact Hi.
Qed.

Lemma to64_ok n : forall v, length (_crypt_to64 v n) = n /\ Forall digit_ok (_crypt_to64 v n).
Proof.
  induction n as [|n IH]; intros v; cbn [_crypt_to64 length]; [split; constructor|].
  destruct (IH (Z.shiftr v 6)) as [-> H]; split; [done|constructor; [|done]].
  apply itoa64_ok; change 0x3f with (Z.ones 6); rewrite Z.land_ones by lia; change (2 ^ 6) with 64; Z.div_mod_to_equations; lia.
Qed.

(** ** The salts of sha256_crypt and sha512_crypt *)

Lemma str_at_intro s rest : Forall is_byte s -> 0 ∉ s -> forall mem p, drop p mem = s ++ 0 :: rest -> str_at mem p s.
Proof.
  assert (Hhead : forall (mem : list Z) p x l, drop p mem = x :: l -> mem !! p = Some x).
  { intros mem p x l E; rewrite <- (Nat.add_0_r p), <- lookup_drop, E; done. }
  induction s as [|c s IH]; intros Hb H0 mem p E; cbn [str_at app] in *; [eauto|].
  apply Forall_cons in Hb as [Hc Hb]; repeat split; try apply Hc; [eauto|set_solver|].
  apply IH; [done|set_solver|]; replace (S p) with (p + 1)%nat by lia; now rewrite <- drop_drop, E.
Qed.

Lemma salt_span s t r : Forall is_byte (s ++ dollar :: t) -> 0 ∉ s ++ dollar :: t -> dollar ∉ s ->
  let sal := (s ++ dollar :: t) ++ 0 :: r in strcspn (sal ++ cstr [dollar]) 0 (length sal) = Some (length s).
Proof.
  intros Hb H0 Hd sal; destruct (strxspn_correct (sal ++ cstr [dollar]) 0 (length sal) (s ++ dollar :: t) [dollar]) as [_ ->].
  - apply (str_at_intro _ (r ++ cstr [dollar])); [done..|]; unfold sal; rewrite drop_0, <- app_assoc; done.
  - apply (str_at_intro _ []); [repeat constructor; unfold is_byte; lia|set_solver|]; apply drop_app_length.
  - f_equal; clear Hb H0 sal r; induction s as [|x s IH]; cbn [app span length].
    + rewrite bool_decide_eq_true_2 by set_solver; done.
    + rewrite bool_decide_eq_false_2 by set_solver; cbn [negb]; rewrite IH by set_solver; done.
Qed.

Lemma strtoul_decimal n rest : 0 < n < 2 ^ 32 -> strtoul (decimal n ++ dollar :: rest) 10 = Some (n, dollar :: rest).
Proof.
  intros Hn; unfold strtoul, strtox, strntoumax, decimal; set (d := count_digits 64 n 10).
  pose proof (count_digits_le 10 64 n) as Hle; fold d in Hle.
  destruct (count_digits_spec 10 ltac:(lia) 64 n) as [Hd1 Hd2]; [split; [lia|]; change (Z.of_nat 64) with 64; lia|]; fold d in Hd1, Hd2.
  destruct (Hd2 ltac:(lia)) as [Hpos _].
  assert (Hread : take_digits 10 0 SIZE_MAX (digits_of 10 d n ++ dollar :: rest) = Some (n, dollar :: rest)).
  { rewrite take_digits_of by (try rewrite Z.mod_small by lia; unfold SIZE_MAX; try lia; cbn; lia); rewrite Z.mod_small by lia; done. }
  destruct d as [|d]; [lia|]; rewrite digits_of_head in * by lia; cbn [app] in *.
  pose proof (Z.mod_pos_bound (n / 10 ^ Z.of_nat d) 10 ltac:(lia)).
  destruct (lc_char (n / 10 ^ Z.of_nat d mod 10) ltac:(lia)) as (Hs & Hm & Hp & _); set (x := nth _ lcdigits 0) in *.
  cbn [skip_spaces]; change (SIZE_MAX =? 0) with false; rewrite Hs; cbn [mbind option_bind].
  unfold at_char; change (SIZE_MAX =? 0) with false; rewrite (proj2 (Z.eqb_neq x 45)), (proj2 (Z.eqb_neq x 43)) by done; cbn [mbind option_bind].
  change (read_base 10 SIZE_MAX _) with (Some (10, SIZE_MAX, x :: digits_of 10 d n ++ dollar :: rest)); cbn [mbind option_bind].
  rewrite Hread; cbn [mbind option_bind]; now rewrite u32_small by lia.
Qed.

Section stored_sha.
Context (c : crypt) (Hc : crypt_ok c).

Lemma read_salt_plain s dig tail r : 0 ∉ s -> dollar ∉ s -> dollar ∉ dig -> 0 ∉ dig -> 0 ∉ tail -> (2 <= length dig)%nat ->
  take 7 s <> rounds_prefix ->
  read_salt c ((s ++ dollar :: dig ++ tail) ++ 0 :: r) = Some ((s ++ dollar :: dig ++ tail) ++ 0 :: r, 5000, false).
Proof.
  intros H0 Hs Hd Hd0 Ht Hl Hr; unfold read_salt; destruct (ok_prefix c Hc) as (x & Hp & Hx).
  assert (Hz : Forall (.≠ 0) (s ++ dollar :: dig ++ tail)) by (apply not_zero; set_solver).
  destruct (strncmp_prefix (c_prefix c) ltac:(rewrite Hp; set_solver) ltac:(rewrite Hp; done) _ [0] r Hz) as (d & E & Hdz).
  rewrite Hp in E, Hdz; unfold cstr; rewrite Hp; cbn [length] in E, Hdz; rewrite E; cbn [mbind option_bind].
  destruct (Z.eqb_spec d 0) as [->|_]; [exfalso; apply (no_prefix s dig tail x); tauto|].
  destruct (strncmp_prefix_r rounds_prefix (s ++ dollar :: dig ++ tail) [0] r ltac:(unfold rounds_prefix; set_solver) ltac:(done) Hz) as (e & E' & He).
  change (length rounds_prefix) with 7%nat in E', He; rewrite E'; cbn [mbind option_bind].
  destruct (Z.eqb_spec e 0) as [->|_]; [|done]; exfalso; destruct He as [He _]; specialize (He eq_refl).
  destruct (decide (7 <= length s)%nat) as [Hge|Hlt]; [rewrite take_app_le in He by done; tauto|].
  assert (Hin : dollar ∈ rounds_prefix).
  { rewrite <- He, take_app_ge by lia; apply elem_of_app; right.
    destruct (7 - length s)%nat as [|k] eqn:Ek; [lia|]; cbn [take]; set_solver. }
  unfold rounds_prefix in Hin; set_solver.
Qed.

Lemma read_salt_rounds n rest r : 1000 <= n <= 999999999 -> 0 ∉ rest -> 0 ∉ decimal n ->
  read_salt c ((rounds_text (Some n) ++ rest) ++ 0 :: r) = Some (rest ++ 0 :: r, n, true).
Proof.
  intros Hn Hr Hd; unfold read_salt; destruct (ok_prefix c Hc) as (x & Hp & Hx).
  assert (Hz : Forall (.≠ 0) (rounds_text (Some n) ++ rest)) by (apply not_zero; unfold rounds_text, rounds_prefix; set_solver).
  destruct (strncmp_prefix (c_prefix c) ltac:(rewrite Hp; set_solver) ltac:(rewrite Hp; done) _ [0] r Hz) as (d & E & Hdz).
  rewrite Hp in E, Hdz; unfold cstr; rewrite Hp; cbn [length] in E, Hdz; rewrite E; cbn [mbind option_bind].
  destruct (Z.eqb_spec d 0) as [->|_]; [exfalso; destruct Hdz as [Hdz _]; specialize (Hdz eq_refl); discriminate|].
  destruct (strncmp_prefix_r rounds_prefix (rounds_text (Some n) ++ rest) [0] r ltac:(unfold rounds_prefix; set_solver) ltac:(done) Hz) as (e & E' & He).
  change (length rounds_prefix) with 7%nat in E', He; rewrite E'; cbn [mbind option_bind].
  rewrite (proj2 (Z.eqb_eq e 0)) by (apply He; reflexivity).
  replace (drop 7 _) with (decimal n ++ dollar :: rest ++ 0 :: r) by (unfold rounds_text; rewrite <- !app_assoc; reflexivity).
  rewrite strtoul_decimal by lia; cbn [mbind option_bind lookup list_lookup]; cbn [Z.eqb Pos.eqb drop].
  now rewrite Z.min_l, Z.max_r by lia.
Qed.
End stored_sha.

Lemma decimal_ok n : 0 <= n -> Forall digit_ok (decimal n).
Proof.
  intros Hn; unfold decimal; generalize (count_digits 64 n 10); intros d; revert n Hn; induction d as [|d IH]; intros n Hn; cbn [digits_of]; [constructor|].
  apply Forall_app; split; [apply IH, Z.div_pos; lia|]; repeat constructor;
    pose proof (Z.mod_pos_bound n 10 ltac:(lia)); assert (Hm : (Z.to_nat (n mod 10) < 10)%nat) by lia;
    revert Hm; generalize (Z.to_nat (n mod 10)); intros k Hk; do 10 (destruct k as [|k]; [cbn; unfold digit_ok, is_byte; lia|]); lia.
Qed.

Lemma digits_free l : Forall digit_ok l -> 0 ∉ l /\ dollar ∉ l /\ Forall is_byte l.
Proof.
  intros H; repeat split; [intros Hx|intros Hx|]; [apply (proj1 (Forall_forall _ _) H) in Hx; unfold digit_ok in Hx; tauto..|].
  eapply Forall_impl; [exact H|]; unfold digit_ok; tauto.
Qed.

Lemma sha_digits_ok c alt : length (sha_digits c alt) = digit_count (c_order c) /\ Forall digit_ok (sha_digits c alt).
Proof.
  unfold sha_digits, digit_count; cbv zeta.
  induction (c_order c) as [|[[[b2 b1] b0] n] o [IH1 IH2]]; cbn [map concat sum_list_with]; [split; constructor|].
  match goal with |- context [_crypt_to64 ?w n] => destruct (to64_ok n w) as [Hl Hd] end.
  rewrite length_app, Hl, IH1; split; [done|now apply Forall_app].
Qed.

Lemma md5_digits_ok final : length (md5_digits final) = 22%nat /\ Forall digit_ok (md5_digits final).
Proof.
  unfold md5_digits; rewrite !length_app, !(fun n v => proj1 (to64_ok n v)); split; [done|].
  repeat (apply Forall_app; split); apply to64_ok.
Qed.

(** A string that the functions can measure in an [int], with some more. *)
Definition short (s : list Z) : Prop := Z.of_nat (length s) < 2147483520.

Lemma md5_compare_step junk junk1 s dig tail entry r r' :
  length junk = 64%nat -> length junk1 = 64%nat -> 0 ∉ entry -> short entry ->
  Forall digit_ok s -> (length s <= 8)%nat -> Forall digit_ok dig -> length dig = 22%nat -> tail_ok tail -> 0 ∉ tail ->
  passwd_compare_md5 junk junk1 ((magic ++ s ++ dollar :: dig ++ tail) ++ 0 :: r) (entry ++ 0 :: r') =
  Some (bool_decide (md5_digits (md5_crypt_hash entry s) = dig)).
Proof.
  intros Hj Hj1 H0 Hl Hs Hsl Hd Hdl Ht Ht0; unfold passwd_compare_md5, short in *.
  destruct (digits_free _ Hs) as (Hs0 & Hs1 & Hs2), (digits_free _ Hd) as (Hd0 & Hd1 & Hd2).
  assert (Hz : 0 ∉ s ++ dollar :: dig ++ tail) by set_solver; assert (Hm : 0 ∉ magic ++ s ++ [dollar]) by (unfold magic; set_solver).
  replace (drop 3 ((magic ++ s ++ dollar :: dig ++ tail) ++ 0 :: r)) with ((s ++ dollar :: dig ++ tail) ++ 0 :: r) by reflexivity.
  destruct (strncmp_prefix_r magic (s ++ dollar :: dig ++ tail) [0] r ltac:(unfold magic; set_solver) ltac:(done) (not_zero _ Hz)) as (d & E & Hdz).
  assert (Hne : d <> 0) by (intros Hd3; apply Hdz in Hd3; revert Hd3; apply no_prefix; (lia || done)).
  assert (Hc : crypt_md5 junk junk1 (entry ++ 0 :: r') ((s ++ dollar :: dig ++ tail) ++ 0 :: r) = Some (cstr (md5_text entry s))).
  { apply (crypt_md5_step _ _ _ _ _ d s); [exact Hj|exact Hj1|exact H0|lia|exact E| | |exact Hsl];
      rewrite (proj2 (Z.eqb_neq d 0)), <- !app_assoc by exact Hne; [now apply salt_length_is|apply take_app_length]. }
  rewrite Hc; clear Hc.
  destruct (md5_digits_ok (md5_crypt_hash entry s)) as [Hml Hmd]; destruct (digits_free _ Hmd) as (Hm0 & _ & _).
  cbn [mbind option_bind]; unfold md5_text; replace (magic ++ s ++ [dollar] ++ md5_digits (md5_crypt_hash entry s))
    with ((magic ++ s ++ [dollar]) ++ md5_digits (md5_crypt_hash entry s)) by now rewrite <- !app_assoc.
  replace (magic ++ s ++ dollar :: dig ++ tail) with ((magic ++ s ++ [dollar]) ++ dig ++ tail) by (rewrite <- !app_assoc; reflexivity).
  apply compare_spec; [exact Hm|done|exact Hm0|exact Hd0|exact Ht0|exact Ht|lia].
Qed.

Section compare_sha.
Context (c : crypt) (Hc : crypt_ok c).

(** What the salt of a stored string is read as. *)
Lemma read_salt_is rounds s dig tail r :
  match rounds with Some n => 1000 <= n <= 999999999 | None => take 7 s <> rounds_prefix end ->
  Forall digit_ok s -> Forall digit_ok dig -> (2 <= length dig)%nat -> 0 ∉ tail ->
  read_salt c ((rounds_text rounds ++ s ++ dollar :: dig ++ tail) ++ 0 :: r) =
  Some ((s ++ dollar :: dig ++ tail) ++ 0 :: r, default 5000 rounds, match rounds with Some _ => true | None => false end).
Proof.
  intros Hr Hs Hd Hl Ht; destruct (digits_free _ Hs) as (Hs0 & Hs1 & _), (digits_free _ Hd) as (Hd0 & Hd1 & _).
  destruct rounds as [n|]; [|now apply read_salt_plain].
  apply (read_salt_rounds c Hc n (s ++ dollar :: dig ++ tail) r Hr); [set_solver|].
  destruct (digits_free _ (decimal_ok n ltac:(lia))) as (? & _); done.
Qed.

Context (at_ : places).
Notation block := (2 * Z.to_nat (2 ^ lg (c_hash c)))%nat.
Context (Hj1 : length (junk_ctx at_) = block) (Hj2 : length (junk_alt at_) = block).

Lemma sha_compare_step rounds s dig tail entry buflen r r' :
  0 ∉ entry -> short entry ->
  match rounds with Some n => 1000 <= n <= 999999999 | None => take 7 s <> rounds_prefix end ->
  Forall digit_ok s -> (length s <= 16)%nat -> Forall digit_ok dig -> length dig = digit_count (c_order c) -> (digit_count (c_order c) <= 86)%nat ->
  tail_ok tail -> 0 ∉ tail -> Forall is_byte tail ->
  let passwd := c_prefix c ++ rounds_text rounds ++ s ++ dollar :: dig ++ tail in short passwd ->
  exists b, passwd_compare_sha c at_ true buflen (passwd ++ 0 :: r) (entry ++ 0 :: r') =
  Some (bool_decide (sha_digits c (sha_crypt_hash c entry s (default 5000 rounds)) = dig), b).
Proof.
  intros H0 Hl Hr Hs Hsl Hd Hdl Hmax Ht Ht0 Htb passwd Hp; unfold passwd_compare_sha, short in *.
  destruct (digits_free _ Hs) as (Hs0 & Hs1 & Hs2), (digits_free _ Hd) as (Hd0 & Hd1 & Hd2).
  set (alt := sha_crypt_hash _ _ _ _); destruct (sha_digits_ok c alt) as [Hml Hmd]; destruct (digits_free _ Hmd) as (Hm0 & _ & _).
  destruct (ok_prefix c Hc) as (x & Hpre & Hx); destruct (ok_digits c Hc) as [Hcd Hcd2].
  set (body := rounds_text rounds ++ s ++ dollar :: dig ++ tail) in *.
  assert (Hr0 : 0 ∉ rounds_text rounds).
  { destruct rounds as [n|]; [|set_solver]; destruct (digits_free _ (decimal_ok n ltac:(lia))) as (? & _).
    unfold rounds_text, rounds_prefix; set_solver. }
  replace (drop 3 (passwd ++ 0 :: r)) with (body ++ 0 :: r) by (unfold passwd; rewrite Hpre; reflexivity).
  unfold sha_crypt; rewrite strlen_of by (unfold body; set_solver); cbn [mbind option_bind].
  assert (Hbl : Z.of_nat (length passwd) = 3 + Z.of_nat (length body)) by (unfold passwd; rewrite Hpre; cbn [app length]; lia).
  rewrite s32_of_small by lia; set (needed := 3 + 8 + 9 + 1 + _ + 1 + _ + 1).
  assert (Hcrypt : forall room, needed <= room ->
    sha_crypt_r c at_ (entry ++ 0 :: r') (body ++ 0 :: r) room = Some (Some (cstr (sha_text c rounds entry s)))).
  { intros room Hroom; apply (sha_crypt_r_step c Hc at_ entry r' _ room ((s ++ dollar :: dig ++ tail) ++ 0 :: r) (length s)); try done;
      [lia|apply read_salt_is; (done || lia)|destruct rounds; done| | |].
    - apply salt_span; [|set_solver|done]; apply Forall_app; split; [done|]; constructor; [unfold is_byte; lia|now apply Forall_app].
    - rewrite Nat.min_l, <- !app_assoc by lia; apply take_app_length.
    - unfold needed, body in Hroom; rewrite !length_app in Hroom; cbn [length] in Hroom; lia. }
  assert (Hfin : compare_crypted (cstr (sha_text c rounds entry s)) (passwd ++ 0 :: r) = Some (bool_decide (sha_digits c alt = dig))).
  { unfold sha_text; fold alt; replace (c_prefix c ++ rounds_text rounds ++ s ++ [dollar] ++ sha_digits c alt)
      with ((c_prefix c ++ rounds_text rounds ++ s ++ [dollar]) ++ sha_digits c alt) by now rewrite <- !app_assoc.
    replace passwd with ((c_prefix c ++ rounds_text rounds ++ s ++ [dollar]) ++ dig ++ tail)
      by (unfold passwd, body; rewrite <- !app_assoc; reflexivity).
    apply compare_spec; rewrite ?Hpre; try done; [set_solver|lia]. }
  destruct (Z.ltb_spec buflen needed) as [Hlt|Hge].
  - rewrite Hcrypt by lia; cbn [mbind option_bind]; rewrite Hfin; cbn [mbind option_bind]; eauto.
  - rewrite Hcrypt by lia; cbn [mbind option_bind]; rewrite Hfin; cbn [mbind option_bind]; eauto.
Qed.
End compare_sha.

(** ** SHA-1 in base 64 *)

Lemma emit_free flags : readable flags -> forall n bv, Forall (fun ch => ch <> 0 /\ ch <> dollar) (emit n flags bv).
Proof.
  intros Hf; induction n as [|n IH]; intros bv; cbn [emit]; constructor; [|apply IH].
  destruct (charz_read flags (Z.land (Z.shiftr bv 18) 0x3f) Hf) as [Hc Hz].
  { change 0x3f with (Z.ones 6); rewrite Z.land_ones by lia; change (2 ^ 6) with 64; Z.div_mod_to_equations; lia. }
  split; [exact Hz|]; intros E; rewrite E in Hc.
  assert (Hneg : base64tbl dollar < 0) by (vm_compute; reflexivity).
  assert (0 <= Z.land (Z.shiftr bv 18) 0x3f) by (apply Z.land_nonneg; lia); lia.
Qed.

Lemma finish_free flags k g : Forall (fun ch => ch <> 0 /\ ch <> dollar) g -> Forall (fun ch => ch <> 0 /\ ch <> dollar) (Base64.finish flags k g).
Proof.
  intros H; unfold Base64.finish; apply Forall_app; split; [now apply Forall_take|].
  destruct (finish_tail flags k) as [n ->]; apply Forall_replicate; lia.
Qed.

Lemma genbase64_free flags : readable flags -> forall l, Forall (fun ch => ch <> 0 /\ ch <> dollar) (genbase64 l flags).
Proof.
  intros Hf; fix IH 1; intros [|b0 [|b1 [|b2 rest]]]; cbn [genbase64]; [constructor|apply finish_free, emit_free, Hf..|].
  apply Forall_app; split; [apply emit_free, Hf|apply IH].
Qed.

Lemma unbase64_end txt r : forall bits nbits room, unbase64_loop bits nbits room (txt ++ 0 :: r) = unbase64_loop bits nbits room txt.
Proof.
  induction txt as [|ch txt IH]; intros bits nbits room; cbn [app unbase64_loop]; [done|].
  destruct (ch =? 0); [done|]; cbv zeta; now rewrite !IH.
Qed.

Lemma strchr_dollar s t : 0 ∉ s -> dollar ∉ s -> forall p, strchr_loop dollar p (s ++ dollar :: t) = Some (Some (p + length s)%nat).
Proof.
  intros H0 Hd; induction s as [|x s IH]; intros p; cbn [app strchr_loop length].
  - rewrite Nat.add_0_r; reflexivity.
  - change (u8 dollar) with dollar in *; rewrite (proj2 (Z.eqb_neq x dollar)), (proj2 (Z.eqb_neq x 0)), IH by set_solver.
    do 2 f_equal; lia.
Qed.

Lemma strchr_no_dollar s t : 0 ∉ s -> dollar ∉ s -> forall p, strchr_loop dollar p (s ++ 0 :: t) = Some None.
Proof.
  intros H0 Hd; induction s as [|x s IH]; intros p; cbn [app strchr_loop]; [reflexivity|].
  change (u8 dollar) with dollar in *; rewrite (proj2 (Z.eqb_neq x dollar)), (proj2 (Z.eqb_neq x 0)), IH by set_solver; done.
Qed.

Lemma memcmp_eq n : forall a b, length a = n -> length b = n -> exists d, memcmp_loop n a b = Some d /\ (d = 0 <-> a = b).
Proof.
  induction n as [|n IH]; intros [|x a] [|y b] Ha Hb; cbn [length memcmp_loop] in *; try lia; [now exists 0|].
  destruct (Z.eqb_spec (x - y) 0) as [E|E]; cbn [negb].
  - assert (x = y) as -> by lia; destruct (IH a b) as (d & -> & Hd); [lia..|]; exists d; rewrite Hd; split; [done|split; congruence].
  - exists (x - y); split; [done|split; [lia|intros [= -> _]; lia]].
Qed.

Lemma length_sha1 m : length (sha1 m) = 20%nat.
Proof. unfold sha1; destruct (digest _ _ _ _) as [[[[a b] c] d] e]; reflexivity. Qed.

Definition salt_text (salt : option (list Z)) : list Z := match salt with Some s => s ++ [dollar] | None => [] end.

Lemma sha1_compare_step junk salt dig flags entry r r' :
  length junk = 64%nat -> 0 ∉ entry -> Forall is_byte entry -> short entry ->
  match salt with Some s => Forall digit_ok s /\ short s | None => True end ->
  Forall is_byte dig -> length dig = 20%nat -> readable flags ->
  exists p e, passwd_compare_sha1 junk (([dollar; 52; dollar] ++ salt_text salt ++ genbase64 dig flags) ++ 0 :: r) (entry ++ 0 :: r') =
    Some (bool_decide (sha1 (default [] salt ++ entry) = dig), p, e).
Proof.
  intros Hj H0 Heb Hl Hs Hdb Hdl Hf; unfold passwd_compare_sha1, short in *.
  assert (Hfree : 0 ∉ genbase64 dig flags /\ dollar ∉ genbase64 dig flags).
  { pose proof (proj1 (Forall_forall _ _) (genbase64_free flags Hf dig)) as H; split; intros Hx; apply H in Hx; tauto. }
  set (passwd := (_ ++ salt_text salt ++ _) ++ _); set (txt := genbase64 dig flags) in *.
  assert (Hbody : drop 3 passwd = salt_text salt ++ txt ++ 0 :: r) by (unfold passwd; rewrite <- !app_assoc; reflexivity).
  assert (Hone : exists ctx passwd' p, (let* q := strchr_loop dollar 0 (drop 3 passwd) in
    match q with
    | Some n =>
        let* (ctx, data) := SHA1Update (SHA1Init junk) (take n (drop 3 passwd)) in
        Some (ctx, blit 3 data passwd, (3 + n + 1)%nat)
    | None => Some (SHA1Init junk, passwd, 3%nat)
    end) = Some (ctx, passwd', p) /\ Sha1.holds (default [] salt) ctx /\ drop p passwd' = txt ++ 0 :: r).
  { rewrite Hbody; pose proof (sha1_init_holds junk Hj) as Hi; destruct salt as [s|]; cbn [salt_text default] in *.
    - destruct Hs as [Hs Hsl]; destruct (digits_free _ Hs) as (Hs0 & Hs1 & Hs2); rewrite <- app_assoc; cbn [app].
      rewrite strchr_dollar by done; cbn [mbind option_bind Nat.add]; rewrite take_app_length.
      destruct (sha1_update_holds [] _ s Hi Hs2 ltac:(lia)) as (ctx & d' & E & Hh); rewrite E; cbn [mbind option_bind].
      apply sha1_update_length in E; do 3 eexists; split; [reflexivity|split; [exact Hh|]].
      assert (Hpl : (3 + length s + 1 <= length passwd)%nat)
        by (pose proof (f_equal length Hbody) as Hx; rewrite length_drop, !length_app in Hx; cbn [length salt_text] in Hx; rewrite ?length_app in Hx; cbn [length] in Hx; lia).
      rewrite drop_blit by lia; replace (S (S (S (length s + 1)))) with (3 + (length s + 1))%nat by lia.
      rewrite <- drop_drop, Hbody; cbn [salt_text]; apply drop_app_length'; rewrite length_app; reflexivity.
    - cbn [app]; rewrite strchr_no_dollar by tauto; cbn [mbind option_bind]; do 3 eexists; split; [reflexivity|split; [exact Hi|exact Hbody]]. }
  destruct Hone as (ctx & passwd' & p & E1 & Hh & Hp).
  destruct (strchr_loop dollar 0 (drop 3 passwd)) as [q|]; cbn [mbind option_bind] in E1 |- *; [|done]; rewrite E1; cbn [mbind option_bind].
  rewrite strlen_of by done; cbn [mbind option_bind]; rewrite take_app_length.
  destruct (sha1_update_holds _ _ entry Hh Heb ltac:(lia)) as (ctx2 & d2 & -> & Hh2); cbn [mbind option_bind].
  destruct (sha1_final_spec _ _ Hh2) as (ctx3 & ->); cbn [mbind option_bind].
  rewrite Hp; unfold unbase64; rewrite unbase64_end; unfold txt; rewrite genbase64_decode by (done || lia).
  rewrite Hdl, Nat.sub_diag; cbn [replicate]; rewrite app_nil_r.
  destruct (memcmp_eq 20 (sha1 (default [] salt ++ entry)) dig (length_sha1 _) Hdl) as (d & -> & Hd); cbn [mbind option_bind].
  do 2 eexists; do 3 f_equal; destruct (Z.eqb_spec d 0); [rewrite bool_decide_eq_true_2|rewrite bool_decide_eq_false_2]; tauto.
Qed.

(** ** The comparison *)

(** What a stored password can be: in the clear, a hash with its salt and what follows
    it, or of a kind that is not known. *)
Inductive stored :=
  | Plain (text : list Z)
  | Md5Of (salt dig tail : list Z)
  | Sha1Of (salt : option (list Z)) (dig : list Z) (flags : Z)
  | ShaOf (wide : bool) (rounds : option Z) (salt dig tail : list Z)
  | Unknown (kind : Z) (rest : list Z).

Definition crypt_of (wide : bool) : crypt := if wide then crypt512 else crypt256.

Definition stored_text (st : stored) : list Z :=
  match st with
  | Plain text => text
  | Md5Of s dig tail => magic ++ s ++ dollar :: dig ++ tail
  | Sha1Of s dig flags => [dollar; 52; dollar] ++ salt_text s ++ genbase64 dig flags
  | ShaOf wide rounds s dig tail => c_prefix (crypt_of wide) ++ rounds_text rounds ++ s ++ dollar :: dig ++ tail
  | Unknown kind rest => [dollar; kind; dollar] ++ rest
  end.

(** Whether the password [entry] is the one that is stored. *)
Definition accepts (st : stored) (entry : list Z) : bool :=
  match st with
  | Plain text => bool_decide (entry = text)
  | Md5Of s dig _ => bool_decide (md5_digits (md5_crypt_hash entry s) = dig)
  | Sha1Of s dig _ => bool_decide (sha1 (default [] s ++ entry) = dig)
  | ShaOf wide rounds s dig _ =>
      let c := crypt_of wide in bool_decide (sha_digits c (sha_crypt_hash c entry s (default 5000 rounds)) = dig)
  | Unknown _ _ => false
  end.

Definition tail_string (tail : list Z) : Prop := tail_ok tail /\ 0 ∉ tail /\ Forall is_byte tail.

(** A plain password does not look like one of the others; digits and salts have no
    dollar, and a salt is no longer than what the hash takes of it; one without a number
    of rounds does not begin like one. *)
Definition well_formed (st : stored) : Prop :=
  match st with
  | Plain text => 0 ∉ text /\ Forall is_byte text /\ forall x rest, text <> dollar :: x :: dollar :: rest
  | Md5Of s dig tail => Forall digit_ok s /\ (length s <= 8)%nat /\ Forall digit_ok dig /\ length dig = 22%nat /\ tail_string tail
  | Sha1Of s dig flags =>
      match s with Some s => Forall digit_ok s /\ short s | None => True end /\
      Forall is_byte dig /\ length dig = 20%nat /\ readable flags
  | ShaOf wide rounds s dig tail =>
      match rounds with Some n => 1000 <= n <= 999999999 | None => take 7 s <> rounds_prefix end /\
      Forall digit_ok s /\ (length s <= 16)%nat /\ Forall digit_ok dig /\
      length dig = (if wide then 86 else 43)%nat /\ tail_string tail /\ short (stored_text st)
  | Unknown kind rest => kind ∉ [0; 49; 52; 53; 54]
  end.

(** Memory is found, and the contexts have their buffers. *)
Record around_ok (w : surroundings) : Prop := {
  around_granted : granted256 w = true /\ granted512 w = true;
  around_md5 : length (junk_a w) = 64%nat /\ length (junk_b w) = 64%nat;
  around_256 : length (junk_ctx (places256 w)) = 128%nat /\ length (junk_alt (places256 w)) = 128%nat;
  around_512 : length (junk_ctx (places512 w)) = 256%nat /\ length (junk_alt (places512 w)) = 256%nat
}.

Lemma plain_step w text entry r r' :
  0 ∉ text -> Forall is_byte text -> (forall x rest, text <> dollar :: x :: dollar :: rest) -> 0 ∉ entry -> Forall is_byte entry ->
  passwd_compare w (text ++ 0 :: r) (entry ++ 0 :: r') = Some (bool_decide (entry = text)).
Proof.
  intros H0 Hb Hp He0 Heb.
  assert (Hlast : (let* d := strcmp_loop id (entry ++ 0 :: r') (text ++ 0 :: r) in Some (d =? 0)) = Some (bool_decide (entry = text))).
  { destruct (strcmp_loop_spec entry text r' r Heb Hb He0 H0) as (d & -> & Hd & _); cbn [mbind option_bind]; f_equal.
    destruct (Z.eqb_spec d 0); [rewrite bool_decide_eq_true_2|rewrite bool_decide_eq_false_2]; tauto. }
  unfold passwd_compare; destruct text as [|c0 [|c1 [|c2 text]]]; cbn [app lookup list_lookup mbind option_bind] in *; cbn [Z.eqb negb].
  - exact Hlast.
  - destruct (c0 =? dollar); exact Hlast.
  - destruct (Z.eqb_spec c0 dollar) as [->|]; cbn [negb]; [|exact Hlast]; destruct (Z.eqb_spec c1 0); exact Hlast.
  - destruct (Z.eqb_spec c0 dollar) as [->|]; cbn [negb]; [|exact Hlast]; destruct (Z.eqb_spec c1 0); [exact Hlast|].
    destruct (Z.eqb_spec c2 dollar) as [->|]; [|exact Hlast]; exfalso; eapply Hp; reflexivity.
Qed.

(** What [passwd_compare] does with a string that is not plain. *)
Lemma compare_by_kind w kind body entry r : kind <> 0 ->
  passwd_compare w (([dollar; kind; dollar] ++ body) ++ r) entry =
  (let passwd := ([dollar; kind; dollar] ++ body) ++ r in
   if kind =? 49 then passwd_compare_md5 (junk_a w) (junk_b w) passwd entry
   else if kind =? 52 then let* (r, _, _) := passwd_compare_sha1 (junk_a w) passwd entry in Some r
   else if kind =? 53 then let* (r, _) := passwd_compare_sha crypt256 (places256 w) (granted256 w) (len256 w) passwd entry in Some r
   else if kind =? 54 then let* (r, _) := passwd_compare_sha crypt512 (places512 w) (granted512 w) (len512 w) passwd entry in Some r
   else Some false).
Proof.
  intros Hk; unfold passwd_compare; cbn [app lookup list_lookup mbind option_bind].
  change (dollar =? dollar) with true; cbn [negb]; now rewrite (proj2 (Z.eqb_neq kind 0)) by done.
Qed.

(** C33: against a well formed stored string, a password that is typed in is
    accepted exactly if it is the one stored: the same string, or one whose MD5,
    SHA-1, SHA-256 or SHA-512 crypt hash with the salt (and the rounds) found in
    the stored string is the one found there, whatever is in the buffers and
    wherever the data lie; no hash of an unknown kind accepts. Well formed: a
    plain string does not look like a hash; a hash is complete (of its whole
    length, in its digits; with SHA-1, a Base64 text of 20 bytes), its salt has
    no more digits than the hash takes of it, a number of rounds lies from 1000
    to 999999999, and a salt without one does not begin with rounds=
    (sha256crypt.c:319: what is stored for such a salt is not accepted again).
    Truncated or malformed hashes are not covered. The other conditions: the
    memory asked for is granted (passwd.c:61 uses a NULL otherwise), and what is
    typed in is a string of bytes of fewer than 2^31 - 128 characters, as are
    salts and stored strings. *)
Theorem passwd_compare_correct w st entry r r' :
  around_ok w -> well_formed st -> 0 ∉ entry -> Forall is_byte entry -> short entry ->
  passwd_compare w (stored_text st ++ 0 :: r) (entry ++ 0 :: r') = Some (accepts st entry).
Proof.
  intros [[Hg1 Hg2] [Ha Hb] [H1 H2] [H3 H4]] Hst He0 Heb Hes; destruct st as [text|s dig tail|s dig flags|wide rounds s dig tail|kind rest];
    cbn [stored_text well_formed accepts] in *.
  - apply plain_step; tauto.
  - destruct Hst as (? & ? & ? & ? & ? & ? & ?); unfold magic; rewrite compare_by_kind by lia; cbn [Z.eqb Pos.eqb]; now apply md5_compare_step.
  - destruct Hst as (? & ? & ? & ?); rewrite compare_by_kind by lia; cbn [Z.eqb Pos.eqb].
    destruct (sha1_compare_step (junk_a w) s dig flags entry r r') as (p & e & ->); done.
  - destruct Hst as (? & ? & ? & ? & Hdl & (? & ? & ?) & ?); destruct wide; cbn [crypt_of] in *.
    + edestruct (sha_compare_step crypt512 crypt512_ok (places512 w) H3 H4 rounds s dig tail entry (len512 w) r r') as (b & E); try done.
      change (c_prefix crypt512) with [dollar; 54; dollar]; rewrite compare_by_kind by lia; cbn [Z.eqb Pos.eqb].
      rewrite Hg2; change ([dollar; 54; dollar] ++ _) with (c_prefix crypt512 ++ rounds_text rounds ++ s ++ dollar :: dig ++ tail).
      rewrite E; reflexivity.
    + edestruct (sha_compare_step crypt256 crypt256_ok (places256 w) H1 H2 rounds s dig tail entry (len256 w) r r') as (b & E); try done; [vm_compute; lia|].
      change (c_prefix crypt256) with [dollar; 53; dollar]; rewrite compare_by_kind by lia; cbn [Z.eqb Pos.eqb].
      rewrite Hg1; change ([dollar; 53; dollar] ++ _) with (c_prefix crypt256 ++ rounds_text rounds ++ s ++ dollar :: dig ++ tail).
      rewrite E; reflexivity.
  - rewrite compare_by_kind by set_solver; cbv zeta.
    rewrite !(proj2 (Z.eqb_neq kind _)) by set_solver; reflexivity.
Qed.

(** The password [c], stored with the salt [ab]. *)
Lemma passwd_compare_correct_witness :
  passwd_compare any_around (stored_text (Sha1Of (Some [97; 98]) Sha1.abc_digest BASE64_CRYPT) ++ [0]) [99; 0] = Some true.
Proof.
  change [99; 0] with ([99] ++ [0]); rewrite (passwd_compare_correct any_around (Sha1Of (Some [97; 98]) Sha1.abc_digest BASE64_CRYPT) [99] [] []);
    [vm_compute; reflexivity|repeat split; reflexivity| |set_solver|repeat constructor; unfold is_byte; lia|reflexivity].
  cbn [well_formed]; split; [split; [|reflexivity]|split; [|split; [reflexivity|split; reflexivity]]];
    repeat constructor; unfold digit_ok, is_byte; lia.
Defined.
