(* ===== verification/Disk.v ===== *)
(** * Disks: com32/lib/syslinux/disk.c

    Reading and writing sectors through interrupt 13h of the BIOS, with packets of linear
    addresses or with cylinders, heads and sectors, and the identifiers of a GPT; with
    lba2chs of com32/chain/utility.c.  The BIOS and the allocators are the class [Bios],
    whose laws are what is documented of the interrupt; [DiskReader] is what the users
    of the sectors rely on. *)

From S2P Require Import Prelude Hash.

(** ** The interface *)

(** [src/com32/include/syslinux/disk.h:51-60 disk_info] *)
Record disk_info := Disk_info {
  disk : Z; ebios : bool; cbios : bool; bps : Z; lbacnt : Z; cyl : Z; head : Z; spt : Z
}.

(** What users of disks ask of their surroundings: sectors ([None] is NULL), and whether
    malloc finds memory. *)
Class DiskReader (W : Type) := {
  read_sectors : disk_info -> Z -> Z -> W -> option (list Z) * W;
  may_alloc : W -> bool * W
}.

(** What is read is what the sectors hold, when anything is read; the count has 8 bits,
    and the end must not wrap around. *)
Class DiskReaderLaws (W : Type) `{DiskReader W} (di : disk_info) (sector : Z -> list Z) := {
  sector_length : forall lba, length (sector lba) = Z.to_nat (bps di);
  read_is : forall lba count w data w', 0 <= lba -> lba + count < 2 ^ 64 -> 0 <= count < 256 ->
    read_sectors di lba count w = (Some data, w') ->
    data = concat (map (fun i => sector (lba + Z.of_nat i)) (seq 0 (Z.to_nat count)))
}.

(** ** The BIOS *)

(** The registers that the functions use.
    [src/com32/include/com32.h:58-74 com32sys_t] *)
Record regs := Regs {
  al : Z; ah : Z; bx : Z; cl : Z; ch : Z; dl : Z; dh : Z; si : Z; ds : Z; es : Z; cf : bool
}.
Definition zero_regs : regs := Regs 0 0 0 0 0 0 0 0 0 0 false.

(** Interrupt 13h, low memory by its linear addresses, and the allocators. *)
Class Bios (W : Type) := {
  int13 : regs -> W -> regs * W;
  load : W -> Z -> Z;
  store : Z -> list Z -> W -> W;
  lmalloc : Z -> W -> option Z * W;
  lfree : Z -> W -> W;
  malloc : W -> bool * W
}.

(** [src/com32/include/com32.h:149-152 SEG] *)
Definition SEG (p : Z) : Z := u16 (Z.shiftr p 4).
(** [src/com32/include/com32.h:155-159 OFFS] *)
Definition OFFS (p : Z) : Z := Z.land (u16 p) 0x000F.

Definition SECTOR : Z := 512.
Definition bytes_16 (v : Z) : list Z := [u8 v; u8 (Z.shiftr v 8)].
Definition bytes_64 (v : Z) : list Z := bytes_32 (u32 v) ++ bytes_32 (u32 (Z.shiftr v 32)).

Section disk.
Context {W : Type} `{B : Bios W}.

(** The bytes at an address. *)
Definition fetch (w : W) (a : Z) (n : nat) : list Z := map (fun i => load w (a + Z.of_nat i)) (seq 0 n).
Definition fetch_le (w : W) (a : Z) (n : nat) : Z := foldr (fun x v => x + 256 * v) 0 (fetch w a n).

(** The world and the static pointer [dapa] of [ebios_setup]. *)
Record machine := Machine { world : W; dapa : option Z }.
Definition on_world {A} (f : W -> A * W) (m : machine) : A * machine :=
  let (a, w) := f (world m) in (a, Machine w (dapa m)).
Definition set_world (f : W -> W) (m : machine) : machine := Machine (f (world m)) (dapa m).

(** The answer is whether a try ended without CF.
    [src/com32/lib/syslinux/disk.c:50-65 disk_int13_retry] *)
Fixpoint int13_retry (retry : nat) (inreg : regs) (m : machine) : option regs * machine :=
  match retry with
  | O => (None, m)
  | S retry =>
      let (outreg, m) := on_world (int13 inreg) m in
      if negb (cf outreg) then (Some outreg, m) else int13_retry retry inreg m
  end.
(** Six tries.
    [src/com32/lib/syslinux/disk.c:50-65 disk_int13_retry] *)
Definition disk_int13_retry : regs -> machine -> option regs * machine := int13_retry 6.

(** The buffer and the registers; [None] is NULL.
    [src/com32/lib/syslinux/disk.c:171-199 ebios_setup] *)
Definition ebios_setup (di : disk_info) (inreg : regs) (lba count op_code : Z) (m : machine) : option (Z * regs) * machine :=
  let (p, m) :=
    match dapa m with
    | Some p => (Some p, m)
    | None => let (p, w) := lmalloc 16 (world m) in (p, Machine w p)
    end in
  match p with
  | None => (None, m)
  | Some p =>
      let (buf, m) := on_world (lmalloc (u32 (count * bps di))) m in
      match buf with
      | None => (None, m)
      | Some buf =>
          let m := set_world (store p (bytes_16 16 ++ bytes_16 count ++ bytes_16 (OFFS buf) ++ bytes_16 (SEG buf) ++ bytes_64 lba)) m in
          (Some (buf, Regs (al inreg) op_code (bx inreg) (cl inreg) (ch inreg) (u8 (disk di)) (dh inreg) (OFFS p) (SEG p) (es inreg) (cf inreg)), m)
      end
  end.

(** [src/com32/lib/syslinux/disk.c:211-243 chs_setup] *)
Definition chs_setup (di : disk_info) (lba count op_code : Z) (m : machine) : option (Z * regs) * machine :=
  let (buf, m) := on_world (lmalloc (u32 (count * bps di))) m in
  match buf with
  | None => (None, m)
  | Some buf =>
      let s := lba mod spt di in
      let t := u32 (lba / spt di) in
      let h := t mod head di in
      let c := t / head di in
      (Some (buf, Regs count op_code (OFFS buf) (u8 (Z.lor (Z.shiftr (Z.land c 0x300) 2) (s + 1))) (u8 c) (u8 (disk di)) (u8 h) 0 0 (SEG buf) false), m)
  end.

(** The checks that reading and writing begin with.
    [src/com32/lib/syslinux/disk.c:265-267 disk_read_sectors] *)
Definition out_of_range (di : disk_info) (lba count : Z) : bool :=
  let maxcnt := u32 (65536 - bps di) / bps di in
  (count =? 0) || (maxcnt <? count) || (lbacnt di <? u64 (lba + count)).

(** [src/com32/lib/syslinux/disk.c:269-274 disk_read_sectors] *)
Definition setup (di : disk_info) (lba count ecode ccode : Z) (m : machine) : option (Z * regs) * machine :=
  if ebios di then ebios_setup di zero_regs lba count ecode m else chs_setup di lba count ccode m.

(** [src/com32/lib/syslinux/disk.c:256-288 disk_read_sectors] *)
Definition disk_read_sectors (di : disk_info) (lba count : Z) (m : machine) : option (list Z) * machine :=
  if out_of_range di lba count then (None, m)
  else
    let (r, m) := setup di lba count 0x42 0x02 m in
    match r with
    | None => (None, m)
    | Some (buf, inreg) =>
        let (out, m) := disk_int13_retry inreg m in
        match out with
        | None => (None, set_world (lfree buf) m)
        | Some _ =>
            let (ok, m) := on_world malloc m in
            let data := if ok : bool then Some (fetch (world m) buf (Z.to_nat (u32 (count * bps di)))) else None in
            (data, set_world (lfree buf) m)
        end
    end.

(** 0 is [true], -1 [false].
    [src/com32/lib/syslinux/disk.c:302-334 disk_write_sectors] *)
Definition disk_write_sectors (di : disk_info) (lba : Z) (data : list Z) (count : Z) (m : machine) : option (bool * machine) :=
  if out_of_range di lba count then Some (false, m)
  else
    let (r, m) := setup di lba count 0x43 0x03 m in
    match r with
    | None => Some (false, m)
    | Some (buf, inreg) =>
        let* src := peek data 0 (Z.to_nat (u32 (count * bps di))) in
        let m := set_world (store buf src) m in
        let (out, m) := disk_int13_retry inreg m in
        Some (match out with Some _ => true | None => false end, set_world (lfree buf) m)
    end.

(** [src/com32/lib/syslinux/disk.c:349-364 disk_write_verify_sectors] *)
Definition disk_write_verify_sectors (di : disk_info) (lba : Z) (buf : list Z) (count : Z) (m : machine) : option (bool * machine) :=
  let* (ok, m) := disk_write_sectors di lba buf count m in
  if negb ok then Some (false, m)
  else
    let (rb, m) := disk_read_sectors di lba count m in
    match rb with
    | None => Some (false, m)
    | Some rb => let* b := peek buf 0 (Z.to_nat (u32 (count * bps di))) in Some (bool_decide (b = rb), m)
    end.

(** The registers of a query.
    [src/com32/lib/syslinux/disk.c:85-89 disk_get_params] *)
Definition query (ah bx dl si ds : Z) (cf : bool) : regs := Regs 0 ah bx 0 0 (u8 dl) 0 si ds 0 cf.

(** Whether there is EBIOS; [drive] is the number of the disk.
    [src/com32/lib/syslinux/disk.c:84-96 disk_get_params] *)
Definition ask_ebios (drive : Z) (m : machine) : bool * machine :=
  let (o, m) := on_world (int13 (query 0x41 0x55aa drive 0 0 true)) m in
  (negb (cf o) && (bx o =? 0xaa55) && negb (Z.land (cl o) 1 =? 0), m).

(** The number of sectors and their size, in the structure at [p].
    [src/com32/lib/syslinux/disk.c:104-123 disk_get_params] *)
Definition ask_extended (drive p : Z) (m : machine) : (Z * Z) * machine :=
  let m := set_world (store p (bytes_16 66 ++ replicate 64 0)) m in
  let (o, m) := on_world (int13 (query 0x48 0 drive (OFFS p) (SEG p) false)) m in
  let size := fetch_le (world m) (p + 24) 2 in
  (if negb (cf o) then (fetch_le (world m) (p + 16) 8, if negb (size =? 0) then size else SECTOR) else (0, SECTOR), m).

(** Cylinders, heads and sectors of a track; [None] when CF is set.
    [src/com32/lib/syslinux/disk.c:130-143 disk_get_params] *)
Definition ask_geometry (drive : Z) (m : machine) : option (Z * Z * Z) * machine :=
  let (o, m) := on_world (int13 (query 0x08 0 drive 0 0 false)) m in
  (if cf o then None else Some (1 + Z.lor (ch o) (Z.shiftl (Z.land (cl o) 0xc0) 2), 1 + dh o, Z.land 0x3f (cl o)), m).

(** 0 is [true], -1 [false].
    [src/com32/lib/syslinux/disk.c:74-159 disk_get_params] *)
Definition disk_get_params (drive : Z) (m : machine) : (bool * disk_info) * machine :=
  let (eb, m) := ask_ebios drive m in
  let (p, m) := on_world (lmalloc 66) m in
  match p with
  | None => ((false, Disk_info drive eb false SECTOR 0 0 0 0), m)
  | Some p =>
      let '(cnt, size, m) := if eb then ask_extended drive p m else (0, SECTOR, m) in
      let (g, m) := ask_geometry drive m in
      let m := set_world (lfree p) m in
      match g with
      | None => ((eb, Disk_info drive eb false size cnt 0 0 0), m)
      | Some (c, h, s) =>
          let '(cb, c, h, s) := if negb (s =? 0) then (true, c, h, s) else (false, 1, 1, 1) in
          ((true, Disk_info drive eb cb size (if cnt =? 0 then u32 (c * h * s) else cnt) c h s), m)
      end
  end.
End disk.
Arguments machine W : clear implicits.

(** ** Identifiers *)

(** [src/com32/lib/syslinux/disk.c:415-421 guid_le_walk_map] *)
Definition guid_le_walk_map : list Z := [3; -1; -1; -1; 0; 5; -1; 0; 3; -1; 0; 2; 1; 0; 1; 1; 1; 1; 1; 1].

(** A digit of a byte.
    [src/com32/lib/syslinux/disk.c:444-450 guid_to_str] *)
Definition hex_char (n : Z) : Z := if 57 <? n + 48 then n + 48 + 7 else n + 48.

(** [src/com32/lib/syslinux/disk.c:434-456 guid_to_str] *)
Fixpoint guid_walk (steps : list Z) (walker : Z) (id : list Z) : option (list Z) :=
  match steps with
  | [] => Some [0]
  | s :: steps =>
      let walker := walker + s in
      if s =? 0 then let* t := guid_walk steps walker id in Some (45 :: t)
      else
        let* b := if walker <? 0 then None else id !! Z.to_nat walker in
        let* t := guid_walk steps walker id in
        Some (hex_char (Z.shiftr (Z.land b 0xF0) 4) :: hex_char (Z.land b 0x0F) :: t)
  end.
(** [src/com32/lib/syslinux/disk.c:434-456 guid_to_str] *)
Definition guid_to_str (id : list Z) : option (list Z) := guid_walk guid_le_walk_map 0 id.

(** The value of a character; [None] is a character that is illegal.
    [src/com32/lib/syslinux/disk.c:485-495 str_to_guid] *)
Definition hex_value (ch : Z) : option Z :=
  if (48 <=? ch) && (ch <=? 57) then Some (ch - 48)
  else if (65 <=? ch) && (ch <=? 70) then Some (ch - 65 + 10)
  else if (97 <=? ch) && (ch <=? 102) then Some (ch - 97 + 10)
  else None.

(** The sequence of [n] digits: [inr] is what was read, [inl] an illegal character or too
    few of them.
    [src/com32/lib/syslinux/disk.c:476-504 str_to_guid] *)
Fixpoint guid_digits (n : nat) (buf : list Z) : option (option (list Z)) :=
  match buf with
  | [] => None
  | ch :: buf =>
      if ch =? 0 then Some (match n with O => Some [] | S _ => None end)
      else
        match n with
        | O => Some (Some [])
        | S n' =>
            if (ch =? 123) || (ch =? 125) || (ch =? 45) then guid_digits n buf
            else
              match hex_value ch with
              | None => Some None
              | Some v => let* r := guid_digits n' buf in Some (let* l := r in Some (v :: l))
              end
        end
  end.

(** The digits put where the walk leads.
    [src/com32/lib/syslinux/disk.c:505-516 str_to_guid] *)
Fixpoint guid_fill (steps : list Z) (walker : Z) (seq id : list Z) : option (list Z) :=
  match steps with
  | [] => Some id
  | s :: steps =>
      if s =? 0 then guid_fill steps walker seq id
      else
        let walker := walker + s in
        match seq with
        | a :: b :: seq =>
            if (walker <? 0) || (Z.of_nat (length id) <=? walker) then None
            else guid_fill steps walker seq (<[Z.to_nat walker := Z.lor (u8 (Z.shiftl a 4)) b]> id)
        | _ => None
        end
  end.

(** [None] in the answer is -1.
    [src/com32/lib/syslinux/disk.c:470-518 str_to_guid] *)
Definition str_to_guid (buf id : list Z) : option (option (list Z)) :=
  let* seq := guid_digits 32 buf in
  match seq with
  | None => Some None
  | Some seq => let* id := guid_fill guid_le_walk_map 0 seq id in Some (Some id)
  end.

(** ** Cylinders, heads and sectors *)

(** [src/com32/chain/utility.h:43-43 L2C] *)
Variant l2c := L2C_CNUL | L2C_CADD | L2C_CMAX.

(** The geometry that is assumed.
    [src/com32/chain/utility.c:104-123 lba2chs] *)
Definition l2c_geometry (di : disk_info) (mode : l2c) : Z * Z * Z :=
  if cbios di then
    let cs := match mode with
              | L2C_CADD => if (cyl di <? 1024) && (u32 (cyl di * head di * spt di) <? lbacnt di) then cyl di + 1 else cyl di
              | L2C_CMAX => 1024
              | L2C_CNUL => cyl di
              end in
    (cs, head di, spt di)
  else if negb (Z.land (disk di) 0x80 =? 0) then (1024, 255, 63) else (80, 2, 18).

(** The three bytes.
    [src/com32/chain/utility.c:95-139 lba2chs] *)
Definition lba2chs (di : disk_info) (lba : Z) (mode : l2c) : Z * Z * Z :=
  let '(cs, hs, ss) := l2c_geometry di mode in
  let '(c, h, s) :=
    if u32 (cs * hs * ss) <=? lba then (cs - 1, hs - 1, ss)
    else let t := u32 (lba / ss) in (t / hs, t mod hs, lba mod ss + 1) in
  (u8 h, u8 (Z.lor s (Z.shiftr (Z.land c 0x300) 2)), u8 c).

(** [src/com32/include/syslinux/disk.h:94-98 chs_head, chs_sector, chs_cylinder] *)
Definition chs_head (chs : Z * Z * Z) : Z := let '(b, _, _) := chs in b.
Definition chs_sector (chs : Z * Z * Z) : Z := let '(_, b, _) := chs in Z.land b 0x3F.
Definition chs_cylinder (chs : Z * Z * Z) : Z :=
  let '(_, b1, b2) := chs in Z.lor (u16 (Z.shiftl (Z.land b1 0xC0) 2)) b2.

(** ** The identifiers come back *)

Lemma hex_value_char n : 0 <= n < 16 -> hex_value (hex_char n) = Some n /\ hex_char n <> 0 /\ hex_char n <> 45 /\ hex_char n <> 123 /\ hex_char n <> 125.
Proof.
  intros Hn; assert (Hk : exists k : nat, (k < 16)%nat /\ n = Z.of_nat k) by (exists (Z.to_nat n); lia).
  destruct Hk as (k & Hk & ->); do 16 (destruct k as [|k]; [vm_compute; repeat split; discriminate|]); lia.
Qed.

Lemma nibbles b : is_byte b -> 0 <= Z.shiftr (Z.land b 0xF0) 4 < 16 /\ 0 <= Z.land b 0x0F < 16 /\
  Z.lor (u8 (Z.shiftl (Z.shiftr (Z.land b 0xF0) 4) 4)) (Z.land b 0x0F) = b.
Proof.
  intros Hb; assert (Hk : exists k : nat, (k < 256)%nat /\ b = Z.of_nat k) by (exists (Z.to_nat b); unfold is_byte in Hb; lia).
  destruct Hk as (k & Hk & ->); clear Hb.
  assert (Hall : forallb (fun k => let b := Z.of_nat k in (0 <=? Z.shiftr (Z.land b 0xF0) 4) && (Z.shiftr (Z.land b 0xF0) 4 <? 16) &&
    (0 <=? Z.land b 0x0F) && (Z.land b 0x0F <? 16) && (Z.lor (u8 (Z.shiftl (Z.shiftr (Z.land b 0xF0) 4) 4)) (Z.land b 0x0F) =? b)) (seq 0 256) = true)
    by (vm_compute; reflexivity).
  rewrite forallb_forall in Hall; specialize (Hall k ltac:(apply in_seq; lia)); cbv zeta in Hall; bools; lia.
Qed.

(** The sequence of nibbles of the bytes a walk leads to. *)
Fixpoint walk_bytes (steps : list Z) (walker : Z) (id : list Z) : list Z :=
  match steps with
  | [] => []
  | s :: steps => (if s =? 0 then [] else [byte_at id (Z.to_nat (walker + s))]) ++ walk_bytes steps (walker + s) id
  end.
Definition digits_of_bytes (l : list Z) : list Z := concat (map (fun b => [Z.shiftr (Z.land b 0xF0) 4; Z.land b 0x0F]) l).

(** Where a walk leads is inside of the sixteen bytes. *)
Fixpoint walk_inside (steps : list Z) (walker : Z) : bool :=
  match steps with
  | [] => true
  | s :: steps => ((s =? 0) || (0 <=? walker + s) && (walker + s <? 16)) && walk_inside steps (walker + s)
  end.

Lemma guid_walk_read : forall steps walker id n r, Forall is_byte id -> length id = 16%nat -> walk_inside steps walker = true ->
  n = (2 * length (walk_bytes steps walker id))%nat ->
  exists t, guid_walk steps walker id = Some t /\ guid_digits n (t ++ r) = Some (Some (digits_of_bytes (walk_bytes steps walker id))).
Proof.
  induction steps as [|s steps IH]; intros walker id n r Hb Hl Hw Hn; cbn [guid_walk walk_bytes walk_inside] in *.
  - exists [0]; split; [done|]; cbn in Hn; subst n; reflexivity.
  - apply andb_true_iff in Hw as [Hs Hw]; destruct (Z.eqb_spec s 0) as [Hz|Hz]; cbn [orb app] in *.
    + destruct (IH (walker + s) id n r Hb Hl Hw Hn) as (t & -> & Ht); exists (45 :: t); split; [done|]; cbn [app guid_digits].
      change (45 =? 0) with false; cbv iota; destruct n as [|n].
      * destruct (walk_bytes steps (walker + s) id); [reflexivity|cbn in Hn; lia].
      * change ((45 =? 123) || (45 =? 125) || (45 =? 45)) with true; cbv iota; exact Ht.
    + apply andb_true_iff in Hs as [H1 H2]; bools; rewrite (proj2 (Z.ltb_ge (walker + s) 0)) by lia.
      destruct (lookup_lt_is_Some_2 id (Z.to_nat (walker + s)) ltac:(lia)) as [b Eb]; rewrite Eb.
      assert (Hbb : is_byte b) by exact (proj1 (Forall_lookup _ _) Hb _ b Eb); destruct (nibbles b Hbb) as (N1 & N2 & _).
      cbn [length] in Hn; destruct n as [|[|n]]; [lia|lia|].
      destruct (IH (walker + s) id n r Hb Hl Hw ltac:(lia)) as (t & -> & Ht); eexists; split; [reflexivity|].
      destruct (hex_value_char _ N1) as (V1 & V2 & V3 & V4 & V5), (hex_value_char _ N2) as (U1 & U2 & U3 & U4 & U5).
      cbn [app guid_digits]; rewrite !(proj2 (Z.eqb_neq (hex_char _) _)) by done; cbn [orb]; rewrite V1, U1, Ht.
      unfold byte_at; rewrite Eb; reflexivity.
Qed.

(** The places a walk leads to. *)
Fixpoint walk_places (steps : list Z) (walker : Z) : list nat :=
  match steps with
  | [] => []
  | s :: steps => (if s =? 0 then [] else [Z.to_nat (walker + s)]) ++ walk_places steps (walker + s)
  end.

Lemma guid_fill_read id : Forall is_byte id -> forall steps walker acc, walk_inside steps walker = true -> length acc = 16%nat ->
  guid_fill steps walker (digits_of_bytes (walk_bytes steps walker id)) acc =
  Some (fold_left (fun l k => <[k := byte_at id k]> l) (walk_places steps walker) acc).
Proof.
  intros Hb; induction steps as [|s steps IH]; intros walker acc Hw Hl; [done|]; cbn [guid_fill walk_bytes walk_inside walk_places] in *.
  apply andb_true_iff in Hw as [Hs Hw]; destruct (Z.eqb_spec s 0) as [Hz|Hz]; cbn [orb app] in *.
  - subst s; rewrite Z.add_0_r in *; now apply IH.
  - apply andb_true_iff in Hs as [H1 H2]; bools; unfold digits_of_bytes; cbn [map concat app].
    rewrite (proj2 (Z.ltb_ge (walker + s) 0)), (proj2 (Z.leb_gt _ _)) by lia; cbn [orb].
    rewrite (proj2 (proj2 (nibbles _ (byte_range id (Z.to_nat (walker + s)) Hb)))); cbn [fold_left]; apply IH; [done|now rewrite length_insert].
Qed.

(** C22: what guid_to_str writes, str_to_guid reads back, whatever was in the place for
    it, and the text has 36 characters. *)
Theorem guid_roundtrip id junk r : Forall is_byte id -> length id = 16%nat -> length junk = 16%nat ->
  exists t, guid_to_str id = Some t /\ length t = 37%nat /\ str_to_guid (t ++ r) junk = Some (Some id).
Proof.
  intros Hb Hl Hj; destruct (guid_walk_read guid_le_walk_map 0 id 32 r Hb Hl eq_refl eq_refl) as (t & Et & Hd).
  exists t; split; [exact Et|]; unfold str_to_guid; rewrite Hd, (guid_fill_read id Hb) by done.
  do 16 (destruct id as [|? id]; [discriminate|]); destruct id; [|discriminate].
  do 16 (destruct junk as [|? junk]; [discriminate|]); destruct junk; [|discriminate].
  split; [|reflexivity].
  cbn -[hex_char] in Et; injection Et as <-; reflexivity.
Qed.

Lemma guid_roundtrip_witness : let id := seqZ 160 16 in
  exists t, guid_to_str id = Some t /\ length t = 37%nat /\ str_to_guid (t ++ [7]) (replicate 16 0) = Some (Some id).
Proof.
  intros id; apply (guid_roundtrip id (replicate 16 0) [7]); [apply bytes_ok; vm_compute; reflexivity|reflexivity|reflexivity].
Defined.
