(* ===== verification/DiskProof.v ===== *)
(** * Disks: what reading and writing through the BIOS comes to

    The addresses of cylinders, heads and sectors; the laws of interrupt 13h and of the
    allocators ([BiosLaws], [QueryLaws]); that reading answers what the drive holds and
    writing touches nothing else; what the queries find out about a drive; and that a disk
    keeps the promises of [DiskReader].  [toy_bios] is a BIOS that obeys the laws. *)

From S2P Require Import Prelude Hash Disk.

(** ** Cylinders, heads and sectors and the addresses they stand for *)

Lemma chs_bits c s : 0 <= c < 1024 -> 1 <= s <= 63 ->
  let b := u8 (Z.lor s (Z.shiftr (Z.land c 0x300) 2)) in
  Z.land b 0x3F = s /\ Z.lor (u16 (Z.shiftl (Z.land b 0xC0) 2)) (u8 c) = c.
Proof.
  intros Hc Hs b.
  assert (Hall : forallb (fun k => let c := Z.of_nat k in forallb (fun j => let s := Z.of_nat j in
    let b := u8 (Z.lor s (Z.shiftr (Z.land c 0x300) 2)) in
    (Z.land b 0x3F =? s) && (Z.lor (u16 (Z.shiftl (Z.land b 0xC0) 2)) (u8 c) =? c)) (seq 1 63)) (seq 0 1024) = true) by (vm_compute; reflexivity).
  rewrite forallb_forall in Hall; specialize (Hall (Z.to_nat c) ltac:(apply in_seq; lia)); cbv zeta in Hall.
  rewrite forallb_forall in Hall; specialize (Hall (Z.to_nat s) ltac:(apply in_seq; lia)); cbv zeta in Hall.
  rewrite !Z2Nat.id in Hall by lia; fold b in Hall; bools; done.
Qed.

(** The coordinates of an address. *)
Lemma coordinates lba hs ss : 0 < hs -> 0 < ss -> 0 <= lba ->
  0 <= lba mod ss < ss /\ 0 <= lba / ss mod hs < hs /\ (lba / ss / hs * hs + lba / ss mod hs) * ss + lba mod ss = lba.
Proof.
  intros Hh Hs Hl; pose proof (Z.div_mod lba ss ltac:(lia)); pose proof (Z.mod_pos_bound lba ss Hs).
  pose proof (Z.div_mod (lba / ss) hs ltac:(lia)); pose proof (Z.mod_pos_bound (lba / ss) hs Hh); nia.
Qed.

Lemma coordinate_bound lba cs hs ss : 0 < hs -> 0 < ss -> 0 <= lba < cs * hs * ss -> 0 <= lba / ss / hs < cs /\ lba / ss < cs * hs.
Proof.
  intros Hh Hs Hl; assert (lba / ss < cs * hs) by (apply Z.div_lt_upper_bound; lia).
  assert (0 <= lba / ss) by (apply Z.div_pos; lia); split; [|lia]; split; [apply Z.div_pos; lia|apply Z.div_lt_upper_bound; lia].
Qed.

Definition geometry_ok (cs hs ss : Z) : Prop := 1 <= cs <= 1024 /\ 1 <= hs <= 256 /\ 1 <= ss <= 63.

(** C21: the triple of lba2chs stands for the address, if the geometry it assumes has one;
    for an address past it, it is the last one. *)
Theorem lba2chs_correct di lba mode : let '(cs, hs, ss) := l2c_geometry di mode in
  geometry_ok cs hs ss -> 0 <= lba ->
  let chs := lba2chs di lba mode in
  0 <= chs_cylinder chs < cs /\ 0 <= chs_head chs < hs /\ 1 <= chs_sector chs <= ss /\
  (chs_cylinder chs * hs + chs_head chs) * ss + chs_sector chs - 1 = Z.min lba (cs * hs * ss - 1).
Proof.
  destruct (l2c_geometry di mode) as [[cs hs] ss] eqn:Eg; intros (Hc & Hh & Hs) Hl chs; unfold chs, lba2chs; rewrite Eg.
  assert (Hb0 : 0 < cs * hs <= 1024 * 256) by nia; assert (H0 : 0 < cs * hs * ss <= 1024 * 256 * 63) by nia; rewrite u32_small by lia.
  destruct (Z.leb_spec (cs * hs * ss) lba) as [Hge|Hlt]; cbn [chs_head chs_sector chs_cylinder].
  - destruct (chs_bits (cs - 1) ss ltac:(lia) ltac:(lia)) as [-> ->]; rewrite u8_small, Z.min_r by lia; repeat split; try lia; ring.
  - destruct (coordinate_bound lba cs hs ss ltac:(lia) ltac:(lia) ltac:(lia)) as [Hb1 Hb2].
    assert (0 <= lba / ss) by (apply Z.div_pos; lia); rewrite (u32_small (lba / ss)) by nia.
    destruct (coordinates lba hs ss ltac:(lia) ltac:(lia) Hl) as (C1 & C2 & C3).
    destruct (chs_bits (lba / ss / hs) (lba mod ss + 1) ltac:(lia) ltac:(lia)) as [-> ->]; rewrite u8_small, Z.min_l by lia; lia.
Qed.

Lemma lba2chs_correct_witness :
  let di := Disk_info 0x80 true true 512 20000 20 16 63 in let chs := lba2chs di 5000 L2C_CNUL in
  (chs_cylinder chs * 16 + chs_head chs) * 63 + chs_sector chs - 1 = 5000.
Proof.
  intros di chs; refine (proj2 (proj2 (proj2 (lba2chs_correct di 5000 L2C_CNUL _ _)))); [unfold geometry_ok; cbn; lia|lia].
Defined.

(** ** The interrupt *)

(** A drive: the size of a sector, the number of them, and its geometry. *)
Record drive := Drive { d_bps : Z; d_total : Z; d_heads : Z; d_spt : Z }.

(** What a call asks for: the first sector, their number, and the address of the buffer. *)
Definition asked {W} `{Bios W} (g : drive) (r : regs) (w : W) : Z * Z * Z :=
  if (ah r =? 0x42) || (ah r =? 0x43) then
    let p := ds r * 16 + si r in
    (fetch_le w (p + 8) 8, fetch_le w (p + 2) 2, fetch_le w (p + 6) 2 * 16 + fetch_le w (p + 4) 2)
  else
    let c := Z.lor (Z.shiftl (Z.land (cl r) 0xC0) 2) (ch r) in
    ((c * d_heads g + dh r) * d_spt g + Z.land (cl r) 0x3F - 1, al r, es r * 16 + bx r).

(** The memory outside of a range is kept. *)
Definition outside {W} `{Bios W} (p n : Z) (w w' : W) : Prop := forall a, a < p \/ p + n <= a -> load w' a = load w a.

(** What the interrupt and the allocators are documented to do.  A call that fails may
    leave anything in the buffer, but keeps the packet that asks for it. *)
Class BiosLaws (W : Type) `{Bios W} (number : Z) (g : drive) := {
  medium : W -> Z -> list Z;
  owns : W -> Z -> Z -> Prop;
  medium_length : forall w lba, length (medium w lba) = Z.to_nat (d_bps g);
  law_read_keeps : forall r w o w', (ah r = 0x42 \/ ah r = 0x02) -> int13 r w = (o, w') ->
    medium w' = medium w /\ (forall a n, owns w a n -> owns w' a n);
  law_read : forall r w o w', (ah r = 0x42 \/ ah r = 0x02) -> dl r = number -> int13 r w = (o, w') ->
    let '(lba, count, buf) := asked g r w in
    outside buf (count * d_bps g) w w' /\
    (cf o = false -> lba + count <= d_total g /\
       fetch w' buf (Z.to_nat (count * d_bps g)) = concat (map (fun i => medium w (lba + Z.of_nat i)) (seq 0 (Z.to_nat count))));
  law_write : forall r w o w', (ah r = 0x43 \/ ah r = 0x03) -> dl r = number -> int13 r w = (o, w') ->
    let '(lba, count, buf) := asked g r w in
    (forall a n, owns w a n -> owns w' a n) /\ (forall a, load w' a = load w a) /\
    (forall i, i < lba \/ lba + count <= i -> medium w' i = medium w i);
  law_store : forall p bs w, medium (store p bs w) = medium w /\ (forall a n, owns w a n -> owns (store p bs w) a n) /\
    (forall a, load (store p bs w) a = if (p <=? a) && (a <? p + Z.of_nat (length bs)) then byte_at bs (Z.to_nat (a - p)) else load w a);
  law_lmalloc : forall n w r w', lmalloc n w = (r, w') -> medium w' = medium w /\
    (forall a k, owns w a k -> owns w' a k) /\ (forall a, load w' a = load w a) /\
    match r with
    | Some p => 0 <= p /\ p + n <= 0x100000 /\ owns w' p n /\ forall a k, owns w a k -> a <> p /\ (p + n <= a \/ a + k <= p)
    | None => True
    end;
  law_lfree : forall p w, medium (lfree p w) = medium w /\ (forall a, load (lfree p w) a = load w a) /\
    (forall a k, owns w a k -> a <> p -> owns (lfree p w) a k);
  law_malloc : forall w r w', malloc w = (r, w') -> medium w' = medium w /\ (forall a, load w' a = load w a) /\
    (forall a k, owns w a k -> owns w' a k)
}.

(** What is known of a disk agrees with the drive; without EBIOS, by the geometry. *)
Definition info_ok (number : Z) (g : drive) (di : disk_info) : Prop :=
  u8 (disk di) = number /\ bps di = d_bps g /\ 0 < d_bps g < 65536 /\ lbacnt di < 2 ^ 64 /\ d_total g < 2 ^ 64 /\
  (ebios di = false -> geometry_ok (cyl di) (head di) (spt di) /\ lbacnt di = cyl di * head di * spt di /\
     (head di = d_heads g /\ spt di = d_spt g \/ cyl di = 1 /\ head di = 1 /\ spt di = 1)).

Section reading.
Context {W : Type} `{B : Bios W} (number : Z) (g : drive) `{!BiosLaws W number g}.

(** The static packet is a block of its own. *)
Definition machine_ok (m : machine W) : Prop := forall p, dapa m = Some p -> 0 <= p /\ p + 16 <= 0x100000 /\ owns (world m) p 16.

Lemma land_byte v : 0 <= Z.land (u8 v) 0xC0 < 256.
Proof. change 0xC0 with (Z.land 0xC0 (Z.ones 8)); rewrite Z.land_assoc, Z.land_ones by lia; apply Z.mod_pos_bound; lia. Qed.

Lemma segment p : 0 <= p < 0x100000 -> SEG p * 16 + OFFS p = p /\ 0 <= SEG p < 65536 /\ 0 <= OFFS p < 65536.
Proof.
  intros Hp; unfold SEG, OFFS; rewrite Z.shiftr_div_pow2 by lia; change (2 ^ 4) with 16; change 0x000F with (Z.ones 4); rewrite Z.land_ones by lia.
  change (2 ^ 4) with 16; unfold u16; rewrite (Z.mod_small (p / 16)) by (split; [apply Z.div_pos; lia|apply Z.div_lt_upper_bound; lia]).
  Z.div_mod_to_equations; lia.
Qed.

(** Little-endian numbers in memory. *)
Lemma fetch_store p bs w : fetch (store p bs w) p (length bs) = bs.
Proof.
  apply list_eq; intros i; unfold fetch; destruct (decide (i < length bs)%nat) as [Hi|Hi].
  - rewrite list_lookup_fmap, lookup_seq_lt by lia; cbn [fmap option_fmap option_map]; destruct (law_store p bs w) as (_ & _ & Hl); rewrite Hl.
    rewrite (proj2 (Z.leb_le _ _)), (proj2 (Z.ltb_lt _ _)) by lia; cbn [andb]; replace (Z.to_nat (p + Z.of_nat (0 + i) - p)) with i by lia.
    unfold byte_at; destruct (lookup_lt_is_Some_2 bs i Hi) as [b ->]; reflexivity.
  - rewrite !lookup_ge_None_2; [done|lia|rewrite length_map, length_seq; lia].
Qed.

Lemma fetch_sub (w : W) p n k j : (k + j <= n)%nat -> fetch w (p + Z.of_nat k) j = take j (drop k (fetch w p n)).
Proof.
  intros Hk; unfold fetch; apply list_eq; intros i; destruct (decide (i < j)%nat) as [Hi|Hi].
  - rewrite lookup_take_lt, lookup_drop by lia; rewrite !list_lookup_fmap, !lookup_seq_lt by lia; cbn [fmap option_fmap option_map]; do 2 f_equal; lia.
  - rewrite !lookup_ge_None_2; [done|rewrite length_take; lia|rewrite length_map, length_seq; lia].
Qed.

Lemma fetch_ext (w w' : W) p n : (forall a, p <= a < p + Z.of_nat n -> load w' a = load w a) -> fetch w' p n = fetch w p n.
Proof. intros Ha; unfold fetch; apply map_ext_in; intros i Hi; apply in_seq in Hi; apply Ha; lia. Qed.

Definition le_value (l : list Z) : Z := foldr (fun x v => x + 256 * v) 0 l.

Lemma le_16 v : 0 <= v < 65536 -> le_value (bytes_16 v) = v.
Proof. intros Hv; unfold le_value, bytes_16; cbn [foldr]; rewrite Z.shiftr_div_pow2 by lia; change (2 ^ 8) with 256; ulia. Qed.

Lemma le_32 v r : 0 <= v < 4294967296 -> le_value (bytes_32 v ++ r) = v + 4294967296 * le_value r.
Proof.
  intros Hv; unfold le_value, bytes_32; cbn [app foldr]; ulia.
Qed.

Lemma le_64 v : 0 <= v < 2 ^ 64 -> le_value (bytes_64 v) = v.
Proof.
  intros Hv; unfold bytes_64; rewrite le_32 by apply u32_range; rewrite <- (app_nil_r (bytes_32 (u32 (Z.shiftr v 32)))), le_32 by apply u32_range.
  rewrite Z.shiftr_div_pow2 by lia; change (2 ^ 32) with 4294967296; cbn; ulia.
Qed.

(** A call that is prepared: what it asks for, which changes in the buffer do not touch. *)
Record prepared (m : machine W) (lba count : Z) (inreg : regs) (buf : Z) : Prop := {
  pr_number : dl inreg = number;
  pr_stable : forall w, outside buf (count * d_bps g) (world m) w -> asked g inreg w = (lba, count, buf)
}.

(** What every call that reads keeps. *)
Definition kept (m m' : machine W) : Prop := medium (world m') = medium (world m) /\ machine_ok m'.

Lemma outside_refl p n w : outside p n w w.
Proof. intros a _; done. Qed.

Lemma outside_trans p n (w1 w2 w3 : W) : outside p n w1 w2 -> outside p n w2 w3 -> outside p n w1 w3.
Proof. intros H1 H2 a Ha; rewrite H2, H1; done. Qed.

Lemma in_range di lba count : out_of_range di lba count = false -> info_ok number g di -> 0 <= lba -> lba + count < 2 ^ 64 -> 0 <= count < 256 ->
  1 <= count /\ lba + count <= lbacnt di /\ 0 < count * bps di <= 65536.
Proof.
  intros Ho (_ & Hb & Hbp & _) Hl Hw Hc; unfold out_of_range in Ho; apply orb_false_iff in Ho as [Ho H3]; apply orb_false_iff in Ho as [H1 H2]; bools.
  rewrite u64_small in * by lia; rewrite Hb in *; rewrite u32_small in * by lia; split; [lia|split; [lia|]].
  pose proof (Z.mul_div_le (65536 - d_bps g) (d_bps g) ltac:(lia)); nia.
Qed.

Lemma kept_trans m1 m2 m3 : kept m1 m2 -> kept m2 m3 -> kept m1 m3.
Proof. intros [H1 _] [H2 Hm]; split; [congruence|exact Hm]. Qed.

(** The blocks that are owned stay so. *)
Lemma ok_step m w : machine_ok m -> (forall a n, owns (world m) a n -> owns w a n) -> machine_ok (Machine w (dapa m)).
Proof. intros Hm Ho p Hp; destruct (Hm p Hp) as (H1 & H2 & H3); auto. Qed.

(** A new buffer is not the packet. *)
Lemma kept_alloc n m r m' : machine_ok m -> on_world (lmalloc n) m = (r, m') ->
  kept m m' /\ dapa m' = dapa m /\ (forall buf, r = Some buf -> dapa m' <> Some buf).
Proof.
  intros Hm; unfold on_world; destruct (lmalloc n (world m)) as [q w] eqn:Em; intros [= <- <-].
  apply law_lmalloc in Em as (Hmed & Hown & _ & Hnew); split; [split; [exact Hmed|now apply ok_step]|split; [done|]].
  intros buf -> Hd; cbn [dapa] in Hd; destruct (Hm buf Hd) as (_ & _ & H3); destruct Hnew as (_ & _ & _ & Hf); now destruct (Hf _ _ H3).
Qed.

Lemma kept_store p bs m : machine_ok m -> kept m (set_world (store p bs) m).
Proof. intros Hm; destruct (law_store p bs (world m)) as (H1 & H2 & _); split; [exact H1|now apply ok_step]. Qed.

Lemma kept_free buf m : machine_ok m -> dapa m <> Some buf -> kept m (set_world (lfree buf) m).
Proof.
  intros Hm Hd; destruct (law_lfree buf (world m)) as (H1 & _ & H3); split; [exact H1|].
  intros p Hp; cbn [set_world dapa world] in *; destruct (Hm p Hp) as (H4 & H5 & H6); split; [exact H4|split; [exact H5|]]; apply H3; congruence.
Qed.

Lemma kept_malloc r m m' : machine_ok m -> on_world malloc m = (r, m') -> kept m m' /\ dapa m' = dapa m /\ (forall a, load (world m') a = load (world m) a).
Proof.
  intros Hm; unfold on_world; destruct (malloc (world m)) as [q w] eqn:Em; intros [= <- <-].
  apply law_malloc in Em as (Hmed & Hload & Hown); split; [split; [exact Hmed|now apply ok_step]|done].
Qed.

(** The packet, which is asked for once. *)
Definition packet (m : machine W) : option Z * machine W :=
  match dapa m with Some p => (Some p, m) | None => let (p, w) := lmalloc 16 (world m) in (p, Machine w p) end.

Lemma kept_packet m r m' : machine_ok m -> packet m = (r, m') -> kept m m' /\ dapa m' = r.
Proof.
  intros Hm; unfold packet; destruct (dapa m) as [q|] eqn:Ed; [intros [= <- <-]; exact (conj (conj eq_refl Hm) Ed)|].
  destruct (lmalloc 16 (world m)) as [q w] eqn:Em; intros [= <- <-]; apply law_lmalloc in Em as (Hmed & _ & _ & Hnew).
  split; [split; [exact Hmed|]|done]; intros p Hp; cbn [dapa world] in *; subst q; tauto.
Qed.

Definition code_of (di : disk_info) (ecode ccode : Z) : Z := if ebios di then ecode else ccode.

Lemma setup_kept di lba count ecode ccode m r m' : machine_ok m -> setup di lba count ecode ccode m = (r, m') ->
  kept m m' /\ (forall buf inreg, r = Some (buf, inreg) -> ah inreg = code_of di ecode ccode /\ dapa m' <> Some buf).
Proof.
  intros Hm; unfold setup, code_of; destruct (ebios di); [unfold ebios_setup; fold (packet m)|unfold chs_setup].
  - destruct (packet m) as [[p|] m1] eqn:Ep; apply kept_packet in Ep as [K1 D1]; try done; [|intros [= <- <-]; done].
    destruct (on_world _ m1) as [[buf|] m2] eqn:Em; apply kept_alloc in Em as (K2 & D2 & F2); try exact (proj2 K1); intros [= <- <-];
      [|split; [eapply kept_trans; eassumption|done]].
    split; [eapply kept_trans; [exact K1|eapply kept_trans; [exact K2|apply kept_store, K2]]|].
    intros b i [= <- <-]; split; [done|]; now apply F2.
  - destruct (on_world _ m) as [[buf|] m2] eqn:Em; apply kept_alloc in Em as (K2 & D2 & F2); try done; intros [= <- <-]; split; try done.
    intros b i [= <- <-]; split; [done|]; now apply F2.
Qed.

(** What is asked for: by coordinates. *)
Lemma chs_prepared di lba count code m r m' : info_ok number g di -> ebios di = false ->
  1 <= count < 256 -> 0 <= lba -> lba + count <= lbacnt di -> 0 < count * bps di <= 65536 -> code = 0x02 \/ code = 0x03 ->
  chs_setup di lba count code m = (r, m') -> forall buf inreg, r = Some (buf, inreg) -> prepared m' lba count inreg buf.
Proof.
  intros (Hnum & Hbps & Hbp & _ & _ & Hgeo) He Hc Hl Hend Hsz Hcode; unfold chs_setup, on_world.
  destruct (Hgeo He) as ((Hg1 & Hg2 & Hg3) & Hcnt & Hsame).
  destruct (lmalloc _ (world m)) as [buf w] eqn:Em; apply law_lmalloc in Em as (_ & _ & _ & Hnew).
  destruct buf as [buf|]; intros [= <- <-]; intros b inreg; [|done]; intros [= <- <-].
  rewrite u32_small in Hnew by lia; destruct Hnew as (Hb1 & Hb2 & _ & _); destruct (segment buf ltac:(lia)) as (Hs1 & _ & _).
  set (h := head di) in *; set (ss := spt di) in *; assert (Hlt : 0 <= lba < cyl di * h * ss) by lia.
  destruct (coordinate_bound lba (cyl di) h ss ltac:(lia) ltac:(lia) Hlt) as [Hcb Hcb2].
  assert (0 <= lba / ss) by (apply Z.div_pos; lia); rewrite (u32_small (lba / ss)) by nia.
  destruct (coordinates lba h ss ltac:(lia) ltac:(lia) Hl) as (C1 & C2 & C3).
  destruct (chs_bits (lba / ss / h) (lba mod ss + 1) ltac:(lia) ltac:(lia)) as [B1 B2].
  split; [exact Hnum|]; intros w' _; unfold asked; cbn [ah].
  replace ((code =? 0x42) || (code =? 0x43)) with false by (destruct Hcode; subst code; reflexivity).
  cbn [cl ch dh al es bx]; rewrite (Z.lor_comm (Z.shiftr _ 2)), B1, Hs1.
  rewrite u16_small in B2 by (rewrite Z.shiftl_mul_pow2 by lia; change (2 ^ 2) with 4; pose proof (land_byte (Z.lor (lba mod ss + 1) (Z.shiftr (Z.land (lba / ss / h) 0x300) 2))); lia).
  rewrite B2, (u8_small (lba / ss mod h)) by lia; f_equal; f_equal.
  destruct Hsame as [[Hh Hss]|(Hc1 & Hh1 & Hs1')]; [rewrite <- Hh, <- Hss; fold h ss; lia|].
  assert (lba = 0) by nia; subst lba; rewrite (Z.div_0_l ss), (Z.mod_0_l ss), (Z.div_0_l h), (Z.mod_0_l h) by lia; lia.
Qed.

(** And by a packet. *)
Lemma ebios_prepared di lba count code m r m' : info_ok number g di -> machine_ok m ->
  1 <= count < 256 -> 0 <= lba < 2 ^ 64 -> 0 < count * bps di <= 65536 -> code = 0x42 \/ code = 0x43 ->
  ebios_setup di zero_regs lba count code m = (r, m') -> forall buf inreg, r = Some (buf, inreg) -> prepared m' lba count inreg buf.
Proof.
  intros (Hnum & Hbps & Hbp & _) Hm Hc Hl Hsz Hcode; unfold ebios_setup; fold (packet m).
  destruct (packet m) as [[p|] m1] eqn:Ep; apply kept_packet in Ep as [[_ Hok1] Hd1]; try done; [|intros [= <- <-]; done].
  unfold on_world; destruct (lmalloc _ (world m1)) as [buf w] eqn:Em; apply law_lmalloc in Em as (_ & _ & _ & Hnew).
  destruct buf as [buf|]; intros [= <- <-]; intros b inreg; [|done]; intros [= <- <-].
  rewrite u32_small in Hnew by lia; destruct Hnew as (Hb1 & Hb2 & _ & Hb4); rewrite Hbps in *.
  destruct (Hok1 p Hd1) as (Hp1 & Hp2 & Hp3); destruct (Hb4 _ _ Hp3) as [_ Hdis].
  set (bs := bytes_16 16 ++ bytes_16 count ++ bytes_16 (OFFS buf) ++ bytes_16 (SEG buf) ++ bytes_64 lba).
  destruct (segment buf ltac:(lia)) as (Hs1 & Hs2 & Hs3), (segment p ltac:(lia)) as (Hq1 & _ & _).
  split; [exact Hnum|]; intros w' Hw'; unfold asked; cbn [ah ds si].
  replace ((code =? 0x42) || (code =? 0x43)) with true by (destruct Hcode; subst code; reflexivity).
  rewrite Hq1; assert (Hall : fetch w' p 16 = bs).
  { rewrite <- (fetch_store p bs w); change (length bs) with 16%nat; apply fetch_ext; intros a Ha; apply Hw'; cbn [world]; lia. }
  assert (Hsub : forall k j, (k + j <= 16)%nat -> fetch_le w' (p + Z.of_nat k) j = le_value (take j (drop k bs))).
  { intros k j Hk; unfold fetch_le; rewrite (fetch_sub w' p 16 k j Hk), Hall; reflexivity. }
  pose proof (Hsub 8%nat 8%nat ltac:(lia)) as E1; pose proof (Hsub 2%nat 2%nat ltac:(lia)) as E2;
    pose proof (Hsub 6%nat 2%nat ltac:(lia)) as E3; pose proof (Hsub 4%nat 2%nat ltac:(lia)) as E4.
  change (Z.of_nat 8) with 8 in E1; change (Z.of_nat 2) with 2 in E2; change (Z.of_nat 6) with 6 in E3; change (Z.of_nat 4) with 4 in E4.
  rewrite E1, E2, E3, E4; unfold bs.
  change (take 8 (drop 8 _)) with (bytes_64 lba); change (take 2 (drop 2 _)) with (bytes_16 count);
    change (take 2 (drop 6 _)) with (bytes_16 (SEG buf)); change (take 2 (drop 4 _)) with (bytes_16 (OFFS buf)).
  rewrite le_64, !le_16, Hs1 by lia; reflexivity.
Qed.

Lemma setup_prepared di lba count ecode ccode m r m' : info_ok number g di -> machine_ok m ->
  1 <= count < 256 -> 0 <= lba -> lba + count < 2 ^ 64 -> lba + count <= lbacnt di -> 0 < count * bps di <= 65536 ->
  ecode = 0x42 /\ ccode = 0x02 \/ ecode = 0x43 /\ ccode = 0x03 ->
  setup di lba count ecode ccode m = (r, m') -> forall buf inreg, r = Some (buf, inreg) -> prepared m' lba count inreg buf.
Proof.
  intros Hi Hm Hc Hl Hw Hend Hsz Hcode; unfold setup; destruct (ebios di) eqn:Ee.
  - apply ebios_prepared; (done || lia).
  - apply chs_prepared; (done || lia).
Qed.

(** ** Reading *)

Notation run m lba count := (concat (map (fun i => medium (world m) (lba + Z.of_nat i)) (seq 0 (Z.to_nat count)))).

Lemma retry_kept inreg : ah inreg = 0x42 \/ ah inreg = 0x02 -> forall n m o m', machine_ok m -> int13_retry n inreg m = (o, m') ->
  kept m m' /\ dapa m' = dapa m.
Proof.
  intros Hah; induction n as [|n IH]; intros m o m' Hm; cbn [int13_retry]; [intros [= _ <-]; exact (conj (conj eq_refl Hm) eq_refl)|].
  unfold on_world; destruct (int13 inreg (world m)) as [o1 w] eqn:Ei; apply law_read_keeps in Ei as [Hmed Hown]; [|done].
  assert (K : kept m (Machine w (dapa m))) by (split; [exact Hmed|now apply ok_step]).
  destruct (negb (cf o1)); [intros [= _ <-]; done|]; intros E; apply IH in E as [K2 D2]; [|apply K]; split; [eapply kept_trans; eassumption|exact D2].
Qed.

Lemma retry_read inreg lba count buf : ah inreg = 0x42 \/ ah inreg = 0x02 -> forall n m o m', machine_ok m -> prepared m lba count inreg buf ->
  int13_retry n inreg m = (Some o, m') ->
  lba + count <= d_total g /\ fetch (world m') buf (Z.to_nat (count * d_bps g)) = run m lba count.
Proof.
  intros Hah; induction n as [|n IH]; intros m o m' Hm [Hn Hst]; cbn [int13_retry]; [done|].
  unfold on_world; destruct (int13 inreg (world m)) as [o1 w] eqn:Ei; pose proof Ei as Ek; apply law_read_keeps in Ek as [Hmed Hown]; [|done].
  apply law_read in Ei; [|done..]; rewrite Hst in Ei by apply outside_refl; destruct Ei as [Hout Hok].
  destruct (cf o1); cbn [negb].
  - intros E; apply IH in E; cbn [world] in *; [|now apply ok_step|].
    + rewrite Hmed in E; exact E.
    + split; [exact Hn|]; intros w' Hw'; apply Hst; eapply outside_trans; eassumption.
  - intros [= _ <-]; cbn [world]; now apply Hok.
Qed.

(** What reading leaves alone, whatever it is asked for. *)
Lemma read_kept di lba count m r m' : machine_ok m -> disk_read_sectors di lba count m = (r, m') -> kept m m'.
Proof.
  intros Hm; unfold disk_read_sectors; destruct (out_of_range _ _ _); [intros [= _ <-]; done|].
  destruct (setup _ _ _ _ _ m) as [[[buf inreg]|] m1] eqn:Es; apply setup_kept in Es as [K1 F1]; try done; [|intros [= _ <-]; done].
  destruct (F1 _ _ eq_refl) as [Ha Hd]; destruct (disk_int13_retry inreg m1) as [o m2] eqn:Er.
  apply retry_kept in Er as [K2 D2]; [|rewrite Ha; unfold code_of; destruct (ebios di); tauto|apply K1].
  assert (K12 : kept m m2) by (eapply kept_trans; eassumption).
  destruct o as [o|]; [|intros [= _ <-]; eapply kept_trans; [exact K12|apply kept_free; [apply K2|congruence]]].
  destruct (on_world malloc m2) as [ok m3] eqn:Em; apply kept_malloc in Em as (K3 & D3 & _); [|apply K2].
  intros [= _ <-]; eapply kept_trans; [exact K12|eapply kept_trans; [exact K3|apply kept_free; [apply K3|congruence]]].
Qed.

Lemma read_data di lba count m data m' : info_ok number g di -> machine_ok m ->
  0 <= lba -> lba + count < 2 ^ 64 -> 0 <= count < 256 -> disk_read_sectors di lba count m = (Some data, m') ->
  lba + count <= d_total g /\ data = run m lba count.
Proof.
  intros Hi Hm Hl Hw Hc; unfold disk_read_sectors; destruct (out_of_range _ _ _) eqn:Eo; [done|].
  destruct (in_range _ _ _ Eo Hi Hl Hw Hc) as (Hc1 & Hend & Hsz).
  destruct (setup _ _ _ _ _ m) as [[[buf inreg]|] m1] eqn:Es; [|done].
  assert (Hcc : 1 <= count < 256) by lia; pose proof (setup_prepared _ _ _ _ _ _ _ _ Hi Hm Hcc Hl Hw Hend Hsz (or_introl (conj eq_refl eq_refl)) Es _ _ eq_refl) as Hp.
  apply setup_kept in Es as [K1 F1]; [|done]; destruct (F1 _ _ eq_refl) as [Ha Hd].
  assert (Hah : ah inreg = 0x42 \/ ah inreg = 0x02) by (rewrite Ha; unfold code_of; destruct (ebios di); tauto).
  destruct (disk_int13_retry inreg m1) as [[o|] m2] eqn:Er; [|done]; pose proof Er as Er'; apply retry_kept in Er' as [K2 D2]; [|done|apply K1].
  apply (retry_read _ lba count buf) in Er as [Ht Hf]; [|done|apply K1|done].
  destruct (on_world malloc m2) as [[] m3] eqn:Em; [|done]; apply kept_malloc in Em as (_ & _ & Hload); [|apply K2].
  intros [= <- _]; split; [exact Ht|]; rewrite u32_small by lia; replace (bps di) with (d_bps g) by (symmetry; apply Hi).
  rewrite <- (proj1 K1), <- Hf; apply fetch_ext; auto.
Qed.

(** C19: what disk_read_sectors answers is what the drive holds in the sectors
    asked for, with packets as with coordinates, after any number of tries; and
    whether it succeeds or not, it leaves the drive as it is. The conditions:
    what is known of the disk agrees with the drive (its number, the size of its
    sectors, and without EBIOS its geometry, as disk_get_params finds it:
    [get_params_ok]); the count is below 256, and the first sector plus the
    count below 2^64 (in a machine number it wraps, and then a sector that was
    not asked for is read: disk.c:266); the interrupt and the allocators do as
    documented; and the packet in static memory, once allocated, is a block of
    its own. *)
Theorem disk_read_correct di lba count m r m' : info_ok number g di -> machine_ok m ->
  0 <= lba -> lba + count < 2 ^ 64 -> 0 <= count < 256 -> disk_read_sectors di lba count m = (r, m') ->
  medium (world m') = medium (world m) /\ machine_ok m' /\
  match r with
  | Some data => lba + count <= d_total g /\ data = run m lba count
  | None => True
  end.
Proof.
  intros Hi Hm Hl Hw Hc E; destruct (read_kept _ _ _ _ _ _ Hm E) as [H1 H2]; split; [exact H1|split; [exact H2|]].
  destruct r as [data|]; [|done]; eapply read_data; eassumption.
Qed.

(** ** Writing *)

Lemma retry_write inreg lba count buf : ah inreg = 0x43 \/ ah inreg = 0x03 -> forall n m o m', machine_ok m -> prepared m lba count inreg buf ->
  int13_retry n inreg m = (o, m') ->
  machine_ok m' /\ dapa m' = dapa m /\ forall i, i < lba \/ lba + count <= i -> medium (world m') i = medium (world m) i.
Proof.
  intros Hah; induction n as [|n IH]; intros m o m' Hm [Hn Hst]; cbn [int13_retry]; [intros [= _ <-]; done|].
  unfold on_world; destruct (int13 inreg (world m)) as [o1 w] eqn:Ei; apply law_write in Ei; [|done..].
  rewrite Hst in Ei by apply outside_refl; destruct Ei as (Hown & Hload & Hmed).
  assert (Hm1 : machine_ok (Machine w (dapa m))) by now apply ok_step.
  destruct (negb (cf o1)); [intros [= _ <-]; done|]; intros E; apply IH in E as (H1 & H2 & H3); [|done|].
  - split; [done|split; [done|]]; intros i Hi; rewrite H3, Hmed by done; done.
  - split; [exact Hn|]; intros w' Hw'; apply Hst; intros a Ha; rewrite Hw' by done; apply Hload.
Qed.

(** How a write goes: what it leaves alone, and the call that did it. *)
Lemma write_spec di lba data count m : info_ok number g di -> machine_ok m ->
  0 <= lba -> lba + count < 2 ^ 64 -> 0 <= count < 256 -> length data = Z.to_nat (count * bps di) ->
  exists ok m', disk_write_sectors di lba data count m = Some (ok, m') /\ machine_ok m' /\
  (forall i, i < lba \/ lba + count <= i -> medium (world m') i = medium (world m) i) /\
  (ok = true -> 1 <= count /\ exists inreg buf o m1 m2, (ah inreg = 0x43 \/ ah inreg = 0x03) /\ machine_ok m1 /\ prepared m1 lba count inreg buf /\
     fetch (world m1) buf (Z.to_nat (count * d_bps g)) = data /\
     disk_int13_retry inreg m1 = (Some o, m2) /\ medium (world m') = medium (world m2)).
Proof.
  intros Hi Hm Hl Hw Hc Hlen; unfold disk_write_sectors; destruct (out_of_range _ _ _) eqn:Eo; [do 2 eexists; split; [reflexivity|done]|].
  destruct (in_range _ _ _ Eo Hi Hl Hw Hc) as (Hc1 & Hend & Hsz); assert (Hcc : 1 <= count < 256) by lia.
  destruct (setup di lba count 0x43 0x03 m) as [[[buf inreg]|] m1] eqn:Es; pose proof Es as Ek; apply setup_kept in Ek as [[K1 Hm1] F1]; try done;
    [|do 2 eexists; split; [reflexivity|split; [done|split; [|done]]]; now rewrite K1].
  destruct (F1 _ _ eq_refl) as [Ha Hd]; assert (Hah : ah inreg = 0x43 \/ ah inreg = 0x03) by (rewrite Ha; unfold code_of; destruct (ebios di); tauto).
  destruct (setup_prepared _ _ _ _ _ _ _ _ Hi Hm Hcc Hl Hw Hend Hsz (or_intror (conj eq_refl eq_refl)) Es _ _ eq_refl) as [Hn Hst].
  rewrite u32_small, peek_ok by lia; unfold slice; rewrite drop_0, take_ge by lia; set (m2 := set_world (store buf data) m1).
  assert (K2 : kept m1 m2) by now apply kept_store.
  assert (Hf : fetch (world m2) buf (Z.to_nat (count * d_bps g)) = data).
  { replace (Z.to_nat (count * d_bps g)) with (length data) by (rewrite Hlen; do 2 f_equal; apply Hi); apply fetch_store. }
  assert (Hp : prepared m2 lba count inreg buf).
  { split; [exact Hn|]; intros w' Hw'; apply Hst; intros a Hx; rewrite Hw' by done; unfold m2; cbn [set_world world].
    destruct (law_store buf data (world m1)) as (_ & _ & Hls); rewrite Hls; replace (d_bps g) with (bps di) in Hx by apply Hi; destruct (_ && _) eqn:Eb; [|done]; bools; lia. }
  destruct (disk_int13_retry inreg m2) as [o m3] eqn:Er; pose proof Er as Ew; apply (retry_write _ lba count buf) in Ew as (Hm3 & D3 & Hmed); [|done|apply K2|done].
  assert (K4 : kept m3 (set_world (lfree buf) m3)) by (apply kept_free; [done|rewrite D3; exact Hd]); destruct K4 as [K4 Hm4].
  do 2 eexists; split; [reflexivity|split; [exact Hm4|split]].
  - intros i Hx; rewrite K4, Hmed by done; now rewrite (proj1 K2), K1.
  - intros Hok; split; [lia|]; destruct o as [o|]; [|done]; exists inreg, buf, o, m2, m3; repeat (split; [done || apply K2|]); exact K4.
Qed.

Lemma fetch_app (w : W) p n k : fetch w p (n + k) = fetch w p n ++ fetch w (p + Z.of_nat n) k.
Proof.
  unfold fetch; rewrite seq_app, map_app; f_equal; cbn [Nat.add]; apply list_eq; intros i.
  destruct (decide (i < k)%nat); [|rewrite !lookup_ge_None_2; [done|rewrite length_map, length_seq; lia..]].
  rewrite !list_lookup_fmap, !lookup_seq_lt by lia; cbn [fmap option_fmap option_map]; do 2 f_equal; lia.
Qed.

(** Sectors in a buffer. *)
Lemma fetch_sectors (w : W) p n k : fetch w p (k * n) = concat (map (fun i => fetch w (p + Z.of_nat i * Z.of_nat n) n) (seq 0 k)).
Proof.
  induction k as [|k IH]; [done|]; rewrite seq_S, map_app, concat_app, <- IH; cbn [map concat]; rewrite app_nil_r.
  replace (S k * n)%nat with (k * n + n)%nat by lia; rewrite fetch_app; do 2 f_equal; lia.
Qed.

(** A BIOS that has written what it says it has. *)
Definition honest_writes : Prop := forall r w o w', (ah r = 0x43 \/ ah r = 0x03) -> dl r = number -> int13 r w = (o, w') -> cf o = false ->
  let '(lba, count, buf) := asked g r w in
  lba + count <= d_total g /\ forall i, 0 <= i < count -> medium w' (lba + i) = fetch w (buf + i * d_bps g) (Z.to_nat (d_bps g)).

Lemma retry_written inreg lba count buf : honest_writes -> 0 <= d_bps g -> 0 <= count -> ah inreg = 0x43 \/ ah inreg = 0x03 ->
  forall n m o m', machine_ok m -> prepared m lba count inreg buf -> int13_retry n inreg m = (Some o, m') ->
  lba + count <= d_total g /\ run m' lba count = fetch (world m) buf (Z.to_nat (count * d_bps g)).
Proof.
  intros Hon Hg Hc Hah; induction n as [|n IH]; intros m o m' Hm [Hn Hst]; cbn [int13_retry]; [done|].
  unfold on_world; destruct (int13 inreg (world m)) as [o1 w] eqn:Ei; pose proof Ei as Ew; apply law_write in Ew; [|done..].
  rewrite Hst in Ew by apply outside_refl; destruct Ew as (Hown & Hload & _).
  destruct (cf o1) eqn:Ecf; cbn [negb].
  - intros E; apply IH in E as [H1 H2]; cbn [world] in *; [|now apply ok_step|].
    + split; [exact H1|]; rewrite H2; apply fetch_ext; auto.
    + split; [exact Hn|]; intros w' Hw'; apply Hst; intros a Ha; rewrite Hw' by done; apply Hload.
  - intros [= _ <-]; pose proof (Hon inreg (world m) o1 w Hah Hn Ei Ecf) as Hr; rewrite Hst in Hr by apply outside_refl; destruct Hr as [H1 H2]; split; [exact H1|].
    rewrite Z2Nat.inj_mul, fetch_sectors by lia; f_equal; apply map_ext_in; intros i Hi; apply in_seq in Hi; cbn [world]; rewrite H2, Z2Nat.id by lia; done.
Qed.

(** When disk_write_sectors succeeds the sectors hold the data, if the BIOS is honest;
    in any case no other sector has changed. *)
Theorem disk_write_correct di lba data count m : honest_writes -> info_ok number g di -> machine_ok m ->
  0 <= lba -> lba + count < 2 ^ 64 -> 0 <= count < 256 -> length data = Z.to_nat (count * bps di) ->
  exists ok m', disk_write_sectors di lba data count m = Some (ok, m') /\ machine_ok m' /\
  (forall i, i < lba \/ lba + count <= i -> medium (world m') i = medium (world m) i) /\
  (ok = true -> lba + count <= d_total g /\ run m' lba count = data).
Proof.
  intros Hon Hi Hm Hl Hw Hc Hlen; destruct (write_spec di lba data count m Hi Hm Hl Hw Hc Hlen) as (ok & m' & E & Hm' & Hout & Hok).
  exists ok, m'; repeat (split; [done|]); intros Ht; destruct (Hok Ht) as (Hc1 & inreg & buf & o & m1 & m2 & Hah & Hm1 & Hp & Hf & Er & K).
  destruct Hi as (_ & _ & Hg & _); apply (retry_written _ lba count buf) in Er as [H1 H2]; try done; try lia.
  split; [exact H1|]; rewrite K, H2; exact Hf.
Qed.

(** C20: when disk_write_verify_sectors succeeds the sectors hold the data, even
    with a BIOS that reports writes it has not done, and whether it succeeds or
    not, no sector but those asked for has changed. The conditions: what is
    known of the disk agrees with the drive (its number, the size of its
    sectors, and without EBIOS its geometry, as disk_get_params finds it:
    [get_params_ok]); the count is below 256, and the first sector plus the
    count below 2^64 (otherwise it wraps: disk.c:266); there are as many data as
    the sectors hold; the interrupt and the allocators do as documented, except
    that a write may not take place; and the packet in static memory, once
    allocated, is a block of its own. *)
Theorem disk_write_verify_correct di lba data count m : info_ok number g di -> machine_ok m ->
  0 <= lba -> lba + count < 2 ^ 64 -> 0 <= count < 256 -> length data = Z.to_nat (count * bps di) ->
  exists ok m', disk_write_verify_sectors di lba data count m = Some (ok, m') /\ machine_ok m' /\
  (forall i, i < lba \/ lba + count <= i -> medium (world m') i = medium (world m) i) /\
  (ok = true -> lba + count <= d_total g /\ run m' lba count = data).
Proof.
  intros Hi Hm Hl Hw Hc Hlen; unfold disk_write_verify_sectors.
  destruct (write_spec di lba data count m Hi Hm Hl Hw Hc Hlen) as (ok & m1 & -> & Hm1 & Hout & Hok).
  destruct ok; cbn [negb]; [|do 2 eexists; split; [reflexivity|done]]; destruct (Hok eq_refl) as [Hc1 _].
  destruct (disk_read_sectors di lba count m1) as [rb m2] eqn:Er; destruct (read_kept _ _ _ _ _ _ Hm1 Er) as [K Hm2].
  destruct rb as [rb|]; [|do 2 eexists; split; [reflexivity|split; [done|split; [|done]]]; intros i Hx; rewrite K; auto].
  destruct (read_data _ _ _ _ _ _ Hi Hm1 Hl Hw Hc Er) as [Ht ->].
  assert (Hsz : count * bps di < 2 ^ 32) by (destruct Hi as (_ & -> & Hg & _); nia).
  assert (H0 : 0 <= count * bps di) by (destruct Hi as (_ & -> & Hg & _); nia).
  rewrite u32_small, peek_ok by lia; unfold slice; rewrite drop_0, take_ge by lia.
  do 2 eexists; split; [reflexivity|split; [done|split; [intros i Hx; rewrite K; auto|]]].
  intros Hb; apply bool_decide_eq_true in Hb; split; [exact Ht|]; now rewrite K.
Qed.

(** ** What is asked about a disk *)

(** What the three queries are documented to do: they change no sector, free nothing,
    and when they succeed they tell what the drive is like; a drive without sectors per
    track has no geometry. *)
Class QueryLaws := {
  law_query : forall r w o w', ah r = 0x41 \/ ah r = 0x48 \/ ah r = 0x08 -> int13 r w = (o, w') ->
    medium w' = medium w /\ (forall a n, owns w a n -> owns w' a n);
  law_extended : forall r w o w', ah r = 0x48 -> dl r = number -> int13 r w = (o, w') -> cf o = false ->
    let p := ds r * 16 + si r in
    fetch_le w' (p + 16) 8 = d_total g /\ (fetch_le w' (p + 24) 2 = d_bps g \/ fetch_le w' (p + 24) 2 = 0 /\ d_bps g = SECTOR);
  law_geometry : forall r w o w', ah r = 0x08 -> dl r = number -> int13 r w = (o, w') -> cf o = false ->
    0 <= ch o < 256 /\ 0 <= cl o < 256 /\ 0 <= dh o < 256 /\
    (Z.land 0x3f (cl o) <> 0 -> d_heads g = 1 + dh o /\ d_spt g = Z.land 0x3f (cl o))
}.

Lemma cylinder_bits c l : 0 <= c < 256 -> 0 <= l < 256 -> 0 <= Z.lor c (Z.shiftl (Z.land l 0xc0) 2) < 1024 /\ 0 <= Z.land 0x3f l < 64.
Proof.
  intros Hc Hl; split.
  - assert (Hall : forallb (fun j => let l := Z.of_nat j in let h := Z.shiftl (Z.land l 0xc0) 2 in (h mod 256 =? 0) && (0 <=? h) && (h <=? 768)) (seq 0 256) = true) by (vm_compute; reflexivity).
    rewrite forallb_forall in Hall; specialize (Hall (Z.to_nat l) ltac:(apply in_seq; lia)); cbv zeta in Hall; rewrite Z2Nat.id in Hall by lia; bools.
    set (h := Z.shiftl (Z.land l 0xc0) 2) in *; rewrite Z.lor_comm; replace h with (h / 256 * 2 ^ 8) by (change (2 ^ 8) with 256; Z.div_mod_to_equations; lia).
    rewrite lor_add by lia; change (2 ^ 8) with 256; Z.div_mod_to_equations; lia.
  - rewrite Z.land_comm; change 0x3f with (Z.ones 6); rewrite Z.land_ones by lia; apply Z.mod_pos_bound; lia.
Qed.

Lemma ask_kept `{!QueryLaws} r m o m' : ah r = 0x41 \/ ah r = 0x48 \/ ah r = 0x08 -> machine_ok m -> on_world (int13 r) m = (o, m') ->
  kept m m' /\ dapa m' = dapa m /\ int13 r (world m) = (o, world m').
Proof.
  intros Ha Hm; unfold on_world; destruct (int13 r (world m)) as [o1 w] eqn:Ei; intros [= <- <-]; pose proof Ei as Ek; apply law_query in Ek as [H1 H2]; [|done].
  split; [split; [exact H1|now apply ok_step]|done].
Qed.

Lemma ask_extended_ok `{!QueryLaws} n p m cnt size m' : u8 n = number -> 0 <= p -> p + 66 <= 0x100000 -> machine_ok m -> dapa m <> Some p ->
  ask_extended n p m = (cnt, size, m') ->
  kept m m' /\ dapa m' = dapa m /\ (size = d_bps g \/ size = SECTOR) /\ (cnt = 0 \/ cnt = d_total g).
Proof.
  intros Hn Hp Hp2 Hm Hd; unfold ask_extended; destruct (on_world _ _) as [o m2] eqn:Eq.
  apply ask_kept in Eq as (K & D & Ei); [|tauto|apply kept_store, Hm]; intros Ex; injection Ex as Ex <-.
  split; [eapply kept_trans; [apply kept_store, Hm|exact K]|split; [exact D|]].
  destruct (segment p ltac:(lia)) as (Hs & _); destruct (cf o) eqn:Ec; cbn [negb] in Ex; injection Ex as <- <-; [split; [now right|now left]|].
  pose proof (law_extended (query 0x48 0 n (OFFS p) (SEG p) false) _ _ _ eq_refl Hn Ei Ec) as Hx; cbn [query ds si] in Hx; rewrite Hs in Hx; destruct Hx as [-> Hx]; split; [|now right].
  destruct Hx as [->|[-> Hx]]; [destruct (d_bps g =? 0); cbn [negb]; tauto|now right].
Qed.

(** What disk_get_params finds out about a disk is right, so that the sectors can be read
    by it - provided that a drive whose sectors are not of 512 bytes says so. *)
Lemma get_params_ok `{!QueryLaws} n m ok di m' : u8 n = number -> 0 < d_bps g < 65536 -> 0 <= d_total g < 2 ^ 64 -> machine_ok m ->
  disk_get_params n m = ((ok, di), m') ->
  medium (world m') = medium (world m) /\ machine_ok m' /\
  (ok = true -> bps di <> SECTOR \/ d_bps g = SECTOR -> info_ok number g di).
Proof.
  intros Hn Hg Ht Hm; unfold disk_get_params, ask_ebios; destruct (on_world (int13 _) m) as [o1 m1] eqn:E1.
  apply ask_kept in E1 as (K1 & D1 & _); [|tauto|done]; set (eb := negb (cf o1) && _ && _); clearbody eb; clear o1.
  destruct (on_world (lmalloc 66) m1) as [p m2] eqn:E2; pose proof E2 as Em; apply kept_alloc in E2 as (K2 & D2 & F2); [|apply K1].
  assert (K12 : kept m m2) by (eapply kept_trans; eassumption); destruct p as [p|]; [|intros [= <- <- <-]; split; [apply K12|split; [apply K12|done]]].
  assert (Hp : 0 <= p /\ p + 66 <= 0x100000).
  { unfold on_world in Em; destruct (lmalloc 66 (world m1)) as [q w] eqn:El; injection Em as -> _; apply law_lmalloc in El as (_ & _ & _ & Hnew); tauto. }
  specialize (F2 p eq_refl); destruct (if eb then ask_extended n p m2 else (0, SECTOR, m2)) as [[cnt size] m3] eqn:E3.
  assert (H3 : kept m2 m3 /\ dapa m3 = dapa m2 /\ (size = d_bps g \/ size = SECTOR) /\ (cnt = 0 \/ eb = true /\ cnt = d_total g)).
  { destruct eb; [|injection E3 as <- <- <-; split; [split; [done|apply K2]|tauto]].
    destruct (ask_extended_ok n p m2 cnt size m3 Hn ltac:(lia) ltac:(lia) (proj2 K2) F2 E3) as (H1 & H2 & H3 & H4); tauto. }
  destruct H3 as (K3 & D3 & Hsize & Hcnt); unfold ask_geometry; destruct (on_world (int13 _) m3) as [o4 m4] eqn:E4.
  apply ask_kept in E4 as (K4 & D4 & Ei); [|tauto|apply K3].
  assert (K5 : kept m4 (set_world (lfree p) m4)) by (apply kept_free; [apply K4|congruence]).
  assert (K : kept m (set_world (lfree p) m4)) by (eapply kept_trans; [exact K12|eapply kept_trans; [exact K3|eapply kept_trans; [exact K4|exact K5]]]).
  assert (Hbps : size <> SECTOR \/ d_bps g = SECTOR -> size = d_bps g) by (intros [|]; destruct Hsize; congruence).
  destruct (cf o4) eqn:Ec; [intros [= <- <- <-]|].
  - split; [apply K|split; [apply K|]]; intros Heb Hbs; unfold info_ok; cbn [disk bps lbacnt ebios] in *.
    split; [exact Hn|split; [exact (Hbps Hbs)|split; [lia|split; [|split; [lia|congruence]]]]]; destruct Hcnt as [->|[_ ->]]; lia.
  - destruct (law_geometry (query 0x08 0 n 0 0 false) _ _ _ eq_refl Hn Ei Ec) as (B1 & B2 & B3 & Hgeo); destruct (cylinder_bits _ _ B1 B2) as [B4 B5].
    set (c := 1 + Z.lor _ _); set (s := Z.land 0x3f (cl o4)) in *.
    destruct (Z.eqb_spec s 0) as [Es|Es]; cbn [negb]; intros [= <- <- <-]; (split; [apply K|split; [apply K|]]); intros _ Hbs;
      unfold info_ok; cbn [disk bps lbacnt ebios cyl head spt] in *;
      (split; [exact Hn|split; [exact (Hbps Hbs)|split; [lia|]]]).
    + split; [|split; [lia|]]; [pose proof (u32_range (1 * 1 * 1)); destruct Hcnt as [->|[_ ->]]; destruct (_ =? 0); lia|].
      intros ->; destruct Hcnt as [->|[? _]]; [|done]; split; [unfold geometry_ok; lia|split; [reflexivity|right; lia]].
    + split; [|split; [lia|]]; [pose proof (u32_range (c * (1 + dh o4) * s)); destruct Hcnt as [->|[_ ->]]; destruct (_ =? 0); lia|].
      intros ->; destruct Hcnt as [->|[? _]]; [|done]; split; [unfold geometry_ok; lia|split; [cbn [Z.eqb]; apply u32_small; nia|left]].
      destruct (Hgeo Es); lia.
Qed.

(** ** A disk as a reader of sectors *)

(** The machines that reading leads to. *)
Definition reading (m0 : machine W) : Type := { m : machine W | kept m0 m }.

Definition with_kept {A} {m0 : machine W} (f : machine W -> A * machine W) (Hf : forall m r m', machine_ok m -> f m = (r, m') -> kept m m')
  (m : reading m0) : A * reading m0 :=
  ((f (`m)).1, exist _ (f (`m)).2 (kept_trans _ _ _ (proj2_sig m) (Hf _ _ _ (proj2 (proj2_sig m)) (surjective_pairing (f (`m)))))).

Definition disk_reader (m0 : machine W) : DiskReader (reading m0) := {|
  read_sectors di lba count := with_kept (disk_read_sectors di lba count) (fun m r m' Hm E => read_kept di lba count m r m' Hm E);
  may_alloc := with_kept (on_world malloc) (fun m r m' Hm E => proj1 (kept_malloc r m m' Hm E))
|}.

(** It keeps the promises of the interface. *)
Lemma disk_reader_laws m0 di : info_ok number g di -> @DiskReaderLaws (reading m0) (disk_reader m0) di (medium (world m0)).
Proof.
  intros Hi; split; [intros lba; rewrite medium_length; f_equal; symmetry; apply Hi|].
  intros lba count [m [Hmed Hm]] data m' Hl Hw Hc; unfold read_sectors, disk_reader, with_kept; cbn [proj1_sig]; intros E; injection E as E _.
  destruct (disk_read_sectors di lba count m) as [r m1] eqn:Er; cbn [fst] in E; subst r.
  destruct (read_data _ _ _ _ _ _ Hi Hm Hl Hw Hc Er) as [_ ->]; now rewrite Hmed.
Qed.
End reading.

(** ** A BIOS *)

(** Memory, a disk of a thousand sectors, and how far the memory is in use. *)
Record toy := Toy { t_mem : Z -> Z; t_disk : Z -> Z -> Z; t_next : Z }.
Definition toy_drive : drive := Drive 512 1000 16 63.
Definition toy_store (p : Z) (bs : list Z) (w : toy) : toy :=
  Toy (fun a => if (p <=? a) && (a <? p + Z.of_nat (length bs)) then byte_at bs (Z.to_nat (a - p)) else t_mem w a) (t_disk w) (t_next w).
Definition toy_lmalloc (n : Z) (w : toy) : option Z * toy :=
  if (0 <=? t_next w) && (0 <=? n) && (t_next w + n <=? 0x100000) then (Some (t_next w), Toy (t_mem w) (t_disk w) (t_next w + n + 1)) else (None, w).
Definition toy_sector (w : toy) (lba : Z) : list Z := map (fun j => t_disk w lba (Z.of_nat j)) (seq 0 512).

(** The memory alone, for what a call asks. *)
Definition toy_memory : Bios toy := {|
  int13 r w := (r, w); load := t_mem; store := toy_store; lmalloc := toy_lmalloc; lfree _ w := w; malloc w := (true, w)
|}.

Definition carry (c : bool) (r : regs) : regs := Regs (al r) (ah r) (bx r) (cl r) (ch r) (dl r) (dh r) (si r) (ds r) (es r) c.

Definition toy_int13 (r : regs) (w : toy) : regs * toy :=
  let '(lba, count, buf) := @asked toy toy_memory toy_drive r w in
  if (ah r =? 0x42) || (ah r =? 0x02) then
    if lba + count <=? 1000 then (carry false r, toy_store buf (concat (map (fun i => toy_sector w (lba + Z.of_nat i)) (seq 0 (Z.to_nat count)))) w)
    else (carry true r, w)
  else if (ah r =? 0x43) || (ah r =? 0x03) then
    if lba + count <=? 1000 then
      (carry false r, Toy (t_mem w) (fun i j => if (lba <=? i) && (i <? lba + count) then t_mem w (buf + (i - lba) * 512 + j) else t_disk w i j) (t_next w))
    else (carry true r, w)
  else if ah r =? 0x41 then (Regs 0 0 0xaa55 1 0 0 0 0 0 0 false, w)
  else if ah r =? 0x48 then (carry false r, toy_store (ds r * 16 + si r + 16) (bytes_64 1000 ++ bytes_16 512) w)
  else if ah r =? 0x08 then (Regs 0 0 0 63 0 1 15 0 0 0 false, w)
  else (carry true r, w).

#[global] Instance toy_bios : Bios toy := {|
  int13 := toy_int13; load := t_mem; store := toy_store; lmalloc := toy_lmalloc; lfree _ w := w; malloc w := (true, w)
|}.

Lemma toy_asked r w : @asked toy toy_memory toy_drive r w = asked toy_drive r w.
Proof. reflexivity. Qed.

Lemma concat_sectors_length (f : nat -> list Z) n k : (forall i, length (f i) = n) -> length (concat (map f (seq 0 k))) = (k * n)%nat.
Proof. intros Hf; induction k as [|k IH]; [done|]; rewrite seq_S, map_app, concat_app, length_app, IH; cbn [map concat]; rewrite app_nil_r, Hf; lia. Qed.

Lemma toy_sector_length w lba : length (toy_sector w lba) = 512%nat.
Proof. unfold toy_sector; now rewrite length_map, length_seq. Qed.

(** A store and what is found there; the same for every BIOS with this memory. *)
Lemma toy_fetch p bs w : fetch (toy_store p bs w) p (length bs) = bs.
Proof.
  apply list_eq; intros i; unfold fetch; destruct (decide (i < length bs)%nat) as [Hi|Hi].
  - rewrite list_lookup_fmap, lookup_seq_lt by lia; cbn [fmap option_fmap option_map load toy_bios toy_store t_mem].
    rewrite (proj2 (Z.leb_le _ _)), (proj2 (Z.ltb_lt _ _)) by lia; cbn [andb]; replace (Z.to_nat (p + Z.of_nat (0 + i) - p)) with i by lia.
    unfold byte_at; destruct (lookup_lt_is_Some_2 bs i Hi) as [b ->]; reflexivity.
  - rewrite !lookup_ge_None_2; [done|lia|rewrite length_map, length_seq; lia].
Qed.

#[global] Instance toy_laws : BiosLaws toy 0x80 toy_drive.
Proof.
  unshelve eapply (Build_BiosLaws toy _ 0x80 toy_drive toy_sector (fun w a n => 0 <= a < t_next w /\ a + n <= t_next w)).
  - exact toy_sector_length.
  - intros r w o w' Ha; cbn [int13 toy_bios]; unfold toy_int13; rewrite toy_asked; destruct (asked _ r w) as [[lba count] buf].
    rewrite (proj2 (orb_true_iff _ _)) by (rewrite !Z.eqb_eq; exact Ha); destruct (_ <=? _); intros [= _ <-]; done.
  - intros r w o w' Ha _; cbn [int13 toy_bios]; unfold toy_int13; rewrite toy_asked; destruct (asked _ r w) as [[lba count] buf].
    rewrite (proj2 (orb_true_iff _ _)) by (rewrite !Z.eqb_eq; exact Ha); cbn [d_bps d_total toy_drive].
    destruct (Z.leb_spec (lba + count) 1000) as [Hle|]; intros [= <- <-]; [|split; [intros a _; done|discriminate]].
    set (bs := concat _); assert (Hlen : length bs = (Z.to_nat count * 512)%nat) by (apply (concat_sectors_length _ 512); intros; apply toy_sector_length).
    split; [intros a Hx; cbn [load toy_bios toy_store t_mem]; destruct (_ && _) eqn:Eb; [bools; lia|done]|].
    intros _; split; [exact Hle|]; replace (Z.to_nat (count * 512)) with (length bs) by lia; apply toy_fetch.
  - intros r w o w' Ha _; cbn [int13 toy_bios]; unfold toy_int13; rewrite toy_asked; destruct (asked _ r w) as [[lba count] buf].
    rewrite (proj2 (orb_false_iff (ah r =? 0x42) _)) by (rewrite !Z.eqb_neq; lia); rewrite (proj2 (orb_true_iff _ _)) by (rewrite !Z.eqb_eq; exact Ha).
    destruct (_ <=? _); intros [= _ <-]; [|done]; split; [done|split; [done|]]; intros i Hi; unfold toy_sector; cbn [t_disk]; apply map_ext; intros j.
    destruct (_ && _) eqn:Eb; [bools; lia|done].
  - intros p bs w; split; [done|split; [done|]]; intros a; reflexivity.
  - intros n w r w'; cbn [lmalloc toy_bios]; unfold toy_lmalloc; destruct (_ && _) eqn:Eb; intros [= <- <-]; cbn [t_next t_mem t_disk].
    + bools; split; [done|split; [intros a k Ha; lia|split; [done|]]]; split; [lia|split; [lia|split; [lia|]]]; intros a k Ha; lia.
    + split; [done|split; [done|split; [done|done]]].
  - intros p w; done.
  - intros w r w' [= <- <-]; done.
Defined.

Lemma toy_honest : honest_writes (W := toy) 0x80 toy_drive.
Proof.
  intros r w o w' Ha _; cbn [int13 toy_bios]; unfold toy_int13; rewrite toy_asked; destruct (asked _ r w) as [[lba count] buf].
  rewrite (proj2 (orb_false_iff (ah r =? 0x42) _)) by (rewrite !Z.eqb_neq; lia); rewrite (proj2 (orb_true_iff _ _)) by (rewrite !Z.eqb_eq; exact Ha).
  destruct (Z.leb_spec (lba + count) 1000) as [Hle|]; intros [= <- <-]; [|discriminate]; intros _; split; [exact Hle|]; intros i Hi.
  cbn [medium toy_laws d_bps toy_drive]; unfold toy_sector, fetch; cbn [t_disk load toy_bios t_mem]; apply map_ext; intros j.
  rewrite (proj2 (Z.leb_le _ _)), (proj2 (Z.ltb_lt _ _)) by lia; cbn [andb]; f_equal; lia.
Qed.

#[global] Instance toy_queries : QueryLaws (W := toy) 0x80 toy_drive.
Proof.
  split; intros r w o w' Ha; [|intros _..]; cbn [int13 toy_bios]; unfold toy_int13; destruct (@asked _ _ _ r w) as [[lba count] buf].
  - destruct Ha as [-> |[-> | ->]]; cbn [Z.eqb orb Pos.eqb]; intros [= _ <-]; done.
  - rewrite Ha; cbn [Z.eqb orb Pos.eqb]; intros [= <- <-] _; set (p := ds r * 16 + si r).
    pose proof (toy_fetch (p + 16) (bytes_64 1000 ++ bytes_16 512) w) as Hf; set (w' := toy_store _ _ w) in *; change (length _) with 10%nat in Hf.
    pose proof (fetch_sub w' (p + 16) 10 0 8 ltac:(lia)) as H1; pose proof (fetch_sub w' (p + 16) 10 8 2 ltac:(lia)) as H2; rewrite Hf in H1, H2.
    replace (p + 16 + Z.of_nat 0) with (p + 16) in H1 by lia; replace (p + 16 + Z.of_nat 8) with (p + 24) in H2 by lia.
    unfold fetch_le; rewrite H1, H2; split; [reflexivity|left; reflexivity].
  - rewrite Ha; cbn [Z.eqb orb Pos.eqb]; intros [= <- <-] _; repeat split; intros H; vm_compute in H; discriminate.
Qed.

(** ** Reading, writing and asking on it *)

Definition toy_machine : machine toy := Machine (Toy (fun _ => 0) (fun i j => u8 (i + j)) 0x1000) None.
Definition toy_info : disk_info := Disk_info 0x80 true true 512 1000 1 16 63.

Lemma toy_ok : machine_ok 0x80 toy_drive toy_machine.
Proof. intros p; done. Qed.
Lemma toy_info_ok eb : info_ok 0x80 toy_drive (Disk_info 0x80 eb true 512 (if eb then 1000 else 1008) 1 16 63).
Proof. unfold info_ok, geometry_ok; cbn; repeat split; try lia; destruct eb; try lia; discriminate. Qed.

(** Two sectors, with coordinates. *)
Lemma disk_read_correct_witness :
  exists data m', disk_read_sectors (Disk_info 0x80 false true 512 1008 1 16 63) 500 2 toy_machine = (Some data, m') /\
    data = map (fun j => u8 (500 + Z.of_nat j)) (seq 0 512) ++ map (fun j => u8 (501 + Z.of_nat j)) (seq 0 512).
Proof.
  destruct (disk_read_sectors (Disk_info 0x80 false true 512 1008 1 16 63) 500 2 toy_machine) as [r m'] eqn:E.
  pose proof (disk_read_correct 0x80 toy_drive _ 500 2 toy_machine r m' (toy_info_ok false) toy_ok ltac:(lia) ltac:(lia) ltac:(lia) E) as (_ & _ & H).
  destruct r as [data|]; [|exfalso; revert E].
  - exists data, m'; split; [reflexivity|]; destruct H as [_ ->]; vm_compute; reflexivity.
  - assert (Hr : match (disk_read_sectors (Disk_info 0x80 false true 512 1008 1 16 63) 500 2 toy_machine).1 with Some _ => true | None => false end = true) by (vm_compute; reflexivity).
    intros E; rewrite E in Hr; discriminate.
Defined.

Lemma disk_write_correct_witness :
  exists ok m', disk_write_sectors toy_info 7 (replicate 512 9) 1 toy_machine = Some (ok, m') /\
    (ok = true -> toy_sector (world m') 7 = replicate 512 9).
Proof.
  destruct (disk_write_correct 0x80 toy_drive toy_info 7 (replicate 512 9) 1 toy_machine toy_honest (toy_info_ok true) toy_ok ltac:(lia) ltac:(lia) ltac:(lia) eq_refl)
    as (ok & m' & E & _ & _ & H).
  exists ok, m'; split; [exact E|]; intros Hok; destruct (H Hok) as [_ Hr]; rewrite <- Hr; cbn [seq map concat Z.to_nat Pos.to_nat Pos.iter_op Init.Nat.add]; symmetry; apply app_nil_r.
Defined.

Lemma disk_write_verify_correct_witness :
  exists ok m', disk_write_verify_sectors toy_info 7 (replicate 512 9) 1 toy_machine = Some (ok, m') /\
    toy_sector (world m') 8 = toy_sector (world toy_machine) 8.
Proof.
  destruct (disk_write_verify_correct 0x80 toy_drive toy_info 7 (replicate 512 9) 1 toy_machine (toy_info_ok true) toy_ok ltac:(lia) ltac:(lia) ltac:(lia) eq_refl)
    as (ok & m' & E & _ & H & _).
  exists ok, m'; split; [exact E|apply H; lia].
Defined.
