(* ===== verification/Partiter.v ===== *)
(** * Partitions of a disk: com32/chain/partiter.c

    The iterator over the partitions of a disk with an MBR and a chain of extended boot
    records, with a GPT, or with neither, over the class [DiskReader] of [Disk].  The checksum of zlib is
    a parameter.  [None] is an access outside of an object. *)

From S2P Require Import Prelude Hash Disk.

(** ** The structures on a disk *)

(** A little-endian field of [n] bytes. *)
Definition field (n : nat) (data : list Z) (off : nat) : option Z :=
  let* b := peek data off n in Some (foldr (fun x v => x + 256 * v) 0 b).

(** [src/com32/include/syslinux/disk.h:102-109 disk_dos_part_entry] *)
Record dos_part := Dos_part { ostype : Z; start_lba : Z; part_length : Z }.

(** Entry [i] of the table of an MBR or an EBR.
    [src/com32/include/syslinux/disk.h:112-118 disk_dos_mbr] *)
Definition dos_entry (data : list Z) (i : nat) : option dos_part :=
  let o := (446 + 16 * i)%nat in
  let* t := field 1 data (o + 4) in
  let* s := field 4 data (o + 8) in
  let* n := field 4 data (o + 12) in
  Some (Dos_part t s n).

(** [src/com32/include/syslinux/disk.h:112-118 disk_dos_mbr] *)
Definition mbr_sig (data : list Z) : option Z := field 2 data 510.
Definition mbr_disk_sig (data : list Z) : option Z := field 4 data 440.

(** [src/com32/include/syslinux/disk.h:146-169 disk_gpt_header] *)
Record gpt_header := Gpt_header {
  g_sig : list Z; g_rev : Z; hdr_size : Z; chksum : Z; lba_cur : Z; lba_alt : Z;
  lba_first_usable : Z; lba_last_usable : Z; g_disk_guid : list Z; lba_table : Z;
  part_count : Z; part_size : Z; table_chksum : Z
}.

(** A sector that is shorter than the structure is not read.
    [src/com32/include/syslinux/disk.h:146-169 disk_gpt_header] *)
Definition read_header (buf : list Z) : option gpt_header :=
  let* sig := peek buf 0 8 in
  let* rev := field 4 buf 8 in
  let* size := field 4 buf 12 in
  let* sum := field 4 buf 16 in
  let* cur := field 8 buf 24 in
  let* alt := field 8 buf 32 in
  let* first := field 8 buf 40 in
  let* last := field 8 buf 48 in
  let* guid := peek buf 56 16 in
  let* table := field 8 buf 72 in
  let* count := field 4 buf 80 in
  let* psize := field 4 buf 84 in
  let* tsum := field 4 buf 88 in
  Some (Gpt_header sig rev size sum cur alt first last guid table count psize tsum).

(** ["EFI PART"].
    [src/com32/include/syslinux/disk.h:170-170 disk_gpt_sig_magic] *)
Definition gpt_sig_magic : list Z := [69; 70; 73; 32; 80; 65; 82; 84].

(** ** The iterator *)

(** [src/com32/chain/partiter.h:45-45 status] *)
Definition PI_ERRLOAD : Z := -31.
Definition PI_INSANE : Z := -30.
Definition PI_OK : Z := 0.
Definition PI_DONE : Z := 1.

(** [src/com32/chain/partiter.h:49-49 flags] *)
Definition PIF_STEPALL : Z := 1.
Definition PIF_PREFMBR : Z := 2.
Definition PIF_STRICT : Z := 4.
Definition PIF_STRICTER : Z := 8.

Definition flag (flags f : Z) : bool := negb (Z.land flags f =? 0).

Variant itertype := typedos | typegpt | typeraw.

(** [src/com32/chain/partiter.h:73-86 part_iter.dos] *)
Record dos_data := Dos_data {
  disk_sig : Z; bebr_lba : Z; bebr_siz : Z; cebr_lba : Z; cebr_siz : Z; nebr_lba : Z; nebr_siz : Z;
  bebr_index0 : Z; logskipcnt : Z
}.

(** [src/com32/chain/partiter.h:87-95 part_iter.gpt] *)
Record gpt_data := Gpt_data {
  disk_guid : list Z; part_guid : list Z; part_label : list Z; pe_count : Z; pe_size : Z; ufirst : Z; ulast : Z
}.

(** [record]: where in [data] the record is.
    [src/com32/chain/partiter.h:61-97 part_iter] *)
Record part_iter := Part_iter {
  type : itertype; data : list Z; record : option nat; abs_lba : Z; length_ : Z; index0 : Z; index : Z;
  flags : Z; status : Z; di : disk_info; dos : dos_data; gpt : gpt_data
}.

Definition no_dos : dos_data := Dos_data 0 0 0 0 0 0 0 0 0.
Definition no_gpt : gpt_data := Gpt_data (replicate 16 0) (replicate 16 0) (replicate 37 0) 0 0 0 0.

Definition set_status (v : Z) (it : part_iter) : part_iter :=
  Part_iter (type it) (data it) (record it) (abs_lba it) (length_ it) (index0 it) (index it) (flags it) v (di it) (dos it) (gpt it).
Definition set_index0 (v : Z) (it : part_iter) : part_iter :=
  Part_iter (type it) (data it) (record it) (abs_lba it) (length_ it) v (index it) (flags it) (status it) (di it) (dos it) (gpt it).
Definition set_data (v : list Z) (it : part_iter) : part_iter :=
  Part_iter (type it) v (record it) (abs_lba it) (length_ it) (index0 it) (index it) (flags it) (status it) (di it) (dos it) (gpt it).
Definition set_dos (v : dos_data) (it : part_iter) : part_iter :=
  Part_iter (type it) (data it) (record it) (abs_lba it) (length_ it) (index0 it) (index it) (flags it) (status it) (di it) v (gpt it).
Definition set_gpt (v : gpt_data) (it : part_iter) : part_iter :=
  Part_iter (type it) (data it) (record it) (abs_lba it) (length_ it) (index0 it) (index it) (flags it) (status it) (di it) (dos it) v.
Definition set_part (index lba len : Z) (rec : nat) (it : part_iter) : part_iter :=
  Part_iter (type it) (data it) (Some rec) lba len (index0 it) index (flags it) (status it) (di it) (dos it) (gpt it).

(** [src/com32/chain/partiter.c:46-46 ost_is_ext] *)
Definition ost_is_ext (t : Z) : bool := (t =? 0x05) || (t =? 0x0F) || (t =? 0x85).
(** [src/com32/chain/partiter.c:47-47 ost_is_nondata] *)
Definition ost_is_nondata (t : Z) : bool := ost_is_ext t || (t =? 0).
(** Of two words of 32 bits, and of 64.
    [src/com32/chain/partiter.c:48-48 sane] *)
Definition sane (s l : Z) : bool := s <? s ⊞ l.
(** [src/com32/chain/partiter.c:48-48 sane] *)
Definition sane_64 (s l : Z) : bool := s <? u64 (s + l).

(** ** Sanity *)

(** [src/com32/chain/partiter.c:164-194 notsane_logical] *)
Definition notsane_logical (it : part_iter) : option bool :=
  let* dp := dos_entry (data it) 0 in
  Some (if ostype dp =? 0 then false
        else if ost_is_ext (ostype dp) then true
        else if negb (flag (flags it) PIF_STRICT) then false
        else
          let end_log := start_lba dp ⊞ part_length dp in
          (start_lba dp =? 0) || (part_length dp =? 0) || negb (sane (start_lba dp) (part_length dp)) ||
          (nebr_siz (dos it) <? end_log)).

(** [src/com32/chain/partiter.c:203-233 notsane_extended] *)
Definition notsane_extended (it : part_iter) : option bool :=
  let* dp := dos_entry (data it) 1 in
  Some (if ostype dp =? 0 then false
        else if negb (ost_is_nondata (ostype dp)) then true
        else if negb (flag (flags it) PIF_STRICT) then false
        else
          let end_ebr := start_lba dp ⊞ part_length dp in
          (start_lba dp =? 0) || (part_length dp =? 0) || negb (sane (start_lba dp) (part_length dp)) ||
          (bebr_siz (dos it) <? end_ebr)).

(** [src/com32/chain/partiter.c:240-260 notsane_primary] *)
Definition notsane_primary (it : part_iter) : option bool :=
  let* dp := dos_entry (data it) (Z.to_nat (index0 it)) in
  Some (if ostype dp =? 0 then false
        else if negb (flag (flags it) PIF_STRICT) then false
        else
          (start_lba dp =? 0) || (part_length dp =? 0) || negb (sane (start_lba dp) (part_length dp)) ||
          (flag (flags it) PIF_STRICTER && (lbacnt (di it) <? start_lba dp ⊞ part_length dp))).

(** Where the entry of the index lies: the product of two integers.
    [src/com32/chain/partiter.c:265-266 notsane_gpt] *)
Definition gpt_place (it : part_iter) : option nat :=
  let o := index0 it * pe_size (gpt it) in
  if (0 <=? o) && (o <=? 2147483647) then Some (Z.to_nat o) else None.

(** [src/com32/chain/utility.c:73-80 guid_is0] *)
Definition guid_is0 (data : list Z) (off : nat) : option bool :=
  let* a := field 4 data off in
  let* b := field 2 data (off + 4) in
  let* c := field 2 data (off + 6) in
  let* d := field 8 data (off + 8) in
  Some ((a =? 0) && (b =? 0) && (c =? 0) && (d =? 0)).

(** [src/com32/chain/partiter.c:262-281 notsane_gpt] *)
Definition notsane_gpt (it : part_iter) : option bool :=
  let* o := gpt_place it in
  let* zero := guid_is0 (data it) o in
  if zero : bool then Some false
  else if negb (flag (flags it) PIF_STRICT) then Some false
  else
    let* first := field 8 (data it) (o + 32) in
    let* last := field 8 (data it) (o + 40) in
    Some ((first <? ufirst (gpt it)) || (ulast (gpt it) <? last)).

(** ** Iteration *)

(** What a search for the next record comes to: a record with its address, none, or -1. *)
Variant found := Found (lba : Z) (dp : dos_part) (rec : nat) | Nothing | Failed.

Definition with_bebr_index0 (v : Z) (d : dos_data) : dos_data :=
  Dos_data (disk_sig d) (bebr_lba d) (bebr_siz d) (cebr_lba d) (cebr_siz d) (nebr_lba d) (nebr_siz d) v (logskipcnt d).

(** [src/com32/chain/partiter.c:283-313 dos_next_mbr] *)
Fixpoint dos_next_mbr (fuel : nat) (it : part_iter) : option (part_iter * found) :=
  match fuel with
  | O => None
  | S fuel =>
      let it := set_index0 (index0 it + 1) it in
      if index0 it <? 4 then
        let* bad := notsane_primary it in
        if bad : bool then Some (set_status PI_INSANE it, Failed)
        else
          let* dp := dos_entry (data it) (Z.to_nat (index0 it)) in
          if ost_is_ext (ostype dp) && (0 <=? bebr_index0 (dos it)) then Some (set_status PI_INSANE it, Failed)
          else
            let it := if ost_is_ext (ostype dp) then set_dos (with_bebr_index0 (index0 it) (dos it)) it else it in
            if negb (ost_is_nondata (ostype dp)) || flag (flags it) PIF_STEPALL
            then Some (it, Found (start_lba dp) dp (446 + 16 * Z.to_nat (index0 it)))
            else dos_next_mbr fuel it
      else Some (it, Nothing)
  end.

(** [None] in the answer is -1.
    [src/com32/chain/partiter.c:315-333 prep_base_ebr] *)
Definition prep_base_ebr (it : part_iter) : option (option part_iter) :=
  let d := dos it in
  if bebr_index0 d <? 0 then Some None
  else if bebr_lba d =? 0 then
    let* dp := dos_entry (data it) (Z.to_nat (bebr_index0 d)) in
    let d := Dos_data (disk_sig d) (start_lba dp) (part_length dp) (cebr_lba d) (cebr_siz d)
               (start_lba dp) (part_length dp) (bebr_index0 d) (logskipcnt d) in
    Some (Some (set_index0 (index0 it - 1) (set_dos d it)))
  else Some (Some it).

(** The values of the next frame, after the sector of a frame is there.
    [src/com32/chain/partiter.c:362-375 dos_next_ebr] *)
Definition next_frame (dp0 dp1 : dos_part) (d : dos_data) : dos_data :=
  let '(lba, siz) := if negb (ostype dp1 =? 0) then (bebr_lba d ⊞ start_lba dp1, part_length dp1) else (0, 0) in
  Dos_data (disk_sig d) (bebr_lba d) (bebr_siz d) (nebr_lba d) (nebr_siz d) lba siz (bebr_index0 d)
    (if ostype dp0 =? 0 then logskipcnt d + 1 else logskipcnt d).

Section reader.
Context {W : Type} `{DiskReader W}.

(** [src/com32/chain/partiter.c:345-392 dos_next_ebr] *)
Fixpoint ebr_loop (fuel : nat) (it : part_iter) (w : W) : option (part_iter * found * W) :=
  match fuel with
  | O => None
  | S fuel =>
      let it := set_index0 (index0 it + 1) it in
      if (index0 it <? 1024) && negb (nebr_lba (dos it) =? 0) then
        match read_sectors (di it) (nebr_lba (dos it)) 1 w with
        | (None, w) => Some (set_status PI_ERRLOAD (set_data [] it), Failed, w)
        | (Some sector, w) =>
            let it := set_data sector it in
            let* bad := notsane_logical it in
            let* bad := if bad : bool then Some true else notsane_extended it in
            if bad : bool then Some (set_status PI_INSANE it, Failed, w)
            else
              let* dp := dos_entry (data it) 0 in
              let* dp1 := dos_entry (data it) 1 in
              let it := set_dos (next_frame dp dp1 (dos it)) it in
              if negb (ostype dp =? 0) || flag (flags it) PIF_STEPALL then
                Some (it, Found (if negb (start_lba dp =? 0) then cebr_lba (dos it) ⊞ start_lba dp else 0) dp 446, w)
              else ebr_loop fuel it w
        end
      else Some (set_status PI_DONE it, Failed, w)
  end.

(** [src/com32/chain/partiter.c:335-392 dos_next_ebr] *)
Definition dos_next_ebr (it : part_iter) (w : W) : option (part_iter * found * W) :=
  let* p := prep_base_ebr it in
  match p with
  | None => Some (set_status PI_DONE it, Failed, w)
  | Some it => ebr_loop 1025 it w
  end.

(** [src/com32/chain/partiter.c:433-470 pi_dos_next] *)
Definition pi_dos_next (it : part_iter) (w : W) : option (part_iter * W) :=
  if negb (status it =? 0) then Some (it, w)
  else
    let* (it, r) := if index0 it <? 4 then dos_next_mbr 6 it else Some (it, Nothing) in
    let* (it, r, w) :=
      match r with
      | Failed => Some (it, r, w)
      | _ => if 4 <=? index0 it then dos_next_ebr it w else Some (it, r, w)
      end in
    match r with
    | Failed => Some (it, w)
    | Nothing => None
    | Found lba dp rec =>
        let index := if ostype dp =? 0 then -1 else index0 it + 1 - logskipcnt (dos it) in
        Some (set_part index lba (part_length dp) rec it, w)
    end.

(** The label of the record at [o]: the low byte of each character.
    [src/com32/chain/partiter.c:394-408 gpt_conv_label] *)
Fixpoint conv_label (n : nat) (data : list Z) (o : nat) : option (list Z) :=
  match n with
  | O => Some [0]
  | S n => let* c := field 2 data o in let* l := conv_label n data (o + 2) in Some (u8 c :: l)
  end.

Definition with_part (guid label : list Z) (g : gpt_data) : gpt_data :=
  Gpt_data (disk_guid g) guid label (pe_count g) (pe_size g) (ufirst g) (ulast g).

(** The loop over the list, which looks for an entry that is used.
    [src/com32/chain/partiter.c:479-490 pi_gpt_next] *)
Fixpoint gpt_loop (fuel : nat) (it : part_iter) (gpt_part : option nat) : option (part_iter * option nat) :=
  match fuel with
  | O => None
  | S fuel =>
      let it := set_index0 (index0 it + 1) it in
      if index0 it <? pe_count (gpt it) then
        let* o := gpt_place it in
        let* bad := notsane_gpt it in
        if bad : bool then Some (set_status PI_INSANE it, Some o)
        else
          let* zero := guid_is0 (data it) o in
          if negb zero || flag (flags it) PIF_STEPALL then Some (it, Some o)
          else gpt_loop fuel it (Some o)
      else Some (it, gpt_part)
  end.

(** [src/com32/chain/partiter.c:472-509 pi_gpt_next] *)
Definition pi_gpt_next (it : part_iter) (w : W) : option (part_iter * W) :=
  if negb (status it =? 0) then Some (it, w)
  else
    let* (it, gpt_part) := gpt_loop (S (Z.to_nat (pe_count (gpt it) - index0 it))) it None in
    if negb (status it =? 0) then Some (it, w)
    else if index0 it =? pe_count (gpt it) then Some (set_status PI_DONE it, w)
    else
      let* o := gpt_part in
      let* first := field 8 (data it) (o + 32) in
      let* last := field 8 (data it) (o + 40) in
      let it := set_part (index0 it + 1) first (u64 (last - first + 1)) o it in
      let* uid := peek (data it) (o + 16) 16 in
      let* label := conv_label 36 (data it) (o + 56) in
      Some (set_gpt (with_part uid label (gpt it)) it, w).

(** [src/com32/chain/partiter.h:107-110 pi_next] *)
Definition pi_next (it : part_iter) (w : W) : option (part_iter * W) :=
  match type it with
  | typedos => pi_dos_next it w
  | typegpt => pi_gpt_next it w
  | typeraw => Some (set_status PI_DONE it, w)
  end.

(** ** The beginning *)

(** [src/com32/chain/partiter.c:82-94 pi_ctor] *)
Definition pi_ctor (di : disk_info) (flags : Z) : part_iter :=
  Part_iter typeraw [] None 0 (lbacnt di) (-1) 0 flags 0 di no_dos no_gpt.

(** [src/com32/chain/partiter.c:96-120 pi_dos_ctor] *)
Definition pi_dos_ctor (di : disk_info) (flags : Z) (mbr : list Z) (w : W) : option (option part_iter * W) :=
  let it := pi_ctor di flags in
  let (ok, w) := may_alloc w in
  if ok : bool then
    let* m := peek mbr 0 512 in
    let* sig := mbr_disk_sig mbr in
    Some (Some (Part_iter typedos m None 0 (lbacnt di) (-1) 0 flags 0 di (Dos_data sig 0 0 0 0 0 0 (-1) 0) no_gpt), w)
  else Some (None, w).

(** [src/com32/chain/partiter.c:122-155 pi_gpt_ctor] *)
Definition pi_gpt_ctor (di : disk_info) (flags : Z) (gpth : gpt_header) (gptl : list Z) (w : W) : option (option part_iter * W) :=
  let siz := u64 (part_count gpth * part_size gpth) in
  let (ok, w) := may_alloc w in
  if ok : bool then
    let* l := peek gptl 0 (Z.to_nat (u32 siz)) in
    let g := Gpt_data (g_disk_guid gpth) (g_disk_guid gpth) (replicate 37 0) (s32 (part_count gpth)) (s32 (part_size gpth))
               (lba_first_usable gpth) (lba_last_usable gpth) in
    Some (Some (Part_iter typegpt l None 0 (lbacnt di) (-1) 0 flags 0 di no_dos g), w)
  else Some (None, w).

(** [crc32] of zlib, from the value of no bytes on. *)
Context (crc : list Z -> Z).

(** [src/com32/chain/partiter.c:410-413 valid_crc] *)
Definition valid_crc (sum : Z) (buf : list Z) (siz : Z) : option bool :=
  let* b := peek buf 0 (Z.to_nat siz) in Some (sum =? crc b).

(** The sum of a header whose field for it is zero; the field is restored.
    [src/com32/chain/partiter.c:415-425 valid_crc_hdr] *)
Definition valid_crc_hdr (buf : list Z) : option bool :=
  let* sum := field 4 buf 16 in
  let* size := field 4 buf 12 in
  let* b := peek (set_32 buf 16 0) 0 (Z.to_nat size) in
  Some (sum =? crc b).

(** [src/com32/chain/partiter.c:539-559 try_gpt_hdr] *)
Definition try_gpt_hdr (di : disk_info) (sec : bool) (w : W) : option (option (list Z) * W) :=
  let gpt_cur := if sec then u64 (lbacnt di - 1) else 1 in
  match read_sectors di gpt_cur 1 w with
  | (None, w) => Some (None, w)
  | (Some gpth, w) => let* ok := valid_crc_hdr gpth in Some (if ok : bool then Some gpth else None, w)
  end.

(** The sectors of the list.
    [src/com32/chain/partiter.c:571-572 try_gpt_list] *)
Definition list_sectors (di : disk_info) (g : gpt_header) : Z := u64 (u64 (part_size g * part_count g) + bps di - 1) / bps di.

(** The function that reads the sectors takes a count of 8 bits.
    [src/com32/chain/partiter.c:561-597 try_gpt_list] *)
Definition try_gpt_list (di : disk_info) (g : gpt_header) (alt : bool) (w : W) : option (option (list Z) * W) :=
  let pri := lba_cur g <? lba_alt g in
  let gpt_lsiz := u64 (part_size g * part_count g) in
  let gpt_lcnt := list_sectors di g in
  let gpt_loff :=
    if negb alt then lba_table g
    else if negb pri then u64 (lba_alt g + 1) else u64 (lba_alt g - gpt_lcnt) in
  match read_sectors di gpt_loff (u8 gpt_lcnt) w with
  | (None, w) => Some (None, w)
  | (Some gptl, w) => let* ok := valid_crc (table_chksum g) gptl (u32 gpt_lsiz) in Some (if ok : bool then Some gptl else None, w)
  end.

(** [src/com32/chain/partiter.c:599-631 notsane_gpt_hdr] *)
Definition notsane_gpt_hdr (di : disk_info) (g : gpt_header) (flags : Z) : bool :=
  if negb (flag flags PIF_STRICT) then false
  else
    let gpt_sec := if lba_alt g <? lba_cur g then lba_cur g else lba_alt g in
    let gpt_loff := lba_table g in
    let gpt_lsiz := u64 (part_size g * part_count g) in
    let gpt_lcnt := list_sectors di g in
    (gpt_loff <? 2) || (gpt_lsiz =? 0) || (255 <? gpt_lcnt) ||
    (lba_last_usable g <? lba_first_usable g) ||
    negb (sane_64 gpt_loff gpt_lcnt) ||
    ((lba_first_usable g <? u64 (gpt_loff + gpt_lcnt)) && (gpt_loff <=? lba_last_usable g)) ||
    (gpt_sec <? u64 (gpt_loff + gpt_lcnt)) ||
    (flag flags PIF_STRICTER && (lbacnt di <=? gpt_sec)) ||
    (part_size g <? 128).

(** A protective entry in the MBR.
    [src/com32/chain/partiter.c:660-663 pi_begin] *)
Definition protective (mbr : list Z) : option bool :=
  let* a := dos_entry mbr 0 in
  let* b := dos_entry mbr 1 in
  let* c := dos_entry mbr 2 in
  let* d := dos_entry mbr 3 in
  Some ((ostype a =? 0xEE) || (ostype b =? 0xEE) || (ostype c =? 0xEE) || (ostype d =? 0xEE)).

(** NULL is [None] in the answer.
    [src/com32/chain/partiter.c:633-712 pi_begin] *)
Definition pi_begin (di : disk_info) (flags : Z) (w : W) : option (option part_iter * W) :=
  let (ok, w) := may_alloc w in
  if negb ok then Some (None, w)
  else
    match read_sectors di 0 1 w with
    | (None, w) => Some (None, w)
    | (Some mbr, w) =>
        let* sig := mbr_sig mbr in
        if negb (sig =? 0xAA55) then Some (Some (pi_ctor di flags), w)
        else
          let* isgpt := protective mbr in
          let isgpt := isgpt && negb (flag flags PIF_PREFMBR) in
          let* (gpth, w) :=
            if isgpt then
              let* (h, w) := try_gpt_hdr di false w in
              match h with Some _ => Some (h, w) | None => try_gpt_hdr di true w end
            else Some (None, w) in
          match isgpt, gpth with
          | true, None => Some (None, w)
          | _, None => pi_dos_ctor di flags mbr w
          | _, Some buf =>
              let* g := read_header buf in
              if (g_rev g =? 0x00010000) && bool_decide (g_sig g = gpt_sig_magic) then
                if notsane_gpt_hdr di g flags then Some (None, w)
                else
                  let* (l, w) := try_gpt_list di g false w in
                  let* (l, w) := match l with Some _ => Some (l, w) | None => try_gpt_list di g true w end in
                  match l with
                  | None => Some (None, w)
                  | Some gptl => pi_gpt_ctor di flags g gptl w
                  end
              else pi_dos_ctor di flags mbr w
          end
    end.
End reader.
