(* ===== verification/PartiterProof.v ===== *)
(** * Partitions: what the iterator of com32/chain/partiter.c shows

    The partitions of an MBR and of its chain of extended boot records ([mbr_layout]), from
    the BIOS up; those of a GPT ([gpt_layout]); and that the iteration over any disk at all
    stays inside of its sectors and ends.  Both kinds of disk are built at the end. *)

From S2P Require Import Prelude Hash Disk DiskProof Partiter.

(** ** Fields *)

Lemma field_some n data off : (off + n <= length data)%nat -> exists v, field n data off = Some v.
Proof. intros Hl; unfold field; rewrite peek_ok by done; eauto. Qed.

Lemma field_range n data off v : Forall is_byte data -> field n data off = Some v -> 0 <= v < 256 ^ Z.of_nat n.
Proof.
  unfold field, peek; intros Hb; destruct (Nat.leb_spec (off + n) (length data)) as [Hl|]; [|done]; intros [= <-].
  assert (Hs : Forall is_byte (slice off n data)) by (unfold slice; now apply Forall_take, Forall_drop).
  assert (Hn : length (slice off n data) = n) by (unfold slice; rewrite length_take, length_drop; lia).
  revert Hs Hn; generalize (slice off n data); intros s Hs <-; clear -Hs; induction Hs as [|b l Hb' _ IH]; [cbn; lia|].
  cbn [foldr length]; rewrite Nat2Z.inj_succ, Z.pow_succ_r by lia; unfold is_byte in Hb'; lia.
Qed.

Definition part_ok (e : dos_part) : Prop := 0 <= ostype e < 256 /\ is_u32 (start_lba e) /\ is_u32 (part_length e).

Lemma dos_entry_some data i : (512 <= length data)%nat -> (i < 4)%nat -> exists e, dos_entry data i = Some e.
Proof.
  intros Hl Hi; unfold dos_entry.
  destruct (field_some 1 data (446 + 16 * i + 4)) as [t ->]; [lia|].
  destruct (field_some 4 data (446 + 16 * i + 8)) as [s ->]; [lia|].
  destruct (field_some 4 data (446 + 16 * i + 12)) as [n ->]; [lia|]; eauto.
Qed.

Lemma dos_entry_ok data i e : Forall is_byte data -> dos_entry data i = Some e -> part_ok e.
Proof.
  unfold dos_entry; intros Hb.
  destruct (field 1 _ _) as [t|] eqn:Et; [|done]; destruct (field 4 _ (_ + 8)) as [s|] eqn:Es; [|done].
  destruct (field 4 _ (_ + 12)) as [n|] eqn:En; [|done]; intros [= <-].
  apply field_range in Et, Es, En; [|done..]; split; [exact Et|split; [exact Es|exact En]].
Qed.

(** An entry of the table goes by the first 512 bytes. *)
Lemma field_take n data off k : (off + n <= k <= length data)%nat -> field n (take k data) off = field n data off.
Proof.
  intros Hk; unfold field; rewrite !peek_ok by (rewrite ?length_take; lia); do 2 f_equal.
  unfold slice; rewrite skipn_firstn_comm, take_take; f_equal; lia.
Qed.

Lemma dos_entry_take data i : (512 <= length data)%nat -> (i < 4)%nat -> dos_entry (take 512 data) i = dos_entry data i.
Proof. intros Hl Hi; unfold dos_entry; now rewrite !field_take by lia. Qed.

(** ** The partitions of an MBR and its extended boot records *)

(** A range of sectors: not empty, and its end is an address. *)
Definition in_words (e : dos_part) : Prop := 0 < start_lba e /\ 0 < part_length e /\ start_lba e + part_length e < 4294967296.

Definition is_ext (e : dos_part) : Prop := ost_is_ext (ostype e) = true.

Section spec.
Context (sector : Z -> list Z) (di : disk_info) (flags : Z).
Notation strict := (flag flags PIF_STRICT = true).
Notation stepall := (flag flags PIF_STEPALL).

Definition primary_ok (e : dos_part) : Prop :=
  ostype e <> 0 -> strict -> in_words e /\ (flag flags PIF_STRICTER = true -> start_lba e + part_length e <= lbacnt di).

(** The first entry of an EBR whose frame has [siz] sectors, and the second. *)
Definition logical_ok (siz : Z) (e : dos_part) : Prop :=
  ostype e <> 0 -> ~ is_ext e /\ (strict -> in_words e /\ start_lba e + part_length e <= siz).
Definition link_ok (bsiz : Z) (e : dos_part) : Prop :=
  ostype e <> 0 -> is_ext e /\ (strict -> in_words e /\ start_lba e + part_length e <= bsiz).

(** The chain of extended boot records from the sector [lba], in an extended partition
    that begins at [base] and has [bsiz] sectors: the first entry of each. *)
Inductive frames (base bsiz : Z) : Z -> Z -> list (Z * dos_part) -> Prop :=
  | frames_end siz : frames base bsiz 0 siz []
  | frames_cons lba siz e link next nsiz l :
      lba <> 0 -> dos_entry (sector lba) 0 = Some e -> dos_entry (sector lba) 1 = Some link ->
      logical_ok siz e -> link_ok bsiz link ->
      (next, nsiz) = (if ostype link =? 0 then (0, 0) else (base ⊞ start_lba link, part_length link)) ->
      frames base bsiz next nsiz l -> frames base bsiz lba siz ((lba, e) :: l).

(** What is listed: the number of a partition (-1 for an empty entry), its first sector
    and its length. *)
Definition line : Type := Z * Z * Z.

Fixpoint primary_list (i : Z) (slots : list dos_part) : list line :=
  match slots with
  | [] => []
  | e :: slots =>
      (if negb (ost_is_nondata (ostype e)) || stepall then [(if ostype e =? 0 then -1 else i + 1, start_lba e, part_length e)] else []) ++
      primary_list (i + 1) slots
  end.

Definition log_line (k : Z) (lba : Z) (e : dos_part) : line :=
  (k, if start_lba e =? 0 then 0 else lba ⊞ start_lba e, part_length e).

Fixpoint logical_list (k : Z) (l : list (Z * dos_part)) : list line :=
  match l with
  | [] => []
  | (lba, e) :: l =>
      if ostype e =? 0 then (if stepall then [log_line (-1) lba e] else []) ++ logical_list k l
      else log_line k lba e :: logical_list (k + 1) l
  end.
End spec.

(** The whole iteration: what is seen of the iterator at each partition, and how it ends. *)
Fixpoint listing {W A} `{DiskReader W} (view : part_iter -> A) (fuel : nat) (it : part_iter) (w : W) : option (list A * Z * W) :=
  match fuel with
  | O => None
  | S fuel =>
      let* (it, w) := pi_next it w in
      if negb (status it =? 0) then Some ([], status it, w)
      else let* (l, st, w) := listing view fuel it w in Some (view it :: l, st, w)
  end.
Definition line_of (it : part_iter) : line := (index it, abs_lba it, length_ it).

(** The checks of the code and what they mean. *)
Lemma sane_spec s l : is_u32 s -> is_u32 l -> l <> 0 -> sane s l = true <-> s + l < 4294967296.
Proof. unfold is_u32, sane; intros Hs Hl Hne; rewrite Z.ltb_lt; split; intros Hx; ulia. Qed.

(** The test that the four checks share, with the bound of each. *)
Lemma range_test e bound : part_ok e ->
  (start_lba e =? 0) || (part_length e =? 0) || negb (sane (start_lba e) (part_length e)) || (bound <? start_lba e ⊞ part_length e) = false <->
  in_words e /\ start_lba e + part_length e <= bound.
Proof.
  intros (_ & Hs & Hl); unfold in_words; rewrite !orb_false_iff, !Z.eqb_neq, negb_false_iff, Z.ltb_ge; unfold is_u32 in *; split.
  - intros [[[H1 H2] H3] H4]; apply sane_spec in H3; [|done..]; rewrite u32_small in H4 by lia; lia.
  - intros [(H1 & H2 & H3) H4]; rewrite u32_small by lia; repeat split; try lia; apply sane_spec; (done || lia).
Qed.

(** ** Listing the logical partitions *)

Lemma bool_cases (b : bool) : (b = true) \/ (b = false).
Proof. destruct b; tauto. Qed.

Lemma notsane_logical_ok it e : dos_entry (data it) 0 = Some e -> part_ok e -> logical_ok (flags it) (nebr_siz (dos it)) e ->
  notsane_logical it = Some false.
Proof.
  intros E Hp Hl; unfold notsane_logical; rewrite E; f_equal.
  destruct (Z.eqb_spec (ostype e) 0) as [|Hne]; [done|]; destruct (Hl Hne) as [Hx Hs]; unfold is_ext in Hx.
  destruct (ost_is_ext (ostype e)); [done|]; destruct (flag (flags it) PIF_STRICT); cbn [negb]; [|done].
  now apply range_test; auto.
Qed.

Lemma notsane_extended_ok it e : dos_entry (data it) 1 = Some e -> part_ok e -> link_ok (flags it) (bebr_siz (dos it)) e ->
  notsane_extended it = Some false.
Proof.
  intros E Hp Hl; unfold notsane_extended; rewrite E; f_equal.
  destruct (Z.eqb_spec (ostype e) 0) as [|Hne]; [done|]; destruct (Hl Hne) as [Hx Hs]; unfold is_ext in Hx.
  unfold ost_is_nondata; rewrite Hx; cbn [orb negb]; destruct (flag (flags it) PIF_STRICT); cbn [negb]; [|done].
  now apply range_test; auto.
Qed.

Section dos_listing.
Context {W : Type} `{HR : DiskReader W} (d : disk_info) (sector : Z -> list Z) `{!DiskReaderLaws W d sector}.
Context (sector_bytes : forall lba, Forall is_byte (sector lba)) (bps_large : 512 <= bps d) (fl : Z).
Notation stepall := (flag fl PIF_STEPALL).

Lemma read_one lba w s w' : 0 <= lba < 2 ^ 64 - 1 -> read_sectors d lba 1 w = (Some s, w') -> s = sector lba.
Proof.
  intros Hr E; apply (read_is (sector := sector)) in E; [|lia..]; subst s; change (seq 0 (Z.to_nat 1)) with [0%nat].
  cbn [map concat]; now rewrite app_nil_r, Z.add_0_r.
Qed.

Lemma sector_part lba i e : dos_entry (sector lba) i = Some e -> part_ok e.
Proof. apply dos_entry_ok, sector_bytes. Qed.

(** The iterator between two frames, when those of [l] are left. *)
Record at_frame (base bsiz : Z) (it : part_iter) (l : list (Z * dos_part)) : Prop := {
  af_kind : type it = typedos /\ status it = 0 /\ flags it = fl /\ di it = d;
  af_index : 3 <= index0 it /\ index0 it + Z.of_nat (length l) < 1024;
  af_next : is_u32 (nebr_lba (dos it));
  af_base : bebr_lba (dos it) = base /\ bebr_siz (dos it) = bsiz /\ base <> 0 /\ 0 <= bebr_index0 (dos it);
  af_frames : frames sector fl base bsiz (nebr_lba (dos it)) (nebr_siz (dos it)) l
}.

(** The number of the next partition. *)
Definition next_no (it : part_iter) : Z := index0 it + 2 - logskipcnt (dos it).

Lemma ebr_loop_spec base bsiz : forall l fuel it w, at_frame base bsiz it l -> (length l < fuel)%nat ->
  exists it' r w', ebr_loop fuel it w = Some (it', r, w') /\
  ((r = Failed /\ status it' = PI_ERRLOAD) \/
   (r = Failed /\ status it' = PI_DONE /\ logical_list fl (next_no it) l = []) \/
   exists lba e l', r = Found lba e 446 /\ at_frame base bsiz it' l' /\ 4 <= index0 it' /\ (length l' < length l)%nat /\
     logical_list fl (next_no it) l = (if ostype e =? 0 then -1 else next_no it' - 1, lba, part_length e) :: logical_list fl (next_no it') l').
Proof.
  induction l as [|[lba e] l IH]; intros fuel it w [(Ht & Hst & Hfl & Hdi) Hix Hnx (Hb & Hbs & Hb0 & Hbi) Hf] Hfu; destruct fuel as [|fuel];
    cbn [length] in *; try lia; cbn [ebr_loop]; cbn [set_index0 index0 dos flags data].
  - inversion Hf; change (negb (0 =? 0)) with false; rewrite andb_false_r.
    do 3 eexists; split; [reflexivity|right; left; repeat split; reflexivity].
  - inversion Hf as [|lba' siz' e' link next nsiz l0 Hne He Hlink Hlog Hext Hnext Hrest]; subst lba' e' l0 siz'.
    rewrite (proj2 (Z.ltb_lt _ _)), (proj2 (Z.eqb_neq _ _)) by (done || lia); cbn [andb negb].
    change (di (set_index0 (index0 it + 1) it)) with (di it); rewrite Hdi; subst lba.
    destruct (read_sectors d (nebr_lba (dos it)) 1 w) as [[s|] w'] eqn:Er;
      [apply read_one in Er; [subst s|unfold is_u32 in Hnx; lia]|do 3 eexists; split; [reflexivity|left; split; reflexivity]].
    set (it1 := set_data _ _); assert (Hpe : part_ok e) by (eapply sector_part; exact He).
    assert (Hpl : part_ok link) by (eapply sector_part; exact Hlink).
    rewrite (notsane_logical_ok it1 e) by (unfold it1; cbn [set_data set_index0 data flags dos]; rewrite ?Hfl; done).
    rewrite (notsane_extended_ok it1 link) by (unfold it1; cbn [set_data set_index0 data flags dos]; rewrite ?Hfl, ?Hbs; done).
    unfold it1 at 1 2; cbn [set_data data]; rewrite He, Hlink; cbn [set_dos dos flags]; unfold it1; cbn [set_data set_index0 dos flags].
    set (it2 := set_dos _ _).
    assert (Hat : at_frame base bsiz it2 l).
    { unfold it2; split; cbn [set_dos set_data set_index0 type status flags di index0 dos]; try done; [lia| | |].
      - unfold next_frame; destruct (negb _); cbn [nebr_lba]; [apply u32_range|split; reflexivity].
      - unfold next_frame; destruct (negb _); cbn [bebr_lba bebr_siz bebr_index0]; done.
      - unfold next_frame; rewrite Hb; destruct (ostype link =? 0); cbn [negb nebr_lba nebr_siz]; injection Hnext as -> ->; exact Hrest. }
    assert (Hc : cebr_lba (next_frame e link (dos it)) = nebr_lba (dos it)) by (unfold next_frame; destruct (negb _); reflexivity).
    assert (Hk : next_no it2 = if ostype e =? 0 then next_no it else next_no it + 1).
    { unfold next_no, it2, next_frame; cbn [set_dos set_data set_index0 dos index0]; destruct (negb _); cbn [logskipcnt]; destruct (ostype e =? 0); lia. }
    cbn [logical_list]; rewrite Hfl, Hc.
    destruct (Z.eqb_spec (ostype e) 0) as [Ez|Ez]; cbn [negb orb]; [destruct stepall eqn:Es|].
    + do 3 eexists; split; [reflexivity|right; right; do 3 eexists; split; [reflexivity|split; [exact Hat|]]].
      rewrite (proj2 (Z.eqb_eq (ostype e) 0)), Hk by done; repeat split; [unfold it2; cbn [set_dos set_data set_index0 index0]; lia|lia|].
      cbn [app]; unfold log_line; destruct (start_lba e =? 0); reflexivity.
    + destruct (IH fuel it2 w' Hat ltac:(lia)) as (it' & r & w'' & E & Hcase); do 3 eexists; split; [exact E|]; rewrite Hk in Hcase; cbn [app].
      destruct Hcase as [Hcase|[Hcase|(lba & e1 & l' & H1 & H2 & H3 & H4 & H5)]]; [now left|now right; left|right; right].
      exists lba, e1, l'; split; [exact H1|split; [exact H2|split; [exact H3|split; [lia|exact H5]]]].
    + do 3 eexists; split; [reflexivity|right; right; do 3 eexists; split; [reflexivity|split; [exact Hat|]]].
      rewrite (proj2 (Z.eqb_neq (ostype e) 0)), Hk by done; repeat split; [unfold it2; cbn [set_dos set_data set_index0 index0]; lia|lia|].
      replace (next_no it + 1 - 1) with (next_no it) by lia; unfold log_line; destruct (start_lba e =? 0); reflexivity.
Qed.

(** A call between two frames. *)
Lemma next_at_frame base bsiz it l w : at_frame base bsiz it l -> 4 <= index0 it ->
  exists it' w', pi_next it w = Some (it', w') /\
  (status it' = PI_ERRLOAD \/ (status it' = PI_DONE /\ logical_list fl (next_no it) l = []) \/
   exists l', at_frame base bsiz it' l' /\ 4 <= index0 it' /\ (length l' < length l)%nat /\
     logical_list fl (next_no it) l = (index it', abs_lba it', length_ it') :: logical_list fl (next_no it') l').
Proof.
  intros Hat Hix; pose proof Hat as [(Ht & Hst & Hfl & Hdi) Hix2 Hnx (Hb & Hbs & Hb0 & Hbi) Hf].
  unfold pi_next; rewrite Ht; unfold pi_dos_next; rewrite Hst; cbn [Z.eqb negb]; rewrite (proj2 (Z.ltb_ge _ _)), (proj2 (Z.leb_le _ _)) by lia.
  unfold dos_next_ebr, prep_base_ebr; rewrite (proj2 (Z.ltb_ge _ _)), (proj2 (Z.eqb_neq _ _)) by (lia || (rewrite Hb; done)).
  destruct (ebr_loop_spec base bsiz l 1025 it w Hat ltac:(lia)) as (it' & r & w' & -> & [[-> H1]|[(-> & H1 & H2)|(lba & e & l' & -> & H1 & H2 & H3 & H4)]]).
  - do 2 eexists; split; [reflexivity|left; exact H1].
  - do 2 eexists; split; [reflexivity|right; left; split; [exact H1|exact H2]].
  - do 2 eexists; split; [reflexivity|right; right; exists l']; split; [destruct H1; split; done|]; cbn [set_part index0 index abs_lba length_].
    repeat split; try done; rewrite H4; unfold next_no; cbn [set_part index0 dos]; 
    replace (index0 it' + 2 - logskipcnt (dos it') - 1) with (index0 it' + 1 - logskipcnt (dos it')) by lia; reflexivity.
Qed.

Lemma listing_at_frame base bsiz : forall n l it w, (length l <= n)%nat -> at_frame base bsiz it l -> 4 <= index0 it ->
  forall fuel, (length l < fuel)%nat ->
  exists ls st w', listing line_of fuel it w = Some (ls, st, w') /\
  ((st = PI_DONE /\ ls = logical_list fl (next_no it) l) \/ (st = PI_ERRLOAD /\ ls `prefix_of` logical_list fl (next_no it) l)).
Proof.
  induction n as [|n IH]; intros l it w Hl Hat Hix fuel Hfu; destruct fuel as [|fuel]; try lia; cbn [listing];
    destruct (next_at_frame base bsiz it l w Hat Hix) as (it' & w' & -> & [H1|[[H1 H2]|(l' & H1 & H2 & H3 & H4)]]); try lia.
  1, 3: rewrite H1; do 3 eexists; split; [reflexivity|right; split; [done|apply prefix_nil]].
  1, 2: rewrite H1, H2; do 3 eexists; split; [reflexivity|left; done].
  rewrite (proj1 (proj2 (af_kind _ _ _ _ H1))); cbn [Z.eqb negb].
  destruct (IH l' it' w' ltac:(lia) H1 H2 fuel ltac:(lia)) as (ls & st & w'' & -> & Hc); do 3 eexists; split; [reflexivity|].
  rewrite H4; destruct Hc as [[-> ->]|[-> Hc]]; [left; done|right; split; [done|now apply prefix_cons]].
Qed.

(** ** Listing the primary partitions *)

Lemma notsane_primary_ok it e : dos_entry (data it) (Z.to_nat (index0 it)) = Some e -> part_ok e -> flags it = fl -> di it = d ->
  primary_ok d fl e -> notsane_primary it = Some false.
Proof.
  intros E Hp Hfl Hdi Hok; unfold notsane_primary; rewrite E, Hfl, Hdi; f_equal.
  destruct (Z.eqb_spec (ostype e) 0) as [|Hne]; [done|]; specialize (Hok Hne).
  destruct (flag fl PIF_STRICT); cbn [negb]; [|done]; destruct (Hok eq_refl) as [Hw Hs].
  destruct (flag fl PIF_STRICTER); cbn [andb].
  - apply range_test; [done|]; split; [done|now apply Hs].
  - pose proof (proj2 (range_test e (start_lba e + part_length e) Hp) (conj Hw (Z.le_refl _))) as Hr.
    apply orb_false_iff in Hr as [-> _]; reflexivity.
Qed.

Context (slots : list dos_part) (slots_four : length slots = 4%nat).
Context (slots_part : Forall part_ok slots) (slots_ok : Forall (primary_ok d fl) slots).
Context (one_ext : forall i j e e', slots !! i = Some e -> slots !! j = Some e' -> is_ext e -> is_ext e' -> i = j).

(** The iterator when [i] entries of the table have been looked at. *)
Record at_mbr (it : part_iter) (i : nat) : Prop := {
  am_kind : type it = typedos /\ status it = 0 /\ flags it = fl /\ di it = d;
  am_index : index0 it = Z.of_nat i - 1;
  am_data : forall k, (k < 4)%nat -> dos_entry (data it) k = slots !! k;
  am_dos : bebr_lba (dos it) = 0 /\ logskipcnt (dos it) = 0;
  am_ext : (bebr_index0 (dos it) = -1 /\ forall k e, (k < i)%nat -> slots !! k = Some e -> ~ is_ext e) \/
    exists j e, bebr_index0 (dos it) = Z.of_nat j /\ (j < i)%nat /\ slots !! j = Some e /\ is_ext e
}.

Lemma next_mbr_spec : forall fuel i it, at_mbr it i -> (i <= 4)%nat -> (4 - i < fuel)%nat ->
  exists it' r, dos_next_mbr fuel it = Some (it', r) /\
  ((r = Nothing /\ at_mbr it' 5 /\ primary_list fl (Z.of_nat i) (drop i slots) = []) \/
   exists j e, r = Found (start_lba e) e (446 + 16 * j) /\ at_mbr it' (S j) /\ (i <= j < 4)%nat /\
     primary_list fl (Z.of_nat i) (drop i slots) =
       (if ostype e =? 0 then -1 else Z.of_nat j + 1, start_lba e, part_length e) :: primary_list fl (Z.of_nat (S j)) (drop (S j) slots)).
Proof.
  induction fuel as [|fuel IH]; intros i it Hat Hi Hfu; [lia|]; pose proof Hat as [(Ht & Hst & Hfl & Hdi) Hix Hda (Hbl & Hlog) Hex].
  cbn [dos_next_mbr]; cbn [set_index0 index0 data flags]; rewrite Hix; replace (Z.of_nat i - 1 + 1) with (Z.of_nat i) by lia; rewrite Nat2Z.id.
  assert (Hmono : (bebr_index0 (dos it) = -1 /\ forall k e, (k < i)%nat -> slots !! k = Some e -> ~ is_ext e) \/
    exists j e, bebr_index0 (dos it) = Z.of_nat j /\ (j < S i)%nat /\ slots !! j = Some e /\ is_ext e)
    by (destruct Hex as [Hex|(j & e & H1 & H2 & H3)]; [now left|right; exists j, e; repeat split; try tauto; lia]).
  destruct (Z.ltb_spec (Z.of_nat i) 4) as [Hlt|Hge].
  - destruct (lookup_lt_is_Some_2 slots i ltac:(lia)) as [e He]; pose proof (Hda i ltac:(lia)) as Ed; rewrite He in Ed.
    pose proof (proj1 (Forall_lookup _ _) slots_part i e He) as Hpe; pose proof (proj1 (Forall_lookup _ _) slots_ok i e He) as Hpo.
    rewrite (notsane_primary_ok _ e) by (cbn [set_index0 data index0 flags di]; rewrite ?Nat2Z.id; done).
    rewrite Ed; change (dos (set_index0 (Z.of_nat i) it)) with (dos it).
    assert (Hno : ost_is_ext (ostype e) && (0 <=? bebr_index0 (dos it)) = false).
    { destruct (ost_is_ext (ostype e)) eqn:Ee; [|done]; destruct Hex as [[-> _]|(j & e' & -> & Hj & He' & Hx)]; [done|].
      pose proof (one_ext i j e e' He He' Ee Hx); lia. }
    rewrite Hno; set (it1 := if ost_is_ext (ostype e) then _ else _).
    assert (Hat1 : at_mbr it1 (S i)).
    { unfold it1; destruct (ost_is_ext (ostype e)) eqn:Ee; split;
        cbn [set_dos set_index0 type status flags di index0 data dos with_bebr_index0 bebr_lba logskipcnt bebr_index0]; try done; try lia.
      - right; exists i, e; repeat split; (done || lia).
      - destruct Hmono as [[H1 H2]|(j & e' & H1 & H2 & H3)]; [left; split; [done|]|right; exists j, e'; tauto].
        intros k e' Hk Hke; destruct (decide (k = i)) as [->|]; [|apply (H2 k e'); (lia || done)].
        rewrite He in Hke; injection Hke as <-; unfold is_ext; rewrite Ee; done. }
    assert (Hfl1 : flags it1 = fl) by (unfold it1; destruct (ost_is_ext _); exact Hfl).
    assert (Hix1 : index0 it1 = Z.of_nat i) by (unfold it1; destruct (ost_is_ext _); reflexivity).
    rewrite Hfl1, Hix1, Nat2Z.id, (drop_S slots e i He); cbn [primary_list].
    destruct (negb (ost_is_nondata (ostype e)) || stepall).
    + do 2 eexists; split; [reflexivity|right; exists i, e]; split; [reflexivity|split; [exact Hat1|split; [lia|]]].
      cbn [app]; do 3 f_equal; lia.
    + destruct (IH (S i) it1 Hat1 ltac:(lia) ltac:(lia)) as (it' & r & E & Hcase); do 2 eexists; split; [exact E|]; cbn [app].
      replace (Z.of_nat i + 1) with (Z.of_nat (S i)) by lia.
      destruct Hcase as [Hcase|(j & e' & H1 & H2 & H3 & H4)]; [now left|right; exists j, e'; split; [exact H1|split; [exact H2|split; [lia|exact H4]]]].
  - assert (i = 4%nat) as -> by lia; do 2 eexists; split; [reflexivity|left; split; [done|]]; rewrite drop_ge by lia; split; [|reflexivity].
    split; cbn [set_index0 type status flags di index0 data dos]; try done.
    destruct Hmono as [[H1 H2]|(j & e & H1 & H2 & H3)]; [left; split; [done|]|right; exists j, e; repeat split; try tauto; lia].
    intros k e Hk Hke; apply (H2 k e); [|done]; apply lookup_lt_Some in Hke; lia.
Qed.

(** The logical partitions: those in the extended one, if there is one. *)
Definition ext_frames (l : list (Z * dos_part)) : Prop :=
  (l = [] /\ forall k e, slots !! k = Some e -> ~ is_ext e) \/
  exists j e, slots !! j = Some e /\ is_ext e /\ frames sector fl (start_lba e) (part_length e) (start_lba e) (part_length e) l.

(** After the table, the first of the frames. *)
Lemma next_ebr_first it l w : at_mbr it 5 -> ext_frames l -> (length l <= 1020)%nat ->
  exists it' r w', dos_next_ebr it w = Some (it', r, w') /\
  ((r = Failed /\ status it' = PI_ERRLOAD) \/
   (r = Failed /\ status it' = PI_DONE /\ logical_list fl 5 l = []) \/
   exists base bsiz lba e l', r = Found lba e 446 /\ at_frame base bsiz it' l' /\ 4 <= index0 it' /\ (length l' < length l)%nat /\
     logical_list fl 5 l = (if ostype e =? 0 then -1 else next_no it' - 1, lba, part_length e) :: logical_list fl (next_no it') l').
Proof.
  intros [(Ht & Hst & Hfl & Hdi) Hix Hda (Hbl & Hlog) Hex] Hl Hlen; unfold dos_next_ebr, prep_base_ebr.
  destruct Hex as [[-> Hnone]|(j & e & Hj & Hj5 & He & Hx)].
  - change (-1 <? 0) with true; cbv iota; do 3 eexists; split; [reflexivity|right; left; repeat split]; destruct Hl as [[-> _]|(j & e & He & Hx & _)]; [done|].
    exfalso; apply (Hnone j e); [|done..]; apply lookup_lt_Some in He; lia.
  - rewrite Hj, (proj2 (Z.ltb_ge _ _)), Hbl by lia; change (0 =? 0) with true; cbv iota; rewrite Nat2Z.id, Hda, He by (apply lookup_lt_Some in He; lia).
    destruct Hl as [[-> Hnone]|(j' & e' & He' & Hx' & Hf)]; [exfalso; eapply Hnone; eauto|].
    assert (j' = j) as -> by (eapply one_ext; eauto); rewrite He in He'; injection He' as <-.
    set (it1 := set_index0 _ _); destruct (decide (start_lba e = 0)) as [Ez|Enz].
    + rewrite Ez in Hf; inversion Hf; [|done]; subst l.
      assert (E : forall fuel, ebr_loop (S fuel) it1 w = Some (set_status PI_DONE (set_index0 (index0 it1 + 1) it1), Failed, w)).
      { intros fuel; cbn [ebr_loop]; cbn [set_index0 index0 dos]; unfold it1; cbn [set_index0 set_dos dos nebr_lba]; rewrite Ez.
        change (negb (0 =? 0)) with false; rewrite andb_false_r; reflexivity. }
      rewrite (E 1024%nat); do 3 eexists; split; [reflexivity|right; left; repeat split; reflexivity].
    + assert (Hat : at_frame (start_lba e) (part_length e) it1 l).
      { unfold it1; split; cbn [set_index0 set_dos type status flags di index0 dos bebr_lba bebr_siz bebr_index0 nebr_lba nebr_siz]; try done; [lia| |].
        - exact (proj1 (proj2 (proj1 (Forall_lookup _ _) slots_part j e He))).
        - repeat split; (done || lia). }
      destruct (ebr_loop_spec _ _ l 1025 it1 w Hat ltac:(lia)) as (it' & r & w' & E & Hcase); rewrite E; do 3 eexists; split; [reflexivity|].
      assert (Hno : next_no it1 = 5) by (unfold next_no, it1; cbn [set_index0 set_dos index0 dos logskipcnt]; lia); rewrite Hno in Hcase.
      destruct Hcase as [Hcase|[Hcase|(lba & e1 & l' & Hcase)]]; [now left|right; now left|right; right].
      do 2 eexists; exists lba, e1, l'; exact Hcase.
Qed.

Lemma listing_at_mbr l : ext_frames l -> (length l <= 1020)%nat -> forall n i it w, (4 - i <= n)%nat -> (i <= 4)%nat -> at_mbr it i ->
  forall fuel, (n + S (length l) < fuel)%nat ->
  let expected := primary_list fl (Z.of_nat i) (drop i slots) ++ logical_list fl 5 l in
  exists ls st w', listing line_of fuel it w = Some (ls, st, w') /\
  ((st = PI_DONE /\ ls = expected) \/ (st = PI_ERRLOAD /\ ls `prefix_of` expected)).
Proof.
  intros Hl Hlen; induction n as [|n IH]; intros i it w Hn Hi Hat fuel Hfu expected; destruct fuel as [|fuel]; try lia; cbn [listing];
    pose proof Hat as [(Ht & Hst & Hfl & Hdi) Hix Hda (Hbl & Hlog) Hex]; unfold pi_next; rewrite Ht; unfold pi_dos_next; rewrite Hst;
    cbn [Z.eqb negb]; rewrite (proj2 (Z.ltb_lt (index0 it) 4)) by lia;
    destruct (next_mbr_spec 6 i it Hat Hi ltac:(lia)) as (it1 & r & -> & [(-> & Hat1 & Hp)|(j & e & -> & Hat1 & Hj & Hp)]); try lia.
  1, 2: unfold expected; rewrite Hp; cbn [app]; rewrite (proj2 (Z.leb_le 4 _)) by (rewrite (am_index _ _ Hat1); lia);
    destruct (next_ebr_first it1 l w Hat1 Hl Hlen) as (it' & r & w' & -> & [[-> H1]|[(-> & H1 & H2)|(base & bsiz & lba & e & l' & -> & H1 & H2 & H3 & H4)]]);
    [rewrite H1; do 3 eexists; split; [reflexivity|right; split; [done|apply prefix_nil]]
    |rewrite H1, H2; do 3 eexists; split; [reflexivity|left; done]|];
    cbn [set_part status]; rewrite (proj1 (proj2 (af_kind _ _ _ _ H1))); cbn [Z.eqb negb];
    set (it2 := set_part _ _ _ _ it'); assert (Hat2 : at_frame base bsiz it2 l') by (destruct H1; split; done);
    destruct (listing_at_frame base bsiz (length l') l' it2 w' (Nat.le_refl _) Hat2 H2 fuel ltac:(lia)) as (ls & st & w'' & -> & Hc);
    do 3 eexists; split; [reflexivity|]; rewrite H4; unfold it2 in *; unfold line_of; cbn [set_part index abs_lba length_]; unfold next_no in *; cbn [set_part index0 dos] in *;
    replace (index0 it' + 2 - logskipcnt (dos it') - 1) with (index0 it' + 1 - logskipcnt (dos it')) by lia;
    (destruct Hc as [[-> ->]|[-> Hc]]; [left; done|right; split; [done|now apply prefix_cons]]).
  rewrite (proj2 (Z.leb_gt 4 _)) by (rewrite (am_index _ _ Hat1); lia).
  cbn [set_part status]; rewrite (proj1 (proj2 (am_kind _ _ Hat1))); cbn [Z.eqb negb]; set (it2 := set_part _ _ _ _ it1).
  assert (Hat2 : at_mbr it2 (S j)) by (destruct Hat1; split; done).
  destruct (IH (S j) it2 w ltac:(lia) ltac:(lia) Hat2 fuel ltac:(lia)) as (ls & st & w' & -> & Hc); do 3 eexists; split; [reflexivity|].
  unfold expected; rewrite Hp; unfold it2; unfold line_of; cbn [set_part index abs_lba length_ app]; rewrite (am_index _ _ Hat1), (proj2 (am_dos _ _ Hat1)).
  replace (Z.of_nat (S j) - 1 + 1 - 0) with (Z.of_nat j + 1) by lia.
  destruct Hc as [[-> ->]|[-> Hc]]; [left; done|right; split; [done|now apply prefix_cons]].
Qed.

Lemma sector_field n off : (off + n <= 512)%nat -> forall lba, exists v, field n (sector lba) off = Some v.
Proof. intros Hn lba; apply field_some; rewrite (sector_length (di := d) (sector := sector)); lia. Qed.

(** The iterator that pi_begin answers for such a disk, before its first partition. *)
Lemma begin_mbr crc w : (forall k, (k < 4)%nat -> dos_entry (sector 0) k = slots !! k) ->
  mbr_sig (sector 0) = Some 0xAA55 -> flag fl PIF_PREFMBR = true \/ Forall (fun e => ostype e <> 0xEE) slots ->
  exists r w', pi_begin crc d fl w = Some (r, w') /\
  match r with
  | None => (exists w1, (may_alloc w1).1 = false) \/ exists w1, (read_sectors d 0 1 w1).1 = None
  | Some it => at_mbr it 0
  end.
Proof.
  intros Hslots Hsig Hprot; unfold pi_begin; destruct (may_alloc w) as [[] w1] eqn:Eg; cbn [negb];
    [|do 2 eexists; split; [reflexivity|left; exists w; now rewrite Eg]].
  destruct (read_sectors d 0 1 w1) as [[s|] w2] eqn:Er; [|do 2 eexists; split; [reflexivity|right; exists w1; now rewrite Er]].
  apply read_one in Er; [|lia]; subst s; rewrite Hsig; change (negb (0xAA55 =? 0xAA55)) with false; cbv iota.
  assert (Hgpt : exists isgpt, protective (sector 0) = Some isgpt /\ isgpt && negb (flag fl PIF_PREFMBR) = false).
  { unfold protective; rewrite !Hslots by lia; destruct slots as [|e0 [|e1 [|e2 [|e3 [|]]]]]; try discriminate; cbn [lookup list_lookup].
    eexists; split; [reflexivity|]; destruct Hprot as [-> | Hp]; [now rewrite andb_false_r|].
    rewrite !Forall_cons in Hp; destruct Hp as (H0 & H1 & H2 & H3 & _).
    now rewrite (proj2 (Z.eqb_neq _ _) H0), (proj2 (Z.eqb_neq _ _) H1), (proj2 (Z.eqb_neq _ _) H2), (proj2 (Z.eqb_neq _ _) H3). }
  destruct Hgpt as (isgpt & -> & Hno); rewrite Hno; unfold pi_dos_ctor; destruct (may_alloc w2) as [[] w3] eqn:Eg2;
    [|do 2 eexists; split; [reflexivity|left; exists w2; now rewrite Eg2]].
  assert (Hlen : (512 <= length (sector 0))%nat) by (rewrite (sector_length (di := d) (sector := sector)); lia).
  rewrite peek_ok by lia; destruct (sector_field 4 440 ltac:(lia) 0) as [sig E]; unfold mbr_disk_sig; rewrite E.
  do 2 eexists; split; [reflexivity|]; unfold slice; rewrite drop_0.
  split; cbn [type status flags di index0 data dos bebr_lba logskipcnt bebr_index0]; try done.
  - intros k Hk; rewrite dos_entry_take by (done || lia); auto.
  - left; split; [done|]; intros; lia.
Qed.
End dos_listing.

(** What an MBR, and the extended boot records it leads to, have to be like for the
    flags: four entries that are sane, at most one of them extended, and a chain of
    records that ends. *)
Record mbr_layout (d : disk_info) (sector : Z -> list Z) (fl : Z) (slots : list dos_part) (l : list (Z * dos_part)) : Prop := {
  ml_sector : bps d >= 512 /\ forall lba, Forall is_byte (sector lba);
  ml_sig : mbr_sig (sector 0) = Some 0xAA55;
  ml_not_gpt : flag fl PIF_PREFMBR = true \/ Forall (fun e => ostype e <> 0xEE) slots;
  ml_four : length slots = 4%nat;
  ml_slots : forall k, (k < 4)%nat -> dos_entry (sector 0) k = slots !! k;
  ml_sane : Forall (primary_ok d fl) slots;
  ml_one_ext : forall i j e e', slots !! i = Some e -> slots !! j = Some e' -> is_ext e -> is_ext e' -> i = j;
  ml_frames : ext_frames sector fl slots l;
  ml_length : (length l <= 1020)%nat
}.

(** The primary partitions with their numbers and their places, then the logical ones; a
    reading error can only cut the list short. *)
Lemma mbr_listing {W} `{HR : DiskReader W} d sector `{!DiskReaderLaws W d sector} crc fl slots l w :
  mbr_layout d sector fl slots l ->
  let expected := primary_list fl 0 slots ++ logical_list fl 5 l in
  exists r w', pi_begin crc d fl w = Some (r, w') /\
  match r with
  | None => (exists w1, (may_alloc w1).1 = false) \/ exists w1, (read_sectors d 0 1 w1).1 = None
  | Some it =>
      exists ls st w'', listing line_of 1027 it w' = Some (ls, st, w'') /\
      ((st = PI_DONE /\ ls = expected) \/ (st = PI_ERRLOAD /\ ls `prefix_of` expected))
  end.
Proof.
  intros [[Hbps Hbytes] Hsig Hnot Hfour Hslots Hsane Hone Hframes Hlen] expected.
  assert (Hparts : Forall part_ok slots).
  { apply Forall_lookup; intros i e He; eapply (sector_part sector Hbytes 0 i); rewrite Hslots; [exact He|]; apply lookup_lt_Some in He; lia. }
  destruct (begin_mbr d sector ltac:(lia) fl slots Hfour Hparts Hsane Hone crc w Hslots Hsig Hnot) as (r & w' & -> & Hr); do 2 eexists; split; [reflexivity|].
  destruct r as [it|]; [|exact Hr].
  destruct (listing_at_mbr d sector Hbytes fl slots Hfour Hparts Hsane Hone l Hframes Hlen 4 0 it w' ltac:(lia) ltac:(lia) Hr 1027 ltac:(lia))
    as (ls & st & w'' & E & Hc); do 3 eexists; split; [exact E|exact Hc].
Qed.


(** ** A partition table of entries with identifiers *)

(** An entry: whether its type is zero, its sectors, its identifier and its label as the
    iterator shows it. *)
Record gpt_part := Gpt_part { g_unused : bool; g_first : Z; g_last : Z; g_uid : list Z; g_label : list Z }.

Definition gpt_entry (data : list Z) (off : nat) : option gpt_part :=
  let* zero := guid_is0 data off in
  let* uid := peek data (off + 16) 16 in
  let* first := field 8 data (off + 32) in
  let* last := field 8 data (off + 40) in
  let* label := conv_label 36 data (off + 56) in
  Some (Gpt_part zero first last uid label).

Definition gpt_line : Type := line * list Z * list Z.
Definition gpt_line_of (it : part_iter) : gpt_line := (line_of it, part_guid (gpt it), part_label (gpt it)).

Section gpt_listing.
Context {W : Type} `{HR : DiskReader W} (fl : Z) (entries : list gpt_part) (size : Z) (first_usable last_usable : Z).
Notation strict := (flag fl PIF_STRICT = true).

(** What is listed: the used entries, or all of them, by their places in the table. *)
Fixpoint gpt_list (i : Z) (l : list gpt_part) : list gpt_line :=
  match l with
  | [] => []
  | e :: l =>
      (if negb (g_unused e) || flag fl PIF_STEPALL then [(i + 1, g_first e, u64 (g_last e - g_first e + 1), g_uid e, g_label e)] else []) ++
      gpt_list (i + 1) l
  end.

(** The bytes of a table of these entries. *)
Record table_of (data : list Z) : Prop := {
  to_size : 128 <= size /\ Z.of_nat (length entries) * size < 2147483648;
  to_entries : forall i e, entries !! i = Some e -> gpt_entry data (Z.to_nat (Z.of_nat i * size)) = Some e;
  to_range : forall e, e ∈ entries -> g_unused e = false -> strict -> first_usable <= g_first e /\ g_last e <= last_usable
}.

(** The iterator when [i] entries have been looked at. *)
Record at_gpt (it : part_iter) (i : nat) : Prop := {
  ag_kind : type it = typegpt /\ status it = 0 /\ flags it = fl;
  ag_index : index0 it = Z.of_nat i - 1;
  ag_gpt : pe_count (gpt it) = Z.of_nat (length entries) /\ pe_size (gpt it) = size /\
    ufirst (gpt it) = first_usable /\ ulast (gpt it) = last_usable;
  ag_table : table_of (data it)
}.

Lemma gpt_loop_spec : forall fuel i it o0, at_gpt it i -> (i <= length entries)%nat -> (length entries - i < fuel)%nat ->
  exists it' o, gpt_loop fuel it o0 = Some (it', o) /\
  ((at_gpt it' (S (length entries)) /\ gpt_list (Z.of_nat i) (drop i entries) = []) \/
   exists j e, o = Some (Z.to_nat (Z.of_nat j * size)) /\ at_gpt it' (S j) /\ (i <= j)%nat /\ entries !! j = Some e /\
     gpt_list (Z.of_nat i) (drop i entries) =
       (Z.of_nat j + 1, g_first e, u64 (g_last e - g_first e + 1), g_uid e, g_label e) :: gpt_list (Z.of_nat (S j)) (drop (S j) entries)).
Proof.
  induction fuel as [|fuel IH]; intros i it o0 Hat Hi Hfu; [lia|]; pose proof Hat as [(Ht & Hst & Hfl) Hix (Hc & Hs & Hu & Hl) Htab].
  cbn [gpt_loop]; cbn [set_index0 index0 gpt flags]; rewrite Hix, Hc; replace (Z.of_nat i - 1 + 1) with (Z.of_nat i) by lia.
  destruct (Z.ltb_spec (Z.of_nat i) (Z.of_nat (length entries))) as [Hlt|Hge].
  - destruct (lookup_lt_is_Some_2 entries i ltac:(lia)) as [e He]; destruct Htab as [[Hsz Htot] Hent Hran].
    set (it1 := set_index0 (Z.of_nat i) it); pose proof (Hent i e He) as Ee; unfold gpt_entry in Ee.
    set (o := Z.to_nat (Z.of_nat i * size)) in *.
    assert (Hplace : gpt_place it1 = Some o).
    { unfold gpt_place, it1; cbn [set_index0 index0 gpt]; rewrite Hs, (proj2 (Z.leb_le _ _)), (proj2 (Z.leb_le _ _)) by nia; reflexivity. }
    rewrite Hplace; change (data it1) with (data it); destruct (guid_is0 (data it) o) as [zero|] eqn:Ez; [|done].
    destruct (peek (data it) (o + 16) 16) as [uid|]; [|done].
    destruct (field 8 (data it) (o + 32)) as [first|] eqn:Ef; [|done]; destruct (field 8 (data it) (o + 40)) as [last|] eqn:El; [|done].
    destruct (conv_label 36 (data it) (o + 56)) as [lab|]; [|done]; injection Ee as Ee.
    assert (Hsane : notsane_gpt it1 = Some false).
    { unfold notsane_gpt; rewrite Hplace; change (data it1) with (data it); rewrite Ez; destruct zero; [done|].
      change (flags it1) with (flags it); rewrite Hfl; destruct (flag fl PIF_STRICT) eqn:Es; cbn [negb]; [|done].
      rewrite Ef, El; change (gpt it1) with (gpt it); rewrite Hu, Hl; f_equal.
      destruct (Hran e ltac:(by eapply list_elem_of_lookup_2) ltac:(by rewrite <- Ee) ltac:(done)) as [H1 H2]; rewrite <- Ee in H1, H2; cbn [g_first g_last] in *.
      now rewrite (proj2 (Z.ltb_ge _ _)), (proj2 (Z.ltb_ge _ _)) by lia. }
    rewrite Hsane; assert (Hat1 : at_gpt it1 (S i)) by (split; cbn [it1 set_index0 type status flags index0 gpt data]; try done; lia).
    change (flags it1) with (flags it); rewrite Hfl, (drop_S entries e i He); cbn [gpt_list].
    replace (g_unused e) with zero by now rewrite <- Ee.
    destruct (negb zero || flag fl PIF_STEPALL).
    + do 2 eexists; split; [reflexivity|right; exists i, e]; split; [done|split; [exact Hat1|split; [lia|split; [done|]]]].
      cbn [app]; do 2 f_equal; lia.
    + destruct (IH (S i) it1 (Some o) Hat1 ltac:(lia) ltac:(lia)) as (it' & o' & E & Hcase); do 2 eexists; split; [exact E|]; cbn [app].
      replace (Z.of_nat i + 1) with (Z.of_nat (S i)) by lia.
      destruct Hcase as [Hcase|(j & e' & H1 & H2 & H3 & H4)]; [now left|right; exists j, e'; split; [exact H1|split; [exact H2|split; [lia|exact H4]]]].
  - assert (i = length entries) as -> by lia; do 2 eexists; split; [reflexivity|left; split; [|now rewrite drop_ge by lia]].
    split; cbn [set_index0 type status flags index0 gpt data]; try done; lia.
Qed.

Lemma gpt_next_spec i it w : at_gpt it i -> (i <= length entries)%nat ->
  exists it', pi_next it w = Some (it', w) /\
  ((status it' = PI_DONE /\ gpt_list (Z.of_nat i) (drop i entries) = []) \/
   exists j, at_gpt it' (S j) /\ (i <= j < length entries)%nat /\
     gpt_list (Z.of_nat i) (drop i entries) = gpt_line_of it' :: gpt_list (Z.of_nat (S j)) (drop (S j) entries)).
Proof.
  intros Hat Hi; pose proof Hat as [(Ht & Hst & Hfl) Hix (Hc & Hs & Hu & Hl) Htab].
  unfold pi_next; rewrite Ht; unfold pi_gpt_next; rewrite Hst; cbn [Z.eqb negb]; rewrite Hc, Hix.
  destruct (gpt_loop_spec (S (Z.to_nat (Z.of_nat (length entries) - (Z.of_nat i - 1)))) i it None Hat Hi ltac:(lia))
    as (it1 & o & -> & [[Hat1 Hnil]|(j & e & -> & Hat1 & Hij & He & Hcons)]);
    pose proof Hat1 as [(Ht1 & Hst1 & Hfl1) Hix1 (Hc1 & Hs1 & Hu1 & Hl1) Htab1]; rewrite Hst1; cbn [Z.eqb negb]; rewrite Hix1, Hc1.
  - rewrite (proj2 (Z.eqb_eq _ _)) by lia; eexists; split; [reflexivity|left; split; [done|exact Hnil]].
  - pose proof (lookup_lt_Some _ _ _ He); rewrite (proj2 (Z.eqb_neq _ _)) by lia.
    pose proof (to_entries _ Htab1 j e He) as Ee; unfold gpt_entry in Ee; set (o := Z.to_nat (Z.of_nat j * size)) in *.
    destruct (guid_is0 (data it1) o) as [zero|]; [|done]; destruct (peek (data it1) (o + 16) 16) as [uid|] eqn:Eu; [|done].
    destruct (field 8 (data it1) (o + 32)) as [first|]; [|done]; destruct (field 8 (data it1) (o + 40)) as [last|]; [|done].
    destruct (conv_label 36 (data it1) (o + 56)) as [lab|] eqn:El; [|done]; injection Ee as <-; cbn [set_part data]; rewrite Eu, El.
    eexists; split; [reflexivity|right; exists j]; split; [|split; [lia|]].
    + split; cbn [set_gpt set_part type status flags index0 gpt data with_part pe_count pe_size ufirst ulast]; done.
    + rewrite Hcons; unfold gpt_line_of, line_of; cbn [set_gpt set_part index abs_lba length_ gpt with_part part_guid part_label index0 g_first g_last g_uid g_label].
      do 5 f_equal; lia.
Qed.

Lemma listing_gpt : forall n i it w, (length entries - i <= n)%nat -> at_gpt it i -> (i <= length entries)%nat ->
  forall fuel, (n + 1 < fuel)%nat ->
  listing gpt_line_of fuel it w = Some (gpt_list (Z.of_nat i) (drop i entries), PI_DONE, w).
Proof.
  induction n as [|n IH]; intros i it w Hn Hat Hi fuel Hfu; destruct fuel as [|fuel]; try lia; cbn [listing];
    destruct (gpt_next_spec i it w Hat Hi) as (it' & -> & [[Hst Hnil]|(j & Hat' & Hj & Hcons)]); try lia.
  1, 2: rewrite Hst, Hnil; reflexivity.
  rewrite (proj1 (proj2 (ag_kind _ _ Hat'))); cbn [Z.eqb negb].
  rewrite (IH (S j) it' w) by (done || lia); now rewrite Hcons.
Qed.
End gpt_listing.

Section gpt_layout.
Context {W : Type} `{HR : DiskReader W} (d : disk_info) (sector : Z -> list Z) `{!DiskReaderLaws W d sector} (crc : list Z -> Z) (fl : Z).
Context (entries : list gpt_part).
Notation strict := (flag fl PIF_STRICT = true).

(** [n] sectors from [lba] on. *)
Definition sectors (lba : Z) (n : nat) : list Z := concat (map (fun i => sector (lba + Z.of_nat i)) (seq 0 n)).

(** The bytes and the sectors of the table of a header, and where its copies are. *)
Definition table_bytes (g : gpt_header) : Z := part_count g * part_size g.
Definition table_sectors (g : gpt_header) : Z := (table_bytes g + bps d - 1) / bps d.
Definition other_place (g : gpt_header) : Z :=
  if lba_cur g <? lba_alt g then u64 (lba_alt g - table_sectors g) else u64 (lba_alt g + 1).
Definition table_at (g : gpt_header) (place : Z) : list Z := take (Z.to_nat (table_bytes g)) (sectors place (Z.to_nat (table_sectors g))).

(** A header: its values, and that each copy of its table whose checksum is right is one
    of the entries. *)
Record header_ok (g : gpt_header) : Prop := {
  ho_kind : g_rev g = 0x00010000 /\ g_sig g = gpt_sig_magic;
  ho_size : 128 <= part_size g /\ part_count g = Z.of_nat (length entries) /\ 0 < table_bytes g < 2147483648 /\ table_sectors g <= 255;
  ho_words : (forall place, place = lba_table g \/ place = other_place g -> 0 <= place /\ place + table_sectors g < 2 ^ 64) /\
    part_size g < 2147483648;
  ho_strict : strict ->
    2 <= lba_table g /\ lba_first_usable g <= lba_last_usable g /\
    (lba_table g + table_sectors g <= lba_first_usable g \/ lba_last_usable g < lba_table g) /\
    lba_table g + table_sectors g <= Z.max (lba_cur g) (lba_alt g) /\
    (flag fl PIF_STRICTER = true -> Z.max (lba_cur g) (lba_alt g) < lbacnt d);
  ho_table : forall place, place = lba_table g \/ place = other_place g ->
    table_chksum g = crc (table_at g place) ->
    table_of fl entries (part_size g) (lba_first_usable g) (lba_last_usable g) (table_at g place)
}.

Definition header_place (lba : Z) : Prop := lba = 1 \/ lba = u64 (lbacnt d - 1).

(** A disk with a GPT: whichever copies of the header are intact are headers of these
    entries. *)
Record gpt_layout : Prop := {
  gl_sector : 512 <= bps d < 65536 /\ 0 < lbacnt d < 2 ^ 64;
  gl_mbr : mbr_sig (sector 0) = Some 0xAA55 /\ protective (sector 0) = Some true /\ flag fl PIF_PREFMBR = false;
  gl_headers : forall lba, header_place lba -> valid_crc_hdr crc (sector lba) = Some false \/
    (valid_crc_hdr crc (sector lba) = Some true /\ exists g, read_header (sector lba) = Some g /\ header_ok g)
}.

(** The states that allocations and readings lead to. *)
Definition later (w w' : W) : Prop := w' = (may_alloc w).2 \/ exists lba n, w' = (read_sectors d lba n w).2.

(** From the state [w] on, sectors cannot always be read; a copy of the header, or of the
    table of one, is of no use: it cannot be read or its checksum is wrong. *)
Definition unreadable (w : W) (lba n : Z) : Prop := exists w', rtc later w w' /\ (read_sectors d lba n w').1 = None.
Definition lost_header (w : W) (lba : Z) : Prop := unreadable w lba 1 \/ valid_crc_hdr crc (sector lba) = Some false.
Definition lost_table (w : W) (g : gpt_header) (place : Z) : Prop :=
  unreadable w place (table_sectors g) \/ table_chksum g <> crc (table_at g place).

(** Why there may be no iterator: no memory, no MBR that can be read, no copy of the header
    that is of use; or none of the table of the first that is. *)
Definition no_iterator (w : W) : Prop :=
  (exists w', rtc later w w' /\ (may_alloc w').1 = false) \/ unreadable w 0 1 \/
  (forall lba, header_place lba -> lost_header w lba) \/
  exists lba g, header_place lba /\ (lba <> 1 -> lost_header w 1) /\
    valid_crc_hdr crc (sector lba) = Some true /\ read_header (sector lba) = Some g /\
    lost_table w g (lba_table g) /\ lost_table w g (other_place g).

Lemma later_alloc w0 w : rtc later w0 w -> rtc later w0 (may_alloc w).2.
Proof. intros H; eapply rtc_r; [exact H|now left]. Qed.

Lemma later_read w0 w lba n : rtc later w0 w -> rtc later w0 (read_sectors d lba n w).2.
Proof. intros H; eapply rtc_r; [exact H|right; eauto]. Qed.

Lemma sectors_length n : forall lba, length (sectors lba n) = (n * Z.to_nat (bps d))%nat.
Proof.
  intros lba; unfold sectors; rewrite length_concat; generalize 0%nat; induction n as [|n IH]; intros k; cbn [seq map fmap list_fmap sum_list]; [done|].
  rewrite (sector_length (di := d) (sector := sector)); cbn [Nat.mul list_sum fold_right]; f_equal; apply IH.
Qed.

Lemma read_run lba n w l w' : 0 <= lba -> lba + n < 2 ^ 64 -> 0 <= n < 256 -> read_sectors d lba n w = (Some l, w') -> l = sectors lba (Z.to_nat n).
Proof. apply (read_is (sector := sector)). Qed.

Lemma sectors_one lba : sectors lba (Z.to_nat 1) = sector lba.
Proof. unfold sectors; change (seq 0 (Z.to_nat 1)) with [0%nat]; cbn [map concat]; now rewrite app_nil_r, Z.add_0_r. Qed.

Lemma table_sectors_enough g : 512 <= bps d < 65536 -> 0 < table_bytes g < 2147483648 ->
  list_sectors d g = table_sectors g /\ 0 < table_sectors g /\ table_bytes g <= table_sectors g * bps d.
Proof.
  intros Hb Ht; unfold list_sectors, table_sectors; replace (part_size g * part_count g) with (table_bytes g) by (unfold table_bytes; lia).
  rewrite !u64_small by (rewrite ?u64_small by lia; lia); split; [done|].
  pose proof (Z.div_mod (table_bytes g + bps d - 1) (bps d) ltac:(lia)); pose proof (Z.mod_pos_bound (table_bytes g + bps d - 1) (bps d) ltac:(lia)).
  set (q := (table_bytes g + bps d - 1) / bps d) in *; nia.
Qed.

Lemma header_sane g : 512 <= bps d < 65536 -> header_ok g -> notsane_gpt_hdr d g fl = false.
Proof.
  intros Hb [_ (Hs & Hc & Ht & Hk) (Hw & _) Hstrict _]; unfold notsane_gpt_hdr.
  destruct (table_sectors_enough g Hb Ht) as (El & Hp & _); rewrite El.
  destruct (flag fl PIF_STRICT); cbn [negb]; [|done]; destruct (Hstrict eq_refl) as (H1 & H2 & H4 & H5 & H6).
  destruct (Hw _ (or_introl eq_refl)) as [Hw1 Hw2].
  replace (part_size g * part_count g) with (table_bytes g) by (unfold table_bytes; lia).
  unfold sane_64; rewrite !u64_small by lia.
  rewrite (proj2 (Z.ltb_ge (lba_table g) 2)), (proj2 (Z.eqb_neq (table_bytes g) 0)), (proj2 (Z.ltb_ge 255 _)), (proj2 (Z.ltb_ge (lba_last_usable g) _)),
    (proj2 (Z.ltb_lt (lba_table g) (lba_table g + table_sectors g))), (proj2 (Z.ltb_ge (part_size g) 128)) by lia; cbn [orb negb].
  rewrite orb_false_r; repeat (apply orb_false_iff; split).
  - destruct H4; [rewrite (proj2 (Z.ltb_ge _ _)) by lia; done|rewrite (proj2 (Z.leb_gt _ _)) by lia; apply andb_false_r].
  - apply Z.ltb_ge; destruct (Z.ltb_spec (lba_alt g) (lba_cur g)); lia.
  - destruct (flag fl PIF_STRICTER); [|done]; cbn [andb]; apply Z.leb_gt; specialize (H6 eq_refl); destruct (Z.ltb_spec (lba_alt g) (lba_cur g)); lia.
Qed.

Lemma try_list_spec w0 g (alt : bool) w : 512 <= bps d < 65536 -> header_ok g -> rtc later w0 w ->
  let place := if alt then other_place g else lba_table g in
  exists r w', try_gpt_list crc d g alt w = Some (r, w') /\ rtc later w0 w' /\
  match r with
  | None => lost_table w0 g place
  | Some l => l = sectors place (Z.to_nat (table_sectors g)) /\ table_chksum g = crc (table_at g place)
  end.
Proof.
  intros Hb Hok Hl place; pose proof Hok as [_ (Hs & Hc & Ht & Hk) (Hw & _) _ _]; unfold try_gpt_list.
  destruct (table_sectors_enough g Hb Ht) as (El & Hp & Hen); rewrite El, (u8_small (table_sectors g)) by lia.
  replace (if negb alt then lba_table g else if negb (lba_cur g <? lba_alt g) then u64 (lba_alt g + 1) else u64 (lba_alt g - table_sectors g)) with place
    by (unfold place, other_place; destruct alt; cbn [negb]; [destruct (_ <? _)|]; reflexivity).
  pose proof (later_read w0 w place (table_sectors g) Hl) as Hl'.
  destruct (read_sectors d place (table_sectors g) w) as [[l|] w'] eqn:Er; cbn [snd] in Hl';
    [|do 2 eexists; split; [reflexivity|split; [exact Hl'|left; exists w; now rewrite Er]]].
  destruct (Hw place ltac:(unfold place; destruct alt; tauto)) as [Hw1 Hw2]; apply read_run in Er; [|lia..]; subst l; replace (part_size g * part_count g) with (table_bytes g) by (unfold table_bytes; lia).
  unfold valid_crc; rewrite u64_small, u32_small, peek_ok by (rewrite ?sectors_length; nia).
  unfold slice; rewrite drop_0; fold (table_at g place).
  destruct (Z.eqb_spec (table_chksum g) (crc (table_at g place))); do 2 eexists; (split; [reflexivity|split; [exact Hl'|]]); [tauto|now right].
Qed.

Lemma gpt_ctor_spec g l w : 512 <= bps d < 65536 -> header_ok g ->
  forall place, place = lba_table g \/ place = other_place g -> l = sectors place (Z.to_nat (table_sectors g)) -> table_chksum g = crc (table_at g place) ->
  exists r w', pi_gpt_ctor d fl g l w = Some (r, w') /\
  match r with None => (may_alloc w).1 = false | Some it => at_gpt fl entries (part_size g) (lba_first_usable g) (lba_last_usable g) it 0 end.
Proof.
  intros Hb Hok place Hpl -> Hsum; pose proof Hok as [_ (Hs & Hc & Ht & Hk) (_ & Hsz) _ Htab]; unfold pi_gpt_ctor.
  destruct (table_sectors_enough g Hb Ht) as (_ & Hp & Hen); fold (table_bytes g).
  destruct (may_alloc w) as [[] w']; [|do 2 eexists; split; reflexivity].
  rewrite u64_small, u32_small, peek_ok by (rewrite ?sectors_length; nia); unfold slice; rewrite drop_0; fold (table_at g place).
  assert (part_count g < 2147483648) by (unfold table_bytes in Ht; nia).
  do 2 eexists; split; [reflexivity|]; split; cbn [type status flags index0 gpt pe_count pe_size ufirst ulast data]; try done; [|now apply Htab].
  rewrite !s32_of_small by lia; done.
Qed.

(** What a try at a copy of the header comes to. *)
Lemma try_hdr_spec w0 sec w : gpt_layout -> rtc later w0 w ->
  let lba := if sec : bool then u64 (lbacnt d - 1) else 1 in
  exists r w', try_gpt_hdr crc d sec w = Some (r, w') /\ rtc later w0 w' /\
  match r with
  | None => lost_header w0 lba
  | Some buf => buf = sector lba /\ valid_crc_hdr crc buf = Some true /\ exists g, read_header buf = Some g /\ header_ok g
  end.
Proof.
  intros [[Hb Hcnt] _ Hhead] Hl lba; unfold try_gpt_hdr; fold lba.
  assert (Hpl : header_place lba) by (unfold lba, header_place; destruct sec; tauto).
  pose proof (later_read w0 w lba 1 Hl) as Hl'; destruct (read_sectors d lba 1 w) as [[h|] w'] eqn:Eh; cbn [snd] in Hl';
    [|do 2 eexists; split; [reflexivity|split; [exact Hl'|left; exists w; now rewrite Eh]]].
  assert (Hlba : 0 <= lba < 2 ^ 64 - 1) by (destruct Hpl as [->| ->]; [lia|rewrite u64_small by lia; lia]).
  apply read_run in Eh; [|lia..]; rewrite sectors_one in Eh; subst h.
  destruct (Hhead lba Hpl) as [E|(E & g & Hg)]; rewrite E; do 2 eexists; (split; [reflexivity|split; [exact Hl'|]]).
  - now right.
  - split; [done|split; [exact E|exists g; exact Hg]].
Qed.

(** What follows once there is a header. *)
Definition begin_header (buf : list Z) (w : W) : option (option part_iter * W) :=
  let* g := read_header buf in
  if (g_rev g =? 0x00010000) && bool_decide (g_sig g = gpt_sig_magic) then
    if notsane_gpt_hdr d g fl then Some (None, w)
    else
      let* (l, w) := try_gpt_list crc d g false w in
      let* (l, w) := match l with Some _ => Some (l, w) | None => try_gpt_list crc d g true w end in
      match l with None => Some (None, w) | Some gptl => pi_gpt_ctor d fl g gptl w end
  else pi_dos_ctor d fl (sector 0) w.

Lemma begin_header_spec w0 buf g w : 512 <= bps d < 65536 -> read_header buf = Some g -> header_ok g -> rtc later w0 w ->
  exists r w', begin_header buf w = Some (r, w') /\
  match r with
  | None => (exists w', rtc later w0 w' /\ (may_alloc w').1 = false) \/ (lost_table w0 g (lba_table g) /\ lost_table w0 g (other_place g))
  | Some it => exists size first last, at_gpt fl entries size first last it 0
  end.
Proof.
  intros Hb Eg Hok Hl; unfold begin_header; rewrite Eg; pose proof (ho_kind g Hok) as [-> ->].
  rewrite bool_decide_eq_true_2 by done; cbn [andb Z.eqb Pos.eqb]; rewrite (header_sane g Hb Hok).
  assert (Hctor : forall l u place, rtc later w0 u -> place = lba_table g \/ place = other_place g ->
    l = sectors place (Z.to_nat (table_sectors g)) /\ table_chksum g = crc (table_at g place) ->
    exists r w', pi_gpt_ctor d fl g l u = Some (r, w') /\
    match r with
    | None => (exists w', rtc later w0 w' /\ (may_alloc w').1 = false) \/ (lost_table w0 g (lba_table g) /\ lost_table w0 g (other_place g))
    | Some it => exists size first last, at_gpt fl entries size first last it 0
    end).
  { intros l u place Hu Hpl [El Hsum]; destruct (gpt_ctor_spec g l u Hb Hok place Hpl El Hsum) as (r & u' & -> & Hr).
    do 2 eexists; split; [reflexivity|]; destruct r as [it|]; [exists (part_size g), (lba_first_usable g), (lba_last_usable g); exact Hr|left; eauto]. }
  destruct (try_list_spec w0 g false w Hb Hok Hl) as (l1 & u1 & -> & Hu1 & Hl1); destruct l1 as [l1|]; [exact (Hctor _ _ _ Hu1 (or_introl eq_refl) Hl1)|].
  destruct (try_list_spec w0 g true u1 Hb Hok Hu1) as (l2 & u2 & -> & Hu2 & Hl2); destruct l2 as [l2|]; [exact (Hctor _ _ _ Hu2 (or_intror eq_refl) Hl2)|].
  do 2 eexists; split; [reflexivity|right; split; [exact Hl1|exact Hl2]].
Qed.

Lemma begin_gpt w : gpt_layout ->
  exists r w', pi_begin crc d fl w = Some (r, w') /\
  match r with None => no_iterator w | Some it => exists size first last, at_gpt fl entries size first last it 0 end.
Proof.
  intros Hlay; pose proof Hlay as [[Hb Hcnt] (Hsig & Hprot & Hpref) _]; pose proof (later_alloc w w ltac:(constructor)) as R1.
  unfold pi_begin; destruct (may_alloc w) as [[] w1] eqn:Eg; cbn [negb snd] in *;
    [|do 2 eexists; split; [reflexivity|left; exists w; rewrite Eg; split; [constructor|done]]].
  pose proof (later_read w w1 0 1 R1) as R2; destruct (read_sectors d 0 1 w1) as [[s|] w2] eqn:Er; cbn [snd] in *;
    [|do 2 eexists; split; [reflexivity|right; left; exists w1; now rewrite Er]].
  apply read_run in Er; [|lia..]; rewrite sectors_one in Er; subst s.
  rewrite Hsig, Hprot, Hpref; change (negb (0xAA55 =? 0xAA55)) with false; cbn [negb andb]; cbv iota.
  assert (Hgo : forall buf lba u, header_place lba -> (lba <> 1 -> lost_header w 1) -> rtc later w u ->
    buf = sector lba /\ valid_crc_hdr crc buf = Some true /\ (exists g, read_header buf = Some g /\ header_ok g) ->
    exists r w', begin_header buf u = Some (r, w') /\
    match r with None => no_iterator w | Some it => exists size first last, at_gpt fl entries size first last it 0 end).
  { intros buf lba u Hpl Hfirst Hu (-> & Hv & g & Hg & Hok).
    destruct (begin_header_spec w (sector lba) g u Hb Hg Hok Hu) as (r & w' & E & Hr); exists r, w'; split; [exact E|].
    destruct r; [exact Hr|]; destruct Hr as [Hr|Hr]; [now left|right; right; right; exists lba, g; tauto]. }
  destruct (try_hdr_spec w false w2 Hlay R2) as (h1 & w3 & -> & R3 & H1).
  destruct h1 as [buf|]; [apply (Hgo buf 1); [now left|done|exact R3|exact H1]|].
  destruct (try_hdr_spec w true w3 Hlay R3) as (h2 & w4 & -> & R4 & H2).
  destruct h2 as [buf|]; [apply (Hgo buf (u64 (lbacnt d - 1))); [now right|intros _; exact H1|exact R4|exact H2]|].
  do 2 eexists; split; [reflexivity|right; right; left; intros lba [->| ->]; [exact H1|exact H2]].
Qed.

(** C17: the partitions of a disk with a GPT are listed in the order of the
    table, with their numbers, places, identifiers and labels; unused entries
    are shown only if asked for. Which copies of the header and of its table are
    used makes no difference: there is an iterator unless memory is not granted,
    the first sector cannot be read, each copy of the header is lost, or both
    copies of the table are lost that belong to the first copy of the header
    that is not (a copy is lost when it cannot be read or its checksum is
    wrong). The conditions: sectors of 512 bytes or more; a first sector with
    the signature of an MBR and a protective entry, and no preference for the
    MBR; each copy of the header whose checksum is right is one of revision 1.0,
    whose values do not wrap around and satisfy strict mode if that is asked
    for, with a table of less than 2^31 bytes, and entries of at least 128, in
    at most 255 sectors; and copies of the table whose checksum is right hold
    the same entries, which strict mode, if asked for, finds in the usable part. *)
Theorem gpt_partitions_listed w : gpt_layout ->
  exists r w', pi_begin crc d fl w = Some (r, w') /\
  match r with
  | None => no_iterator w
  | Some it => forall fuel, (length entries + 1 < fuel)%nat -> listing gpt_line_of fuel it w' = Some (gpt_list fl 0 entries, PI_DONE, w')
  end.
Proof.
  intros Hl; destruct (begin_gpt w Hl) as (r & w' & -> & Hr); do 2 eexists; split; [reflexivity|]; destruct r as [it|]; [|exact Hr].
  destruct Hr as (size & first & last & Hat); intros fuel Hfu; apply (listing_gpt fl entries size first last (length entries) 0 it w'); (done || lia).
Qed.
End gpt_layout.

(** ** Any disk *)

(** Whatever is on the disk: the iteration over an MBR comes to an end, and in strict
    mode only partitions with sane places are shown. *)
Section any_disk.
Context {W : Type} `{HR : DiskReader W} (d : disk_info) (sector : Z -> list Z) `{!DiskReaderLaws W d sector}.
Context (sector_bytes : forall lba, Forall is_byte (sector lba)) (bps_large : 512 <= bps d) (fl : Z).

Definition table_ok (data : list Z) : Prop := (512 <= length data)%nat /\ Forall is_byte data.

Lemma entry_of data i : table_ok data -> (i < 4)%nat -> exists e, dos_entry data i = Some e /\ part_ok e.
Proof. intros [Hl Hb] Hi; destruct (dos_entry_some data i Hl Hi) as [e He]; exists e; split; [done|eapply dos_entry_ok; eauto]. Qed.

Lemma sector_table lba : table_ok (sector lba).
Proof. split; [rewrite (sector_length (di := d) (sector := sector)); lia|apply sector_bytes]. Qed.

(** An extended partition that is known, in strict mode: its place, and the next frame's. *)
Definition frame_ok (it : part_iter) : Prop :=
  flag fl PIF_STRICT = true ->
  0 < bebr_lba (dos it) /\ bebr_lba (dos it) + bebr_siz (dos it) < 4294967296 /\
  (nebr_lba (dos it) = 0 \/
   bebr_lba (dos it) <= nebr_lba (dos it) /\ nebr_lba (dos it) + nebr_siz (dos it) <= bebr_lba (dos it) + bebr_siz (dos it)).

(** The iterator over an MBR between two calls. *)
Record running (it : part_iter) : Prop := {
  ru_kind : type it = typedos /\ status it = 0 /\ flags it = fl /\ di it = d;
  ru_data : table_ok (data it);
  ru_index : -1 <= index0 it < 1024;
  ru_ext : bebr_index0 (dos it) < 4;
  ru_mbr : index0 it < 4 -> bebr_lba (dos it) = 0 /\
    (0 <= bebr_index0 (dos it) -> forall e, dos_entry (data it) (Z.to_nat (bebr_index0 (dos it))) = Some e -> flag fl PIF_STRICT = true -> in_words e);
  ru_ebr : 4 <= index0 it -> bebr_lba (dos it) <> 0 /\ is_u32 (nebr_lba (dos it)) /\ frame_ok it
}.

(** The place of the partition that is shown. *)
Definition place_ok (it : part_iter) : Prop :=
  flag fl PIF_STRICT = true -> index it <> -1 ->
  0 < abs_lba it /\ 0 < length_ it /\ abs_lba it + length_ it < 4294967296 /\
  (4 <= index0 it -> bebr_lba (dos it) < abs_lba it /\ abs_lba it + length_ it <= bebr_lba (dos it) + bebr_siz (dos it)).

Lemma sane_primary it e : dos_entry (data it) (Z.to_nat (index0 it)) = Some e -> part_ok e -> flags it = fl ->
  notsane_primary it = Some false -> ostype e <> 0 -> flag fl PIF_STRICT = true -> in_words e.
Proof.
  intros E Hp Hfl Hs Hne Hst; unfold notsane_primary in Hs; rewrite E, Hfl, Hst in Hs; injection Hs as Hs.
  rewrite (proj2 (Z.eqb_neq _ _) Hne) in Hs; cbn [negb] in Hs; apply orb_false_iff in Hs as [Hs _].
  apply (range_test e 4294967296 Hp); rewrite Hs; apply Z.ltb_ge; pose proof (u32_range (start_lba e + part_length e)); lia.
Qed.

Lemma primary_total it : notsane_primary it = None -> dos_entry (data it) (Z.to_nat (index0 it)) = None.
Proof. unfold notsane_primary; destruct (dos_entry _ _); done. Qed.

Lemma mbr_any : forall fuel it, running it -> index0 it < 4 -> 4 - index0 it < Z.of_nat fuel ->
  exists it' r, dos_next_mbr fuel it = Some (it', r) /\
  match r with
  | Failed => status it' <> 0
  | Nothing => type it' = typedos /\ status it' = 0 /\ flags it' = fl /\ di it' = d /\ table_ok (data it') /\ index0 it' = 4 /\ bebr_index0 (dos it') < 4 /\
      bebr_lba (dos it') = 0 /\ (0 <= bebr_index0 (dos it') -> forall e, dos_entry (data it') (Z.to_nat (bebr_index0 (dos it'))) = Some e -> flag fl PIF_STRICT = true -> in_words e)
  | Found lba e rec => running it' /\ index0 it < index0 it' < 4 /\ lba = start_lba e /\
      (flag fl PIF_STRICT = true -> ostype e <> 0 -> in_words e)
  end.
Proof.
  induction fuel as [|fuel IH]; intros it Hr Hix Hfu; pose proof Hr as [(Ht & Hst & Hfl & Hdi) Hda Hi Hx Hm _]; [lia|].
  destruct (Hm Hix) as [Hbl He]; cbn [dos_next_mbr]; set (it1 := set_index0 (index0 it + 1) it).
  change (index0 it1 <? 4) with (index0 it + 1 <? 4); destruct (Z.ltb_spec (index0 it + 1) 4) as [Hlt|Hge].
  - destruct (entry_of (data it) (Z.to_nat (index0 it + 1)) Hda ltac:(lia)) as (e & Ee & Hpe).
    change (dos_entry (data it1) (Z.to_nat (index0 it1))) with (dos_entry (data it) (Z.to_nat (index0 it + 1))).
    destruct (notsane_primary it1) as [[]|] eqn:Es; [| |apply primary_total in Es; cbn in Es; congruence].
    1: do 2 eexists; split; [reflexivity|cbn; done].
    rewrite Ee; destruct (ost_is_ext (ostype e) && (0 <=? bebr_index0 (dos it1))) eqn:Eb; [do 2 eexists; split; [reflexivity|cbn; done]|].
    assert (Hsane : ostype e <> 0 -> flag fl PIF_STRICT = true -> in_words e) by (apply (sane_primary it1); done).
    set (it2 := if ost_is_ext (ostype e) then _ else it1).
    assert (Hr2 : running it2 /\ index0 it2 = index0 it + 1).
    { unfold it2; destruct (ost_is_ext (ostype e)) eqn:Ex; (split; [|reflexivity]); unfold it1; split;
        cbn [set_dos set_index0 type status flags di data index0 dos with_bebr_index0 bebr_index0 bebr_lba]; try done; try lia.
      - intros _; split; [done|]; intros _ e' Ee'; rewrite Ee in Ee'; injection Ee' as <-; intros Hs; apply Hsane; [|done].
        intros Hz; rewrite Hz in Ex; discriminate. }
    destruct Hr2 as [Hr2 Hix2]; destruct (negb _ || _).
    + do 2 eexists; split; [reflexivity|]; split; [exact Hr2|split; [lia|split; [done|tauto]]].
    + destruct (IH it2 Hr2 ltac:(lia) ltac:(lia)) as (it' & r & E & Hc); do 2 eexists; split; [exact E|].
      destruct r; [|exact Hc|exact Hc]; destruct Hc as (H1 & H2 & H3); split; [done|split; [lia|done]].
  - do 2 eexists; split; [reflexivity|]; unfold it1; cbn [set_index0 type status flags di data index0 dos]; 
    refine (conj Ht (conj Hst (conj Hfl (conj Hdi (conj Hda (conj _ (conj Hx (conj Hbl He)))))))); lia.
Qed.


(** Between two extended boot records, before the index is counted up. *)
Definition ebr_ready (it : part_iter) : Prop :=
  type it = typedos /\ status it = 0 /\ flags it = fl /\ di it = d /\ 3 <= index0 it < 1024 /\ bebr_index0 (dos it) < 4 /\
  (nebr_lba (dos it) <> 0 -> bebr_lba (dos it) <> 0) /\ is_u32 (nebr_lba (dos it)) /\
  (bebr_lba (dos it) <> 0 -> frame_ok it).

Lemma ebr_any : forall fuel it w, ebr_ready it -> 1024 - index0 it < Z.of_nat fuel ->
  exists it' r w', ebr_loop fuel it w = Some (it', r, w') /\
  match r with
  | Failed => status it' <> 0
  | Nothing => False
  | Found lba e rec => running it' /\ index0 it < index0 it' /\ 4 <= index0 it' /\
      (flag fl PIF_STRICT = true -> ostype e <> 0 -> 0 < part_length e /\ bebr_lba (dos it') < lba /\
         lba + part_length e <= bebr_lba (dos it') + bebr_siz (dos it'))
  end.
Proof.
  induction fuel as [|fuel IH]; intros it w Hr Hfu; pose proof Hr as (Ht & Hst & Hfl & Hdi & Hi & Hx & Hn & Hnx & Hf); [lia|].
  cbn [ebr_loop]; set (it1 := set_index0 (index0 it + 1) it); change (index0 it1 <? 1024) with (index0 it + 1 <? 1024).
  change (nebr_lba (dos it1)) with (nebr_lba (dos it)); change (di it1) with (di it); rewrite Hdi.
  destruct (Z.ltb_spec (index0 it + 1) 1024) as [Hlt|Hge]; cbn [andb]; [|do 3 eexists; split; [reflexivity|done]].
  destruct (Z.eqb_spec (nebr_lba (dos it)) 0) as [Hz|Hz]; cbn [negb]; [do 3 eexists; split; [reflexivity|done]|].
  specialize (Hn Hz); specialize (Hf Hn).
  destruct (read_sectors d (nebr_lba (dos it)) 1 w) as [[s|] w'] eqn:Er; [|do 3 eexists; split; [reflexivity|done]].
  apply (read_one d sector) in Er; [subst s|unfold is_u32 in Hnx; lia]; set (it2 := set_data _ it1).
  pose proof (sector_table (nebr_lba (dos it))) as Htab.
  destruct (entry_of _ 0 Htab ltac:(lia)) as (e & Ee & Hpe), (entry_of _ 1 Htab ltac:(lia)) as (l & El & Hpl).
  change (data it2) with (sector (nebr_lba (dos it))); rewrite Ee, El.
  destruct (notsane_logical it2) as [[]|] eqn:Es; [do 3 eexists; split; [reflexivity|done]| |
    unfold notsane_logical in Es; change (data it2) with (sector (nebr_lba (dos it))) in Es; rewrite Ee in Es; done].
  destruct (notsane_extended it2) as [[]|] eqn:Es2; [do 3 eexists; split; [reflexivity|done]| |
    unfold notsane_extended in Es2; change (data it2) with (sector (nebr_lba (dos it))) in Es2; rewrite El in Es2; done].
  assert (Hlog : flag fl PIF_STRICT = true -> ostype e <> 0 -> in_words e /\ start_lba e + part_length e <= nebr_siz (dos it)).
  { intros Hs Hne; unfold notsane_logical in Es; change (data it2) with (sector (nebr_lba (dos it))) in Es; rewrite Ee in Es.
    change (flags it2) with (flags it) in Es; rewrite Hfl, Hs, (proj2 (Z.eqb_neq _ _) Hne) in Es; destruct (ost_is_ext _); [done|].
    injection Es as Es; now apply range_test. }
  assert (Hlink : flag fl PIF_STRICT = true -> ostype l <> 0 -> in_words l /\ start_lba l + part_length l <= bebr_siz (dos it)).
  { intros Hs Hne; unfold notsane_extended in Es2; change (data it2) with (sector (nebr_lba (dos it))) in Es2; rewrite El in Es2.
    change (flags it2) with (flags it) in Es2; rewrite Hfl, Hs, (proj2 (Z.eqb_neq _ _) Hne) in Es2; destruct (ost_is_nondata _); [|done].
    injection Es2 as Es2; now apply range_test. }
  set (dd := next_frame e l (dos it2)); set (it3 := set_dos dd it2).
  assert (Hdd : bebr_lba dd = bebr_lba (dos it) /\ bebr_siz dd = bebr_siz (dos it) /\ bebr_index0 dd = bebr_index0 (dos it) /\
    cebr_lba dd = nebr_lba (dos it)) by (unfold dd, next_frame; destruct (negb _); repeat split; reflexivity).
  destruct Hdd as (Hd1 & Hd2 & Hd3 & Hd4).
  assert (Hnd : is_u32 (nebr_lba dd)) by (unfold dd, next_frame; destruct (negb _); [apply u32_range|split; reflexivity]).
  assert (Hfr : frame_ok it3).
  { intros Hs; destruct (Hf Hs) as (H1 & H2 & H3); change (dos it3) with dd; rewrite Hd1, Hd2; split; [done|split; [done|]].
    unfold dd, next_frame; destruct (Z.eqb_spec (ostype l) 0) as [Hl0|Hl0]; cbn [negb nebr_lba nebr_siz]; [now left|right].
    destruct (Hlink Hs Hl0) as [(Hw1 & Hw2 & Hw3) Hw4]; change (bebr_lba (dos it2)) with (bebr_lba (dos it)); rewrite u32_small by lia; lia. }
  change (flags it3) with (flags it); rewrite Hfl; destruct (negb (ostype e =? 0) || flag fl PIF_STEPALL).
  - do 3 eexists; split; [reflexivity|]; split; [|split; [|split]].
    + split; unfold it3, it2, it1; cbn [set_dos set_data set_index0 type status flags di data index0 dos]; try done; try lia.
      intros _; split; [rewrite Hd1; exact Hn|split; [exact Hnd|exact Hfr]].
    + unfold it3, it2, it1; cbn [set_dos set_data set_index0 index0]; lia.
    + unfold it3, it2, it1; cbn [set_dos set_data set_index0 index0]; lia.
    + intros Hs Hne; destruct (Hlog Hs Hne) as [(Hw1 & Hw2 & Hw3) Hw4]; destruct (Hf Hs) as (H1 & H2 & H3); change (dos it3) with dd; rewrite Hd1, Hd2, Hd4.
      destruct H3 as [H3|[H3 H4]]; [done|]; rewrite (proj2 (Z.eqb_neq (start_lba e) 0)) by lia; cbn [negb]; rewrite u32_small by lia; lia.
  - assert (Hr3 : ebr_ready it3).
    { refine (conj Ht (conj Hst (conj Hfl (conj Hdi (conj _ (conj _ (conj _ (conj Hnd (fun _ => Hfr)))))))));
        change (dos it3) with dd; rewrite ?Hd1, ?Hd3; [change (index0 it3) with (index0 it + 1); lia|exact Hx|intros _; exact Hn]. }
    destruct (IH it3 w' Hr3) as (it' & r & w'' & E & Hc); [unfold it3, it2, it1; cbn [set_dos set_data set_index0 index0]; lia|].
    do 3 eexists; split; [exact E|]; destruct r; [|done|exact Hc]; destruct Hc as (C1 & C2 & C3 & C4); split; [done|split; [|split; [done|done]]].
    revert C2; unfold it3, it2, it1; cbn [set_dos set_data set_index0 index0]; lia.
Qed.

Lemma set_part_running i lba n rec it : running it -> running (set_part i lba n rec it).
Proof. intros []; split; done. Qed.

Lemma next_any it w : running it ->
  exists it' w', pi_next it w = Some (it', w') /\
  (status it' <> 0 \/ running it' /\ index0 it < index0 it' /\ place_ok it').
Proof.
  intros Hr; pose proof Hr as [(Ht & Hst & Hfl & Hdi) Hda Hi Hx Hm He]; unfold pi_next; rewrite Ht; unfold pi_dos_next; rewrite Hst; cbn [Z.eqb negb].
  (* what follows when a search for logical partitions has begun *)
  assert (Hebr : forall it1, ebr_ready it1 -> index0 it <= index0 it1 \/ index0 it < 4 ->
    exists it' w', (let* (it, r, w) := ebr_loop 1025 it1 w in
      match r with
      | Failed => Some (it, w)
      | Nothing => None
      | Found lba dp rec => let index := if ostype dp =? 0 then -1 else index0 it + 1 - logskipcnt (dos it) in
          Some (set_part index lba (part_length dp) rec it, w)
      end) = Some (it', w') /\ (status it' <> 0 \/ running it' /\ index0 it < index0 it' /\ place_ok it')).
  { intros it1 Hr1 Hle; pose proof Hr1 as (_ & _ & _ & _ & Hi1 & _).
    destruct (ebr_any 1025 it1 w Hr1 ltac:(lia)) as (it' & r & w' & E & Hc); rewrite E; destruct r as [lba e rec| |]; [|done|].
    - destruct Hc as (C1 & C2 & C3 & C4); do 2 eexists; split; [reflexivity|right].
      split; [now apply set_part_running|]; split; [cbn [set_part index0]; lia|].
      intros Hs Hne; cbn [set_part index abs_lba length_ index0 dos] in *; destruct (Z.eqb_spec (ostype e) 0) as [|Ho]; [done|].
      destruct (C4 Hs Ho) as (P1 & P2 & P3); destruct (ru_ebr _ C1 C3) as (_ & _ & Hf); destruct (Hf Hs) as (F1 & F2 & _); repeat split; lia.
    - do 2 eexists; split; [reflexivity|left; exact Hc]. }
  destruct (Z.ltb_spec (index0 it) 4) as [Hlt|Hge].
  - destruct (mbr_any 6 it Hr Hlt ltac:(lia)) as (it1 & r & E & Hc); rewrite E; destruct r as [lba e rec| |].
    + destruct Hc as (C1 & C2 & -> & C4); rewrite (proj2 (Z.leb_gt 4 _)) by lia; do 2 eexists; split; [reflexivity|right].
      split; [now apply set_part_running|]; split; [cbn [set_part index0]; lia|].
      intros Hs Hne; cbn [set_part index abs_lba length_ index0 dos] in *; destruct (Z.eqb_spec (ostype e) 0) as [|Ho]; [done|].
      destruct (C4 Hs Ho) as (P1 & P2 & P3); repeat split; try lia.
    + destruct Hc as (C1 & C2 & C3 & C4 & C5 & C6 & C7 & C8 & C9); rewrite C6; change (4 <=? 4) with true; cbv iota; unfold dos_next_ebr, prep_base_ebr.
      destruct (Z.ltb_spec (bebr_index0 (dos it1)) 0) as [Hn|Hn]; [do 2 eexists; split; [reflexivity|left; cbn; done]|].
      rewrite C8; change (0 =? 0) with true; cbv iota.
      destruct (entry_of (data it1) (Z.to_nat (bebr_index0 (dos it1))) C5 ltac:(lia)) as (e & Ee & Hpe); rewrite Ee.
      apply Hebr; [|right; exact Hlt].
      refine (conj C1 (conj C2 (conj C3 (conj C4 (conj _ (conj C7 (conj _ (conj (proj1 (proj2 Hpe)) _)))))))); cbn [set_index0 set_dos index0 dos nebr_lba bebr_lba]; [lia|auto|].
      intros _ Hs; destruct (C9 Hn e Ee Hs) as (W1 & W2 & W3); cbn [set_index0 set_dos dos bebr_lba bebr_siz nebr_lba nebr_siz]; split; [lia|split; [lia|right; lia]].
    + do 2 eexists; split; [reflexivity|left; exact Hc].
  - rewrite (proj2 (Z.leb_le 4 _)) by lia; destruct (He Hge) as (Hb & Hnx & Hf); unfold dos_next_ebr, prep_base_ebr.
    destruct (bebr_index0 (dos it) <? 0); [do 2 eexists; split; [reflexivity|left; cbn; done]|].
    rewrite (proj2 (Z.eqb_neq _ _) Hb); apply Hebr; [|left; lia].
    refine (conj Ht (conj Hst (conj Hfl (conj Hdi (conj _ (conj Hx (conj (fun _ => Hb) (conj Hnx (fun _ => Hf))))))))); lia.
Qed.

Lemma listing_any : forall fuel it w, running it -> 1024 - index0 it < Z.of_nat fuel ->
  exists l st w', listing id fuel it w = Some (l, st, w') /\ st <> 0 /\ Forall place_ok l.
Proof.
  induction fuel as [|fuel IH]; intros it w Hr Hfu; [pose proof (ru_index _ Hr); lia|]; cbn [listing].
  destruct (next_any it w Hr) as (it' & w' & -> & [Hst|(Hr' & Hlt & Hp)]).
  - rewrite (proj2 (Z.eqb_neq _ _) Hst); do 3 eexists; split; [reflexivity|split; [exact Hst|constructor]].
  - rewrite (proj1 (proj2 (ru_kind _ Hr'))); cbn [Z.eqb negb].
    destruct (IH it' w' Hr' ltac:(lia)) as (l & st & w'' & -> & Hne & Hall); do 3 eexists; split; [reflexivity|split; [exact Hne|now constructor]].
Qed.

Lemma begin_any crc w it w' : pi_begin crc d fl w = Some (Some it, w') -> type it = typedos -> running it.
Proof.
  assert (Hdos : forall u, pi_dos_ctor d fl (sector 0) u = Some (Some it, w') -> running it).
  { intros u; unfold pi_dos_ctor; destruct (may_alloc u) as [[] u']; [|done]; destruct (sector_table 0) as [Hl Hb].
    rewrite peek_ok by lia; unfold slice; rewrite drop_0; destruct (mbr_disk_sig _); [|done]; intros [= <- _].
    split; cbn [type status flags di data index0 dos bebr_index0 bebr_lba]; try done; try lia.
    split; [rewrite length_take; lia|now apply Forall_take]. }
  unfold pi_begin; destruct (may_alloc w) as [[] w1]; cbn [negb]; [|done].
  destruct (read_sectors d 0 1 w1) as [[s|] w2] eqn:Er; [|done]; apply (read_one d sector) in Er; [|lia]; subst s.
  destruct (mbr_sig _) as [sig|]; [|done]; destruct (negb (sig =? 0xAA55)); [intros [= <- _] Ht; discriminate|].
  destruct (protective _) as [g|]; [|done]; destruct (g && _).
  - destruct (let* (h, w) := try_gpt_hdr crc d false w2 in _) as [[[buf|] w3]|]; [|done|done].
    destruct (read_header buf) as [gh|]; [|done]; destruct (_ && _); [|intros E _; exact (Hdos _ E)].
    destruct (notsane_gpt_hdr _ _ _); [done|]; destruct (try_gpt_list _ _ _ _ _) as [[l w4]|]; [|done].
    destruct (match l with Some _ => _ | None => _ end) as [[[l'|] w5]|]; [|done|done].
    unfold pi_gpt_ctor; destruct (may_alloc w5) as [[] w6]; [|done]; destruct (peek _ _ _); [|done]; intros [= <- _] Ht; discriminate.
  - intros E _; exact (Hdos _ E).
Qed.
End any_disk.

(** C18: whatever is on a disk that is taken for one with an MBR - extended records that
    form a circle, point anywhere or hold garbage - the iteration makes no access outside
    of a sector and comes to an end; and in strict mode each partition it shows has a
    place that is not empty and does not wrap around, a logical one inside of the
    extended partition. *)
Theorem mbr_iteration_safe {W} `{HR : DiskReader W} d sector `{!DiskReaderLaws W d sector} crc fl w it w' :
  512 <= bps d -> (forall lba, Forall is_byte (sector lba)) ->
  pi_begin crc d fl w = Some (Some it, w') -> type it = typedos ->
  exists l st w'', listing id 1026 it w' = Some (l, st, w'') /\ st <> 0 /\ Forall (place_ok fl) l.
Proof.
  intros Hb Hbytes Hbeg Ht; pose proof (begin_any d sector Hbytes Hb fl crc w it w' Hbeg Ht) as Hr.
  apply (listing_any d sector Hbytes Hb fl 1026 it w' Hr); pose proof (ru_index _ _ _ Hr); lia.
Qed.

(** ** Two small disks *)

Definition demo_entry (t s n : Z) : list Z := [0; 0; 0; 0; t; 0; 0; 0] ++ bytes_32 s ++ bytes_32 n.
Definition demo_table (es : list (list Z)) : list Z := replicate 446 0 ++ concat es ++ [0x55; 0xAA].
Definition no_entry : list Z := replicate 16 0.
Definition demo_info : disk_info := Disk_info 0x80 true true 512 1000 1 16 63.

(** A primary partition, and two logical ones in an extended one. *)
Definition demo_mbr (lba : Z) : list Z :=
  if lba =? 0 then demo_table [demo_entry 131 100 50; demo_entry 5 200 300; no_entry; no_entry]
  else if lba =? 200 then demo_table [demo_entry 131 10 20; demo_entry 5 60 40; no_entry; no_entry]
  else if lba =? 260 then demo_table [demo_entry 130 5 10; no_entry; no_entry; no_entry]
  else replicate 512 0.

(** A disk whose sectors can all be read. *)
Definition demo_reader (sector : Z -> list Z) : DiskReader () := {|
  read_sectors _ lba count w := (Some (concat (map (fun i => sector (lba + Z.of_nat i)) (seq 0 (Z.to_nat count)))), w);
  may_alloc w := (true, w)
|}.

Lemma demo_laws sector : (forall lba, length (sector lba) = 512%nat) -> @DiskReaderLaws () (demo_reader sector) demo_info sector.
Proof. intros Hl; split; [exact Hl|]; intros lba count w data w' _ _ _ [= <- _]; reflexivity. Qed.

Lemma demo_mbr_ok lba : length (demo_mbr lba) = 512%nat /\ Forall is_byte (demo_mbr lba).
Proof.
  unfold demo_mbr; repeat (destruct (lba =? _)); (split; [vm_compute; reflexivity|apply bytes_ok; vm_compute; reflexivity]).
Qed.

Definition demo_slots : list dos_part := [Dos_part 131 100 50; Dos_part 5 200 300; Dos_part 0 0 0; Dos_part 0 0 0].
Definition demo_logicals : list (Z * dos_part) := [(200, Dos_part 131 10 20); (260, Dos_part 130 5 10)].

Lemma demo_layout sector : (forall lba, sector lba = demo_mbr lba) -> mbr_layout demo_info sector PIF_STRICT demo_slots demo_logicals.
Proof.
  intros Hs;   split; try rewrite !Hs.
  - split; [vm_compute; discriminate|intros lba; rewrite Hs; apply demo_mbr_ok].
  - vm_compute; reflexivity.
  - right; repeat constructor; cbn; lia.
  - reflexivity.
  - intros k Hk; do 4 (destruct k as [|k]; [vm_compute; reflexivity|]); lia.
  - unfold demo_slots; rewrite !Forall_cons; refine (conj _ (conj _ (conj _ (conj _ (Forall_nil_2 _))))); intros Hne Hst; cbn in *; try lia; (split; [unfold in_words; cbn; lia|intros H; discriminate]).
  - intros i j e e' Hi Hj Hx Hx'; assert (Hone : forall k f, demo_slots !! k = Some f -> is_ext f -> k = 1%nat).
    { intros k f Hk Hf; do 4 (destruct k as [|k]; [injection Hk as <-; cbn in Hf; (done || discriminate)|]); done. }
    rewrite (Hone i e Hi Hx), (Hone j e' Hj Hx'); reflexivity.
  - right; exists 1%nat, (Dos_part 5 200 300); split; [reflexivity|split; [reflexivity|]].
    apply (frames_cons sector PIF_STRICT 200 300 200 300 (Dos_part 131 10 20) (Dos_part 5 60 40) 260 40);
      [lia|rewrite Hs; vm_compute; reflexivity|rewrite Hs; vm_compute; reflexivity| | |reflexivity|].
    1, 2: intros _; split; [(reflexivity || (intros H; discriminate))|intros _; unfold in_words; cbn; lia].
    apply (frames_cons sector PIF_STRICT 200 300 260 40 (Dos_part 130 5 10) (Dos_part 0 0 0) 0 0);
      [lia|rewrite Hs; vm_compute; reflexivity|rewrite Hs; vm_compute; reflexivity| | |reflexivity|apply frames_end].
    + intros _; split; [intros H; discriminate|intros _; unfold in_words; cbn; lia].
    + intros H; cbn in H; lia.
  - cbn; lia.
Qed.

Definition no_crc (l : list Z) : Z := 0.

(** The same disk behind a BIOS. *)
Definition demo_machine : machine toy :=
  (disk_get_params 0x80 (Machine (Toy (fun _ => 0) (fun i j => byte_at (demo_mbr i) (Z.to_nat j)) 0x1000) None)).2.

Lemma demo_sectors f k lba : toy_sector (Toy f (fun i j => byte_at (demo_mbr i) (Z.to_nat j)) k) lba = demo_mbr lba.
Proof.
  unfold toy_sector; cbn [t_disk]; destruct (demo_mbr_ok lba) as [Hl _]; revert Hl; generalize (demo_mbr lba); intros s Hl; rewrite <- Hl.
  apply list_eq; intros i; destruct (decide (i < length s)%nat) as [Hi|Hi].
  - rewrite list_lookup_fmap, lookup_seq_lt by lia; cbn [fmap option_fmap option_map]; rewrite Nat2Z.id; unfold byte_at; cbn [Nat.add].
    destruct (lookup_lt_is_Some_2 s i Hi) as [b ->]; reflexivity.
  - rewrite !lookup_ge_None_2; [done|lia|rewrite length_map, length_seq; lia].
Qed.


(** The iterator at its beginning. *)
Definition demo_iter : part_iter :=
  match @pi_begin () (demo_reader demo_mbr) no_crc demo_info PIF_STRICT () with
  | Some (Some it, _) => it
  | _ => pi_ctor demo_info 0
  end.

Lemma mbr_iteration_safe_witness :
  let _ := demo_reader demo_mbr in
  exists l st w'', listing id 1026 demo_iter () = Some (l, st, w'') /\ st <> 0 /\ Forall (place_ok PIF_STRICT) l.
Proof.
  intros R; apply (@mbr_iteration_safe () R demo_info demo_mbr (demo_laws demo_mbr (fun lba => proj1 (demo_mbr_ok lba))) no_crc PIF_STRICT () demo_iter ());
    [vm_compute; discriminate|apply demo_mbr_ok|vm_compute; reflexivity|vm_compute; reflexivity].
Defined.

(** A table of two entries, one of them used, behind a header whose second copy is
    damaged.  The checksum is a sum. *)
Definition sum_crc (l : list Z) : Z := u32 (foldr Z.add 0 l).
Definition demo_gpt_table : list Z :=
  replicate 16 1 ++ replicate 16 2 ++ bytes_32 40 ++ bytes_32 0 ++ bytes_32 49 ++ bytes_32 0 ++ replicate 8 0 ++
  [65; 0; 66; 0] ++ replicate 68 0 ++ replicate 128 0 ++ replicate 256 0.
Definition demo_header_at (sum : Z) : list Z :=
  gpt_sig_magic ++ bytes_32 0x10000 ++ bytes_32 92 ++ bytes_32 sum ++ bytes_32 0 ++
  bytes_32 1 ++ bytes_32 0 ++ bytes_32 999 ++ bytes_32 0 ++ bytes_32 34 ++ bytes_32 0 ++ bytes_32 900 ++ bytes_32 0 ++
  replicate 16 3 ++ bytes_32 2 ++ bytes_32 0 ++ bytes_32 2 ++ bytes_32 128 ++ bytes_32 (sum_crc demo_gpt_table) ++ replicate 420 0.
Definition demo_header : list Z := demo_header_at (sum_crc (take 92 (demo_header_at 0))).
Definition demo_gpt (lba : Z) : list Z :=
  if lba =? 0 then demo_table [demo_entry 0xEE 1 999; no_entry; no_entry; no_entry]
  else if lba =? 1 then demo_header
  else if lba =? 2 then demo_gpt_table
  else replicate 16 0 ++ [1] ++ replicate 495 0.

Definition demo_gpt_entries : list gpt_part :=
  [Gpt_part false 40 49 (replicate 16 2) ([65; 66] ++ replicate 35 0); Gpt_part true 0 0 (replicate 16 0) (replicate 37 0)].

Lemma demo_gpt_length lba : length (demo_gpt lba) = 512%nat.
Proof. unfold demo_gpt; repeat (destruct (lba =? _)); vm_compute; reflexivity. Qed.

Definition demo_gpt_header : gpt_header :=
  Gpt_header gpt_sig_magic 0x10000 92 (sum_crc (take 92 (demo_header_at 0))) 1 999 34 900 (replicate 16 3) 2 2 128 (sum_crc demo_gpt_table).

Lemma demo_header_ok : header_ok demo_info demo_gpt sum_crc PIF_STRICT demo_gpt_entries demo_gpt_header.
Proof.
  split; try (split; reflexivity).
  - split; [cbn; lia|split; [reflexivity|split; [vm_compute; split; reflexivity|vm_compute; discriminate]]].
  - split; [intros place [->| ->]; vm_compute; (split; [discriminate|reflexivity])|cbn; lia].
  - intros _; refine (conj _ (conj _ (conj (or_introl _) (conj _ _)))); first [vm_compute; discriminate|vm_compute; reflexivity].
  - intros place [->| ->] Hsum; [|exfalso; revert Hsum; vm_compute; discriminate].
    split; [cbn; lia| |].
    + intros i e Hi; do 2 (destruct i as [|i]; [injection Hi as <-; vm_compute; reflexivity|]); done.
    + intros e He Hu _; unfold demo_gpt_entries in He; rewrite !elem_of_cons, elem_of_nil in He; destruct He as [->|[->|[]]]; [cbn; lia|discriminate].
Qed.

Lemma demo_gpt_layout : gpt_layout demo_info demo_gpt sum_crc PIF_STRICT demo_gpt_entries.
Proof.
  split; [cbn; lia|repeat split; vm_compute; reflexivity|].
  intros lba [->| ->].
  - right; split; [vm_compute; reflexivity|exists demo_gpt_header; split; [vm_compute; reflexivity|exact demo_header_ok]].
  - left; vm_compute; reflexivity.
Qed.

Lemma gpt_partitions_listed_witness :
  let _ := demo_reader demo_gpt in
  exists it w', pi_begin sum_crc demo_info PIF_STRICT () = Some (Some it, w') /\ forall fuel, (3 < fuel)%nat ->
    listing gpt_line_of fuel it w' = Some ([(1, 40, 10, replicate 16 2, [65; 66] ++ replicate 35 0)], PI_DONE, w').
Proof.
  intros R; destruct (@gpt_partitions_listed () R demo_info demo_gpt (demo_laws demo_gpt demo_gpt_length) sum_crc PIF_STRICT demo_gpt_entries () demo_gpt_layout)
    as (r & w' & E & Hr); destruct r as [it|]; [exists it, w'; split; [exact E|exact Hr]|].
  assert (Hread : forall w lba n, ~ @unreadable () R demo_info w lba n) by (intros w lba n (w1 & _ & H); discriminate H).
  assert (Hgood : ~ @lost_header () R demo_info demo_gpt sum_crc () 1) by (intros [H|H]; [exact (Hread _ _ _ H)|vm_compute in H; discriminate H]).
  exfalso; destruct Hr as [(w1 & _ & H)|[H|[H|(lba & g & _ & H1 & _ & H2 & H3 & _)]]].
  - discriminate H.
  - exact (Hread _ _ _ H).
  - apply Hgood, H; now left.
  - destruct (decide (lba = 1)) as [->|Hne]; [|exact (Hgood (H1 Hne))].
    assert (g = demo_gpt_header) as -> by (vm_compute in H2; injection H2 as <-; reflexivity).
    destruct H3 as [H3|H3]; [exact (Hread _ _ _ H3)|apply H3; vm_compute; reflexivity].
Defined.
