(* ===== verification/E820.v ===== *)
(** * The memory map of MEMDISK: memdisk/e820func.c, msetup.c, setup.c

    A sorted array of ranges, each of them from its start to the start of the next,
    with an entry of type -1 at the end.  What the BIOS reports is laid over it, the
    sizes of memory are read from it, and a place for the disk image is chosen in it. *)

From S2P Require Import Prelude.

Open Scope word_scope.

(** ** The database of ranges *)

(** [src/memdisk/e820func.c:27-27 MAXRANGES] *)
Definition MAXRANGES : nat := 1024.

(** The type at the end of the map, [-1U]. *)
Definition END_TYPE : Z := 4294967295.

(** A range is its start, of 64 bits, and its type (e820.h, struct e820range). *)
Notation e820range := (Z * Z)%type.

(** [src/memdisk/e820func.c:29-30 ranges] *)
Record e820map := Map { ranges : list e820range; nranges : nat }.

(** A store into the array. *)
Definition put (i : nat) (r : e820range) (rs : list e820range) : option (list e820range) :=
  if decide (i < length rs)%nat then Some (<[i := r]> rs) else None.

(** [src/memdisk/e820func.c:31-36 e820map_init] *)
Definition e820map_init : e820map := Map (<[1%nat := (0, END_TYPE)]> (replicate MAXRANGES (0, 0))) 1.

(** [n] entries, the last of them [i], each from the one below it.
    [src/memdisk/e820func.c:42-43 insertrange_at] *)
Fixpoint shift_up (n i : nat) (rs : list e820range) : option (list e820range) :=
  match n with
  | O => Some rs
  | S n =>
      let* r := rs !! (i - 1)%nat in
      let* rs := put i r rs in
      shift_up n (i - 1) rs
  end.

(** [src/memdisk/e820func.c:38-51 insertrange_at] *)
Definition insertrange_at (where_ : nat) (start type : Z) (m : e820map) : option e820map :=
  let* rs := shift_up (nranges m - where_) (nranges m) (ranges m) in
  let* rs := put where_ (start, type) rs in
  let n := S (nranges m) in
  let* rs := put n (0, END_TYPE) rs in
  Some (Map rs n).

(** The first range that does not begin before [start], and the type of the one
    before it.
    [src/memdisk/e820func.c:65-70 insertrange] *)
Fixpoint seek (fuel : nat) (start : Z) (i : nat) (oldtype : Z) (rs : list e820range) : option (nat * Z) :=
  match fuel with
  | O => None
  | S fuel =>
      let* r := rs !! i in
      if (r.1 <? start) && negb (r.2 =? END_TYPE) then seek fuel start (S i) r.2 rs
      else Some (i, oldtype)
  end.

(** The ranges that begin within the new one take its type.
    [src/memdisk/e820func.c:77-81 insertrange] *)
Fixpoint overwrite (fuel : nat) (last type : Z) (i : nat) (oldtype : Z) (rs : list e820range)
  : option (nat * Z * list e820range) :=
  match fuel with
  | O => None
  | S fuel =>
      let* r := rs !! i in
      if (i =? 0)%nat || (u64 (r.1 - 1) <? last) then
        let* rs := put i (r.1, type) rs in
        overwrite fuel last type (S i) r.2 rs
      else Some (i, oldtype, rs)
  end.

(** [src/memdisk/e820func.c:88-100 insertrange] *)
Fixpoint squeeze (fuel : nat) (n i j : nat) (oldtype : Z) (rs : list e820range)
  : option (nat * nat * list e820range) :=
  match fuel with
  | O => None
  | S fuel =>
      if (i <? n)%nat then
        let* r := rs !! i in
        if r.2 =? oldtype then squeeze fuel n (S i) j oldtype rs
        else
          let* rs := if (i =? j)%nat then Some rs else put j r rs in
          squeeze fuel n (S i) (S j) r.2 rs
      else Some (i, j, rs)
  end.

(** [src/memdisk/e820func.c:86-106 insertrange] *)
Definition remove_redundant (m : e820map) : option e820map :=
  let* r := ranges m !! 0%nat in
  let* (i, j, rs) := squeeze (S MAXRANGES) (nranges m) 1 1 r.2 (ranges m) in
  if (i =? j)%nat then Some (Map rs (nranges m))
  else
    let* r := rs !! i in
    let* rs := put j r rs in
    Some (Map rs (nranges m - (i - j))).

(** [None] is an access past the array.
    [src/memdisk/e820func.c:53-107 insertrange] *)
Definition insertrange (start len type : Z) (m : e820map) : option e820map :=
  if len =? 0 then Some m
  else
    let last := u64 (start + len - 1) in
    let* (i, oldtype) := seek (S MAXRANGES) start 0 4294967294 (ranges m) in
    let* r := ranges m !! i in
    let* (i, m) :=
      if (start <? r.1) || (r.2 =? END_TYPE) then
        let* m := insertrange_at i start type m in Some (S i, m)
      else Some (i, m) in
    let* (i, oldtype, rs) := overwrite (S MAXRANGES) last type i oldtype (ranges m) in
    let m := Map rs (nranges m) in
    let* r := rs !! i in
    let* m := if last <? u64 (r.1 - 1) then insertrange_at i (u64 (last + 1)) oldtype m else Some m in
    remove_redundant m.

(** ** Filling and reading the map *)

(** What the BIOS answers to INT 15h, E820: the registers and the buffer. *)
Record e820_answer := Answer {
  a_eax : Z; a_carry : bool; a_ecx : Z; a_ebx : Z; a_base : Z; a_len : Z; a_type : Z }.

(** The answers come one after the other; none are left when the BIOS stops
    answering, which it need not.
    [src/memdisk/msetup.c:36-71 get_e820] *)
Fixpoint get_e820 (bios : list e820_answer) (range_count : nat) (m : e820map) : option (bool * e820map) :=
  match bios with
  | [] => None
  | a :: bios =>
      let copied := if a_carry a then 0 else a_ecx a in
      if negb (a_eax a =? 0x534d4150) || (copied <? 20) then Some ((range_count =? 0)%nat, m)
      else
        let* m := insertrange (a_base a) (a_len a) (a_type a) m in
        if negb (a_ebx a =? 0) then get_e820 bios (S range_count) m else Some (false, m)
  end.

(** The kilobytes INT 12h answers. [src/memdisk/msetup.c:73-82 get_dos_mem] *)
Definition get_dos_mem (ax : Z) (m : e820map) : option e820map := insertrange 0 (u32 (Z.shiftl ax 10)) 1 m.

(** [None] for the registers: the carry flag.
    [src/memdisk/msetup.c:84-108 get_e801] *)
Definition get_e801 (r : option (Z * Z)) (m : e820map) : option (bool * e820map) :=
  match r with
  | None => Some (true, m)
  | Some (ax, bx) =>
      let* m := if negb (ax =? 0) then insertrange 0x100000 (u32 (Z.shiftl ax 10)) 1 m else Some m in
      let* m := if negb (bx =? 0) then insertrange 0x1000000 (u32 (Z.shiftl bx 16)) 1 m else Some m in
      Some (false, m)
  end.

(** [src/memdisk/msetup.c:110-130 get_88] *)
Definition get_88 (r : option Z) (m : e820map) : option (bool * e820map) :=
  match r with
  | None => Some (true, m)
  | Some ax =>
      let* m := if negb (ax =? 0) then insertrange 0x100000 (u32 (Z.shiftl ax 10)) 1 m else Some m in
      Some (false, m)
  end.

(** [Some None] is the end of the program.
    [src/memdisk/msetup.c:132-142 get_mem] *)
Definition get_mem (bios : list e820_answer) (int12 : Z) (e801 : option (Z * Z)) (int88 : option Z)
    (m : e820map) : option (option e820map) :=
  let* (failed, m) := get_e820 bios 0 m in
  if failed then
    let* m := get_dos_mem int12 m in
    let* (failed, m) := get_e801 e801 m in
    if failed then
      let* (failed, m) := get_88 int88 m in
      if failed then Some None else Some (Some m)
    else Some (Some m)
  else Some (Some m).

Record mem_sizes := Sizes { dos_mem : Z; low_mem : Z; high_mem : Z }.

Definition PW (x : Z) : Z := 2 ^ x.

(** One range and the start of the next.
    [src/memdisk/msetup.c:156-175 parse_mem] *)
Definition parse_range (start type next : Z) (s : mem_sizes) : mem_sizes :=
  if type =? 1 then
    let dos := if start =? 0 then (if PW 20 <? next then PW 20 else u32 next) else dos_mem s in
    let low :=
      if (start <=? PW 20) && (PW 20 <? next)
      then (if PW 24 <? next then PW 24 - PW 20 else u32 (next - PW 20)) else low_mem s in
    let high :=
      if (start <=? PW 24) && (PW 24 <? next)
      then (if PW 32 <? next then PW 32 - PW 24 else u32 (next - PW 24)) else high_mem s in
    Sizes dos low high
  else s.

(** [src/memdisk/msetup.c:155-177 parse_mem] *)
Fixpoint parse_loop (rs : list e820range) (s : mem_sizes) : option mem_sizes :=
  match rs with
  | [] => None
  | (start, type) :: rs =>
      if type =? END_TYPE then Some s
      else
        let* next := head rs in
        parse_loop rs (parse_range start type next.1 s)
  end.

(** [src/memdisk/msetup.c:148-178 parse_mem] *)
Definition parse_mem (m : e820map) : option mem_sizes := parse_loop (ranges m) (Sizes 0 0 0).

(** The walk of the ranges by [ep], while they are changed.
    [src/memdisk/setup.c:736-746 setmaxmem] *)
Fixpoint restrict (fuel : nat) (restop : Z) (ep : nat) (m : e820map) : option e820map :=
  match fuel with
  | O => None
  | S fuel =>
      let* r := ranges m !! ep in
      if r.2 =? END_TYPE then Some m
      else
        let* next := ranges m !! S ep in
        let* m :=
          if r.2 =? 1 then
            if restop <=? r.1 then
              let* rs := put ep (r.1, 2) (ranges m) in Some (Map rs (nranges m))
            else if restop <? next.1 then insertrange restop (next.1 - restop) 2 m
            else Some m
          else Some m in
        restrict fuel restop (S ep) m
  end.

(** [src/memdisk/setup.c:725-748 setmaxmem] *)
Definition setmaxmem (restop_ull : Z) (m : e820map) : option (e820map * mem_sizes) :=
  let restop := Z.min restop_ull 4294967295 in
  let* m := restrict (S MAXRANGES) restop 0 m in
  let* s := parse_mem m in
  Some (m, s).

(** Null ranges at the end are taken for the end.
    [src/memdisk/setup.c:1044-1050 setup] *)
Fixpoint drop_null (n : nat) (rs : list e820range) : option e820map :=
  match n with
  | O => Some (Map rs 0)
  | S n =>
      let* r := rs !! n in
      if r.2 =? 0 then let* rs := put n (r.1, END_TYPE) rs in drop_null n rs
      else Some (Map rs (S n))
  end.

(** [src/memdisk/setup.c:122-122 UNZIP_ALIGN] *)
Definition UNZIP_ALIGN : Z := 512.

(** One range: the place of the image and that of the compressed data, or nothing.
    The address [_end] is tested, but the result is overwritten.
    [src/memdisk/setup.c:160-220 unzip_if_needed] *)
Definition place_in (start next where_ size gzdatasize : Z) : option (Z * Z) :=
  if 0xffffffff <=? start then None
  else
    let endrange := if (0xffffffff <=? next) || (next =? 0) then 0xffffffff else u32 next in
    let startrange := u32 (Z.land (u64 (start + (UNZIP_ALIGN - 1))) (18446744073709551616 - UNZIP_ALIGN)) in
    if endrange <=? startrange then None
    else if endrange - startrange <? gzdatasize then None
    else
      let gzwhere := align_down (endrange ⊟ gzdatasize) UNZIP_ALIGN in
      if (gzwhere <=? where_ + size) && (where_ <? endrange) then
        if (gzwhere ⊟ startrange) <? size then None
        else Some (gzwhere, align_down (gzwhere ⊟ size) UNZIP_ALIGN)
      else Some (gzwhere, where_).

(** From the last range down; [Some None]: not enough memory.
    [src/memdisk/setup.c:150-223 unzip_if_needed] *)
Fixpoint find_place (i : nat) (where_ size gzdatasize : Z) (rs : list e820range) : option (option (Z * Z)) :=
  match i with
  | O => Some None
  | S i =>
      let* r := rs !! i in
      let* next := rs !! S i in
      match (if r.2 =? 1 then place_in r.1 next.1 where_ size gzdatasize else None) with
      | Some p => Some (Some p)
      | None => find_place i where_ size gzdatasize rs
      end
  end.

(** ** The abstract map: the type of every address *)

Fixpoint type_at (l : list e820range) (a d : Z) : Z :=
  match l with
  | [] => d
  | (s, t) :: l => if s <=? a then type_at l a t else d
  end.

Definition TOP : Z := 18446744073709551616.

(** Starts that grow, from [lo] on; types that do not end the map. *)
Fixpoint sorted_from (lo : Z) (l : list e820range) : Prop :=
  match l with
  | [] => True
  | (s, t) :: l => lo <= s < TOP /\ 0 <= t < END_TYPE /\ sorted_from (s + 1) l
  end.

(** A map of all addresses. *)
Definition map_ok (l : list e820range) : Prop :=
  sorted_from 0 l /\ match l with [] => False | (s, _) :: _ => s = 0 end.

(** No two neighbours are of one type. *)
Fixpoint canonical (l : list e820range) : Prop :=
  match l with
  | (_, t) :: l => match l with (_, t') :: _ => t <> t' | [] => True end /\ canonical l
  | [] => True
  end.

(** The array holds the map and its end. *)
Definition holds (m : e820map) (l : list e820range) : Prop :=
  length (ranges m) = MAXRANGES /\ nranges m = length l /\
  exists g, ranges m = l ++ (0, END_TYPE) :: g.

(** What [insertrange] makes of the list, before redundant ranges are removed: the
    part from [start] on, of which [old] is the type before. *)
Fixpoint lay_over (l : list e820range) (last type old : Z) : list e820range :=
  match l with
  | [] => if last <? TOP - 1 then [(last + 1, old)] else []
  | (s, t) :: l' =>
      if s <=? last then (s, type) :: lay_over l' last type t
      else if last + 1 <? s then (last + 1, old) :: l else l
  end.

Fixpoint lay (l : list e820range) (start last type old : Z) : list e820range :=
  match l with
  | [] => (start, type) :: lay_over [] last type old
  | (s, t) :: l' =>
      if s <? start then (s, t) :: lay l' start last type t
      else if start <? s then (start, type) :: lay_over l last type old
      else lay_over l last type old
  end.

Fixpoint compact_from (t : Z) (l : list e820range) : list e820range :=
  match l with
  | [] => []
  | (s, t') :: l => if t' =? t then compact_from t l else (s, t') :: compact_from t' l
  end.

Definition compact (l : list e820range) : list e820range :=
  match l with [] => [] | (s, t) :: l => (s, t) :: compact_from t l end.

(** ** The list that is made *)

Lemma sorted_weaken l lo lo' : lo' <= lo -> sorted_from lo l -> sorted_from lo' l.
Proof. destruct l as [|[s t] l]; cbn; [done|intros; intuition lia]. Qed.

Lemma type_at_below l : forall lo a d, sorted_from lo l -> a < lo -> type_at l a d = d.
Proof. destruct l as [|[s t] l]; cbn; [done|]; intros lo a d H Ha; now rewrite (proj2 (Z.leb_gt s a)) by lia. Qed.

Lemma type_at_lay_over l : forall lo last type old a,
  sorted_from lo l -> 0 <= a < TOP -> last < TOP ->
  type_at (lay_over l last type old) a type = if a <=? last then type else type_at l a old.
Proof.
  induction l as [|[s t] l IH]; intros lo last type old a Hl Ha Hlast; cbn [lay_over sorted_from] in *.
  - destruct (Z.ltb_spec last (TOP - 1)); cbn [type_at];
      destruct (Z.leb_spec a last); try (destruct (Z.leb_spec (last + 1) a)); lia || done.
  - destruct Hl as (Hs & Ht & Hl); destruct (Z.leb_spec s last); cbn [type_at].
    + destruct (Z.leb_spec s a); [rewrite (IH (s + 1)) by auto; zdec; lia|].
      now rewrite (proj2 (Z.leb_le a last)) by lia.
    + destruct (Z.ltb_spec (last + 1) s); cbn [type_at].
      * destruct (Z.leb_spec (last + 1) a), (Z.leb_spec a last); try lia; done.
      * destruct (Z.leb_spec s a), (Z.leb_spec a last); try lia; done.
Qed.

Lemma type_at_lay l : forall lo start last type old a,
  sorted_from lo l -> 0 <= a < TOP -> start <= last < TOP ->
  type_at (lay l start last type old) a old =
    if (start <=? a) && (a <=? last) then type else type_at l a old.
Proof.
  induction l as [|[s t] l IH]; intros lo start last type old a Hl Ha Hb.
  - cbn [lay type_at]; destruct (Z.leb_spec start a); [|done].
    exact (type_at_lay_over [] lo last type old a Hl Ha ltac:(lia)).
  - cbn [lay]; pose proof Hl as (Hs & Ht & Hl'); destruct (Z.ltb_spec s start); [|destruct (Z.ltb_spec start s)].
    + cbn [type_at]; rewrite (IH (s + 1)) by auto; destruct (Z.leb_spec s a); [done|].
      now rewrite (proj2 (Z.leb_gt start a)) by lia.
    + cbn [type_at]; destruct (Z.leb_spec start a); cbn [andb].
      * now rewrite (type_at_lay_over _ lo).
      * now rewrite (proj2 (Z.leb_gt s a)) by lia.
    + assert (s = start) by lia; subst s; cbn [lay_over type_at]; rewrite (proj2 (Z.leb_le start last)) by lia.
      cbn [type_at]; destruct (Z.leb_spec start a); cbn [andb]; [now rewrite (type_at_lay_over _ (start + 1)) by (done || lia)|done].
Qed.

Lemma lay_over_sorted l : forall lo last type old,
  sorted_from lo l -> lo <= last + 1 -> 0 <= lo -> last < TOP -> 0 <= type < END_TYPE -> 0 <= old < END_TYPE ->
  sorted_from lo (lay_over l last type old).
Proof.
  induction l as [|[s t] l IH]; intros lo last type old Hl Hlo H0 Hlast Ht Ho; cbn [lay_over sorted_from] in *.
  - destruct (Z.ltb_spec last (TOP - 1)); cbn; [intuition lia|done].
  - destruct Hl as (Hs & Hty & Hl); destruct (Z.leb_spec s last); cbn [sorted_from].
    + split; [lia|split; [lia|apply IH; auto; lia]].
    + destruct (Z.ltb_spec (last + 1) s); cbn [sorted_from]; intuition lia.
Qed.

Lemma lay_sorted l : forall lo start last type old,
  sorted_from lo l -> 0 <= lo -> lo <= start <= last -> last < TOP -> 0 <= type < END_TYPE -> 0 <= old < END_TYPE ->
  sorted_from lo (lay l start last type old).
Proof.
  induction l as [|[s t] l IH]; intros lo start last type old Hl H0 Hs Hlast Ht Ho; cbn [lay].
  - cbn [sorted_from]; split; [lia|split; [lia|apply lay_over_sorted; auto; lia]].
  - pose proof Hl as (Hs' & Hty & Hl'); destruct (Z.ltb_spec s start); [|destruct (Z.ltb_spec start s)].
    + cbn [sorted_from]; split; [lia|split; [lia|apply IH; auto; lia]].
    + cbn [sorted_from]; split; [lia|split; [lia|]]; apply lay_over_sorted; auto; try lia.
      cbn [sorted_from]; intuition lia.
    + apply lay_over_sorted; auto; lia.
Qed.

(** Only a map that does not begin at 0 looks at the type before. *)
Lemma lay_head s t l start last type old old' :
  s <= start -> start <= last -> lay ((s, t) :: l) start last type old = lay ((s, t) :: l) start last type old'.
Proof.
  intros; cbn; destruct (s <? start) eqn:E; [done|]; bools.
  rewrite (proj2 (Z.ltb_ge start s)), (proj2 (Z.leb_le s last)) by lia; done.
Qed.

Lemma lay_nonempty l start last type old : lay l start last type old <> [].
Proof.
  destruct l as [|[s t] l]; cbn [lay]; [done|]; destruct (s <? start); [done|].
  destruct (start <? s); [done|]; cbn [lay_over]; destruct (s <=? last); [done|].
  now destruct (last + 1 <? s).
Qed.

Lemma lay_over_length l : forall last type old, (length (lay_over l last type old) <= S (length l))%nat.
Proof.
  induction l as [|[s t] l IH]; intros last type old; cbn [lay_over]; split_ifs; cbn [length]; try lia.
  specialize (IH last type t); lia.
Qed.

Lemma lay_length l : forall start last type old, (length (lay l start last type old) <= length l + 2)%nat.
Proof.
  induction l as [|[s t] l IH]; intros start last type old; cbn [lay].
  - pose proof (lay_over_length [] last type old); cbn [length] in *; lia.
  - pose proof (lay_over_length ((s, t) :: l) last type old); cbn [length] in *; specialize (IH start last type t).
    destruct (s <? start); [cbn [length]; lia|]; destruct (start <? s); cbn [length]; lia.
Qed.

Lemma type_at_compact l : forall lo t a, sorted_from lo l -> type_at (compact_from t l) a t = type_at l a t.
Proof.
  induction l as [|[s t'] l IH]; intros lo t a Hl; cbn [compact_from sorted_from] in *; [done|].
  destruct Hl as (Hs & Ht & Hl); cbn [type_at]; destruct (Z.eqb_spec t' t); [subst|].
  - rewrite (IH (s + 1)) by done; destruct (Z.leb_spec s a); [done|]; apply (type_at_below l (s + 1)); auto; lia.
  - cbn [type_at]; now rewrite (IH (s + 1)).
Qed.

Lemma type_at_compact' l a d : sorted_from 0 l -> type_at (compact l) a d = type_at l a d.
Proof.
  destruct l as [|[s t] l]; [done|]; cbn [compact type_at sorted_from]; intros (_ & _ & Hl).
  now rewrite (type_at_compact l (s + 1)).
Qed.

Lemma compact_sorted l : forall lo t, sorted_from lo l -> sorted_from lo (compact_from t l).
Proof.
  induction l as [|[s t'] l IH]; intros lo t Hl; cbn [compact_from sorted_from] in *; [done|].
  destruct Hl as (Hs & Ht & Hl); destruct (t' =? t); [|now cbn; auto].
  apply sorted_weaken with (s + 1); [lia|auto].
Qed.

Lemma compact_canonical l : forall s t, canonical ((s, t) :: compact_from t l).
Proof.
  induction l as [|[s' t'] l IH]; intros s t; cbn [compact_from]; [done|].
  destruct (Z.eqb_spec t' t); [apply IH|]; split; [congruence|apply IH].
Qed.

Lemma compact_length l : forall t, (length (compact_from t l) <= length l)%nat.
Proof.
  induction l as [|[s t'] l IH]; intros t; cbn [compact_from length]; [lia|].
  destruct (t' =? t); cbn [length]; [specialize (IH t)|specialize (IH t')]; lia.
Qed.

(** A canonical map is left as it is. *)
Lemma compact_id l : forall s t, canonical ((s, t) :: l) -> compact_from t l = l.
Proof.
  induction l as [|[s' t'] l IH]; intros s t H; cbn [compact_from]; [done|].
  destruct H as [Hn H]; rewrite (proj2 (Z.eqb_neq t' t)) by congruence; f_equal; now apply (IH s').
Qed.

(** ** The array follows the list *)

Lemma put_at (i : nat) r pre x post :
  i = length pre -> put i r (pre ++ x :: post) = Some (pre ++ r :: post).
Proof.
  intros ->; unfold put; rewrite decide_True by (rewrite length_app; cbn; lia).
  now rewrite insert_app_r_alt, Nat.sub_diag by lia.
Qed.

Lemma lookup_mid (i : nat) (pre : list e820range) x post :
  i = length pre -> (pre ++ x :: post) !! i = Some x.
Proof. intros ->; now rewrite list_lookup_middle. Qed.

(** Moving [post] up by one takes the entry after it. *)
Lemma shift_up_spec pre post : forall e r,
  exists h, shift_up (length post) (length pre + length post) (pre ++ post ++ e :: r) = Some (pre ++ h :: post ++ r).
Proof.
  induction post as [|p post IH] using rev_ind; intros e r; [exists e; reflexivity|].
  rewrite length_app; cbn [length]; replace (length post + 1)%nat with (S (length post)) by lia; cbn [shift_up].
  rewrite <- !app_assoc; cbn [app]; rewrite (app_assoc pre post).
  rewrite lookup_mid by (rewrite length_app; lia).
  replace ((pre ++ post) ++ p :: e :: r) with (((pre ++ post) ++ [p]) ++ e :: r) by now rewrite <- !app_assoc.
  rewrite put_at by (rewrite !length_app; cbn; lia).
  replace (length pre + S (length post) - 1)%nat with (length pre + length post)%nat by lia.
  destruct (IH p (p :: r)) as [h E]; exists h.
  rewrite <- !app_assoc; cbn [app]; rewrite E; now rewrite <- ?app_assoc.
Qed.

Lemma insertrange_at_spec pre post g x s t :
  insertrange_at (length pre) s t (Map (pre ++ post ++ (0, END_TYPE) :: x :: g) (length (pre ++ post))) =
    Some (Map (pre ++ (s, t) :: post ++ (0, END_TYPE) :: g) (S (length (pre ++ post)))).
Proof.
  unfold insertrange_at; cbn [nranges ranges]; rewrite length_app.
  replace (length pre + length post - length pre)%nat with (length post) by lia.
  destruct (shift_up_spec pre post (0, END_TYPE) (x :: g)) as [h ->].
  rewrite put_at by done; cbn [app].
  replace (pre ++ (s, t) :: post ++ x :: g) with ((pre ++ (s, t) :: post) ++ x :: g) by now rewrite <- app_assoc.
  rewrite put_at by (rewrite length_app; cbn; lia); do 2 f_equal; now rewrite <- app_assoc.
Qed.

Lemma seek_spec start : forall l lo pre g fuel old last type,
  sorted_from lo l -> start < TOP -> (length l < fuel)%nat ->
  exists b a old', l = b ++ a /\
    seek fuel start (length pre) old (pre ++ l ++ (0, END_TYPE) :: g) = Some (length (pre ++ b), old') /\
    (old' = old \/ 0 <= old' < END_TYPE) /\ (b = [] -> old' = old) /\
    match a with (s, _) :: _ => start <= s | [] => True end /\
    lay l start last type old =
      b ++ match a with (s, _) :: _ => if start <? s then [(start, type)] else [] | [] => [(start, type)] end ++
      lay_over a last type old'.
Proof.
  induction l as [|[s t] l IH]; intros lo pre g fuel old last type Hl Hst Hf; (destruct fuel as [|fuel]; [cbn in Hf; lia|]);
    cbn [seek app]; rewrite lookup_mid by done; cbn [fst snd].
  - rewrite Z.eqb_refl, andb_false_r; exists [], [], old; rewrite !app_nil_r; repeat split; auto.
  - cbn [sorted_from] in Hl; destruct Hl as (Hs & Ht & Hl); rewrite (proj2 (Z.eqb_neq t END_TYPE)) by lia.
    cbn [lay]; destruct (Z.ltb_spec s start); cbn [andb negb].
    + destruct (IH (s + 1) (pre ++ [(s, t)]) g fuel t last type Hl Hst) as (b & a & old' & -> & E & Ho & Hb & Ha & El);
        [cbn in Hf; lia|].
      exists ((s, t) :: b), a, old'; split; [done|].
      rewrite length_app in E; cbn [length] in E; rewrite Nat.add_1_r, <- !app_assoc in E; cbn [app] in E.
      rewrite <- ?(app_assoc b a); rewrite E, El; split; [done|split; [intuition lia|split; [discriminate|auto]]].
    + exists [], ((s, t) :: l), old; rewrite app_nil_r; cbn [app].
      split; [done|split; [done|split; [now left|split; [done|split; [lia|]]]]].
      now destruct (start <? s).
Qed.

Lemma overwrite_spec last type : forall l lo pre g fuel old,
  sorted_from lo l -> 0 <= last < TOP -> (length l < fuel)%nat ->
  (length pre <> O -> 0 < lo) -> (length pre = O -> exists s t l', l = (s, t) :: l' /\ 0 <= s <= last) ->
  exists c d old', l = c ++ d /\
    overwrite fuel last type (length pre) old (pre ++ l ++ (0, END_TYPE) :: g) =
      Some (length (pre ++ c), old', pre ++ map (fun r => (r.1, type)) c ++ d ++ (0, END_TYPE) :: g) /\
    lay_over l last type old = map (fun r => (r.1, type)) c ++
      match d with (s, _) :: _ => if last + 1 <? s then [(last + 1, old')] else []
                 | [] => if last <? TOP - 1 then [(last + 1, old')] else [] end ++ d /\
    match d with (s, _) :: _ => last < s < TOP | [] => True end.
Proof.
  induction l as [|[s t] l IH]; intros lo pre g fuel old Hl Hlast Hf Hlo H0; (destruct fuel as [|fuel]; [cbn in Hf; lia|]);
    cbn [overwrite app]; rewrite lookup_mid by done; cbn [fst snd].
  - assert (Hp : length pre <> O) by (intros E; destruct (H0 E) as (? & ? & ? & ? & _); discriminate).
    rewrite (proj2 (Nat.eqb_neq _ _) Hp); cbn [orb].
    rewrite (proj2 (Z.ltb_ge _ _)) by (change (u64 (0 - 1)) with (TOP - 1); lia).
    exists [], [], old; rewrite app_nil_r; repeat split; cbn; now rewrite app_nil_r.
  - cbn [sorted_from] in Hl; destruct Hl as (Hs & Ht & Hl); cbn [lay_over].
    assert (Hc : (length pre =? 0)%nat || (u64 (s - 1) <? last) = (s <=? last)).
    { destruct (Nat.eqb_spec (length pre) 0) as [E|Hp]; cbn [orb].
      - destruct (H0 E) as (? & ? & ? & [= <- <- <-] & ?); symmetry; apply Z.leb_le; lia.
      - rewrite u64_small by (unfold TOP in *; specialize (Hlo Hp); lia).
        destruct (Z.ltb_spec (s - 1) last), (Z.leb_spec s last); lia || done. }
    rewrite Hc; destruct (Z.leb_spec s last).
    + rewrite put_at by done.
      assert (Hs0 : 0 <= s) by (destruct (decide (length pre = O)) as [E|Hp]; [destruct (H0 E) as (? & ? & ? & [= <- <- <-] & ?); lia|specialize (Hlo Hp); lia]).
      destruct (IH (s + 1) (pre ++ [(s, type)]) g fuel t Hl Hlast) as (c & d & old' & -> & E & El & Hd);
        [cbn in Hf; lia|lia|rewrite length_app; cbn; lia|].
      exists ((s, t) :: c), d, old'; split; [done|].
      rewrite length_app in E; cbn [length] in E; rewrite Nat.add_1_r, <- !app_assoc in E; cbn [app] in E.
      rewrite <- ?(app_assoc c d); rewrite E, El; cbn [map fst app]; split; [|done].
      rewrite !length_app; cbn [length]; do 4 f_equal; lia.
    + exists [], ((s, t) :: l), old; rewrite app_nil_r; cbn [map app]; split; [done|split; [done|split; [|lia]]].
      now destruct (last + 1 <? s).
Qed.

Lemma squeeze_spec : forall rest fin junk g fuel old n,
  n = (length fin + length junk + length rest)%nat -> (length rest < fuel)%nat ->
  exists junk', squeeze fuel n (length fin + length junk) (length fin) old
      (fin ++ junk ++ rest ++ (0, END_TYPE) :: g) =
    Some (n, length (fin ++ compact_from old rest),
      fin ++ compact_from old rest ++ junk' ++ (0, END_TYPE) :: g) /\
    (length (fin ++ compact_from old rest) + length junk' = n)%nat.
Proof.
  induction rest as [|[s t] rest IH]; intros fin junk g fuel old n -> Hf; (destruct fuel as [|fuel]; [cbn in Hf; lia|]);
    cbn [squeeze compact_from length].
  - rewrite (proj2 (Nat.ltb_ge _ _)) by lia; exists junk; cbn [app]; rewrite app_nil_r; split; [do 3 f_equal; lia|lia].
  - rewrite (proj2 (Nat.ltb_lt _ _)) by (cbn [length] in *; lia).
    rewrite app_assoc; cbn [app]; rewrite lookup_mid by (rewrite length_app; lia); cbn [snd].
    destruct (t =? old).
    + destruct (IH fin (junk ++ [(s, t)]) g fuel old (length fin + length junk + S (length rest))%nat) as (junk' & E & El);
        [rewrite length_app; cbn; lia|cbn in Hf; lia|].
      exists junk'; split; [|done]; rewrite <- E, <- !app_assoc; f_equal; rewrite length_app; cbn; lia.
    + destruct junk as [|j0 junk].
      * rewrite Nat.add_0_r, Nat.eqb_refl.
        destruct (IH (fin ++ [(s, t)]) [] g fuel t (length fin + 0 + S (length rest))%nat) as (junk' & E & El);
          [rewrite length_app; cbn; lia|cbn in Hf; lia|].
        exists junk'; rewrite <- !app_assoc in E, El; rewrite !length_app in *; cbn [length app] in *.
        rewrite !Nat.add_0_r, !Nat.add_1_r in *; split; [|lia].
        rewrite app_nil_r; etransitivity; [exact E|]. rewrite <- (app_assoc fin); do 3 f_equal; lia.
      * rewrite (proj2 (Nat.eqb_neq _ _)) by (cbn; lia).
        rewrite <- app_assoc; cbn [app]; rewrite put_at by done.
        destruct (IH (fin ++ [(s, t)]) (junk ++ [(s, t)]) g fuel t (length fin + length (j0 :: junk) + S (length rest))%nat)
          as (junk' & E & El); [rewrite !length_app; cbn; lia|cbn in Hf; lia|].
        exists junk'; rewrite <- !app_assoc in E, El; rewrite !length_app in *; cbn [length app] in *.
        rewrite !Nat.add_1_r in *; split; [|lia].
        rewrite <- (app_assoc junk) in E; cbn [app] in E.
        replace (S (length fin + S (length junk))) with (S (length fin) + S (length junk))%nat by lia.
        etransitivity; [exact E|]; rewrite <- ?(app_assoc fin); do 3 f_equal; lia.
Qed.

Lemma u64_pred s : 0 <= s < TOP -> u64 (s - 1) = if s =? 0 then TOP - 1 else s - 1.
Proof. unfold TOP; intros; destruct (Z.eqb_spec s 0); [now subst|apply u64_small; lia]. Qed.

(** The second half of [insertrange]: from the first range within the new one on. *)
Lemma lay_over_spec last type pre a lo old x g :
  sorted_from lo a -> 0 <= last < TOP -> (length a <= MAXRANGES)%nat ->
  (length pre <> O -> 0 < lo) -> (length pre = O -> exists s t l', a = (s, t) :: l' /\ 0 <= s <= last) ->
  exists i old' rs r m', overwrite (S MAXRANGES) last type (length pre) old (pre ++ a ++ (0, END_TYPE) :: x :: g) =
      Some (i, old', rs) /\ rs !! i = Some r /\
    (if last <? u64 (r.1 - 1) then insertrange_at i (u64 (last + 1)) old' (Map rs (length (pre ++ a)))
     else Some (Map rs (length (pre ++ a)))) = Some m' /\
    nranges m' = length (pre ++ lay_over a last type old) /\
    exists g', ranges m' = pre ++ lay_over a last type old ++ (0, END_TYPE) :: g' /\
      length (ranges m') = length (pre ++ a ++ (0, END_TYPE) :: x :: g).
Proof.
  intros Ha Hlast Hlen Hlo H0.
  destruct (overwrite_spec last type a lo pre (x :: g) (S MAXRANGES) old Ha Hlast ltac:(lia) Hlo H0)
    as (c & d & old' & -> & E & -> & Hd).
  set (c' := map (fun r : e820range => (r.1, type)) c) in *.
  assert (Hc' : length c' = length c) by apply length_map.
  assert (Hi : length (pre ++ c) = length (pre ++ c')) by (rewrite !length_app; lia).
  exists (length (pre ++ c)), old', (pre ++ c' ++ d ++ (0, END_TYPE) :: x :: g).
  assert (Hn : length (pre ++ c ++ d) = length ((pre ++ c') ++ d)) by (rewrite !length_app; lia).
  assert (Hins : forall b, insertrange_at (length (pre ++ c)) (last + 1) old'
      (Map (pre ++ c' ++ d ++ (0, END_TYPE) :: x :: g) (length (pre ++ c ++ d))) = Some b ->
      nranges b = length (pre ++ c' ++ [(last + 1, old')] ++ d) /\
      exists g', ranges b = pre ++ (c' ++ [(last + 1, old')] ++ d) ++ (0, END_TYPE) :: g' /\
      length (ranges b) = length (pre ++ (c ++ d) ++ (0, END_TYPE) :: x :: g)).
  { intros b; rewrite Hn, Hi, (app_assoc pre c'), insertrange_at_spec; intros [= <-]; cbn [nranges ranges].
    split; [rewrite !length_app; cbn [length]; rewrite ?length_app; lia|].
    exists g; split; [now rewrite <- !app_assoc|]; rewrite !length_app; cbn [length]; rewrite ?length_app; cbn [length]; lia. }
  assert (Hok : insertrange_at (length (pre ++ c)) (last + 1) old'
      (Map (pre ++ c' ++ d ++ (0, END_TYPE) :: x :: g) (length (pre ++ c ++ d))) <> None)
    by (rewrite Hn, Hi, (app_assoc pre c'), insertrange_at_spec; discriminate).
  assert (Hkeep : nranges (Map (pre ++ c' ++ d ++ (0, END_TYPE) :: x :: g) (length (pre ++ c ++ d))) =
      length (pre ++ c' ++ [] ++ d) /\
      exists g', pre ++ c' ++ d ++ (0, END_TYPE) :: x :: g = pre ++ (c' ++ [] ++ d) ++ (0, END_TYPE) :: g' /\
      length (pre ++ c' ++ d ++ (0, END_TYPE) :: x :: g) = length (pre ++ (c ++ d) ++ (0, END_TYPE) :: x :: g)).
  { cbn [app nranges]; split; [rewrite !length_app; lia|].
    exists (x :: g); split; [now rewrite <- !app_assoc|]; rewrite !length_app; cbn [length]; lia. }
  destruct (insertrange_at (length (pre ++ c)) _ _ _) as [b|] eqn:Eb; [|done].
  specialize (Hins b eq_refl); rewrite <- app_assoc in *.
  destruct d as [|[s t] d]; [exists (0, END_TYPE)|exists (s, t)]; cbn [fst].
  - change (u64 (0 - 1)) with (TOP - 1); destruct (Z.ltb_spec last (TOP - 1)); eexists;
      (split; [exact E|split; [rewrite app_assoc; apply lookup_mid; congruence|]]).
    + rewrite u64_small by (unfold TOP in *; lia); split; [exact Eb|exact Hins].
    + split; [reflexivity|exact Hkeep].
  - cbn [app] in *; rewrite u64_pred by lia; rewrite (proj2 (Z.eqb_neq s 0)) by lia.
    replace (last <? s - 1) with (last + 1 <? s)
      by (destruct (Z.ltb_spec (last + 1) s), (Z.ltb_spec last (s - 1)); lia || done).
    destruct (Z.ltb_spec (last + 1) s); eexists;
      (split; [exact E|split; [rewrite app_assoc; apply lookup_mid; congruence|]]).
    + rewrite u64_small by (unfold TOP in *; lia); split; [exact Eb|exact Hins].
    + split; [reflexivity|exact Hkeep].
Qed.

Lemma remove_redundant_spec s t l g n :
  n = S (length l) -> (length l <= MAXRANGES)%nat ->
  exists m', remove_redundant (Map ((s, t) :: l ++ (0, END_TYPE) :: g) n) = Some m' /\
    nranges m' = length (compact ((s, t) :: l)) /\
    exists g', ranges m' = compact ((s, t) :: l) ++ (0, END_TYPE) :: g' /\
      length (ranges m') = length ((s, t) :: l ++ (0, END_TYPE) :: g).
Proof.
  intros -> Hl; unfold remove_redundant; cbn [ranges nranges lookup list_lookup snd].
  destruct (squeeze_spec l [(s, t)] [] g (S MAXRANGES) t (S (length l)) eq_refl ltac:(lia)) as (junk & E & Hn).
  cbn [length app Nat.add] in E, Hn; rewrite E; cbn [compact app length].
  destruct (Nat.eqb_spec (S (length l)) (S (length (compact_from t l)))) as [Hq|Hq].
  - destruct junk; [|cbn in Hn; lia]; eexists; split; [reflexivity|]; cbn [nranges ranges app]; split; [lia|].
    exists g; split; [done|]; cbn [length]; rewrite !length_app; cbn [length]; lia.
  - destruct junk as [|j junk]; [cbn in Hn; lia|].
    assert (Hlk : ((s, t) :: compact_from t l ++ (j :: junk) ++ (0, END_TYPE) :: g) !! S (length l) = Some (0, END_TYPE)).
    { change ((s, t) :: compact_from t l ++ (j :: junk) ++ (0, END_TYPE) :: g) with
        (((s, t) :: compact_from t l) ++ (j :: junk) ++ (0, END_TYPE) :: g).
      rewrite app_assoc; apply lookup_mid; rewrite length_app; cbn [length] in *; lia. }
    rewrite Hlk; change ((s, t) :: compact_from t l ++ (j :: junk) ++ (0, END_TYPE) :: g) with
        (((s, t) :: compact_from t l) ++ j :: junk ++ (0, END_TYPE) :: g).
    rewrite put_at by done; eexists; split; [reflexivity|]; cbn [nranges ranges app]; split; [cbn in Hn; lia|].
    exists (junk ++ (0, END_TYPE) :: g); split; [done|]; cbn [length]; rewrite !length_app; cbn [length] in *.
    rewrite length_app; cbn [length]; lia.
Qed.

Lemma sorted_suffix b : forall lo a, b <> [] -> sorted_from lo (b ++ a) -> sorted_from (lo + 1) a.
Proof.
  induction b as [|[s t] b IH]; intros lo a Hb Hl; [done|]; cbn [app sorted_from] in Hl; destruct Hl as (Hs & _ & Hl).
  destruct b as [|r b]; [apply sorted_weaken with (s + 1); [lia|exact Hl]|].
  apply sorted_weaken with (s + 1 + 1); [lia|now apply IH].
Qed.

Lemma sorted_suffix_any b : forall lo a, sorted_from lo (b ++ a) -> sorted_from lo a.
Proof.
  intros lo a; destruct b as [|r b]; [done|]; intros H; apply sorted_weaken with (lo + 1); [lia|].
  now apply (sorted_suffix (r :: b)).
Qed.

Lemma sorted_mid b : forall lo s t a, sorted_from lo (b ++ (s, t) :: a) -> lo <= s < TOP /\ 0 <= t < END_TYPE.
Proof.
  induction b as [|[s' t'] b IH]; cbn [app sorted_from]; intros lo s t a Hl; [tauto|].
  destruct Hl as (Hs & _ & Hl); apply IH in Hl; lia.
Qed.

(** The first half of [insertrange]: the range is put before the first that begins
    after it, unless one begins with it. *)
Lemma put_range_spec b a start last type old x1 x2 g :
  map_ok (b ++ a) -> 0 <= start <= last -> (length (b ++ a) <= MAXRANGES)%nat ->
  match a with (s, _) :: _ => start <= s | [] => True end ->
  exists r pre post x g', (b ++ a ++ (0, END_TYPE) :: x1 :: x2 :: g) !! length b = Some r /\
    (if (start <? r.1) || (r.2 =? END_TYPE) then
       let* m := insertrange_at (length b) start type
         (Map (b ++ a ++ (0, END_TYPE) :: x1 :: x2 :: g) (length (b ++ a))) in Some (S (length b), m)
     else Some (length b, Map (b ++ a ++ (0, END_TYPE) :: x1 :: x2 :: g) (length (b ++ a)))) =
      Some (length pre, Map (pre ++ post ++ (0, END_TYPE) :: x :: g') (length (pre ++ post))) /\
    b ++ match a with (s, _) :: _ => if start <? s then [(start, type)] else [] | [] => [(start, type)] end ++
      lay_over a last type old = pre ++ lay_over post last type old /\
    sorted_from (if (length pre =? 0)%nat then 0 else 1) post /\
    (length pre = O -> exists s t l', post = (s, t) :: l' /\ 0 <= s <= last) /\
    length (pre ++ post ++ (0, END_TYPE) :: x :: g') = length (b ++ a ++ (0, END_TYPE) :: x1 :: x2 :: g) /\
    (length post <= MAXRANGES)%nat.
Proof.
  intros [Hl H0] Hs Hlen Ha; rewrite length_app in Hlen.
  assert (Hin : (match a with (s, _) :: _ => start < s | [] => True end) ->
      exists pre post x g', (let* m := insertrange_at (length b) start type
         (Map (b ++ a ++ (0, END_TYPE) :: x1 :: x2 :: g) (length (b ++ a))) in Some (S (length b), m)) =
      Some (length pre, Map (pre ++ post ++ (0, END_TYPE) :: x :: g') (length (pre ++ post))) /\
    b ++ [(start, type)] ++ lay_over a last type old = pre ++ lay_over post last type old /\
    sorted_from (if (length pre =? 0)%nat then 0 else 1) post /\
    (length pre = O -> exists s t l', post = (s, t) :: l' /\ 0 <= s <= last) /\
    length (pre ++ post ++ (0, END_TYPE) :: x :: g') = length (b ++ a ++ (0, END_TYPE) :: x1 :: x2 :: g) /\
    (length post <= MAXRANGES)%nat).
  { intros Hlt; assert (Hb : b <> []).
    { intros ->; destruct a as [|[s t] a]; cbn in H0; [done|lia]. }
    rewrite insertrange_at_spec; exists (b ++ [(start, type)]), a, x2, g; rewrite <- !app_assoc; cbn [app].
    split; [do 2 f_equal; [rewrite length_app; cbn; lia|f_equal; rewrite !length_app; cbn; lia]|].
    split; [done|split; [|split; [|split; [rewrite !length_app; cbn [length]; rewrite !length_app; cbn [length]; lia|lia]]]].
    - rewrite length_app; cbn [length]; rewrite Nat.add_1_r; cbn; now apply (sorted_suffix b 0).
    - rewrite length_app; cbn; lia. }
  destruct a as [|[s t] a].
  - destruct Hin as (pre & post & x & g' & E & El & R); [done|].
    exists (0, END_TYPE), pre, post, x, g'; cbn [fst snd] in *; rewrite Z.eqb_refl, orb_true_r.
    split; [now apply lookup_mid|split; [exact E|split; [exact El|exact R]]].
  - pose proof Hl as Hl'; assert (Ht : t <> END_TYPE /\ 0 <= s).
    { destruct (sorted_mid _ _ _ _ _ Hl'); split; lia. }
    destruct (Z.ltb_spec start s).
    + destruct Hin as (pre & post & x & g' & E & El & R); [done|].
      exists (s, t), pre, post, x, g'; cbn [fst snd]; rewrite (proj2 (Z.ltb_lt start s)) by lia; cbn [orb].
      split; [now apply lookup_mid|split; [exact E|split; [exact El|exact R]]].
    + exists (s, t), b, ((s, t) :: a), x1, (x2 :: g); cbn [fst snd].
      rewrite (proj2 (Z.ltb_ge start s)), (proj2 (Z.eqb_neq t END_TYPE)) by (lia || easy); cbn [orb].
      split; [now apply lookup_mid|split; [done|split; [done|split; [|split; [|split; [done|lia]]]]]].
      * destruct (Nat.eqb_spec (length b) 0) as [E|E]; [now destruct b|apply (sorted_suffix b 0); [now destruct b|done]].
      * intros _; exists s, t, a; split; [done|lia].
Qed.

(** [insertrange] lays the range over the map and removes what is redundant. *)
Lemma insertrange_step m l start len type :
  holds m l -> map_ok l -> (length l + 2 < MAXRANGES)%nat ->
  0 <= start -> 0 < len -> start + len <= TOP ->
  exists m', insertrange start len type m = Some m' /\
    holds m' (compact (lay l start (start + len - 1) type 0)).
Proof.
  intros (Hsize & Hn & g & Hr) [Hl H0] Hroom Hstart Hlen Hend.
  destruct m as [rs n]; cbn [ranges nranges] in *; subst rs n; unfold insertrange.
  rewrite (proj2 (Z.eqb_neq len 0)) by lia; cbn [ranges nranges].
  rewrite u64_small by (unfold TOP in *; lia); set (last := start + len - 1) in *.
  pose proof Hsize as Hsz; rewrite length_app in Hsz; cbn [length] in Hsz.
  destruct g as [|x1 [|x2 g]]; [cbn [length] in Hsz; lia..|].
  assert (Hhead : lay l start last type 0 = lay l start last type 4294967294).
  { destruct l as [|[s0 t0] l0]; [done|]; subst s0; apply lay_head; lia. }
  pose proof (lay_length l start last type 4294967294) as Hll.
  rewrite Hhead; destruct (seek_spec start l 0 [] (x1 :: x2 :: g) (S MAXRANGES) 4294967294 last type Hl)
    as (b & a & old & -> & E & Hold & Hb & Ha & El); [unfold TOP in *; lia|lia|].
  rewrite length_app in Hroom; cbn [app length] in E; rewrite E, El in *.
  assert (Hlast : 0 <= last < TOP) by (unfold last; lia).
  destruct (put_range_spec b a start last type old x1 x2 g) as (r & pre & post & x & g' & Er & Ep & Elay & Hpost & Hpre & Hsz' & Hlp);
    [done|lia|rewrite length_app; lia|done|].
  rewrite <- (app_assoc b a) in *; rewrite Er; cbn [ranges nranges]; rewrite Ep, Elay in *; cbn [ranges nranges].
  destruct (lay_over_spec last type pre post (if (length pre =? 0)%nat then 0 else 1) old x g' Hpost Hlast Hlp)
    as (i & old' & rs & r' & m' & E1 & E2 & E3 & Hn' & g'' & Er' & Hsz'');
    [destruct (length pre); [done|intros _; reflexivity]|done|].
  rewrite E1, E2, E3; destruct m' as [rs' n']; cbn [ranges nranges] in *; subst n'.
  rewrite (app_assoc pre) in Er'.
  assert (Hne : pre ++ lay_over post last type old <> []) by (rewrite <- El; apply lay_nonempty).
  destruct (pre ++ lay_over post last type old) as [|[s t] L]; [done|]; subst rs'.
  rewrite length_app in Hll; cbn [length] in Hll.
  destruct (remove_redundant_spec s t L g'' _ eq_refl ltac:(lia)) as (m' & Em & Hnm & g3 & Er3 & Hl3).
  exists m'; split; [exact Em|split; [|split; [exact Hnm|exists g3; exact Er3]]].
  rewrite Hl3, <- Hsize, <- Hsz', <- Hsz''; done.
Qed.

(** ** The properties *)

Lemma compact_ok l : map_ok l -> map_ok (compact l) /\ canonical (compact l).
Proof.
  intros [Hl H0]; destruct l as [|[s t] l]; [done|]; cbn [compact]; split; [|apply compact_canonical].
  split; [|exact H0]; cbn [sorted_from] in *; split; [lia|split; [lia|apply compact_sorted; tauto]].
Qed.

Lemma lay_ok l start last type :
  map_ok l -> 0 <= start <= last -> last < TOP -> 0 <= type < END_TYPE -> map_ok (lay l start last type 0).
Proof.
  intros [Hl H0] Hs Hlast Ht; split; [apply lay_sorted; unfold END_TYPE; auto; lia|].
  destruct l as [|[s t] l]; [done|]; subst s; cbn [lay].
  destruct (Z.ltb_spec 0 start); [done|]; rewrite (proj2 (Z.ltb_ge start 0)) by lia; cbn [lay_over].
  now rewrite (proj2 (Z.leb_le 0 last)) by lia.
Qed.

(** C27: entering a range into a map that is sorted and complete gives every
    address of it the new type and leaves every other as it was; the map stays
    sorted and complete, becomes free of redundant entries, and the array keeps
    its end mark. The conditions: the range is not empty and ends at 2^64 at
    most ([wrapping_range] shows that the map is not sorted afterwards when it
    wraps around, which the comment in the code allows for), its type is below
    that of the end mark, and at least two entries of the array are free besides
    the end mark: nothing in the code keeps it from growing beyond its MAXRANGES
    entries. *)
Theorem insertrange_correct m l start len type :
  holds m l -> map_ok l -> (length l + 2 < MAXRANGES)%nat ->
  0 <= start -> 0 < len -> start + len <= TOP -> 0 <= type < END_TYPE ->
  exists m' l', insertrange start len type m = Some m' /\ holds m' l' /\ map_ok l' /\ canonical l' /\
    (length l' <= length l + 2)%nat /\
    forall a, 0 <= a < TOP ->
      type_at l' a 0 = if (start <=? a) && (a <? start + len) then type else type_at l a 0.
Proof.
  intros Hm Hl Hroom Hs Hlen Hend Ht.
  destruct (insertrange_step m l start len type Hm Hl Hroom Hs Hlen Hend) as (m' & E & Hm').
  assert (Hlay : map_ok (lay l start (start + len - 1) type 0)) by (apply lay_ok; auto; lia).
  exists m', (compact (lay l start (start + len - 1) type 0)); split; [done|split; [done|]].
  destruct (compact_ok _ Hlay) as [H1 H2]; split; [done|split; [done|split]].
  - pose proof (lay_length l start (start + len - 1) type 0).
    destruct (lay l start _ type 0) as [|[s t] l']; cbn [compact length] in *; [lia|].
    pose proof (compact_length l' t); lia.
  - intros a Ha; rewrite type_at_compact' by apply Hlay; rewrite (type_at_lay l 0) by (apply Hl || lia).
    replace (a <=? start + len - 1) with (a <? start + len)
      by (destruct (Z.ltb_spec a (start + len)), (Z.leb_spec a (start + len - 1)); lia || done); done.
Qed.

(** ** The sizes of memory *)

(** No two neighbours are both memory. *)
Fixpoint separate (l : list e820range) : Prop :=
  match l with
  | (_, t) :: l => match l with (_, t') :: _ => ~ (t = 1 /\ t' = 1) | [] => t <> 1 end /\ separate l
  | [] => True
  end.

(** The last range is not memory. *)
Definition bounded (l : list e820range) : Prop := match last l with Some (_, t) => t <> 1 | None => True end.

Lemma canonical_separate l : canonical l -> bounded l -> separate l.
Proof.
  unfold bounded; induction l as [|[s t] l IH]; [done|]; intros [Hn Hc] Hb.
  destruct l as [|[s' t'] l]; [done|]; split; [lia|now apply IH].
Qed.

(** The memory from address [a] on is [n] bytes, of which those below [limit] count. *)
Definition run (l : list e820range) (a limit n : Z) : Prop :=
  0 <= n <= limit - a /\ (forall x, a <= x < a + n -> type_at l x 0 = 1) /\
  (n < limit - a -> type_at l (a + n) 0 <> 1).

(** One of the three sizes. *)
Fixpoint window (a limit : Z) (l : list e820range) (acc : Z) : Z :=
  match l with
  | [] => acc
  | (s, t) :: l =>
      let next := match l with (s', _) :: _ => s' | [] => 0 end in
      window a limit l
        (if (t =? 1) && (s <=? a) && (a <? next) then (if limit <? next then limit - a else next - a) else acc)
  end.

Lemma parse_loop_spec g l : forall lo s,
  sorted_from lo l -> 0 <= lo -> separate l ->
  parse_loop (l ++ (0, END_TYPE) :: g) s =
    Some (Sizes (window 0 (PW 20) l (dos_mem s)) (window (PW 20) (PW 24) l (low_mem s))
      (window (PW 24) (PW 32) l (high_mem s))).
Proof.
  induction l as [|[s t] l IH]; intros lo z Hl H0 Hsep; [destruct z; reflexivity|].
  cbn [sorted_from] in Hl; destruct Hl as (Hs & Ht & Hl), Hsep as [Hs1 Hsep]; cbn [app parse_loop].
  rewrite (proj2 (Z.eqb_neq t END_TYPE)) by lia.
  set (next := match l with (s', _) :: _ => s' | [] => 0 end).
  assert (Hh : exists t', head (l ++ (0, END_TYPE) :: g) = Some (next, t')) by (destruct l as [|[s' t'] l]; eexists; reflexivity).
  destruct Hh as [t' ->]; cbn [fst]; rewrite (IH (s + 1)) by (done || lia); cbn [window]; fold next.
  assert (Hn : t = 1 -> s < next) by (subst next; destruct l as [|[s' t''] l]; [done|cbn in Hl; lia]).
  clearbody next; unfold parse_range, PW in *; destruct (Z.eqb_spec t 1); [specialize (Hn e)|reflexivity];
    cbn [andb dos_mem low_mem high_mem]; do 2 f_equal; f_equal.
  - destruct (Z.eqb_spec s 0), (Z.leb_spec s 0), (Z.ltb_spec 0 next); try lia; cbn [andb]; auto.
    destruct (Z.ltb_spec (2 ^ 20) next); [lia|]; rewrite u32_small; lia.
  - destruct ((s <=? 2 ^ 20) && (2 ^ 20 <? next)) eqn:E; [|done]; bools; destruct (Z.ltb_spec (2 ^ 24) next); [done|].
    now rewrite u32_small by lia.
  - destruct ((s <=? 2 ^ 24) && (2 ^ 24 <? next)) eqn:E; [|done]; bools; destruct (Z.ltb_spec (2 ^ 32) next); [done|].
    now rewrite u32_small by lia.
Qed.

Lemma window_after a limit l : forall lo acc, sorted_from lo l -> a < lo -> window a limit l acc = acc.
Proof.
  induction l as [|[s t] l IH]; intros lo acc Hl Ha; cbn [window]; [done|]; destruct Hl as (Hs & _ & Hl).
  rewrite (proj2 (Z.leb_gt s a)), andb_false_r by lia; cbn [andb]; apply (IH (s + 1)); [done|lia].
Qed.

Lemma window_run a limit l : forall lo,
  sorted_from lo l -> separate l -> a < limit -> (forall s t l', l = (s, t) :: l' -> s <= a) ->
  run l a limit (window a limit l 0).
Proof.
  induction l as [|[s t] l IH]; intros lo Hl Hsep Ha Hhead.
  - cbn; split; [lia|split; [lia|done]].
  - specialize (Hhead s t l eq_refl); cbn [window]; rewrite (proj2 (Z.leb_le s a) Hhead), andb_true_r.
    destruct Hl as (Hs & _ & Hl), Hsep as [Hs1 Hsep].
    assert (Hstep : forall n, (forall s' t' l', l = (s', t') :: l' -> s' <= a) -> run l a limit n -> l <> [] ->
      run ((s, t) :: l) a limit n).
    { intros n Hle (Hn & Hin & Hout) Hne; destruct l as [|[s' t'] l]; [done|]; specialize (Hle s' t' l eq_refl).
      assert (Ht : forall x, a <= x -> type_at ((s, t) :: (s', t') :: l) x 0 = type_at ((s', t') :: l) x 0).
      { intros x Hx; cbn [type_at]; now rewrite (proj2 (Z.leb_le s x)), (proj2 (Z.leb_le s' x)) by lia. }
      split; [done|split; [intros x Hx; rewrite Ht by lia; now apply Hin|intros Hlt; rewrite Ht by lia; now apply Hout]]. }
    destruct l as [|[s' t'] l].
    + cbn [window]; assert (Hnz : forall b, (if (t =? 1) && b then (if limit <? 0 then limit - a else 0 - a) else 0) = 0)
        by (intros b; now rewrite (proj2 (Z.eqb_neq t 1))).
      rewrite Hnz; split; [lia|split; [lia|]]; intros _; cbn; rewrite (proj2 (Z.leb_le s (a + 0))) by lia; done.
    + destruct (Z.ltb_spec a s') as [Hlt|Hge]; rewrite ?andb_true_r, ?andb_false_r; pose proof Hl as (Hs' & _ & Hl').
      * rewrite (window_after a limit ((s', t') :: l) s') by (first [lia | clear -Hl; cbn [sorted_from] in *; intuition lia]).
        assert (Hty : forall x, a <= x < s' -> type_at ((s, t) :: (s', t') :: l) x 0 = t).
        { intros x Hx; cbn [type_at]; now rewrite (proj2 (Z.leb_le s x)), (proj2 (Z.leb_gt s' x)) by lia. }
        destruct (Z.eqb_spec t 1) as [->|Hne]; [|split; [lia|split; [lia|intros _; rewrite Hty by lia; done]]].
        destruct (Z.ltb_spec limit s'); (split; [lia|split; [intros x Hx; apply Hty; lia|intros Hx]]); [lia|].
        replace (a + (s' - a)) with s' by lia; cbn [type_at]; rewrite (proj2 (Z.leb_le s s')), Z.leb_refl by lia.
        rewrite (type_at_below l (s' + 1)) by (done || lia); intros ->; tauto.
      * apply Hstep; [intros ? ? ? [= <- _ _]; lia| |done].
        apply (IH (s + 1)); auto; intros ? ? ? [= <- _ _]; lia.
Qed.

Lemma parse_mem_step m l :
  holds m l -> map_ok l -> separate l ->
  exists s, parse_mem m = Some s /\ run l 0 (2 ^ 20) (dos_mem s) /\ run l (2 ^ 20) (2 ^ 24) (low_mem s) /\
    run l (2 ^ 24) (2 ^ 32) (high_mem s).
Proof.
  intros (_ & _ & g & Hr) [Hl H0] Hsep; unfold parse_mem; rewrite Hr, (parse_loop_spec g l 0) by (done || lia).
  eexists; split; [reflexivity|]; cbn [dos_mem low_mem high_mem]; unfold PW.
  split; [|split]; apply (window_run _ _ l 0); auto; try lia; intros ? ? ? ->; lia.
Qed.

(** The sizes read from the map are those of the memory there is: from address 0,
    from 1 MB and from 16 MB on, every byte of the size is memory, and the next is
    not, unless the size ends at 1 MB, 16 MB or 4 GB. *)
Theorem parse_mem_correct m l :
  holds m l -> map_ok l -> canonical l -> bounded l ->
  exists s, parse_mem m = Some s /\ run l 0 (2 ^ 20) (dos_mem s) /\ run l (2 ^ 20) (2 ^ 24) (low_mem s) /\
    run l (2 ^ 24) (2 ^ 32) (high_mem s).
Proof. intros Hm Hl Hc Hb; apply parse_mem_step; auto using canonical_separate. Qed.

(** ** Limiting memory *)

Definition cap (t : Z) : Z := if t =? 1 then 2 else t.

Lemma type_at_cap l a d : type_at (map (fun r => (r.1, cap r.2)) l) a (cap d) = cap (type_at l a d).
Proof. revert d; induction l as [|[s t] l IH]; intros d; cbn; [done|]; destruct (s <=? a); [apply IH|done]. Qed.

Lemma sorted_cap l : forall lo, sorted_from lo l -> sorted_from lo (map (fun r => (r.1, cap r.2)) l).
Proof.
  induction l as [|[s t] l IH]; intros lo Hl; cbn in *; [done|]; destruct Hl as (Hs & Ht & Hl).
  split; [done|split; [unfold cap, END_TYPE in *; destruct (t =? 1); lia|auto]].
Qed.

Lemma separate_cap l : separate (map (fun r => (r.1, cap r.2)) l).
Proof.
  assert (Hc : forall t, cap t <> 1) by (intros t; unfold cap; destruct (Z.eqb_spec t 1); [lia|done]).
  induction l as [|[s t] l IH]; [done|]; split; [|exact IH]; destruct l as [|[s' t'] l]; cbn; [apply Hc|].
  intros [H _]; now apply Hc in H.
Qed.

(** From the first range that begins past the limit on, only types change. *)
Lemma restrict_above restop n g : forall rest lo pre fuel,
  sorted_from lo rest -> restop <= lo -> (length rest < fuel)%nat ->
  restrict fuel restop (length pre) (Map (pre ++ rest ++ (0, END_TYPE) :: g) n) =
    Some (Map (pre ++ map (fun r => (r.1, cap r.2)) rest ++ (0, END_TYPE) :: g) n).
Proof.
  induction rest as [|[s t] rest IH]; intros lo pre fuel Hl Hlo Hf; (destruct fuel as [|fuel]; [cbn in Hf; lia|]);
    cbn [restrict ranges nranges app map]; rewrite lookup_mid by done; cbn [fst snd]; [now rewrite Z.eqb_refl|].
  destruct Hl as (Hs & Ht & Hl); rewrite (proj2 (Z.eqb_neq t END_TYPE)) by lia.
  assert (Hnext : exists r, (pre ++ (s, t) :: rest ++ (0, END_TYPE) :: g) !! S (length pre) = Some r).
  { apply lookup_lt_is_Some_2; rewrite length_app; cbn [length]; rewrite length_app; cbn [length]; lia. }
  destruct Hnext as [r ->]; unfold cap at 1; rewrite (proj2 (Z.leb_le restop s)) by lia.
  assert (Hgo : forall t', restrict fuel restop (S (length pre)) (Map (pre ++ (s, t') :: rest ++ (0, END_TYPE) :: g) n) =
    Some (Map (pre ++ (s, t') :: map (fun r => (r.1, cap r.2)) rest ++ (0, END_TYPE) :: g) n)).
  { intros t'; specialize (IH (s + 1) (pre ++ [(s, t')]) fuel Hl ltac:(lia) ltac:(cbn in Hf; lia)).
    rewrite length_app in IH; cbn [length] in IH; rewrite Nat.add_1_r, <- !app_assoc in IH; exact IH. }
  destruct (t =? 1); [rewrite put_at by done|]; apply Hgo.
Qed.

(** Types from the limit on. *)
Definition capped (restop : Z) (l l' : list e820range) : Prop :=
  forall a, 0 <= a < TOP -> type_at l' a 0 = if restop <=? a then cap (type_at l a 0) else type_at l a 0.

(** The ranges before an address, and the type at their end. *)
Definition below (restop : Z) (pre : list e820range) : Prop := Forall (fun r => r.1 < restop) pre.

Fixpoint last_type (l : list e820range) (d : Z) : Z :=
  match l with [] => d | (_, t) :: l => last_type l t end.

Lemma last_type_snoc l s t d : last_type (l ++ [(s, t)]) d = t.
Proof. revert d; induction l as [|[s' t'] l IH]; intros d; cbn; auto. Qed.

Lemma type_at_above restop pre l a : forall d,
  below restop pre -> restop <= a -> type_at (pre ++ l) a d = type_at l a (last_type pre d).
Proof.
  induction pre as [|[s t] pre IH]; intros d H Ha; [done|]; inversion_clear H as [|? ? Hs Hp]; cbn in *.
  rewrite (proj2 (Z.leb_le s a)) by lia; now apply IH.
Qed.

Lemma type_at_prefix pre l l' a : forall d,
  (forall d, type_at l a d = type_at l' a d) -> type_at (pre ++ l) a d = type_at (pre ++ l') a d.
Proof. induction pre as [|[s t] pre IH]; intros d H; cbn; [apply H|]; destruct (s <=? a); auto. Qed.

Lemma capped_app restop pre l l' :
  below restop pre -> (forall a d, a < restop -> type_at l a d = type_at l' a d) ->
  (forall a, restop <= a -> type_at l' a (last_type pre 0) = cap (type_at l a (last_type pre 0))) ->
  capped restop (pre ++ l) (pre ++ l').
Proof.
  intros Hp Hlt Hge a Ha; destruct (Z.leb_spec restop a).
  - rewrite !(type_at_above restop) by done; now apply Hge.
  - symmetry; apply type_at_prefix; intros d; now apply Hlt.
Qed.

Lemma lay_below pre s t l start last type : forall old,
  below start pre -> s < start ->
  lay (pre ++ (s, t) :: l) start last type old = pre ++ (s, t) :: lay l start last type t.
Proof.
  induction pre as [|[s' t'] pre IH]; intros old H Hs; cbn [app lay].
  - now rewrite (proj2 (Z.ltb_lt s start)).
  - inversion_clear H as [|? ? Hs' Hp]; cbn in Hs'; rewrite (proj2 (Z.ltb_lt s' start)) by lia; f_equal; now apply IH.
Qed.

Lemma compact_from_app pre s t l l0 : forall s0 t0,
  canonical ((s0, t0) :: pre ++ (s, t) :: l0) ->
  compact_from t0 (pre ++ (s, t) :: l) = pre ++ (s, t) :: compact_from t l.
Proof.
  induction pre as [|[s' t'] pre IH]; intros s0 t0 [Hn H]; cbn [app compact_from] in *.
  - now rewrite (proj2 (Z.eqb_neq t t0)) by congruence.
  - rewrite (proj2 (Z.eqb_neq t' t0)) by congruence; f_equal; now apply (IH s').
Qed.

Lemma compact_app pre s t l l0 :
  canonical (pre ++ (s, t) :: l0) -> compact (pre ++ (s, t) :: l) = pre ++ (s, t) :: compact_from t l.
Proof.
  destruct pre as [|[s' t'] pre]; [done|]; cbn [app compact]; intros H; f_equal.
  now apply (compact_from_app pre s t l l0 s').
Qed.

Lemma canonical_app l1 : forall l2, canonical (l1 ++ l2) -> canonical l2.
Proof. induction l1 as [|[s t] l1 IH]; [done|]; intros l2 [_ H]; now apply IH. Qed.

Lemma separate_app l1 : forall l2, separate (l1 ++ l2) -> separate l2.
Proof. induction l1 as [|[s t] l1 IH]; [done|]; intros l2 [_ H]; now apply IH. Qed.

Lemma separate_join pre r l s t l' :
  separate (pre ++ r :: l) -> t <> 1 -> separate ((s, t) :: l') -> separate (pre ++ (s, t) :: l').
Proof.
  intros H Ht Hl; induction pre as [|[s' t'] pre IH]; [done|]; destruct H as [Hn H]; split; [|now apply IH].
  destruct pre as [|[s2 t2] pre]; cbn in *; [lia|exact Hn].
Qed.

Lemma sorted_join restop pre l l' : forall lo,
  lo <= restop -> below restop pre -> sorted_from lo (pre ++ l) -> sorted_from restop l' -> sorted_from lo (pre ++ l').
Proof.
  induction pre as [|[s t] pre IH]; intros lo Hlo Hp Hl Hl'; [now apply sorted_weaken with restop|].
  inversion_clear Hp as [|? ? Hs Hp']; cbn [app sorted_from fst] in *; destruct Hl as (? & ? & Hl).
  split; [done|split; [done|apply IH; auto; lia]].
Qed.

(** The range of memory across the limit is split. *)
Lemma restrict_split restop pre s s' t' rest g fuel :
  let l := pre ++ (s, 1) :: (s', t') :: rest in
  let m := Map (pre ++ (s, 1) :: (s', t') :: rest ++ (0, END_TYPE) :: g) (length l) in
  0 <= restop < TOP -> below restop pre -> s < restop -> restop < s' ->
  length (l ++ (0, END_TYPE) :: g) = MAXRANGES -> map_ok l -> canonical l -> separate l ->
  (length l + 2 < MAXRANGES)%nat -> (S (length rest) + 2 <= fuel)%nat ->
  exists m' l', (let* m := insertrange restop (s' - restop) 2 m in restrict fuel restop (S (length pre)) m) = Some m' /\
    holds m' l' /\ map_ok l' /\ separate l' /\ capped restop l l'.
Proof.
  intros l m Hrs Hp Hs Hs' Hsz Hok Hc Hsep Hroom Hf; pose proof Hok as [Hl H0].
  assert (Hm : holds m l).
  { split; [rewrite <- Hsz; subst m l; cbn [ranges]; now rewrite <- app_assoc|split; [done|exists g]].
    subst m l; cbn [ranges]; now rewrite <- app_assoc. }
  pose proof Hl as Hl2; apply sorted_suffix_any in Hl2; cbn [sorted_from] in Hl2; destruct Hl2 as (Hs0 & _ & Hs1 & Ht1 & Hl2).
  destruct (insertrange_step m l restop (s' - restop) 2 Hm Hok Hroom) as (m1 & -> & Hm1); [lia..|].
  replace (restop + (s' - restop) - 1) with (s' - 1) in Hm1 by lia.
  set (tail := compact_from 2 ((s', t') :: rest)).
  assert (El : compact (lay l restop (s' - 1) 2 0) = (pre ++ [(s, 1)]) ++ (restop, 2) :: tail).
  { subst l; rewrite lay_below by done; cbn [lay]; rewrite (proj2 (Z.ltb_ge s' restop)), (proj2 (Z.ltb_lt restop s')) by lia.
    cbn [lay_over]; rewrite (proj2 (Z.leb_gt s' (s' - 1))), (proj2 (Z.ltb_ge _ _)) by lia.
    rewrite (compact_app _ _ _ _ ((s', t') :: rest)) by done; cbn [compact_from]; rewrite <- app_assoc; reflexivity. }
  rewrite El in Hm1; destruct Hm1 as (Hsz1 & Hn1 & g1 & Hr1); destruct m1 as [rs1 n1]; cbn [ranges nranges] in *; subst rs1 n1.
  assert (Htail : sorted_from (restop + 1) tail).
  { apply compact_sorted; cbn [sorted_from]; repeat split; lia || done. }
  assert (Hlen : (length tail <= S (length rest))%nat) by apply (compact_length ((s', t') :: rest)).
  assert (Hp' : below restop (pre ++ [(s, 1)])) by (apply Forall_app; split; [done|constructor; [done|constructor]]).
  replace (S (length pre)) with (length (pre ++ [(s, 1)])) by (rewrite length_app; cbn; lia).
  rewrite <- app_assoc.
  rewrite (restrict_above restop _ g1 ((restop, 2) :: tail) restop (pre ++ [(s, 1)]) fuel);
    [|cbn [sorted_from]; unfold END_TYPE; repeat split; lia || done|lia|cbn [length]; lia].
  eexists _, ((pre ++ [(s, 1)]) ++ map (fun r => (r.1, cap r.2)) ((restop, 2) :: tail)); split; [reflexivity|].
  assert (Hl' : l = (pre ++ [(s, 1)]) ++ (s', t') :: rest) by (subst l; now rewrite <- app_assoc).
  split; [|split; [split|split]].
  - split; [cbn [ranges]; rewrite <- Hsz1; repeat progress (rewrite ?length_app, ?length_map; cbn [length]); lia|].
    cbn [nranges ranges]; split; [repeat progress (rewrite ?length_app, ?length_map; cbn [length]); done|].
    exists g1; now rewrite <- !app_assoc.
  - rewrite Hl' in Hl; apply (sorted_join restop _ ((s', t') :: rest)); auto; [lia|apply sorted_cap].
    cbn [sorted_from]; unfold END_TYPE; repeat split; lia || done.
  - subst l; destruct pre; exact H0.
  - rewrite Hl' in Hsep; apply (separate_join _ (s', t') rest); auto; apply (separate_cap ((restop, 2) :: tail)).
  - rewrite Hl'; apply capped_app; [done| |].
    + intros a d Ha; cbn [map type_at fst snd]; rewrite (proj2 (Z.leb_gt s' a)), (proj2 (Z.leb_gt restop a)) by lia; done.
    + intros a Ha; rewrite last_type_snoc; cbn [map type_at fst snd]; rewrite (proj2 (Z.leb_le restop a)) by lia.
      rewrite (type_at_cap tail a 2); unfold tail; rewrite (type_at_compact _ (restop + 1)) by (cbn [sorted_from]; repeat split; lia || done).
      cbn [type_at]; destruct (s' <=? a); done.
Qed.

(** The walk up to the limit. *)
Lemma restrict_spec restop : 0 <= restop < TOP -> forall rest pre fuel m,
  below restop pre -> holds m (pre ++ rest) -> map_ok (pre ++ rest) -> canonical (pre ++ rest) ->
  separate (pre ++ rest) -> (length (pre ++ rest) + 2 < MAXRANGES)%nat -> (length rest + 2 < fuel)%nat ->
  (last_type pre 0 = 1 -> match rest with (s, _) :: _ => s <= restop | [] => False end) ->
  exists m' l', restrict fuel restop (length pre) m = Some m' /\ holds m' l' /\ map_ok l' /\ separate l' /\
    capped restop (pre ++ rest) l'.
Proof.
  intros Hrs; induction rest as [|[s t] rest IH]; intros pre fuel m Hp Hm Hok Hc Hsep Hroom Hf Hinv;
    pose proof Hm as (Hsz & Hn & g & Hr); (destruct fuel as [|fuel]; [lia|]).
  - exists m, (pre ++ []); cbn [restrict]; rewrite Hr, app_nil_r; cbn [app]; rewrite lookup_mid by done; cbn [snd].
    rewrite Z.eqb_refl; rewrite app_nil_r in *; split; [done|split; [done|split; [done|split; [done|]]]].
    rewrite <- (app_nil_r pre); apply capped_app; [done|done|]; intros a Ha; cbn; unfold cap.
    destruct (Z.eqb_spec (last_type pre 0) 1); [tauto|done].
  - destruct (Z.leb_spec restop s) as [Hge|Hlt].
    + destruct m as [rs n]; cbn [ranges nranges] in *; subst rs n.
      rewrite <- app_assoc; pose proof Hok as [Hl H0].
      pose proof (sorted_suffix_any _ _ _ Hl) as Hrest.
      rewrite (restrict_above restop _ g ((s, t) :: rest) s pre (S fuel));
        [|cbn [sorted_from] in *; destruct Hrest as (? & ? & ?); repeat split; lia || done|lia|cbn [length] in *; lia].
      eexists _, (pre ++ map (fun r => (r.1, cap r.2)) ((s, t) :: rest)); split; [reflexivity|].
      split; [|split; [split|split]].
      * split; [cbn [ranges]; rewrite <- Hsz; repeat progress (rewrite ?length_app, ?length_map; cbn [length]); lia|].
        cbn [nranges ranges]; split; [rewrite !length_app, length_map; done|]; exists g; now rewrite <- app_assoc.
      * apply (sorted_join restop pre ((s, t) :: rest)); auto; [lia|apply sorted_cap].
        cbn [sorted_from] in *; destruct Hrest as (? & ? & ?); repeat split; lia || done.
      * destruct pre as [|[s0 t0] pre]; [exact H0|exact H0].
      * cbn [map fst snd]; apply (separate_join _ (s, t) rest); auto; [unfold cap; destruct (Z.eqb_spec t 1); lia|].
        apply (separate_cap ((s, t) :: rest)).
      * apply capped_app; [done| |].
        -- intros a d Ha; cbn; now rewrite (proj2 (Z.leb_gt s a)) by lia.
        -- intros a Ha; destruct (Z.eqb_spec (last_type pre 0) 1) as [E|E].
           ++ specialize (Hinv E); cbn [map type_at fst snd]; rewrite (proj2 (Z.leb_le s a)) by lia; apply type_at_cap.
           ++ replace (last_type pre 0) with (cap (last_type pre 0)) at 1
                by (unfold cap; now rewrite (proj2 (Z.eqb_neq _ _) E)).
              apply type_at_cap.
    + destruct m as [rs n]; cbn [ranges nranges] in *; subst rs n.
      pose proof Hok as [Hl H0]; destruct (sorted_mid _ _ _ _ _ Hl) as [Hs Ht].
      rewrite <- app_assoc; cbn [restrict ranges nranges app]; rewrite lookup_mid by done; cbn [fst snd].
      rewrite (proj2 (Z.eqb_neq t END_TYPE)) by lia.
      set (next := match rest with (s', _) :: _ => s' | [] => 0 end).
      assert (Hnext : exists t', (pre ++ (s, t) :: rest ++ (0, END_TYPE) :: g) !! S (length pre) = Some (next, t')).
      { replace (pre ++ (s, t) :: rest ++ (0, END_TYPE) :: g) with ((pre ++ [(s, t)]) ++ rest ++ (0, END_TYPE) :: g)
          by now rewrite <- app_assoc.
        destruct rest as [|[s' t'] rest]; eexists; cbn [app]; apply lookup_mid; rewrite length_app; cbn; lia. }
      destruct Hnext as [t' ->]; cbn [fst]; rewrite (proj2 (Z.leb_gt restop s)) by lia.
      assert (Hp' : below restop (pre ++ [(s, t)])) by (apply Forall_app; split; [done|constructor; [done|constructor]]).
      assert (Hskip : (t = 1 -> next <= restop /\ rest <> []) ->
        exists m' l', restrict fuel restop (S (length pre))
            (Map (pre ++ (s, t) :: rest ++ (0, END_TYPE) :: g) (length (pre ++ (s, t) :: rest))) = Some m' /\
          holds m' l' /\ map_ok l' /\ separate l' /\ capped restop (pre ++ (s, t) :: rest) l').
      { intros Hnx; replace (S (length pre)) with (length (pre ++ [(s, t)])) by (rewrite length_app; cbn; lia).
        specialize (IH (pre ++ [(s, t)]) fuel (Map (pre ++ (s, t) :: rest ++ (0, END_TYPE) :: g) (length (pre ++ (s, t) :: rest)))).
        rewrite <- (app_assoc pre) in IH; cbn [app] in IH; apply IH; auto.
        - split; [rewrite <- Hsz; now rewrite <- app_assoc|split; [done|exists g; now rewrite <- app_assoc]].
        - cbn [length] in Hf; lia.
        - rewrite last_type_snoc; intros E; destruct (Hnx E) as [H1 H2]; destruct rest as [|[s' t''] rest]; [done|exact H1]. }
      destruct (Z.eqb_spec t 1) as [->|Hne]; [|apply Hskip; done].
      destruct rest as [|[s' t''] rest]; [apply separate_app in Hsep; destruct Hsep; done|]; cbn in next.
      destruct (Z.ltb_spec restop next) as [Hlt'|]; [|apply Hskip; intros _; split; [done|discriminate]].
      apply (restrict_split restop pre s s' t'' rest g fuel); auto; cbn [length] in Hf; lia.
Qed.

(** Limiting memory reserves all memory from the limit on and nothing else; the
    map stays sorted and complete although the ranges are changed while they are
    walked, and the sizes are read from the new map. *)
Theorem setmaxmem_correct m l restop_ull :
  holds m l -> map_ok l -> canonical l -> bounded l -> (length l + 2 < MAXRANGES)%nat -> 0 <= restop_ull ->
  exists m' s l', setmaxmem restop_ull m = Some (m', s) /\ holds m' l' /\ map_ok l' /\
    capped (Z.min restop_ull 4294967295) l l' /\
    run l' 0 (2 ^ 20) (dos_mem s) /\ run l' (2 ^ 20) (2 ^ 24) (low_mem s) /\ run l' (2 ^ 24) (2 ^ 32) (high_mem s).
Proof.
  intros Hm Hl Hc Hb Hroom H0; unfold setmaxmem; pose proof (canonical_separate l Hc Hb) as Hsep.
  destruct (restrict_spec (Z.min restop_ull 4294967295) ltac:(unfold TOP; lia) l [] (S MAXRANGES) m)
    as (m' & l' & E & Hm' & Hl' & Hsep' & Hcap); auto; try solve [lia | constructor | discriminate | unfold TOP; lia].
  cbn [length] in E; rewrite E.
  destruct (parse_mem_step m' l' Hm' Hl' Hsep') as (s & -> & R); exists m', s, l'; auto.
Qed.

(** ** The place of the image *)

Lemma align_64 p : 0 <= p < TOP -> Z.land p (18446744073709551616 - UNZIP_ALIGN) = 512 * (p / 512).
Proof.
  intros Hp; change (18446744073709551616 - UNZIP_ALIGN) with (Z.land (Z.ones 64) (Z.lnot (Z.ones 9))).
  rewrite Z.land_assoc, Z.land_ones, Z.mod_small by (unfold TOP in *; lia).
  rewrite <- Z.ldiff_land, Z.ldiff_ones_r, Z.shiftl_mul_pow2, Z.shiftr_div_pow2 by lia.
  change (2 ^ 9) with 512; lia.
Qed.

Lemma align_32 p : is_u32 p -> align_down p UNZIP_ALIGN = 512 * (p / 512).
Proof. intros Hp; now apply (align_down_spec p 9). Qed.

(** What is chosen in a range: the image ends before the range does, and overlaps
    neither the compressed data nor their new place. *)
Lemma place_in_spec start next where_ size gz g w :
  0 <= start <= 0xFFFFFE00 -> (next = 0 \/ start < next < TOP) ->
  0 <= where_ -> 0 <= size < 4294967296 -> 0 <= gz < 4294967296 ->
  place_in start next where_ size gz = Some (g, w) ->
  start <= g /\ (512 | g) /\ g + gz <= 0xffffffff /\ (next <> 0 -> g + gz <= next) /\
  ((w = where_ /\ (w + size < g \/ g + gz <= w)) \/ (start <= w /\ w + size <= g)).
Proof.
  intros Hs Hn Hw Hsize Hgz; unfold place_in; rewrite (proj2 (Z.leb_gt _ _)) by lia.
  set (e := if (0xffffffff <=? next) || (next =? 0) then 0xffffffff else u32 next).
  assert (He : start < e <= 0xffffffff /\ (next <> 0 -> e <= next)).
  { subst e; destruct (Z.leb_spec 0xffffffff next); cbn [orb]; [lia|].
    destruct (Z.eqb_spec next 0); [lia|]; rewrite u32_small by lia; lia. }
  clearbody e; rewrite u64_small by (unfold UNZIP_ALIGN; lia); rewrite align_64 by (unfold TOP, UNZIP_ALIGN; lia).
  rewrite u32_small by (unfold UNZIP_ALIGN; Z.to_euclidean_division_equations; lia).
  set (b := 512 * ((start + (UNZIP_ALIGN - 1)) / 512)).
  assert (Hb : start <= b /\ exists q, b = 512 * q)
    by (split; [subst b; unfold UNZIP_ALIGN; Z.to_euclidean_division_equations; lia|eexists; reflexivity]).
  clearbody b; destruct (Z.leb_spec e b); [discriminate|]; destruct (Z.ltb_spec (e - b) gz); [discriminate|].
  rewrite (u32_small (e - gz)), align_32 by (unfold is_u32; lia); destruct Hb as (Hb & q & Hq).
  set (gw := 512 * ((e - gz) / 512)).
  assert (Hg : b <= gw /\ gw + gz <= e /\ (512 | gw)).
  { split; [|split; [|exists ((e - gz) / 512); subst gw; lia]]; subst gw b; Z.to_euclidean_division_equations; lia. }
  clearbody gw; destruct ((gw <=? where_ + size) && (where_ <? e)) eqn:E.
  - rewrite (u32_small (gw - b)) by lia; destruct (Z.ltb_spec (gw - b) size); [discriminate|].
    rewrite (u32_small (gw - size)), align_32 by (unfold is_u32; lia); intros [= <- <-].
    repeat split; try lia; [tauto|]; right; subst b; Z.to_euclidean_division_equations; lia.
  - intros [= <- <-]; bools; repeat split; try lia; tauto || lia.
Qed.

Lemma type_at_index l : forall i lo s t x d,
  sorted_from lo l -> l !! i = Some (s, t) -> s <= x ->
  (forall s' t', l !! S i = Some (s', t') -> x < s') -> type_at l x d = t.
Proof.
  induction l as [|[s0 t0] l IH]; intros i lo s t x d Hl Hi Hx Hn; [done|]; destruct Hl as (Hs & _ & Hl).
  destruct i as [|i]; cbn in Hi; cbn [type_at].
  - injection Hi as -> ->; rewrite (proj2 (Z.leb_le s x)) by lia.
    destruct l as [|[s' t'] l]; [done|]; specialize (Hn s' t' eq_refl); cbn; now rewrite (proj2 (Z.leb_gt s' x)) by lia.
  - assert (s0 <= x).
    { destruct (list_elem_of_split_length _ _ _ Hi) as (b & a & -> & _); apply sorted_mid in Hl; lia. }
    rewrite (proj2 (Z.leb_le s0 x)) by lia; apply (IH i (s0 + 1) s); auto.
Qed.

(** No memory begins in the last 511 bytes below 4 GB. *)
Definition no_high_start (l : list e820range) : Prop :=
  Forall (fun r => r.2 = 1 -> r.1 <= 0xFFFFFE00 \/ 0xffffffff <= r.1) l.

(** The disk image is unpacked to memory: every byte of it, and of the compressed
    data if they are moved, is memory by the map, below 4 GB; the image begins at a
    multiple of 512, and the compressed data are never where the image goes. *)
Theorem find_place_correct m l where_ size gz g w :
  holds m l -> map_ok l -> no_high_start l -> 0 <= where_ -> 0 <= size < 4294967296 -> 0 <= gz < 4294967296 ->
  find_place (nranges m) where_ size gz (ranges m) = Some (Some (g, w)) ->
  (512 | g) /\ g + gz <= 0xffffffff /\ (forall x, g <= x < g + gz -> type_at l x 0 = 1) /\
  (w + size <= g \/ g + gz <= w) /\
  (w <> where_ -> forall x, w <= x < w + size -> type_at l x 0 = 1).
Proof.
  intros (_ & Hn & ge & Hr) [Hl _] Hhigh Hw Hsize Hgz; rewrite Hn, Hr.
  assert (Hi : (length l <= length l)%nat) by lia; revert Hi; generalize (length l) at 1 3 as i.
  induction i as [|i IH]; cbn [find_place]; [discriminate|]; intros Hi.
  destruct (lookup_lt_is_Some_2 l i ltac:(lia)) as [[s t] El]; rewrite lookup_app_l, El by lia.
  assert (Hnext : exists next t', (l ++ (0, END_TYPE) :: ge) !! S i = Some (next, t') /\
    ((next = 0 /\ l !! S i = None) \/ (l !! S i = Some (next, t') /\ s < next < TOP))).
  { destruct (l !! S i) as [[s' t']|] eqn:E'.
    - exists s', t'; rewrite lookup_app_l by (apply lookup_lt_Some in E'; lia); split; [done|right; split; [done|]].
      assert (l = take i l ++ (s, t) :: (s', t') :: drop (S (S i)) l) as Hsp by (now rewrite <- !drop_S, take_drop by done).
      rewrite Hsp in Hl; pose proof Hl as Hl'; apply sorted_suffix_any in Hl; cbn [sorted_from] in Hl; lia.
    - apply lookup_ge_None_1 in E'; exists 0, END_TYPE; split; [|now left].
      apply lookup_mid; lia. }
  destruct Hnext as (next & t' & -> & Hnx); cbn [fst snd].
  destruct (Z.eqb_spec t 1) as [->|]; [|apply IH; lia].
  destruct (place_in s next where_ size gz) as [[g0 w0]|] eqn:E; [|apply IH; lia]; intros [= -> ->].
  pose proof (list_elem_of_lookup_2 _ _ _ El) as Hin; unfold no_high_start in Hhigh; rewrite Forall_forall in Hhigh.
  assert (Hs : 0 <= s <= 0xFFFFFE00).
  { destruct (list_elem_of_split_length _ _ _ El) as (b & a & -> & _); apply sorted_mid in Hl.
    destruct (Hhigh _ Hin eq_refl) as [?|?]; cbn in *; [lia|].
    unfold place_in in E; now rewrite (proj2 (Z.leb_le 4294967295 s)) in E by lia. }
  apply place_in_spec in E as (H1 & H2 & H3 & H4 & H5); [|lia|destruct Hnx; [left|right]; tauto|lia..].
  assert (Hram : forall x, s <= x -> x < g + gz -> type_at l x 0 = 1).
  { intros x Hx Hx'; apply (type_at_index l i 0 s); auto; intros s' t'' E'.
    destruct Hnx as [[-> Hnx]|[Hnx ?]]; rewrite Hnx in E'; [discriminate|]; injection E' as <- <-; lia. }
  split; [done|split; [done|split; [intros x Hx; apply Hram; lia|split; [lia|]]]].
  intros Hne x Hx; destruct H5 as [[-> _]|H5]; [done|]; apply Hram; lia.
Qed.

(** ** A machine with 640 KB and 31 MB of memory *)

Lemma init_holds : holds e820map_init [(0, 0)].
Proof. split; [reflexivity|split; [reflexivity|exists (replicate 1022 (0, 0)); reflexivity]]. Qed.

Definition small_map : e820map :=
  default e820map_init
    (let* m := insertrange 0 0xA0000 1 e820map_init in insertrange 0x100000 0x1F00000 1 m).
Definition small_ranges : list e820range := [(0, 1); (0xA0000, 0); (0x100000, 1); (0x2000000, 0)].

Lemma small_holds : holds small_map small_ranges.
Proof.
  split; [reflexivity|split; [reflexivity|exists (replicate 1019 (0, 0))]].
  vm_compute; reflexivity.
Qed.

Lemma small_map_ok : map_ok small_ranges /\ canonical small_ranges /\ bounded small_ranges.
Proof. split; [split; [cbn; unfold TOP, END_TYPE; lia|done]|split; [cbn; lia|done]]. Qed.

Lemma insertrange_correct_witness :
  exists m', insertrange 0x80000 0x100000 2 small_map = Some m' /\
    exists l', holds m' l' /\ type_at l' 0xF0000 0 = 2 /\ type_at l' 0x70000 0 = 1.
Proof.
  destruct (insertrange_correct small_map small_ranges 0x80000 0x100000 2) as (m' & l' & E & Hm & _ & _ & _ & Ht);
    [exact small_holds|apply small_map_ok|cbn; unfold MAXRANGES; lia|lia|lia|unfold TOP; lia|unfold END_TYPE; lia|].
  exists m'; split; [exact E|]; exists l'; split; [exact Hm|].
  split; (rewrite Ht by (unfold TOP; lia)); reflexivity.
Defined.

Lemma parse_mem_correct_witness :
  exists s, parse_mem small_map = Some s /\ run small_ranges 0 (2 ^ 20) (dos_mem s) /\
    dos_mem s = 0xA0000 /\ low_mem s = 0xF00000 /\ high_mem s = 0x1000000.
Proof.
  destruct (parse_mem_correct small_map small_ranges) as (s & E & Hr & _); [exact small_holds|apply small_map_ok..|].
  exists s; split; [exact E|split; [exact Hr|]]; vm_compute in E; injection E as <-; done.
Defined.

Lemma setmaxmem_correct_witness :
  exists m' s, setmaxmem 0x1800000 small_map = Some (m', s) /\ high_mem s = 0x800000 /\
    exists l', holds m' l' /\ capped 0x1800000 small_ranges l'.
Proof.
  destruct (setmaxmem_correct small_map small_ranges 0x1800000) as (m' & s & l' & E & Hm & _ & Hc & _);
    [exact small_holds|apply small_map_ok..|cbn; unfold MAXRANGES; lia|lia|].
  exists m', s; split; [exact E|split; [|exists l'; split; [exact Hm|exact Hc]]].
  vm_compute in E; injection E as _ <-; reflexivity.
Defined.

Lemma find_place_correct_witness :
  find_place (nranges small_map) 0x1FF0000 0x8000 0x200000 (ranges small_map) = Some (Some (0x1E00000, 0x1DF8000)) /\
  forall x, 0x1DF8000 <= x < 0x1E00000 -> type_at small_ranges x 0 = 1.
Proof.
  assert (E : find_place (nranges small_map) 0x1FF0000 0x8000 0x200000 (ranges small_map) =
    Some (Some (0x1E00000, 0x1DF8000))) by (vm_compute; reflexivity).
  split; [exact E|].
  destruct (find_place_correct small_map small_ranges 0x1FF0000 0x8000 0x200000 0x1E00000 0x1DF8000) as (_ & _ & _ & _ & H);
    [exact small_holds|apply small_map_ok|repeat constructor; cbn; lia|lia..|exact E|].
  intros x Hx; apply H; [lia|exact Hx].
Defined.

(** A range that goes past 2^64 leaves a map that is not sorted. *)
Example wrapping_range :
  option_map (fun m => take (nranges m) (ranges m)) (insertrange 0x8000000000000000 0x8000000000001000 2 small_map) =
  Some [(0, 1); (0xA0000, 0); (0x100000, 1); (0x2000000, 0); (0x8000000000000000, 2); (0x1000, 0)].
Proof. vm_compute; reflexivity. Qed.

(** The loader's own memory ends at [_end], but the image may go below it: what the
    comparison with [_end] leaves is overwritten by the alignment. *)
Example place_over_loader :
  place_in 0x100000 0x200000 0x8000000 0x1000 0x100000 = Some (0x100000, 0x8000000).
Proof. reflexivity. Qed.

(** A range in the last 511 bytes below 4 GB is taken to begin at 0. *)
Example place_wraps :
  place_in 0xFFFFFF00 0 0x100000 0x1000 0x100000 = Some (0xFFEFFE00, 0x100000).
Proof. reflexivity. Qed.

(** A map whose last range is memory has no size: the end mark's start is 0. *)
Example memory_to_the_top :
  option_map high_mem (let* m := insertrange 0x10000 0xFFFFFFFFFFFF0000 1 small_map in parse_mem m) = Some 0.
Proof. vm_compute; reflexivity. Qed.
