(* ===== verification/Url.v ===== *)
(** * URLs of PXELINUX: core/fs/pxe/urlparse.c

    A URL is taken apart in place: the separators become NULs, and the parts are
    pointers into the buffer.  Unescaping is done in place too, the writer behind
    the reader. *)

From S2P Require Import Prelude.

Open Scope word_scope.

(** ** Strings in a buffer *)

(** The string at an offset, up to its NUL or the end of the buffer. *)
Fixpoint c_string (buf : list Z) : list Z :=
  match buf with [] => [] | c :: buf => if c =? 0 then [] else c :: c_string buf end.

Definition string_at (p : nat) (buf : list Z) : list Z := c_string (drop p buf).

(** The offset of a character in the string at [p]; a NUL is found at its end, which
    none of the callers asks for. *)
Fixpoint strchr_from (s : list Z) (p : nat) (c : Z) : option nat :=
  match s with
  | [] => None
  | x :: s => if x =? c then Some p else if x =? 0 then None else strchr_from s (S p) c
  end.

Definition strchr (p : nat) (c : Z) (buf : list Z) : option nat := strchr_from (drop p buf) p c.

Notation colon := 58.
Notation slash := 47.
Notation at_sign := 64.
Notation hash := 35.

(** ** Parsing *)

(** [src/core/fs/pxe/url.h:11-15 enum url_type] *)
Inductive url_type_t := URL_NORMAL | URL_OLD_TFTP | URL_SUFFIX.

(** [src/core/fs/pxe/urlparse.c:40-55 url_type] *)
Definition url_type (url : list Z) : url_type_t :=
  match strchr 0 colon url with
  | None => URL_SUFFIX
  | Some q =>
      if (byte_at url (q + 1) =? slash) && (byte_at url (q + 2) =? slash) then URL_NORMAL
      else if byte_at url (q + 1) =? colon then URL_OLD_TFTP
      else URL_SUFFIX
  end.

(** A part: none, a place in the buffer, or a constant of the program. *)
Inductive part := NULL | At (p : nat) | Const (s : list Z).

(** [src/core/fs/pxe/url.h:17-26 struct url_info] *)
Record url_info := Url {
  scheme : part; user : part; passwd : part; host : part; port : Z; path : part; type : url_type_t
}.

Definition part_string (buf : list Z) (p : part) : option (list Z) :=
  match p with NULL => None | At p => Some (string_at p buf) | Const s => Some s end.

(** The digits of a port; what is less than a digit counts as a negative one.
    [src/core/fs/pxe/urlparse.c:106-111 parse_url] *)
Fixpoint parse_port (s : list Z) (port : Z) : Z :=
  match s with
  | [] => port
  | c :: s =>
      if c =? 0 then port
      else
        let c := (if c <? 128 then c else c - 256) - 48 in
        if 9 <? c then port else parse_port s (u32 (port * 10 + c))
  end.

(** The user and the password before an at sign.
    [src/core/fs/pxe/urlparse.c:90-100 parse_url] *)
Definition parse_user (p : nat) (buf : list Z) : part * part * nat * list Z :=
  match strchr p at_sign buf with
  | Some r =>
      let buf := <[r := 0]> buf in
      let '(passwd, buf) :=
        match strchr p colon buf with
        | Some s => (At (s + 1), <[s := 0]> buf)
        | None => (NULL, buf)
        end in
      (At p, passwd, (r + 1)%nat, buf)
  | None => (NULL, NULL, p, buf)
  end.

(** [src/core/fs/pxe/urlparse.c:62-123 parse_url] *)
Definition parse_url (url : list Z) : url_info * list Z :=
  match strchr 0 colon url with
  | Some q =>
      if (byte_at url (q + 1) =? slash) && (byte_at url (q + 2) =? slash) then
        let buf := <[q := 0]> url in
        let p := (q + 3)%nat in
        let '(path, buf) :=
          match strchr p slash buf with
          | Some q =>
              let buf := <[q := 0]> buf in
              (At (q + 1), match strchr (q + 1) hash buf with Some q => <[q := 0]> buf | None => buf end)
          | None => (Const [], buf)
          end in
        let '(user, passwd, p, buf) := parse_user p buf in
        let '(port, buf) :=
          match strchr p colon buf with
          | Some r => (parse_port (drop (r + 1) buf) 0, <[r := 0]> buf)
          | None => (0, buf)
          end in
        (Url (At 0) user passwd (At p) port path URL_NORMAL, buf)
      else if byte_at url (q + 1) =? colon then
        (Url (Const [116; 102; 116; 112]) NULL NULL (At 0) 0 (At (q + 2)) URL_OLD_TFTP, <[q := 0]> url)
      else (Url NULL NULL NULL NULL 0 (At 0) URL_SUFFIX, url)
  | None => (Url NULL NULL NULL NULL 0 (At 0) URL_SUFFIX, url)
  end.

(** ** Escaping *)

Definition unsafe (c : Z) : bool := (c <=? 32) || (126 <? c).

(** [src/core/fs/pxe/urlparse.c:132-132 uchexchar] *)
Definition uchexchar (d : Z) : Z := if d <? 10 then 48 + d else 55 + d.

(** A character is stored as long as one more fits; it is counted in any case. *)
Definition emit (bufsize : Z) (r : list Z * Z) (c : Z) : list Z * Z :=
  (if r.2 + 1 <? bufsize then r.1 ++ [c] else r.1, r.2 + 1).

(** What is stored, and the number of characters; [None] when the NUL is written past
    the buffer.
    [src/core/fs/pxe/urlparse.c:130-151 url_escape_unsafe] *)
Definition url_escape_unsafe (input : list Z) (bufsize : Z) : option (list Z * Z) :=
  let r := fold_left (fun r c =>
    if unsafe c then
      emit bufsize (emit bufsize (emit bufsize r 37) (uchexchar (Z.shiftr c 4))) (uchexchar (Z.land c 15))
    else emit bufsize r c) (c_string input) ([], 0) in
  if bufsize <=? Z.of_nat (length r.1) then None else Some (r.1 ++ [0], r.2).

(** [src/core/fs/pxe/urlparse.c:153-161 hexdigit] *)
Definition hexdigit (c : Z) : Z :=
  if (48 <=? c) && (c <=? 57) then c - 48
  else
    let c := Z.lor c 0x20 in
    if (97 <=? c) && (c <=? 102) then c - 97 + 10 else -1.

(** The reader at [p], the writer at [q]: the position of the terminator, [None] for
    NULL, and the buffer.
    [src/core/fs/pxe/urlparse.c:176-198 url_unescape] *)
Fixpoint unescape_loop (fuel : nat) (p q : nat) (terminator : Z) (buf : list Z)
  : option (option nat * list Z) :=
  match fuel with
  | O => None
  | S fuel =>
      let* c := buf !! p in
      if c =? 0 then Some (None, <[q := 0]> buf)
      else if c =? terminator then Some (Some p, <[q := 0]> buf)
      else
        let p := S p in
        let copy := unescape_loop fuel p (S q) terminator (<[q := c]> buf) in
        if c =? 37 then
          let* d := buf !! p in
          let x := hexdigit d in
          if 0 <=? x then
            let* d := buf !! S p in
            let y := hexdigit d in
            if 0 <=? y then unescape_loop fuel (p + 2) (S q) terminator (<[q := u8 (Z.shiftl x 4 + y)]> buf)
            else copy
          else copy
        else copy
  end.

(** [src/core/fs/pxe/urlparse.c:170-198 url_unescape] *)
Definition url_unescape (buffer : list Z) (terminator : Z) : option (option nat * list Z) :=
  unescape_loop (S (length buffer)) 0 0 terminator buffer.

(** ** A URL and its parts *)

(** The parts as they are written: a user with a password or without, the digits of a
    port, a path with a fragment or without. *)
Record parts := Parts {
  u_scheme : list Z;
  u_user : option (list Z * option (list Z));
  u_host : list Z;
  u_port : option (list Z);
  u_path : option (list Z * option (list Z))
}.

Definition opt (sep : list Z) (s : option (list Z)) : list Z := match s with Some s => sep ++ s | None => [] end.

Definition user_text (u : parts) : list Z :=
  match u_user u with Some (name, pw) => name ++ opt [colon] pw ++ [at_sign] | None => [] end.
Definition port_text (u : parts) : list Z := u_host u ++ opt [colon] (u_port u).
Definition path_text (u : parts) : list Z :=
  match u_path u with Some (p, f) => slash :: p ++ opt [hash] f | None => [] end.

Definition url_text (u : parts) : list Z :=
  u_scheme u ++ [colon; slash; slash] ++ user_text u ++ port_text u ++ path_text u.

(** No character of [l] in a string. *)
Definition lacks (l s : list Z) : Prop := Forall (fun c => ~ c ∈ l) s.

Record parts_ok (u : parts) : Prop := {
  ok_scheme : lacks [0; colon] (u_scheme u);
  ok_user : forall name pw, u_user u = Some (name, pw) -> lacks [0; colon; slash; at_sign] name /\
    forall w, pw = Some w -> lacks [0; slash; at_sign] w;
  ok_host : lacks [0; colon; slash; at_sign] (u_host u);
  ok_port : forall d, u_port u = Some d -> Forall (fun c => 48 <= c <= 57) d;
  ok_path : forall p f, u_path u = Some (p, f) -> lacks [0; hash] p /\ forall g, f = Some g -> lacks [0] g
}.

Lemma lacks_weaken l l' s : (forall c, c ∈ l' -> c ∈ l) -> lacks l s -> lacks l' s.
Proof. intros H Hs; eapply Forall_impl; [exact Hs|]; cbn; intros c Hc Hin; auto. Qed.

#[local] Ltac side :=
  first [done | now rewrite <- ?app_assoc | rewrite ?length_app; cbn [length]; lia
    | eapply lacks_weaken; [|eassumption]; set_solver].

Lemma strchr_found pre s c rest p :
  p = length pre -> lacks [0; c] s -> strchr p c (pre ++ s ++ c :: rest) = Some (p + length s)%nat.
Proof.
  intros -> Hs; unfold strchr; rewrite drop_app_length; generalize (length pre); clear pre.
  induction s as [|x s IH]; intros p; cbn [app strchr_from length]; [now rewrite Z.eqb_refl, Nat.add_0_r|].
  inversion_clear Hs as [|? ? Hx Hs']; rewrite (proj2 (Z.eqb_neq x c)), (proj2 (Z.eqb_neq x 0)) by set_solver.
  rewrite IH by done; f_equal; lia.
Qed.

Lemma strchr_none pre s c rest p :
  p = length pre -> lacks [0; c] s -> c <> 0 -> strchr p c (pre ++ s ++ 0 :: rest) = None.
Proof.
  intros -> Hs Hc; unfold strchr; rewrite drop_app_length; generalize (length pre); clear pre.
  induction s as [|x s IH]; intros p; cbn [app strchr_from].
  - now rewrite (proj2 (Z.eqb_neq 0 c)) by lia.
  - inversion_clear Hs as [|? ? Hx Hs']; rewrite (proj2 (Z.eqb_neq x c)), (proj2 (Z.eqb_neq x 0)) by set_solver; auto.
Qed.

Lemma set_nul pre c rest (q : nat) : q = length pre -> <[q := 0]> (pre ++ c :: rest) = pre ++ 0 :: rest.
Proof. intros ->; now rewrite insert_app_r_alt, Nat.sub_diag by lia. Qed.

Lemma string_at_app pre s rest p : p = length pre -> lacks [0] s -> string_at p (pre ++ s ++ 0 :: rest) = s.
Proof.
  intros -> Hs; unfold string_at; rewrite drop_app_length.
  induction s as [|c s IH]; cbn; [done|]; inversion_clear Hs as [|? ? Hc Hs'].
  rewrite (proj2 (Z.eqb_neq c 0)) by set_solver; f_equal; auto.
Qed.

(** The path is cut off the rest. *)
Lemma parse_path_spec pre auth u p :
  p = length pre -> lacks [0; slash] auth -> parts_ok u ->
  exists part rest, (match strchr p slash (pre ++ auth ++ path_text u ++ [0]) with
      | Some q =>
          (At (q + 1), match strchr (q + 1) hash (<[q := 0]> (pre ++ auth ++ path_text u ++ [0])) with
             | Some q' => <[q' := 0]> (<[q := 0]> (pre ++ auth ++ path_text u ++ [0]))
             | None => <[q := 0]> (pre ++ auth ++ path_text u ++ [0]) end)
      | None => (Const [], pre ++ auth ++ path_text u ++ [0])
      end) = (part, pre ++ auth ++ 0 :: rest) /\
    match u_path u with
    | None => part = Const []
    | Some (s, _) => part = At (p + length auth + 1) /\ exists r, rest = s ++ 0 :: r
    end.
Proof.
  intros -> Ha Hok; unfold path_text; destruct (u_path u) as [[s f]|] eqn:Eu.
  - destruct (ok_path _ Hok s f Eu) as [Hs Hf]; cbn [app].
    rewrite (strchr_found pre auth slash) by side; cbn zeta.
    rewrite (app_assoc pre auth), set_nul by (rewrite !length_app; lia).
    replace (length pre + length auth + 1)%nat with (length ((pre ++ auth) ++ [0])) by (rewrite !length_app; cbn; lia).
    destruct f as [g|]; cbn [opt]; rewrite <- ?app_assoc; cbn [app].
    + replace (pre ++ auth ++ 0 :: s ++ hash :: g ++ [0]) with (((pre ++ auth) ++ [0]) ++ s ++ hash :: g ++ [0])
        by now rewrite <- !app_assoc.
      rewrite strchr_found by side.
      rewrite (app_assoc _ s), set_nul by (rewrite !length_app; lia).
      eexists _, (s ++ 0 :: g ++ [0]); split; [|split; [f_equal; rewrite !length_app; cbn; lia|eauto]].
      f_equal; now rewrite <- !app_assoc.
    + replace (pre ++ auth ++ 0 :: s ++ [0]) with (((pre ++ auth) ++ [0]) ++ s ++ 0 :: [])
        by now rewrite <- !app_assoc.
      rewrite strchr_none by side.
      eexists _, (s ++ [0]); split; [|split; [f_equal; rewrite !length_app; cbn; lia|eauto]].
      f_equal; now rewrite <- !app_assoc.
  - cbn [app]; rewrite strchr_none by side; exists (Const []), []; done.
Qed.

(** The user and the password before the host. *)
Lemma parse_user_spec pre u rest p :
  p = length pre -> parts_ok u ->
  exists us pw mid, parse_user p (pre ++ (user_text u ++ port_text u) ++ 0 :: rest) =
      (us, pw, (p + length (user_text u))%nat, pre ++ mid ++ port_text u ++ 0 :: rest) /\
    length mid = length (user_text u) /\
    match u_user u with
    | None => us = NULL /\ pw = NULL
    | Some (name, None) => us = At p /\ pw = NULL /\ exists r, mid = name ++ 0 :: r
    | Some (name, Some w) => us = At p /\ pw = At (p + length name + 1) /\ exists r, mid = name ++ 0 :: w ++ 0 :: r
    end.
Proof.
  intros -> Hok; unfold parse_user, user_text; pose proof (ok_host _ Hok) as Hh.
  assert (Hpt : lacks [0; at_sign] (port_text u)).
  { unfold port_text; apply Forall_app; split; [side|].
    destruct (u_port u) as [d|] eqn:Ed; [|constructor]; cbn [opt app]; constructor; [set_solver|].
    eapply Forall_impl; [exact (ok_port _ Hok d Ed)|]; cbn; intros c Hc Hin; repeat (apply elem_of_cons in Hin as [?|Hin]; [lia|]); set_solver. }
  destruct (u_user u) as [[name [w|]]|] eqn:Eu; cbn [opt].
  - destruct (ok_user _ Hok _ _ Eu) as [Hn Hw]; specialize (Hw w eq_refl).
    replace (pre ++ ((name ++ ([colon] ++ w) ++ [at_sign]) ++ port_text u) ++ 0 :: rest)
      with (pre ++ (name ++ colon :: w) ++ at_sign :: port_text u ++ 0 :: rest) by (repeat (rewrite <- app_assoc; cbn [app]); done).
    rewrite strchr_found; [|done|].
    2: { apply Forall_app; split; [side|].
         constructor; [set_solver|side]. }
    cbn zeta; rewrite (app_assoc pre), set_nul by (rewrite !length_app; lia); rewrite <- !app_assoc; cbn [app].
    rewrite strchr_found by side.
    rewrite (app_assoc pre name), set_nul by (rewrite !length_app; lia); rewrite <- !app_assoc.
    eexists _, _, (name ++ 0 :: w ++ [0]); split; [|split; [rewrite !length_app; cbn; rewrite !length_app; cbn; lia|]].
    + f_equal; [f_equal|]; [|repeat (rewrite <- app_assoc; cbn [app]); done].
      repeat (rewrite ?length_app; cbn [length]); lia.
    + split; [done|split; [done|exists []; done]].
  - destruct (ok_user _ Hok _ _ Eu) as [Hn _]; cbn [app].
    replace (pre ++ ((name ++ [at_sign]) ++ port_text u) ++ 0 :: rest)
      with (pre ++ name ++ at_sign :: port_text u ++ 0 :: rest) by (repeat (rewrite <- app_assoc; cbn [app]); done).
    rewrite strchr_found by side.
    cbn zeta; rewrite (app_assoc pre), set_nul by (rewrite !length_app; lia); rewrite <- !app_assoc.
    rewrite strchr_none by side.
    eexists _, _, (name ++ [0]); split; [|split; [rewrite !length_app; cbn; lia|split; [done|split; [done|exists []; done]]]].
    f_equal; [f_equal|]; [|repeat (rewrite <- app_assoc; cbn [app]); done].
    repeat (rewrite ?length_app; cbn [length]); lia.
  - cbn [app]; rewrite strchr_none by side.
    exists NULL, NULL, []; cbn [length app]; rewrite Nat.add_0_r; done.
Qed.

Definition decimal (d : list Z) : Z := fold_left (fun n c => n * 10 + (c - 48)) d 0.

Lemma parse_port_spec d rest : forall n,
  Forall (fun c => 48 <= c <= 57) d ->
  parse_port (d ++ 0 :: rest) (u32 n) = u32 (fold_left (fun n c => n * 10 + (c - 48)) d n).
Proof.
  induction d as [|c d IH]; intros n Hd; cbn [app parse_port fold_left]; [done|].
  inversion_clear Hd as [|? ? Hc Hd']; rewrite (proj2 (Z.eqb_neq c 0)), (proj2 (Z.ltb_lt c 128)) by lia; cbn zeta.
  rewrite (proj2 (Z.ltb_ge 9 (c - 48))) by lia.
  replace (u32 (u32 n * 10 + (c - 48))) with (u32 (n * 10 + (c - 48))); [now apply IH|].
  unfold u32; rewrite <- Zplus_mod_idemp_l, <- Zmult_mod_idemp_l, Zplus_mod_idemp_l; done.
Qed.

(** Taking a URL apart gives back its parts, whichever of them it has: scheme,
    user and password, host, port, path without the fragment; the port is the number
    of its digits modulo 2^32. *)
Theorem parse_url_correct u :
  parts_ok u ->
  let (ui, buf) := parse_url (url_text u ++ [0]) in
  type ui = URL_NORMAL /\ part_string buf (scheme ui) = Some (u_scheme u) /\
  part_string buf (user ui) = option_map fst (u_user u) /\
  part_string buf (passwd ui) = (let* p := u_user u in p.2) /\
  part_string buf (host ui) = Some (u_host u) /\
  port ui = match u_port u with Some d => u32 (decimal d) | None => 0 end /\
  part_string buf (path ui) = Some (match u_path u with Some (p, _) => p | None => [] end).
Proof.
  intros Hok; unfold parse_url, url_text; pose proof (ok_scheme _ Hok) as Hs; pose proof (ok_host _ Hok) as Hh.
  set (sc := u_scheme u) in *; set (auth := user_text u ++ port_text u).
  assert (Ha : lacks [0; slash] auth).
  { unfold auth, user_text, port_text; apply Forall_app; split; [|apply Forall_app; split; [side|]].
    - destruct (u_user u) as [[name pw]|] eqn:Eu; [|constructor]; destruct (ok_user _ Hok _ _ Eu) as [Hn Hw].
      apply Forall_app; split; [side|apply Forall_app; split; [|constructor; [set_solver|constructor]]].
      destruct pw as [w|]; [|constructor]; specialize (Hw w eq_refl); constructor; [set_solver|side].
    - destruct (u_port u) as [d|] eqn:Ed; [|constructor]; constructor; [set_solver|].
      eapply Forall_impl; [exact (ok_port _ Hok d Ed)|]; cbn; intros c Hc Hin; repeat (apply elem_of_cons in Hin as [?|Hin]; [lia|]); set_solver. }
  replace ((sc ++ [colon; slash; slash] ++ user_text u ++ port_text u ++ path_text u) ++ [0])
    with ([] ++ sc ++ colon :: [slash; slash] ++ auth ++ path_text u ++ [0])
    by (unfold auth; repeat (rewrite <- app_assoc; cbn [app]); done).
  rewrite strchr_found by side; cbn [app Nat.add].
  assert (Hb : forall k, byte_at (sc ++ colon :: slash :: slash :: auth ++ path_text u ++ [0]) (length sc + k) =
    byte_at (colon :: slash :: slash :: auth ++ path_text u ++ [0]) k).
  { intros k; unfold byte_at; rewrite lookup_app_r by lia; do 2 f_equal; lia. }
  rewrite !Hb; change (byte_at (colon :: slash :: slash :: auth ++ path_text u ++ [0]) 1) with slash.
  change (byte_at (colon :: slash :: slash :: auth ++ path_text u ++ [0]) 2) with slash; cbn [Z.eqb andb Pos.eqb].
  rewrite set_nul by done.
  set (pre := sc ++ [0; slash; slash]).
  replace (sc ++ 0 :: slash :: slash :: auth ++ path_text u ++ [0]) with (pre ++ auth ++ path_text u ++ [0])
    by (unfold pre; now rewrite <- !app_assoc).
  assert (Hp : (length sc + 3)%nat = length pre) by (unfold pre; rewrite length_app; done).
  destruct (parse_path_spec pre auth u _ Hp Ha Hok) as (pth & rest & E1 & Hpth); rewrite E1; clear E1.
  destruct (parse_user_spec pre u rest _ Hp Hok) as (us & pw & mid & E2 & Hmid & Hus); fold auth in E2; rewrite E2; clear E2.
  assert (Hfin : forall buf mid2 B pt,
    buf = pre ++ mid ++ u_host u ++ 0 :: mid2 -> buf = B ++ 0 :: rest -> length B = (length pre + length auth)%nat ->
    pt = match u_port u with Some d => u32 (decimal d) | None => 0 end ->
    let ui := Url (At 0) us pw (At (length sc + 3 + length (user_text u))) pt pth URL_NORMAL in
    type ui = URL_NORMAL /\ part_string buf (scheme ui) = Some sc /\
    part_string buf (user ui) = option_map fst (u_user u) /\
    part_string buf (passwd ui) = (let* p := u_user u in p.2) /\
    part_string buf (host ui) = Some (u_host u) /\
    port ui = match u_port u with Some d => u32 (decimal d) | None => 0 end /\
    part_string buf (path ui) = Some (match u_path u with Some (p, _) => p | None => [] end)).
  { intros buf mid2 B pt Eb EB HB ->; cbn [type scheme user passwd host port path part_string].
    split; [done|split; [|split; [|split; [|split; [|split; [done|]]]]]].
    - rewrite Eb; unfold pre; rewrite <- !app_assoc; cbn [app]; f_equal; exact (string_at_app [] sc _ 0 eq_refl ltac:(side)).
    - rewrite Eb; destruct (u_user u) as [[name [w|]]|] eqn:Eu; cbn [option_map fst].
      + destruct Hus as (-> & _ & r & ->); cbn [part_string]; rewrite <- app_assoc; cbn [app]; f_equal.
        destruct (ok_user _ Hok _ _ Eu); apply string_at_app; [exact Hp|side].
      + destruct Hus as (-> & _ & r & ->); cbn [part_string]; rewrite <- app_assoc; cbn [app]; f_equal.
        destruct (ok_user _ Hok _ _ Eu); apply string_at_app; [exact Hp|side].
      + destruct Hus as (-> & _); done.
    - rewrite Eb; destruct (u_user u) as [[name [w|]]|] eqn:Eu; cbn [snd].
      + destruct Hus as (_ & -> & r & ->); cbn [part_string]; f_equal.
        destruct (ok_user _ Hok _ _ Eu) as [Hn Hw]; specialize (Hw w eq_refl).
        replace (pre ++ (name ++ 0 :: w ++ 0 :: r) ++ u_host u ++ 0 :: mid2)
          with ((pre ++ name ++ [0]) ++ w ++ 0 :: r ++ u_host u ++ 0 :: mid2) by (repeat (rewrite <- app_assoc; cbn [app]); done).
        apply string_at_app; [rewrite Hp, !length_app; cbn [length]; lia|side].
      + destruct Hus as (_ & -> & _); done.
      + destruct Hus as (_ & ->); done.
    - rewrite Eb, app_assoc; f_equal; apply string_at_app; [rewrite Hp, !length_app; lia|side].
    - rewrite EB; destruct (u_path u) as [[s f]|] eqn:Eu; [|now rewrite Hpth].
      destruct Hpth as (-> & r & ->); cbn [part_string]; f_equal; destruct (ok_path _ Hok _ _ Eu).
      replace (B ++ 0 :: s ++ 0 :: r) with ((B ++ [0]) ++ s ++ 0 :: r) by now rewrite <- app_assoc.
      apply string_at_app; [rewrite length_app, HB, Hp; cbn [length]; lia|side]. }
  assert (Hq : (length sc + 3 + length (user_text u))%nat = length (pre ++ mid)) by (rewrite Hp, length_app, Hmid; done).
  unfold port_text in *; destruct (u_port u) as [d|] eqn:Ed; cbn [opt].
  - replace (pre ++ mid ++ (u_host u ++ [colon] ++ d) ++ 0 :: rest) with ((pre ++ mid) ++ u_host u ++ colon :: d ++ 0 :: rest)
      by (repeat (rewrite <- app_assoc; cbn [app]); done).
    rewrite strchr_found by (exact Hq || side); rewrite Hq at 1 2.
    rewrite (app_assoc (pre ++ mid) (u_host u)), set_nul by (rewrite !length_app; lia).
    apply (Hfin _ (d ++ 0 :: rest) (((pre ++ mid) ++ u_host u) ++ 0 :: d)).
    + now rewrite <- !app_assoc.
    + now rewrite <- !app_assoc.
    + unfold auth, port_text; rewrite ?Ed; cbn [opt]; repeat (rewrite ?length_app; cbn [length]); lia.
    + replace (length sc + 3 + length (user_text u) + length (u_host u) + 1)%nat with (length (((pre ++ mid) ++ u_host u) ++ [colon]))
        by (rewrite Hq, !length_app; cbn [length]; lia).
      replace (((pre ++ mid) ++ u_host u) ++ colon :: d ++ 0 :: rest)
        with ((((pre ++ mid) ++ u_host u) ++ [colon]) ++ d ++ 0 :: rest) by now rewrite <- app_assoc.
      rewrite drop_app_length; apply (parse_port_spec d rest 0); exact (ok_port _ Hok d Ed).
  - rewrite app_nil_r, (app_assoc pre mid), strchr_none by (exact Hq || side).
    apply (Hfin _ rest ((pre ++ mid) ++ u_host u)); [now rewrite <- !app_assoc|now rewrite <- !app_assoc| |done].
    unfold auth, port_text; rewrite ?Ed; cbn [opt]; repeat (rewrite ?length_app; cbn [length]); lia.
Qed.

Example parse_all :
  let '(ui, buf) := parse_url [104; 58; 47; 47; 117; 58; 112; 64; 115; 58; 56; 49; 47; 102; 35; 120; 0] in
  (part_string buf (scheme ui), part_string buf (user ui), part_string buf (passwd ui), part_string buf (host ui),
   port ui, part_string buf (path ui)) =
  (Some [104], Some [117], Some [112], Some [115], 81, Some [102]).
Proof. vm_compute; reflexivity. Qed.

(** The bound of a port's characters is one-sided: what is below '0' is a digit, too. *)
Example port_of_a_blank : parse_port [49; 32; 0] 0 = u32 (10 - 16).
Proof. vm_compute; reflexivity. Qed.

Example parse_url_correct_witness :
  let u := Parts [104] (Some ([117], Some [112; 58])) [115] (Some [56; 49]) (Some ([102; 47], Some [35])) in
  let (ui, buf) := parse_url (url_text u ++ [0]) in
  type ui = URL_NORMAL /\ part_string buf (scheme ui) = Some (u_scheme u) /\
  part_string buf (user ui) = option_map fst (u_user u) /\
  part_string buf (passwd ui) = (let* p := u_user u in p.2) /\
  part_string buf (host ui) = Some (u_host u) /\
  port ui = match u_port u with Some d => u32 (decimal d) | None => 0 end /\
  part_string buf (path ui) = Some (match u_path u with Some (p, _) => p | None => [] end).
Proof.
  intros u; apply (parse_url_correct u).
  assert (Hfree : forall l s, forallb (fun c => negb (existsb (Z.eqb c) l)) s = true -> lacks l s).
  { intros l s H; apply Forall_forall; intros c Hc Hin; apply list_elem_of_In in Hc, Hin.
    rewrite forallb_forall in H; specialize (H c Hc); apply negb_true_iff, not_true_iff_false in H.
    apply H, existsb_exists; exists c; split; [done|apply Z.eqb_refl]. }
  split; cbn.
  - now apply Hfree.
  - intros name pw [= <- <-]; split; [now apply Hfree|intros w [= <-]; now apply Hfree].
  - now apply Hfree.
  - intros d [= <-]; repeat constructor; done.
  - intros p f [= <- <-]; split; [now apply Hfree|intros g [= <-]; now apply Hfree].
Defined.

(** ** Escaping and back *)

Definition escape_char (c : Z) : list Z :=
  if unsafe c then [37; uchexchar (Z.shiftr c 4); uchexchar (Z.land c 15)] else [c].

Definition escape (s : list Z) : list Z := flat_map escape_char s.

(** What is stored of the text [t], and its length. *)
Definition stored (bufsize : Z) (t : list Z) : list Z * Z := (take (Z.to_nat (bufsize - 1)) t, Z.of_nat (length t)).

Lemma emit_stored bufsize t c : emit bufsize (stored bufsize t) c = stored bufsize (t ++ [c]).
Proof.
  unfold emit, stored; cbn [fst snd]; rewrite length_app; cbn [length]; f_equal; [|lia].
  destruct (Z.ltb_spec (Z.of_nat (length t) + 1) bufsize).
  - now rewrite !take_ge by (rewrite ?length_app; cbn [length]; lia).
  - now rewrite take_app_le by lia.
Qed.

Lemma escape_fold bufsize s : forall t,
  fold_left (fun r c =>
    if unsafe c then
      emit bufsize (emit bufsize (emit bufsize r 37) (uchexchar (Z.shiftr c 4))) (uchexchar (Z.land c 15))
    else emit bufsize r c) s (stored bufsize t) = stored bufsize (t ++ escape s).
Proof.
  induction s as [|c s IH]; intros t; cbn [fold_left escape flat_map]; [now rewrite app_nil_r|].
  fold (escape s); unfold escape_char; destruct (unsafe c); rewrite !emit_stored, IH; f_equal;
    repeat (rewrite <- app_assoc; cbn [app]); done.
Qed.

Lemma c_string_lacks s rest : lacks [0] s -> c_string (s ++ 0 :: rest) = s.
Proof. intros H; exact (string_at_app [] s rest 0 eq_refl H). Qed.

(** Escaping stores as much of the escaped text as the buffer holds with its NUL,
    and returns the length of all of it, so a caller can tell that it was cut; a
    buffer of no byte at all is written past. *)
Theorem url_escape_unsafe_correct s rest bufsize :
  lacks [0] s -> 0 <= bufsize ->
  url_escape_unsafe (s ++ 0 :: rest) bufsize =
    if bufsize =? 0 then None
    else Some (take (Z.to_nat (bufsize - 1)) (escape s) ++ [0], Z.of_nat (length (escape s))).
Proof.
  intros Hs Hb; unfold url_escape_unsafe; rewrite c_string_lacks by done.
  replace ([], 0) with (stored bufsize []) by (unfold stored; now rewrite take_nil).
  rewrite escape_fold; cbn [app stored fst snd]; rewrite length_take.
  destruct (Z.eqb_spec bufsize 0) as [->|]; [now rewrite (proj2 (Z.leb_le 0 _)) by lia|].
  now rewrite (proj2 (Z.leb_gt bufsize _)) by lia.
Qed.

Example url_escape_unsafe_correct_witness :
  url_escape_unsafe ([97; 32; 98] ++ 0 :: []) 4 =
    if 4 =? 0 then None
    else Some (take (Z.to_nat (4 - 1)) (escape [97; 32; 98]) ++ [0], Z.of_nat (length (escape [97; 32; 98]))).
Proof. apply (url_escape_unsafe_correct [97; 32; 98] [] 4); [repeat constructor; set_solver|lia]. Defined.

Example escape_cut : url_escape_unsafe [97; 32; 98; 0] 4 = Some ([97; 37; 50; 0], 5).
Proof. vm_compute; reflexivity. Qed.

Example escape_no_room : url_escape_unsafe [0] 0 = None.
Proof. vm_compute; reflexivity. Qed.

(** The text an escaped string stands for, and where its terminator is. *)
Fixpoint unescape (t : Z) (s : list Z) : list Z * option nat :=
  match s with
  | [] => ([], None)
  | c :: s' =>
      let ahead b k (r : list Z * option nat) := (b :: r.1, option_map (Nat.add k) r.2) in
      if c =? t then ([], Some 0%nat)
      else
        match s' with
        | d :: e :: s'' =>
            if (c =? 37) && (0 <=? hexdigit d) && (0 <=? hexdigit e)
            then ahead (u8 (Z.shiftl (hexdigit d) 4 + hexdigit e)) 3%nat (unescape t s'')
            else ahead c 1%nat (unescape t s')
        | _ => ahead c 1%nat (unescape t s')
        end
  end.

(** The writer at [q] is behind the reader: it takes what the reader has left. *)
Lemma write_behind (dn gap : list Z) b rest :
  gap <> [] -> <[length dn := b]> (dn ++ gap ++ rest) = (dn ++ [b]) ++ tl gap ++ rest.
Proof.
  intros H; destruct gap as [|g gap]; [easy|]; cbn [tl].
  rewrite insert_app_r_alt, Nat.sub_diag by lia; cbn; now rewrite <- app_assoc.
Qed.

Lemma hexdigit_nul : hexdigit 0 = -1.
Proof. reflexivity. Qed.

(** Where the text ends: at its terminator, or with all of it. *)
Definition end_of (s : list Z) (stop : option nat) : nat := default (length s) stop.

(** The loop's result for the text [s] in front of it. *)
Definition unescaped t (dn gap s rest : list Z) (res : option nat * list Z) : Prop :=
  let '(out, stop) := unescape t s in
  res.1 = option_map (Nat.add (length dn + length gap)) stop /\
  exists tail, res.2 = dn ++ out ++ 0 :: tail /\
    length res.2 = length (dn ++ gap ++ s ++ 0 :: rest) /\
    forall i, (length dn + length gap + end_of s stop < i)%nat -> res.2 !! i = (dn ++ gap ++ s ++ 0 :: rest) !! i.

Lemma unescaped_end t dn gap s rest stop :
  (unescape t s = ([], stop)) -> (stop = Some 0%nat \/ s = []) ->
  unescaped t dn gap s rest (option_map (Nat.add (length dn + length gap)) stop, <[length dn := 0]> (dn ++ gap ++ s ++ 0 :: rest)).
Proof.
  intros E Hs; unfold unescaped; rewrite E; split; [done|]; cbn [snd app].
  assert (Hg : gap ++ s ++ 0 :: rest <> []) by (destruct gap, s; done).
  pose proof (write_behind dn (gap ++ s ++ 0 :: rest) 0 [] Hg) as Hw; rewrite app_nil_r in Hw.
  exists (tl (gap ++ s ++ 0 :: rest)); split; [|split].
  - rewrite Hw, <- !app_assoc, app_nil_r; done.
  - now rewrite length_insert.
  - intros i Hi; apply list_lookup_insert_ne; lia.
Qed.

Lemma unescaped_step t dn gap c k s s' rest b stop out res :
  length c = k -> s = c ++ s' -> (0 < k)%nat -> unescape t s' = (out, stop) ->
  unescape t s = (b :: out, option_map (Nat.add k) stop) ->
  unescaped t (dn ++ [b]) (tl (gap ++ c)) s' rest res -> unescaped t dn gap s rest res.
Proof.
  intros Hc -> Hk E E' H; unfold unescaped in *; rewrite E in H; rewrite E'; destruct H as [H1 (tail & H2 & H3 & H4)].
  assert (Hl : (length (dn ++ [b]) + length (tl (gap ++ c)) = length dn + length gap + k)%nat).
  { rewrite length_app; cbn [length]; destruct gap as [|g gap]; [destruct c; cbn [length app tl] in *; lia|].
    cbn [app tl]; rewrite length_app; cbn [length]; lia. }
  rewrite Hl in H1, H4; split; [|exists tail; split; [|split]].
  - rewrite H1; destruct stop; cbn [option_map]; [f_equal; lia|done].
  - rewrite H2, <- !app_assoc; done.
  - rewrite H3; repeat (rewrite ?length_app in *; cbn [length] in *); lia.
  - intros i Hi; rewrite H4 by (destruct stop; cbn [end_of option_map default] in *; unfold id in *; rewrite ?length_app in Hi; lia).
    assert (Hdrop : forall (l1 l2 : list Z), length l1 = length l2 -> (length l1 <= i)%nat ->
      (l1 ++ s' ++ 0 :: rest) !! i = (l2 ++ s' ++ 0 :: rest) !! i).
    { intros l1 l2 Hl12 Hi'; rewrite (lookup_app_r l1), (lookup_app_r l2) by lia; now rewrite Hl12. }
    replace (dn ++ gap ++ (c ++ s') ++ 0 :: rest) with ((dn ++ gap ++ c) ++ s' ++ 0 :: rest) by (repeat (rewrite <- app_assoc; cbn [app]); done).
    assert (He : (k <= end_of (c ++ s') (option_map (Nat.add k) stop))%nat)
      by (destruct stop; cbn [end_of option_map default]; unfold id; rewrite ?length_app; lia).
    rewrite (app_assoc (dn ++ [b])); apply Hdrop; rewrite ?length_app in *; lia.
Qed.

Lemma unescape_loop_spec t rest : forall fuel dn gap s,
  (length s < fuel)%nat -> lacks [0] s ->
  exists res, unescape_loop fuel (length dn + length gap) (length dn) t (dn ++ gap ++ s ++ 0 :: rest) = Some res /\
    unescaped t dn gap s rest res.
Proof.
  induction fuel as [|fuel IH]; intros dn gap s Hf Hs; [lia|]; cbn [unescape_loop].
  assert (Hat : forall k, (dn ++ gap ++ s ++ 0 :: rest) !! (length dn + length gap + k)%nat = (s ++ 0 :: rest) !! k).
  { intros k; rewrite app_assoc, lookup_app_r by (rewrite length_app; lia); f_equal; rewrite length_app; lia. }
  pose proof (Hat 0%nat) as H0; rewrite Nat.add_0_r in H0; rewrite H0; clear H0.
  destruct s as [|c s]; cbn [app lookup list_lookup].
  { eexists; split; [reflexivity|]; apply (unescaped_end t dn gap [] rest None); auto. }
  inversion_clear Hs as [|? ? Hc Hs']; rewrite (proj2 (Z.eqb_neq c 0)) by set_solver; cbn [length] in Hf.
  destruct (Z.eqb_spec c t) as [->|Ht].
  { eexists; split; [reflexivity|].
    pose proof (unescaped_end t dn gap (t :: s) rest (Some 0%nat)) as H; cbn [option_map] in H.
    rewrite Nat.add_0_r in H; apply H; [|auto]; cbn; now rewrite Z.eqb_refl. }
  assert (Hstep : forall l k s', length l = k -> c :: s = l ++ s' -> (0 < k)%nat -> lacks [0] s' -> forall b,
    unescape t (c :: s) = (b :: (unescape t s').1, option_map (Nat.add k) (unescape t s').2) ->
    exists res, unescape_loop fuel (length dn + length gap + k) (S (length dn)) t
        (<[length dn := b]> (dn ++ gap ++ (c :: s) ++ 0 :: rest)) = Some res /\ unescaped t dn gap (c :: s) rest res).
  { intros l k s' Hl Hcs Hk Hf' b Hu.
    assert (Hgl : gap ++ l <> []) by (intros [-> ->]%app_eq_nil; cbn in Hl; lia).
    pose proof (f_equal (@length Z) Hcs) as Hlen; rewrite length_app in Hlen; cbn [length] in Hlen.
    destruct (IH (dn ++ [b]) (tl (gap ++ l)) s' ltac:(lia) Hf') as (res & E & H).
    exists res; split.
    - rewrite <- E, <- write_behind by done.
      replace (length (dn ++ [b]) + length (tl (gap ++ l)))%nat with (length dn + length gap + k)%nat.
      + replace (length (dn ++ [b])) with (S (length dn)) by (rewrite length_app; cbn; lia).
        rewrite Hcs; repeat (rewrite <- app_assoc; cbn [app]); done.
      + rewrite length_app; cbn [length]; destruct gap, l; cbn [app tl length] in *; rewrite ?length_app; cbn [length]; lia.
    - apply (unescaped_step t dn gap l k (c :: s) s' rest b (unescape t s').2 (unescape t s').1); auto using surjective_pairing. }
  assert (Hcopy : unescape t (c :: s) = (c :: (unescape t s).1, option_map (Nat.add 1) (unescape t s).2) ->
    exists res, unescape_loop fuel (S (length dn + length gap)) (S (length dn)) t
        (<[length dn := c]> (dn ++ gap ++ c :: s ++ 0 :: rest)) = Some res /\ unescaped t dn gap (c :: s) rest res).
  { intros Hu; rewrite <- Nat.add_1_r; exact (Hstep [c] 1%nat s eq_refl eq_refl ltac:(lia) Hs' c Hu). }
  clear IH; cbn [unescape] in Hstep, Hcopy; rewrite (proj2 (Z.eqb_neq c t) Ht) in Hstep, Hcopy.
  pose proof (Hat 1%nat) as H1; rewrite Nat.add_1_r in H1; pose proof (Hat 2%nat) as H2; cbn [app lookup list_lookup] in H1, H2.
  replace (length dn + length gap + 2)%nat with (S (S (length dn + length gap))) in H2 by lia; rewrite H1, H2.
  destruct (Z.eqb_spec c 37) as [->|Hp]; cbn [andb] in Hcopy, Hstep.
  2: { destruct s as [|? [|? ?]]; apply Hcopy; done. }
  destruct s as [|d [|e s]]; cbn [app lookup list_lookup].
  - rewrite hexdigit_nul; cbn [Z.leb Z.compare]; apply Hcopy; done.
  - rewrite hexdigit_nul; cbn [Z.leb Z.compare]; destruct (0 <=? hexdigit d); apply Hcopy; done.
  - destruct (0 <=? hexdigit d), (0 <=? hexdigit e); cbn [andb] in Hcopy, Hstep; try (apply Hcopy; done).
    replace (S (length dn + length gap) + 2)%nat with (length dn + length gap + 3)%nat by lia.
    apply (Hstep [37; d; e] 3%nat s); [done|done|lia| |done].
    inversion_clear Hs'; by inversion_clear H0.
Qed.

(** Unescaping in place leaves the text the escaped string stands for, up to the
    terminator or the NUL, returns where the terminator is, and writes nothing behind
    it; the writer never overtakes the reader. *)
Theorem url_unescape_correct s rest t :
  lacks [0] s ->
  let '(out, stop) := unescape t s in
  exists buf tail, url_unescape (s ++ 0 :: rest) t = Some (stop, buf) /\ buf = out ++ 0 :: tail /\
    length buf = length (s ++ 0 :: rest) /\
    forall i, (end_of s stop < i)%nat -> buf !! i = (s ++ 0 :: rest) !! i.
Proof.
  intros Hs; pose proof (unescape_loop_spec t rest (S (length (s ++ 0 :: rest))) [] [] s) as H.
  destruct H as ([pos buf] & E & H); [rewrite length_app; lia|done|].
  unfold unescaped in H; destruct (unescape t s) as [out stop]; destruct H as (H1 & tail & H2 & H3 & H4).
  exists buf, tail; unfold url_unescape; cbn [app length Nat.add fst snd] in *; rewrite E, H1; split; [|auto].
  destruct stop; done.
Qed.

Example url_unescape_correct_witness :
  let s := [97; 37; 52; 49; 59; 98] in
  let '(out, stop) := unescape 59 s in
  exists buf tail, url_unescape (s ++ 0 :: []) 59 = Some (stop, buf) /\ buf = out ++ 0 :: tail /\
    length buf = length (s ++ 0 :: []) /\
    forall i, (end_of s stop < i)%nat -> buf !! i = (s ++ 0 :: []) !! i.
Proof. apply (url_unescape_correct [97; 37; 52; 49; 59; 98] [] 59); repeat constructor; set_solver. Defined.

Example unescape_value :
  url_unescape [97; 37; 52; 49; 59; 98; 0] 59 = Some (Some 4%nat, [97; 65; 0; 49; 59; 98; 0]).
Proof. vm_compute; reflexivity. Qed.

Definition byte_checked (c : Z) : bool :=
  (hexdigit (uchexchar (Z.shiftr c 4)) =? Z.shiftr c 4) && (hexdigit (uchexchar (Z.land c 15)) =? Z.land c 15) &&
  (u8 (Z.shiftl (Z.shiftr c 4) 4 + Z.land c 15) =? c) && (0 <=? Z.shiftr c 4) && (0 <=? Z.land c 15) &&
  negb (uchexchar (Z.shiftr c 4) =? 0) && negb (uchexchar (Z.land c 15) =? 0).

Lemma all_bytes_checked c : 0 <= c < 256 -> byte_checked c = true.
Proof.
  intros H; assert (Ha : forallb byte_checked (map Z.of_nat (seq 0 256)) = true) by (vm_compute; reflexivity).
  rewrite forallb_forall in Ha; apply Ha, in_map_iff; exists (Z.to_nat c); split; [lia|apply in_seq; lia].
Qed.

Lemma unescape_escape_char t c more :
  0 < c < 256 -> c <> 37 -> ~ t ∈ escape_char c ->
  unescape t (escape_char c ++ more) =
    (c :: (unescape t more).1, option_map (Nat.add (length (escape_char c))) (unescape t more).2).
Proof.
  intros Hc Hp Ht; unfold escape_char in *; destruct (unsafe c).
  - pose proof (all_bytes_checked c ltac:(lia)) as H; unfold byte_checked in H.
    rewrite !andb_true_iff, !Z.eqb_eq, !Z.leb_le in H; destruct H as ((((((H1 & H2) & H3) & H4) & H5) & _) & _).
    cbn [app unescape length]; rewrite (proj2 (Z.eqb_neq 37 t)) by set_solver.
    rewrite H1, H2, H3, (proj2 (Z.leb_le _ _) H4), (proj2 (Z.leb_le _ _) H5); done.
  - cbn [app unescape length]; rewrite (proj2 (Z.eqb_neq c t)) by set_solver.
    rewrite (proj2 (Z.eqb_neq c 37)) by done; destruct more as [|? [|? ?]]; done.
Qed.

Lemma unescape_escape t s more :
  Forall (fun c => 0 < c < 256 /\ c <> 37) s -> ~ t ∈ escape s ->
  unescape t (escape s ++ more) = (s ++ (unescape t more).1, option_map (Nat.add (length (escape s))) (unescape t more).2).
Proof.
  intros Hs Ht; induction Hs as [|c s [Hc Hp] Hs IH]; cbn [escape flat_map app length].
  - rewrite (surjective_pairing (unescape t more)) at 1; f_equal; destruct (unescape t more).2; done.
  - fold (escape s) in *; cbn [escape flat_map] in Ht; fold (escape s) in Ht.
    rewrite <- app_assoc, unescape_escape_char by (try lia; set_solver); rewrite IH by set_solver; cbn [fst snd].
    f_equal; rewrite length_app; destruct (unescape t more).2; cbn [option_map]; [f_equal; lia|done].
Qed.

Lemma escape_lacks_nul s : Forall (fun c => 0 < c < 256) s -> lacks [0] (escape s).
Proof.
  intros Hb; apply Forall_forall; intros c Hc; apply list_elem_of_In, in_flat_map in Hc as (x & Hx & Hc).
  apply list_elem_of_In in Hx; rewrite Forall_forall in Hb; specialize (Hb x Hx).
  intros ->%list_elem_of_singleton; revert Hc; unfold escape_char; destruct (unsafe x); cbn; [|lia].
  pose proof (all_bytes_checked x ltac:(lia)) as H; unfold byte_checked in H.
  rewrite !andb_true_iff, !negb_true_iff, !Z.eqb_neq in H; intuition lia.
Qed.

(** C23: a string of bytes 1 to 255 without a percent sign comes back, with a
    NUL behind it, from its escaped text. When a terminator that does not occur
    in the escaped text stands behind it, the answer is a pointer at that
    terminator (the comment before the function says: at the first character
    after it); otherwise the answer is NULL. What follows the terminator is any
    text, up to its NUL. The escape leaves percent signs as they are, so a
    string with one does not come back. *)
Theorem unescape_of_escape s t more :
  Forall (fun c => 0 < c < 256 /\ c <> 37) s -> ~ t ∈ escape s -> lacks [0] more ->
  (exists buf tail, url_unescape (escape s ++ [0]) t = Some (None, buf) /\ buf = s ++ 0 :: tail) /\
  (t <> 0 -> exists buf tail,
    url_unescape (escape s ++ t :: more ++ [0]) t = Some (Some (length (escape s)), buf) /\ buf = s ++ 0 :: tail).
Proof.
  intros Hs Ht Hm.
  assert (Hf : lacks [0] (escape s)).
  { apply escape_lacks_nul; eapply Forall_impl; [exact Hs|]; cbn; lia. }
  split; [|intros Ht0].
  - destruct (unescape_loop_spec t [] (S (length (escape s ++ [0]))) [] [] (escape s)) as ([pos buf] & E & H);
      [rewrite length_app; lia|done|].
    unfold unescaped in H; rewrite <- (app_nil_r (escape s)), unescape_escape in H by done; cbn in H.
    destruct H as (-> & tail & -> & _ & _); eexists _, tail; split; [exact E|now rewrite app_nil_r].
  - destruct (unescape_loop_spec t [] (S (length (escape s ++ t :: more ++ [0]))) [] [] (escape s ++ t :: more)) as ([pos buf] & E & H);
      [rewrite !length_app; cbn [length]; rewrite length_app; lia| |].
    { apply Forall_app; split; [done|constructor; [set_solver|done]]. }
    unfold unescaped in H; rewrite unescape_escape in H by done; cbn [unescape] in H; rewrite Z.eqb_refl in H; cbn in H.
    destruct H as (-> & tail & -> & _ & _).
    cbn [app length Nat.add] in E; rewrite <- app_assoc in E; cbn [app] in E.
    eexists _, tail; split; [unfold url_unescape; rewrite E, Nat.add_0_r; done|now rewrite app_nil_r].
Qed.

Example unescape_of_escape_witness :
  (exists buf tail, url_unescape (escape [97; 32] ++ [0]) 59 = Some (None, buf) /\ buf = [97; 32] ++ 0 :: tail) /\
  (59 <> 0 -> exists buf tail,
    url_unescape (escape [97; 32] ++ 59 :: [98] ++ [0]) 59 = Some (Some (length (escape [97; 32])), buf) /\
    buf = [97; 32] ++ 0 :: tail).
Proof. apply (unescape_of_escape [97; 32] 59 [98]); [repeat constructor; lia|vm_compute; set_solver|repeat constructor; set_solver]. Defined.

(** A percent sign is not escaped: this text comes back as another. *)
Example percent_not_escaped :
  escape [37; 52; 49] = [37; 52; 49] /\ url_unescape (escape [37; 52; 49] ++ [0]) 0 = Some (None, [65; 0; 49; 0]).
Proof. split; vm_compute; reflexivity. Qed.
