(* ===== verification/Ansi.v ===== *)
(** * The terminal of the consoles: com32/lib/sys/ansi.c

    The engine behind the text console and the graphics console: control characters,
    escape sequences with their parameters, colour codes.  A character changes the
    terminal state and calls the operations of a device ([struct ansi_ops]); the calls
    are the result of the model, and [VesaText] is a device that performs them. *)

From S2P Require Import Prelude.

Open Scope word_scope.

(** ** Data *)

(** [src/com32/lib/sys/ansi.h:13-19 enum ansi_state] *)
Inductive ansi_state := st_init | st_esc | st_csi | st_tbl | st_tblc.

#[global] Instance ansi_state_eq : EqDecision ansi_state.
Proof. solve_decision. Defined.

Notation ANSI_MAX_PARMS := 16%nat.

(** [src/com32/lib/sys/ansi.h:21-23 struct curxy] *)
Record curxy := Xy { x : Z; y : Z }.

(** [src/com32/lib/sys/ansi.h:25-42 struct term_state] *)
Record term_state := TermState {
  state : ansi_state; nparms : nat; parms : list Z; pvt : bool;
  xy : curxy; saved_xy : curxy; cindex : Z; fg : Z; bg : Z; intensity : Z;
  vtgraphics : bool; underline : bool; blink : bool; reverse : bool;
  autocr : bool; autowrap : bool; cursor : bool
}.

(** The size of the screen, and the codes of the colour table, [None] for NULL.
    [src/com32/lib/sys/ansi.h:54-59 struct term_info] *)
Record term_info := TermInfo { rows : Z; cols : Z; color_table : list (option (list Z)) }.

(** The calls of the operations of a device, with the terminal state they are given.
    [src/com32/lib/sys/ansi.h:44-52 struct ansi_ops] *)
Inductive call :=
  | Erase (st : term_state) (x0 y0 x1 y1 : Z)
  | WriteChar (x y ch : Z) (st : term_state)
  | ShowCursor (st : term_state)
  | ScrollUp (st : term_state)
  | SetCursor (x y : Z) (visible : bool)
  | Beep.

(** What a character leads to: a state and the calls made; a write through a pointer
    that is none; more characters inside of characters than the fuel is for. *)
Inductive outcome := Done (st : term_state) (calls : list call) | Fault | Deep.

(** [src/com32/lib/sys/ansi.c:38-55 default_state] *)
Definition default_state : term_state :=
  TermState st_init 0 (replicate ANSI_MAX_PARMS 0) false (Xy 0 0) (Xy 0 0) 0 7 0 1 false false false false true true true.

(** [src/com32/lib/sys/ansi.c:58-63 decvt_to_cp437] *)
Definition decvt_to_cp437 : list Z :=
  [4; 177; 7; 7; 7; 7; 248; 241; 7; 7; 217; 191; 218; 192; 197; 196;
   196; 196; 95; 95; 195; 180; 193; 194; 179; 243; 242; 227; 216; 156; 7; 0].

Definition set_state s (st : term_state) : term_state :=
  TermState s (nparms st) (parms st) (pvt st) (xy st) (saved_xy st) (cindex st) (fg st) (bg st) (intensity st)
    (vtgraphics st) (underline st) (blink st) (reverse st) (autocr st) (autowrap st) (cursor st).
Definition set_parms n p v (st : term_state) : term_state :=
  TermState (state st) n p v (xy st) (saved_xy st) (cindex st) (fg st) (bg st) (intensity st)
    (vtgraphics st) (underline st) (blink st) (reverse st) (autocr st) (autowrap st) (cursor st).
Definition set_xy p (st : term_state) : term_state :=
  TermState (state st) (nparms st) (parms st) (pvt st) p (saved_xy st) (cindex st) (fg st) (bg st) (intensity st)
    (vtgraphics st) (underline st) (blink st) (reverse st) (autocr st) (autowrap st) (cursor st).
Definition set_saved p (st : term_state) : term_state :=
  TermState (state st) (nparms st) (parms st) (pvt st) (xy st) p (cindex st) (fg st) (bg st) (intensity st)
    (vtgraphics st) (underline st) (blink st) (reverse st) (autocr st) (autowrap st) (cursor st).
Definition set_cindex c (st : term_state) : term_state :=
  TermState (state st) (nparms st) (parms st) (pvt st) (xy st) (saved_xy st) c (fg st) (bg st) (intensity st)
    (vtgraphics st) (underline st) (blink st) (reverse st) (autocr st) (autowrap st) (cursor st).
Definition set_vt v (st : term_state) : term_state :=
  TermState (state st) (nparms st) (parms st) (pvt st) (xy st) (saved_xy st) (cindex st) (fg st) (bg st) (intensity st)
    v (underline st) (blink st) (reverse st) (autocr st) (autowrap st) (cursor st).
Definition set_attr f b i u k r (st : term_state) : term_state :=
  TermState (state st) (nparms st) (parms st) (pvt st) (xy st) (saved_xy st) (cindex st) f b i
    (vtgraphics st) u k r (autocr st) (autowrap st) (cursor st).
Definition set_modes a w c (st : term_state) : term_state :=
  TermState (state st) (nparms st) (parms st) (pvt st) (xy st) (saved_xy st) (cindex st) (fg st) (bg st) (intensity st)
    (vtgraphics st) (underline st) (blink st) (reverse st) a w c.

(** A parameter, and the parameters with one changed; the indices in use are below
    ANSI_MAX_PARMS ([wf]). *)
Definition parm (st : term_state) (i : nat) : Z := default 0 (parms st !! i).
Definition set_parm (i : nat) (v : Z) (st : term_state) : term_state :=
  set_parms (nparms st) (<[i := v]> (parms st)) (pvt st) st.

(** ** Control characters *)

(** A character outside of a sequence; the tabulator is in [ansi_putchar].  The
    cursor is a copy the caller stores.
    [src/com32/lib/sys/ansi.c:79-132 __ansi_putchar] *)
Definition putchar_init (st : term_state) (xy : curxy) (ch : Z) : term_state * curxy * list call :=
  if (1 <=? ch) && (ch <=? 5) then (set_state st_tbl (set_parm 0 ch st), xy, [])
  else if ch =? 7 then (st, xy, [Beep])
  else if ch =? 8 then (st, if 0 <? x xy then Xy (x xy - 1) (y xy) else xy, [])
  else if (10 <=? ch) && (ch <=? 12) then (st, Xy (if autocr st then 0 else x xy) (u8 (y xy + 1)), [])
  else if ch =? 13 then (st, Xy 0 (y xy), [])
  else if ch =? 127 then (st, xy, [])
  else if ch =? 14 then (set_vt true st, xy, [])
  else if ch =? 15 then (set_vt false st, xy, [])
  else if ch =? 27 then (set_state st_esc st, xy, [])
  else if 32 <=? ch then
    let ch :=
      if vtgraphics st && (Z.land ch 0xe0 =? 0x60) then default 0 (decvt_to_cp437 !! Z.to_nat (ch - 0x60)) else ch in
    (st, Xy (u8 (x xy + 1)) (y xy), [WriteChar (x xy) (y xy) ch st])
  else (st, xy, []).

(** A character after an escape; [None]: the reset copies the default state over the
    pointer to the terminal state, whose first bytes are zeros.
    [src/com32/lib/sys/ansi.c:134-160 __ansi_putchar] *)
Definition putchar_esc (st : term_state) (ch : Z) : option term_state :=
  if (ch =? 37) || (ch =? 40) || (ch =? 41) || (ch =? 35) then Some st
  else if ch =? 91 then Some (set_state st_csi (set_parms 0 (replicate ANSI_MAX_PARMS 0) false st))
  else if ch =? 99 then None
  else Some (set_state st_init st).

(** ** Sequences *)

(** [src/com32/lib/sys/ansi.c:306-307 ansi2pc] *)
Definition ansi2pc (i : Z) : Z := default 0 ([0; 4; 2; 6; 1; 5; 3; 7] !! Z.to_nat i).

(** One parameter of a graphic rendition.
    [src/com32/lib/sys/ansi.c:312-370 __ansi_putchar] *)
Definition rendition (st : term_state) (a : Z) : term_state :=
  let '(f, b, i, u, k, r) := (fg st, bg st, intensity st, underline st, blink st, reverse st) in
  if a =? 0 then set_attr 7 0 1 false false false st
  else if a =? 1 then set_attr f b 2 u k r st
  else if a =? 2 then set_attr f b 0 u k r st
  else if a =? 4 then set_attr f b i true k r st
  else if a =? 5 then set_attr f b i u true r st
  else if a =? 7 then set_attr f b i u k true st
  else if (a =? 21) || (a =? 22) then set_attr f b 1 u k r st
  else if a =? 24 then set_attr f b i false k r st
  else if a =? 25 then set_attr f b i u false r st
  else if a =? 27 then set_attr f b i u k false st
  else if (30 <=? a) && (a <=? 37) then set_attr (ansi2pc (a - 30)) b i u k r st
  else if a =? 38 then set_attr 7 b i true k r st
  else if a =? 39 then set_attr 7 b i false k r st
  else if (40 <=? a) && (a <=? 47) then set_attr f (ansi2pc (a - 40)) i u k r st
  else if a =? 49 then set_attr f 7 i u k r st
  else st.

Definition clamp (v size : Z) : Z := if size <=? v then size - 1 else if v <? 0 then 0 else v.

(** Erasing in the display.
    [src/com32/lib/sys/ansi.c:235-260 __ansi_putchar] *)
Definition erase_display (ti : term_info) (st : term_state) (xy : curxy) : list call :=
  let p := parm st 0 in
  if p =? 0 then
    Erase st (x xy) (y xy) (cols ti - 1) (y xy) ::
      (if y xy <? rows ti - 1 then [Erase st 0 (y xy + 1) (cols ti - 1) (rows ti - 1)] else [])
  else if p =? 1 then
    if 0 <? y xy then [Erase st 0 0 (cols ti - 1) (y xy - 1); Erase st 0 (y xy) (x xy - 1) (y xy)] else []
  else if p =? 2 then [Erase st 0 0 (cols ti - 1) (rows ti - 1)]
  else [].

(** Erasing in the line.
    [src/com32/lib/sys/ansi.c:261-281 __ansi_putchar] *)
Definition erase_line (ti : term_info) (st : term_state) (xy : curxy) : list call :=
  let p := parm st 0 in
  if p =? 0 then [Erase st (x xy) (y xy) (cols ti - 1) (y xy)]
  else if p =? 1 then if 0 <? x xy then [Erase st 0 (y xy) (x xy - 1) (y xy)] else []
  else if p =? 2 then [Erase st 0 (y xy) (cols ti - 1) (y xy)]
  else [].

(** Setting a mode or resetting it.
    [src/com32/lib/sys/ansi.c:282-302 __ansi_putchar] *)
Definition set_mode (st : term_state) (set : bool) : term_state * list call :=
  let p := parm st 0 in
  if p =? 7 then (set_modes (autocr st) set (cursor st) st, [])
  else if p =? 20 then (set_modes set (autowrap st) (cursor st) st, [])
  else if p =? 25 then
    let st := set_modes (autocr st) (autowrap st) set st in (st, [ShowCursor st])
  else (st, []).

(** The final character of a sequence.
    [src/com32/lib/sys/ansi.c:176-383 __ansi_putchar] *)
Definition csi_final (ti : term_info) (st : term_state) (xy : curxy) (ch : Z) : term_state * curxy * list call :=
  let p0 := if parm st 0 =? 0 then 1 else parm st 0 in
  let up := let y := s32 (y xy - p0) in u8 (if y <? 0 then 0 else y) in
  let down := let y := s32 (y xy + p0) in u8 (if rows ti <=? y then rows ti - 1 else y) in
  if ch =? 65 then (st, Xy (x xy) up, [])
  else if ch =? 66 then (st, Xy (x xy) down, [])
  else if ch =? 67 then
    let x' := s32 (x xy + p0) in (st, Xy (u8 (if cols ti <=? x' then cols ti - 1 else x')) (y xy), [])
  else if ch =? 68 then
    let x' := s32 (x xy - p0) in (st, Xy (u8 (if x' <? 0 then 0 else x')) (y xy), [])
  else if ch =? 69 then (st, Xy 0 down, [])
  else if ch =? 70 then (st, Xy 0 up, [])
  else if (ch =? 71) || (ch =? 39) then (st, Xy (u8 (clamp (s32 (parm st 0 - 1)) (cols ti))) (y xy), [])
  else if (ch =? 72) || (ch =? 102) then
    (st, Xy (u8 (clamp (s32 (parm st 1 - 1)) (cols ti))) (u8 (clamp (s32 (parm st 0 - 1)) (rows ti))), [])
  else if ch =? 74 then (st, xy, erase_display ti st xy)
  else if ch =? 75 then (st, xy, erase_line ti st xy)
  else if (ch =? 104) || (ch =? 108) then let (st, calls) := set_mode st (ch =? 104) in (st, xy, calls)
  else if ch =? 109 then (fold_left rendition (take (S (nparms st)) (parms st)) st, xy, [])
  else if ch =? 115 then (set_saved xy st, xy, [])
  else if ch =? 117 then (st, saved_xy st, [])
  else (st, xy, []).

(** [src/com32/lib/sys/ansi.c:162-387 __ansi_putchar] *)
Definition putchar_csi (ti : term_info) (st : term_state) (xy : curxy) (ch : Z) : term_state * curxy * list call :=
  if (48 <=? ch) && (ch <=? 57) then
    (set_parm (nparms st) (s32 (parm st (nparms st) * 10 + (ch - 48))) st, xy, [])
  else if ch =? 59 then
    let n := S (nparms st) in
    (set_parms (if (ANSI_MAX_PARMS <=? n)%nat then (ANSI_MAX_PARMS - 1)%nat else n) (parms st) (pvt st) st, xy, [])
  else if ch =? 63 then (set_parms (nparms st) (parms st) true st, xy, [])
  else
    let '(st, xy, calls) := csi_final ti st xy ch in (set_state st_init st, xy, calls).

(** ** The end of a character *)

(** The screen is scrolled until the cursor is on it.
    [src/com32/lib/sys/ansi.c:437-440 __ansi_putchar] *)
Fixpoint scroll_loop (fuel : nat) (rows : Z) (st : term_state) (y : Z) : option (Z * list call) :=
  match fuel with
  | O => None
  | S fuel =>
      if rows <=? y then
        let* r := scroll_loop fuel rows st (u8 (y - 1)) in Some (r.1, ScrollUp st :: r.2)
      else Some (y, [])
  end.

(** The cursor is brought back to the screen, shown and stored; [calls] were made
    before.
    [src/com32/lib/sys/ansi.c:427-444 __ansi_putchar] *)
Definition finish (ti : term_info) (st : term_state) (xy : curxy) (calls : list call) : outcome :=
  let xy :=
    if cols ti <=? x xy then if autowrap st then Xy 0 (u8 (y xy + 1)) else Xy (u8 (cols ti - 1)) (y xy) else xy in
  match scroll_loop 256 (rows ti) st (y xy) with
  | None => Deep
  | Some (y, scrolls) =>
      Done (set_xy (Xy (x xy) y) st) (calls ++ scrolls ++ [SetCursor (x xy) y (cursor st)])
  end.

(** ** A character *)

(** A string of characters for [putchar]. *)
Definition each (putchar : term_state -> Z -> outcome) : list Z -> term_state -> list call -> outcome :=
  fix each s st calls :=
    match s with
    | [] => Done st calls
    | ch :: s => match putchar st ch with Done st' calls' => each s st' (calls ++ calls') | o => o end
    end.

(** The digits of a colour, most significant first; with the last one the colour is
    set, and its codes are written by [put].
    [src/com32/lib/sys/ansi.c:397-424 __ansi_putchar] *)
Definition putchar_tblc (ti : term_info) (put : list Z -> term_state -> list call -> outcome)
  (st : term_state) (ch : Z) : outcome :=
  let n := u32 (ch - 48) in
  if n <? 10 then
    let st := set_parm 1 (s32 (parm st 1 * 10 + n)) st in
    let st := set_parm 0 (s32 (parm st 0 - 1)) st in
    if parm st 0 =? 0 then
      if parm st 1 <? Z.of_nat (length (color_table ti)) then
        let st := set_cindex (u16 (parm st 1)) st in
        match color_table ti !! Z.to_nat (parm st 1) with
        | Some (Some p) =>
            match put ([91; 48; 59] ++ p ++ [109]) (set_state st_esc st) [] with
            | Done st calls => Done (set_state st_init st) calls
            | o => o
            end
        | Some None => Done (set_state st_init st) []
        | None => Fault
        end
      else Done (set_state st_init st) []
    else Done st []
  else Done (set_state st_init st) [].

(** A character, with those it leads to: the blanks of a tabulator, the codes of a
    colour; [fuel] bounds how deep they are nested.
    [src/com32/lib/sys/ansi.c:70-444 __ansi_putchar] *)
Fixpoint ansi_putchar (fuel : nat) (ti : term_info) (st : term_state) (ch : Z) : outcome :=
  match fuel with
  | O => Deep
  | S fuel =>
      let p := xy st in
      match state st with
      | st_init =>
          if ch =? 9 then
            each (ansi_putchar fuel ti) (replicate (Z.to_nat (8 - Z.land (x p) 7)) 32) st []
          else let '(st, p, calls) := putchar_init st p ch in finish ti st p calls
      | st_esc =>
          match putchar_esc st ch with Some st => finish ti st p [] | None => Fault end
      | st_csi => let '(st, p, calls) := putchar_csi ti st p ch in finish ti st p calls
      | st_tbl =>
          finish ti (set_state (if ch =? 35 then st_tblc else st_init) (set_parm 1 0 st)) p []
      | st_tblc =>
          match putchar_tblc ti (each (ansi_putchar fuel ti)) st ch with
          | Done st calls => finish ti st p calls
          | o => o
          end
      end
  end.

(** A write to a console.
    [src/com32/lib/sys/vesacon_write.c:165-184 __vesacon_write] *)
Definition ansi_write (ti : term_info) (s : list Z) (st : term_state) : outcome :=
  each (ansi_putchar 2 ti) s st [].

(** ** The terminal state is kept sound *)

Definition on_screen (ti : term_info) (p : curxy) : Prop := 0 <= x p < cols ti /\ 0 <= y p < rows ti.

(** A colour of the table. *)
Definition color_ok (ti : term_info) (st : term_state) : Prop := 0 <= cindex st < Z.of_nat (length (color_table ti)).

(** All of the state but the cursor: parameters inside of their array, digits of a
    colour that still fit. *)
Record sound (ti : term_info) (st : term_state) : Prop := {
  sound_nparms : (nparms st < ANSI_MAX_PARMS)%nat;
  sound_parms : length (parms st) = ANSI_MAX_PARMS;
  sound_saved : on_screen ti (saved_xy st);
  sound_color : color_ok ti st;
  sound_digits : match state st with
    | st_tbl => 1 <= parm st 0 <= 5
    | st_tblc => 1 <= parm st 0 <= 5 /\ 0 <= parm st 1 < 10 ^ (5 - parm st 0)
    | _ => True
    end
}.

Definition wf (ti : term_info) (st : term_state) : Prop := sound ti st /\ on_screen ti (xy st).

(** The codes of a colour are the numbers of a graphic rendition. *)
Definition code_ok (c : Z) : bool := ((48 <=? c) && (c <=? 57)) || (c =? 59).

(** The screens there are: the coordinates of the cursor are bytes, and a colour is
    16 bits. *)
Record screen_ok (ti : term_info) : Prop := {
  ok_rows : 1 <= rows ti <= 255;
  ok_cols : 1 <= cols ti <= 255;
  ok_colors : 1 <= Z.of_nat (length (color_table ti)) <= 65536;
  ok_codes : forall p, Some p ∈ color_table ti -> forallb code_ok p = true
}.

(** A call is on the screen; the columns of an erased region may be none. *)
Definition call_ok (ti : term_info) (c : call) : Prop :=
  match c with
  | Erase st x0 y0 x1 y1 => color_ok ti st /\ 0 <= x0 < cols ti /\ x0 - 1 <= x1 < cols ti /\ 0 <= y0 <= y1 /\ y1 < rows ti
  | WriteChar x y ch st => color_ok ti st /\ on_screen ti (Xy x y) /\ is_byte ch
  | ShowCursor st => on_screen ti (xy st)
  | ScrollUp st => color_ok ti st
  | SetCursor x y _ => on_screen ti (Xy x y)
  | Beep => True
  end.

(** A character that is taken well, and leaves a state of [Q]. *)
Definition good (ti : term_info) (Q : term_state -> Prop) (o : outcome) : Prop :=
  match o with Done st calls => wf ti st /\ Q st /\ Forall (call_ok ti) calls | _ => False end.

Lemma scroll_loop_spec rows st : forall fuel y,
  1 <= rows -> 0 <= y < 256 -> (Z.to_nat y < fuel)%nat ->
  scroll_loop fuel rows st y = Some (Z.min y (rows - 1), replicate (Z.to_nat (y - rows + 1)) (ScrollUp st)).
Proof.
  induction fuel as [|fuel IH]; intros y Hr Hy Hf; [lia|]; cbn [scroll_loop]; destruct (Z.leb_spec rows y).
  - rewrite u8_small, IH by lia; cbn [fst snd]; f_equal; f_equal; [lia|].
    replace (Z.to_nat (y - rows + 1)) with (S (Z.to_nat (y - 1 - rows + 1))) by lia; done.
  - replace (Z.to_nat (y - rows + 1)) with 0%nat by lia; f_equal; f_equal; lia.
Qed.

(** Where the cursor is brought to, and how often the screen is scrolled for it. *)
Definition wrapped (ti : term_info) (st : term_state) (p : curxy) : curxy :=
  if cols ti <=? x p then if autowrap st then Xy 0 (u8 (y p + 1)) else Xy (u8 (cols ti - 1)) (y p) else p.

Lemma finish_spec ti st p calls :
  screen_ok ti -> 0 <= y p < 256 ->
  let q := wrapped ti st p in
  finish ti st p calls =
    Done (set_xy (Xy (x q) (Z.min (y q) (rows ti - 1))) st)
      (calls ++ replicate (Z.to_nat (y q - rows ti + 1)) (ScrollUp st) ++
       [SetCursor (x q) (Z.min (y q) (rows ti - 1)) (cursor st)]).
Proof.
  intros Hok Hy q; pose proof (ok_rows _ Hok); unfold finish; fold (wrapped ti st p); fold q.
  assert (Hq : 0 <= y q < 256).
  { unfold q, wrapped; destruct (cols ti <=? x p); [destruct (autowrap st)|]; cbn [y]; [apply u8_range|lia|lia]. }
  rewrite scroll_loop_spec by lia; done.
Qed.

Lemma finish_good ti (Q : term_state -> Prop) st p calls :
  screen_ok ti -> sound ti st -> 0 <= x p < 256 -> 0 <= y p < 256 -> Forall (call_ok ti) calls ->
  (forall q, Q (set_xy q st)) -> good ti Q (finish ti st p calls).
Proof.
  intros Hok Hs Hx Hy Hc HQ; pose proof (ok_rows _ Hok); pose proof (ok_cols _ Hok); rewrite finish_spec by done.
  set (q := wrapped ti st p).
  assert (Hq : 0 <= x q < cols ti /\ 0 <= y q).
  { unfold q, wrapped; destruct (Z.leb_spec (cols ti) (x p)); [destruct (autowrap st)|]; cbn [x y].
    - pose proof (u8_range (y p + 1)); lia.
    - rewrite u8_small by lia; lia.
    - lia. }
  assert (Hon : on_screen ti (Xy (x q) (Z.min (y q) (rows ti - 1)))) by (split; cbn; lia).
  split; [split; [|exact Hon]|split; [auto|]].
  - destruct Hs; split; done.
  - apply Forall_app; split; [done|apply Forall_app; split; [|repeat constructor; apply Hon]].
    apply Forall_replicate; exact (sound_color _ _ Hs).
Qed.

Lemma each_good ti (Q : term_state -> Prop) (P : Z -> Prop) f :
  (forall st ch, wf ti st -> Q st -> P ch -> good ti Q (f st ch)) ->
  forall s st calls, Forall P s -> wf ti st -> Q st -> Forall (call_ok ti) calls -> good ti Q (each f s st calls).
Proof.
  intros Hf s; induction s as [|c s IH]; intros st calls Hs Hw HQ Hc; cbn [each]; [done|].
  inversion_clear Hs as [|? ? Hc' Hs']; specialize (Hf st c Hw HQ Hc'); destruct (f st c); try done.
  destruct Hf as (? & ? & ?); apply IH; [done|done|done|now apply Forall_app].
Qed.

Lemma good_weaken ti (Q Q' : term_state -> Prop) o : (forall st, Q st -> Q' st) -> good ti Q o -> good ti Q' o.
Proof. intros H; destruct o; cbn; try done; intros (? & ? & ?); auto. Qed.

Definition byte_pair (p : curxy) : Prop := 0 <= x p < 256 /\ 0 <= y p < 256.

(** What a state's part of a character gives [finish]. *)
Definition part_ok (ti : term_info) (r : term_state * curxy * list call) : Prop :=
  sound ti r.1.1 /\ byte_pair r.1.2 /\ Forall (call_ok ti) r.2.

Lemma on_screen_bytes ti p : screen_ok ti -> on_screen ti p -> byte_pair p.
Proof. intros Hok [Hx Hy]; pose proof (ok_rows _ Hok); pose proof (ok_cols _ Hok); split; lia. Qed.

Lemma byte_in_table (l : list Z) i : forallb (fun c => (0 <=? c) && (c <? 256)) l = true -> is_byte (default 0 (l !! i)).
Proof.
  intros Hl; apply bytes_ok in Hl; destruct (l !! i) as [c|] eqn:E; [|split; reflexivity].
  exact (proj1 (Forall_lookup _ _) Hl _ _ E).
Qed.

Lemma parm_set_eq st i v : (i < length (parms st))%nat -> parm (set_parm i v st) i = v.
Proof. intros H; unfold parm; cbn; now rewrite list_lookup_insert_eq. Qed.

Lemma parm_set_ne st i j v : i <> j -> parm (set_parm i v st) j = parm st j.
Proof. intros H; unfold parm; cbn; now rewrite list_lookup_insert_ne. Qed.

(** Changes that leave a state sound; the digits of a colour are looked at only in the
    states that read them. *)
Lemma sound_plain ti st st' :
  sound ti st -> (nparms st' < ANSI_MAX_PARMS)%nat -> length (parms st') = length (parms st) ->
  saved_xy st' = saved_xy st -> cindex st' = cindex st -> state st' <> st_tbl -> state st' <> st_tblc -> sound ti st'.
Proof.
  intros Hs Hn Hp Hsv Hc H1 H2; destruct Hs; split; unfold color_ok in *; rewrite ?Hp, ?Hsv, ?Hc; try done.
  destruct (state st'); done.
Qed.

#[local] Ltac plain :=
  first [assumption | eapply sound_plain; [eassumption|cbn..]; solve [done | congruence | now rewrite ?length_insert | eauto using sound_nparms]].

Lemma putchar_init_ok ti st p ch :
  screen_ok ti -> sound ti st -> state st = st_init -> on_screen ti p -> is_byte ch -> part_ok ti (putchar_init st p ch).
Proof.
  intros Hok Hs Est Hp Hch; pose proof (ok_rows _ Hok); pose proof (ok_cols _ Hok).
  pose proof (on_screen_bytes _ _ Hok Hp) as Hb; destruct Hb as [Hbx Hby]; unfold putchar_init.
  pose proof (sound_parms _ _ Hs) as Hpl.
  repeat match goal with |- part_ok _ (if ?b then _ else _) => destruct b eqn:? end;
    (split; [cbn [fst]|split; [cbn [fst snd]|cbn [snd]]]);
    try (repeat constructor; fail); try (split; done); try plain.
  - rewrite andb_true_iff, !Z.leb_le in Heqb; destruct Hs; split; cbn; try done.
    + now rewrite length_insert.
    + change (1 <= parm (set_parm 0 ch st) 0 <= 5); rewrite parm_set_eq by lia; lia.
  - destruct (Z.ltb_spec 0 (x p)); [split; cbn; lia|done].
  - split; cbn; [destruct (autocr st); lia|apply u8_range].
  - split; cbn; [apply u8_range|done].
  - constructor; [|constructor]; split; [apply (sound_color _ _ Hs)|split; [exact Hp|]]; cbn.
    match goal with |- context [if ?b then _ else _] => destruct b end; [|exact Hch].
    apply (byte_in_table decvt_to_cp437); reflexivity.
Qed.

Lemma putchar_init_text st p ch :
  32 <= ch -> ch <> 127 -> state st = st_init -> state (putchar_init st p ch).1.1 = st_init.
Proof.
  intros H1 H2 E; unfold putchar_init.
  repeat match goal with |- context [if ?b then (_, _, _) else _] => destruct b eqn:?; try done end; bools; lia.
Qed.

Lemma rendition_ok ti l : forall st, sound ti st -> state st = st_csi ->
  sound ti (fold_left rendition l st) /\ state (fold_left rendition l st) = st_csi.
Proof.
  induction l as [|a l IH]; intros st Hs Est; cbn [fold_left]; [done|]; apply IH; unfold rendition.
  - repeat match goal with |- sound _ (if ?b then _ else _) => destruct b end; plain.
  - repeat match goal with |- state (if ?b then _ else _) = _ => destruct b end; done.
Qed.

Lemma erase_display_ok ti st p :
  screen_ok ti -> sound ti st -> on_screen ti p -> Forall (call_ok ti) (erase_display ti st p).
Proof.
  intros Hok [] [Hx Hy]; pose proof (ok_rows _ Hok); pose proof (ok_cols _ Hok); unfold erase_display.
  repeat match goal with
    |- Forall _ (if ?b then _ else _) => destruct b eqn:? | |- Forall _ (_ :: if ?b then _ else _) => destruct b eqn:? end;
    bools; repeat constructor; cbn; unfold color_ok in *; repeat split; try lia; try (apply sound_color0).
Qed.

Lemma erase_line_ok ti st p :
  screen_ok ti -> sound ti st -> on_screen ti p -> Forall (call_ok ti) (erase_line ti st p).
Proof.
  intros Hok [] [Hx Hy]; pose proof (ok_rows _ Hok); pose proof (ok_cols _ Hok); unfold erase_line.
  repeat match goal with |- Forall _ (if ?b then _ else _) => destruct b eqn:? end;
    bools; repeat constructor; cbn; unfold color_ok in *; repeat split; try lia; try (apply sound_color0).
Qed.

Lemma csi_final_ok ti st ch :
  screen_ok ti -> wf ti st -> state st = st_csi -> part_ok ti (csi_final ti st (xy st) ch).
Proof.
  intros Hok [Hs Hp] Est; pose proof (on_screen_bytes _ _ Hok Hp) as Hb; destruct Hb as [Hbx Hby].
  unfold csi_final; cbv zeta.
  repeat match goal with |- part_ok _ (if ?b then _ else _) => destruct b eqn:? end;
    try (split; [exact Hs|split; [split; cbn; solve [apply u8_range | lia]|constructor]]).
  - split; [exact Hs|split; [split; done|now apply erase_display_ok]].
  - split; [exact Hs|split; [split; done|now apply erase_line_ok]].
  - unfold set_mode; repeat match goal with |- part_ok _ (let (_, _) := if ?b then _ else _ in _) => destruct b end;
      (split; [cbn; plain|split; [split; done|]]); repeat constructor; apply Hp.
  - destruct (rendition_ok ti (take (S (nparms st)) (parms st)) st Hs Est); split; [done|split; [split; done|constructor]].
  - split; [|split; [split; done|constructor]]; destruct Hs; split; cbn; done.
  - split; [exact Hs|split; [|constructor]]; exact (on_screen_bytes _ _ Hok (sound_saved _ _ Hs)).
Qed.

Lemma putchar_csi_ok ti st ch :
  screen_ok ti -> wf ti st -> state st = st_csi -> part_ok ti (putchar_csi ti st (xy st) ch).
Proof.
  intros Hok Hw Est; pose proof Hw as [Hs Hp]; pose proof (on_screen_bytes _ _ Hok Hp) as Hb.
  unfold putchar_csi; repeat match goal with |- part_ok _ (if ?b then _ else _) => destruct b end;
    try (split; [cbn [fst]; plain|split; [exact Hb|constructor]]).
  - split; [|split; [exact Hb|constructor]]; cbn [fst]; eapply sound_plain; [exact Hs| |cbn..]; try congruence.
    cbn [nparms set_parms]; pose proof (sound_nparms _ _ Hs); destruct (Nat.leb_spec 16 (S (nparms st))); lia.
  - destruct (csi_final_ok ti st ch Hok Hw Est) as (H1 & H2 & H3).
    destruct (csi_final ti st (xy st) ch) as [[st' p'] calls]; cbn in H1, H2, H3; split; [cbn; plain|done].
Qed.

Lemma putchar_csi_code ti st p ch : code_ok ch = true -> state st = st_csi -> state (putchar_csi ti st p ch).1.1 = st_csi.
Proof.
  unfold code_ok, putchar_csi; intros H E; apply orb_true_iff in H as [-> | ->]; [done|]; now destruct (_ && _).
Qed.

Lemma good_part ti (Q : term_state -> Prop) r :
  screen_ok ti -> part_ok ti r -> (forall q, Q (set_xy q r.1.1)) ->
  good ti Q (let '(st, p, calls) := r in finish ti st p calls).
Proof.
  destruct r as [[st p] calls]; cbn [fst snd]; intros Hok (H1 & [H2 H3] & H4) HQ; now apply finish_good.
Qed.

(** The characters that lead to no others. *)
Lemma ansi_putchar_flat ti st ch (fuel : nat) :
  screen_ok ti -> wf ti st -> is_byte ch -> state st <> st_tblc ->
  (state st = st_init -> ch <> 9) -> (state st = st_esc -> ch <> 99) ->
  good ti (fun st' => (state st = st_init -> 32 <= ch -> ch <> 127 -> state st' = st_init) /\
      (state st = st_esc -> ch = 91 -> state st' = st_csi) /\
      (state st = st_csi -> code_ok ch = true -> state st' = st_csi))
    (ansi_putchar (S fuel) ti st ch).
Proof.
  intros Hok Hw Hch Ht Hi He; pose proof Hw as [Hs Hp]; pose proof (on_screen_bytes _ _ Hok Hp) as [Hbx Hby]; cbn [ansi_putchar].
  destruct (state st) eqn:Est; [| | | |done].
  - rewrite (proj2 (Z.eqb_neq ch 9)) by auto; apply good_part; [done|now apply putchar_init_ok|].
    intros q; split; [|split; discriminate]; intros _ H1 H2; exact (putchar_init_text st _ ch H1 H2 Est).
  - unfold putchar_esc; destruct ((ch =? 37) || _ || _ || _) eqn:E.
    { apply finish_good; try done; intros q; split; [done|split; [|done]]; intros _ ->; done. }
    destruct (Z.eqb_spec ch 91); [|destruct (Z.eqb_spec ch 99); [now destruct (He eq_refl)|]];
      (apply finish_good; [done| |done|done|done|done]); eapply sound_plain; [exact Hs|cbn..]; try done.
    + lia.
    + now rewrite (sound_parms _ _ Hs).
    + apply (sound_nparms _ _ Hs).
  - apply good_part; [done|now apply putchar_csi_ok|].
    intros q; split; [done|split; [done|]]; intros _ Hc; exact (putchar_csi_code ti st _ ch Hc Est).
  - apply finish_good; try done; destruct Hs; rewrite Est in *; split; cbn; try done; [now rewrite length_insert|].
    destruct (ch =? 35); [|done].
    change (1 <= parm (set_parm 1 0 st) 0 <= 5 /\ 0 <= parm (set_parm 1 0 st) 1 < 10 ^ (5 - parm (set_parm 1 0 st) 0)).
    rewrite parm_set_ne, parm_set_eq by (rewrite ?sound_parms0; lia); split; [lia|split; [lia|apply Z.pow_pos_nonneg; lia]].
Qed.

Lemma each_app f s1 : forall s2 st calls,
  each f (s1 ++ s2) st calls =
    match each f s1 st calls with Done st' calls' => each f s2 st' calls' | o => o end.
Proof. induction s1 as [|c s1 IH]; intros s2 st calls; cbn [app each]; [done|]; destruct (f st c); auto. Qed.

Lemma each_one ti Q f st c calls :
  good ti Q (f st c) -> Forall (call_ok ti) calls -> good ti Q (each f [c] st calls).
Proof.
  intros H Hc; cbn [each]; destruct (f st c); try done; destruct H as (? & ? & ?).
  split; [done|split; [done|now apply Forall_app]].
Qed.

(** The codes of a colour are read as a graphic rendition. *)
Lemma codes_good ti p st (fuel : nat) :
  screen_ok ti -> forallb code_ok p = true -> wf ti st -> state st = st_esc ->
  good ti (fun _ => True) (each (ansi_putchar (S fuel) ti) ([91; 48; 59] ++ p ++ [109]) st []).
Proof.
  intros Hok Hp Hw Est; change ([91; 48; 59] ++ p ++ [109]) with ([91] ++ ([48; 59] ++ p) ++ [109]).
  rewrite each_app.
  assert (H1 : good ti (fun st' => state st' = st_csi) (each (ansi_putchar (S fuel) ti) [91] st [])).
  { apply each_one; [|done]; eapply good_weaken; [|apply ansi_putchar_flat; try congruence; try done].
    cbn; intros st' (_ & H & _); auto. }
  destruct (each (ansi_putchar (S fuel) ti) [91] st []) as [st1 calls1| |]; try done.
  destruct H1 as (Hw1 & E1 & Hc1); rewrite each_app.
  assert (H2 : good ti (fun st' => state st' = st_csi) (each (ansi_putchar (S fuel) ti) ([48; 59] ++ p) st1 calls1)).
  { apply (each_good ti _ (fun c => code_ok c = true)); [| |done|done|done].
    - intros st' ch Hw' E' Hch; eapply good_weaken; [|apply ansi_putchar_flat; try congruence; try done].
      + cbn; intros st'' (_ & _ & H); auto.
      + unfold code_ok in Hch; bools; split; lia.
    - apply Forall_forall; intros c Hc; apply list_elem_of_In in Hc.
      assert (Hp' : forallb code_ok ([48; 59] ++ p) = true) by exact Hp.
      rewrite forallb_forall in Hp'; auto. }
  destruct (each (ansi_putchar (S fuel) ti) ([48; 59] ++ p) st1 calls1) as [st2 calls2| |]; try done.
  destruct H2 as (Hw2 & E2 & Hc2); apply each_one; [|done].
  eapply good_weaken; [|apply ansi_putchar_flat; try congruence; try done]; done.
Qed.

(** A digit of a colour. *)
Lemma tblc_good ti st ch (fuel : nat) :
  screen_ok ti -> wf ti st -> is_byte ch -> state st = st_tblc ->
  good ti (fun _ => True) (putchar_tblc ti (each (ansi_putchar (S fuel) ti)) st ch).
Proof.
  intros Hok Hw Hch Est; pose proof Hw as [Hs Hp]; pose proof (sound_digits _ _ Hs) as Hd; rewrite Est in Hd.
  destruct Hd as [Hd0 Hd1]; pose proof (sound_parms _ _ Hs) as Hpl; pose proof (ok_colors _ Hok) as Htab.
  assert (Hdone : forall st', nparms st' = nparms st -> length (parms st') = length (parms st) ->
    saved_xy st' = saved_xy st -> xy st' = xy st -> color_ok ti st' -> state st' = st_init \/ state st' = st_esc -> wf ti st').
  { intros st' E1 E2 E3 E4 E5 E6; split; [|now rewrite E4].
    split; rewrite ?E1, ?E2, ?E3; try done; try apply Hs; now destruct E6 as [-> | ->]. }
  unfold putchar_tblc; destruct (Z.ltb_spec (u32 (ch - 48)) 10) as [Hn|Hn].
  2: { split; [|done]; apply Hdone; try done; [apply Hs|now left]. }
  set (n := u32 (ch - 48)) in *; pose proof (u32_range (ch - 48)) as Hr; fold n in Hr.
  assert (Hpow : 10 ^ (5 - (parm st 0 - 1)) = 10 * 10 ^ (5 - parm st 0)).
  { replace (5 - (parm st 0 - 1)) with (Z.succ (5 - parm st 0)) by lia; apply Z.pow_succ_r; lia. }
  assert (Hle : 10 ^ (5 - parm st 0) <= 10 ^ 4) by (apply Z.pow_le_mono_r; lia).
  change (10 ^ 4) with 10000 in Hle; rewrite (s32_of_small (parm st 1 * 10 + n)) by lia.
  set (st1 := set_parm 1 (parm st 1 * 10 + n) st).
  assert (P0 : parm st1 0 = parm st 0) by (apply parm_set_ne; lia).
  rewrite P0, s32_of_small by lia; set (st2 := set_parm 0 (parm st 0 - 1) st1).
  assert (Q0 : parm st2 0 = parm st 0 - 1) by (apply parm_set_eq; unfold st1; cbn [parms set_parm set_parms]; rewrite length_insert; lia).
  assert (Q1 : parm st2 1 = parm st 1 * 10 + n) by (unfold st2; rewrite parm_set_ne by lia; apply parm_set_eq; lia).
  rewrite Q0, Q1; destruct (Z.eqb_spec (parm st 0 - 1) 0) as [E0|E0].
  2: { split; [|done]; split; [|exact Hp]; destruct Hs; split; try done; [cbn; now rewrite !length_insert|].
       replace (state st2) with st_tblc by (symmetry; exact Est); rewrite Q0, Q1, Hpow; split; lia. }
  destruct (Z.ltb_spec (parm st 1 * 10 + n) (Z.of_nat (length (color_table ti)))) as [Hlt|Hge].
  2: { split; [|done]; apply Hdone; try done; [cbn; now rewrite !length_insert|apply Hs|now left]. }
  rewrite u16_small by lia; set (st3 := set_cindex (parm st 1 * 10 + n) st2).
  assert (Hw3 : forall s, s = st_init \/ s = st_esc -> wf ti (set_state s st3)).
  { intros s Hs'; apply Hdone; try done; [cbn; now rewrite !length_insert|split; cbn; lia]. }
  change (parm st3 1) with (parm st2 1); rewrite Q1.
  destruct (color_table ti !! Z.to_nat (parm st 1 * 10 + n)) as [[p|]|] eqn:El.
  - pose proof (codes_good ti p (set_state st_esc st3) fuel Hok) as H.
    specialize (H (ok_codes _ Hok p (list_elem_of_lookup_2 _ _ _ El)) (Hw3 st_esc (or_intror eq_refl)) eq_refl).
    destruct (each _ _ _ _) as [st' calls| |]; try done; destruct H as ([Hs' Hp'] & _ & Hc).
    split; [split; [|exact Hp']|split; done]; destruct Hs'; split; done.
  - split; [apply Hw3; now left|split; done].
  - apply lookup_ge_None in El; lia.
Qed.

Lemma ansi_putchar_tab ti st (fuel : nat) :
  state st = st_init ->
  ansi_putchar (S fuel) ti st 9 = each (ansi_putchar fuel ti) (replicate (Z.to_nat (8 - Z.land (x (xy st)) 7)) 32) st [].
Proof. intros E; cbn [ansi_putchar]; now rewrite E. Qed.

Lemma ansi_putchar_step ti st ch :
  screen_ok ti -> wf ti st -> is_byte ch ->
  match ansi_putchar 2 ti st ch with
  | Done st' calls => wf ti st' /\ Forall (call_ok ti) calls
  | Fault => state st = st_esc /\ ch = 99
  | Deep => False
  end.
Proof.
  intros Hok Hw Hch.
  assert (Hgood : good ti (fun _ => True) (ansi_putchar 2 ti st ch) -> match ansi_putchar 2 ti st ch with
    | Done st' calls => wf ti st' /\ Forall (call_ok ti) calls | Fault => state st = st_esc /\ ch = 99 | Deep => False end).
  { destruct (ansi_putchar 2 ti st ch); try done; now intros (? & _ & ?). }
  destruct (decide (state st = st_tblc)) as [Est|Ht].
  - apply Hgood; cbn [ansi_putchar]; rewrite Est.
    pose proof (tblc_good ti st ch 0 Hok Hw Hch Est) as H; cbn [ansi_putchar] in H.
    destruct (putchar_tblc _ _ _ _) as [st' calls| |]; try done; destruct H as ([Hs' _] & _ & Hc).
    destruct (on_screen_bytes _ _ Hok (proj2 Hw)); now apply finish_good.
  - destruct (decide (state st = st_init /\ ch = 9)) as [[Est ->]|Hi].
    + apply Hgood; rewrite ansi_putchar_tab by done.
      eapply good_weaken; [|apply (each_good ti (fun st => state st = st_init) (fun c => c = 32))]; try done.
      * intros st' c Hw' E' ->; eapply good_weaken; [|apply ansi_putchar_flat; try congruence; try done].
        cbn; intros st'' (H & _); apply H; [done|lia|lia].
      * now apply Forall_replicate.
    + destruct (decide (state st = st_esc /\ ch = 99)) as [[Est ->]|He]; [cbn [ansi_putchar]; rewrite Est; done|].
      apply Hgood; eapply good_weaken; [|apply ansi_putchar_flat; try done]; [done|tauto|tauto].
Qed.

(** C31: whatever characters are written, the terminal state stays sound - the cursor
    and the saved one on the screen, the parameters in their array, the colour in its
    table - and all the device is asked to draw is on the screen, also when parameters
    overflow; only the reset sequence fails, which writes through a NULL pointer. *)
Theorem ansi_putchar_correct ti st ch :
  screen_ok ti -> wf ti st -> is_byte ch ->
  match ansi_putchar 2 ti st ch with
  | Done st' calls => wf ti st' /\ Forall (call_ok ti) calls
  | Fault => state st = st_esc /\ ch = 99
  | Deep => False
  end.
Proof. apply ansi_putchar_step. Qed.

Definition plain_screen : term_info := TermInfo 25 80 [Some [51; 55; 59; 52; 48]; None].

Lemma plain_screen_ok : screen_ok plain_screen.
Proof.
  split; cbn; try lia; intros p Hp; apply list_elem_of_In in Hp; destruct Hp as [[= <-]|[[=]|[]]]; reflexivity.
Qed.

Lemma default_wf ti : screen_ok ti -> wf ti default_state.
Proof.
  intros Hok; pose proof (ok_rows _ Hok); pose proof (ok_cols _ Hok); pose proof (ok_colors _ Hok).
  repeat split; cbn; lia.
Qed.

Example ansi_putchar_correct_witness :
  match ansi_putchar 2 plain_screen default_state 9 with
  | Done st' calls => wf plain_screen st' /\ Forall (call_ok plain_screen) calls
  | Fault => state default_state = st_esc /\ 9 = 99
  | Deep => False
  end.
Proof. apply (ansi_putchar_correct plain_screen default_state 9); [exact plain_screen_ok|apply default_wf, plain_screen_ok|split; lia]. Defined.

(** Where the cursor is, and the last calls. *)
Definition seen (o : outcome) : option (curxy * list call) := match o with Done st calls => Some (xy st, calls) | _ => None end.

(** Blue on white, by a colour's codes: the colour 0 of the table. *)
Example color_codes :
  match ansi_write plain_screen [1; 35; 48] default_state with Done st _ => fg st = 7 /\ bg st = 0 /\ state st = st_init | _ => False end.
Proof. vm_compute; auto. Qed.

(** The reset sequence. *)
Example reset_faults : ansi_write plain_screen [27; 99] default_state = Fault.
Proof. vm_compute; reflexivity. Qed.

(** Erasing up to the cursor leaves the first line as it is, and in the first column
    of another line it erases up to the column before. *)
Example erase_first_line :
  erase_display plain_screen (set_parm 0 1 default_state) (Xy 5 0) = [] /\
  let st := set_parm 0 1 default_state in
  erase_display plain_screen st (Xy 0 1) = [Erase st 0 0 79 0; Erase st 0 1 (-1) 1].
Proof. split; vm_compute; reflexivity. Qed.

(** A bracket in the place of a character set begins a sequence of its own. *)
Example charset_bracket :
  match ansi_write plain_screen [27; 40; 91] default_state with Done st _ => state st = st_csi | _ => False end.
Proof. vm_compute; reflexivity. Qed.

(** ** Addressing the cursor *)

Lemma finish_still ti st p calls :
  screen_ok ti -> on_screen ti p ->
  finish ti st p calls = Done (set_xy p st) (calls ++ [SetCursor (x p) (y p) (cursor st)]).
Proof.
  intros Hok [Hx Hy]; pose proof (ok_rows _ Hok); rewrite finish_spec by (done || lia).
  unfold wrapped; rewrite (proj2 (Z.leb_gt (cols ti) (x p))) by lia.
  replace (Z.to_nat (y p - rows ti + 1)) with 0%nat by lia; rewrite Z.min_l by lia; now destruct p.
Qed.

(** The number of the digits behind [v]. *)
Definition number (v : Z) (d : list Z) : Z := fold_left (fun v c => v * 10 + (c - 48)) d v.

Lemma s32_step v c : s32 (s32 v * 10 + c) = s32 (v * 10 + c).
Proof.
  unfold s32, u32; f_equal; pose proof (Z.div_mod (v + 2147483648) 4294967296 ltac:(lia)) as H.
  replace (v * 10 + c + 2147483648) with
    (((v + 2147483648) mod 4294967296 - 2147483648) * 10 + c + 2147483648 + (v + 2147483648) / 4294967296 * 10 * 4294967296) by lia.
  now rewrite Z.mod_add by lia.
Qed.

(** What a sequence's parameters are as it is read. *)
Definition reading (ti : term_info) (st : term_state) (n : nat) (ps : list Z) (p : curxy) : Prop :=
  wf ti st /\ state st = st_csi /\ nparms st = n /\ parms st = ps /\ xy st = p.

Lemma csi_char ti st n ps p c ps' n' :
  screen_ok ti -> reading ti st n ps p -> is_byte c -> code_ok c = true ->
  putchar_csi ti st p c = (set_parms n' ps' (pvt st) st, p, []) ->
  exists st' calls', ansi_putchar 2 ti st c = Done st' calls' /\ reading ti st' n' ps' p.
Proof.
  intros Hok (Hw & Est & En & Eps & Ep) Hb Hc E.
  pose proof (ansi_putchar_step ti st c Hok Hw Hb) as Hgood; revert Hgood.
  assert (Ef : ansi_putchar 2 ti st c = finish ti (set_parms n' ps' (pvt st) st) p []).
  { cbn [ansi_putchar]; rewrite Est, Ep, E; done. }
  rewrite Ef, finish_still by (try done; rewrite <- Ep; apply Hw).
  intros [Hw' _]; eexists _, _; split; [reflexivity|]; done.
Qed.

Lemma digits_read ti d : screen_ok ti -> Forall (fun c => 48 <= c <= 57) d ->
  forall st n ps p v calls, reading ti st n (<[n := s32 v]> ps) p -> (n < length ps)%nat ->
  exists st' calls', each (ansi_putchar 2 ti) d st calls = Done st' calls' /\
    reading ti st' n (<[n := s32 (number v d)]> ps) p.
Proof.
  intros Hok Hd; induction Hd as [|c d Hc Hd IH]; intros st n ps p v calls Hr Hn; cbn [each number fold_left]; [eauto|].
  pose proof Hr as (Hw & Est & En & Eps & Ep).
  destruct (csi_char ti st n _ p c (<[n := s32 (v * 10 + (c - 48))]> ps) n Hok Hr) as (st1 & calls1 & E1 & Hr1).
  - split; lia.
  - unfold code_ok; zdec; done.
  - unfold putchar_csi; zdec; cbn [andb]; unfold set_parm, parm; rewrite En, Eps, list_lookup_insert_eq by done.
    cbn [default]; unfold id; now rewrite s32_step, list_insert_insert_eq.
  - rewrite E1; exact (IH st1 n ps p _ _ Hr1 Hn).
Qed.

Lemma csi_begins ti st :
  screen_ok ti -> wf ti st -> state st = st_init ->
  exists st' calls, each (ansi_putchar 2 ti) [27; 91] st [] = Done st' calls /\
    reading ti st' 0 (replicate ANSI_MAX_PARMS 0) (xy st).
Proof.
  intros Hok Hw Est.
  pose proof (ansi_putchar_step ti st 27 Hok Hw ltac:(split; lia)) as H1.
  assert (E1 : ansi_putchar 2 ti st 27 = finish ti (set_state st_esc st) (xy st) [])
    by (cbn [ansi_putchar]; now rewrite Est).
  rewrite E1, finish_still in H1 by (try done; apply Hw); destruct H1 as [Hw1 _].
  cbn [each]; rewrite E1, finish_still by (try done; apply Hw).
  set (st1 := set_xy (xy st) (set_state st_esc st)) in *.
  pose proof (ansi_putchar_step ti st1 91 Hok Hw1 ltac:(split; lia)) as H2.
  assert (E2 : ansi_putchar 2 ti st1 91 =
    finish ti (set_state st_csi (set_parms 0 (replicate ANSI_MAX_PARMS 0) false st1)) (xy st) []) by done.
  rewrite E2, finish_still in H2 by (try done; apply Hw); destruct H2 as [Hw2 _].
  rewrite E2, finish_still by (try done; apply Hw); eexists _, _; split; [reflexivity|]; done.
Qed.

Lemma s32_pred v : s32 (s32 v - 1) = s32 (v - 1).
Proof.
  unfold s32, u32; f_equal.
  replace ((v + 2147483648) mod 4294967296 - 2147483648 - 1 + 2147483648) with ((v + 2147483648) mod 4294967296 - 1) by lia.
  rewrite Zminus_mod_idemp_l; f_equal; lia.
Qed.

Lemma clamp_range v size : 1 <= size -> 0 <= clamp v size < size.
Proof. intros H; unfold clamp; destruct (Z.leb_spec size v); [lia|]; destruct (Z.ltb_spec v 0); lia. Qed.

(** The sequence that addresses the cursor is read as it is written: the numbers
    of a row and a column, from 1, of however many digits, put the cursor there, or at
    the edge of the screen if there is no such place. *)
Theorem cursor_addressing ti st dr dc :
  screen_ok ti -> wf ti st -> state st = st_init ->
  Forall (fun c => 48 <= c <= 57) dr -> Forall (fun c => 48 <= c <= 57) dc ->
  exists st' calls, ansi_write ti ([27; 91] ++ dr ++ [59] ++ dc ++ [72]) st = Done st' calls /\
    xy st' = Xy (clamp (s32 (number 0 dc - 1)) (cols ti)) (clamp (s32 (number 0 dr - 1)) (rows ti)) /\
    wf ti st' /\ state st' = st_init.
Proof.
  intros Hok Hw Est Hr Hc; pose proof (ok_rows _ Hok) as Hrows; pose proof (ok_cols _ Hok) as Hcols.
  set (zs := replicate ANSI_MAX_PARMS 0); unfold ansi_write.
  destruct (csi_begins ti st Hok Hw Est) as (st1 & c1 & E1 & R1); rewrite each_app, E1, each_app.
  destruct (digits_read ti dr Hok Hr st1 0 zs (xy st) 0 c1) as (st2 & c2 & E2 & R2); [exact R1|cbn; lia|]; rewrite E2, each_app.
  set (ps := <[0%nat := s32 (number 0 dr)]> zs) in *; cbn [each].
  destruct (csi_char ti st2 0 ps (xy st) 59 ps 1 Hok R2) as (st3 & c3 & E3 & R3); [split; lia|done| |].
  { unfold putchar_csi; cbn [Z.leb Z.compare andb Z.eqb Pos.eqb Pos.compare Pos.compare_cont]; destruct R2 as (_ & _ & -> & -> & _); done. }
  rewrite E3, each_app.
  destruct (digits_read ti dc Hok Hc st3 1 ps (xy st) 0 (c2 ++ c3)) as (st4 & c4 & E4 & R4).
  { replace (<[1%nat := s32 0]> ps) with ps; [exact R3|].
    symmetry; apply list_insert_id; unfold ps; rewrite list_lookup_insert_ne by lia; done. }
  { unfold ps; rewrite length_insert; cbn; lia. }
  rewrite E4; destruct R4 as (Hw4 & Est4 & En4 & Eps4 & Ep4); cbn [each].
  pose proof (ansi_putchar_step ti st4 72 Hok Hw4 ltac:(split; lia)) as H; revert H.
  assert (P0 : parm st4 0 = s32 (number 0 dr)).
  { unfold parm, ps in *; rewrite Eps4, list_lookup_insert_ne, list_lookup_insert_eq by (cbn; lia); done. }
  assert (P1 : parm st4 1 = s32 (number 0 dc)).
  { unfold parm; rewrite Eps4, list_lookup_insert_eq by (unfold ps; rewrite length_insert; cbn; lia); done. }
  pose proof (clamp_range (s32 (number 0 dc - 1)) (cols ti) ltac:(lia)) as Hx.
  pose proof (clamp_range (s32 (number 0 dr - 1)) (rows ti) ltac:(lia)) as Hy.
  assert (E5 : ansi_putchar 2 ti st4 72 = finish ti (set_state st_init st4)
      (Xy (clamp (s32 (number 0 dc - 1)) (cols ti)) (clamp (s32 (number 0 dr - 1)) (rows ti))) []).
  { cbn [ansi_putchar]; rewrite Est4.
    change (putchar_csi ti st4 (xy st4) 72) with
      (set_state st_init st4, Xy (u8 (clamp (s32 (parm st4 1 - 1)) (cols ti))) (u8 (clamp (s32 (parm st4 0 - 1)) (rows ti))), @nil call).
    rewrite P0, P1, !s32_pred, !u8_small by lia; done. }
  rewrite E5, finish_still by (try done; split; cbn; lia).
  intros [Hw5 _]; eexists _, _; split; [reflexivity|done].
Qed.

Example cursor_addressing_witness :
  exists st' calls, ansi_write plain_screen ([27; 91] ++ [49; 50] ++ [59] ++ [57; 57] ++ [72]) default_state = Done st' calls /\
    xy st' = Xy (clamp (s32 (number 0 [57; 57] - 1)) (cols plain_screen)) (clamp (s32 (number 0 [49; 50] - 1)) (rows plain_screen)) /\
    wf plain_screen st' /\ state st' = st_init.
Proof.
  apply (cursor_addressing plain_screen default_state [49; 50] [57; 57]);
    [exact plain_screen_ok|apply default_wf, plain_screen_ok|reflexivity|repeat constructor; done|repeat constructor; done].
Defined.

Example addressed : option_map fst (seen (ansi_write plain_screen [27; 91; 49; 50; 59; 57; 57; 72] default_state)) = Some (Xy 79 11).
Proof. vm_compute; reflexivity. Qed.
