(* ===== verification/VesaText.v ===== *)
(** * The text of the graphics console: com32/lib/sys/vesa/drawtxt.c, vesacon_write.c

    The console keeps the characters of the screen in an array with a guard of one
    character around them, and a box around what has changed since it was drawn.  It
    is a device for the terminal of [Ansi], whose interface is the class [AnsiOps]. *)

From S2P Require Import Prelude Ansi.

Open Scope word_scope.

(** ** Devices *)

(** The operations the terminal calls; [None] is an access outside of the device's
    memory.
    [src/com32/lib/sys/ansi.h:44-52 struct ansi_ops] *)
Class AnsiOps (D : Type) := {
  op_erase : term_state -> Z -> Z -> Z -> Z -> D -> option D;
  op_write_char : Z -> Z -> Z -> term_state -> D -> option D;
  op_showcursor : term_state -> D -> option D;
  op_scroll_up : term_state -> D -> option D;
  op_set_cursor : Z -> Z -> bool -> D -> option D;
  op_beep : D -> option D
}.

Definition do_call `{AnsiOps D} (c : call) (d : D) : option D :=
  match c with
  | Erase st x0 y0 x1 y1 => op_erase st x0 y0 x1 y1 d
  | WriteChar x y ch st => op_write_char x y ch st d
  | ShowCursor st => op_showcursor st d
  | ScrollUp st => op_scroll_up st d
  | SetCursor x y v => op_set_cursor x y v d
  | Beep => op_beep d
  end.

Fixpoint do_calls `{AnsiOps D} (cs : list call) (d : D) : option D :=
  match cs with [] => Some d | c :: cs => let* d := do_call c d in do_calls cs d end.

(** ** The array of characters *)

(** [src/com32/lib/sys/vesa/video.h:48-52 struct vesa_char] *)
Record vesa_char := VesaChar { ch : Z; attr : Z }.

#[global] Instance vesa_char_eq : EqDecision vesa_char.
Proof. solve_decision. Defined.

(** What has changed; the second corner is outside.
    [src/com32/lib/sys/vesa/drawtxt.c:194-195 upd_x0] *)
Record box := Box { upd_x0 : Z; upd_x1 : Z; upd_y0 : Z; upd_y1 : Z }.

Record vesa := Vesa {
  text_rows : Z; text_cols : Z; text_display : list vesa_char; upd : box;
  cursor_pointer : option Z; cursor_x : Z; cursor_y : Z; cursor_enabled : bool
}.

Definition set_display m b (d : vesa) : vesa :=
  Vesa (text_rows d) (text_cols d) m b (cursor_pointer d) (cursor_x d) (cursor_y d) (cursor_enabled d).

(** The place of a character.
    [src/com32/lib/sys/vesa/drawtxt.c:231-232 __vesacon_erase] *)
Definition place (d : vesa) (x y : Z) : Z := (y + 1) * (text_cols d + 2) + (x + 1).

(** [src/com32/lib/sys/vesa/fill.h:34-61 vesacon_fill] *)
Fixpoint vesacon_fill (m : list vesa_char) (p n : nat) (v : vesa_char) : option (list vesa_char) :=
  match n with
  | O => Some m
  | S n => if (p <? length m)%nat then vesacon_fill (<[p := v]> m) (S p) n v else None
  end.

(** Forward, a character a time.
    [src/com32/lib/sys/vesa/drawtxt.c:42-46 copy_dword] *)
Fixpoint copy_dword (m : list vesa_char) (dst src n : nat) : option (list vesa_char) :=
  match n with
  | O => Some m
  | S n =>
      let* v := m !! src in
      if (dst <? length m)%nat then copy_dword (<[dst := v]> m) (S dst) (S src) n else None
  end.

(** ** Operations *)

(** [src/com32/lib/sys/vesa/drawtxt.c:210-225 vesacon_touch] *)
Definition vesacon_touch (row col rows cols : Z) (b : box) : box :=
  let y0 := u32 row in
  let x0 := u32 col in
  let y1 := u32 (y0 + rows) in
  let x1 := u32 (x0 + cols) in
  Box (if x0 <? upd_x0 b then x0 else upd_x0 b) (if upd_x1 b <? x1 then x1 else upd_x1 b)
    (if y0 <? upd_y0 b then y0 else upd_y0 b) (if upd_y1 b <? y1 then y1 else upd_y1 b).

(** The lines of a region.
    [src/com32/lib/sys/vesa/drawtxt.c:239-242 __vesacon_erase] *)
Fixpoint erase_lines (n : nat) (m : list vesa_char) (p width : nat) (stride : nat) (fill : vesa_char)
  : option (list vesa_char) :=
  match n with
  | O => Some m
  | S n => let* m := vesacon_fill m p width fill in erase_lines n m (p + stride)%nat width stride fill
  end.

(** [src/com32/lib/sys/vesa/drawtxt.c:228-245 __vesacon_erase] *)
Definition vesacon_erase (x0 y0 x1 y1 attr : Z) (d : vesa) : option vesa :=
  let ncols := x1 - x0 + 1 in
  let* m := erase_lines (Z.to_nat (y1 - y0 + 1)) (text_display d) (Z.to_nat (place d x0 y0)) (Z.to_nat (u32 ncols))
    (Z.to_nat (text_cols d + 2)) (VesaChar 32 attr) in
  Some (set_display m (vesacon_touch y0 x0 (y1 - y0 + 1) ncols (upd d)) d).

(** [src/com32/lib/sys/vesa/drawtxt.c:248-268 __vesacon_scroll_up] *)
Definition vesacon_scroll_up (nrows attr : Z) (d : vesa) : option vesa :=
  let w := text_cols d + 2 in
  let n := Z.to_nat ((text_rows d - nrows) * w) in
  let* m := copy_dword (text_display d) (Z.to_nat w) (Z.to_nat ((nrows + 1) * w)) n in
  let* m := vesacon_fill m (Z.to_nat w + n)%nat (Z.to_nat (nrows * w)) (VesaChar 32 attr) in
  Some (set_display m (vesacon_touch 0 0 (text_rows d) (text_cols d) (upd d)) d).

(** [src/com32/lib/sys/vesa/drawtxt.c:271-280 __vesacon_write_char] *)
Definition vesacon_write_char (x y ch attr : Z) (d : vesa) : option vesa :=
  let* m := vesacon_fill (text_display d) (Z.to_nat (place d x y)) 1 (VesaChar ch attr) in
  Some (set_display m (vesacon_touch y x 1 1 (upd d)) d).

(** [src/com32/lib/sys/vesa/drawtxt.c:282-301 __vesacon_set_cursor] *)
Definition __vesacon_set_cursor (x y : Z) (visible : bool) (d : vesa) : vesa :=
  let b := if cursor_pointer d then vesacon_touch (cursor_y d) (cursor_x d) 1 1 (upd d) else upd d in
  let (p, b) := if visible then (Some (place d x y), vesacon_touch y x 1 1 b) else (None, b) in
  Vesa (text_rows d) (text_cols d) (text_display d) b p x y (cursor_enabled d).

(** [src/com32/lib/sys/vesacon_write.c:155-158 vesacon_setcursor] *)
Definition vesacon_setcursor (x y : Z) (visible : bool) (d : vesa) : vesa :=
  __vesacon_set_cursor x y (visible && cursor_enabled d) d.

(** The colour of a character is the index in the table; the beep is a call of the
    firmware that leaves the memory as it is.
    [src/com32/lib/sys/vesacon_write.c:132-163 vesacon_erase] *)
#[global] Instance vesa_ops : AnsiOps vesa := {
  op_erase st x0 y0 x1 y1 := vesacon_erase x0 y0 x1 y1 (cindex st);
  op_write_char x y ch st := vesacon_write_char x y ch (cindex st);
  op_showcursor st d := Some (vesacon_setcursor (x (xy st)) (y (xy st)) (cursor st) d);
  op_scroll_up st := vesacon_scroll_up 1 (cindex st);
  op_set_cursor x y v d := Some (vesacon_setcursor x y v d);
  op_beep := Some
}.

(** What is drawn: the first row and column, and how many of them.
    [src/com32/lib/sys/vesa/drawtxt.c:198-206 __vesacon_doit] *)
Definition vesacon_doit (d : vesa) : vesa * option (Z * Z * Z * Z) :=
  let b := upd d in
  if (upd_x0 b <? upd_x1 b) && (upd_y0 b <? upd_y1 b) then
    (set_display (text_display d) (Box 4294967295 0 4294967295 0) d,
     Some (upd_y0 b, upd_x0 b, u32 (upd_y1 b - upd_y0 b), u32 (upd_x1 b - upd_x0 b)))
  else (d, None).

(** [src/com32/lib/sys/vesacon_write.c:165-185 __vesacon_write] *)
Definition vesacon_write (ti : term_info) (s : list Z) (st : term_state) (d : vesa)
  : option (term_state * vesa * option (Z * Z * Z * Z)) :=
  match ansi_write ti s st with
  | Done st calls => let* d := do_calls calls d in let (d, r) := vesacon_doit d in Some (st, d, r)
  | _ => None
  end.

(** The array as it is set up, of blanks of the first colour, and whether there is
    memory for it; its box and cursor are those of the array before.
    [src/com32/lib/sys/vesa/initvesa.c:134-159 init_text_display] *)
Definition init_text_display (rows cols : Z) (granted : bool) (d : vesa) : vesa * bool :=
  let n := Z.to_nat ((cols + 2) * (rows + 2)) in
  (Vesa rows cols (if granted then replicate n (VesaChar 32 0) else []) (upd d)
     (cursor_pointer d) (cursor_x d) (cursor_y d) (cursor_enabled d), granted).

(** The variables of the console before it is opened. *)
Definition unopened : vesa := Vesa 0 0 [] (Box 4294967295 0 4294967295 0) None 0 0 true.

(** ** The screen *)

(** The character at a place of the screen. *)
Definition cell (d : vesa) (x y : Z) : option vesa_char := text_display d !! Z.to_nat (place d x y).

Definition blank (st : term_state) : vesa_char := VesaChar 32 (cindex st).

(** What a call does to a screen. *)
Definition effect (ti : term_info) (c : call) (f : Z -> Z -> option vesa_char) (x y : Z) : option vesa_char :=
  match c with
  | Erase st x0 y0 x1 y1 => if (x0 <=? x) && (x <=? x1) && (y0 <=? y) && (y <=? y1) then Some (blank st) else f x y
  | WriteChar x0 y0 ch st => if (x =? x0) && (y =? y0) then Some (VesaChar ch (cindex st)) else f x y
  | ScrollUp st => if y <? rows ti - 1 then f x (y + 1) else Some (blank st)
  | _ => f x y
  end.

Definition dirty (d : vesa) (x y : Z) : Prop :=
  upd_x0 (upd d) <= x < upd_x1 (upd d) /\ upd_y0 (upd d) <= y < upd_y1 (upd d).

(** The array is that of the terminal's screen. *)
Record vesa_ok (ti : term_info) (d : vesa) : Prop := {
  vesa_rows : text_rows d = rows ti;
  vesa_cols : text_cols d = cols ti;
  vesa_size : length (text_display d) = Z.to_nat ((cols ti + 2) * (rows ti + 2));
  vesa_box : is_u32 (upd_x0 (upd d)) /\ is_u32 (upd_x1 (upd d)) /\ is_u32 (upd_y0 (upd d)) /\ is_u32 (upd_y1 (upd d));
  vesa_cursor : is_Some (cursor_pointer d) -> on_screen ti (Xy (cursor_x d) (cursor_y d))
}.

(** *** The loops *)

Lemma fill_spec v n : forall m p, (p + n <= length m)%nat ->
  exists m', vesacon_fill m p n v = Some m' /\ length m' = length m /\
    forall i, m' !! i = if decide (p <= i < p + n)%nat then Some v else m !! i.
Proof.
  induction n as [|n IH]; intros m p H; cbn [vesacon_fill].
  - exists m; split; [done|split; [done|]]; intros i; case_decide; [lia|done].
  - rewrite (proj2 (Nat.ltb_lt p (length m))) by lia.
    destruct (IH (<[p := v]> m) (S p)) as (m' & E & Hl & H'); [rewrite length_insert; lia|].
    exists m'; rewrite E, Hl, length_insert; split; [done|split; [done|]]; intros i; rewrite H'.
    destruct (decide (i = p)) as [->|]; [rewrite list_lookup_insert_eq by lia|rewrite list_lookup_insert_ne by lia];
      repeat case_decide; try lia; done.
Qed.

Lemma copy_spec n : forall m dst src, (dst < src)%nat -> (src + n <= length m)%nat ->
  exists m', copy_dword m dst src n = Some m' /\ length m' = length m /\
    forall i, m' !! i = if decide (dst <= i < dst + n)%nat then m !! (i - dst + src)%nat else m !! i.
Proof.
  induction n as [|n IH]; intros m dst src H1 H2; cbn [copy_dword].
  - exists m; split; [done|split; [done|]]; intros i; case_decide; [lia|done].
  - destruct (lookup_lt_is_Some_2 m src ltac:(lia)) as [v Ev]; rewrite Ev, (proj2 (Nat.ltb_lt dst (length m))) by lia.
    destruct (IH (<[dst := v]> m) (S dst) (S src)) as (m' & E & Hl & H'); [lia|rewrite length_insert; lia|].
    exists m'; rewrite E, Hl, length_insert; split; [done|split; [done|]]; intros i; rewrite H'.
    destruct (decide (i = dst)) as [->|].
    + rewrite list_lookup_insert_eq by lia; rewrite decide_False, decide_True by lia.
      now replace (dst - dst + src)%nat with src by lia.
    + rewrite !list_lookup_insert_ne by lia; repeat case_decide; try lia; [|done]; f_equal; lia.
Qed.

Lemma lines_spec v width stride n : forall m p, (p + n * stride + width <= length m + stride)%nat ->
  exists m', erase_lines n m p width stride v = Some m' /\ length m' = length m /\
    forall i, (m !! i = Some v -> m' !! i = Some v) /\
      (forall k, (k < n)%nat -> (p + k * stride <= i < p + k * stride + width)%nat -> m' !! i = Some v) /\
      ((forall k, (k < n)%nat -> ~ (p + k * stride <= i < p + k * stride + width)%nat) -> m' !! i = m !! i).
Proof.
  induction n as [|n IH]; intros m p H; cbn [erase_lines].
  - exists m; split; [done|split; [done|]]; intros i; split; [done|split; [lia|done]].
  - destruct (fill_spec v width m p ltac:(lia)) as (m1 & E1 & L1 & H1); rewrite E1.
    destruct (IH m1 (p + stride)%nat ltac:(lia)) as (m' & E & L & H'); exists m'; rewrite E, L, L1.
    split; [done|split; [done|]]; intros i; destruct (H' i) as (Ha & Hb & Hc); split; [|split].
    + intros Hi; apply Ha; rewrite H1; now case_decide.
    + intros k Hk Hi; destruct k as [|k]; [apply Ha; rewrite H1, decide_True by lia; done|].
      apply (Hb k); lia.
    + intros Hn; rewrite Hc; [rewrite H1, decide_False; [done|]; specialize (Hn 0%nat); lia|].
      intros k Hk; specialize (Hn (S k)); lia.
Qed.

(** *** The places *)

(** A place within the row [y]. *)
Lemma place_row ti d x y :
  vesa_ok ti d -> -1 <= x <= cols ti -> -1 <= y <= rows ti ->
  (y + 1) * (cols ti + 2) <= place d x y < (y + 2) * (cols ti + 2) /\ 0 <= place d x y.
Proof.
  intros Hd Hx Hy; unfold place; rewrite (vesa_cols _ _ Hd).
  pose proof (Z.mul_nonneg_nonneg (y + 1) (cols ti + 2) ltac:(lia) ltac:(lia)); lia.
Qed.

Lemma rows_apart w y y' : 0 <= w -> y < y' -> (y + 1) * w <= y' * w.
Proof. intros Hw H; apply Z.mul_le_mono_nonneg_r; lia. Qed.

(** The place [k] rows below. *)
Lemma place_below d x y k : place d x (y + k) = place d x y + k * (text_cols d + 2).
Proof. unfold place; lia. Qed.

Lemma place_left d x y k : place d (x + k) y = place d x y + k.
Proof. unfold place; lia. Qed.

(** Whether a place of the screen is among [width] places from the one of [x0] in the
    row [y']. *)
Lemma place_within ti d x y x0 y' width :
  vesa_ok ti d -> on_screen ti (Xy x y) -> 0 <= x0 -> 0 <= width -> x0 + width <= cols ti -> 0 <= y' < rows ti ->
  place d x0 y' <= place d x y < place d x0 y' + width <-> y = y' /\ x0 <= x < x0 + width.
Proof.
  intros Hd [Hx Hy] Hx0 Hw Hxw Hy'; cbn in Hx, Hy; unfold place; rewrite (vesa_cols _ _ Hd).
  split; [intros H|intros [-> H]; lia].
  destruct (Z.lt_trichotomy y y') as [Hlt|[->|Hlt]]; [|lia|];
    pose proof (rows_apart (cols ti + 2) _ _ ltac:(lia) Hlt); lia.
Qed.

Lemma place_bound ti d x y : vesa_ok ti d -> on_screen ti (Xy x y) ->
  0 <= place d x y /\ (Z.to_nat (place d x y) + (Z.to_nat (cols ti - x)) < length (text_display d))%nat.
Proof.
  intros Hd [Hx Hy]; cbn in Hx, Hy; rewrite (vesa_size _ _ Hd).
  pose proof (place_row ti d x y Hd ltac:(lia) ltac:(lia)) as [[H1 H2] H3]; split; [done|].
  assert (place d x y + (cols ti - x) < (y + 2) * (cols ti + 2)) by (unfold place; rewrite (vesa_cols _ _ Hd); lia).
  assert ((y + 2) * (cols ti + 2) <= (rows ti + 2) * (cols ti + 2)) by (apply Z.mul_le_mono_nonneg_r; lia).
  replace ((cols ti + 2) * (rows ti + 2)) with ((rows ti + 2) * (cols ti + 2)) by lia; lia.
Qed.

(** *** The box *)

Lemma touch_dirty row col h w b x y :
  0 <= row -> 0 <= col -> 0 <= h -> 0 <= w -> row + h < 4294967296 -> col + w < 4294967296 ->
  let b' := vesacon_touch row col h w b in
  (upd_x0 b <= x < upd_x1 b /\ upd_y0 b <= y < upd_y1 b \/ col <= x < col + w /\ row <= y < row + h) ->
  upd_x0 b' <= x < upd_x1 b' /\ upd_y0 b' <= y < upd_y1 b'.
Proof.
  intros H1 H2 H3 H4 H5 H6 b' H; unfold b', vesacon_touch; rewrite !(u32_small row), !(u32_small col), !u32_small by lia.
  cbn; repeat match goal with |- context [?a <? ?b] => destruct (Z.ltb_spec a b) end; lia.
Qed.

Definition box_ok (b : box) : Prop := is_u32 (upd_x0 b) /\ is_u32 (upd_x1 b) /\ is_u32 (upd_y0 b) /\ is_u32 (upd_y1 b).

Lemma touch_box row col h w b : box_ok b -> box_ok (vesacon_touch row col h w b).
Proof.
  intros (H1 & H2 & H3 & H4); unfold vesacon_touch.
  pose proof (u32_range row); pose proof (u32_range col); pose proof (u32_range (u32 row + h)); pose proof (u32_range (u32 col + w)).
  unfold box_ok, is_u32 in *; cbn; repeat match goal with |- context [?a <? ?b] => destruct (Z.ltb_spec a b) end; lia.
Qed.

(** What a call leaves: the screen it means, and everything that was dirty or has
    changed is dirty. *)
Definition performs (ti : term_info) (c : call) (d d' : vesa) : Prop :=
  vesa_ok ti d' /\
  forall x y, on_screen ti (Xy x y) ->
    cell d' x y = effect ti c (cell d) x y /\
    (dirty d x y \/ cell d' x y <> cell d x y -> dirty d' x y).

Lemma performs_display ti c d m row col h w :
  vesa_ok ti d -> length m = length (text_display d) ->
  0 <= row -> 0 <= col -> 0 <= h -> 0 <= w -> row + h < 4294967296 -> col + w < 4294967296 ->
  (forall x y, on_screen ti (Xy x y) ->
    m !! Z.to_nat (place d x y) = effect ti c (cell d) x y /\
    (col <= x < col + w /\ row <= y < row + h \/ m !! Z.to_nat (place d x y) = cell d x y)) ->
  performs ti c d (set_display m (vesacon_touch row col h w (upd d)) d).
Proof.
  intros Hd Hm H1 H2 H3 H4 H5 H6 H; split; [destruct Hd; split; try done; [cbn; congruence|now apply touch_box]|].
  intros x y Hxy; destruct (H x y Hxy) as [Ha Hb]; split; [exact Ha|].
  intros Hc; apply (touch_dirty row col h w (upd d) x y H1 H2 H3 H4 H5 H6).
  destruct Hc as [Hc|Hc]; [now left|right]; destruct Hb as [Hb|Hb]; [done|exfalso; apply Hc; exact Hb].
Qed.

Lemma erase_performs ti st x0 y0 x1 y1 d :
  screen_ok ti -> vesa_ok ti d -> call_ok ti (Erase st x0 y0 x1 y1) ->
  exists d', do_call (Erase st x0 y0 x1 y1) d = Some d' /\ performs ti (Erase st x0 y0 x1 y1) d d'.
Proof.
  intros Hok Hd (_ & Hx0 & Hx1 & Hy0 & Hy1); pose proof (ok_rows _ Hok) as Hr; pose proof (ok_cols _ Hok) as Hc.
  cbn [do_call op_erase vesa_ops]; unfold vesacon_erase.
  pose proof (place_bound ti d x0 y1 Hd ltac:(split; cbn; lia)) as [Hp1 Hp2].
  pose proof (place_bound ti d x0 y0 Hd ltac:(split; cbn; lia)) as [Hp3 _].
  assert (Hpl : place d x0 y1 = place d x0 y0 + (y1 - y0) * (cols ti + 2)).
  { replace y1 with (y0 + (y1 - y0)) at 1 by lia; rewrite place_below, (vesa_cols _ _ Hd); done. }
  pose proof (Z.mul_nonneg_nonneg (y1 - y0) (cols ti + 2) ltac:(lia) ltac:(lia)) as Hpos.
  rewrite u32_small, (vesa_cols _ _ Hd) by lia.
  destruct (lines_spec (VesaChar 32 (cindex st)) (Z.to_nat (x1 - x0 + 1)) (Z.to_nat (cols ti + 2))
    (Z.to_nat (y1 - y0 + 1)) (text_display d) (Z.to_nat (place d x0 y0))) as (m & E & Hl & Hm).
  { replace (Z.to_nat (y1 - y0 + 1) * Z.to_nat (cols ti + 2))%nat
      with (Z.to_nat ((y1 - y0) * (cols ti + 2)) + Z.to_nat (cols ti + 2))%nat; [lia|].
    rewrite <- Z2Nat.inj_mul, <- Z2Nat.inj_add by lia; f_equal; lia. }
  rewrite E; eexists; split; [reflexivity|]; apply performs_display; try done; try lia.
  intros x y Hxy; destruct (Hm (Z.to_nat (place d x y))) as (_ & Hin & Hout).
  pose proof (place_bound ti d x y Hd Hxy) as [Hp _].
  assert (Hwithin : forall k, (k < Z.to_nat (y1 - y0 + 1))%nat ->
    (Z.to_nat (place d x0 y0) + k * Z.to_nat (cols ti + 2) <= Z.to_nat (place d x y) <
       Z.to_nat (place d x0 y0) + k * Z.to_nat (cols ti + 2) + Z.to_nat (x1 - x0 + 1))%nat <->
    y = y0 + Z.of_nat k /\ x0 <= x < x0 + (x1 - x0 + 1)).
  { intros k Hk; rewrite <- (place_within ti d x y x0 (y0 + Z.of_nat k) (x1 - x0 + 1)) by (done || lia).
    rewrite place_below, (vesa_cols _ _ Hd).
    pose proof (Z.mul_nonneg_nonneg (Z.of_nat k) (cols ti + 2) ltac:(lia) ltac:(lia)).
    replace (k * Z.to_nat (cols ti + 2))%nat with (Z.to_nat (Z.of_nat k * (cols ti + 2)))
      by (rewrite Z2Nat.inj_mul, Nat2Z.id by lia; done).
    lia. }
  cbn [effect]; destruct ((x0 <=? x) && (x <=? x1) && (y0 <=? y) && (y <=? y1)) eqn:Eb.
  - bools; split; [|left; lia]; apply (Hin (Z.to_nat (y - y0))); [lia|apply Hwithin; lia].
  - assert (Hno : m !! Z.to_nat (place d x y) = cell d x y); [|auto].
    apply Hout; intros k Hk H; apply Hwithin in H; [|done]; bools; lia.
Qed.

Lemma write_performs ti x0 y0 c st d :
  screen_ok ti -> vesa_ok ti d -> call_ok ti (WriteChar x0 y0 c st) ->
  exists d', do_call (WriteChar x0 y0 c st) d = Some d' /\ performs ti (WriteChar x0 y0 c st) d d'.
Proof.
  intros Hok Hd (_ & Hon & _); pose proof Hon as [Hx0 Hy0]; cbn in Hx0, Hy0.
  pose proof (ok_rows _ Hok) as Hr; pose proof (ok_cols _ Hok) as Hc; cbn [do_call op_write_char vesa_ops]; unfold vesacon_write_char.
  pose proof (place_bound ti d x0 y0 Hd Hon) as [Hp0 Hpl].
  destruct (fill_spec (VesaChar c (cindex st)) 1 (text_display d) (Z.to_nat (place d x0 y0))) as (m & E & Hl & Hm); [lia|].
  rewrite E; eexists; split; [reflexivity|]; apply performs_display; try done; try lia.
  intros x y Hxy; rewrite Hm; pose proof (place_bound ti d x y Hd Hxy) as [Hp _].
  pose proof (place_within ti d x y x0 y0 1 Hd Hxy ltac:(lia) ltac:(lia) ltac:(lia) ltac:(lia)) as Hw; cbn [effect].
  destruct (decide (Z.to_nat (place d x0 y0) <= Z.to_nat (place d x y) < Z.to_nat (place d x0 y0) + 1)%nat) as [H|H].
  - assert (y = y0 /\ x0 <= x < x0 + 1) as [-> ?] by (apply Hw; lia).
    rewrite (proj2 (Z.eqb_eq x x0)), Z.eqb_refl by lia; split; [done|left; lia].
  - destruct ((x =? x0) && (y =? y0)) eqn:Eb; [|split; [done|now right]].
    bools; subst; lia.
Qed.

Lemma scroll_performs ti st d :
  screen_ok ti -> vesa_ok ti d ->
  exists d', do_call (ScrollUp st) d = Some d' /\ performs ti (ScrollUp st) d d'.
Proof.
  intros Hok Hd; pose proof (ok_rows _ Hok) as Hr; pose proof (ok_cols _ Hok) as Hc.
  cbn [do_call op_scroll_up vesa_ops]; unfold vesacon_scroll_up; rewrite (vesa_cols _ _ Hd), (vesa_rows _ _ Hd).
  set (w := cols ti + 2); pose proof (vesa_size _ _ Hd) as Hsz; fold w in Hsz.
  pose proof (Z.mul_nonneg_nonneg (rows ti - 1) w ltac:(lia) ltac:(lia)) as Hpos.
  set (n := Z.to_nat ((rows ti - 1) * w)).
  destruct (copy_spec n (text_display d) (Z.to_nat w) (Z.to_nat ((1 + 1) * w))) as (m1 & E1 & L1 & H1); [lia|unfold n; lia|].
  rewrite E1; destruct (fill_spec (VesaChar 32 (cindex st)) (Z.to_nat (1 * w)) m1 (Z.to_nat w + n)%nat) as (m & E & Hl & Hm);
    [unfold n; lia|].
  rewrite E; eexists; split; [reflexivity|]; apply performs_display; try done; try lia.
  intros x y Hxy; pose proof Hxy as [Hx Hy]; cbn in Hx, Hy; split; [|left; lia].
  pose proof (place_row ti d x y Hd ltac:(lia) ltac:(lia)) as [[Hp1 Hp2] Hp]; fold w in Hp1, Hp2.
  rewrite Hm, H1; cbn [effect]; unfold n; destruct (Z.ltb_spec y (rows ti - 1)).
  - assert ((y + 2) * w <= rows ti * w) by (apply Z.mul_le_mono_nonneg_r; lia).
    assert (w <= (y + 1) * w) by (pose proof (rows_apart w 0 (y + 1)); lia).
    rewrite decide_False, decide_True by lia.
    unfold cell; f_equal; rewrite place_below, (vesa_cols _ _ Hd); fold w; lia.
  - assert (y = rows ti - 1) as -> by lia; rewrite decide_True by lia; done.
Qed.

Lemma cursor_performs ti c p v d :
  screen_ok ti -> vesa_ok ti d -> on_screen ti p -> (forall f x y, effect ti c f x y = f x y) ->
  performs ti c d (vesacon_setcursor (x p) (y p) v d).
Proof.
  intros Hok Hd Hp Hc; pose proof (ok_rows _ Hok) as Hr; pose proof (ok_cols _ Hok) as Hcl.
  pose proof Hp as [Hpx Hpy]; unfold vesacon_setcursor, __vesacon_set_cursor; set (b := v && cursor_enabled d).
  assert (Ht : forall q bx x0 y0, on_screen ti q -> upd_x0 bx <= x0 < upd_x1 bx /\ upd_y0 bx <= y0 < upd_y1 bx ->
    let b' := vesacon_touch (y q) (x q) 1 1 bx in upd_x0 b' <= x0 < upd_x1 b' /\ upd_y0 b' <= y0 < upd_y1 b').
  { intros q bx x0 y0 [Hqx Hqy] H; apply touch_dirty; try lia; now left. }
  set (b1 := if cursor_pointer d then vesacon_touch (cursor_y d) (cursor_x d) 1 1 (upd d) else upd d).
  assert (Hb1 : forall x0 y0, dirty d x0 y0 -> upd_x0 b1 <= x0 < upd_x1 b1 /\ upd_y0 b1 <= y0 < upd_y1 b1).
  { intros x0 y0 H; unfold b1; pose proof (vesa_cursor _ _ Hd) as Hcur; destruct (cursor_pointer d); [|done].
    apply (Ht (Xy (cursor_x d) (cursor_y d))); [apply Hcur; eauto|done]. }
  assert (Hbox : box_ok b1) by (unfold b1; destruct (cursor_pointer d); [apply touch_box|]; apply (vesa_box _ _ Hd)).
  destruct b; (split; [destruct Hd; split; try done; try (now apply touch_box); intros _; exact Hp|]).
  all: intros x0 y0 Hxy; rewrite Hc; split; [done|]; intros [H|H]; [|done].
  - apply (Ht p); auto.
  - exact (Hb1 x0 y0 H).
Qed.

(** A device does what it is called for. *)
Lemma do_call_performs ti c d :
  screen_ok ti -> vesa_ok ti d -> call_ok ti c -> exists d', do_call c d = Some d' /\ performs ti c d d'.
Proof.
  intros Hok Hd Hc; destruct c as [| | | |cx cy v|].
  - now apply erase_performs.
  - now apply write_performs.
  - eexists; split; [reflexivity|]; now apply cursor_performs.
  - now apply scroll_performs.
  - eexists; split; [reflexivity|]; now apply (cursor_performs ti _ (Xy cx cy)).
  - exists d; split; [done|split; [done|]]; intros x0 y0 _; split; [done|]; intros [H|H]; done.
Qed.

(** What the calls in a row do to a screen. *)
Definition effects (ti : term_info) (cs : list call) (f : Z -> Z -> option vesa_char) : Z -> Z -> option vesa_char :=
  fold_left (fun f c => effect ti c f) cs f.

Lemma effect_ext ti c f g x y :
  1 <= rows ti -> on_screen ti (Xy x y) -> (forall x y, on_screen ti (Xy x y) -> f x y = g x y) ->
  effect ti c f x y = effect ti c g x y.
Proof.
  intros Hr Hxy H; pose proof Hxy as [Hx Hy]; cbn in Hx, Hy; destruct c; cbn [effect];
    repeat match goal with |- context [if ?b then _ else _] => destruct b eqn:? end; auto.
  bools; apply H; split; cbn; lia.
Qed.

Lemma effects_ext ti cs : forall f g x y,
  1 <= rows ti -> on_screen ti (Xy x y) -> (forall x y, on_screen ti (Xy x y) -> f x y = g x y) ->
  effects ti cs f x y = effects ti cs g x y.
Proof.
  unfold effects; induction cs as [|c cs IH]; intros f g x y Hr Hxy H; cbn [fold_left]; [auto|].
  apply IH; [done|done|]; intros; now apply effect_ext.
Qed.

Lemma do_calls_perform ti cs : forall d,
  screen_ok ti -> vesa_ok ti d -> Forall (call_ok ti) cs ->
  exists d', do_calls cs d = Some d' /\ vesa_ok ti d' /\
    forall x y, on_screen ti (Xy x y) ->
      cell d' x y = effects ti cs (cell d) x y /\ (dirty d x y \/ cell d' x y <> cell d x y -> dirty d' x y).
Proof.
  induction cs as [|c cs IH]; intros d Hok Hd Hcs; cbn [do_calls].
  - exists d; split; [done|split; [done|]]; intros x y _; split; [done|]; intros [H|H]; done.
  - inversion_clear Hcs as [|? ? Hc Hcs']; destruct (do_call_performs ti c d Hok Hd Hc) as (d1 & E1 & Hd1 & H1); rewrite E1.
    destruct (IH d1 Hok Hd1 Hcs') as (d' & E & Hd' & H'); exists d'; split; [done|split; [done|]].
    intros x y Hxy; destruct (H' x y Hxy) as [Ha Hb]; destruct (H1 x y Hxy) as [Ha1 Hb1]; split.
    + rewrite Ha; cbn [effects fold_left]; apply effects_ext; [pose proof (ok_rows _ Hok); lia|done|].
      intros x' y' Hxy'; apply (H1 x' y' Hxy').
    + intros Hch; apply Hb; destruct Hch as [Hch|Hch]; [left; auto|].
      destruct (decide (cell d1 x y = cell d x y)) as [E2|Hne]; [right; congruence|left; auto].
Qed.

(** ** Writing *)

Lemma each_written ti s : forall st calls,
  screen_ok ti -> wf ti st -> Forall is_byte s -> Forall (call_ok ti) calls ->
  match each (ansi_putchar 2 ti) s st calls with
  | Done st' calls => wf ti st' /\ Forall (call_ok ti) calls
  | Fault => True
  | Deep => False
  end.
Proof.
  induction s as [|c s IH]; intros st calls Hok Hw Hs Hc; cbn [each]; [done|]; inversion_clear Hs as [|? ? Hb Hs'].
  pose proof (ansi_putchar_step ti st c Hok Hw Hb) as H; destruct (ansi_putchar 2 ti st c) as [st1 calls1| |]; try done.
  destruct H as [Hw1 Hc1]; apply IH; [done|done|done|now apply Forall_app].
Qed.

(** In a drawn region: first row and column, numbers of rows and columns. *)
Definition drawn (r : option (Z * Z * Z * Z)) (x y : Z) : Prop :=
  match r with Some (row, col, h, w) => row <= y < row + h /\ col <= x < col + w | None => False end.

Lemma doit_draws ti d :
  vesa_ok ti d ->
  let (d', r) := vesacon_doit d in
  vesa_ok ti d' /\ text_display d' = text_display d /\ forall x y, (dirty d x y -> drawn r x y) /\ ~ dirty d' x y.
Proof.
  intros Hd; unfold vesacon_doit; destruct (vesa_box _ _ Hd) as (H1 & H2 & H3 & H4); unfold is_u32 in *.
  destruct ((upd_x0 (upd d) <? upd_x1 (upd d)) && (upd_y0 (upd d) <? upd_y1 (upd d))) eqn:E.
  - bools; split; [destruct Hd; split; try done; cbn; unfold is_u32; lia|split; [done|]].
    intros x y; unfold dirty, drawn; cbn; rewrite !u32_small by lia; lia.
  - split; [done|split; [done|]]; intros x y; unfold dirty, drawn; bools; lia.
Qed.

Lemma vesacon_write_step ti s st d :
  screen_ok ti -> wf ti st -> vesa_ok ti d -> Forall is_byte s ->
  match ansi_write ti s st with
  | Done st' calls =>
      exists d' r, vesacon_write ti s st d = Some (st', d', r) /\ wf ti st' /\ vesa_ok ti d' /\
        forall x y, on_screen ti (Xy x y) ->
          cell d' x y = effects ti calls (cell d) x y /\ ~ dirty d' x y /\
          (dirty d x y \/ cell d' x y <> cell d x y -> drawn r x y)
  | Fault => vesacon_write ti s st d = None
  | Deep => False
  end.
Proof.
  intros Hok Hw Hd Hs; pose proof (each_written ti s st [] Hok Hw Hs ltac:(constructor)) as H.
  unfold vesacon_write; fold (ansi_write ti s st) in H; destruct (ansi_write ti s st) as [st' calls| |]; [|done|done].
  destruct H as [Hw' Hc]; destruct (do_calls_perform ti calls d Hok Hd Hc) as (d1 & E1 & Hd1 & H1); rewrite E1.
  pose proof (doit_draws ti d1 Hd1) as H2; destruct (vesacon_doit d1) as [d' r] eqn:E2; destruct H2 as (Hd' & Ed & H2).
  exists d', r; split; [done|split; [done|split; [done|]]]; intros x y Hxy.
  assert (Ecell : cell d' x y = cell d1 x y).
  { unfold cell, place; now rewrite Ed, (vesa_cols _ _ Hd'), (vesa_cols _ _ Hd1). }
  rewrite Ecell; destruct (H1 x y Hxy) as [Ha Hb], (H2 x y) as [Hc2 Hn]; auto.
Qed.

(** C30: what is written to the console is on its screen: the array holds what the
    calls of the terminal mean on a screen of rows and columns, without an access
    outside of it; what has changed since the console was drawn is drawn; only the
    reset sequence ends it. *)
Theorem vesacon_write_correct ti s st d :
  screen_ok ti -> wf ti st -> vesa_ok ti d -> Forall is_byte s ->
  match ansi_write ti s st with
  | Done st' calls =>
      exists d' r, vesacon_write ti s st d = Some (st', d', r) /\ wf ti st' /\ vesa_ok ti d' /\
        forall x y, on_screen ti (Xy x y) ->
          cell d' x y = effects ti calls (cell d) x y /\ ~ dirty d' x y /\
          (dirty d x y \/ cell d' x y <> cell d x y -> drawn r x y)
  | Fault => vesacon_write ti s st d = None
  | Deep => False
  end.
Proof. apply vesacon_write_step. Qed.

(** ** Text *)

(** A text laid out in lines of [width]: a character of it, one that begins a new line,
    a tabulator. *)
Definition typeset (width : nat) (t : list Z) (c : Z) : list Z :=
  if c =? 9 then t ++ replicate (Z.to_nat (8 - Z.land (Z.of_nat (length t) mod Z.of_nat width) 7)) 32
  else if (10 <=? c) && (c <=? 12) then t ++ replicate (width - length t mod width) 32
  else t ++ [c].

Definition text_char (c : Z) : bool := ((9 <=? c) && (c <=? 12)) || ((32 <=? c) && (c <? 127)) || ((128 <=? c) && (c <? 256)).

(** The line of the tape that is first on the screen when [n] characters are written. *)
Definition top (ti : term_info) (n : Z) : Z := Z.max 0 (n / cols ti - (rows ti - 1)).

(** A screen whose first line is the line [l] of the tape [t], and blanks behind it. *)
Definition view (ti : term_info) (a : Z) (t : list Z) (l : Z) (f : Z -> Z -> option vesa_char) : Prop :=
  forall x y, on_screen ti (Xy x y) -> f x y = Some (VesaChar (default 32 (t !! Z.to_nat ((l + y) * cols ti + x))) a).

(** A terminal that writes text. *)
Definition plain (a : Z) (st : term_state) : Prop :=
  state st = st_init /\ autowrap st = true /\ autocr st = true /\ vtgraphics st = false /\ cindex st = a.

(** The terminal and the screen after the tape is written. *)
Definition shows (ti : term_info) (a : Z) (t : list Z) (st : term_state) (f : Z -> Z -> option vesa_char) : Prop :=
  let n := Z.of_nat (length t) in
  plain a st /\ xy st = Xy (n mod cols ti) (n / cols ti - top ti n) /\ view ti a t (top ti n) f.

Lemma view_scroll ti a t l f st :
  1 <= rows ti -> 1 <= cols ti -> cindex st = a -> 0 <= l -> Z.of_nat (length t) <= (l + rows ti) * cols ti ->
  view ti a t l f -> view ti a t (l + 1) (effect ti (ScrollUp st) f).
Proof.
  intros Hr Hc Ha Hl Hn H x y [Hx Hy]; cbn in Hx, Hy; cbn [effect]; destruct (Z.ltb_spec y (rows ti - 1)).
  - rewrite H by (split; cbn; lia); do 4 f_equal; lia.
  - replace y with (rows ti - 1) by lia; unfold blank; rewrite Ha, (proj2 (lookup_ge_None t _)); [done|].
    replace (l + 1 + (rows ti - 1)) with (l + rows ti) by lia.
    pose proof (Z.mul_nonneg_nonneg (l + rows ti) (cols ti) ltac:(lia) ltac:(lia)); lia.
Qed.

Lemma view_pad ti a t l f k : view ti a t l f -> view ti a (t ++ replicate k 32) l f.
Proof.
  intros H x y Hxy; rewrite H by done; do 2 f_equal; set (i := Z.to_nat _).
  destruct (decide (i < length t)%nat); [now rewrite lookup_app_l by lia|].
  rewrite lookup_app_r, (proj2 (lookup_ge_None t i)) by lia; cbn.
  destruct (decide (i - length t < k)%nat); [now rewrite lookup_replicate_2 by lia|].
  now rewrite (proj2 (lookup_ge_None _ _)) by (rewrite length_replicate; lia).
Qed.

Lemma view_write ti a t l f c st x0 y0 :
  cindex st = a -> 0 <= l -> on_screen ti (Xy x0 y0) -> Z.of_nat (length t) = (l + y0) * cols ti + x0 ->
  view ti a t l f -> view ti a (t ++ [c]) l (effect ti (WriteChar x0 y0 c st) f).
Proof.
  intros Ha Hl [Hx0 Hy0] Hn H x y Hxy; pose proof Hxy as [Hx Hy]; cbn in Hx0, Hy0, Hx, Hy; cbn [effect].
  pose proof (Z.mul_nonneg_nonneg (l + y) (cols ti) ltac:(lia) ltac:(lia)) as Hpos.
  destruct ((x =? x0) && (y =? y0)) eqn:E.
  - bools; subst x y; rewrite <- Hn, Nat2Z.id, lookup_app_r, Nat.sub_diag by lia; now rewrite Ha.
  - rewrite H by done; do 2 f_equal; set (i := Z.to_nat _).
    destruct (decide (i < length t)%nat); [now rewrite lookup_app_l by lia|].
    rewrite lookup_app_r, (proj2 (lookup_ge_None t i)) by lia.
    destruct (decide (i = length t)) as [Ei|]; [|now rewrite (proj2 (lookup_ge_None [c] _)) by (cbn [length]; lia)].
    exfalso; assert ((l + y) * cols ti + x = (l + y0) * cols ti + x0) by lia.
    assert (y = y0) as ->; [|bools; lia].
    destruct (Z.lt_trichotomy y y0) as [Hlt|[->|Hlt]]; [|done|];
      pose proof (rows_apart (cols ti) _ _ ltac:(lia) Hlt); lia.
Qed.

(** The end of a character whose tape is [t]: the cursor is where the tape ends, and the
    screen is scrolled for it. *)
Lemma finish_shows ti a t l st p f calls :
  screen_ok ti -> plain a st -> 0 <= l -> 0 <= y p < 256 ->
  let n := Z.of_nat (length t) in
  wrapped ti st p = Xy (n mod cols ti) (n / cols ti - l) ->
  (l = top ti n \/ l + 1 = top ti n /\ n mod cols ti = 0) ->
  view ti a t l (effects ti calls f) ->
  exists st' calls', finish ti st p calls = Done st' calls' /\ shows ti a t st' (effects ti calls' f).
Proof.
  intros Hok Hp Hl Hy n Hq Htop Hv; pose proof (ok_rows _ Hok) as Hr; pose proof (ok_cols _ Hok) as Hc.
  rewrite finish_spec by done; rewrite Hq; cbn [x y].
  pose proof (Z.div_mod n (cols ti) ltac:(lia)) as Hdm; pose proof (Z.mod_pos_bound n (cols ti) ltac:(lia)) as Hm.
  pose proof (Z.div_pos n (cols ti) ltac:(unfold n; lia) ltac:(lia)) as Hd; unfold top in Htop.
  assert (Hset : forall q, plain a (set_xy q st)) by (intros q; exact Hp).
  eexists _, _; split; [reflexivity|split; [apply Hset|fold n; split; [cbn [xy set_xy]; f_equal; unfold top; lia|]]].
  unfold effects; rewrite !fold_left_app; cbn [fold_left effect]; fold (effects ti calls f).
  destruct Htop as [->|[Hl1 Hm0]].
  - fold (top ti n) in Hv |- *; replace (Z.to_nat (n / cols ti - top ti n - rows ti + 1)) with 0%nat by (unfold top; lia).
    exact Hv.
  - replace (Z.to_nat (n / cols ti - l - rows ti + 1)) with 1%nat by lia; cbn [replicate fold_left].
    fold (top ti n) in Hl1; rewrite <- Hl1; apply view_scroll; try lia; [apply Hp|fold n|exact Hv].
    assert (n / cols ti = l + rows ti) by (unfold top in Hl1; lia).
    rewrite Hdm, Hm0; lia.
Qed.

(** The line after the one of [m] is first on the screen, or the same one. *)
Lemma top_step ti m n l :
  1 <= rows ti -> l = top ti m -> n / cols ti = m / cols ti \/ n / cols ti = m / cols ti + 1 /\ n mod cols ti = 0 ->
  l = top ti n \/ l + 1 = top ti n /\ n mod cols ti = 0.
Proof. intros Hr -> H; unfold top; lia. Qed.

Lemma write_shows ti a t st f c (fuel : nat) :
  screen_ok ti -> shows ti a t st f -> 32 <= c < 256 -> c <> 127 ->
  exists st' calls', ansi_putchar (S fuel) ti st c = Done st' calls' /\ shows ti a (t ++ [c]) st' (effects ti calls' f).
Proof.
  intros Hok (Hp & Exy & Hv) Hc H127; pose proof (ok_rows _ Hok) as Hr; pose proof (ok_cols _ Hok) as Hcl.
  pose proof Hp as (Est & Hwrap & _ & Hvt & Ha); set (n := Z.of_nat (length t)) in *.
  pose proof (Z.div_mod n (cols ti) ltac:(lia)) as Hdm; pose proof (Z.mod_pos_bound n (cols ti) ltac:(lia)) as Hm.
  pose proof (Z.div_pos n (cols ti) ltac:(unfold n; lia) ltac:(lia)) as Hd.
  assert (Hy : 0 <= n / cols ti - top ti n < rows ti) by (unfold top; lia).
  assert (E : ansi_putchar (S fuel) ti st c =
    finish ti st (Xy (n mod cols ti + 1) (n / cols ti - top ti n)) [WriteChar (n mod cols ti) (n / cols ti - top ti n) c st]).
  { cbn [ansi_putchar]; rewrite Est, Exy; unfold putchar_init; rewrite Hvt; zdec; cbn [andb x y].
    now rewrite u8_small by lia. }
  rewrite E; apply (finish_shows ti a (t ++ [c]) (top ti n)); try done; try (unfold top; lia); try (cbn; lia).
  - replace (Z.of_nat (length (t ++ [c]))) with (n + 1) by (rewrite length_app; cbn [length]; lia).
    unfold wrapped; cbn [x y]; destruct (Z.leb_spec (cols ti) (n mod cols ti + 1)).
    + rewrite Hwrap; assert (Hn1 : n + 1 = (n / cols ti + 1) * cols ti) by lia.
      rewrite Hn1 at 1 2; rewrite Z.mod_mul, Z.div_mul, u8_small by lia; f_equal; lia.
    + rewrite <- (Z.mod_unique (n + 1) (cols ti) (n / cols ti) (n mod cols ti + 1)) by lia.
      now rewrite <- (Z.div_unique (n + 1) (cols ti) (n / cols ti) (n mod cols ti + 1)) by lia.
  - replace (Z.of_nat (length (t ++ [c]))) with (n + 1) by (rewrite length_app; cbn [length]; lia).
    apply (top_step ti n); [lia|done|].
    destruct (Z.eq_dec (n mod cols ti + 1) (cols ti)) as [He|He].
    + right; assert (Hn1 : n + 1 = (n / cols ti + 1) * cols ti) by lia.
      rewrite Hn1; rewrite Z.mod_mul, Z.div_mul by lia; done.
    + left; now rewrite <- (Z.div_unique (n + 1) (cols ti) (n / cols ti) (n mod cols ti + 1)) by lia.
  - cbn [effects fold_left]; apply view_write; [exact Ha|unfold top; lia|split; cbn; lia|fold n; lia|exact Hv].
Qed.

Lemma newline_shows ti a t st f c (fuel : nat) :
  screen_ok ti -> shows ti a t st f -> 10 <= c <= 12 ->
  exists st' calls', ansi_putchar (S fuel) ti st c = Done st' calls' /\
    shows ti a (t ++ replicate (Z.to_nat (cols ti) - length t mod Z.to_nat (cols ti)) 32) st' (effects ti calls' f).
Proof.
  intros Hok (Hp & Exy & Hv) Hc; pose proof (ok_rows _ Hok) as Hr; pose proof (ok_cols _ Hok) as Hcl.
  pose proof Hp as (Est & _ & Hcr & _ & Ha); set (n := Z.of_nat (length t)) in *.
  pose proof (Z.div_mod n (cols ti) ltac:(lia)) as Hdm; pose proof (Z.mod_pos_bound n (cols ti) ltac:(lia)) as Hm.
  pose proof (Z.div_pos n (cols ti) ltac:(unfold n; lia) ltac:(lia)) as Hd.
  assert (Hy : 0 <= n / cols ti - top ti n < rows ti) by (unfold top; lia).
  assert (E : ansi_putchar (S fuel) ti st c = finish ti st (Xy 0 (n / cols ti - top ti n + 1)) []).
  { cbn [ansi_putchar]; rewrite Est, Exy; unfold putchar_init; rewrite Hcr; zdec; cbn [andb x y].
    now rewrite u8_small by lia. }
  assert (Hmod : Z.of_nat (length t mod Z.to_nat (cols ti)) = n mod cols ti) by (rewrite Nat2Z.inj_mod, Z2Nat.id by lia; done).
  assert (Hlen : Z.of_nat (length (t ++ replicate (Z.to_nat (cols ti) - length t mod Z.to_nat (cols ti)) 32)) = (n / cols ti + 1) * cols ti).
  { rewrite length_app, length_replicate; lia. }
  rewrite E; apply (finish_shows ti a _ (top ti n)); try done; try (unfold top; lia); try (cbn; lia).
  - rewrite Hlen, Z.mod_mul, Z.div_mul by lia; unfold wrapped; cbn [x y]; zdec; f_equal; lia.
  - apply (top_step ti n); [lia|done|right]; rewrite Hlen, Z.mod_mul, Z.div_mul by lia; done.
  - now apply view_pad.
Qed.

Lemma blanks_show ti a k (fuel : nat) : screen_ok ti -> forall t st f calls,
  shows ti a t st (effects ti calls f) ->
  exists st' calls', each (ansi_putchar (S fuel) ti) (replicate k 32) st calls = Done st' calls' /\
    shows ti a (t ++ replicate k 32) st' (effects ti calls' f).
Proof.
  intros Hok; induction k as [|k IH]; intros t st f calls H; cbn [replicate each].
  - exists st, calls; now rewrite app_nil_r.
  - destruct (write_shows ti a t st (effects ti calls f) 32 fuel Hok H ltac:(lia) ltac:(lia)) as (st1 & c1 & E1 & H1); rewrite E1.
    destruct (IH (t ++ [32]) st1 f (calls ++ c1)) as (st' & c' & E' & H').
    + unfold effects in *; now rewrite fold_left_app.
    + exists st', c'; split; [done|]; now rewrite <- app_assoc in H'.
Qed.

Lemma char_shows ti a t st f c :
  screen_ok ti -> shows ti a t st f -> text_char c = true ->
  exists st' calls', ansi_putchar 2 ti st c = Done st' calls' /\
    shows ti a (typeset (Z.to_nat (cols ti)) t c) st' (effects ti calls' f).
Proof.
  intros Hok H Hc; pose proof (ok_cols _ Hok) as Hcl; unfold typeset, text_char in *.
  destruct (Z.eqb_spec c 9) as [->|H9].
  - rewrite ansi_putchar_tab by apply H; destruct H as (Hp & Exy & Hv); rewrite Exy, Z2Nat.id by lia; cbn [x].
    apply (blanks_show ti a _ 0 Hok t st f []); done.
  - destruct ((10 <=? c) && (c <=? 12)) eqn:E; [bools; now apply newline_shows|].
    apply write_shows; try done; bools; lia.
Qed.

Lemma text_shows ti a s : screen_ok ti -> forallb text_char s = true -> forall t st f calls,
  shows ti a t st (effects ti calls f) ->
  exists st' calls', each (ansi_putchar 2 ti) s st calls = Done st' calls' /\
    shows ti a (fold_left (typeset (Z.to_nat (cols ti))) s t) st' (effects ti calls' f).
Proof.
  intros Hok; induction s as [|c s IH]; intros Hs t st f calls H; cbn [each fold_left]; [eauto|].
  apply andb_true_iff in Hs as [Hc Hs].
  destruct (char_shows ti a t st (effects ti calls f) c Hok H Hc) as (st1 & c1 & E1 & H1); rewrite E1.
  apply IH; [done|]; unfold effects in *; now rewrite fold_left_app.
Qed.

(** Text is laid out on the screen line by line: what is shown after writing it to
    an empty console - of any size, and scrolled as often as it takes - is the end of
    the text broken into lines of the screen's width, where new lines and tabulators
    are, with the cursor behind it. *)
Theorem plain_text_correct ti a s st d :
  screen_ok ti -> wf ti st -> vesa_ok ti d -> plain a st -> xy st = Xy 0 0 ->
  forallb text_char s = true -> (forall x y, on_screen ti (Xy x y) -> cell d x y = Some (VesaChar 32 a)) ->
  let t := fold_left (typeset (Z.to_nat (cols ti))) s [] in
  let n := Z.of_nat (length t) in
  exists st' d' r, vesacon_write ti s st d = Some (st', d', r) /\
    xy st' = Xy (n mod cols ti) (n / cols ti - top ti n) /\
    forall x y, on_screen ti (Xy x y) ->
      cell d' x y = Some (VesaChar (default 32 (t !! Z.to_nat ((top ti n + y) * cols ti + x))) a).
Proof.
  intros Hok Hw Hd Hp Exy Hs Hcell t n; pose proof (ok_rows _ Hok) as Hr; pose proof (ok_cols _ Hok) as Hc.
  destruct (text_shows ti a s Hok Hs [] st (cell d) []) as (st' & calls & E & Hp' & Exy' & Hv).
  { split; [done|split]; [rewrite Exy; cbn; rewrite Z.mod_0_l, Z.div_0_l by lia; f_equal; unfold top; rewrite Z.div_0_l; lia|].
    intros x y Hxy; cbn; now rewrite Hcell. }
  assert (Hb : Forall is_byte s).
  { apply Forall_forall; intros c Hin; apply list_elem_of_In in Hin; rewrite forallb_forall in Hs; specialize (Hs c Hin).
    unfold text_char in Hs; bools; split; lia. }
  pose proof (vesacon_write_step ti s st d Hok Hw Hd Hb) as H; unfold ansi_write in H; rewrite E in H.
  destruct H as (d' & r & Ew & _ & _ & H); exists st', d', r; split; [done|split; [done|]].
  intros x y Hxy; destruct (H x y Hxy) as (-> & _); now apply Hv.
Qed.

(** The console as it is opened. *)
Lemma console_opened ti d :
  screen_ok ti -> vesa_ok ti d \/ d = unopened ->
  let d' := (init_text_display (rows ti) (cols ti) true d).1 in
  length (text_display d') = Z.to_nat ((cols ti + 2) * (rows ti + 2)) /\
  (cursor_pointer d = None -> vesa_ok ti d' /\ forall x y, on_screen ti (Xy x y) -> cell d' x y = Some (VesaChar 32 0)).
Proof.
  intros Hok Hd d'; pose proof (ok_rows _ Hok) as Hr; pose proof (ok_cols _ Hok) as Hc; split; [apply length_replicate|].
  intros Hcur; assert (Hd' : vesa_ok ti d').
  { split; [done|done|apply length_replicate| |unfold d'; cbn; rewrite Hcur; now intros [? ?]].
    destruct Hd as [Hd| ->]; [exact (vesa_box _ _ Hd)|repeat split; cbn; lia]. }
  split; [exact Hd'|]; intros x y Hxy; pose proof (place_bound ti d' x y Hd' Hxy) as [_ Hp].
  rewrite (vesa_size _ _ Hd') in Hp; unfold cell; cbn [d' init_text_display fst text_display].
  apply lookup_replicate; split; [done|]; unfold d' in *; cbn in *; lia.
Qed.

Definition small_screen : term_info := TermInfo 2 4 [None].

Lemma small_screen_ok : screen_ok small_screen.
Proof.
  split; cbn; try lia; intros p Hp; apply list_elem_of_In in Hp; destruct Hp as [[=]|[]].
Qed.

Definition small_console : vesa := (init_text_display 2 4 true unopened).1.

(** Three lines on a screen of two. *)
Example vesacon_write_correct_witness :
  match ansi_write small_screen [97; 10; 98; 27; 91; 74] default_state with
  | Done st' calls =>
      exists d' r, vesacon_write small_screen [97; 10; 98; 27; 91; 74] default_state small_console = Some (st', d', r) /\
        wf small_screen st' /\ vesa_ok small_screen d' /\
        forall x y, on_screen small_screen (Xy x y) ->
          cell d' x y = effects small_screen calls (cell small_console) x y /\ ~ dirty d' x y /\
          (dirty small_console x y \/ cell d' x y <> cell small_console x y -> drawn r x y)
  | Fault => vesacon_write small_screen [97; 10; 98; 27; 91; 74] default_state small_console = None
  | Deep => False
  end.
Proof.
  apply (vesacon_write_correct small_screen [97; 10; 98; 27; 91; 74] default_state small_console).
  - exact small_screen_ok.
  - apply default_wf, small_screen_ok.
  - destruct (console_opened small_screen unopened small_screen_ok (or_intror eq_refl)) as [_ H]; apply H; reflexivity.
  - apply bytes_ok; reflexivity.
Defined.

Example plain_text_correct_witness :
  let s := [97; 10; 98; 99; 100; 101; 102; 9] in
  let t := fold_left (typeset (Z.to_nat (cols small_screen))) s [] in
  let n := Z.of_nat (length t) in
  exists st' d' r, vesacon_write small_screen s default_state small_console = Some (st', d', r) /\
    xy st' = Xy (n mod cols small_screen) (n / cols small_screen - top small_screen n) /\
    forall x y, on_screen small_screen (Xy x y) ->
      cell d' x y = Some (VesaChar (default 32 (t !! Z.to_nat ((top small_screen n + y) * cols small_screen + x))) 0).
Proof.
  intros s; destruct (console_opened small_screen unopened small_screen_ok (or_intror eq_refl)) as [_ H]; destruct H as [Hd Hc]; [reflexivity|].
  apply (plain_text_correct small_screen 0 s default_state small_console);
    [exact small_screen_ok|apply default_wf, small_screen_ok|exact Hd|repeat split|reflexivity|reflexivity|exact Hc].
Defined.

Definition line (d : vesa) (y : nat) : list Z :=
  map (fun x => from_option ch 0 (cell d (Z.of_nat x) (Z.of_nat y))) (seq 0 (Z.to_nat (text_cols d))).

Example two_lines :
  match vesacon_write small_screen [97; 98; 99; 100; 101; 10; 102] default_state small_console with
  | Some (st', d', _) => (line d' 0, line d' 1, xy st')
  | None => ([], [], Xy 0 0)
  end = ([101; 32; 32; 32], [102; 32; 32; 32], Xy 1 1).
Proof. vm_compute; reflexivity. Qed.

(** Without memory for the array the set-up says so, but nobody asks: what is written
    goes through a NULL pointer. *)
Example no_memory : do_call (WriteChar 0 0 97 default_state) (init_text_display 2 4 false unopened).1 = None.
Proof. reflexivity. Qed.
